(* ===== verification/_CoqProject ===== *)
-Q . S2P
Prelude.v
ArrayMap.v
PerCpuArray.v
BloomFilter.v
FdArray.v
PerfEvent.v
RingBuf.v
RingRefine.v
RingRuns.v
PushPop.v
QueueMap.v
StackMap.v
KvMap.v
UnorderedMap.v
StackTrace.v
VarHashMap.v
PerCpuHash.v
LruHashMap.v
LruRefine.v
LpmTrie.v
LpmRefine.v
Primes.v
HashMap.v
HashRefine.v
MapHandler.v
HandlerManager.v
EbpfIsa.v
UbpfVm.v
UbpfSafe.v
UbpfRuns.v
UbpfCompat.v
LlvmIr.v
LlvmJit.v
LlvmWp.v
LlvmSim.v
LlvmRefine.v
LlvmEquiv.v
LlvmCalls.v
Shm.v
ShmProps.v
ShmMaps.v
ShmWeak.v
ShmEpoll.v
Helpers.v
HelperProps.v
HelperGroup.v
HelperMem.v
SyscallTrace.v
AttachArgs.v
FridaAttach.v
AttachImpl.v
AttachCtx.v
AttachLoad.v
AttachProps.v
SyscallServer.v
SyscallProps.v
JsonValue.v
ShmJson.v
ShmJsonProps.v
RuntimeConfig.v
Interval.v
IntervalProps.v
IntervalBits.v
EbpfNumeric.v
EbpfNumericProps.v
