(* ===== verification/Prelude.v ===== *)
(** * bpftime: a shallow embedding of the userspace eBPF runtime

    bpftime runs eBPF programs in user space. Its runtime (src/runtime) keeps maps, programs, links
    and perf events in a shared memory segment, so that the process that loads a program, the
    processes it is attached to and the tools see the same objects. A table of descriptors, the
    handler manager, holds one handler per object; the handler of a map passes each operation on to
    the implementation of the map's type; programs and system calls reach the maps through these
    handlers. Programs run on a virtual machine: the uBPF interpreter (src/third_party/ubpf), behind a
    wrapper (src/vm/compat/ubpf-vm), or a compiler to LLVM (src/vm/llvm-jit). A loader of programs runs with
    the system call server (src/runtime/syscall-server), which replaces functions of its C library and makes
    its maps, programs, perf events and links in the shared memory. In the process to be traced the attach
    context (src/runtime/src/attach) instantiates the handlers of the table and attaches programs through
    attach implementations (src/attach): the system call tracer, function probes and a simple one. A program
    calls helpers (src/runtime/src/bpf_helper.cpp), which reach the shared memory. The verifier
    (src/bpftime-verifier/ebpf-verifier) checks programs with an abstract interpreter.

    ** Files

    - [Prelude]: machine integers, errors and results, the state and error monad, loops with fuel,
      byte vectors with checked reads and writes, little-endian memory, pointer arguments, and the
      lemmas, hints and tactics on them.
    - Maps (src/runtime/src/bpf_map). Each file has the state of the C++ class as a record, its
      operations under their C++ names, and its theorems; a file [XRefine] holds the proofs of a
      model [X] that are long.
      [ArrayMap] (array_map.cpp, map_in_maps.hpp), [PerCpuArray] (per_cpu_array_map.cpp),
      [BloomFilter] (bloom_filter.cpp), [FdArray] (perf_event_array_map.cpp, prog_array.cpp),
      [RingBuf], [RingRefine], [RingRuns] (ringbuf_map.cpp), [QueueMap] (queue.cpp), [StackMap]
      (stack.cpp), [StackTrace] (stack_trace_map.cpp), [VarHashMap] (var_hash_map.cpp),
      [PerCpuHash] (per_cpu_hash_map.cpp), [LruHashMap], [LruRefine] (lru_var_hash_map.cpp),
      [LpmTrie], [LpmRefine] (lpm_trie_map.cpp), [Primes], [HashMap], [HashRefine]
      (bpftime_hash_map.hpp, fix_hash_map.cpp).
    - Interfaces. [PushPop]: queues and stacks, with the abstract bounded containers they refine;
      [KvMap]: key-value maps, with the lifting of a simulation from operations to sequences;
      [UnorderedMap]: boost::unordered_map, as operations and laws.
    - [MapHandler] (handler/map_handler.cpp): the shared memory as a finite map of named objects, the
      construction and destruction of maps in it, and the dispatch of the operations.
    - [PerfEvent] (handler/perf_event_handler.cpp): the kinds of perf events, and the ring of bytes of a
      software perf event, with the queue of bytes it refines.
    - [HandlerManager] (handler/handler_manager.cpp): the table of descriptors, over an interface
      that [MapHandler] implements.
    - Virtual machines. [EbpfIsa] (ebpf.h, ebpf_inst.h): instructions, opcodes and memory. [UbpfVm]
      (ubpf_vm.c): validation, loading and the interpreter; [UbpfSafe] and [UbpfRuns] hold its
      theorems. [UbpfCompat] (compat_ubpf.cpp): the wrapper. [LlvmIr]: the part of LLVM's language that
      the compiler uses, with its meaning. [LlvmJit] (compiler.cpp, compiler_utils.cpp, vm.cpp,
      llvm_jit_context.cpp): the compiler and its machine. [LlvmWp], [LlvmSim], [LlvmRefine],
      [LlvmEquiv]: the code of one instruction, of a block and of a program does what the interpreter
      does; [LlvmCalls]: local functions, and defects of the compiler.
    - The shared memory. [Shm] (bpftime_shm_internal.cpp, bpftime_shm.cpp, handler/epoll_handler.cpp): the
      state of [bpftime_shm] and its operations, with the C interface; [ShmProps], [ShmMaps], [ShmWeak] and
      [ShmEpoll] hold the theorems on links, on maps behind descriptors, on the weak pointers of epoll
      instances, and on waiting. [JsonValue], [ShmJson], [ShmJsonProps] (bpftime_shm_json.cpp): export and
      import. [RuntimeConfig] (bpftime_config.cpp): the configuration from the environment.
    - Helpers and programs. [Helpers] and [HelperProps] (bpf_helper.cpp): maps, ring buffers, perf events and
      stack traces; [HelperMem]: strings, checked memory, checksums and packets; [HelperGroup] (bpf_helper.cpp,
      bpftime_prog.cpp): the tables of helpers, and programs on the interpreter.
    - Attaching. [SyscallTrace] (attach/syscall_trace_attach_impl), [FridaAttach]
      (attach/frida_uprobe_attach_impl), [AttachArgs] (the strings that name a target), [AttachImpl]
      (attach/base_attach_impl, attach/simple_attach_impl): the interface of the implementations with its laws,
      which the three keep. [AttachCtx], [AttachLoad], [AttachProps] (bpf_attach_ctx.cpp): the attach context,
      proved against that interface.
    - [SyscallServer], [SyscallProps] (syscall-server): the replaced functions, and their composition with the
      shared memory and the attach context.
    - The verifier. [Interval] (crab/interval.hpp, crab/interval.cpp, crab_utils/bignums.hpp): numbers, bounds and
      intervals; [IntervalProps] and [IntervalBits]: their soundness. [EbpfNumeric], [EbpfNumericProps]
      (crab/ebpf_domain.cpp, crab/split_dbm.cpp): the two variables of a register, over the operations of a
      numeric domain.

    ** How the code is modelled

    An unsigned integer is a [Z] reduced with [u8], [u32] or [u64] where the code can wrap. Memory
    that an object owns is a list of bytes, and a pointer into it an offset; reads and writes outside
    of it are [Fault], as are null dereferences, so that a theorem that an operation does not answer
    [Fault] is one of memory safety. A pointer argument is [None] when null, else the bytes it points
    to. [errno] and the return value together are a [res]: [Err e] is -1 or null with [errno] set,
    [Raw c] a number returned as it is, [Throw] an exception. An operation that changes its object
    returns the new state, also on errors. The linked list of the LRU map is a heap of nodes with
    pointers, since its code works by relinking shared nodes; the trie's nodes are owned by their
    parents and are a tree. Programs run on the memory of the process, a finite map from addresses
    to bytes. The calls of LLVM's builder are a state and error monad that appends to the code of the
    current instruction; values are numbered within it, since the compiler keeps everything else in
    variables. A run of the interpreter or of compiled code ends with a value, an error, or where C or
    LLVM leave the behaviour undefined: for LLVM also at an access that is not aligned for its type, and at the
    use of a variable that was not written.

    Code that is not part of the repository is a parameter with its documented behaviour as a class
    of laws, and each class has an instance: [UnorderedMap] and [UnorderedMapLaws] for
    boost::unordered_map (a finite map whose iteration visits each key once in an unknown order),
    [Kernel] and [KernelLaws] for two bpf system calls, [hash_combine] of Boost, the callback of a
    ring buffer's consumer, the current CPU, the page size, random seeds, and what constructing an
    object under a taken name does. [KernelUserMaps] stands for the maps shared with the kernel. [Llvm]
    has the laws of the LLVM language reference for the instructions that are used, and says nothing
    where the reference leaves the behaviour undefined; its instance stops there. Helpers of programs
    are functions on the memory. [PosixFds] and [PosixFdsLaws] are the descriptors of the operating system,
    [JsonText] and [JsonTextLaws] the text of JSON (what is written is read back); whether the Gum library
    accepts a hook, what the replaced functions of the C library do, the regular expressions on section names,
    and whether the verifier accepts a program are arguments. [NumDomain] and [NumDomainLaws] are what
    the functions on registers use of the numeric domain of the verifier, whose difference-bound matrices are
    in the repository but not modelled; a store of intervals is the instance.

    ** What is shown

    - Refinement: every sequence of operations on an LPM trie, hash, variable-size hash, LRU, queue,
      stack or ring buffer map is answered as an abstract map of prefixes, finite map, finite map
      with limits, recency list, FIFO, LIFO or queue of records does; outputs to a software perf event
      and reads of it are those of a queue of bytes. A map behind a handler answers
      as its implementation, whatever else is in the shared memory, so these results carry over; for
      queues this is stated.
    - Invariants: well-formedness of the trie and of the open-addressing table, no leaks of LRU
      nodes, no links without their program and perf event, isolation of the CPUs in per-CPU maps.
    - Virtual machines: a validated program runs without undefined behaviour in the interpreter and only
      touches its memory and stack; programs without backward jumps end; local calls return to their
      caller with its registers; the wrapper's helper numbers and map references mean what the program
      asked for; and the compiled function returns what the interpreter returns, with the same memory,
      for runs without local calls that access aligned addresses, use only registers that were written,
      and execute the instructions on which both agree.
    - Composition: a map that a loader makes through the system call server, or that a program reaches through
      the helpers, answers as the implementation of its type; a program that was given helpers calls them by
      number; records that a program outputs reach the consumer.
    - Shared memory: whatever is done to it, links are between programs and perf events that are there; a
      pointer of an epoll instance to a closed file stays expired; a wait reports only files that are
      ready, and ends once its room for events is full, the time is up, or a signal comes. Export and import give programs, maps,
      tracepoints and links back, but not the cookies of links.
    - Attaching: a call that is traced runs the programs attached to it in order, and what Gum calls when a hooked
      function is entered or left runs those of its entries; instantiating a table ends, also with circular links, and attaches every link that can be;
      every callback runs a loaded program; destroying links detaches.
    - Verifier: the order, join, meet, widening and narrowing of intervals, and an iteration with the widening
      that ends; arithmetic, unsigned division of numbers that are not negative, bitwise operations and truncation
      hold the results of the machine; after the correction of overflow the two variables of a register are readings of one value; the
      shifts by constants. Exactly when the remainder by a constant is sound, and where it, the reading of
      bounds at a width, and other cases are not.
    - Functional behaviour: no false negatives of Bloom filters, prime sizes of tables, iteration
      with next-key, round trips of update and lookup and of making and destroying a map, the
      lowest free descriptor, what clearing a descriptor removes.
    - Error behaviour and defects of the code, as theorems of what it does: lost keys after a delete
      in a probing sequence, hidden prefixes, lost ring buffer samples, sizes that wrap, failures of
      construction that are not reported, and the like.

    ** Bounds and fuel

    Loops over a structure recurse on it. Probing runs at most once around the table; the loop of
    [is_prime] and the search of [next_prime] run on binary fuel ([iter_until]) that the theorems
    show to be enough, the latter since 4294967311 is a prime above every 32-bit number; a pass of the
    ring buffer's consumer has a round per byte between the positions, and each round takes at least
    8; clearing a descriptor recurs to depth 2, since links recur no further; the population count
    has 32 rounds for a 32-bit number and 64 for a 64-bit one. Theorems with capacity assumptions state them: sizes whose
    product fits the width the code computes with, and ring positions below 2^64. Runs of programs take
    fuel, one unit per instruction; the theorems are for every fuel, or show that there is enough. The
    recursion of the attach context along links has a unit for each handler and one more, which is enough since
    a handler that is being instantiated is not entered again; the loop over helper names has a unit for each
    character. Divisions of intervals recur to depth 3 and signed remainders to depth 2, since each operand is
    split at zero once; the loop of [fill_ones] has a round for each bit; the widening needs three steps.

    ** What is not modelled

    Locks and the interleaving of threads inside an operation: operations are atomic here, which the
    code achieves with spin locks for the maps that ask for them, but not for array, per-CPU and
    ring buffer maps; the exception is the ring buffer, whose producers and consumer interleave in
    [RingRuns]. GPU maps and attaching, and the maps shared with the kernel, which need devices or kernel
    objects. The injection of the agent and the hooks that Gum and the text transformer write into machine code.
    uBPF's own compilers and ELF loader, which the build does not use to run programs; LLVM's optimiser and the
    code for CUDA. Of the verifier: decoding, the control-flow graph, the fixpoint engine, difference-bound matrices,
    types, memory and branches, whose theorems would need a model of the graph algorithms of the zone domain. Of the
    helpers: formatted printing, clocks, random numbers and process names, which are calls of the system. The
    daemon, the tools, user functions called through native pointers, and logging: they are input and
    output around the parts above. *)

From stdpp Require Import base numbers list gmap.
From Stdlib Require Import ZArith Lia.

#[global] Open Scope Z_scope.

(** ** Machine integers *)

Definition u8 (x : Z) : Z := x mod 2 ^ 8.
Definition u16 (x : Z) : Z := x mod 2 ^ 16.
Definition u32 (x : Z) : Z := x mod 2 ^ 32.
Definition u64 (x : Z) : Z := x mod 2 ^ 64.
(** Reinterpretation of a bit pattern as an [int16_t], [int32_t] or [int64_t]. *)
Definition s16 (x : Z) : Z := let y := u16 x in if 2 ^ 15 <=? y then y - 2 ^ 16 else y.
Definition s32 (x : Z) : Z := let y := u32 x in if 2 ^ 31 <=? y then y - 2 ^ 32 else y.
Definition s64 (x : Z) : Z := let y := u64 x in if 2 ^ 63 <=? y then y - 2 ^ 64 else y.

Lemma u32_small x : 0 ≤ x < 2 ^ 32 → u32 x = x.
Proof. apply Z.mod_small. Qed.
Lemma u64_small x : 0 ≤ x < 2 ^ 64 → u64 x = x.
Proof. apply Z.mod_small. Qed.
Lemma u32_bound x : 0 ≤ u32 x < 2 ^ 32.
Proof. apply Z.mod_pos_bound. lia. Qed.
Lemma u64_bound x : 0 ≤ u64 x < 2 ^ 64.
Proof. apply Z.mod_pos_bound. lia. Qed.
Lemma s32_small x : 0 ≤ x < 2 ^ 31 → s32 x = x.
Proof. intros H. unfold s32. rewrite u32_small by lia. destruct (Z.leb_spec (2^31) x); lia. Qed.

Lemma u16_bound x : 0 ≤ u16 x < 2 ^ 16.
Proof. apply Z.mod_pos_bound. lia. Qed.
Lemma u16_small x : 0 ≤ x < 2 ^ 16 → u16 x = x.
Proof. apply Z.mod_small. Qed.

(** A signed and an unsigned reading of one pattern. *)
Section signed.
Context (k : Z) (Hk : 0 < k).
Let sgn (x : Z) : Z := let y := x mod 2 ^ k in if 2 ^ (k - 1) <=? y then y - 2 ^ k else y.

Lemma pow2_half : 2 ^ k = 2 * 2 ^ (k - 1).
Proof. rewrite <- Z.pow_succ_r by lia. f_equal. lia. Qed.
Lemma sgn_bound x : - 2 ^ (k - 1) ≤ sgn x < 2 ^ (k - 1).
Proof.
  unfold sgn. pose proof pow2_half. pose proof (Z.mod_pos_bound x (2 ^ k) ltac:(apply Z.pow_pos_nonneg; lia)).
  destruct (Z.leb_spec (2 ^ (k - 1)) (x mod 2 ^ k)); lia.
Qed.
Lemma sgn_small x : - 2 ^ (k - 1) ≤ x < 2 ^ (k - 1) → sgn x = x.
Proof.
  intros Hx. unfold sgn. pose proof pow2_half. destruct (decide (0 ≤ x)).
  - rewrite Z.mod_small by lia. destruct (Z.leb_spec (2 ^ (k - 1)) x); lia.
  - assert (x mod 2 ^ k = x + 2 ^ k) as -> by (symmetry; apply (Z.mod_unique_pos _ _ (-1)); lia).
    destruct (Z.leb_spec (2 ^ (k - 1)) (x + 2 ^ k)); lia.
Qed.
Lemma sgn_mod x : sgn (x mod 2 ^ k) = sgn x.
Proof. unfold sgn. by rewrite Z.mod_mod by (pose proof (Z.pow_pos_nonneg 2 k); lia). Qed.
Lemma mod_sgn x : sgn x mod 2 ^ k = x mod 2 ^ k.
Proof.
  unfold sgn. destruct (2 ^ (k - 1) <=? x mod 2 ^ k); [|by rewrite Z.mod_mod by (pose proof (Z.pow_pos_nonneg 2 k); lia)].
  replace (x mod 2 ^ k - 2 ^ k) with (x mod 2 ^ k + (-1) * 2 ^ k) by lia.
  by rewrite Z_mod_plus_full, Z.mod_mod by (pose proof (Z.pow_pos_nonneg 2 k); lia).
Qed.
End signed.

Lemma s16_bound x : - 2 ^ 15 ≤ s16 x < 2 ^ 15.
Proof. apply (sgn_bound 16). lia. Qed.
Lemma s32_bound x : - 2 ^ 31 ≤ s32 x < 2 ^ 31.
Proof. apply (sgn_bound 32). lia. Qed.
Lemma s64_bound x : - 2 ^ 63 ≤ s64 x < 2 ^ 63.
Proof. apply (sgn_bound 64). lia. Qed.
Lemma s16_small x : - 2 ^ 15 ≤ x < 2 ^ 15 → s16 x = x.
Proof. apply (sgn_small 16). lia. Qed.
Lemma s32_signed x : - 2 ^ 31 ≤ x < 2 ^ 31 → s32 x = x.
Proof. apply (sgn_small 32). lia. Qed.
Lemma s64_signed x : - 2 ^ 63 ≤ x < 2 ^ 63 → s64 x = x.
Proof. apply (sgn_small 64). lia. Qed.
Lemma s16_u16 x : s16 (u16 x) = s16 x.
Proof. apply (sgn_mod 16). lia. Qed.
Lemma s32_u32 x : s32 (u32 x) = s32 x.
Proof. apply (sgn_mod 32). lia. Qed.
Lemma s64_u64 x : s64 (u64 x) = s64 x.
Proof. apply (sgn_mod 64). lia. Qed.
Lemma u16_s16 x : u16 (s16 x) = u16 x.
Proof. apply (mod_sgn 16). lia. Qed.
Lemma u32_s32 x : u32 (s32 x) = u32 x.
Proof. apply (mod_sgn 32). lia. Qed.
Lemma u64_s64 x : u64 (s64 x) = u64 x.
Proof. apply (mod_sgn 64). lia. Qed.

(** A bit test. *)
Lemma land_pow2_testbit b o : 0 ≤ o → (Z.land b (Z.shiftl 1 o) =? 0) = negb (Z.testbit b o).
Proof.
  intros Ho. rewrite Z.shiftl_1_l. destruct (Z.testbit b o) eqn:E; simpl.
  - apply Z.eqb_neq. intros Hz. assert (Hb : Z.testbit (Z.land b (2 ^ o)) o = true).
    { by rewrite Z.land_spec, E, Z.pow2_bits_true. }
    by rewrite Hz, Z.bits_0 in Hb.
  - apply Z.eqb_eq. apply Z.bits_inj'. intros n Hn. rewrite Z.land_spec, Z.bits_0, Z.pow2_bits_eqb by lia.
    destruct (Z.eqb_spec o n) as [->|]; [by rewrite E|apply andb_false_r].
Qed.

Lemma testbit_small a n : 0 ≤ a < 2 ^ n → Z.testbit a n = false.
Proof.
  intros Ha. destruct (Z.le_gt_cases 0 n); [|by apply Z.testbit_neg_r].
  apply Z.testbit_false; [done|]. by rewrite Z.div_small.
Qed.

(** Bitwise operations act on the low bits alone. *)
Lemma testbit_mod_pow2 a n i : 0 ≤ n → Z.testbit (a mod 2 ^ n) i = (i <? n) && Z.testbit a i.
Proof.
  intros Hn. destruct (Z.ltb_spec i n); cbn [andb].
  - destruct (decide (0 ≤ i)); [by apply Z.mod_pow2_bits_low; lia|by rewrite !Z.testbit_neg_r by lia].
  - apply Z.mod_pow2_bits_high. lia.
Qed.
Lemma lor_mod_pow2 a b n : 0 ≤ n → Z.lor a b mod 2 ^ n = Z.lor (a mod 2 ^ n) (b mod 2 ^ n).
Proof. intros. apply Z.bits_inj'. intros i _. rewrite Z.lor_spec, !testbit_mod_pow2, Z.lor_spec by done. by destruct (i <? n). Qed.
Lemma land_mod_pow2 a b n : 0 ≤ n → Z.land a b mod 2 ^ n = Z.land (a mod 2 ^ n) (b mod 2 ^ n).
Proof. intros. apply Z.bits_inj'. intros i _. rewrite Z.land_spec, !testbit_mod_pow2, Z.land_spec by done. by destruct (i <? n). Qed.
Lemma lxor_mod_pow2 a b n : 0 ≤ n → Z.lxor a b mod 2 ^ n = Z.lxor (a mod 2 ^ n) (b mod 2 ^ n).
Proof. intros. apply Z.bits_inj'. intros i _. rewrite Z.lxor_spec, !testbit_mod_pow2, Z.lxor_spec by done. by destruct (i <? n). Qed.
Lemma mod_pow2_bound x n : 0 ≤ n → x = x mod 2 ^ n → 0 ≤ x < 2 ^ n.
Proof. intros Hn ->. apply Z.mod_pos_bound. apply Z.pow_pos_nonneg; lia. Qed.
Lemma lor_bound a b n : 0 ≤ n → 0 ≤ a < 2 ^ n → 0 ≤ b < 2 ^ n → 0 ≤ Z.lor a b < 2 ^ n.
Proof. intros ? Ha Hb. apply mod_pow2_bound; [done|]. by rewrite lor_mod_pow2, !Z.mod_small. Qed.
Lemma land_bound a b n : 0 ≤ n → 0 ≤ a < 2 ^ n → 0 ≤ b < 2 ^ n → 0 ≤ Z.land a b < 2 ^ n.
Proof. intros ? Ha Hb. apply mod_pow2_bound; [done|]. by rewrite land_mod_pow2, !Z.mod_small. Qed.
Lemma lxor_bound a b n : 0 ≤ n → 0 ≤ a < 2 ^ n → 0 ≤ b < 2 ^ n → 0 ≤ Z.lxor a b < 2 ^ n.
Proof. intros ? Ha Hb. apply mod_pow2_bound; [done|]. by rewrite lxor_mod_pow2, !Z.mod_small. Qed.
Lemma shiftr_bound a k n : 0 ≤ k → 0 ≤ a < n → 0 ≤ Z.shiftr a k < n.
Proof.
  intros Hk Ha. rewrite Z.shiftr_div_pow2 by done. pose proof (Z.pow_pos_nonneg 2 k ltac:(lia) Hk).
  split; [apply Z.div_pos; lia|]. apply Z.le_lt_trans with a; [|lia]. apply Z.div_le_upper_bound; nia.
Qed.

(** A ring index that wraps at most once. *)
Lemma mod_wrap x m : 0 < m → 0 ≤ x < 2 * m → x mod m = if x <? m then x else x - m.
Proof.
  intros. destruct (Z.ltb_spec x m); [by apply Z.mod_small; lia|].
  symmetry. apply (Z.mod_unique_pos _ _ 1); lia.
Qed.

Lemma mod_ring_inj h i j m :
  0 ≤ h < m → 0 ≤ i < m → 0 ≤ j < m → (h + i) mod m = (h + j) mod m → i = j.
Proof.
  intros. rewrite !mod_wrap in * by lia.
  destruct (Z.ltb_spec (h + i) m), (Z.ltb_spec (h + j) m); lia.
Qed.

(** ** Error codes and results *)

Inductive errno :=
  | EPERM | ENOENT | EINTR | EBADF | ENOMEM | EFAULT | EBUSY | EEXIST | EINVAL | E2BIG | ENOSPC | ENOTSUP.

(** Linux numbering; [EOPNOTSUPP] and [ENOTSUP] are one value there. *)
Definition errno_val (e : errno) : Z :=
  match e with
  | EPERM => 1 | ENOENT => 2 | EINTR => 4 | EBADF => 9 | ENOMEM => 12 | EFAULT => 14 | EBUSY => 16 | EEXIST => 17
  | EINVAL => 22 | E2BIG => 7 | ENOSPC => 28 | ENOTSUP => 95
  end.
Definition EOPNOTSUPP : errno := ENOTSUP.

#[export] Instance errno_eq_dec : EqDecision errno.
Proof. solve_decision. Defined.

(** What a C++ operation does.
    - [Ok a]: it returns success (0, or a non-null pointer), with [a] the data returned;
    - [Err e]: it sets [errno] to [e] and returns -1 (or a null pointer);
    - [Raw c]: it returns the number [c] without touching [errno];
    - [Throw]: it throws a C++ exception;
    - [Fault]: it accesses memory outside of its object, or dereferences null. *)
Inductive res (A : Type) :=
  | Ok (a : A) | Err (e : errno) | Raw (c : Z) | Throw | Fault.
Arguments Ok {A} a.
Arguments Err {A} e.
Arguments Raw {A} c.
Arguments Throw {A}.
Arguments Fault {A}.

#[export] Instance res_eq_dec {A} `{EqDecision A} : EqDecision (res A).
Proof. solve_decision. Defined.

Definition safe {A} (r : res A) : Prop := r ≠ Fault.
Definition is_ok {A} (r : res A) : bool := match r with Ok _ => true | _ => false end.

Definition res_map {A B} (f : A → B) (r : res A) : res B :=
  match r with
  | Ok a => Ok (f a) | Err e => Err e | Raw c => Raw c | Throw => Throw | Fault => Fault
  end.
#[export] Instance res_ret : MRet res := λ A, Ok.
#[export] Instance res_bind : MBind res := λ A B f r,
  match r with Ok a => f a | Err e => Err e | Raw c => Raw c | Throw => Throw | Fault => Fault end.

(** ** The state and error monad

    An operation on an object of type [S]: changes made before an error is returned stay, as in
    the code. *)
Definition M (S A : Type) : Type := S → res A * S.

#[export] Instance M_ret S : MRet (M S) := λ A a s, (Ok a, s).
#[export] Instance M_bind S : MBind (M S) := λ A B f m s,
  match m s with
  | (Ok a, s') => f a s'
  | (Err e, s') => (Err e, s')
  | (Raw c, s') => (Raw c, s')
  | (Throw, s') => (Throw, s')
  | (Fault, s') => (Fault, s')
  end.
Definition fail {S A} (e : errno) : M S A := λ s, (Err e, s).
Definition fault {S A} : M S A := λ s, (Fault, s).
Definition get {S} : M S S := λ s, (Ok s, s).
Definition put {S} (s' : S) : M S unit := λ _, (Ok tt, s').
Definition modify {S} (f : S → S) : M S unit := λ s, (Ok tt, f s).
(** A pointer that must not be null, an index that must be in range. *)
Definition deref {S A} (o : option A) : M S A := λ s,
  match o with Some a => (Ok a, s) | None => (Fault, s) end.

Lemma bind_ok {S A B} (m : M S A) (f : A → M S B) s a s' :
  m s = (Ok a, s') → (m ≫= f) s = f a s'.
Proof. intros H. unfold mbind, M_bind. by rewrite H. Qed.
Lemma bind_err {S A B} (m : M S A) (f : A → M S B) s e s' :
  m s = (Err e, s') → (m ≫= f) s = (Err e, s').
Proof. intros H. unfold mbind, M_bind. by rewrite H. Qed.
Lemma bind_deref {S A B} (o : option A) (f : A → M S B) s a :
  o = Some a → (deref o ≫= f) s = f a s.
Proof. intros ->. done. Qed.

(** ** Loops with binary fuel

    [f] is the body of a loop, [inl] the state it goes on with and [inr] the value it ends with. The
    fuel is a binary number, so a bound such as 2^64 costs nothing. *)
Fixpoint iter_until {A B} (p : positive) (f : A → A + B) (a : A) : A + B :=
  let twice q a :=
    match iter_until q f a with inl a' => iter_until q f a' | inr b => inr b end in
  match p with
  | xH => f a
  | xO q => twice q a
  | xI q => match f a with inl a' => twice q a' | inr b => inr b end
  end.

Fixpoint nat_until {A B} (n : nat) (f : A → A + B) (a : A) : A + B :=
  match n with
  | O => inl a
  | S n => match f a with inl a' => nat_until n f a' | inr b => inr b end
  end.

Lemma nat_until_add {A B} (f : A → A + B) n m a :
  nat_until (n + m) f a = match nat_until n f a with inl a' => nat_until m f a' | inr b => inr b end.
Proof. revert a. induction n as [|n IH]; intros a; simpl; [done|]. destruct (f a); auto. Qed.

Lemma iter_until_nat {A B} (f : A → A + B) p a : iter_until p f a = nat_until (Pos.to_nat p) f a.
Proof.
  revert a. induction p as [p IH|p IH|]; intros a.
  - rewrite Pos2Nat.inj_xI. replace (S (2 * Pos.to_nat p)) with (1 + (Pos.to_nat p + Pos.to_nat p))%nat by lia.
    rewrite nat_until_add. simpl. destruct (f a) as [a'|]; [|done].
    rewrite nat_until_add, !IH. destruct (nat_until _ f a'); [apply IH|done].
  - rewrite Pos2Nat.inj_xO. replace (2 * Pos.to_nat p)%nat with (Pos.to_nat p + Pos.to_nat p)%nat by lia.
    rewrite nat_until_add. simpl. rewrite !IH. destruct (nat_until _ f a); [apply IH|done].
  - simpl. by destruct (f a).
Qed.

(** ** Vectors accessed by offset *)

Definition zlen {A} (l : list A) : Z := Z.of_nat (length l).

Lemma zlen_nil {A} : zlen (@nil A) = 0.
Proof. done. Qed.
Lemma zlen_cons {A} (x : A) l : zlen (x :: l) = zlen l + 1.
Proof. unfold zlen. cbn [length]. lia. Qed.
Lemma zlen_snoc {A} (x : A) l : zlen (l ++ [x]) = zlen l + 1.
Proof. unfold zlen. rewrite length_app. simpl. lia. Qed.
Lemma zlen_nonneg {A} (l : list A) : 0 ≤ zlen l.
Proof. unfold zlen. lia. Qed.
Lemma zlen_app {A} (l k : list A) : zlen (l ++ k) = zlen l + zlen k.
Proof. unfold zlen. rewrite length_app. lia. Qed.
Lemma zlen_replicate {A} n (x : A) : 0 ≤ n → zlen (replicate (Z.to_nat n) x) = n.
Proof. intros. unfold zlen. rewrite length_replicate. lia. Qed.

Lemma zlen_replicate_nat {A} n (x : A) : zlen (replicate n x) = Z.of_nat n.
Proof. unfold zlen. by rewrite length_replicate. Qed.

(** [len] elements at offset [off]; [None] when they are not all inside the vector. *)
Definition vread {A} (l : list A) (off len : Z) : option (list A) :=
  if bool_decide (0 ≤ off ∧ 0 ≤ len ∧ off + len ≤ zlen l)
  then Some (take (Z.to_nat len) (drop (Z.to_nat off) l)) else None.

(** [memcpy]/[std::copy] of [bs] to offset [off]; [None] when that leaves the vector. *)
Definition vwrite {A} (l : list A) (off : Z) (bs : list A) : option (list A) :=
  if bool_decide (0 ≤ off ∧ off + zlen bs ≤ zlen l)
  then Some (take (Z.to_nat off) l ++ bs ++ drop (Z.to_nat off + length bs) l) else None.

Section vec.
Context {A : Type}.
Implicit Types (l bs : list A) (off len : Z).

Lemma vread_Some l off len :
  0 ≤ off → 0 ≤ len → off + len ≤ zlen l →
  vread l off len = Some (take (Z.to_nat len) (drop (Z.to_nat off) l)).
Proof. intros. unfold vread. by rewrite bool_decide_true. Qed.

Lemma vread_inv l off len bs :
  vread l off len = Some bs →
  0 ≤ off ∧ 0 ≤ len ∧ off + len ≤ zlen l ∧ bs = take (Z.to_nat len) (drop (Z.to_nat off) l).
Proof.
  unfold vread. case_bool_decide as Hb; [|done]. intros [= <-]. by destruct Hb as (?&?&?).
Qed.

Lemma vread_zlen l off len bs : vread l off len = Some bs → zlen bs = len.
Proof.
  intros (?&?&?&->)%vread_inv. unfold zlen in *. rewrite length_take, length_drop. lia.
Qed.

Lemma vread_is_Some l off len :
  0 ≤ off → 0 ≤ len → off + len ≤ zlen l → ∃ bs, vread l off len = Some bs ∧ zlen bs = len.
Proof.
  intros. eexists. split; [by apply vread_Some|]. eapply vread_zlen. by apply vread_Some.
Qed.

Lemma vread_None l off len : zlen l < off + len → vread l off len = None.
Proof. intros. unfold vread. rewrite bool_decide_false; [done|lia]. Qed.

Lemma vwrite_Some l off bs :
  0 ≤ off → off + zlen bs ≤ zlen l →
  vwrite l off bs = Some (take (Z.to_nat off) l ++ bs ++ drop (Z.to_nat off + length bs) l).
Proof. intros. unfold vwrite. by rewrite bool_decide_true. Qed.

Lemma vwrite_inv l off bs l' :
  vwrite l off bs = Some l' →
  0 ≤ off ∧ off + zlen bs ≤ zlen l ∧
  l' = take (Z.to_nat off) l ++ bs ++ drop (Z.to_nat off + length bs) l.
Proof. unfold vwrite. case_bool_decide as Hb; [|done]. intros [= <-]. by destruct Hb. Qed.

Lemma vwrite_zlen l off bs l' : vwrite l off bs = Some l' → zlen l' = zlen l.
Proof.
  intros (?&?&->)%vwrite_inv. unfold zlen in *.
  rewrite !length_app, length_take, length_drop. lia.
Qed.

Lemma vwrite_is_Some l off bs :
  0 ≤ off → off + zlen bs ≤ zlen l → ∃ l', vwrite l off bs = Some l' ∧ zlen l' = zlen l.
Proof.
  intros. eexists. split; [by apply vwrite_Some|]. eapply vwrite_zlen. by apply vwrite_Some.
Qed.

Lemma vwrite_None l off bs : zlen l < off + zlen bs → vwrite l off bs = None.
Proof. intros. unfold vwrite. rewrite bool_decide_false; [done|lia]. Qed.

(** Reading back what was written. *)
Lemma vread_vwrite_same l off bs l' :
  vwrite l off bs = Some l' → vread l' off (zlen bs) = Some bs.
Proof.
  intros Hw. pose proof (vwrite_zlen _ _ _ _ Hw) as Hl.
  apply vwrite_inv in Hw as (?&?&->). rewrite vread_Some by (unfold zlen in *; lia).
  unfold zlen in *. f_equal.
  rewrite drop_app_length' by (rewrite length_take; lia).
  rewrite take_app_length' by lia. done.
Qed.

(** A write does not change what is outside of it. *)
Lemma vread_vwrite_disjoint l off bs l' off' len :
  vwrite l off bs = Some l' →
  off' + len ≤ off ∨ off + zlen bs ≤ off' →
  vread l' off' len = vread l off' len.
Proof.
  intros Hw Hd. pose proof (vwrite_zlen _ _ _ _ Hw) as Hl.
  apply vwrite_inv in Hw as (?&?&->).
  unfold vread. rewrite Hl. case_bool_decide as Hb; [|done]. f_equal.
  unfold zlen in *. destruct Hd as [Hd|Hd].
  - apply list_eq. intros i.
    destruct (decide (i < Z.to_nat len)%nat).
    + rewrite !lookup_take_lt, !lookup_drop by done.
      rewrite lookup_app_l by (rewrite length_take; lia).
      by rewrite lookup_take_lt by lia.
    + by rewrite !lookup_take_ge by lia.
  - apply list_eq. intros i.
    destruct (decide (i < Z.to_nat len)%nat).
    + rewrite !lookup_take_lt, !lookup_drop by done.
      rewrite lookup_app_r by (rewrite length_take; lia).
      rewrite lookup_app_r by (rewrite length_take; lia).
      rewrite lookup_drop. f_equal. rewrite length_take. lia.
    + by rewrite !lookup_take_ge by lia.
Qed.

(** The elements after a write. *)
Lemma vwrite_lookup l off bs l' (i : nat) :
  vwrite l off bs = Some l' →
  l' !! i = if decide (off ≤ Z.of_nat i < off + zlen bs) then bs !! (i - Z.to_nat off)%nat else l !! i.
Proof.
  intros (?&?&->)%vwrite_inv. unfold zlen in *. case_decide as Hd.
  - rewrite lookup_app_r, length_take by (rewrite length_take; lia). rewrite lookup_app_l by lia. f_equal. lia.
  - destruct (decide (Z.of_nat i < off)).
    + rewrite lookup_app_l by (rewrite length_take; lia). by rewrite lookup_take_lt by lia.
    + rewrite lookup_app_r, length_take by (rewrite length_take; lia). rewrite lookup_app_r by lia.
      rewrite lookup_drop. f_equal. lia.
Qed.

Lemma vread_all l : vread l 0 (zlen l) = Some l.
Proof.
  rewrite vread_Some by (unfold zlen; lia). unfold zlen. rewrite Nat2Z.id.
  by rewrite drop_0, take_ge by lia.
Qed.

(** Two vectors that agree on three consecutive pieces. *)
Lemma list_eq_pieces l k o n :
  0 ≤ o → 0 ≤ n → o + n ≤ zlen l → zlen l = zlen k →
  vread l 0 o = vread k 0 o → vread l o n = vread k o n →
  vread l (o + n) (zlen l - (o + n)) = vread k (o + n) (zlen l - (o + n)) → l = k.
Proof.
  intros Ho Hn Hl Hlk. rewrite !vread_Some by lia. rewrite !drop_0. intros [= H1] [= H2] [= H3].
  rewrite (take_ge (drop _ l)), (take_ge (drop _ k)) in H3
    by (rewrite length_drop; unfold zlen in *; lia).
  rewrite <- (take_drop (Z.to_nat o) l), <- (take_drop (Z.to_nat o) k), H1. f_equal.
  rewrite <- (take_drop (Z.to_nat n) (drop _ l)), <- (take_drop (Z.to_nat n) (drop _ k)), H2. f_equal.
  rewrite !drop_drop. replace (Z.to_nat o + Z.to_nat n)%nat with (Z.to_nat (o + n)) by lia. done.
Qed.

(** A part of a part. *)
Lemma vread_vread l off len b o n :
  vread l off len = Some b → 0 ≤ o → 0 ≤ n → o + n ≤ len → vread b o n = vread l (off + o) n.
Proof.
  intros Hb Ho Hn Hlen. pose proof (vread_zlen _ _ _ _ Hb) as Hz.
  apply vread_inv in Hb as (?&?&?&->). rewrite !vread_Some by lia. f_equal.
  rewrite skipn_firstn_comm, take_take, drop_drop. f_equal; [lia|]. f_equal. lia.
Qed.

(** Writing to a part of a part. *)
Lemma vwrite_in l off len b o bs :
  vread l off len = Some b → 0 ≤ o → o + zlen bs ≤ len →
  ∃ l' b', vwrite l (off + o) bs = Some l' ∧ vwrite b o bs = Some b' ∧
           vread l' off len = Some b' ∧ zlen l' = zlen l.
Proof.
  intros Hb Ho Hlen. pose proof (vread_zlen _ _ _ _ Hb) as Hz. pose proof Hb as (?&?&?&_)%vread_inv.
  pose proof (zlen_nonneg bs) as Hbs.
  destruct (vwrite_is_Some l (off + o) bs) as (l'&Hl'&Hz'); [lia..|].
  destruct (vwrite_is_Some b o bs) as (b'&Hb'&Hbz); [lia..|].
  exists l', b'. repeat split; [done..| |done].
  destruct (vread_is_Some l' off len) as (c&Hc&Hcz); [lia..|]. rewrite Hc. f_equal.
  apply list_eq_pieces with (o := o) (n := zlen bs); [lia..| | |].
  - rewrite (vread_vread _ _ _ _ 0 o Hc), (vread_vwrite_disjoint _ _ _ _ 0 o Hb') by lia.
    rewrite (vread_vread _ _ _ _ 0 o Hb) by lia. apply (vread_vwrite_disjoint _ _ _ _ _ _ Hl'). lia.
  - rewrite (vread_vwrite_same _ _ _ _ Hb'), (vread_vread _ _ _ _ o _ Hc) by (unfold zlen in *; lia).
    by eapply vread_vwrite_same.
  - rewrite (vread_vread _ _ _ _ (o + zlen bs) _ Hc) by (unfold zlen in *; lia).
    rewrite (vread_vwrite_disjoint _ _ _ _ _ _ Hb') by lia.
    rewrite (vread_vread _ _ _ _ (o + zlen bs) _ Hb) by (unfold zlen in *; lia).
    rewrite Hcz. apply (vread_vwrite_disjoint _ _ _ _ _ _ Hl'). lia.
Qed.
End vec.

(** *** Vectors of fixed-size slots: slot [i] is the [sz] elements at offset [i * sz]. *)
Definition slot {A} (l : list A) (sz i : Z) : option (list A) := vread l (i * sz) sz.

Lemma slot_in_range sz n i : 0 < sz → 0 ≤ i < n → 0 ≤ i * sz ∧ i * sz + sz ≤ n * sz.
Proof. nia. Qed.

Lemma slot_is_Some {A} (l : list A) sz n i :
  0 < sz → 0 ≤ i < n → zlen l = n * sz → ∃ bs, slot l sz i = Some bs ∧ zlen bs = sz.
Proof.
  intros Hs Hi Hl. destruct (slot_in_range sz n i Hs Hi). apply vread_is_Some; lia.
Qed.

Lemma slot_write_is_Some {A} (l bs : list A) sz n i :
  0 ≤ i < n → zlen l = n * sz → zlen bs = sz → 0 < sz →
  ∃ l', vwrite l (i * sz) bs = Some l' ∧ zlen l' = zlen l.
Proof.
  intros Hi Hl Hb Hs. destruct (slot_in_range sz n i Hs Hi). apply vwrite_is_Some; lia.
Qed.

Lemma slot_write_same {A} (l bs l' : list A) sz i :
  vwrite l (i * sz) bs = Some l' → zlen bs = sz → slot l' sz i = Some bs.
Proof. intros Hw <-. by eapply vread_vwrite_same. Qed.

Lemma slot_write_other {A} (l bs l' : list A) sz i j :
  vwrite l (i * sz) bs = Some l' → zlen bs = sz → i ≠ j → slot l' sz j = slot l sz j.
Proof.
  intros Hw Hb Hij. eapply vread_vwrite_disjoint; [done|]. rewrite Hb.
  assert (0 ≤ sz) by (subst; unfold zlen; lia). destruct (decide (i < j)); nia.
Qed.

Lemma slot_write_eq {A} (l bs l' : list A) sz i j :
  vwrite l (i * sz) bs = Some l' → zlen bs = sz →
  slot l' sz j = if decide (i = j) then Some bs else slot l sz j.
Proof.
  intros. case_decide; [subst j; by eapply slot_write_same|by eapply slot_write_other].
Qed.

(** ** Little-endian memory *)

Fixpoint le_load (bs : list Z) : Z :=
  match bs with [] => 0 | b :: r => u8 b + 256 * le_load r end.
Fixpoint le_store (n : nat) (z : Z) : list Z :=
  match n with O => [] | S n => u8 z :: le_store n (z / 256) end.

Lemma length_le_store n z : length (le_store n z) = n.
Proof. revert z. induction n as [|n IH]; intros z; simpl; [done|]. by rewrite IH. Qed.

Lemma le_load_bound bs : 0 ≤ le_load bs < 256 ^ zlen bs.
Proof.
  unfold zlen. induction bs as [|b bs IH]; simpl le_load; [simpl; lia|].
  cbn [length]. rewrite Nat2Z.inj_succ, Z.pow_succ_r by lia.
  assert (0 ≤ u8 b < 256) by (apply Z.mod_pos_bound; lia). nia.
Qed.

Lemma le_load_store n z : le_load (le_store n z) = z mod 256 ^ Z.of_nat n.
Proof.
  revert z. induction n as [|n IH]; intros z.
  - simpl. by rewrite Z.mod_1_r.
  - cbn [le_store le_load]. rewrite IH, Nat2Z.inj_succ, Z.pow_succ_r by lia.
    rewrite Z.rem_mul_r by lia. f_equal. unfold u8. change (2 ^ 8) with 256.
    by rewrite Z.mod_mod by lia.
Qed.

(** A pointer argument: [None] is the null pointer, [Some l] points to the bytes [l]. *)
Abbreviation uptr := (option (list Z)).

(** The [n] bytes a pointer argument points to. *)
Definition from_user (p : uptr) (n : Z) : option (list Z) := l ← p; vread l 0 n.
(** [*(uint32_t * )p] and [*(int32_t * )p]. *)
Definition load_u32 (p : uptr) : option Z := l ← from_user p 4; Some (le_load l).
Definition load_s32 (p : uptr) : option Z := l ← from_user p 4; Some (s32 (le_load l)).
(** A pointer to a 32-bit key. *)
Definition key32 (k : Z) : uptr := Some (le_store 4 k).

Lemma from_user_Some l n : 0 ≤ n ≤ zlen l → from_user (Some l) n = Some (take (Z.to_nat n) l).
Proof. intros. unfold from_user. simpl. rewrite vread_Some by lia. by rewrite drop_0. Qed.
Lemma from_user_exact l n : zlen l = n → from_user (Some l) n = Some l.
Proof.
  intros <-. rewrite from_user_Some by (unfold zlen; lia). unfold zlen.
  by rewrite Nat2Z.id, take_ge by lia.
Qed.
Lemma from_user_zlen p n bs : from_user p n = Some bs → zlen bs = n.
Proof. destruct p as [l|]; [|done]. apply vread_zlen. Qed.

Lemma load_u32_key32 k : 0 ≤ k < 2 ^ 32 → load_u32 (key32 k) = Some k.
Proof.
  intros. unfold load_u32, key32. rewrite from_user_exact.
  - cbn [mbind option_bind]. rewrite le_load_store. f_equal. by apply Z.mod_small.
  - unfold zlen. by rewrite length_le_store.
Qed.
Lemma load_s32_key32 k : 0 ≤ k < 2 ^ 31 → load_s32 (key32 k) = Some k.
Proof.
  intros. unfold load_s32, key32. rewrite from_user_exact.
  - cbn [mbind option_bind]. rewrite le_load_store, Z.mod_small by lia. f_equal. by apply s32_small.
  - unfold zlen. by rewrite length_le_store.
Qed.
Lemma load_u32_bound p k : load_u32 p = Some k → 0 ≤ k < 2 ^ 32.
Proof.
  unfold load_u32. destruct (from_user p 4) as [l|] eqn:E; [|done]. intros [= <-].
  apply from_user_zlen in E. pose proof (le_load_bound l) as Hb. rewrite E in Hb. done.
Qed.

#[global] Arguments vread : simpl never.
#[global] Arguments vwrite : simpl never.
#[global] Arguments slot : simpl never.
#[global] Arguments zlen : simpl never.
#[global] Arguments from_user : simpl never.
#[global] Arguments load_u32 : simpl never.
#[global] Arguments load_s32 : simpl never.
#[global] Arguments key32 : simpl never.
#[global] Arguments u8 : simpl never.
#[global] Arguments u16 : simpl never.
#[global] Arguments s16 : simpl never.
#[global] Arguments s64 : simpl never.
#[global] Arguments u32 : simpl never.
#[global] Arguments u64 : simpl never.
#[global] Arguments s32 : simpl never.

(** ** Flags of the update operations (linux/bpf.h) *)

Definition BPF_ANY : Z := 0.
Definition BPF_NOEXIST : Z := 1.
Definition BPF_EXIST : Z := 2.
Definition BPF_F_RDONLY : Z := 8.
Definition BPF_F_WRONLY : Z := 16.

(** ** Automation *)

Create HintDb bpf.
Create Rewrite HintDb len.
#[export] Hint Resolve u32_bound u64_bound length_le_store : bpf.
#[export] Hint Rewrite @length_app @length_take @length_drop @length_replicate @length_insert
  @length_seq @length_fmap length_le_store : len.

(** Case analysis on every test of the code in the goal, closing the easy branches. *)
Ltac split_code :=
  repeat match goal with
  | |- context [if ?b then _ else _] => let E := fresh "E" in destruct b eqn:E
  | |- context [match ?o with Some _ => _ | None => _ end] => let E := fresh "E" in destruct o eqn:E
  end.

(** Turns boolean comparisons in hypotheses into propositions. *)
Ltac bool_to_prop :=
  repeat match goal with
  | H : (_ <? _) = true |- _ => apply Z.ltb_lt in H
  | H : (_ <? _) = false |- _ => apply Z.ltb_ge in H
  | H : (_ <=? _) = true |- _ => apply Z.leb_le in H
  | H : (_ <=? _) = false |- _ => apply Z.leb_gt in H
  | H : (_ =? _) = true |- _ => apply Z.eqb_eq in H
  | H : (_ =? _) = false |- _ => apply Z.eqb_neq in H
  | H : (_ && _) = true |- _ => apply andb_true_iff in H; destruct H
  | H : (_ || _) = false |- _ => apply orb_false_iff in H; destruct H
  | H : negb _ = true |- _ => apply negb_true_iff in H
  | H : negb _ = false |- _ => apply negb_false_iff in H
  end.

(** ** The bits of a number *)

(** The bits of [max_ent] that are set, in at most [fuel] rounds. *)
Fixpoint pop_count (fuel : nat) (max_ent pop_cnt : Z) : Z :=
  match fuel with
  | O => pop_cnt
  | S fuel => if max_ent =? 0 then pop_cnt else pop_count fuel (Z.shiftr max_ent 1) (pop_cnt + Z.land max_ent 1)
  end.

Lemma pop_count_add fuel n c d : pop_count fuel n (c + d) = pop_count fuel n c + d.
Proof.
  revert n c. induction fuel as [|fuel IH]; intros n c; [done|]. cbn [pop_count]. destruct (n =? 0); [done|].
  rewrite <- IH. f_equal. lia.
Qed.

Lemma halves n : 0 ≤ n → n = 2 * Z.shiftr n 1 + Z.land n 1 ∧ 0 ≤ Z.land n 1 ≤ 1 ∧ 0 ≤ Z.shiftr n 1.
Proof.
  intros Hn. assert (Z.land n 1 = n mod 2) as -> by apply (Z.land_ones n 1 ltac:(lia)).
  rewrite Z.shiftr_div_pow2 by lia. change (2 ^ 1) with 2. pose proof (Z.div_mod n 2 ltac:(lia)). pose proof (Z.mod_pos_bound n 2 ltac:(lia)). lia.
Qed.

Lemma pop_count_pos fuel : ∀ n, 0 ≤ n < 2 ^ Z.of_nat fuel → (0 ≤ pop_count fuel n 0) ∧ (pop_count fuel n 0 = 0 → n = 0).
Proof.
  induction fuel as [|fuel IH]; intros n Hn; [simpl in *; lia|]. rewrite Nat2Z.inj_succ, Z.pow_succ_r in Hn by lia.
  cbn [pop_count]. destruct (Z.eqb_spec n 0) as [->|Hz]; [done|]. destruct (halves n ltac:(lia)) as (He&Hb&Hs).
  rewrite pop_count_add. destruct (IH (Z.shiftr n 1)) as [H1 H2]; [lia|]. lia.
Qed.

Lemma pop_count_0 fuel c : pop_count fuel 0 c = c.
Proof. by destruct fuel. Qed.

(** Exactly one bit is that of a power of two. *)
Lemma pop_count_one fuel : ∀ n, 0 ≤ n < 2 ^ Z.of_nat fuel → pop_count fuel n 0 = 1 ↔ ∃ e, 0 ≤ e ∧ n = 2 ^ e.
Proof.
  induction fuel as [|fuel IH]; intros n Hn.
  { assert (n = 0) as -> by (simpl in Hn; lia). simpl. split; [lia|]. intros (e&He&Hp). pose proof (Z.pow_pos_nonneg 2 e). lia. }
  rewrite Nat2Z.inj_succ, Z.pow_succ_r in Hn by lia. cbn [pop_count]. destruct (Z.eqb_spec n 0) as [->|Hz].
  { split; [lia|]. intros (e&He&Hp). pose proof (Z.pow_pos_nonneg 2 e). lia. }
  destruct (halves n ltac:(lia)) as (Hh&Hb&Hs). rewrite pop_count_add.
  destruct (pop_count_pos fuel (Z.shiftr n 1)) as [H1 H2]; [lia|]. assert (Hr : 0 ≤ Z.shiftr n 1 < 2 ^ Z.of_nat fuel) by lia.
  split.
  - intros Hp. destruct (decide (Z.land n 1 = 0)) as [Hl|Hl].
    + destruct (proj1 (IH _ Hr)) as (e&He&Hq); [lia|]. exists (e + 1). split; [lia|]. rewrite Z.pow_add_r by lia. lia.
    + exists 0. split; [lia|]. rewrite H2 in Hh by lia. simpl. lia.
  - intros (e&He&Hp). destruct (decide (e = 0)) as [->|Hne].
    + change (2 ^ 0) with 1 in Hp. assert (Z.shiftr n 1 = 0) as -> by lia. rewrite pop_count_0. lia.
    + replace e with (Z.succ (e - 1)) in Hp by lia. rewrite Z.pow_succ_r in Hp by lia.
      assert (Hq : Z.shiftr n 1 = 2 ^ (e - 1)) by lia. rewrite (proj2 (IH _ Hr)); [lia|]. exists (e - 1). split; [lia|done].
Qed.
