(* ===== verification/ArrayMap.v ===== *)
(** * Array maps

    [array_map_impl] (runtime/src/bpf_map/userspace/array_map.cpp) and the array of maps that
    derives from it (map_in_maps.hpp).  A pointer into [data] is the offset it has there. *)

From stdpp Require Import base numbers list.
From S2P Require Import Prelude.

(** [check_update_flags] of map_common_def.hpp; the failure sets [errno] to [EINVAL]. *)
Definition check_update_flags (flags : Z) : bool :=
  negb (negb (flags =? 0) && negb (flags =? 1) && negb (flags =? 2)).

Record array_map_impl := ArrayMapImpl {
  am_data : list Z;
  am_value_size : Z;
  am_max_entries : Z
}.

(** The constructor: [value_size * max_entries] is computed in [uint32_t]. *)
Definition array_map_create (value_size max_entries : Z) : array_map_impl :=
  {| am_data := replicate (Z.to_nat (u32 (value_size * max_entries))) 0;
     am_value_size := value_size;
     am_max_entries := max_entries |}.

(** [&data[off]]: the offset must be inside the vector. *)
Definition data_addr (data : list Z) (off : Z) : res Z :=
  if (0 <=? off) && (off <? zlen data) then Ok off else Fault.

Definition elem_lookup (m : array_map_impl) (key : uptr) : res Z :=
  match load_u32 key with
  | None => Fault
  | Some key_val =>
      if am_max_entries m <=? key_val then Err ENOENT
      else data_addr (am_data m) (u32 (key_val * am_value_size m))
  end.

Definition elem_update (m : array_map_impl) (key value : uptr) (flags : Z)
  : res unit * array_map_impl :=
  if negb (check_update_flags flags) then (Err EINVAL, m) else
  match load_u32 key with
  | None => (Fault, m)
  | Some key_val =>
      if (key_val <? am_max_entries m) && (flags =? BPF_NOEXIST) then (Err EEXIST, m)
      else if am_max_entries m <=? key_val then (Err E2BIG, m)
      else match from_user value (am_value_size m) with
           | None => (Fault, m)
           | Some bs =>
               match vwrite (am_data m) (u32 (key_val * am_value_size m)) bs with
               | None => (Fault, m)
               | Some d => (Ok tt, {| am_data := d; am_value_size := am_value_size m;
                                      am_max_entries := am_max_entries m |})
               end
           end
  end.

Definition elem_delete (m : array_map_impl) (key : uptr) : res unit :=
  match load_u32 key with None => Fault | Some _ => Err EINVAL end.

(** The value stored to [*next_key]. [_max_entries - 1] is an [uint32_t]. *)
Definition map_get_next_key (m : array_map_impl) (key : uptr) : res Z :=
  match key with
  | None => Ok 0
  | Some _ =>
      match load_u32 key with
      | None => Fault
      | Some deref_key =>
          if am_max_entries m <=? deref_key then Ok 0
          else if deref_key =? u32 (am_max_entries m - 1) then Err ENOENT
          else Ok (u32 (deref_key + 1))
      end
  end.

(** [array_map_of_maps_impl::elem_lookup]: the pointer it returns is the map id in the upper
    half of a 64-bit word; the base lookup's null pointer is dereferenced. *)
Definition of_maps_create (max_entries : Z) : array_map_impl := array_map_create 4 max_entries.

Definition of_maps_elem_lookup (m : array_map_impl) (key : uptr) : res Z :=
  match elem_lookup m key with
  | Ok off =>
      match vread (am_data m) off 4 with
      | Some bs => Ok (u64 (Z.shiftl (s32 (le_load bs)) 32))
      | None => Fault
      end
  | _ => Fault
  end.

(** ** The contract: a total array of [max_entries] values *)

(** The sizes do not overflow 32 bits, and the buffer has a slot per key. *)
Definition array_wf (m : array_map_impl) : Prop :=
  0 < am_value_size m ∧ 0 ≤ am_max_entries m < 2 ^ 32 ∧
  am_max_entries m * am_value_size m < 2 ^ 32 ∧
  zlen (am_data m) = am_max_entries m * am_value_size m.

(** The value at a key, as a reader of the returned pointer sees it. *)
Definition array_value (m : array_map_impl) (k : Z) : option (list Z) :=
  slot (am_data m) (am_value_size m) k.

(** What a user reads from the pointer a lookup returns. *)
Definition array_lookup_value (m : array_map_impl) (key : uptr) : res (list Z) :=
  match elem_lookup m key with
  | Ok off => match vread (am_data m) off (am_value_size m) with
              | Some bs => Ok bs | None => Fault end
  | Err e => Err e | Raw c => Raw c | Throw => Throw | Fault => Fault
  end.

(** The keys a user sees who starts with the null key and follows [map_get_next_key]. *)
Fixpoint array_iterate (m : array_map_impl) (fuel : nat) (key : uptr) : list Z * res unit :=
  match fuel with
  | O => ([], Ok tt)
  | S fuel =>
      match map_get_next_key m key with
      | Ok k => let '(ks, r) := array_iterate m fuel (key32 k) in (k :: ks, r)
      | Err e => ([], Err e)
      | Raw c => ([], Raw c)
      | Throw => ([], Throw)
      | Fault => ([], Fault)
      end
  end.

(** ** Lemmas *)

Lemma check_update_flags_spec flags :
  check_update_flags flags = true ↔ flags = 0 ∨ flags = 1 ∨ flags = 2.
Proof.
  unfold check_update_flags.
  destruct (Z.eqb_spec flags 0), (Z.eqb_spec flags 1), (Z.eqb_spec flags 2); simpl;
    (split; [|done || lia]); intros; (done || lia).
Qed.

Lemma array_offset m k :
  array_wf m → 0 ≤ k < am_max_entries m →
  u32 (k * am_value_size m) = k * am_value_size m ∧
  0 ≤ k * am_value_size m ∧ k * am_value_size m + am_value_size m ≤ zlen (am_data m).
Proof.
  intros (Hv&Hm&Hb&Hl) Hk. destruct (slot_in_range _ _ _ Hv Hk). rewrite u32_small by lia. lia.
Qed.

Lemma array_create_wf vs n :
  0 < vs → 0 ≤ n < 2 ^ 32 → n * vs < 2 ^ 32 → array_wf (array_map_create vs n).
Proof.
  intros. unfold array_wf, array_map_create, zlen; simpl.
  rewrite length_replicate, Z.mul_comm, u32_small by nia. repeat split; lia.
Qed.

Lemma array_lookup_in m k :
  array_wf m → 0 ≤ k < am_max_entries m → elem_lookup m (key32 k) = Ok (k * am_value_size m).
Proof.
  intros Hwf Hk. pose proof (array_offset _ _ Hwf Hk) as (Ho&?&?).
  destruct Hwf as (?&?&?&?). unfold elem_lookup. rewrite load_u32_key32 by lia.
  destruct (Z.leb_spec (am_max_entries m) k); [lia|]. rewrite Ho. unfold data_addr.
  rewrite (proj2 (Z.leb_le _ _)), (proj2 (Z.ltb_lt _ _)) by lia. done.
Qed.

Lemma array_lookup_value_in m k :
  array_wf m → 0 ≤ k < am_max_entries m →
  ∃ bs, array_lookup_value m (key32 k) = Ok bs ∧ array_value m k = Some bs
        ∧ zlen bs = am_value_size m.
Proof.
  intros Hwf Hk. unfold array_lookup_value. rewrite array_lookup_in by done.
  pose proof Hwf as (?&?&?&?).
  destruct (slot_is_Some (am_data m) (am_value_size m) (am_max_entries m) k) as (bs&Hs&Hz);
    [done..|].
  exists bs. unfold array_value, slot in *. by rewrite Hs.
Qed.

Lemma array_update_in m k value flags bs :
  array_wf m → 0 ≤ k < am_max_entries m → flags = BPF_ANY ∨ flags = BPF_EXIST →
  from_user value (am_value_size m) = Some bs →
  ∃ d, vwrite (am_data m) (k * am_value_size m) bs = Some d ∧ zlen d = zlen (am_data m) ∧
    elem_update m (key32 k) value flags =
      (Ok tt, {| am_data := d; am_value_size := am_value_size m; am_max_entries := am_max_entries m |}).
Proof.
  intros Hwf Hk Hf Hv. pose proof (array_offset _ _ Hwf Hk) as (Ho&?&?).
  pose proof (from_user_zlen _ _ _ Hv) as Hz. pose proof Hwf as (?&?&?&?).
  destruct (vwrite_is_Some (am_data m) (k * am_value_size m) bs) as (d&Hd&Hzd); [lia..|].
  exists d. repeat split; [done..|]. unfold elem_update.
  rewrite (proj2 (check_update_flags_spec flags)) by (unfold BPF_ANY, BPF_EXIST in Hf; lia).
  cbn [negb]. rewrite load_u32_key32 by lia.
  destruct (Z.leb_spec (am_max_entries m) k); [lia|].
  replace (flags =? BPF_NOEXIST) with false
    by (symmetry; apply Z.eqb_neq; unfold BPF_ANY, BPF_EXIST, BPF_NOEXIST in *; lia).
  by rewrite andb_false_r, Hv, Ho, Hd.
Qed.

Lemma array_next_key_in m k :
  array_wf m → 0 ≤ k < am_max_entries m →
  map_get_next_key m (key32 k) =
    if k =? am_max_entries m - 1 then Err ENOENT else Ok (k + 1).
Proof.
  intros (?&?&?&?) Hk. unfold map_get_next_key.
  destruct (key32 k) as [l|] eqn:E; [|done]. rewrite <- E, load_u32_key32 by lia. destruct (Z.leb_spec (am_max_entries m) k); [lia|].
  rewrite u32_small by lia. destruct (Z.eqb_spec k (am_max_entries m - 1)); [done|].
  by rewrite u32_small by lia.
Qed.

Lemma array_iterate_from m (n : nat) : ∀ k fuel,
  array_wf m → 0 ≤ k < am_max_entries m → n = Z.to_nat (am_max_entries m - 1 - k) →
  (n < fuel)%nat →
  array_iterate m fuel (key32 k) = (seqZ (k + 1) (Z.of_nat n), Err ENOENT).
Proof.
  induction n as [|n IH]; intros k fuel Hwf Hk Hn Hf; (destruct fuel as [|fuel]; [lia|]);
    cbn [array_iterate]; rewrite array_next_key_in by done.
  - rewrite (proj2 (Z.eqb_eq _ _)) by lia. done.
  - rewrite (proj2 (Z.eqb_neq _ _)) by lia. rewrite (IH (k + 1)) by (auto; lia).
    rewrite (seqZ_cons (k + 1)) by lia. do 3 f_equal; lia.
Qed.

(** ** Properties *)

(** In a well-formed array map, an update with [BPF_ANY] or [BPF_EXIST] of a
    key below [max_entries] succeeds, a lookup of that key then returns a pointer to the value
    written, every other key keeps its value, and the map stays well-formed. *)
Theorem array_update_lookup m k value flags bs :
  array_wf m → 0 ≤ k < am_max_entries m → flags = BPF_ANY ∨ flags = BPF_EXIST →
  from_user value (am_value_size m) = Some bs →
  ∃ m', elem_update m (key32 k) value flags = (Ok tt, m') ∧ array_wf m' ∧
    array_lookup_value m' (key32 k) = Ok bs ∧
    ∀ j, 0 ≤ j < am_max_entries m → j ≠ k →
      array_lookup_value m' (key32 j) = array_lookup_value m (key32 j).
Proof.
  intros Hwf Hk Hf Hv.
  destruct (array_update_in m k value flags bs) as (d&Hd&Hz&Hu); [done..|].
  pose proof (from_user_zlen _ _ _ Hv) as Hb. eexists. split; [exact Hu|].
  set (m' := {| am_data := d; am_value_size := am_value_size m; am_max_entries := am_max_entries m |}).
  assert (Hwf' : array_wf m') by (unfold array_wf in *; simpl; rewrite Hz; naive_solver).
  assert (Hslot : ∀ j, array_value m' j = if decide (k = j) then Some bs else array_value m j)
    by (intros j; by eapply slot_write_eq).
  split; [done|]. split.
  - destruct (array_lookup_value_in m' k Hwf' Hk) as (bs'&->&Hs&_).
    rewrite Hslot in Hs. case_decide; congruence.
  - intros j Hj Hne. destruct (array_lookup_value_in m' j Hwf' Hj) as (b1&->&H1&_).
    destruct (array_lookup_value_in m j Hwf Hj) as (b2&->&H2&_).
    rewrite Hslot in H1. case_decide; congruence.
Qed.

Definition ex_array : array_map_impl := array_map_create 2 3.

Lemma array_update_lookup_witness :
  ∃ m', elem_update ex_array (key32 1) (Some [7; 9]) BPF_ANY = (Ok tt, m') ∧ array_wf m' ∧
    array_lookup_value m' (key32 1) = Ok [7; 9] ∧
    ∀ j, 0 ≤ j < am_max_entries ex_array → j ≠ 1 →
      array_lookup_value m' (key32 j) = array_lookup_value ex_array (key32 j).
Proof.
  apply (array_update_lookup ex_array 1 (Some [7; 9]) BPF_ANY [7; 9]).
  - apply array_create_wf; lia.
  - simpl; lia.
  - by left.
  - reflexivity.
Defined.

(** Every branch an array map rejects: flags other than 0, 1 and 2 give [EINVAL],
    [BPF_NOEXIST] on a key in range [EEXIST], a key out of range [E2BIG] on update and [ENOENT]
    on lookup, and a delete [EINVAL]; the map is unchanged. *)
Theorem array_errors m k value flags :
  0 ≤ k < 2 ^ 32 →
  (check_update_flags flags = false → elem_update m (key32 k) value flags = (Err EINVAL, m)) ∧
  (k < am_max_entries m → elem_update m (key32 k) value BPF_NOEXIST = (Err EEXIST, m)) ∧
  (check_update_flags flags = true → am_max_entries m ≤ k →
     elem_update m (key32 k) value flags = (Err E2BIG, m)) ∧
  (am_max_entries m ≤ k → elem_lookup m (key32 k) = Err ENOENT) ∧
  elem_delete m (key32 k) = Err EINVAL.
Proof.
  intros Hk. unfold elem_update, elem_lookup, elem_delete. rewrite load_u32_key32 by done.
  repeat split.
  - by intros ->.
  - intros Hlt. apply Z.ltb_lt in Hlt. by rewrite Hlt.
  - intros -> Hge. simpl. destruct (Z.ltb_spec k (am_max_entries m)); [lia|].
    by rewrite (proj2 (Z.leb_le _ _) Hge).
  - intros Hge. by rewrite (proj2 (Z.leb_le _ _) Hge).
Qed.

Lemma array_errors_witness :
  elem_update ex_array (key32 5) (Some [1; 1]) BPF_ANY = (Err E2BIG, ex_array).
Proof.
  destruct (array_errors ex_array 5 (Some [1; 1]) BPF_ANY ltac:(lia)) as (_&_&H&_).
  apply H; [reflexivity|simpl; lia].
Defined.

(** Following [map_get_next_key] from the null key visits the keys
    0, 1, ..., max_entries - 1 once each, in this order, and then ends with [ENOENT]. *)
Theorem array_iterate_all m fuel :
  array_wf m → 0 < am_max_entries m → (Z.to_nat (am_max_entries m) < fuel)%nat →
  array_iterate m fuel None = (seqZ 0 (am_max_entries m), Err ENOENT).
Proof.
  intros Hwf Hm Hf. destruct fuel as [|fuel]; [lia|]. cbn [array_iterate map_get_next_key].
  rewrite (array_iterate_from m (Z.to_nat (am_max_entries m - 1))) by (auto; lia).
  rewrite (seqZ_cons 0) by lia. do 3 f_equal; lia.
Qed.

Lemma array_iterate_all_witness : array_iterate ex_array 4 None = ([0; 1; 2], Err ENOENT).
Proof.
  apply (array_iterate_all ex_array 4); [apply array_create_wf; lia|simpl; lia|simpl; lia].
Defined.

(** The 32-bit product of the constructor can wrap: with 65536 entries of 65536
    bytes the buffer is empty, and the lookup of key 0, which is below [max_entries], leaves it. *)
Theorem array_size_overflow :
  am_data (array_map_create 65536 65536) = [] ∧
  elem_lookup (array_map_create 65536 65536) (key32 0) = Fault ∧
  0 < am_max_entries (array_map_create 65536 65536).
Proof. split; [reflexivity|]. split; [reflexivity|]. simpl. lia. Qed.

(** The lookup of an array of maps returns the stored map id in the upper half of the
    word for a key in range; for any key out of range it dereferences a null pointer. *)
Theorem of_maps_lookup m k :
  array_wf m → am_value_size m = 4 → 0 ≤ k < 2 ^ 32 →
  (k < am_max_entries m →
     ∃ bs, array_value m k = Some bs ∧
       of_maps_elem_lookup m (key32 k) = Ok (u64 (Z.shiftl (s32 (le_load bs)) 32))) ∧
  (am_max_entries m ≤ k → of_maps_elem_lookup m (key32 k) = Fault).
Proof.
  intros Hwf H4 Hk. split; intros Hlt; unfold of_maps_elem_lookup.
  - rewrite array_lookup_in by (done || lia).
    destruct (array_lookup_value_in m k Hwf ltac:(lia)) as (bs&_&Hs&_).
    exists bs. split; [done|]. unfold array_value, slot in Hs. rewrite H4 in *. by rewrite Hs.
  - unfold elem_lookup. rewrite load_u32_key32 by done.
    by rewrite (proj2 (Z.leb_le _ _) Hlt).
Qed.

Lemma of_maps_lookup_witness : of_maps_elem_lookup (of_maps_create 2) (key32 2) = Fault.
Proof.
  destruct (of_maps_lookup (of_maps_create 2) 2) as [_ H].
  - apply array_create_wf; lia.
  - reflexivity.
  - lia.
  - apply H. simpl. lia.
Defined.
