(* ===== verification/PerCpuArray.v ===== *)
(** * Per-CPU array maps

    [per_cpu_array_map_impl] (runtime/src/bpf_map/userspace/per_cpu_array_map.cpp): one byte vector
    with [ncpu] values per key. The CPU that an operation of an eBPF program runs on, the answer of
    [my_sched_getcpu()], is an argument. *)

From stdpp Require Import base numbers list.
From S2P Require Import Prelude.
From S2P Require Import ArrayMap.

Record per_cpu_array_map_impl := PerCpuArrayMap {
  pa_data : list Z;
  pa_ncpu : Z;
  pa_value_size : Z;
  pa_max_ent : Z
}.

(** The size is a product of 32-bit numbers. *)
Definition per_cpu_array_create (value_size max_entries ncpu : Z) : per_cpu_array_map_impl :=
  {| pa_data := replicate (Z.to_nat (u32 (max_entries * ncpu * value_size))) 0;
     pa_ncpu := ncpu; pa_value_size := value_size; pa_max_ent := max_entries |}.

(** The offset of a value. *)
Definition data_at (m : per_cpu_array_map_impl) (idx cpu : Z) : Z :=
  u64 (idx * pa_value_size m * pa_ncpu m + cpu * pa_value_size m).

Definition with_data (m : per_cpu_array_map_impl) (d : list Z) : per_cpu_array_map_impl :=
  {| pa_data := d; pa_ncpu := pa_ncpu m; pa_value_size := pa_value_size m; pa_max_ent := pa_max_ent m |}.

(** The [n] bytes the returned pointer points to. *)
Definition lookup_at (m : per_cpu_array_map_impl) (key : uptr) (cpu n : Z) : res (list Z) :=
  match key with
  | None => Err ENOENT
  | Some _ =>
      match load_u32 key with
      | None => Fault
      | Some key_val =>
          if pa_max_ent m <=? key_val then Err ENOENT
          else match vread (pa_data m) (data_at m key_val cpu) n with
               | Some v => Ok v | None => Fault end
      end
  end.

(** The body of the two updates, for [n] bytes of the value. *)
Definition update_at (m : per_cpu_array_map_impl) (key value : uptr) (flags cpu n : Z)
  : res unit * per_cpu_array_map_impl :=
  if negb (check_update_flags flags) then (Err EINVAL, m)
  else match key with
       | None => (Err ENOENT, m)
       | Some _ =>
           match load_u32 key with
           | None => (Fault, m)
           | Some key_val =>
               if (key_val <? pa_max_ent m) && (flags =? BPF_NOEXIST) then (Err EEXIST, m)
               else if pa_max_ent m <=? key_val then (Err E2BIG, m)
               else match (v ← from_user value n; vwrite (pa_data m) (data_at m key_val cpu) v) with
                    | Some d => (Ok tt, with_data m d)
                    | None => (Fault, m)
                    end
           end
       end.

Definition elem_lookup (m : per_cpu_array_map_impl) (key : uptr) (cpu : Z) : res (list Z) :=
  lookup_at m key cpu (pa_value_size m).
Definition elem_update (m : per_cpu_array_map_impl) (key value : uptr) (flags cpu : Z)
  : res unit * per_cpu_array_map_impl :=
  update_at m key value flags cpu (pa_value_size m).
Definition elem_delete (m : per_cpu_array_map_impl) (key : uptr) : res unit := Err EINVAL.

(** The number written to [*next_key]. *)
Definition map_get_next_key (m : per_cpu_array_map_impl) (key : uptr) : res Z :=
  match key with
  | None => Ok 0
  | Some _ =>
      match load_u32 key with
      | None => Fault
      | Some k =>
          if pa_max_ent m <=? k then Ok 0
          else if k =? u32 (pa_max_ent m - 1) then Err ENOENT
          else Ok (u32 (k + 1))
      end
  end.

Definition elem_lookup_userspace (m : per_cpu_array_map_impl) (key : uptr) : res (list Z) :=
  lookup_at m key 0 (pa_ncpu m * pa_value_size m).
Definition elem_update_userspace (m : per_cpu_array_map_impl) (key value : uptr) (flags : Z)
  : res unit * per_cpu_array_map_impl :=
  update_at m key value flags 0 (pa_ncpu m * pa_value_size m).
Definition elem_delete_userspace (m : per_cpu_array_map_impl) (key : uptr) : res unit := Err EINVAL.

(** ** Layout *)

(** The vector has a slot for every key and CPU. *)
Record pa_wf (m : per_cpu_array_map_impl) : Prop := {
  pa_pos : 0 < pa_ncpu m ∧ 0 < pa_value_size m ∧ 0 ≤ pa_max_ent m;
  pa_len : zlen (pa_data m) = pa_max_ent m * pa_ncpu m * pa_value_size m;
  pa_32 : pa_max_ent m * pa_ncpu m * pa_value_size m < 2 ^ 32
}.

Definition cell (m : per_cpu_array_map_impl) (k c : Z) : option (list Z) :=
  slot (pa_data m) (pa_value_size m) (k * pa_ncpu m + c).

Lemma cell_index m k c : pa_wf m → 0 ≤ k < pa_max_ent m → 0 ≤ c < pa_ncpu m →
  0 ≤ k * pa_ncpu m + c < pa_max_ent m * pa_ncpu m.
Proof. intros [] Hk Hc. nia. Qed.

Lemma cell_inj m k c k' c' : pa_wf m → 0 ≤ c < pa_ncpu m → 0 ≤ c' < pa_ncpu m →
  k * pa_ncpu m + c = k' * pa_ncpu m + c' → k = k' ∧ c = c'.
Proof. intros [] Hc Hc' He. assert (k = k') by nia. subst. lia. Qed.

Lemma data_at_cell m k c : pa_wf m → 0 ≤ k < pa_max_ent m → 0 ≤ c < pa_ncpu m →
  data_at m k c = (k * pa_ncpu m + c) * pa_value_size m.
Proof.
  intros Hwf Hk Hc. pose proof (cell_index m k c Hwf Hk Hc). destruct Hwf. unfold data_at.
  rewrite u64_small; [lia|]. nia.
Qed.

Lemma cell_is_Some m k c : pa_wf m → 0 ≤ k < pa_max_ent m → 0 ≤ c < pa_ncpu m →
  ∃ v, cell m k c = Some v ∧ zlen v = pa_value_size m.
Proof.
  intros Hwf Hk Hc. pose proof (cell_index m k c Hwf Hk Hc). destruct Hwf as [(?&?&?) Hl _].
  by apply (slot_is_Some _ _ (pa_max_ent m * pa_ncpu m)).
Qed.

Lemma lookup_cell m k c : pa_wf m → 0 ≤ k < pa_max_ent m → 0 ≤ c < pa_ncpu m → k < 2 ^ 32 →
  ∃ v, elem_lookup m (key32 k) c = Ok v ∧ cell m k c = Some v.
Proof.
  intros Hwf Hk Hc H32. destruct (cell_is_Some m k c Hwf Hk Hc) as (v&Hv&_). exists v. split; [|done].
  unfold elem_lookup, lookup_at. destruct (key32 k) eqn:E; [|done]. rewrite <- E.
  rewrite load_u32_key32 by lia. rewrite (proj2 (Z.leb_gt _ _)) by lia.
  rewrite data_at_cell by done. unfold cell, slot in Hv. by rewrite Hv.
Qed.

(** A write of [n] cells from cell [(k, c)] on. *)
Lemma update_cells m k c value flags n v :
  pa_wf m → 0 ≤ k < pa_max_ent m → k < 2 ^ 32 → 0 ≤ c → 0 < n → c + n ≤ pa_ncpu m →
  flags = BPF_ANY ∨ flags = BPF_EXIST → from_user value (n * pa_value_size m) = Some v →
  ∃ d, update_at m (key32 k) value flags c (n * pa_value_size m) = (Ok tt, with_data m d) ∧
       vwrite (pa_data m) ((k * pa_ncpu m + c) * pa_value_size m) v = Some d ∧ pa_wf (with_data m d).
Proof.
  intros Hwf Hk H32 Hc Hn Hcn Hf Hv. pose proof Hwf as [(?&?&?) Hl Hs].
  pose proof (from_user_zlen _ _ _ Hv) as Hz.
  destruct (vwrite_is_Some (pa_data m) ((k * pa_ncpu m + c) * pa_value_size m) v) as (d&Hd&Hdz).
  { nia. }
  { rewrite Hz, Hl. assert (k * pa_ncpu m + c + n ≤ pa_max_ent m * pa_ncpu m) by nia. nia. }
  exists d. split; [|split; [done|split; simpl; [done|congruence|done]]].
  unfold update_at. destruct (key32 k) eqn:E; [|done]. rewrite <- E. rewrite load_u32_key32 by lia.
  rewrite (proj2 (Z.leb_gt _ _)) by lia. rewrite data_at_cell by (done || lia). rewrite Hv.
  cbn [mbind option_bind]. rewrite Hd. destruct Hf as [->| ->]; simpl; by rewrite ?andb_false_r.
Qed.

Lemma pa_create_wf vs n ncpu :
  0 < ncpu → 0 < vs → 0 ≤ n → n * ncpu * vs < 2 ^ 32 → pa_wf (per_cpu_array_create vs n ncpu).
Proof.
  intros. split; simpl; [done| |done].
  rewrite u32_small, zlen_replicate by nia. done.
Qed.

(** ** Properties *)

(** CPUs do not see each other's values: an update by an eBPF program on CPU [c]
    changes what a lookup of that key on that CPU returns, and no other key and CPU. *)
Theorem per_cpu_array_isolation m k c value flags v k' c' :
  pa_wf m → 0 ≤ k < pa_max_ent m → 0 ≤ c < pa_ncpu m → 0 ≤ k' < pa_max_ent m → 0 ≤ c' < pa_ncpu m →
  pa_max_ent m ≤ 2 ^ 32 → flags = BPF_ANY ∨ flags = BPF_EXIST → from_user value (pa_value_size m) = Some v →
  let x := elem_update m (key32 k) value flags c in
  x.1 = Ok tt ∧ pa_wf x.2 ∧
  elem_lookup x.2 (key32 k') c' =
    if bool_decide (k = k' ∧ c = c') then Ok v else elem_lookup m (key32 k') c'.
Proof.
  intros Hwf Hk Hc Hk' Hc' H32 Hf Hv x.
  destruct (update_cells m k c value flags 1 v) as (d&Hu&Hw&Hwf'); try done; try lia.
  { by rewrite Z.mul_1_l. }
  rewrite Z.mul_1_l in Hu. assert (x = (Ok tt, with_data m d)) as -> by exact Hu. cbn [fst snd].
  split; [done|]. split; [done|].
  destruct (lookup_cell (with_data m d) k' c') as (w&->&Hcell); [done|done|done|lia|].
  destruct (lookup_cell m k' c') as (w0&->&Hcell0); [done|done|done|lia|].
  unfold cell in Hcell, Hcell0. cbn [with_data pa_data pa_ncpu pa_value_size] in Hcell.
  rewrite (slot_write_eq _ _ _ _ _ _ Hw) in Hcell by (by eapply from_user_zlen).
  case_decide as He.
  - apply cell_inj in He as [-> ->]; [|done..]. rewrite bool_decide_eq_true_2 by done. congruence.
  - rewrite bool_decide_eq_false_2 by (intros [-> ->]; done). congruence.
Qed.

Lemma per_cpu_array_isolation_witness :
  let m := per_cpu_array_create 2 3 4 in
  let x := elem_update m (key32 1) (Some [7; 8]) BPF_ANY 2 in
  x.1 = Ok tt ∧ elem_lookup x.2 (key32 1) 2 = Ok [7; 8] ∧ elem_lookup x.2 (key32 1) 3 = Ok [0; 0].
Proof.
  intros m x. assert (Hwf : pa_wf m) by (apply pa_create_wf; lia). split; [vm_compute; reflexivity|]. split.
  - apply (per_cpu_array_isolation m 1 2 (Some [7; 8]) BPF_ANY [7; 8] 1 2 Hwf); simpl; first [lia | by left | reflexivity].
  - apply (per_cpu_array_isolation m 1 2 (Some [7; 8]) BPF_ANY [7; 8] 1 3 Hwf); simpl; first [lia | by left | reflexivity].
Defined.

(** The syscall side writes and reads the values of all CPUs at once: after an update
    with [ncpu] values, CPU [c] finds the [c]-th of them, and the whole block is read back. *)
Theorem per_cpu_array_userspace m k value flags v c :
  pa_wf m → 0 ≤ k < pa_max_ent m → pa_max_ent m ≤ 2 ^ 32 → flags = BPF_ANY ∨ flags = BPF_EXIST →
  from_user value (pa_ncpu m * pa_value_size m) = Some v → 0 ≤ c < pa_ncpu m →
  let x := elem_update_userspace m (key32 k) value flags in
  x.1 = Ok tt ∧ elem_lookup_userspace x.2 (key32 k) = Ok v ∧
  elem_lookup x.2 (key32 k) c =
    Ok (take (Z.to_nat (pa_value_size m)) (drop (Z.to_nat (c * pa_value_size m)) v)).
Proof.
  intros Hwf Hk H32 Hf Hv Hc x. pose proof Hwf as [(?&?&?) Hl Hs].
  destruct (update_cells m k 0 value flags (pa_ncpu m) v) as (d&Hu&Hw&Hwf'); try done; try lia.
  assert (x = (Ok tt, with_data m d)) as -> by exact Hu. cbn [fst snd]. split; [done|].
  pose proof (vread_vwrite_same _ _ _ _ Hw) as Hr. rewrite (from_user_zlen _ _ _ Hv) in Hr.
  assert (Hcell : cell (with_data m d) k c =
    Some (take (Z.to_nat (pa_value_size m)) (drop (Z.to_nat (c * pa_value_size m)) v))).
  { unfold cell, slot. cbn [with_data pa_data pa_ncpu pa_value_size].
    rewrite <- vread_Some by (rewrite ?(from_user_zlen _ _ _ Hv); nia).
    rewrite (vread_vread _ _ _ _ (c * pa_value_size m) (pa_value_size m) Hr) by nia. f_equal; lia. }
  split.
  - unfold elem_lookup_userspace, lookup_at. destruct (key32 k) eqn:E; [|done]. rewrite <- E.
    rewrite load_u32_key32 by lia. cbn [with_data pa_max_ent pa_ncpu pa_value_size].
    rewrite (proj2 (Z.leb_gt _ _)) by lia. rewrite data_at_cell by (done || simpl; lia).
    cbn [with_data pa_data pa_ncpu pa_value_size]. by rewrite Hr.
  - destruct (lookup_cell (with_data m d) k c) as (w&->&Hw'); [done|done|done|lia|]. congruence.
Qed.

Lemma per_cpu_array_userspace_witness :
  let m := per_cpu_array_create 1 3 4 in
  let x := elem_update_userspace m (key32 2) (Some [5; 6; 7; 8]) BPF_ANY in
  elem_lookup_userspace x.2 (key32 2) = Ok [5; 6; 7; 8] ∧ elem_lookup x.2 (key32 2) 3 = Ok [8].
Proof.
  intros m x. assert (Hwf : pa_wf m) by (apply pa_create_wf; lia).
  destruct (per_cpu_array_userspace m 2 (Some [5; 6; 7; 8]) BPF_ANY [5; 6; 7; 8] 3 Hwf) as (_&Ha&Hb);
    [simpl; lia|simpl; lia|by left|reflexivity|simpl; lia|]. exact (conj Ha Hb).
Defined.
