(* ===== verification/BloomFilter.v ===== *)
(** * Bloom filter maps

    [bloom_filter_map_impl] (runtime/src/bpf_map/userspace/bloom_filter.cpp): a bit array whose size is
    a power of two, set and tested at the positions of [nr_hashes] hash functions. The random seed
    that the constructor draws is an argument of the model. *)

From stdpp Require Import base numbers list sets.
From S2P Require Import Prelude.

Inductive BloomHashAlgorithm := DJB2 | JHASH.

Record bloom_filter_map_impl := BloomFilterMap {
  bf_value_size : Z;
  bf_max_entries : Z;
  bf_nr_hashes : Z;
  bf_hash_algorithm : BloomHashAlgorithm;
  bf_hash_seed : Z;
  bf_bit_array_size_bits : Z;
  bf_bit_array_size_bytes : Z;
  bf_bit_array_mask : Z;
  bit_array : list Z
}.

(** ** Sizes *)

Definition calculate_optimal_bit_array_size (max_entries nr_hashes : Z) : Z :=
  let optimal_size := u64 (u64 (max_entries * nr_hashes) * 7) / 5 in
  let optimal_size := if optimal_size <? 64 then 64 else optimal_size in
  if 2 ^ 31 <? optimal_size then 2 ^ 31 else optimal_size.

(** while (p < bits) p <<= 1; a 64-bit number doubles at most 64 times. *)
Fixpoint double_until (fuel : nat) (p bits : Z) : Z :=
  match fuel with
  | O => p
  | S fuel => if p <? bits then double_until fuel (u64 (Z.shiftl p 1)) bits else p
  end.

Definition bloom_filter_create (value_size max_entries nr_hashes : Z) (algo : BloomHashAlgorithm)
  (seed : Z) : res bloom_filter_map_impl :=
  if (value_size =? 0) || (max_entries =? 0) then Throw
  else if (nr_hashes =? 0) || (15 <? nr_hashes) then Throw
  else
    let bits := double_until 64 1 (calculate_optimal_bit_array_size max_entries nr_hashes) in
    let bytes := (bits + 7) / 8 in
    Ok {| bf_value_size := value_size; bf_max_entries := max_entries; bf_nr_hashes := nr_hashes;
          bf_hash_algorithm := algo; bf_hash_seed := seed;
          bf_bit_array_size_bits := bits; bf_bit_array_size_bytes := bytes;
          bf_bit_array_mask := u32 (bits - 1);
          bit_array := replicate (Z.to_nat bytes) 0 |}.

(** ** Hashes *)

(** (x << n) | (x >> (32 - n)) *)
Definition rol32 (x n : Z) : Z := Z.lor (u32 (Z.shiftl x n)) (Z.shiftr x (32 - n)).

(** Byte [i] of the key, shifted. *)
Definition kb (k : list Z) (i sh : Z) : Z := u32 (Z.shiftl (nth (Z.to_nat i) k 0) sh).
Definition word (k : list Z) (i : Z) : Z := u32 (kb k i 0 + kb k (i + 1) 8 + kb k (i + 2) 16 + kb k (i + 3) 24).

Definition jmix (abc : Z * Z * Z) : Z * Z * Z :=
  let '(a, b, c) := abc in
  let a := Z.lxor (u32 (a - c)) (rol32 c 4) in let c := u32 (c + b) in
  let b := Z.lxor (u32 (b - a)) (rol32 a 6) in let a := u32 (a + c) in
  let c := Z.lxor (u32 (c - b)) (rol32 b 8) in let b := u32 (b + a) in
  let a := Z.lxor (u32 (a - c)) (rol32 c 16) in let c := u32 (c + b) in
  let b := Z.lxor (u32 (b - a)) (rol32 a 19) in let a := u32 (a + c) in
  let c := Z.lxor (u32 (c - b)) (rol32 b 4) in let b := u32 (b + a) in
  (a, b, c).

(** The loop over blocks of 12 bytes; each round takes 12 of [length]. *)
Fixpoint jhash_blocks (fuel : nat) (k : list Z) (length : Z) (abc : Z * Z * Z)
  : list Z * Z * (Z * Z * Z) :=
  match fuel with
  | O => (k, length, abc)
  | S fuel =>
      if 12 <? length then
        let '(a, b, c) := abc in
        jhash_blocks fuel (drop 12 k) (length - 12)
          (jmix (u32 (a + word k 0), u32 (b + word k 4), u32 (c + word k 8)))
      else (k, length, abc)
  end.

(** The cases of the switch on the bytes that are left, from 12 down. *)
Definition jhash_tail (k : list Z) (length : Z) (abc : Z * Z * Z) : Z * Z * Z :=
  let '(a, b, c) := abc in
  let add x i sh := if i <? length then u32 (x + kb k i sh) else x in
  let c := add (add (add (add c 11 24) 10 16) 9 8) 8 0 in
  let b := add (add (add (add b 7 24) 6 16) 5 8) 4 0 in
  let a := add (add (add (add a 3 24) 2 16) 1 8) 0 0 in
  (a, b, c).

Definition jfinal (abc : Z * Z * Z) : Z :=
  let '(a, b, c) := abc in
  let c := u32 (Z.lxor c b - rol32 b 14) in
  let a := u32 (Z.lxor a c - rol32 c 11) in
  let b := u32 (Z.lxor b a - rol32 a 25) in
  let c := u32 (Z.lxor c b - rol32 b 16) in
  let a := u32 (Z.lxor a c - rol32 c 4) in
  let b := u32 (Z.lxor b a - rol32 a 14) in
  u32 (Z.lxor c b - rol32 b 24).

Definition jhash (key : list Z) (length initval : Z) : Z :=
  let x := u32 (0xdeadbeef + length + initval) in
  let '(k, rest, abc) := jhash_blocks (Z.to_nat length) key length (x, x, x) in
  if rest =? 0 then let '(_, _, c) := abc in c else jfinal (jhash_tail k rest abc).

Definition djb2 (value : list Z) (seed hash_index : Z) : Z :=
  let hash := u32 (seed + u32 (hash_index * 0x9e3779b9)) in
  let hash := foldl (λ hash b, u32 (u32 (u32 (Z.shiftl hash 5) + hash) + b)) hash value in
  let hash := Z.lxor hash (Z.shiftr hash 16) in
  let hash := u32 (hash * 0x85ebca6b) in
  let hash := Z.lxor hash (Z.shiftr hash 13) in
  let hash := u32 (hash * 0xc2b2ae35) in
  Z.lxor hash (Z.shiftr hash 16).

Definition hash_value (m : bloom_filter_map_impl) (value : list Z) (hash_index : Z) : Z :=
  let hash := match bf_hash_algorithm m with
              | JHASH => jhash value (bf_value_size m) (u32 (bf_hash_seed m + hash_index))
              | DJB2 => djb2 value (bf_hash_seed m) hash_index
              end in
  Z.land hash (bf_bit_array_mask m).

(** ** Bits *)

Definition set_bit (arr : list Z) (bit_index : Z) : list Z :=
  let byte_index := bit_index / 8 in
  let bit_offset := bit_index mod 8 in
  match arr !! Z.to_nat byte_index with
  | Some b => <[Z.to_nat byte_index := u8 (Z.lor b (Z.shiftl 1 bit_offset))]> arr
  | None => arr
  end.

Definition test_bit (arr : list Z) (bit_index : Z) : bool :=
  let byte_index := bit_index / 8 in
  let bit_offset := bit_index mod 8 in
  match arr !! Z.to_nat byte_index with
  | Some b => negb (Z.land b (Z.shiftl 1 bit_offset) =? 0)
  | None => false
  end.

Definition bf_with (m : bloom_filter_map_impl) (arr : list Z) : bloom_filter_map_impl :=
  {| bf_value_size := bf_value_size m; bf_max_entries := bf_max_entries m;
     bf_nr_hashes := bf_nr_hashes m; bf_hash_algorithm := bf_hash_algorithm m;
     bf_hash_seed := bf_hash_seed m; bf_bit_array_size_bits := bf_bit_array_size_bits m;
     bf_bit_array_size_bytes := bf_bit_array_size_bytes m; bf_bit_array_mask := bf_bit_array_mask m;
     bit_array := arr |}.

(** ** Operations *)

(** The loop of the two insertions. *)
Definition add_value (m : bloom_filter_map_impl) (v : list Z) : bloom_filter_map_impl :=
  bf_with m (foldl (λ arr i, set_bit arr (hash_value m v i)) (bit_array m) (seqZ 0 (bf_nr_hashes m))).

Definition map_push_elem (m : bloom_filter_map_impl) (value : uptr) (flags : Z)
  : res unit * bloom_filter_map_impl :=
  match value with
  | None => (Err EINVAL, m)
  | Some _ =>
      if negb (flags =? BPF_ANY) then (Err EINVAL, m)
      else match from_user value (bf_value_size m) with
           | None => (Fault, m)
           | Some v => (Ok tt, add_value m v)
           end
  end.

Definition elem_update (m : bloom_filter_map_impl) (key value : uptr) (flags : Z)
  : res unit * bloom_filter_map_impl :=
  match value with
  | None => (Err EINVAL, m)
  | Some _ =>
      if negb (flags =? BPF_ANY) then (Err EINVAL, m)
      else match from_user value (bf_value_size m) with
           | None => (Fault, m)
           | Some v => (Ok tt, add_value m v)
           end
  end.

Definition map_peek_elem (m : bloom_filter_map_impl) (value : uptr) : res unit :=
  match value with
  | None => Err EINVAL
  | Some _ =>
      match from_user value (bf_value_size m) with
      | None => Fault
      | Some v => if forallb (λ i, test_bit (bit_array m) (hash_value m v i)) (seqZ 0 (bf_nr_hashes m))
                  then Ok tt else Err ENOENT
      end
  end.

Definition elem_lookup (m : bloom_filter_map_impl) (key : uptr) : res (list Z) := Err EOPNOTSUPP.
Definition elem_delete (m : bloom_filter_map_impl) (key : uptr) : res unit := Err EOPNOTSUPP.
Definition map_get_next_key (m : bloom_filter_map_impl) (key : uptr) : res (list Z) := Err EOPNOTSUPP.
Definition map_pop_elem (m : bloom_filter_map_impl) : res unit := Err EOPNOTSUPP.
Definition get_value_size (m : bloom_filter_map_impl) : Z := bf_value_size m.
Definition get_max_entries (m : bloom_filter_map_impl) : Z := bf_max_entries m.
Definition get_nr_hashes (m : bloom_filter_map_impl) : Z := bf_nr_hashes m.

(** ** The bit array *)

Lemma test_bit_testbit arr i :
  test_bit arr i = match arr !! Z.to_nat (i / 8) with Some b => Z.testbit b (i mod 8) | None => false end.
Proof.
  unfold test_bit. destruct (_ !! _) as [b|]; [|done].
  rewrite land_pow2_testbit by (apply Z.mod_pos_bound; lia). apply negb_involutive.
Qed.

Lemma length_set_bit arr i : length (set_bit arr i) = length arr.
Proof. unfold set_bit. destruct (_ !! _); [apply length_insert|done]. Qed.

(** Setting a bit sets that bit, and leaves the others. *)
Lemma test_set_bit arr i j :
  0 ≤ i < 8 * zlen arr → 0 ≤ j → test_bit (set_bit arr i) j = (i =? j) || test_bit arr j.
Proof.
  intros Hi Hj. rewrite !test_bit_testbit. unfold set_bit.
  pose proof (Z.div_mod i 8 ltac:(lia)) as Hdi. pose proof (Z.div_mod j 8 ltac:(lia)) as Hdj.
  pose proof (Z.mod_pos_bound i 8 ltac:(lia)). pose proof (Z.mod_pos_bound j 8 ltac:(lia)).
  destruct (lookup_lt_is_Some_2 arr (Z.to_nat (i / 8))) as [b Hb]; [unfold zlen in Hi; lia|].
  rewrite Hb. destruct (decide (i / 8 = j / 8)) as [He|He].
  - rewrite <- He, list_lookup_insert_eq, Hb by (unfold zlen in Hi; lia). unfold u8.
    rewrite Z.mod_pow2_bits_low, Z.lor_spec, Z.shiftl_1_l, Z.pow2_bits_eqb, orb_comm by lia.
    f_equal. destruct (Z.eqb_spec (i mod 8) (j mod 8)), (Z.eqb_spec i j); try done; lia.
  - rewrite list_lookup_insert_ne by lia. rewrite (proj2 (Z.eqb_neq i j)); [done|]. congruence.
Qed.

(** The bits after a run of the insertion loop. *)
Lemma test_set_bits (f : Z → Z) (l : list Z) : ∀ arr j,
  (∀ i, i ∈ l → 0 ≤ f i < 8 * zlen arr) → 0 ≤ j →
  test_bit (foldl (λ a i, set_bit a (f i)) arr l) j = existsb (λ i, f i =? j) l || test_bit arr j.
Proof.
  induction l as [|i l IH]; intros arr j Hf Hj; [done|]. simpl. rewrite IH.
  - rewrite test_set_bit by (done || apply Hf; set_solver).
    destruct (existsb _ l), (f i =? j); done.
  - intros i' Hi'. unfold zlen. rewrite length_set_bit. apply Hf. set_solver.
  - done.
Qed.

Lemma zlen_set_bits (f : Z → Z) (l : list Z) : ∀ arr, zlen (foldl (λ a i, set_bit a (f i)) arr l) = zlen arr.
Proof.
  induction l as [|i l IH]; intros arr; [done|]. simpl. rewrite IH. unfold zlen. by rewrite length_set_bit.
Qed.

(** ** Well-formed filters *)

(** The array has [2^n] bits and the mask has the [n] lowest. *)
Definition bf_wf (m : bloom_filter_map_impl) : Prop :=
  ∃ n, 6 ≤ n ≤ 31 ∧ bf_bit_array_size_bits m = 2 ^ n ∧ bf_bit_array_mask m = 2 ^ n - 1 ∧
       8 * zlen (bit_array m) = 2 ^ n ∧ 0 < bf_nr_hashes m ≤ 15 ∧ 0 < bf_value_size m.

Lemma double_until_spec bits k fuel : ∀ j,
  0 ≤ j ≤ k → k < 63 → bits ≤ 2 ^ k → (Z.to_nat (k - j) ≤ fuel)%nat → (0 < j → 2 ^ (j - 1) < bits) →
  ∃ n, j ≤ n ≤ k ∧ double_until fuel (2 ^ j) bits = 2 ^ n ∧ bits ≤ 2 ^ n ∧ (0 < n → 2 ^ (n - 1) < bits).
Proof.
  induction fuel as [|fuel IH]; intros j Hj Hk Hb Hf Hl; cbn [double_until].
  { exists j. assert (j = k) by lia. subst. repeat split; (done || lia). }
  destruct (Z.ltb_spec (2 ^ j) bits) as [Hlt|Hge].
  - assert (j ≠ k) by (intros ->; lia).
    assert (u64 (Z.shiftl (2 ^ j) 1) = 2 ^ (j + 1)) as ->.
    { rewrite Z.shiftl_mul_pow2 by lia. rewrite <- Z.pow_add_r by lia. apply u64_small.
      split; [lia|]. apply Z.pow_lt_mono_r; lia. }
    destruct (IH (j + 1)) as (n&Hn&He&Hn1&Hn2); [lia|lia|done|lia| |].
    + intros _. by replace (j + 1 - 1) with j by lia.
    + exists n. repeat split; (done || lia).
  - exists j. repeat split; (done || lia).
Qed.

#[local] Arguments double_until : simpl never.

Lemma optimal_size_bounds n k : 64 ≤ calculate_optimal_bit_array_size n k ≤ 2 ^ 31.
Proof.
  unfold calculate_optimal_bit_array_size.
  repeat match goal with |- context [?a <? ?b] => destruct (Z.ltb_spec a b) end; lia.
Qed.

Lemma bloom_create_wf vs n k algo seed m :
  0 ≤ vs → 0 ≤ n → 0 ≤ k → bloom_filter_create vs n k algo seed = Ok m → bf_wf m.
Proof.
  intros Hvs Hn Hk. unfold bloom_filter_create.
  destruct ((vs =? 0) || (n =? 0)) eqn:E1; [done|]. destruct ((k =? 0) || (15 <? k)) eqn:E2; [done|].
  bool_to_prop. pose proof (optimal_size_bounds n k) as Hb.
  destruct (double_until_spec (calculate_optimal_bit_array_size n k) 31 64 0) as (e&He&Hd&Hu1&Hu2);
    [lia|lia|lia|lia|lia|].
  change (2 ^ 0) with 1 in Hd. rewrite Hd. intros [= <-]. exists e.
  cbn [bf_bit_array_size_bits bf_bit_array_mask bit_array bf_nr_hashes bf_value_size].
  assert (He6 : 6 ≤ e).
  { destruct (Z.le_gt_cases 6 e); [done|]. assert (2 ^ e ≤ 2 ^ 5) by (apply Z.pow_le_mono_r; lia). lia. }
  assert (Hp : 2 ^ e = 8 * 2 ^ (e - 3)).
  { change 8 with (2 ^ 3). rewrite <- Z.pow_add_r by lia. f_equal. lia. }
  assert (0 < 2 ^ (e - 3)) by (apply Z.pow_pos_nonneg; lia).
  assert (2 ^ e ≤ 2 ^ 31) by (apply Z.pow_le_mono_r; lia).
  split; [lia|]. split; [done|]. split; [apply u32_small; lia|].
  assert (Hdiv : (2 ^ e + 7) / 8 = 2 ^ (e - 3)) by (symmetry; apply (Z.div_unique_pos _ _ _ 7); lia).
  rewrite Hdiv, zlen_replicate by lia. lia.
Qed.

(** Hash positions are inside the array. *)
Lemma hash_in_range m v i : bf_wf m → 0 ≤ hash_value m v i < 8 * zlen (bit_array m).
Proof.
  intros (n&Hn&_&Hm&Hz&_). unfold hash_value. rewrite Hm, Hz.
  replace (2 ^ n - 1) with (Z.ones n) by (rewrite Z.ones_equiv; lia).
  rewrite Z.land_ones by lia. apply Z.mod_pos_bound. apply Z.pow_pos_nonneg; lia.
Qed.

Lemma add_value_wf m v : bf_wf m → bf_wf (add_value m v).
Proof.
  intros (n&?&?&?&Hz&?). exists n. do 3 (split; [done|]). split; [|done].
  unfold add_value. cbn [bit_array bf_with]. by rewrite zlen_set_bits.
Qed.

Lemma hash_value_add m v w i : hash_value (add_value m v) w i = hash_value m w i.
Proof. done. Qed.

Lemma test_add_value m v j : bf_wf m → 0 ≤ j →
  test_bit (bit_array (add_value m v)) j =
  existsb (λ i, hash_value m v i =? j) (seqZ 0 (bf_nr_hashes m)) || test_bit (bit_array m) j.
Proof.
  intros Hwf Hj. unfold add_value. cbn [bit_array bf_with].
  apply (test_set_bits (λ i, hash_value m v i)); [|done]. intros i _. by apply hash_in_range.
Qed.

(** The value may be in the filter. *)
Definition may_contain (m : bloom_filter_map_impl) (v : list Z) : Prop :=
  ∀ i, i ∈ seqZ 0 (bf_nr_hashes m) → test_bit (bit_array m) (hash_value m v i) = true.

Lemma peek_may_contain m v : zlen v = bf_value_size m →
  map_peek_elem m (Some v) = Ok tt ↔ may_contain m v.
Proof.
  intros Hz. unfold map_peek_elem. rewrite from_user_exact by done. unfold may_contain.
  destruct (forallb _ _) eqn:E; split; try done.
  - intros _ i Hi. rewrite forallb_forall in E. apply E. by apply list_elem_of_In.
  - intros Hall. exfalso. apply not_true_iff_false in E. apply E. apply forallb_forall.
    intros i Hi. apply Hall. by apply list_elem_of_In.
Qed.

Lemma add_contains m v : bf_wf m → may_contain (add_value m v) v.
Proof.
  intros Hwf i Hi. rewrite hash_value_add, test_add_value by (done || apply hash_in_range; done).
  apply orb_true_iff. left. apply existsb_exists. exists i. split; [by apply list_elem_of_In|apply Z.eqb_refl].
Qed.

Lemma add_mono m v w : bf_wf m → may_contain m w → may_contain (add_value m v) w.
Proof.
  intros Hwf Hw i Hi. rewrite hash_value_add, test_add_value by (done || apply hash_in_range; done).
  apply orb_true_iff. right. by apply Hw.
Qed.

(** Insertions by either interface. *)
Inductive bloom_op := BUpdate (key value : uptr) (flags : Z) | BPush (value : uptr) (flags : Z).
Definition bloom_step (m : bloom_filter_map_impl) (op : bloom_op) : res unit * bloom_filter_map_impl :=
  match op with BUpdate k v f => elem_update m k v f | BPush v f => map_push_elem m v f end.
Definition bloom_run (m : bloom_filter_map_impl) (ops : list bloom_op) : bloom_filter_map_impl :=
  foldl (λ m op, (bloom_step m op).2) m ops.

Lemma bloom_step_cases m op : (bloom_step m op).2 = m ∨ ∃ v, (bloom_step m op).2 = add_value m v.
Proof.
  destruct op as [k [v|] f|[v|] f]; simpl; try (by left); destruct (negb _); try (by left);
    destruct (from_user _ _); (by left) || (right; by eexists).
Qed.

Lemma bloom_run_keeps ops : ∀ m w, bf_wf m → may_contain m w →
  bf_wf (bloom_run m ops) ∧ may_contain (bloom_run m ops) w ∧ bf_value_size (bloom_run m ops) = bf_value_size m.
Proof.
  induction ops as [|op ops IH]; intros m w Hwf Hw; [done|]. simpl.
  destruct (bloom_step_cases m op) as [->|[v ->]]; [by apply IH|].
  apply (IH (add_value m v)); [by apply add_value_wf|by apply add_mono].
Qed.

(** ** Properties *)

(** C22 (functional). No false negatives: once a value was inserted, by a push or an update, a peek for
    it succeeds after any further operations. *)
Theorem bloom_no_false_negatives vs n k algo seed m ops ops' v op :
  0 ≤ vs → 0 ≤ n → 0 ≤ k → bloom_filter_create vs n k algo seed = Ok m → zlen v = vs →
  op = BPush (Some v) BPF_ANY ∨ op = BUpdate None (Some v) BPF_ANY →
  map_peek_elem (bloom_run m (ops ++ op :: ops')) (Some v) = Ok tt.
Proof.
  intros Hvs Hn Hk Hc Hv Hop. pose proof (bloom_create_wf _ _ _ _ _ _ Hvs Hn Hk Hc) as Hwf.
  assert (Hsz : bf_value_size m = vs).
  { unfold bloom_filter_create in Hc. repeat (destruct (_ || _) in Hc; [done|]). by injection Hc as <-. }
  unfold bloom_run. rewrite foldl_app. simpl. fold (bloom_run m ops). set (m1 := bloom_run m ops).
  assert (H1 : bf_wf m1 ∧ bf_value_size m1 = bf_value_size m).
  { unfold m1. clear -Hwf. revert m Hwf. induction ops as [|op ops IH]; intros m Hwf; [done|]. simpl.
    destruct (bloom_step_cases m op) as [->|[v ->]]; [by apply IH|]. by apply (IH (add_value m v)), add_value_wf. }
  destruct H1 as [Hwf1 Hsz1].
  assert ((bloom_step m1 op).2 = add_value m1 v) as ->.
  { destruct Hop as [->| ->]; simpl; rewrite from_user_exact by congruence; done. }
  fold (bloom_run (add_value m1 v) ops').
  destruct (bloom_run_keeps ops' (add_value m1 v) v) as (_&Hc'&Hs');
    [by apply add_value_wf|by apply add_contains|].
  apply peek_may_contain; [|done]. rewrite Hs'. cbn [add_value bf_with bf_value_size]. congruence.
Qed.

Lemma bloom_no_false_negatives_witness : ∃ m,
  bloom_filter_create 4 10 3 JHASH 12345 = Ok m ∧
  map_peek_elem (bloom_run m ([] ++ BPush (Some [1; 2; 3; 4]) 0 :: [BPush (Some [5; 6; 7; 8]) 0])) (Some [1; 2; 3; 4]) = Ok tt.
Proof.
  eexists. split; [vm_compute; reflexivity|].
  apply (bloom_no_false_negatives 4 10 3 JHASH 12345); [lia|lia|lia|vm_compute; reflexivity|reflexivity|by left].
Defined.

(** A constructed filter has a power of two of bits, between 64 and 2^31, every hash
    position is inside the array, and a fresh filter contains nothing. *)
Theorem bloom_create_bounds vs n k algo seed m v i :
  0 ≤ vs → 0 ≤ n → 0 ≤ k → bloom_filter_create vs n k algo seed = Ok m → zlen v = vs →
  (∃ e, 6 ≤ e ≤ 31 ∧ bf_bit_array_size_bits m = 2 ^ e) ∧
  zlen (bit_array m) = bf_bit_array_size_bytes m ∧
  0 ≤ hash_value m v i < bf_bit_array_size_bits m ∧
  map_peek_elem m (Some v) = Err ENOENT.
Proof.
  intros Hvs Hn Hk Hc Hv. pose proof (bloom_create_wf _ _ _ _ _ _ Hvs Hn Hk Hc) as Hwf.
  pose proof (hash_in_range m v i Hwf) as Hi. pose proof Hwf as (e&He&Hb&_&Hz&Hk'&_).
  split; [by exists e|]. rewrite Hb.
  assert (Hc' : bf_bit_array_size_bytes m = zlen (bit_array m) ∧ bf_value_size m = vs ∧
    bit_array m = replicate (Z.to_nat (bf_bit_array_size_bytes m)) 0).
  { unfold bloom_filter_create in Hc. repeat (destruct (_ || _) in Hc; [done|]). injection Hc as <-. simpl in *.
    split; [|done]. rewrite Hb in Hz |- *. unfold zlen in *. rewrite length_replicate in *. lia. }
  destruct Hc' as (Hbytes&Hsz&Harr). split; [done|]. split; [lia|].
  destruct (map_peek_elem m (Some v)) eqn:E; unfold map_peek_elem in E; rewrite from_user_exact in E by congruence;
    destruct (forallb _ _) eqn:Ef; try done; simplify_eq.
  exfalso. rewrite forallb_forall in Ef. specialize (Ef 0). rewrite test_bit_testbit, Harr in Ef.
  assert (Hin : In 0 (seqZ 0 (bf_nr_hashes m))) by (apply list_elem_of_In, elem_of_seqZ; lia).
  specialize (Ef Hin). destruct (_ !! _) as [b|] eqn:Hlk; [|done].
  apply lookup_replicate in Hlk as [-> _]. by rewrite Z.bits_0 in Ef.
Qed.

Lemma bloom_create_bounds_witness : ∃ m,
  bloom_filter_create 4 100 3 DJB2 7 = Ok m ∧ 0 ≤ hash_value m [1; 2; 3; 4] 2 < bf_bit_array_size_bits m ∧
  bf_bit_array_size_bits m = 512.
Proof.
  eexists. split; [vm_compute; reflexivity|]. split; [|reflexivity].
  apply (bloom_create_bounds 4 100 3 DJB2 7); [lia|lia|lia|vm_compute; reflexivity|reflexivity].
Defined.
