(* ===== verification/FdArray.v ===== *)
(** * Arrays of descriptors

    [perf_event_array_map_impl] (runtime/src/bpf_map/userspace/perf_event_array_map.cpp) keeps the
    descriptors it is given. [prog_array_map_impl] (prog_array.cpp) keeps the ids of the programs
    behind them, since a descriptor means nothing in another process, and makes a new descriptor
    from the id on lookup. The two bpf system calls it uses are a parameter. *)

From stdpp Require Import base numbers list.
From S2P Require Import Prelude.

(** The bounds check that the operations share: the index, or what they return without it. *)
Definition fd_index (data : list Z) (key : uptr) : res nat :=
  match load_s32 key with
  | None => Fault
  | Some k => if (k <? 0) || (zlen data <=? k) then Err EINVAL else Ok (Z.to_nat k)
  end.

(** The default of a slot is -1. *)
Definition fd_array_create (key_size value_size max_entries : Z) : res (list Z) :=
  if negb (key_size =? 4) || negb (value_size =? 4) then Throw
  else Ok (replicate (Z.to_nat max_entries) (-1)).

(** ** perf_event_array_map_impl *)

Record perf_event_array_map_impl := PerfEventArrayMap { pe_data : list Z }.

Definition perf_event_array_create (key_size value_size max_entries : Z) : res perf_event_array_map_impl :=
  res_map PerfEventArrayMap (fd_array_create key_size value_size max_entries).

(** The value behind the pointer it returns. *)
Definition perf_elem_lookup (m : perf_event_array_map_impl) (key : uptr) : res Z :=
  match fd_index (pe_data m) key with
  | Ok k => match pe_data m !! k with Some v => Ok v | None => Fault end
  | Err e => Err e | Raw c => Raw c | Throw => Throw | Fault => Fault
  end.

Definition perf_elem_update (m : perf_event_array_map_impl) (key value : uptr) (flags : Z)
  : res unit * perf_event_array_map_impl :=
  match fd_index (pe_data m) key with
  | Ok k =>
      match load_s32 value with
      | None => (Fault, m)
      | Some v => (Ok tt, PerfEventArrayMap (<[k := v]> (pe_data m)))
      end
  | Err e => (Err e, m) | Raw c => (Raw c, m) | Throw => (Throw, m) | Fault => (Fault, m)
  end.

Definition perf_elem_delete (m : perf_event_array_map_impl) (key : uptr) : res unit * perf_event_array_map_impl :=
  match fd_index (pe_data m) key with
  | Ok k => (Ok tt, PerfEventArrayMap (<[k := -1]> (pe_data m)))
  | Err e => (Err e, m) | Raw c => (Raw c, m) | Throw => (Throw, m) | Fault => (Fault, m)
  end.

(** The same in both maps; the key is stored to [*next_key]. *)
Definition fd_next_key (data : list Z) (key : uptr) : res Z :=
  match key with
  | None => Ok 0
  | Some _ =>
      match load_s32 key with
      | None => Fault
      | Some k =>
          if u64 (s32 (k + 1)) =? zlen data then Err ENOENT
          else if (k <? 0) || (zlen data <=? k) then Err EINVAL
          else Ok (k + 1)
      end
  end.

Definition perf_map_get_next_key (m : perf_event_array_map_impl) (key : uptr) : res Z := fd_next_key (pe_data m) key.

(** ** prog_array_map_impl *)

(** The kernel, as the calling process sees it: the id of the program behind a descriptor, and the
    answer of [BPF_PROG_GET_FD_BY_ID] at its n-th attempt. *)
Class Kernel := {
  obj_get_info_by_fd : Z → option Z;
  prog_get_fd_by_id : nat → Z → Z
}.

(** The descriptor that is made from an id is of the program with that id. *)
Class KernelLaws `{Kernel} : Prop := {
  fd_by_id_info n id : 0 ≤ prog_get_fd_by_id n id → obj_get_info_by_fd (prog_get_fd_by_id n id) = Some id;
  info_id_bound fd id : obj_get_info_by_fd fd = Some id → 0 ≤ id < 2 ^ 32
}.

Definition EAGAIN : Z := 11.

Section prog_array.
Context `{Kernel}.

Record prog_array_map_impl := ProgArrayMap { pg_data : list Z }.

Definition prog_array_create (key_size value_size max_entries : Z) : res prog_array_map_impl :=
  res_map ProgArrayMap (fd_array_create key_size value_size max_entries).

(** [my_bpf_syscall_fd]: five attempts while the kernel answers [-EAGAIN]. *)
Fixpoint syscall_attempts (attempts : nat) (n : nat) (id : Z) : Z :=
  let fd := prog_get_fd_by_id n id in
  match attempts with
  | S (S _ as left) => if (fd <? 0) && (fd =? - EAGAIN) then syscall_attempts left (S n) id else fd
  | _ => fd
  end.
Definition my_bpf_prog_get_fd_by_id (id : Z) : Z := syscall_attempts 5 0 id.

(** The ids are stored in [int32_t]s and passed as [uint32_t]. The descriptor is stored to the
    thread's [current_thread_lookup_val], also when it is an error code. *)
Definition prog_elem_lookup (m : prog_array_map_impl) (key : uptr) : res Z :=
  match fd_index (pg_data m) key with
  | Ok k => match pg_data m !! k with Some id => Ok (u32 (my_bpf_prog_get_fd_by_id (u32 id))) | None => Fault end
  | Err e => Err e | Raw c => Raw c | Throw => Throw | Fault => Fault
  end.

Definition prog_elem_update (m : prog_array_map_impl) (key value : uptr) (flags : Z)
  : res unit * prog_array_map_impl :=
  match fd_index (pg_data m) key with
  | Ok k =>
      match load_s32 value with
      | None => (Fault, m)
      | Some v =>
          match obj_get_info_by_fd v with
          | None => (Raw (-1), m)
          | Some id => (Ok tt, ProgArrayMap (<[k := s32 id]> (pg_data m)))
          end
      end
  | Err e => (Err e, m) | Raw c => (Raw c, m) | Throw => (Throw, m) | Fault => (Fault, m)
  end.

Definition prog_elem_delete (m : prog_array_map_impl) (key : uptr) : res unit * prog_array_map_impl :=
  match fd_index (pg_data m) key with
  | Ok k => (Ok tt, ProgArrayMap (<[k := -1]> (pg_data m)))
  | Err e => (Err e, m) | Raw c => (Raw c, m) | Throw => (Throw, m) | Fault => (Fault, m)
  end.

Definition prog_map_get_next_key (m : prog_array_map_impl) (key : uptr) : res Z := fd_next_key (pg_data m) key.
End prog_array.

(** ** Lemmas *)

Lemma fd_index_Ok data key i : fd_index data key = Ok i → is_Some (data !! i).
Proof.
  unfold fd_index. destruct (load_s32 key) as [k|]; [|done]. destruct (_ || _) eqn:E; [done|]. intros [= <-].
  apply orb_false_iff in E as [E1 E2]. apply Z.ltb_ge in E1. apply Z.leb_gt in E2.
  apply lookup_lt_is_Some. unfold zlen in E2. lia.
Qed.

(** The attempts end with an answer of the kernel. *)
Lemma syscall_attempts_answer `{Kernel} a n id : ∃ n', syscall_attempts a n id = prog_get_fd_by_id n' id.
Proof.
  revert n. induction a as [|a IH]; intros n; [by exists n|]. destruct a as [|a]; [by exists n|].
  cbn [syscall_attempts]. destruct (_ && _); [apply IH|by exists n].
Qed.

Lemma fd_index_insert data key j v : fd_index (<[j := v]> data) key = fd_index data key.
Proof. unfold fd_index, zlen. by rewrite length_insert. Qed.

(** ** Properties *)

(** A program array gives back the program it was given: after a successful update
    the slot holds the id, and the descriptor of the next lookup, when the kernel makes one, is of
    the same program as the one that was stored. Other slots and the other key errors are as
    before. *)
Theorem prog_array_update_lookup `{KernelLaws} m key value flags m' k2 :
  prog_elem_update m key value flags = (Ok tt, m') →
  (∃ v id fd, load_s32 value = Some v ∧ obj_get_info_by_fd v = Some id ∧
     prog_elem_lookup m' key = Ok (u32 fd) ∧ (0 ≤ fd → obj_get_info_by_fd fd = Some id)) ∧
  (fd_index (pg_data m) k2 ≠ fd_index (pg_data m) key → prog_elem_lookup m' k2 = prog_elem_lookup m k2).
Proof.
  unfold prog_elem_update. destruct (fd_index (pg_data m) key) as [i| | | |] eqn:Ei; try done.
  destruct (load_s32 value) as [v|] eqn:Ev; [|done]. destruct (obj_get_info_by_fd v) as [id|] eqn:Eid; [|done].
  intros [= <-]. split.
  - exists v, id, (my_bpf_prog_get_fd_by_id id). split; [done|]. split; [done|].
    unfold prog_elem_lookup. cbn [pg_data]. rewrite fd_index_insert, Ei, list_lookup_insert_eq.
    + rewrite u32_s32, (u32_small id) by (by eapply info_id_bound). split; [done|]. unfold my_bpf_prog_get_fd_by_id.
      destruct (syscall_attempts_answer 5 0 id) as (n&->). apply fd_by_id_info.
    + apply lookup_lt_is_Some. by eapply fd_index_Ok.
  - intros Hne. unfold prog_elem_lookup. cbn [pg_data].
    rewrite fd_index_insert. destruct (fd_index (pg_data m) k2) as [j| | | |]; try done. rewrite list_lookup_insert_ne by congruence. done.
Qed.

(** A kernel with the programs 70 (descriptors 5 and, for lookups, 9); busy at the first attempt. *)
#[export] Instance demo_kernel : Kernel := {
  obj_get_info_by_fd fd := if (fd =? 5) || (fd =? 9) then Some 70 else None;
  prog_get_fd_by_id n id := if id =? 70 then if (n =? 0)%nat then - EAGAIN else 9 else -2 }.
#[export] Instance demo_kernel_laws : KernelLaws.
Proof.
  split; simpl.
  - intros n id. destruct (id =? 70) eqn:E; [|done]. apply Z.eqb_eq in E as ->. by destruct (n =? 0)%nat.
  - intros fd id. destruct (_ || _); [|done]. intros [= <-]. lia.
Qed.

Lemma prog_array_update_lookup_witness :
  prog_elem_update (ProgArrayMap [-1; -1]) (key32 1) (key32 5) 0 = (Ok tt, ProgArrayMap [-1; 70]) ∧
  prog_elem_lookup (ProgArrayMap [-1; 70]) (key32 1) = Ok 9 ∧
  ((∃ v id fd, load_s32 (key32 5) = Some v ∧ obj_get_info_by_fd v = Some id ∧
     prog_elem_lookup (ProgArrayMap [-1; 70]) (key32 1) = Ok (u32 fd) ∧ (0 ≤ fd → obj_get_info_by_fd fd = Some id)) ∧
   (fd_index (pg_data (ProgArrayMap [-1; -1])) (key32 0) ≠ fd_index (pg_data (ProgArrayMap [-1; -1])) (key32 1) →
    prog_elem_lookup (ProgArrayMap [-1; 70]) (key32 0) = prog_elem_lookup (ProgArrayMap [-1; -1]) (key32 0))).
Proof.
  split; [done|]. split; [vm_compute; done|].
  apply (prog_array_update_lookup (ProgArrayMap [-1; -1]) (key32 1) (key32 5) 0 (ProgArrayMap [-1; 70]) (key32 0)).
  vm_compute. done.
Defined.
