(* ===== verification/PerfEvent.v ===== *)
(** * Perf events

    [bpf_perf_event_handler] and [software_perf_event_data] (runtime/src/handler/
    perf_event_handler.cpp). A software perf event is a ring of bytes behind a header page, which a
    user of [mmap] reads: programs append records at [data_head], the reader advances [data_tail].
    The fields of the header page are fields of the record, and [sp_data] is what is behind the page. *)

From stdpp Require Import base numbers list strings gmap.
From S2P Require Import Prelude.

Definition PERF_RECORD_SAMPLE : Z := 9.
(** [sizeof(perf_sample_raw)]: the header (type, misc, size) and the size of the data. *)
Definition SAMPLE_HEAD_SIZE : Z := 12.

Record software_perf_event_data := SoftwarePerfEventData {
  sp_cpu : Z;
  sp_config : Z;
  sp_sample_type : Z;
  sp_pagesize : Z;
  sp_data_head : Z;
  sp_data_tail : Z;
  sp_data_size : Z;
  sp_data : list Z
}.

(** The buffer has the header page only. *)
Definition software_perf_event_create (pagesize cpu config sample_type : Z) : software_perf_event_data :=
  SoftwarePerfEventData cpu config sample_type pagesize 0 0 0 [].

Definition mmap_size (s : software_perf_event_data) : Z := zlen (sp_data s).

Definition has_data (s : software_perf_event_data) : bool := negb (sp_data_tail s =? sp_data_head s).

Definition sp_with (s : software_perf_event_data) (head : Z) (d : list Z) : software_perf_event_data :=
  SoftwarePerfEventData (sp_cpu s) (sp_config s) (sp_sample_type s) (sp_pagesize s) head (sp_data_tail s) (sp_data_size s) d.

(** The bits that are set, in at most 64 rounds. *)
Definition popcnt (x : Z) : Z := pop_count 64 x 0.

(** The address of the buffer, or null. *)
Definition ensure_mmap_buffer (s : software_perf_event_data) (buffer_size : Z) : bool * software_perf_event_data :=
  if sp_pagesize s + mmap_size s <? buffer_size then
    let n := u64 (buffer_size - sp_pagesize s) in
    let s := SoftwarePerfEventData (sp_cpu s) (sp_config s) (sp_sample_type s) (sp_pagesize s) (sp_data_head s)
               (sp_data_tail s) n (sp_data s ++ replicate (Z.to_nat (n - mmap_size s)) 0) in
    (popcnt n =? 1, s)
  else (true, s).

(** The header of a sample. *)
Definition perf_sample_raw (size : Z) : list Z :=
  le_store 4 PERF_RECORD_SAMPLE ++ le_store 2 0 ++ le_store 2 (u16 (SAMPLE_HEAD_SIZE + size)) ++ le_store 4 size.

(** [memcpy]s into the copy buffer, of [copy_size] bytes: the header and [size] bytes from [buf]. *)
Definition fill_copy_buffer (copy_size size : Z) (buf : uptr) : option (list Z) :=
  b ← from_user buf size;
  c ← vwrite (replicate (Z.to_nat copy_size) 0) 0 (perf_sample_raw size);
  vwrite c SAMPLE_HEAD_SIZE b.

(** Copies [c] to the position [start], in two pieces when it passes the end. *)
Definition ring_copy (d : list Z) (start : Z) (c : list Z) : option (list Z) :=
  if zlen c + start <=? zlen d then vwrite d start c
  else
    let len_first := zlen d - start in
    d ← vwrite d start (take (Z.to_nat len_first) c);
    vwrite d 0 (drop (Z.to_nat len_first) c).

(** The size in the header has 16 bits; a record that does not fit is dropped and 0 is returned. *)
Definition output_data (s : software_perf_event_data) (buf : uptr) (size : Z) : res unit * software_perf_event_data :=
  let copy_size := u16 (SAMPLE_HEAD_SIZE + size) in
  let data_head := sp_data_head s in
  let available_size := s64 (mmap_size s - (data_head - sp_data_tail s)) in
  let available_size := if available_size =? 0 then mmap_size s else available_size in
  if available_size <=? copy_size then (Ok tt, s)
  else
    match (c ← fill_copy_buffer copy_size size buf;
           ring_copy (sp_data s) (Z.land data_head (u64 (mmap_size s - 1))) c) with
    | None => (Fault, s)
    | Some d => (Ok tt, sp_with s (u64 (data_head + copy_size)) d)
    end.

(** ** The handler *)

Inductive bpf_event_type :=
| PERF_TYPE_HARDWARE | PERF_TYPE_SOFTWARE | PERF_TYPE_TRACEPOINT | PERF_TYPE_HW_CACHE | PERF_TYPE_RAW
| PERF_TYPE_BREAKPOINT | BPF_TYPE_UPROBE | BPF_TYPE_URETPROBE | BPF_TYPE_KPROBE
| BPF_TYPE_KRETPROBE | BPF_TYPE_UPROBE_OVERRIDE | BPF_TYPE_UREPLACE.

Definition event_num (t : bpf_event_type) : Z :=
  match t with
  | PERF_TYPE_HARDWARE => 0 | PERF_TYPE_SOFTWARE => 1 | PERF_TYPE_TRACEPOINT => 2 | PERF_TYPE_HW_CACHE => 3
  | PERF_TYPE_RAW => 4 | PERF_TYPE_BREAKPOINT => 5 | BPF_TYPE_UPROBE => 6 | BPF_TYPE_URETPROBE => 7
  | BPF_TYPE_KPROBE => 8 | BPF_TYPE_KRETPROBE => 9 | BPF_TYPE_UPROBE_OVERRIDE => 1008 | BPF_TYPE_UREPLACE => 1009
  end.

(** A software perf event is a shared pointer to its data. *)
Inductive perf_event_data_variant :=
| DUprobe (offset pid ref_ctr_off : Z) (module_name : string)
| DTracepoint (pid tracepoint_id : Z)
| DSoftware (p : positive)
| DCustom (attach_argument : string)
| DKprobe (func_name : string) (addr ref_ctr_off : Z).

Record bpf_perf_event_handler := BpfPerfEventHandler {
  pe_type : Z;
  pe_enabled : bool;
  pe_event : perf_event_data_variant
}.

Definition custom_event (type : Z) (attach_arg : string) : bpf_perf_event_handler :=
  BpfPerfEventHandler type false (DCustom attach_arg).
(** [ref_ctr_off] is left out of the initialiser, which sets it to zero. *)
Definition override_event (type : bpf_event_type) (offset pid : Z) (module_name : string) (default_enabled : bool)
  : bpf_perf_event_handler :=
  BpfPerfEventHandler (event_num type) default_enabled (DUprobe offset pid 0 module_name).
Definition uprobe_event (is_retprobe : bool) (offset pid : Z) (module_name : string) (ref_ctr_off : Z) : bpf_perf_event_handler :=
  BpfPerfEventHandler (event_num (if is_retprobe then BPF_TYPE_URETPROBE else BPF_TYPE_UPROBE)) false
    (DUprobe offset pid ref_ctr_off module_name).
Definition kprobe_event (is_retprobe : bool) (addr : Z) (func_name : string) (ref_ctr_off : Z) : bpf_perf_event_handler :=
  BpfPerfEventHandler (event_num (if is_retprobe then BPF_TYPE_KRETPROBE else BPF_TYPE_KPROBE)) false
    (DKprobe func_name addr ref_ctr_off).
Definition tracepoint_event (pid tracepoint_id : Z) : bpf_perf_event_handler :=
  BpfPerfEventHandler (event_num PERF_TYPE_TRACEPOINT) false (DTracepoint pid tracepoint_id).
(** [p] is where the data was constructed. *)
Definition software_event (p : positive) : bpf_perf_event_handler :=
  BpfPerfEventHandler (event_num PERF_TYPE_SOFTWARE) false (DSoftware p).

Definition enable (e : bpf_perf_event_handler) : bpf_perf_event_handler := BpfPerfEventHandler (pe_type e) true (pe_event e).
Definition disable (e : bpf_perf_event_handler) : bpf_perf_event_handler := BpfPerfEventHandler (pe_type e) false (pe_event e).

Definition try_get_software_perf_data_weak_ptr (e : bpf_perf_event_handler) : option positive :=
  match pe_event e with DSoftware p => Some p | _ => None end.

(** [heap] has the data of the software events. [Some false] is a null buffer. *)
Definition try_get_software_perf_data_raw_buffer (heap : gmap positive software_perf_event_data) (e : bpf_perf_event_handler)
    (buffer_size : Z) : option bool * gmap positive software_perf_event_data :=
  match (p ← try_get_software_perf_data_weak_ptr e; s ← heap !! p; Some (p, s)) with
  | Some (p, s) => let '(b, s) := ensure_mmap_buffer s buffer_size in (Some b, <[p := s]> heap)
  | None => (None, heap)
  end.

(** ** The ring as a queue of bytes *)

(** The [n] bytes from position [p] on. *)
Definition ring_bytes (d : list Z) (p : Z) (n : nat) : list Z :=
  (λ i, nth (Z.to_nat (i mod zlen d)) d 0) <$> seqZ p (Z.of_nat n).

(** What the reader has not taken yet. *)
Definition content (s : software_perf_event_data) : list Z :=
  ring_bytes (sp_data s) (sp_data_tail s) (Z.to_nat (sp_data_head s - sp_data_tail s)).

(** A record: the header and the bytes. *)
Definition sample (bs : list Z) : list Z := perf_sample_raw (zlen bs) ++ bs.

Record sp_wf (s : software_perf_event_data) : Prop := {
  sw_size : ∃ e, 0 ≤ e ≤ 31 ∧ mmap_size s = 2 ^ e;
  sw_tail : 0 ≤ sp_data_tail s;
  sw_head : sp_data_tail s ≤ sp_data_head s < sp_data_tail s + mmap_size s
}.

Lemma ring_bytes_app d p n m : ring_bytes d p (n + m) = ring_bytes d p n ++ ring_bytes d (p + Z.of_nat n) m.
Proof. unfold ring_bytes. rewrite Nat2Z.inj_add, seqZ_app, fmap_app by lia. done. Qed.

Lemma ring_bytes_ext d d' p n : zlen d' = zlen d →
  (∀ i, p ≤ i < p + Z.of_nat n → d' !! Z.to_nat (i mod zlen d) = d !! Z.to_nat (i mod zlen d)) →
  ring_bytes d' p n = ring_bytes d p n.
Proof.
  intros Hz He. unfold ring_bytes. rewrite Hz. apply list_fmap_ext. intros j i Hi.
  apply lookup_seqZ in Hi as [-> Hj]. rewrite !nth_lookup. f_equal. apply He. lia.
Qed.

Lemma ring_bytes_eq d p bs : 0 < zlen d →
  (∀ j, (j < length bs)%nat → d !! Z.to_nat ((p + Z.of_nat j) mod zlen d) = bs !! j) →
  ring_bytes d p (length bs) = bs.
Proof.
  intros Hd He. unfold ring_bytes. apply list_eq. intros j. rewrite list_lookup_fmap.
  destruct (decide (j < length bs)%nat) as [Hj|Hj].
  - assert (seqZ p (Z.of_nat (length bs)) !! j = Some (p + Z.of_nat j)) as -> by (apply lookup_seqZ; lia).
    cbn [fmap option_fmap option_map]. rewrite nth_lookup, He by done.
    destruct (lookup_lt_is_Some_2 bs j Hj) as [x ->]. done.
  - rewrite (lookup_ge_None_2 (seqZ _ _)) by (rewrite length_seqZ; lia). by rewrite lookup_ge_None_2 by lia.
Qed.

(** The bytes of the ring after a copy of [c] to position [p]. *)
Lemma ring_copy_lookup d p c : 0 ≤ p → zlen c ≤ zlen d → 0 < zlen d →
  ∃ d', ring_copy d (p mod zlen d) c = Some d' ∧ zlen d' = zlen d ∧
    ∀ i, p ≤ i < p + zlen d →
      d' !! Z.to_nat (i mod zlen d) = if decide (i < p + zlen c) then c !! Z.to_nat (i - p) else d !! Z.to_nat (i mod zlen d).
Proof.
  intros Hp Hc Hd. set (N := zlen d) in *. pose proof (Z.mod_pos_bound p N Hd) as Hb. pose proof (zlen_nonneg c).
  assert (Hm : ∀ i, p ≤ i < p + N → i mod N = if decide (p mod N + (i - p) < N) then p mod N + (i - p) else p mod N + (i - p) - N).
  { intros i Hi. replace i with (p + (i - p)) at 1 by lia. rewrite <- Zplus_mod_idemp_l, mod_wrap by lia.
    destruct (Z.ltb_spec (p mod N + (i - p)) N); case_decide; lia. }
  unfold ring_copy. fold N. destruct (Z.leb_spec (zlen c + p mod N) N) as [Hfit|Hwrap].
  - destruct (vwrite_is_Some d (p mod N) c) as (d'&Hw&Hz); [lia|unfold N in *; lia|]. exists d'. split; [done|]. split; [done|].
    intros i Hi. rewrite (vwrite_lookup _ _ _ _ _ Hw), (Hm i Hi).
    case_decide as H1; case_decide as H2; case_decide; try lia; try done; f_equal; lia.
  - set (k := Z.to_nat (N - p mod N)).
    assert (Hk : zlen (take k c) = N - p mod N) by (unfold zlen in *; rewrite length_take; lia).
    assert (Hr : zlen (drop k c) = zlen c - (N - p mod N)) by (unfold zlen in *; rewrite length_drop; lia).
    destruct (vwrite_is_Some d (p mod N) (take k c)) as (d1&Hw1&Hz1); [lia|unfold N in *; lia|].
    destruct (vwrite_is_Some d1 0 (drop k c)) as (d2&Hw2&Hz2); [lia|unfold N in *; lia|].
    exists d2. rewrite Hw1. cbn [mbind option_bind]. split; [done|]. split; [lia|].
    intros i Hi. rewrite (vwrite_lookup _ _ _ _ _ Hw2), (vwrite_lookup _ _ _ _ _ Hw1), (Hm i Hi), Hk, Hr.
    repeat case_decide; try lia; try done; rewrite ?lookup_drop, ?lookup_take_lt by (unfold k; lia); f_equal; unfold k; lia.
Qed.

Lemma zlen_perf_sample_raw n : zlen (perf_sample_raw n) = SAMPLE_HEAD_SIZE.
Proof. unfold zlen, perf_sample_raw. by rewrite !length_app, !length_le_store. Qed.

Lemma zlen_sample bs : zlen (sample bs) = SAMPLE_HEAD_SIZE + zlen bs.
Proof. unfold sample. by rewrite zlen_app, zlen_perf_sample_raw. Qed.

(** The copy buffer has the record when the record's size has 16 bits. *)
Lemma fill_copy_buffer_sample bs :
  fill_copy_buffer (SAMPLE_HEAD_SIZE + zlen bs) (zlen bs) (Some bs) = Some (sample bs).
Proof.
  pose proof (zlen_nonneg bs). pose proof (zlen_perf_sample_raw (zlen bs)) as Hh. assert (SAMPLE_HEAD_SIZE = 12) by done.
  unfold fill_copy_buffer. rewrite from_user_exact by done. cbn [mbind option_bind].
  set (z := replicate _ 0). assert (Hz : zlen z = SAMPLE_HEAD_SIZE + zlen bs).
  { unfold z, zlen at 1. rewrite length_replicate. unfold SAMPLE_HEAD_SIZE. lia. }
  destruct (vwrite_is_Some z 0 (perf_sample_raw (zlen bs))) as (c&Hc&Hlc); [lia|lia|]. rewrite Hc. cbn [mbind option_bind].
  destruct (vwrite_is_Some c SAMPLE_HEAD_SIZE bs) as (c'&Hc'&Hlc'); [done|lia|]. rewrite Hc'. f_equal.
  apply vwrite_inv in Hc as (_&_&->). apply vwrite_inv in Hc' as (_&_&->).
  unfold sample. generalize dependent (perf_sample_raw (zlen bs)). intros r Hh. change (take (Z.to_nat 0) z) with (@nil Z).
  cbn [app]. rewrite take_app_length' by (unfold zlen in *; lia).
  rewrite (drop_ge (r ++ _)) by (rewrite length_app, length_drop; unfold zlen in *; lia). by rewrite app_nil_r.
Qed.

(** The bytes after an append. *)
Lemma content_append s c d' : sp_wf s →
  zlen d' = mmap_size s → zlen c + (sp_data_head s - sp_data_tail s) < mmap_size s →
  (∀ i, sp_data_head s ≤ i < sp_data_head s + mmap_size s →
    d' !! Z.to_nat (i mod mmap_size s) =
      if decide (i < sp_data_head s + zlen c) then c !! Z.to_nat (i - sp_data_head s) else sp_data s !! Z.to_nat (i mod mmap_size s)) →
  content (sp_with s (sp_data_head s + zlen c) d') = content s ++ c.
Proof.
  intros [_ Ht Hh] Hz Hc He. pose proof (zlen_nonneg c). unfold mmap_size in *. set (N := zlen (sp_data s)) in *.
  unfold content. cbn [sp_with sp_data sp_data_tail sp_data_head].
  replace (Z.to_nat (sp_data_head s + zlen c - sp_data_tail s))
    with (Z.to_nat (sp_data_head s - sp_data_tail s) + length c)%nat by (unfold zlen in *; lia).
  rewrite ring_bytes_app. f_equal.
  - apply ring_bytes_ext; [done|]. fold N. intros i Hi.
    rewrite <- (Z_mod_plus_full i 1 N), Z.mul_1_l. rewrite He by lia. by rewrite decide_False by lia.
  - replace (sp_data_tail s + _) with (sp_data_head s) by lia.
    apply ring_bytes_eq; [lia|]. intros j Hj. rewrite Hz. rewrite He by (unfold zlen in *; lia).
    rewrite decide_True by (unfold zlen in *; lia). f_equal. lia.
Qed.

(** One output: dropped, or appended. *)
Lemma output_data_step s bs : sp_wf s →
  SAMPLE_HEAD_SIZE + zlen bs < 2 ^ 16 → sp_data_head s + SAMPLE_HEAD_SIZE + zlen bs < 2 ^ 63 →
  let q := content s in
  ∃ s', output_data s (Some bs) (zlen bs) = (Ok tt, s') ∧ sp_wf s' ∧ mmap_size s' = mmap_size s ∧
    sp_data_tail s' = sp_data_tail s ∧ sp_data_head s' ≤ sp_data_head s + SAMPLE_HEAD_SIZE + zlen bs ∧
    content s' = if zlen (q ++ sample bs) <? mmap_size s then q ++ sample bs else q.
Proof.
  intros Hwf Hsz Hb q. pose proof Hwf as [(e&He&HN) Ht Hh]. pose proof (zlen_nonneg bs).
  assert (0 < 2 ^ e ≤ 2 ^ 31) by (split; [|apply Z.pow_le_mono_r]; lia).
  assert (Hq : zlen (q ++ sample bs) = sp_data_head s - sp_data_tail s + (SAMPLE_HEAD_SIZE + zlen bs)).
  { rewrite zlen_app, zlen_sample. f_equal. unfold q, content, ring_bytes, zlen. rewrite length_fmap, length_seqZ. lia. }
  rewrite Hq. unfold output_data. unfold SAMPLE_HEAD_SIZE in *.
  assert (u16 (12 + zlen bs) = 12 + zlen bs) as -> by (unfold u16; rewrite Z.mod_small; lia).
  assert (s64 (mmap_size s - (sp_data_head s - sp_data_tail s)) = mmap_size s - (sp_data_head s - sp_data_tail s)) as ->.
  { unfold s64, u64. rewrite Z.mod_small by lia. case_match; lia. }
  assert ((mmap_size s - (sp_data_head s - sp_data_tail s) =? 0) = false) as -> by lia.
  destruct (Z.leb_spec (mmap_size s - (sp_data_head s - sp_data_tail s)) (12 + zlen bs)).
  { exists s. assert ((sp_data_head s - sp_data_tail s + (12 + zlen bs) <? mmap_size s) = false) as -> by lia.
    repeat split; eauto; lia. }
  pose proof (fill_copy_buffer_sample bs) as Hf. unfold SAMPLE_HEAD_SIZE in Hf. rewrite Hf. cbn [mbind option_bind].
  assert (Z.land (sp_data_head s) (u64 (mmap_size s - 1)) = sp_data_head s mod zlen (sp_data s)) as ->.
  { rewrite u64_small by lia. change (zlen (sp_data s)) with (mmap_size s). rewrite HN, <- Z.land_ones, Z.ones_equiv by lia.
    done. }
  pose proof (zlen_sample bs) as Hs. unfold SAMPLE_HEAD_SIZE in Hs.
  destruct (ring_copy_lookup (sp_data s) (sp_data_head s) (sample bs)) as (d'&Hr&Hz&Hl); [lia|unfold mmap_size in *; lia..|].
  rewrite Hr. rewrite <- Hs in *. unfold u64. rewrite (Z.mod_small (_ + _)) by lia.
  eexists. split; [done|]. rewrite (content_append s (sample bs) d') by (done || lia).
  assert ((sp_data_head s - sp_data_tail s + zlen (sample bs) <? mmap_size s) = true) as -> by lia.
  unfold mmap_size in *. cbn [sp_with sp_data sp_data_tail sp_data_head]. split; [|repeat split; lia].
  split; unfold mmap_size; cbn [sp_with sp_data sp_data_tail sp_data_head]; [|lia..]. exists e. lia.
Qed.

(** *** Runs of a program and a reader *)

(** The program outputs a record, or the reader takes bytes that are there. *)
Inductive perf_op := POutput (bs : list Z) | PConsume (n : nat).

Definition consume (s : software_perf_event_data) (n : nat) : software_perf_event_data :=
  if sp_data_head s - sp_data_tail s <? Z.of_nat n then s
  else SoftwarePerfEventData (sp_cpu s) (sp_config s) (sp_sample_type s) (sp_pagesize s) (sp_data_head s)
         (sp_data_tail s + Z.of_nat n) (sp_data_size s) (sp_data s).

Definition perf_step (s : software_perf_event_data) (op : perf_op) : res unit * software_perf_event_data :=
  match op with
  | POutput bs => output_data s (Some bs) (zlen bs)
  | PConsume n => (Ok tt, consume s n)
  end.

(** A run stops at a step that is not [Ok]. *)
Fixpoint perf_run (s : software_perf_event_data) (ops : list perf_op) : res unit * software_perf_event_data :=
  match ops with
  | [] => (Ok tt, s)
  | op :: ops => match perf_step s op with (Ok _, s) => perf_run s ops | r => r end
  end.

(** A queue of bytes that is never full: a record that would fill it is dropped whole. *)
Definition queue_step (N : Z) (q : list Z) (op : perf_op) : list Z :=
  match op with
  | POutput bs => if zlen (q ++ sample bs) <? N then q ++ sample bs else q
  | PConsume n => if zlen q <? Z.of_nat n then q else drop n q
  end.

Definition op_size (op : perf_op) : Z := match op with POutput bs => SAMPLE_HEAD_SIZE + zlen bs | PConsume _ => 0 end.
Definition ops_size (ops : list perf_op) : Z := foldr (λ op n, op_size op + n) 0 ops.

Lemma op_size_nonneg op : 0 ≤ op_size op.
Proof. destruct op as [bs|n]; cbn [op_size]; [|done]. pose proof (zlen_nonneg bs). unfold SAMPLE_HEAD_SIZE. lia. Qed.

Lemma ops_size_nonneg ops : 0 ≤ ops_size ops.
Proof. induction ops as [|op ops IH]; cbn; [done|]. pose proof (op_size_nonneg op). fold (ops_size ops). lia. Qed.

Lemma zlen_content s : sp_wf s → zlen (content s) = sp_data_head s - sp_data_tail s.
Proof. intros [_ ? ?]. unfold content, ring_bytes, zlen. rewrite length_fmap, length_seqZ. lia. Qed.

Lemma consume_step s n : sp_wf s →
  sp_wf (consume s n) ∧ mmap_size (consume s n) = mmap_size s ∧ sp_data_head (consume s n) = sp_data_head s ∧
  content (consume s n) = queue_step (mmap_size s) (content s) (PConsume n).
Proof.
  intros Hwf. cbn [queue_step]. rewrite zlen_content by done. unfold consume.
  destruct (Z.ltb_spec (sp_data_head s - sp_data_tail s) (Z.of_nat n)); [done|]. destruct Hwf as [Hs Ht Hh].
  split; [split; unfold mmap_size in *; cbn; [done|lia..]|]. split; [done|]. split; [done|].
  unfold content. cbn [sp_data sp_data_head sp_data_tail].
  replace (Z.to_nat (sp_data_head s - sp_data_tail s)) with (n + Z.to_nat (sp_data_head s - (sp_data_tail s + Z.of_nat n)))%nat by lia.
  rewrite ring_bytes_app, drop_app_length'; [done|]. unfold ring_bytes. rewrite length_fmap, length_seqZ. lia.
Qed.

Lemma perf_step_queue s op : sp_wf s → op_size op < 2 ^ 16 → sp_data_head s + op_size op < 2 ^ 63 →
  ∃ s', perf_step s op = (Ok tt, s') ∧ sp_wf s' ∧ mmap_size s' = mmap_size s ∧
    sp_data_head s' ≤ sp_data_head s + op_size op ∧ content s' = queue_step (mmap_size s) (content s) op.
Proof.
  intros Hwf Hsz Hb. destruct op as [bs|n]; cbn [op_size perf_step] in *.
  - destruct (output_data_step s bs Hwf) as (s'&Ho&Hw&Hm&_&Hh&Hc); [lia..|]. exists s'. repeat split; auto; apply Hw || lia.
  - destruct (consume_step s n Hwf) as (Hw&Hm&Hh&Hc). exists (consume s n). repeat split; auto; apply Hw || lia.
Qed.

Lemma perf_run_queue ops : ∀ s, sp_wf s → Forall (λ op, op_size op < 2 ^ 16) ops → sp_data_head s + ops_size ops < 2 ^ 63 →
  ∃ s', perf_run s ops = (Ok tt, s') ∧ sp_wf s' ∧ mmap_size s' = mmap_size s ∧
    content s' = foldl (queue_step (mmap_size s)) (content s) ops.
Proof.
  induction ops as [|op ops IH]; intros s Hwf Hf Hb; [by exists s|]. apply Forall_cons in Hf as [Ho Hf].
  cbn [ops_size foldr] in Hb. fold (ops_size ops) in Hb. pose proof (ops_size_nonneg ops).
  destruct (perf_step_queue s op Hwf Ho) as (s1&Hs1&Hw1&Hm1&Hh1&Hc1); [lia|].
  destruct (IH s1 Hw1 Hf) as (s'&Hr&Hw'&Hm'&Hc'); [lia|]. exists s'. cbn [perf_run foldl]. rewrite Hs1.
  split; [done|]. split; [done|]. split; [congruence|]. by rewrite Hc', Hm1, Hc1.
Qed.

(** A buffer of one page and a power of two of data. *)
Lemma ensure_mmap_buffer_create pagesize cpu config st e : 0 ≤ pagesize < 2 ^ 31 → 0 ≤ e ≤ 31 →
  ∃ s, ensure_mmap_buffer (software_perf_event_create pagesize cpu config st) (pagesize + 2 ^ e) = (true, s) ∧
    sp_wf s ∧ mmap_size s = 2 ^ e ∧ content s = [] ∧ sp_data_head s = 0.
Proof.
  intros Hp He. assert (0 < 2 ^ e ≤ 2 ^ 31) by (split; [|apply Z.pow_le_mono_r]; lia).
  unfold ensure_mmap_buffer, software_perf_event_create, mmap_size.
  cbn [sp_pagesize sp_data sp_data_head sp_data_tail]. change (zlen []) with 0. assert ((pagesize + 0 <? pagesize + 2 ^ e) = true) as -> by lia.
  rewrite u64_small by lia. replace (pagesize + 2 ^ e - pagesize) with (2 ^ e) by lia.
  assert ((popcnt (2 ^ e) =? 1) = true) as ->.
  { apply Z.eqb_eq, (pop_count_one 64); [cbn; lia|]. exists e. lia. }
  rewrite Z.sub_0_r. cbn [app]. eexists. split; [done|]. unfold mmap_size, content. cbn [sp_data sp_data_head sp_data_tail].
  rewrite zlen_replicate by lia. split; [|done].
  split; unfold mmap_size; cbn [sp_data sp_data_head sp_data_tail]; rewrite ?zlen_replicate by lia; [by exists e|lia..].
Qed.

(** C23 (refinement). A software perf event whose buffer is one page and 2^e bytes of data is a queue of
    bytes: whatever records of less than 64 KiB a program outputs and whatever the reader takes in
    between, no step fails, the bytes between the two positions are those of the queue (each record
    whole, header first, across the end of the ring also), a record that does not leave a free byte is
    dropped whole, and [has_data] is whether the queue has a byte. *)
Theorem perf_output_fifo pagesize cpu config st e ops s :
  0 ≤ pagesize < 2 ^ 31 → 0 ≤ e ≤ 31 →
  Forall (λ op, op_size op < 2 ^ 16) ops → ops_size ops < 2 ^ 63 →
  (ensure_mmap_buffer (software_perf_event_create pagesize cpu config st) (pagesize + 2 ^ e)).2 = s →
  ∃ s', perf_run s ops = (Ok tt, s') ∧
    content s' = foldl (queue_step (2 ^ e)) [] ops ∧
    has_data s' = bool_decide (foldl (queue_step (2 ^ e)) [] ops ≠ []).
Proof.
  intros Hp He Hf Hb <-. destruct (ensure_mmap_buffer_create pagesize cpu config st e Hp He) as (s&->&Hw&Hm&Hc&Hh).
  cbn [snd]. destruct (perf_run_queue ops s Hw Hf) as (s'&Hr&Hw'&_&Hc'); [lia|]. exists s'. split; [done|].
  rewrite Hm, Hc in Hc'. rewrite <- Hc'. split; [done|]. pose proof (zlen_content s' Hw') as Hz. unfold has_data.
  destruct (content s') as [|b q]; [rewrite zlen_nil in Hz|rewrite zlen_cons in Hz; pose proof (zlen_nonneg q)].
  - rewrite bool_decide_false by auto. apply negb_false_iff. lia.
  - rewrite bool_decide_true by done. apply negb_true_iff. lia.
Qed.

Lemma perf_output_fifo_witness :
  ∃ s', perf_run (ensure_mmap_buffer (software_perf_event_create 4096 0 10 1024) (4096 + 2 ^ 5)).2
          [POutput [1; 2; 3; 4; 5; 6; 7; 8]; PConsume 20; POutput [21; 22; 23; 24]; POutput [31]] = (Ok tt, s') ∧
    content s' = sample [21; 22; 23; 24] ++ sample [31] ∧ has_data s' = true.
Proof.
  apply (perf_output_fifo 4096 0 10 1024 5); [lia|lia| |vm_compute; done|done].
  repeat (constructor; [vm_compute; done|]). constructor.
Defined.

(** The size in the header of a record has 16 bits: when the bytes and the header need 64 KiB
    or more, the size that is left passes the check for space in a ring that has it free, and the copy
    of the bytes runs past the copy buffer. *)
Theorem perf_output_overflow s bs : sp_wf s →
  2 ^ 16 ≤ SAMPLE_HEAD_SIZE + zlen bs →
  zlen (content s) + u16 (SAMPLE_HEAD_SIZE + zlen bs) < mmap_size s →
  output_data s (Some bs) (zlen bs) = (Fault, s).
Proof.
  intros Hwf Hb Hs. rewrite zlen_content in Hs by done. pose proof Hwf as [(e&He&HN) Ht Hh].
  assert (0 < 2 ^ e ≤ 2 ^ 31) by (split; [|apply Z.pow_le_mono_r]; lia). unfold output_data.
  pose proof (Z.mod_pos_bound (SAMPLE_HEAD_SIZE + zlen bs) (2 ^ 16) ltac:(lia)) as Hu. fold (u16 (SAMPLE_HEAD_SIZE + zlen bs)) in Hu.
  assert (s64 (mmap_size s - (sp_data_head s - sp_data_tail s)) = mmap_size s - (sp_data_head s - sp_data_tail s)) as ->.
  { unfold s64. rewrite u64_small by lia. case_match; lia. }
  assert ((mmap_size s - (sp_data_head s - sp_data_tail s) =? 0) = false) as -> by lia.
  assert ((mmap_size s - (sp_data_head s - sp_data_tail s) <=? u16 (SAMPLE_HEAD_SIZE + zlen bs)) = false) as -> by lia.
  unfold fill_copy_buffer. rewrite from_user_exact by done. cbn [mbind option_bind].
  destruct (vwrite (replicate _ 0) 0 _) as [c|] eqn:Hc; [|done]. cbn [mbind option_bind].
  apply vwrite_zlen in Hc. rewrite zlen_replicate in Hc by lia. rewrite vwrite_None by lia. done.
Qed.

Lemma perf_output_overflow_witness :
  let s := (ensure_mmap_buffer (software_perf_event_create 4096 0 10 1024) (4096 + 2 ^ 6)).2 in
  output_data s (Some (replicate (Z.to_nat 65530) 0)) (zlen (replicate (Z.to_nat 65530) 0)) = (Fault, s).
Proof.
  apply perf_output_overflow; [|vm_compute; done..].
  split; [exists 6|..]; vm_compute; (split; intros [=]) || done || intuition discriminate.
Defined.
