(* ===== verification/RingBuf.v ===== *)
(** * Ring buffers

    [ringbuf] and [ringbuf_map_impl] (runtime/src/bpf_map/userspace/ringbuf_map.cpp). The buffer of
    [2 * max_ent] bytes behind [data] is a byte vector and pointers into it are offsets; the two
    positions are numbers. The model is of the operations one after the other: reservations are
    made under the spin lock, and a consumer that runs alone finds the producer position
    unchanged. *)

From stdpp Require Import base numbers list sets.
From S2P Require Import Prelude.

Definition BPF_RINGBUF_BUSY_BIT : Z := 2147483648.
Definition BPF_RINGBUF_DISCARD_BIT : Z := 1073741824.
Definition BPF_RINGBUF_HDR_SZ : Z := 8.

(** On a 32-bit number. *)
Definition roundup_len (len : Z) : Z :=
  let len := u32 (Z.shiftl len 2) in
  let len := Z.shiftr len 2 in
  let len := u32 (len + BPF_RINGBUF_HDR_SZ) in
  s32 (u32 (len + 7) / 8 * 8).

Record ringbuf := RingBuf {
  rb_max_ent : Z;
  rb_consumer_pos : Z;
  rb_producer_pos : Z;
  rb_data : list Z
}.

Definition mask (rb : ringbuf) : Z := u32 (rb_max_ent rb - 1).

(** The two positions are the first words of the first two pages, the data is what is left. The size
    is computed with 32 bits. *)
Definition ringbuf_create (page_size max_ent : Z) : res ringbuf :=
  let size := u32 (page_size * 2 + u32 (max_ent * 2)) in
  if page_size <? 8 then Throw
  else if size <? page_size * 2 then Fault
  else Ok (RingBuf max_ent 0 0 (replicate (Z.to_nat (size - page_size * 2)) 0)).

Definition with_data (rb : ringbuf) (d : list Z) : ringbuf :=
  RingBuf (rb_max_ent rb) (rb_consumer_pos rb) (rb_producer_pos rb) d.
Definition with_consumer (rb : ringbuf) (p : Z) : ringbuf :=
  RingBuf (rb_max_ent rb) p (rb_producer_pos rb) (rb_data rb).
Definition with_producer (rb : ringbuf) (p : Z) : ringbuf :=
  RingBuf (rb_max_ent rb) (rb_consumer_pos rb) p (rb_data rb).

(** The 32-bit word at an offset. *)
Definition load_len (rb : ringbuf) (off : Z) : option Z := w ← vread (rb_data rb) off 4; Some (le_load w).

Definition reserve (rb : ringbuf) (size self_fd : Z) : res Z * ringbuf :=
  if negb (Z.land size (Z.lor BPF_RINGBUF_BUSY_BIT BPF_RINGBUF_DISCARD_BIT) =? 0) then (Err E2BIG, rb)
  else
    let cons_pos := rb_consumer_pos rb in
    let prod_pos := rb_producer_pos rb in
    let avail_size := u64 (rb_max_ent rb - u64 (prod_pos - cons_pos)) in
    let total_size := u64 (size + BPF_RINGBUF_HDR_SZ + 7) / 8 * 8 in
    if rb_max_ent rb <? total_size then (Err E2BIG, rb)
    else if avail_size <? total_size then (Err ENOSPC, rb)
    else
      let header := Z.land prod_pos (mask rb) in
      match (d ← vwrite (rb_data rb) header (le_store 4 (Z.lor size BPF_RINGBUF_BUSY_BIT));
             vwrite d (header + 4) (le_store 4 self_fd)) with
      | None => (Fault, rb)
      | Some d =>
          (Ok (Z.land (u64 (prod_pos + BPF_RINGBUF_HDR_SZ)) (mask rb)),
           with_producer (with_data rb d) (u64 (prod_pos + total_size)))
      end.

(** What a program does with the pointer it got. *)
Definition write_sample (rb : ringbuf) (sample : Z) (bs : list Z) : res unit * ringbuf :=
  match vwrite (rb_data rb) sample bs with
  | Some d => (Ok tt, with_data rb d)
  | None => (Fault, rb)
  end.

Definition submit (rb : ringbuf) (sample : Z) (discard : bool) : res unit * ringbuf :=
  let hdr_offset := u64 (u32 (mask rb + 1) + sample - BPF_RINGBUF_HDR_SZ) in
  let hdr := Z.land hdr_offset (mask rb) in
  match load_len rb hdr with
  | None => (Fault, rb)
  | Some len =>
      let new_len := Z.land len (Z.lnot BPF_RINGBUF_BUSY_BIT) in
      let new_len := if discard then Z.lor new_len BPF_RINGBUF_DISCARD_BIT else new_len in
      match vwrite (rb_data rb) hdr (le_store 4 new_len) with
      | Some d => (Ok tt, with_data rb d)
      | None => (Fault, rb)
      end
  end.

Definition has_data (rb : ringbuf) : res bool :=
  let cons_pos := rb_consumer_pos rb in
  let prod_pos := rb_producer_pos rb in
  if cons_pos <? prod_pos then
    match load_len rb (Z.land cons_pos (mask rb)) with
    | None => Fault
    | Some len => Ok (Z.land len BPF_RINGBUF_BUSY_BIT =? 0)
    end
  else Ok false.

(** ** The consumer *)

Section fetch.
(** The callback of the consumer, with its context: the new context and what it returns. *)
Context {C : Type} (cb : C → list Z → Z * C).

(** How a pass over the buffer ends: at a sample that is not committed, at a callback's error, or
    at the producer position. *)
Inductive pass_end := PassDone | PassError (err : Z) | PassCaughtUp (got_new_data : bool).

(** The inner loop, from the consumer position; [cnt] samples were delivered. A round consumes at
    least a header. *)
Fixpoint fetch_pass (fuel : nat) (rb : ringbuf) (ctx : C) (cnt : Z) (got : bool)
  : res (pass_end * Z * C) * ringbuf :=
  let cons_pos := rb_consumer_pos rb in
  match fuel with
  | O => (Fault, rb)
  | S fuel =>
      if negb (cons_pos <? rb_producer_pos rb) then (Ok (PassCaughtUp got, cnt, ctx), rb)
      else
        let len_ptr := Z.land cons_pos (mask rb) in
        match load_len rb len_ptr with
        | None => (Fault, rb)
        | Some len =>
            if negb (Z.land len BPF_RINGBUF_BUSY_BIT =? 0) then (Ok (PassDone, cnt, ctx), rb)
            else
              let cons_pos := u64 (cons_pos + roundup_len len) in
              if Z.land len BPF_RINGBUF_DISCARD_BIT =? 0 then
                match vread (rb_data rb) (len_ptr + BPF_RINGBUF_HDR_SZ) len with
                | None => (Fault, rb)
                | Some sample =>
                    let '(err, ctx) := cb ctx sample in
                    if err <? 0 then (Ok (PassError err, cnt, ctx), with_consumer rb cons_pos)
                    else fetch_pass fuel (with_consumer rb cons_pos) ctx (cnt + 1) true
                end
              else fetch_pass fuel (with_consumer rb cons_pos) ctx cnt true
        end
  end.

(** do { pass } while (got_new_data) *)
Fixpoint fetch_loop (fuel : nat) (rb : ringbuf) (ctx : C) (cnt : Z) : res (Z * C) * ringbuf :=
  match fuel with
  | O => (Fault, rb)
  | S fuel' =>
      match fetch_pass (S (Z.to_nat (rb_producer_pos rb - rb_consumer_pos rb))) rb ctx cnt false with
      | (Ok (PassDone, cnt, ctx), rb) => (Ok (cnt, ctx), rb)
      | (Ok (PassError err, _, ctx), rb) => (Ok (err, ctx), rb)
      | (Ok (PassCaughtUp true, cnt, ctx), rb) => fetch_loop fuel' rb ctx cnt
      | (Ok (PassCaughtUp false, cnt, ctx), rb) => (Ok (cnt, ctx), rb)
      | (_, rb) => (Fault, rb)
      end
  end.

(** Nothing is produced in between, so the second pass finds nothing. *)
Definition fetch_data (rb : ringbuf) (ctx : C) : res (Z * C) * ringbuf := fetch_loop 2 rb ctx 0.
End fetch.

(** The map operations of [ringbuf_map_impl]. *)
Definition elem_lookup (rb : ringbuf) (key : uptr) : res (list Z) := Err ENOTSUP.
Definition elem_update (rb : ringbuf) (key value : uptr) (flags : Z) : res unit := Err ENOTSUP.
Definition elem_delete (rb : ringbuf) (key : uptr) : res unit := Err ENOTSUP.
Definition map_get_next_key (rb : ringbuf) (key : uptr) : res (list Z) := Err ENOTSUP.
