(* ===== verification/RingRefine.v ===== *)
(** * Ring buffers: the records and their delivery

    A buffer as the sequence of its records between the consumer and the producer position, what
    the operations do to it, and what the consumer is handed. *)

From stdpp Require Import base numbers list sets.
From S2P Require Import Prelude.
From S2P Require Import RingBuf.

(** ** Header words *)

Inductive status := Busy | Committed | Discarded.

(** The length word of a record. *)
Definition word_of (size : Z) (st : status) : Z :=
  match st with
  | Busy => size + BPF_RINGBUF_BUSY_BIT
  | Committed => size
  | Discarded => size + BPF_RINGBUF_DISCARD_BIT
  end.

(** The bytes a record takes. *)
Definition tot (size : Z) : Z := (size + 15) / 8 * 8.

Lemma tot_bounds size : 0 ≤ size → size + 8 ≤ tot size < size + 16 ∧ tot size mod 8 = 0.
Proof.
  intros. unfold tot. pose proof (Z.div_mod (size + 15) 8 ltac:(lia)).
  pose proof (Z.mod_pos_bound (size + 15) 8 ltac:(lia)). rewrite Z.mod_mul by lia. lia.
Qed.

Lemma lor_disjoint a n : 0 ≤ n → Z.testbit a n = false → Z.lor a (2 ^ n) = a + 2 ^ n.
Proof.
  intros Hn Ha. pose proof (Z.add_lor_land a (2 ^ n)) as Hl.
  assert (Hz : Z.land a (2 ^ n) = 0).
  { rewrite <- Z.shiftl_1_l. apply Z.eqb_eq. by rewrite land_pow2_testbit, Ha. }
  lia.
Qed.

Lemma testbit_add a n : 0 ≤ a < 2 ^ n → Z.testbit (a + 2 ^ n) n = true.
Proof.
  intros Ha. destruct (Z.le_gt_cases 0 n) as [Hn|Hn]; [|rewrite Z.pow_neg_r in Ha; lia].
  rewrite <- lor_disjoint by (done || by apply testbit_small).
  by rewrite Z.lor_spec, Z.pow2_bits_true, orb_true_r.
Qed.

Lemma busy_test size st : 0 ≤ size < 2 ^ 30 →
  (Z.land (word_of size st) BPF_RINGBUF_BUSY_BIT =? 0) = match st with Busy => false | _ => true end.
Proof.
  intros Hs. change BPF_RINGBUF_BUSY_BIT with (Z.shiftl 1 31). rewrite land_pow2_testbit by lia.
  destruct st; cbn [word_of]; unfold BPF_RINGBUF_BUSY_BIT, BPF_RINGBUF_DISCARD_BIT.
  - change 2147483648 with (2 ^ 31). rewrite (testbit_add size 31) by lia. done.
  - rewrite testbit_small by lia. done.
  - rewrite testbit_small by lia. done.
Qed.

Lemma discard_test size st : 0 ≤ size < 2 ^ 30 → st ≠ Busy →
  (Z.land (word_of size st) BPF_RINGBUF_DISCARD_BIT =? 0) = match st with Discarded => false | _ => true end.
Proof.
  intros Hs Hst. change BPF_RINGBUF_DISCARD_BIT with (Z.shiftl 1 30). rewrite land_pow2_testbit by lia.
  destruct st; [done|..]; cbn [word_of]; unfold BPF_RINGBUF_DISCARD_BIT.
  - rewrite testbit_small by lia. done.
  - change 1073741824 with (2 ^ 30). rewrite (testbit_add size 30) by lia. done.
Qed.

Lemma busy_word size : 0 ≤ size < 2 ^ 30 → Z.lor size BPF_RINGBUF_BUSY_BIT = word_of size Busy.
Proof.
  intros. apply (lor_disjoint size 31); [lia|]. apply testbit_small. lia.
Qed.

(** The new word that [submit] writes. *)
Lemma submit_word size (discard : bool) : 0 ≤ size < 2 ^ 30 →
  (let w := Z.land (word_of size Busy) (Z.lnot BPF_RINGBUF_BUSY_BIT) in
   if discard then Z.lor w BPF_RINGBUF_DISCARD_BIT else w) =
  word_of size (if discard then Discarded else Committed).
Proof.
  intros Hs. cbn zeta.
  assert (Hw : Z.land (word_of size Busy) (Z.lnot BPF_RINGBUF_BUSY_BIT) = size).
  { rewrite <- busy_word by done. rewrite <- Z.ldiff_land. unfold BPF_RINGBUF_BUSY_BIT.
    apply Z.bits_inj'. intros n Hn. rewrite Z.ldiff_spec, Z.lor_spec.
    change 2147483648 with (2 ^ 31). rewrite Z.pow2_bits_eqb by lia.
    destruct (Z.eqb_spec 31 n) as [<-|]; cbn [negb]; [|by rewrite orb_false_r, andb_true_r].
    rewrite andb_false_r. symmetry. apply testbit_small. lia. }
  rewrite Hw. destruct discard; [|done]. apply (lor_disjoint size 30); [lia|]. by apply testbit_small.
Qed.

Lemma roundup_tot size st : 0 ≤ size < 2 ^ 30 → st ≠ Busy → roundup_len (word_of size st) = tot size.
Proof.
  intros Hs Hst. unfold roundup_len, BPF_RINGBUF_HDR_SZ.
  assert (Hsh : Z.shiftr (u32 (Z.shiftl (word_of size st) 2)) 2 = size).
  { rewrite Z.shiftl_mul_pow2, Z.shiftr_div_pow2 by lia.
    assert (u32 (word_of size st * 2 ^ 2) = size * 4) as ->; [|by rewrite Z.div_mul].
    change (2 ^ 2) with 4. destruct st; [done|..]; cbn [word_of]; unfold BPF_RINGBUF_DISCARD_BIT.
    - apply u32_small. lia.
    - unfold u32. symmetry. apply (Z.mod_unique_pos _ _ 1); lia. }
  rewrite Hsh. pose proof (tot_bounds size ltac:(lia)) as [Hb _]. unfold tot in *.
  rewrite (u32_small (size + 8)), (u32_small (size + 8 + 7)) by lia. replace (size + 8 + 7) with (size + 15) by lia. apply s32_small. lia.
Qed.

(** The word as it is in memory. *)
Lemma word_bounds size st : 0 ≤ size < 2 ^ 30 → 0 ≤ word_of size st < 2 ^ 32.
Proof. intros. destruct st; simpl; unfold BPF_RINGBUF_BUSY_BIT, BPF_RINGBUF_DISCARD_BIT; lia. Qed.

Lemma zlen_word w : zlen (le_store 4 w) = 4.
Proof. unfold zlen. by rewrite length_le_store. Qed.

Lemma stored_word d off w d' :
  vwrite d off (le_store 4 w) = Some d' → 0 ≤ w < 2 ^ 32 → vread d' off 4 = Some (le_store 4 w) ∧ le_load (le_store 4 w) = w.
Proof.
  intros Hd Hw. split.
  - apply vread_vwrite_same in Hd. exact Hd.
  - rewrite le_load_store. by apply Z.mod_small.
Qed.

(** ** Layout *)

(** A record: its position, its size and state, and the bytes where the consumer reads them. *)
Record rec := Rec { r_pos : Z; r_size : Z; r_st : status; r_data : list Z }.

(** Consecutive records from position [s] to position [e]. *)
Fixpoint seg (s : Z) (L : list rec) (e : Z) : Prop :=
  match L with
  | [] => s = e
  | r :: L => r_pos r = s ∧ 0 ≤ r_size r < 2 ^ 30 ∧ seg (s + tot (r_size r)) L e
  end.

Section layout.
(** The size of the buffer is a power of two. *)
Variable N : Z.
Hypothesis N_ok : ∃ e, 3 ≤ e ≤ 31 ∧ N = 2 ^ e.

(** The offset of a position. *)
Definition at_ (p : Z) : Z := p mod N.

Lemma N_bounds : 8 ≤ N ≤ 2 ^ 31 ∧ N mod 8 = 0.
Proof.
  destruct N_ok as (e&He&->). split.
  - split; [change 8 with (2 ^ 3)|]; apply Z.pow_le_mono_r; lia.
  - replace (2 ^ e) with (2 ^ (e - 3) * 8); [by apply Z.mod_mul|].
    change 8 with (2 ^ 3). rewrite <- Z.pow_add_r by lia. f_equal. lia.
Qed.

Lemma land_at rb p : rb_max_ent rb = N → Z.land p (mask rb) = at_ p.
Proof.
  intros Hm. unfold mask. rewrite Hm. destruct N_ok as (e&He&HN). pose proof N_bounds.
  rewrite u32_small by lia. replace (N - 1) with (Z.ones e) by (rewrite Z.ones_equiv; lia).
  rewrite Z.land_ones by lia. unfold at_. by rewrite HN.
Qed.

(** Positions are multiples of 8, so headers do not wrap. *)
Lemma at_bounds p : p mod 8 = 0 → 0 ≤ at_ p ∧ at_ p + 8 ≤ N ∧ at_ p mod 8 = 0.
Proof.
  intros Hp. pose proof N_bounds as [HN HN8]. unfold at_. pose proof (Z.mod_pos_bound p N ltac:(lia)) as Hb.
  assert (H8 : (p mod N) mod 8 = 0).
  { pose proof (Z.div_mod p N ltac:(lia)) as Hd. pose proof (Z.div_mod N 8 ltac:(lia)) as Hd8.
    replace (p mod N) with (p + (- (p / N) * (N / 8)) * 8) by nia. rewrite Z.mod_add by lia. done. }
  split; [lia|]. split; [|done]. pose proof (Z.div_mod (p mod N) 8 ltac:(lia)).
  pose proof (Z.div_mod N 8 ltac:(lia)). lia.
Qed.

(** The offset of a later position of the same lap. *)
Lemma at_add p d : 0 ≤ d ≤ N → at_ (p + d) = at_ p + d ∨ at_ (p + d) = at_ p + d - N.
Proof.
  intros Hd. pose proof N_bounds as [HN _]. unfold at_. pose proof (Z.mod_pos_bound p N ltac:(lia)).
  rewrite <- Zplus_mod_idemp_l. destruct (Z.le_gt_cases N (p mod N + d)).
  - right. symmetry. apply (Z.mod_unique_pos _ _ 1); lia.
  - left. apply Z.mod_small. lia.
Qed.

(** Two ranges of the same lap do not overlap in memory. *)
Lemma ranges_disjoint x y tx ty :
  0 ≤ tx → 0 ≤ ty → x + tx ≤ y → y + ty ≤ x + N →
  at_ x + tx ≤ at_ y ∨ at_ y + ty ≤ at_ x.
Proof.
  intros. replace y with (x + (y - x)) by lia. destruct (at_add x (y - x)) as [->| ->]; lia.
Qed.

(** What a record is in memory. *)
Definition rec_mem (d : list Z) (r : rec) : Prop :=
  (∃ w, vread d (at_ (r_pos r)) 4 = Some w ∧ le_load w = word_of (r_size r) (r_st r)) ∧
  vread d (at_ (r_pos r) + 8) (r_size r) = Some (r_data r).

Record rb_rep (rb : ringbuf) (L : list rec) : Prop := {
  rr_max : rb_max_ent rb = N;
  rr_len : zlen (rb_data rb) = 2 * N;
  rr_cons : 0 ≤ rb_consumer_pos rb ∧ rb_consumer_pos rb mod 8 = 0;
  rr_seg : seg (rb_consumer_pos rb) L (rb_producer_pos rb);
  rr_fit : rb_producer_pos rb ≤ rb_consumer_pos rb + N;
  rr_mem : Forall (rec_mem (rb_data rb)) L
}.

Lemma seg_app s A B e : seg s (A ++ B) e ↔ ∃ m, seg s A m ∧ seg m B e.
Proof.
  revert s. induction A as [|r A IH]; intros s; simpl.
  - split; [intros H; by exists s|by intros (m&->&?)].
  - rewrite IH. naive_solver.
Qed.

Lemma seg_bounds s L e : seg s L e → s mod 8 = 0 →
  s ≤ e ∧ e mod 8 = 0 ∧
  ∀ r, r ∈ L → s ≤ r_pos r ∧ r_pos r + tot (r_size r) ≤ e ∧ r_pos r mod 8 = 0 ∧ 0 ≤ r_size r < 2 ^ 30.
Proof.
  revert s. induction L as [|r L IH]; intros s; simpl.
  - intros -> Hs. split; [lia|]. split; [done|]. intros r Hr. set_solver.
  - intros (Hp&Hsz&Hseg) Hs. pose proof (tot_bounds (r_size r) ltac:(lia)) as [Ht Ht8].
    destruct (IH _ Hseg) as (H1&H2&H3); [by rewrite Zplus_mod, Hs, Ht8|].
    split; [lia|]. split; [done|]. intros r' [->|Hr']%elem_of_cons.
    + rewrite Hp. split; [lia|]. split; [lia|]. done.
    + destruct (H3 r' Hr') as (?&?&?&?). split; [lia|]. done.
Qed.

(** A record and the others. *)
Lemma rep_split rb A r B : rb_rep rb (A ++ r :: B) →
  let c := rb_consumer_pos rb in
  r_pos r mod 8 = 0 ∧ 0 ≤ r_size r < 2 ^ 30 ∧ c ≤ r_pos r ∧ r_pos r + tot (r_size r) ≤ c + N ∧
  (∀ a, a ∈ A → a.(r_pos) + tot (r_size a) ≤ r_pos r ∧ c ≤ r_pos a) ∧
  (∀ b, b ∈ B → r_pos r + tot (r_size r) ≤ r_pos b ∧ r_pos b + tot (r_size b) ≤ c + N).
Proof.
  intros [_ _ [Hc Hc8] Hseg Hfit _] c. apply seg_app in Hseg as (m&HA&HB).
  destruct (seg_bounds _ _ _ HA Hc8) as (Hcm&Hm8&HAr). destruct (seg_bounds _ _ _ HB Hm8) as (Hme&He8&HBr).
  pose proof HB as (Hp&Hsz&HB'). destruct (HBr r) as (?&?&?&?); [set_solver|]. subst m.
  pose proof (tot_bounds (r_size r) ltac:(lia)) as [Ht Ht8].
  destruct (seg_bounds _ _ _ HB') as (_&_&HB2); [by rewrite Zplus_mod, Hm8, Ht8|].
  split; [done|]. split; [done|]. split; [done|]. split; [lia|]. split.
  - intros a Ha. destruct (HAr a Ha) as (?&?&_). lia.
  - intros b Hb. destruct (HB2 b Hb) as (?&?&_). lia.
Qed.

(** A write outside a record's range leaves the record. *)
Lemma rec_mem_frame d d' o bs r :
  vwrite d o bs = Some d' → 0 ≤ r_size r →
  at_ (r_pos r) + tot (r_size r) ≤ o ∨ o + zlen bs ≤ at_ (r_pos r) →
  rec_mem d r → rec_mem d' r.
Proof.
  intros Hw Hsz Hd [(w&Hr&Hl) Hs]. pose proof (tot_bounds (r_size r) Hsz) as [Ht _]. split.
  - exists w. rewrite (vread_vwrite_disjoint _ _ _ _ _ _ Hw); [done|lia].
  - rewrite (vread_vwrite_disjoint _ _ _ _ _ _ Hw); [done|lia].
Qed.

(** Writes inside one record's range leave the others. *)
Lemma others_frame rb A r B x tx o bs d' :
  rb_rep rb (A ++ r :: B) → vwrite (rb_data rb) o bs = Some d' →
  r_pos r ≤ x → 0 ≤ tx → x + tx ≤ r_pos r + tot (r_size r) → at_ x ≤ o → o + zlen bs ≤ at_ x + tx →
  Forall (rec_mem d') A ∧ Forall (rec_mem d') B.
Proof.
  intros Hr Hw Hx1 Htx Hx2 H1 H2. destruct (rep_split rb A r B Hr) as (_&Hsz&Hc&Hfit&HA&HB).
  pose proof (rr_mem _ _ Hr) as Hm. apply Forall_app in Hm as [HmA [_ HmB]%Forall_cons].
  pose proof (rr_seg _ _ Hr) as Hseg. destruct (seg_bounds _ _ _ Hseg (proj2 (rr_cons _ _ Hr))) as (_&_&Hall).
  split; rewrite Forall_forall in *; intros y Hy.
  - destruct (Hall y) as (_&_&_&Hys); [set_solver|]. pose proof (tot_bounds (r_size y) ltac:(lia)) as [Hty _].
    eapply rec_mem_frame; [done|lia| |by apply HmA]. destruct (HA y Hy).
    destruct (ranges_disjoint (r_pos y) x (tot (r_size y)) tx); lia.
  - destruct (Hall y) as (_&_&_&Hys); [set_solver|]. pose proof (tot_bounds (r_size y) ltac:(lia)) as [Hty _].
    eapply rec_mem_frame; [done|lia| |by apply HmB]. destruct (HB y Hy).
    destruct (ranges_disjoint x (r_pos y) tx (tot (r_size y))); lia.
Qed.

(** A record replaced by one of the same place and size. *)
Lemma rb_rep_update rb A r B d' st dt :
  rb_rep rb (A ++ r :: B) → zlen d' = zlen (rb_data rb) →
  Forall (rec_mem d') A ∧ Forall (rec_mem d') B →
  rec_mem d' (Rec (r_pos r) (r_size r) st dt) →
  rb_rep (with_data rb d') (A ++ Rec (r_pos r) (r_size r) st dt :: B).
Proof.
  intros [H1 H2 H3 H4 H5 _] Hz [HA HB] Hr. split; simpl; try done; [lia| |].
  - apply seg_app in H4 as (m&HsA&HsB). apply seg_app. exists m. split; [done|]. exact HsB.
  - apply Forall_app. split; [done|]. by apply Forall_cons.
Qed.

(** ** The operations *)

Lemma header_in rb L p : rb_rep rb L → p mod 8 = 0 → 0 ≤ at_ p ∧ at_ p + 8 ≤ N ∧ zlen (rb_data rb) = 2 * N.
Proof. intros Hr Hp. destruct (at_bounds p Hp) as (?&?&_). by rewrite (rr_len _ _ Hr). Qed.

Lemma rep_prod rb L : rb_rep rb L →
  rb_consumer_pos rb ≤ rb_producer_pos rb ≤ rb_consumer_pos rb + N ∧ 0 ≤ rb_consumer_pos rb ∧ rb_producer_pos rb mod 8 = 0.
Proof. intros [_ _ [? ?] Hs ? _]. destruct (seg_bounds _ _ _ Hs) as (?&?&_); [done|]. lia. Qed.

(** The guards of [reserve], as conditions on numbers. *)
Lemma flags_test size : 0 ≤ size < 2 ^ 31 →
  (Z.land size (Z.lor BPF_RINGBUF_BUSY_BIT BPF_RINGBUF_DISCARD_BIT) =? 0) = (size <? 2 ^ 30).
Proof.
  intros Hs. assert (Z.land size (Z.lor BPF_RINGBUF_BUSY_BIT BPF_RINGBUF_DISCARD_BIT) = Z.land size (Z.shiftl 1 30)) as ->.
  { rewrite Z.land_lor_distr_r. change BPF_RINGBUF_BUSY_BIT with (Z.shiftl 1 31).
    assert (Z.land size (Z.shiftl 1 31) = 0) as ->; [|done].
    apply Z.eqb_eq. rewrite land_pow2_testbit, testbit_small by lia. done. }
  rewrite land_pow2_testbit by lia. destruct (Z.ltb_spec size (2 ^ 30)) as [H|H].
  - by rewrite testbit_small by lia.
  - replace size with (size - 2 ^ 30 + 2 ^ 30) by lia. rewrite testbit_add; [done|lia].
Qed.

Lemma reserve_too_big rb L size fd : rb_rep rb L → 0 ≤ size < 2 ^ 63 → 2 ^ 30 ≤ size ∨ N < tot size →
  reserve rb size fd = (Err E2BIG, rb).
Proof.
  intros Hr Hs Hbig. pose proof N_bounds as [HN _]. unfold reserve. rewrite (rr_max _ _ Hr).
  case_match eqn:Hfl; [done|]. apply negb_false_iff in Hfl.
  rewrite u64_small by (unfold BPF_RINGBUF_HDR_SZ; lia).
  replace (size + BPF_RINGBUF_HDR_SZ + 7) with (size + 15) by (unfold BPF_RINGBUF_HDR_SZ; lia). fold (tot size).
  assert (Ht : N < tot size).
  { destruct Hbig as [Hbig|]; [|done]. pose proof (tot_bounds size ltac:(lia)).
    destruct (Z.lt_ge_cases size (2 ^ 31)) as [Hlt|]; [|lia].
    rewrite flags_test in Hfl by lia. apply Z.ltb_lt in Hfl. lia. }
  apply Z.ltb_lt in Ht. by rewrite Ht.
Qed.

Lemma reserve_full rb L size fd : rb_rep rb L → 0 ≤ size < 2 ^ 30 → tot size ≤ N →
  rb_consumer_pos rb + N < rb_producer_pos rb + tot size →
  reserve rb size fd = (Err ENOSPC, rb).
Proof.
  intros Hr Hs Ht Hfull. pose proof N_bounds as [HN _]. pose proof (rep_prod _ _ Hr).
  unfold reserve. rewrite flags_test by lia. rewrite (proj2 (Z.ltb_lt size (2 ^ 30))) by lia. cbn [negb].
  rewrite (rr_max _ _ Hr). rewrite (u64_small (size + _ + _)) by (unfold BPF_RINGBUF_HDR_SZ; lia).
  replace (size + BPF_RINGBUF_HDR_SZ + 7) with (size + 15) by (unfold BPF_RINGBUF_HDR_SZ; lia). fold (tot size).
  rewrite (proj2 (Z.ltb_ge N (tot size))) by lia.
  rewrite !u64_small by (rewrite ?u64_small by lia; lia). by rewrite (proj2 (Z.ltb_lt _ _)) by lia.
Qed.

(** The header of a new record is written outside of the records there are. *)
Lemma reserve_frame rb L size w fd d1 d2 :
  rb_rep rb L → rb_producer_pos rb + tot size ≤ rb_consumer_pos rb + N → 0 ≤ size →
  vwrite (rb_data rb) (at_ (rb_producer_pos rb)) (le_store 4 w) = Some d1 →
  vwrite d1 (at_ (rb_producer_pos rb) + 4) (le_store 4 fd) = Some d2 →
  Forall (rec_mem d2) L.
Proof.
  intros Hr Hfit Hs Hd1 Hd2. pose proof (tot_bounds size Hs) as [Ht _].
  pose proof (rr_mem _ _ Hr) as Hm. rewrite Forall_forall in *. intros r Hin.
  destruct (seg_bounds _ _ _ (rr_seg _ _ Hr) (proj2 (rr_cons _ _ Hr))) as (_&_&Hall).
  destruct (Hall r Hin) as (Hrc&Hrp&_&Hrs). pose proof (tot_bounds (r_size r) ltac:(lia)) as [Htr _].
  destruct (ranges_disjoint (r_pos r) (rb_producer_pos rb) (tot (r_size r)) (tot size)); [lia..| |].
  - eapply rec_mem_frame; [exact Hd2|lia|left; lia|]. eapply rec_mem_frame; [exact Hd1|lia|left; lia|by apply Hm].
  - eapply rec_mem_frame; [exact Hd2|lia|right; rewrite zlen_word; lia|].
    eapply rec_mem_frame; [exact Hd1|lia|right; rewrite zlen_word; lia|by apply Hm].
Qed.

Lemma reserve_ok rb L size fd : rb_rep rb L → 0 ≤ size < 2 ^ 30 →
  rb_producer_pos rb + tot size ≤ rb_consumer_pos rb + N → rb_producer_pos rb + N < 2 ^ 64 →
  ∃ d junk, reserve rb size fd = (Ok (at_ (rb_producer_pos rb + 8)),
      with_producer (with_data rb d) (rb_producer_pos rb + tot size)) ∧
    rb_rep (with_producer (with_data rb d) (rb_producer_pos rb + tot size))
      (L ++ [Rec (rb_producer_pos rb) size Busy junk]) ∧
    vread (rb_data rb) (at_ (rb_producer_pos rb) + 8) size = Some junk.
Proof.
  intros Hr Hs Hfit Hpb. pose proof N_bounds as [HN _]. pose proof (rep_prod _ _ Hr) as (Hcp&Hc&Hp8).
  pose proof (tot_bounds size ltac:(lia)) as [Ht Ht8]. set (p := rb_producer_pos rb) in *.
  destruct (header_in _ _ p Hr Hp8) as (Ha1&Ha2&Hlen).
  destruct (vwrite_is_Some (rb_data rb) (at_ p) (le_store 4 (word_of size Busy))) as (d1&Hd1&Hz1); [rewrite ?zlen_word; lia..|].
  destruct (vwrite_is_Some d1 (at_ p + 4) (le_store 4 fd)) as (d2&Hd2&Hz2); [rewrite ?zlen_word; lia..|].
  destruct (vread_is_Some d2 (at_ p + 8) size) as (junk&Hj&_); [lia..|]. exists d2, junk. split; [|split].
  - unfold reserve. rewrite flags_test by lia. rewrite (proj2 (Z.ltb_lt size (2 ^ 30))) by lia. cbn [negb].
    rewrite (rr_max _ _ Hr), (u64_small (size + _ + _)) by (unfold BPF_RINGBUF_HDR_SZ; lia).
    replace (size + BPF_RINGBUF_HDR_SZ + 7) with (size + 15) by (unfold BPF_RINGBUF_HDR_SZ; lia). fold (tot size) p.
    rewrite (proj2 (Z.ltb_ge N (tot size))) by lia. rewrite (u64_small (p - _)), (u64_small (N - _)) by lia.
    rewrite (proj2 (Z.ltb_ge _ (tot size))) by lia. rewrite !(land_at _ _ (rr_max _ _ Hr)), busy_word by lia.
    rewrite Hd1. cbn [mbind option_bind]. rewrite Hd2. unfold BPF_RINGBUF_HDR_SZ. by rewrite !u64_small by lia.
  - split; simpl; try apply Hr; [lia| |lia|].
    + apply seg_app. exists p. split; [apply Hr|]. simpl. done.
    + apply Forall_app. split; [eapply reserve_frame; [exact Hr|exact Hfit|lia|exact Hd1|exact Hd2]|].
      apply Forall_singleton. split; simpl; [|done].
      destruct (stored_word _ _ _ _ Hd1 (word_bounds size Busy Hs)) as [Hw1 Hw2].
      eexists. split; [|exact Hw2]. rewrite (vread_vwrite_disjoint _ _ _ _ _ _ Hd2); [done|lia].
  - rewrite <- Hj. symmetry.
    rewrite (vread_vwrite_disjoint _ _ _ _ _ _ Hd2), (vread_vwrite_disjoint _ _ _ _ _ _ Hd1) by (rewrite zlen_word; lia). done.
Qed.

Lemma at_hdr p : p mod 8 = 0 → (at_ p + 8 < N ∧ at_ (p + 8) = at_ p + 8) ∨ (at_ p + 8 = N ∧ at_ (p + 8) = 0).
Proof.
  intros Hp. pose proof N_bounds as [HN _]. destruct (at_bounds p Hp) as (?&?&_).
  assert (0 ≤ at_ (p + 8) < N) by (apply Z.mod_pos_bound; lia). destruct (at_add p 8); lia.
Qed.

(** The header of the pointer that was handed out. *)
Lemma submit_hdr rb L p : rb_rep rb L → p mod 8 = 0 →
  Z.land (u64 (u32 (mask rb + 1) + at_ (p + 8) - BPF_RINGBUF_HDR_SZ)) (mask rb) = at_ p.
Proof.
  intros Hr Hp. rewrite (land_at _ _ (rr_max _ _ Hr)). unfold mask. rewrite (rr_max _ _ Hr).
  pose proof N_bounds as [HN _]. destruct (at_bounds p Hp) as (?&?&_).
  rewrite (u32_small (N - 1)), u32_small by lia. unfold BPF_RINGBUF_HDR_SZ.
  assert (Hmod : ∀ k, at_ (at_ p + k * N) = at_ p) by (intros k; unfold at_; by rewrite Z.mod_add, Z.mod_mod by lia).
  destruct (at_hdr p Hp) as [[? ->]|[? ->]]; rewrite u64_small by lia.
  - transitivity (at_ (at_ p + 1 * N)); [f_equal; lia|apply Hmod].
  - transitivity (at_ (at_ p + 0 * N)); [f_equal; lia|apply Hmod].
Qed.

(** [submit] changes the state of the record and nothing else. *)
Lemma submit_ok rb A p size dt B (discard : bool) : rb_rep rb (A ++ Rec p size Busy dt :: B) →
  ∃ d, submit rb (at_ (p + 8)) discard = (Ok tt, with_data rb d) ∧
    rb_rep (with_data rb d) (A ++ Rec p size (if discard then Discarded else Committed) dt :: B).
Proof.
  intros Hr. destruct (rep_split _ _ _ _ Hr) as (Hp8&Hsz&Hc&Hfit&_); cbn [r_pos r_size] in *.
  pose proof (tot_bounds size ltac:(lia)) as [Ht _]. destruct (header_in _ _ p Hr Hp8) as (Ha1&Ha2&Hlen).
  pose proof (rr_mem _ _ Hr) as Hm. apply Forall_app in Hm as [_ [[(w&Hw&Hlw) Hdt] _]%Forall_cons]. cbn [r_pos r_size r_st r_data] in *.
  set (st := if discard then Discarded else Committed).
  destruct (vwrite_is_Some (rb_data rb) (at_ p) (le_store 4 (word_of size st))) as (d&Hd&Hz); [rewrite ?zlen_word; lia..|].
  exists d. split.
  - unfold submit. rewrite (submit_hdr _ _ _ Hr Hp8). unfold load_len. rewrite Hw. cbn [mbind option_bind].
    rewrite Hlw. pose proof (submit_word size discard Hsz) as Hsw. cbn zeta in Hsw |- *. rewrite Hsw. fold st. by rewrite Hd.
  - apply (rb_rep_update rb A (Rec p size Busy dt) B d st dt Hr Hz); cbn [r_pos r_size].
    + eapply (others_frame rb A (Rec p size Busy dt) B p (tot size)); [done|exact Hd|cbn [r_pos r_size]; rewrite ?zlen_word; lia..].
    + destruct (stored_word _ _ _ _ Hd (word_bounds size st Hsz)) as [Hw1 Hw2]. split; cbn [r_pos r_size r_st r_data]; [by eexists|].
      rewrite (vread_vwrite_disjoint _ _ _ _ _ _ Hd); [done|]. rewrite zlen_word. lia.
Qed.

(** Where the consumer finds what is written through the pointer: in the record, unless its header
    is the last 8 bytes of the buffer. *)
Definition written (p : Z) (bs dt : list Z) : list Z := if at_ p + 8 =? N then dt else bs.

Lemma write_ok rb A p size st dt B bs : rb_rep rb (A ++ Rec p size st dt :: B) → zlen bs = size →
  ∃ d, write_sample rb (at_ (p + 8)) bs = (Ok tt, with_data rb d) ∧
    rb_rep (with_data rb d) (A ++ Rec p size st (written p bs dt) :: B).
Proof.
  intros Hr Hbs. destruct (rep_split _ _ _ _ Hr) as (Hp8&Hsz&Hc&Hfit&_); cbn [r_pos r_size] in *.
  pose proof (tot_bounds size ltac:(lia)) as [Ht _]. destruct (header_in _ _ p Hr Hp8) as (Ha1&Ha2&Hlen).
  pose proof (rr_mem _ _ Hr) as Hm. apply Forall_app in Hm as [_ [[(w&Hw&Hlw) Hdt] _]%Forall_cons]. cbn [r_pos r_size r_st r_data] in *.
  assert (0 ≤ at_ (p + 8) < N) by (apply Z.mod_pos_bound; pose proof N_bounds; lia).
  assert (Htn : tot size ≤ N) by lia. clear Hc Hfit.
  destruct (vwrite_is_Some (rb_data rb) (at_ (p + 8)) bs) as (d&Hd&Hz); [lia..|].
  exists d. unfold write_sample. rewrite Hd. split; [done|].
  apply (rb_rep_update rb A (Rec p size st dt) B d st (written p bs dt) Hr Hz); cbn [r_pos r_size].
  - eapply (others_frame rb A (Rec p size st dt) B (p + 8) (tot size - 8)); [done|exact Hd|cbn [r_pos r_size]; lia..].
  - unfold written. split; cbn [r_pos r_size r_st r_data].
    + exists w. split; [|done]. rewrite (vread_vwrite_disjoint _ _ _ _ _ _ Hd); [done|]. destruct (at_hdr p Hp8); lia.
    + destruct (Z.eqb_spec (at_ p + 8) N) as [Hn|Hn].
      * rewrite (vread_vwrite_disjoint _ _ _ _ _ _ Hd); [done|]. destruct (at_hdr p Hp8); lia.
      * destruct (at_hdr p Hp8) as [[_ He]|]; [|lia]. rewrite He in Hd. rewrite <- Hbs. by eapply vread_vwrite_same.
Qed.

(** ** The consumer *)

Section consumer.
Context {C : Type} (cb : C → list Z → Z * C).

(** What a consumer is to be handed: the committed records in order, up to the first one that is
    not finished or to an error of the callback. The answer, the context and the records left. *)
Fixpoint deliver (L : list rec) (ctx : C) (cnt : Z) : Z * C * list rec :=
  match L with
  | [] => (cnt, ctx, [])
  | r :: L' =>
      match r_st r with
      | Busy => (cnt, ctx, L)
      | Discarded => deliver L' ctx cnt
      | Committed =>
          let '(err, ctx') := cb ctx (r_data r) in
          if err <? 0 then (err, ctx', L') else deliver L' ctx' (cnt + 1)
      end
  end.

Lemma rep_consume rb r L : rb_rep rb (r :: L) → rb_rep (with_consumer rb (rb_consumer_pos rb + tot (r_size r))) L.
Proof.
  intros [H1 H2 [H3 H3'] (Hp&Hsz&Hseg) H5 Hm]. apply Forall_cons in Hm as [_ Hm].
  pose proof (tot_bounds (r_size r) ltac:(lia)) as [Ht Ht8]. split; simpl; try done; [|lia].
  split; [lia|]. by rewrite Zplus_mod, H3', Ht8.
Qed.

(** The first record as the consumer sees it. *)
Lemma rep_head rb r L : rb_rep rb (r :: L) → rb_producer_pos rb < 2 ^ 64 →
  (rb_consumer_pos rb <? rb_producer_pos rb) = true ∧
  load_len rb (Z.land (rb_consumer_pos rb) (mask rb)) = Some (word_of (r_size r) (r_st r)) ∧
  vread (rb_data rb) (Z.land (rb_consumer_pos rb) (mask rb) + BPF_RINGBUF_HDR_SZ) (r_size r) = Some (r_data r) ∧
  0 ≤ r_size r < 2 ^ 30 ∧ 0 ≤ rb_consumer_pos rb ∧ rb_consumer_pos rb + tot (r_size r) ≤ rb_producer_pos rb.
Proof.
  intros Hr Hb. destruct (rep_split rb [] r L Hr) as (_&Hsz&_&_&_&_).
  pose proof (rep_prod _ _ (rep_consume _ _ _ Hr)) as Hp. cbn [with_consumer rb_consumer_pos rb_producer_pos] in Hp.
  pose proof (tot_bounds (r_size r) ltac:(lia)) as [Ht _].
  pose proof (rr_seg _ _ Hr) as (Hpos&_). pose proof (rr_mem _ _ Hr) as [[(w&Hw&Hlw) Hd] _]%Forall_cons.
  rewrite Hpos in *. rewrite (land_at _ _ (rr_max _ _ Hr)). split; [apply Z.ltb_lt; pose proof (rr_cons _ _ Hr); lia|].
  split; [unfold load_len; rewrite Hw; cbn; by rewrite Hlw|]. split; [done|]. pose proof (rr_cons _ _ Hr). lia.
Qed.

(** How the pass ends, in terms of what it delivers. *)
Definition pass_answer (e : pass_end) (cnt : Z) : Z := match e with PassError err => err | _ => cnt end.

Lemma fetch_pass_ok L : ∀ rb ctx cnt got fuel, rb_rep rb L → rb_producer_pos rb < 2 ^ 64 → (length L < fuel)%nat →
  ∃ e cnt' rb',
    let '(a, ctx', L') := deliver L ctx cnt in
    fetch_pass cb fuel rb ctx cnt got = (Ok (e, cnt', ctx'), rb') ∧ a = pass_answer e cnt' ∧
    rb_rep rb' L' ∧ rb_producer_pos rb' = rb_producer_pos rb ∧ rb_data rb' = rb_data rb ∧
    (∀ b, e = PassCaughtUp b → L' = []).
Proof.
  induction L as [|r L IH]; intros rb ctx cnt got fuel Hr Hb Hf; (destruct fuel as [|fuel]; [lia|]).
  - exists (PassCaughtUp got), cnt, rb. simpl. pose proof (rr_seg _ _ Hr) as Hs. simpl in Hs.
    rewrite Hs, Z.ltb_irrefl. simpl. done.
  - destruct (rep_head _ _ _ Hr Hb) as (Hlt&Hll&Hvr&Hsz&Hc&Hle). pose proof (rep_consume _ _ _ Hr) as Hr'.
    pose proof (tot_bounds (r_size r) ltac:(lia)) as [Ht _].
    cbn [fetch_pass deliver]. cbn zeta. rewrite Hlt, Hll, busy_test by done. cbn [negb].
    destruct (r_st r) eqn:Est; cbn [negb].
    + exists PassDone, cnt, rb. done.
    + rewrite discard_test, roundup_tot, u64_small by (done || lia). change (word_of (r_size r) Committed) with (r_size r).
      rewrite Hvr. destruct (cb ctx (r_data r)) as [err ctx'] eqn:Ecb. destruct (err <? 0) eqn:Eerr.
      * exists (PassError err), cnt, (with_consumer rb (rb_consumer_pos rb + tot (r_size r))). done.
      * apply (IH (with_consumer rb (rb_consumer_pos rb + tot (r_size r))) ctx' (cnt + 1) true fuel Hr' Hb). simpl in Hf. lia.
    + rewrite discard_test, roundup_tot, u64_small by (done || lia).
      apply (IH (with_consumer rb (rb_consumer_pos rb + tot (r_size r))) ctx cnt true fuel Hr' Hb). simpl in Hf. lia.
Qed.

(** A record takes at least a header, so the fuel of a pass is enough. *)
Lemma seg_length s L e : seg s L e → Z.of_nat (length L) ≤ e - s.
Proof.
  revert s. induction L as [|r L IH]; intros s; simpl; [lia|]. intros (_&Hs&Hseg).
  pose proof (tot_bounds (r_size r) ltac:(lia)). pose proof (IH _ Hseg). lia.
Qed.

Lemma fetch_data_ok rb L ctx : rb_rep rb L → rb_producer_pos rb < 2 ^ 64 →
  ∃ rb', let '(a, ctx', L') := deliver L ctx 0 in
    fetch_data cb rb ctx = (Ok (a, ctx'), rb') ∧ rb_rep rb' L' ∧
    rb_producer_pos rb' = rb_producer_pos rb ∧ rb_data rb' = rb_data rb.
Proof.
  intros Hr Hb. pose proof (seg_length _ _ _ (rr_seg _ _ Hr)) as Hlen.
  destruct (fetch_pass_ok L rb ctx 0 false (S (Z.to_nat (rb_producer_pos rb - rb_consumer_pos rb))) Hr Hb) as (e&cnt'&rb'&H); [lia|].
  destruct (deliver L ctx 0) as [[a ctx'] L'] eqn:Ed. destruct H as (Hp&->&Hr'&Hpp&Hdd&He).
  exists rb'. split; [|done]. unfold fetch_data. cbn [fetch_loop]. rewrite Hp.
  destruct e as [|err|[]]; [done..| |done]. cbn [fetch_loop pass_answer].
  rewrite (He true eq_refl) in Hr'. pose proof (rr_seg _ _ Hr') as Hs. cbn [seg] in Hs.
  cbn [fetch_pass]. rewrite Hs, Z.ltb_irrefl. done.
Qed.

Lemma has_data_ok rb L : rb_rep rb L → rb_producer_pos rb < 2 ^ 64 →
  has_data rb = Ok (match L with r :: _ => match r_st r with Busy => false | _ => true end | [] => false end).
Proof.
  intros Hr Hb. unfold has_data. destruct L as [|r L].
  - pose proof (rr_seg _ _ Hr) as Hs. cbn [seg] in Hs. by rewrite Hs, Z.ltb_irrefl.
  - destruct (rep_head _ _ _ Hr Hb) as (->&->&_&Hsz&_). by rewrite busy_test by done.
Qed.
End consumer.
End layout.
