(* ===== verification/RingRuns.v ===== *)
(** * Ring buffers: programs and consumers over time

    The producers and the consumer of a ring buffer as a sequence of operations: a producer
    reserves a sample, writes it through the pointer it got and submits or discards it, in any
    order across samples; the consumer fetches. The runs refine a queue of records. *)

From stdpp Require Import base numbers list sets.
From S2P Require Import Prelude.
From S2P Require Import RingBuf.
From S2P Require Import RingRefine.

Inductive ring_op :=
| OReserve (size fd : Z)
| OWrite (i : nat) (bs : list Z)
| OSubmit (i : nat) (discard : bool)
| OFetch.

Inductive ring_ans :=
| APtr (r : res Z)
| ADone (r : res unit)
| AFetched (r : res Z)
| ANone.

Section runs.
Context {C : Type} (cb : C → list Z → Z * C).

(** ** The buffer and its users *)

(** The buffer, the samples (pointer and size) that the producers hold, and the context of the
    consumer's callback. *)
Record users := Users { u_rb : ringbuf; u_held : list (Z * Z); u_ctx : C }.

(** A producer uses a pointer it holds, and writes the bytes it reserved. *)
Definition ring_step (u : users) (op : ring_op) : ring_ans * users :=
  match op with
  | OReserve size fd =>
      match reserve (u_rb u) size fd with
      | (Ok ptr, rb) => (APtr (Ok ptr), Users rb (u_held u ++ [(ptr, size)]) (u_ctx u))
      | (e, rb) => (APtr e, Users rb (u_held u) (u_ctx u))
      end
  | OWrite i bs =>
      match u_held u !! i with
      | Some (ptr, size) =>
          if zlen bs =? size then
            let '(r, rb) := write_sample (u_rb u) ptr bs in (ADone r, Users rb (u_held u) (u_ctx u))
          else (ANone, u)
      | None => (ANone, u)
      end
  | OSubmit i discard =>
      match u_held u !! i with
      | Some (ptr, _) =>
          let '(r, rb) := submit (u_rb u) ptr discard in (ADone r, Users rb (delete i (u_held u)) (u_ctx u))
      | None => (ANone, u)
      end
  | OFetch =>
      match fetch_data cb (u_rb u) (u_ctx u) with
      | (Ok (a, ctx), rb) => (AFetched (Ok a), Users rb (u_held u) ctx)
      | (Err e, rb) => (AFetched (Err e), Users rb (u_held u) (u_ctx u))
      | (Raw c, rb) => (AFetched (Raw c), Users rb (u_held u) (u_ctx u))
      | (Throw, rb) => (AFetched Throw, Users rb (u_held u) (u_ctx u))
      | (Fault, rb) => (AFetched Fault, Users rb (u_held u) (u_ctx u))
      end
  end.

Fixpoint ring_run (u : users) (ops : list ring_op) : list ring_ans * users :=
  match ops with
  | [] => ([], u)
  | op :: ops =>
      let '(a, u1) := ring_step u op in
      let '(as_, u2) := ring_run u1 ops in (a :: as_, u2)
  end.

(** ** The queue of records *)

Record queue := Queue { q_cons : Z; q_prod : Z; q_recs : list rec; q_ctx : C }.

Definition busy (r : rec) : bool := match r_st r with Busy => true | _ => false end.

(** The records that are being written. *)
Definition open (L : list rec) : list rec := filter (λ r, busy r = true) L.

Variable N : Z.
Hypothesis N_ok : ∃ e, 3 ≤ e ≤ 31 ∧ N = 2 ^ e.

(** The steps of a queue of [N] bytes. What is in a record that is not written is not specified. *)
Inductive queue_step : queue → ring_op → ring_ans → queue → Prop :=
| q_too_big c p L x size fd :
    2 ^ 30 ≤ size ∨ N < tot size →
    queue_step (Queue c p L x) (OReserve size fd) (APtr (Err E2BIG)) (Queue c p L x)
| q_full c p L x size fd :
    0 ≤ size < 2 ^ 30 → tot size ≤ N → c + N < p + tot size →
    queue_step (Queue c p L x) (OReserve size fd) (APtr (Err ENOSPC)) (Queue c p L x)
| q_reserve c p L x size fd junk :
    0 ≤ size < 2 ^ 30 → p + tot size ≤ c + N →
    queue_step (Queue c p L x) (OReserve size fd) (APtr (Ok (at_ N (p + 8))))
      (Queue c (p + tot size) (L ++ [Rec p size Busy junk]) x)
| q_write c p A pos size dt B x i bs :
    length (open A) = i → zlen bs = size →
    queue_step (Queue c p (A ++ Rec pos size Busy dt :: B) x) (OWrite i bs) (ADone (Ok tt))
      (Queue c p (A ++ Rec pos size Busy (written N pos bs dt) :: B) x)
| q_submit c p A pos size dt B x i (discard : bool) :
    length (open A) = i →
    queue_step (Queue c p (A ++ Rec pos size Busy dt :: B) x) (OSubmit i discard) (ADone (Ok tt))
      (Queue c p (A ++ Rec pos size (if discard then Discarded else Committed) dt :: B) x)
| q_no_write c p L x i bs :
    (∀ r, open L !! i = Some r → r_size r ≠ zlen bs) →
    queue_step (Queue c p L x) (OWrite i bs) ANone (Queue c p L x)
| q_no_submit c p L x i discard :
    open L !! i = None →
    queue_step (Queue c p L x) (OSubmit i discard) ANone (Queue c p L x)
| q_fetch c c' p L x a x' L' :
    deliver cb L x 0 = (a, x', L') → seg c' L' p →
    queue_step (Queue c p L x) OFetch (AFetched (Ok a)) (Queue c' p L' x').

Inductive queue_run : queue → list ring_op → list ring_ans → queue → Prop :=
| qr_nil q : queue_run q [] [] q
| qr_cons q op a q1 ops as_ q2 :
    queue_step q op a q1 → queue_run q1 ops as_ q2 → queue_run q (op :: ops) (a :: as_) q2.

(** ** Simulation *)

Definition held_of (r : rec) : Z * Z := (at_ N (r_pos r + 8), r_size r).

Record users_rep (u : users) (q : queue) : Prop := {
  ur_rb : rb_rep N (u_rb u) (q_recs q);
  ur_cons : q_cons q = rb_consumer_pos (u_rb u);
  ur_prod : q_prod q = rb_producer_pos (u_rb u);
  ur_held : u_held u = held_of <$> open (q_recs q);
  ur_ctx : u_ctx u = q_ctx q
}.

Lemma open_app A B : open (A ++ B) = open A ++ open B.
Proof. apply filter_app. Qed.

Lemma open_split L i r : open L !! i = Some r → ∃ A B, L = A ++ r :: B ∧ length (open A) = i ∧ busy r = true.
Proof.
  revert i. induction L as [|s L IH]; intros i; [done|]. unfold open. rewrite filter_cons.
  case_decide as Hs; fold (open L).
  - destruct i as [|i]; simpl.
    + intros [= ->]. by exists [], L.
    + intros (A&B&->&Hl&Hr)%IH. exists (s :: A), B. split; [done|]. split; [|done].
      unfold open. rewrite filter_cons, decide_True by done. simpl. f_equal. exact Hl.
  - intros (A&B&->&Hl&Hr)%IH. exists (s :: A), B. split; [done|]. split; [|done].
    unfold open. rewrite filter_cons, decide_False by done. exact Hl.
Qed.

(** What is delivered is finished, so no open record goes. *)
Lemma deliver_open L x cnt a x' L' : deliver cb L x cnt = (a, x', L') → open L = open L'.
Proof.
  revert x cnt. induction L as [|r L IH]; intros x cnt; cbn [deliver]; [by intros [= _ _ <-]|].
  destruct (r_st r) eqn:Est.
  - by intros [= _ _ <-].
  - destruct (cb x (r_data r)) as [err x1]. assert (Hr : open (r :: L) = open L).
    { unfold open. rewrite filter_cons, decide_False; [done|]. unfold busy. by rewrite Est. }
    rewrite Hr. destruct (err <? 0); [by intros [= _ _ <-]|apply IH].
  - intros H. transitivity (open L); [|by eapply IH]. unfold open. rewrite filter_cons, decide_False; [done|].
    unfold busy. by rewrite Est.
Qed.

Definition op_ok (op : ring_op) : Prop := match op with OReserve size _ => 0 ≤ size < 2 ^ 63 | _ => True end.

(** A step is a step of the queue; positions grow by at most [N]. *)
Definition simulated (u : users) (q : queue) (op : ring_op) : Prop :=
  ∃ q', queue_step q op (ring_step u op).1 q' ∧ users_rep (ring_step u op).2 q' ∧ q_prod q' ≤ q_prod q + N.

Lemma sim_reserve u q size fd : users_rep u q → 0 ≤ size < 2 ^ 63 → q_prod q + N < 2 ^ 64 →
  simulated u q (OReserve size fd).
Proof using N_ok.
  intros [Hr Hc Hp Hh Hx] Hs Hb. destruct q as [c p L x], u as [rb held ctx]. simpl in *. subst c p x.
  pose proof (N_bounds N N_ok) as [HN _]. unfold simulated. cbn [ring_step u_rb u_held u_ctx].
  destruct (decide (2 ^ 30 ≤ size ∨ N < tot size)) as [Hbig|Hok].
  { rewrite (reserve_too_big N N_ok rb L size fd Hr Hs Hbig). eexists. split; [by constructor|]. simpl. split; [done|lia]. }
  destruct (decide (rb_consumer_pos rb + N < rb_producer_pos rb + tot size)) as [Hfull|Hfit].
  { rewrite (reserve_full N N_ok rb L size fd Hr) by lia. eexists. split; [constructor; lia|]. simpl. split; [done|lia]. }
  destruct (reserve_ok N N_ok rb L size fd Hr) as (d&junk&->&Hr'&_); [lia..|].
  eexists. split; [apply (q_reserve _ _ _ _ _ _ junk); lia|]. simpl. split; [|lia].
  split; try done. simpl. rewrite Hh, open_app, fmap_app. done.
Qed.

(** The record behind a pointer that is held. *)
Lemma held_record rb L i ptr size : (held_of <$> open L) !! i = Some (ptr, size) → rb_rep N rb L →
  ∃ A pos dt B, L = A ++ Rec pos size Busy dt :: B ∧ length (open A) = i ∧ ptr = at_ N (pos + 8) ∧
    open L !! i = Some (Rec pos size Busy dt).
Proof.
  intros Hi Hr. rewrite list_lookup_fmap in Hi. destruct (open L !! i) as [[pos sz st dt]|] eqn:Ho; [|done].
  simpl in Hi. injection Hi as <- <-. destruct (open_split _ _ _ Ho) as (A&B&->&Hl&Hb).
  destruct st; try done. exists A, pos, dt, B. done.
Qed.

Lemma open_busy A r B : busy r = true → open (A ++ r :: B) = open A ++ r :: open B.
Proof. intros Hr. rewrite open_app. unfold open. by rewrite filter_cons, decide_True. Qed.

Lemma open_done A r B : busy r = false → open (A ++ r :: B) = open A ++ open B.
Proof. intros Hr. rewrite open_app. unfold open. rewrite filter_cons, decide_False; [done|congruence]. Qed.

Lemma N_pos : 0 < N.
Proof using N_ok. pose proof (N_bounds N N_ok). lia. Qed.

Lemma sim_write u q i bs : users_rep u q → simulated u q (OWrite i bs).
Proof using N_ok.
  intros [Hr Hc Hp Hh Hx]. destruct q as [c p L x], u as [rb held ctx]. simpl in *. subst c p x.
  pose proof N_pos. unfold simulated. cbn [ring_step u_rb u_held u_ctx]. rewrite Hh.
  destruct ((held_of <$> open L) !! i) as [[ptr size]|] eqn:Hi; [destruct (Z.eqb_spec (zlen bs) size) as [Hz|Hz]|].
  - destruct (held_record _ _ _ _ _ Hi Hr) as (A&pos&dt&B&->&Hl&->&_).
    destruct (write_ok N N_ok rb A pos size Busy dt B bs Hr Hz) as (d&->&Hr').
    eexists. split; [by apply q_write|]. split; [|simpl; lia]. split; try done. simpl. by rewrite !open_busy, !fmap_app by done.
  - destruct (held_record _ _ _ _ _ Hi Hr) as (A&pos&dt&B&HL&Hl&->&Ho).
    eexists. split; [apply q_no_write|split; [done|simpl; lia]]. rewrite Ho. intros r [= <-]. simpl. congruence.
  - eexists. split; [apply q_no_write|split; [done|simpl; lia]]. rewrite list_lookup_fmap in Hi.
    intros r Ho. by rewrite Ho in Hi.
Qed.

Lemma sim_submit u q i discard : users_rep u q → simulated u q (OSubmit i discard).
Proof using N_ok.
  intros [Hr Hc Hp Hh Hx]. destruct q as [c p L x], u as [rb held ctx]. simpl in *. subst c p x.
  pose proof N_pos. unfold simulated. cbn [ring_step u_rb u_held u_ctx]. rewrite Hh.
  destruct ((held_of <$> open L) !! i) as [[ptr size]|] eqn:Hi.
  - destruct (held_record _ _ _ _ _ Hi Hr) as (A&pos&dt&B&->&Hl&->&_).
    destruct (submit_ok N N_ok rb A pos size dt B discard Hr) as (d&->&Hr').
    eexists. split; [by apply q_submit|]. split; [|simpl; lia]. split; try done. simpl.
    rewrite open_busy, open_done by (done || by destruct discard). rewrite !fmap_app, fmap_cons.
    rewrite <- Hl, <- (length_fmap held_of (open A)). by rewrite delete_middle.
  - eexists. split; [apply q_no_submit|split; [done|simpl; lia]]. rewrite list_lookup_fmap in Hi.
    by destruct (open L !! i).
Qed.

Lemma sim_fetch u q : users_rep u q → q_prod q < 2 ^ 64 → simulated u q OFetch.
Proof using N_ok.
  intros [Hr Hc Hp Hh Hx] Hb. destruct q as [c p L x], u as [rb held ctx]. simpl in *. subst c p x.
  pose proof N_pos. unfold simulated. cbn [ring_step u_rb u_held u_ctx].
  destruct (fetch_data_ok N N_ok cb rb L ctx Hr Hb) as (rb'&H'). destruct (deliver cb L ctx 0) as [[a x'] L'] eqn:Ed.
  destruct H' as (->&Hr'&Hp'&_). simpl. eexists. split; [eapply (q_fetch _ (rb_consumer_pos rb')); [done|]|].
  - rewrite <- Hp'. apply Hr'.
  - split; [|simpl; lia]. split; try done. simpl. by rewrite Hh, (deliver_open _ _ _ _ _ _ Ed).
Qed.

Lemma sim_step u q op : users_rep u q → op_ok op → q_prod q + N < 2 ^ 64 → simulated u q op.
Proof using N_ok.
  intros. destruct op; [by apply sim_reserve|by apply sim_write|by apply sim_submit|apply sim_fetch; [done|]].
  pose proof N_pos. lia.
Qed.

Lemma sim_run ops : ∀ u q, users_rep u q → Forall op_ok ops → q_prod q + N * Z.of_nat (S (length ops)) < 2 ^ 64 →
  ∃ q', queue_run q ops (ring_run u ops).1 q' ∧ users_rep (ring_run u ops).2 q'.
Proof using N_ok.
  induction ops as [|op ops IH]; intros u q Hu Hops Hb; [exists q; split; [constructor|done]|].
  apply Forall_cons in Hops as [Hop Hops]. pose proof N_pos. cbn [length] in Hb.
  destruct (sim_step u q op Hu Hop) as (q1&Hs&Hu1&Hp1); [nia|]. cbn [ring_run].
  destruct (ring_step u op) as [a u1]. cbn [fst snd] in *. destruct (IH u1 q1 Hu1 Hops) as (q2&Hr&Hu2); [nia|].
  destruct (ring_run u1 ops) as [as_ u2]. exists q2. split; [|done]. by econstructor.
Qed.
End runs.

(** ** Properties *)

Lemma ringbuf_create_rep P N : 8 ≤ P ≤ 2 ^ 16 → (∃ e, 3 ≤ e ≤ 30 ∧ N = 2 ^ e) →
  ∃ rb, ringbuf_create P N = Ok rb ∧ rb_rep N rb [] ∧ rb_producer_pos rb = 0 ∧ rb_consumer_pos rb = 0.
Proof.
  intros HP (e&He&HN). assert (HNb : 8 ≤ N ≤ 2 ^ 30).
  { rewrite HN. split; [change 8 with (2 ^ 3)|]; apply Z.pow_le_mono_r; lia. }
  unfold ringbuf_create. rewrite (u32_small (N * 2)), u32_small by lia.
  rewrite (proj2 (Z.ltb_ge P 8)), (proj2 (Z.ltb_ge _ (P * 2))) by lia.
  eexists. split; [done|]. split; [|done]. split; cbn; try done; [|lia]. unfold zlen. rewrite length_replicate. lia.
Qed.

(** C9 (refinement). Whatever the producers and the consumer of a new ring buffer do, every answer
    is the one that a queue of records gives: a reservation is refused exactly when it is too big
    or there is no room, the samples are delivered in the order of their reservations, each once,
    up to the first one that is not submitted, and discarded ones are skipped. A sample is delivered
    with the bytes written to it, unless its header takes the last 8 bytes of the ring: then what is
    written is lost, and the sample is delivered with the bytes that were there before. *)
Theorem ringbuf_refines_queue {C} (cb : C → list Z → Z * C) P N ctx ops :
  8 ≤ P ≤ 2 ^ 16 → (∃ e, 3 ≤ e ≤ 30 ∧ N = 2 ^ e) →
  Forall op_ok ops → N * Z.of_nat (S (length ops)) < 2 ^ 64 →
  ∃ rb q, ringbuf_create P N = Ok rb ∧
    queue_run cb N (Queue 0 0 [] ctx) ops (ring_run cb (Users rb [] ctx) ops).1 q ∧
    users_rep N (ring_run cb (Users rb [] ctx) ops).2 q.
Proof.
  intros HP HN Hops Hb. destruct (ringbuf_create_rep P N HP HN) as (rb&Hc&Hr&Hp&Hco). exists rb.
  destruct HN as (e&He&HN).
  destruct (sim_run cb N ltac:(exists e; split; [lia|done]) ops (Users rb [] ctx) (Queue 0 0 [] ctx)) as (q&Hq&Hu);
    [by split|done|simpl; lia|]. by exists q.
Qed.

(** A consumer that keeps what it is handed. *)
Definition keep (seen : list (list Z)) (s : list Z) : Z * list (list Z) := (0, seen ++ [s]).

Definition demo_ops : list ring_op :=
  [OReserve 8 5; OReserve 4 5; OReserve 32 5; OWrite 1 [1; 2; 3; 4]; OSubmit 1 false; OFetch;
   OSubmit 0 true; OFetch].

(** A new buffer of [N] bytes, with pages of 8 bytes. *)
Definition demo_rb (N : Z) : ringbuf := match ringbuf_create 8 N with Ok rb => rb | _ => RingBuf 0 0 0 [] end.

Lemma ringbuf_refines_queue_witness :
  (∃ rb q, ringbuf_create 8 64 = Ok rb ∧ queue_run keep 64 (Queue 0 0 [] []) demo_ops (ring_run keep (Users rb [] []) demo_ops).1 q ∧
        users_rep 64 (ring_run keep (Users rb [] []) demo_ops).2 q) ∧
  (ring_run keep (Users (demo_rb 64) [] []) demo_ops).1 =
    [APtr (Ok 8); APtr (Ok 24); APtr (Err ENOSPC); ADone (Ok tt); ADone (Ok tt); AFetched (Ok 0);
     ADone (Ok tt); AFetched (Ok 1)] ∧
  u_ctx (ring_run keep (Users (demo_rb 64) [] []) demo_ops).2 = [[1; 2; 3; 4]].
Proof.
  split; [|vm_compute; done].
  apply (ringbuf_refines_queue keep 8 64 [] demo_ops); [lia|by exists 6|repeat constructor; lia|vm_compute; done].
Defined.

(** C39 (error). A sample whose header takes the last 8 bytes of the buffer is lost: the producer is
    handed the start of the buffer, while the consumer reads after the end of the ring. What the
    consumer gets is what was there before, whatever the producer writes. *)
Theorem ringbuf_wrapped_sample_lost {C} (cb : C → list Z → Z * C) N rb fd ctx bs old :
  (∃ e, 3 ≤ e ≤ 31 ∧ N = 2 ^ e) → rb_rep N rb [] → rb_producer_pos rb + N < 2 ^ 64 →
  at_ N (rb_producer_pos rb) = N - 8 → zlen bs < 2 ^ 30 → tot (zlen bs) ≤ N →
  vread (rb_data rb) N (zlen bs) = Some old → 0 ≤ (cb ctx old).1 →
  let r := ring_run cb (Users rb [] ctx) [OReserve (zlen bs) fd; OWrite 0 bs; OSubmit 0 false; OFetch] in
  r.1 = [APtr (Ok 0); ADone (Ok tt); ADone (Ok tt); AFetched (Ok 1)] ∧ u_ctx r.2 = (cb ctx old).2.
Proof.
  intros HN Hr Hb Hat Hbs Ht Hold Hcb. pose proof (zlen_nonneg bs). pose proof (rr_seg _ _ _ Hr) as Hcp. cbn [seg] in Hcp.
  assert (Hat8 : at_ N (rb_producer_pos rb + 8) = 0).
  { pose proof (N_bounds N HN) as [HNb _]. pose proof (rep_prod N HN rb [] Hr) as (_&_&Hp8). destruct (at_hdr N HN _ Hp8); lia. }
  destruct (reserve_ok N HN rb [] (zlen bs) fd Hr) as (d&junk&Hres&Hr1&Hj); [lia..|]. rewrite Hat8 in Hres.
  assert (junk = old) as -> by (rewrite Hat in Hj; replace (N - 8 + 8) with N in Hj by lia; congruence).
  cbn [ring_run ring_step u_rb u_held u_ctx]. rewrite Hres. cbn [ring_run ring_step u_rb u_held u_ctx app lookup list_lookup]. rewrite Z.eqb_refl.
  destruct (write_ok N HN _ [] (rb_producer_pos rb) (zlen bs) Busy old [] bs Hr1 eq_refl) as (d2&Hw&Hr2).
  rewrite Hat8 in Hw. rewrite Hw. cbn [ring_run ring_step u_rb u_held u_ctx lookup list_lookup].
  unfold written in Hr2. rewrite (proj2 (Z.eqb_eq (at_ N (rb_producer_pos rb) + 8) N)) in Hr2 by lia.
  destruct (submit_ok N HN _ [] (rb_producer_pos rb) (zlen bs) old [] false Hr2) as (d3&Hs&Hr3).
  rewrite Hat8 in Hs. rewrite Hs. cbn [ring_run ring_step u_rb u_held u_ctx].
  destruct (fetch_data_ok N HN cb _ _ ctx Hr3) as (rb'&Hf); [simpl; lia|]. cbn [deliver app r_st r_data] in Hf.
  destruct (cb ctx old) as [err ctx'] eqn:Ecb. cbn [fst] in Hcb. rewrite (proj2 (Z.ltb_ge err 0)) in Hf by lia.
  destruct Hf as (->&_). done.
Qed.

(** Two reservations of 0 bytes and a consumer that caught up leave 8 bytes before the end of a
    buffer of 16; the 4 bytes written next are not delivered. *)
Definition wrapped_rb : ringbuf :=
  u_rb (ring_run keep (Users (demo_rb 16) [] []) [OReserve 0 5; OSubmit 0 false; OFetch]).2.

Lemma ringbuf_wrapped_sample_lost_witness :
  (ring_run keep (Users wrapped_rb [] []) [OReserve 4 5; OWrite 0 [1; 2; 3; 4]; OSubmit 0 false; OFetch]).1 =
    [APtr (Ok 0); ADone (Ok tt); ADone (Ok tt); AFetched (Ok 1)] ∧
  u_ctx (ring_run keep (Users wrapped_rb [] []) [OReserve 4 5; OWrite 0 [1; 2; 3; 4]; OSubmit 0 false; OFetch]).2 = [[0; 0; 0; 0]].
Proof.
  apply (ringbuf_wrapped_sample_lost keep 16 wrapped_rb 5 [] [1; 2; 3; 4] [0; 0; 0; 0]);
    [by exists 4| |vm_compute; done..].
  split; [vm_compute; repeat split; done..|constructor].
Defined.

(** The buffer of a ring of 2^30 bytes or less has twice its size; that of a ring of
    2^31 bytes is empty, since its size wraps, and then every reservation that is not refused
    writes outside of it. *)
Theorem ringbuf_create_size P size fd : 8 ≤ P ≤ 2 ^ 16 → 0 ≤ size < 2 ^ 30 →
  (∀ e, 3 ≤ e ≤ 30 → ∃ rb, ringbuf_create P (2 ^ e) = Ok rb ∧ zlen (rb_data rb) = 2 * 2 ^ e) ∧
  ∃ rb, ringbuf_create P (2 ^ 31) = Ok rb ∧ rb_data rb = [] ∧ (reserve rb size fd).1 = Fault.
Proof.
  intros HP Hs. split.
  - intros e He. destruct (ringbuf_create_rep P (2 ^ e) HP) as (rb&Hc&Hr&_); [by exists e|]. exists rb. split; [done|apply Hr].
  - unfold ringbuf_create. change (u32 (2 ^ 31 * 2)) with 0. rewrite u32_small by lia.
    rewrite (proj2 (Z.ltb_ge P 8)), (proj2 (Z.ltb_ge _ (P * 2))) by lia. eexists. split; [done|].
    replace (P * 2 + 0 - P * 2) with 0 by lia. split; [done|]. unfold reserve. rewrite flags_test by lia.
    rewrite (proj2 (Z.ltb_lt size (2 ^ 30))) by lia. cbn [negb rb_max_ent rb_consumer_pos rb_producer_pos rb_data].
    pose proof (tot_bounds size ltac:(lia)) as [Ht _]. unfold tot, BPF_RINGBUF_HDR_SZ in *.
    replace (size + 8 + 7) with (size + 15) by lia. rewrite (u64_small (size + 15)) by lia.
    rewrite (proj2 (Z.ltb_ge (2 ^ 31) _)) by lia. change (u64 (2 ^ 31 - u64 (0 - 0))) with (2 ^ 31).
    by rewrite (proj2 (Z.ltb_ge (2 ^ 31) _)) by lia.
Qed.

Lemma ringbuf_create_size_witness :
  (∀ e, 3 ≤ e ≤ 30 → ∃ rb, ringbuf_create 4096 (2 ^ e) = Ok rb ∧ zlen (rb_data rb) = 2 * 2 ^ e) ∧
  ∃ rb, ringbuf_create 4096 (2 ^ 31) = Ok rb ∧ rb_data rb = [] ∧ (reserve rb 16 3).1 = Fault.
Proof. apply (ringbuf_create_size 4096 16 3); lia. Defined.
