(* ===== verification/PushPop.v ===== *)
(** * The interface of queue and stack maps

    The operations [bpf_map_handler] calls on [queue_map_impl] and [stack_map_impl], the
    abstract bounded container each promises to be, and the lemma that lifts a refinement of
    single operations to sequences of operations. *)

From stdpp Require Import base numbers list.
From S2P Require Import Prelude.

(** The operations. A pop or peek returns the bytes copied to the caller's buffer; its flag tells
    whether the buffer's pointer is not null. *)
Class PushPopMap (T : Type) := {
  pp_update : T → uptr → uptr → Z → res unit * T;
  pp_delete : T → uptr → res unit * T;
  pp_push : T → uptr → Z → res unit * T;
  pp_pop : T → bool → res (list Z) * T;
  pp_peek : T → bool → res (list Z)
}.

Inductive pp_op :=
  | PUpdate (value : uptr) (flags : Z) | PDelete
  | PPush (value : uptr) (flags : Z) | PPop (out : bool) | PPeek (out : bool).

(** The answer to an operation, with the bytes handed out, if any. *)
Definition pp_step {T} `{PushPopMap T} (s : T) (op : pp_op) : res (list Z) * T :=
  match op with
  | PUpdate v f => let '(r, s') := pp_update s None v f in (res_map (λ _, []) r, s')
  | PDelete => let '(r, s') := pp_delete s None in (res_map (λ _, []) r, s')
  | PPush v f => let '(r, s') := pp_push s v f in (res_map (λ _, []) r, s')
  | PPop out => pp_pop s out
  | PPeek out => (pp_peek s out, s)
  end.

(** The answers to a sequence of operations. *)
Fixpoint pp_run {T} `{PushPopMap T} (s : T) (ops : list pp_op) : list (res (list Z)) :=
  match ops with
  | [] => []
  | op :: ops => let '(r, s') := pp_step s op in r :: pp_run s' ops
  end.

(** ** Bounded containers of values *)

(** Where a new value goes, and what is left when the oldest is dropped; the head of the list is
    the value a pop hands out. *)
Record discipline := {
  d_insert : list Z → list (list Z) → list (list Z);
  d_evict : list (list Z) → list (list Z)
}.
Definition fifo : discipline := {| d_insert := λ v l, l ++ [v]; d_evict := tail |}.
Definition lifo : discipline := {| d_insert := cons; d_evict := @removelast _ |}.

Section spec.
(** Discipline, value size and capacity. *)
Variables (d : discipline) (vs cap : Z).

Definition spec_push (l : list (list Z)) (value : uptr) (flags : Z) : res unit * list (list Z) :=
  if cap <=? zlen l then
    if flags =? BPF_EXIST then
      match from_user value vs with
      | Some bs => (Ok tt, d_insert d bs (d_evict d l)) | None => (Fault, l) end
    else (Err E2BIG, l)
  else match from_user value vs with
       | Some bs => (Ok tt, d_insert d bs l) | None => (Fault, l) end.

(** The update of the syscall interface: any flags but [BPF_EXIST] act as [BPF_ANY]. *)
Definition spec_update (l : list (list Z)) (value : uptr) (flags : Z)
  : res unit * list (list Z) :=
  match value with None => (Err EINVAL, l) | Some _ => spec_push l value flags end.

#[export] Instance spec_push_pop : PushPopMap (list (list Z)) := {
  pp_update l _ v f := spec_update l v f;
  pp_delete l _ := match l with [] => (Err ENOENT, l) | _ :: l' => (Ok tt, l') end;
  pp_push l v f :=
    match v with
    | None => (Err EINVAL, l)
    | Some _ => if bool_decide (f = BPF_ANY ∨ f = BPF_EXIST) then spec_push l v f else (Err EINVAL, l)
    end;
  pp_pop l out :=
    if negb out then (Err EINVAL, l)
    else match l with [] => (Err ENOENT, l) | x :: l' => (Ok x, l') end;
  pp_peek l out :=
    if negb out then Err EINVAL
    else match l with [] => Err ENOENT | x :: _ => Ok x end
}.
End spec.

(** The caller's value buffers hold at least [value_size] bytes. *)
Definition op_ok (vs : Z) (op : pp_op) : Prop :=
  match op with
  | PUpdate (Some b) _ | PPush (Some b) _ => vs ≤ zlen b
  | _ => True
  end.

(** The test of the push flags in the code. *)
Lemma push_flags_spec f :
  negb (f =? 0) && negb (f =? BPF_ANY) && negb (f =? BPF_EXIST)
  = negb (bool_decide (f = BPF_ANY ∨ f = BPF_EXIST)).
Proof.
  unfold BPF_ANY, BPF_EXIST. destruct (Z.eqb_spec f 0), (Z.eqb_spec f 2); simpl;
    case_bool_decide; (done || lia).
Qed.

(** ** From operations to sequences of operations *)
Section simulation.
Context {T : Type} `{PushPopMap T} (d : discipline) (vs cap : Z).
(** The implementation's state represents the list. *)
Variable R : T → list (list Z) → Prop.

Let spec := spec_push_pop d vs cap.

(** An operation of the code answers as the specification does, stays in the relation, and does
    not fault. *)
Definition simulates {A} (x : res A * T) (y : res A * list (list Z)) : Prop :=
  ∃ t, x = (y.1, t) ∧ R t y.2 ∧ safe y.1.

Hypothesis update_sim : ∀ t l v f,
  R t l → op_ok vs (PUpdate v f) → simulates (pp_update t None v f) (pp_update (PushPopMap := spec) l None v f).
Hypothesis delete_sim : ∀ t l,
  R t l → simulates (pp_delete t None) (pp_delete (PushPopMap := spec) l None).
Hypothesis push_sim : ∀ t l v f,
  R t l → op_ok vs (PPush v f) → simulates (pp_push t v f) (pp_push (PushPopMap := spec) l v f).
Hypothesis pop_sim : ∀ t l out,
  R t l → simulates (pp_pop t out) (pp_pop (PushPopMap := spec) l out).
Hypothesis peek_sim : ∀ t l out,
  R t l → pp_peek t out = pp_peek (PushPopMap := spec) l out.

Lemma simulates_map {A B} (f : A → B) x y :
  simulates x y →
  simulates (let '(r, t) := x in (res_map f r, t)) (let '(r, l) := y in (res_map f r, l)).
Proof.
  intros (t&->&Ht&Hs). destruct y as [r l]. exists t. simpl in *. split; [done|]. split; [done|].
  destruct r; done.
Qed.

Lemma step_simulates t l op :
  R t l → op_ok vs op → simulates (pp_step t op) (pp_step (H := spec) l op).
Proof.
  intros HR Hok. destruct op as [v f| |v f|out|out]; cbn [pp_step].
  - by apply simulates_map, update_sim.
  - by apply simulates_map, delete_sim.
  - by apply simulates_map, push_sim.
  - by apply pop_sim.
  - rewrite (peek_sim _ _ _ HR). exists t. split; [done|]. split; [done|].
    simpl. destruct out; [|done]. destruct l; done.
Qed.

Lemma run_simulates ops : ∀ t l,
  R t l → Forall (op_ok vs) ops →
  pp_run t ops = pp_run (H := spec) l ops ∧ Forall safe (pp_run t ops).
Proof.
  induction ops as [|op ops IH]; intros t l HR Hok; [done|].
  apply Forall_cons in Hok as [Ho Hok]. cbn [pp_run].
  destruct (step_simulates t l op HR Ho) as (t'&->&HR'&Hs).
  destruct (pp_step (H := spec) l op) as [r l']. simpl in *.
  destruct (IH t' l' HR' Hok) as [IH1 IH2]. rewrite IH1 in *. by split; [|constructor].
Qed.
End simulation.
