(* ===== verification/QueueMap.v ===== *)
(** * Queue maps

    [queue_map_impl] (runtime/src/bpf_map/userspace/queue.cpp): a circular buffer of
    [max_entries] slots of [value_size] bytes.  The abstract queue is the list of its values,
    oldest first, and every operation refines an operation on that list. *)

From stdpp Require Import base numbers list.
From S2P Require Import Prelude.
From S2P Require Import PushPop.

Record queue_map_impl := QueueMapImpl {
  qm_value_size : Z;
  qm_max_entries : Z;
  qm_data : list Z;
  qm_head : Z;
  qm_tail : Z;
  qm_count : Z
}.

(** The constructor; [max_entries * _value_size] is computed in [unsigned int]. *)
Definition queue_map_create (value_size max_entries : Z) : res queue_map_impl :=
  if (value_size =? 0) || (max_entries =? 0) then Throw
  else Ok {| qm_value_size := value_size; qm_max_entries := max_entries;
             qm_data := replicate (Z.to_nat (u32 (max_entries * value_size))) 0;
             qm_head := 0; qm_tail := 0; qm_count := 0 |}.

Definition get_current_size (q : queue_map_impl) : Z := qm_count q.
Definition is_full (q : queue_map_impl) : bool := qm_max_entries q <=? qm_count q.
Definition is_empty (q : queue_map_impl) : bool := qm_count q =? 0.
Definition next_index (q : queue_map_impl) (index : Z) : Z := u32 (index + 1) mod qm_max_entries q.

(** [head = next_index(head); count--;] *)
Definition advance_head (q : queue_map_impl) : queue_map_impl :=
  {| qm_value_size := qm_value_size q; qm_max_entries := qm_max_entries q; qm_data := qm_data q;
     qm_head := next_index q (qm_head q); qm_tail := qm_tail q; qm_count := u32 (qm_count q - 1) |}.

(** The copy to [data.data() + tail * _value_size] and [tail = next_index(tail); count++;] *)
Definition append (q : queue_map_impl) (value : uptr) : res unit * queue_map_impl :=
  match from_user value (qm_value_size q) with
  | None => (Fault, q)
  | Some bs =>
      match vwrite (qm_data q) (u32 (qm_tail q * qm_value_size q)) bs with
      | None => (Fault, q)
      | Some d =>
          (Ok tt, {| qm_value_size := qm_value_size q; qm_max_entries := qm_max_entries q;
                     qm_data := d; qm_head := qm_head q; qm_tail := next_index q (qm_tail q);
                     qm_count := u32 (qm_count q + 1) |})
      end
  end.

(** A pointer to the front element, as its offset in [data]. *)
Definition elem_lookup (q : queue_map_impl) (key : uptr) : res Z :=
  if is_empty q then Err ENOENT else Ok (u32 (qm_head q * qm_value_size q)).

Definition elem_update (q : queue_map_impl) (key value : uptr) (flags : Z)
  : res unit * queue_map_impl :=
  match value with
  | None => (Err EINVAL, q)
  | Some _ =>
      if is_full q then
        if flags =? BPF_EXIST then append (advance_head q) value else (Err E2BIG, q)
      else append q value
  end.

Definition elem_delete (q : queue_map_impl) (key : uptr) : res unit * queue_map_impl :=
  if is_empty q then (Err ENOENT, q) else (Ok tt, advance_head q).

Definition map_get_next_key (q : queue_map_impl) (key : uptr) : res (list Z) := Err EINVAL.

Definition map_push_elem (q : queue_map_impl) (value : uptr) (flags : Z)
  : res unit * queue_map_impl :=
  match value with
  | None => (Err EINVAL, q)
  | Some _ =>
      if negb (flags =? 0) && negb (flags =? BPF_ANY) && negb (flags =? BPF_EXIST)
      then (Err EINVAL, q)
      else if is_full q then
        if flags =? BPF_EXIST then append (advance_head q) value else (Err E2BIG, q)
      else append q value
  end.

(** The bytes copied to the caller's buffer; [out] tells whether its pointer is not null. *)
Definition map_pop_elem (q : queue_map_impl) (out : bool) : res (list Z) * queue_map_impl :=
  if negb out then (Err EINVAL, q)
  else if is_empty q then (Err ENOENT, q)
  else match vread (qm_data q) (u32 (qm_head q * qm_value_size q)) (qm_value_size q) with
       | None => (Fault, q)
       | Some bs => (Ok bs, advance_head q)
       end.

Definition map_peek_elem (q : queue_map_impl) (out : bool) : res (list Z) :=
  if negb out then Err EINVAL
  else if is_empty q then Err ENOENT
  else match vread (qm_data q) (u32 (qm_head q * qm_value_size q)) (qm_value_size q) with
       | None => Fault
       | Some bs => Ok bs
       end.

#[export] Instance queue_push_pop : PushPopMap queue_map_impl := {
  pp_update := elem_update;
  pp_delete := elem_delete;
  pp_push := map_push_elem;
  pp_pop := map_pop_elem;
  pp_peek := map_peek_elem
}.

(** ** Representation of the abstract queue *)

(** The representation invariant. *)
Record queue_rep (q : queue_map_impl) (l : list (list Z)) : Prop := {
  qr_vs : 0 < qm_value_size q;
  qr_max : 0 < qm_max_entries q < 2 ^ 32;
  qr_bound : qm_max_entries q * qm_value_size q < 2 ^ 32;
  qr_data : zlen (qm_data q) = qm_max_entries q * qm_value_size q;
  qr_head : 0 ≤ qm_head q < qm_max_entries q;
  qr_count : qm_count q = zlen l;
  qr_cap : zlen l ≤ qm_max_entries q;
  qr_tail : qm_tail q = (qm_head q + zlen l) mod qm_max_entries q;
  qr_slots : ∀ (i : nat) x, l !! i = Some x →
    slot (qm_data q) (qm_value_size q) ((qm_head q + Z.of_nat i) mod qm_max_entries q) = Some x
}.

(** ** Lemmas *)

Definition same_sizes (q q' : queue_map_impl) : Prop :=
  qm_value_size q' = qm_value_size q ∧ qm_max_entries q' = qm_max_entries q.

Lemma queue_create_rep vs n q :
  0 < vs → 0 < n < 2 ^ 32 → n * vs < 2 ^ 32 → queue_map_create vs n = Ok q → queue_rep q [].
Proof.
  intros Hv Hn Hb. unfold queue_map_create. destruct (_ || _); [done|]. intros [= <-].
  split; simpl; rewrite ?zlen_nil; try (done || lia).
  rewrite u32_small by nia. rewrite zlen_replicate; nia.
Qed.

Lemma queue_next_index q l i :
  queue_rep q l → 0 ≤ i < qm_max_entries q → next_index q i = (i + 1) mod qm_max_entries q.
Proof. intros [] Hi. unfold next_index. by rewrite u32_small by lia. Qed.

Lemma queue_offset q l i :
  queue_rep q l → 0 ≤ i < qm_max_entries q →
  u32 (i * qm_value_size q) = i * qm_value_size q.
Proof.
  intros [] Hi. destruct (slot_in_range (qm_value_size q) (qm_max_entries q) i); [done..|].
  apply u32_small. lia.
Qed.

Lemma queue_advance q x l :
  queue_rep q (x :: l) → queue_rep (advance_head q) l ∧ same_sizes q (advance_head q).
Proof.
  intros Hr. pose proof (queue_next_index _ _ _ Hr (qr_head _ _ Hr)) as Hn.
  destruct Hr. rewrite zlen_cons in *. pose proof (zlen_nonneg l).
  split; [|done]. split; simpl; try done.
  - rewrite Hn. apply Z.mod_pos_bound. lia.
  - rewrite u32_small; lia.
  - lia.
  - rewrite Hn, qr_tail0, Z.add_mod_idemp_l by lia. f_equal. lia.
  - intros i y Hi. rewrite Hn, Z.add_mod_idemp_l by lia.
    specialize (qr_slots0 (S i) y Hi). rewrite <- qr_slots0. do 2 f_equal. lia.
Qed.

Lemma queue_front q x l :
  queue_rep q (x :: l) →
  vread (qm_data q) (u32 (qm_head q * qm_value_size q)) (qm_value_size q) = Some x.
Proof.
  intros Hr. rewrite (queue_offset q _ _ Hr (qr_head _ _ Hr)).
  pose proof (qr_slots _ _ Hr 0%nat x eq_refl) as H. destruct Hr.
  rewrite Z.add_0_r, Z.mod_small in H by lia. exact H.
Qed.

Lemma queue_append q l value bs :
  queue_rep q l → zlen l < qm_max_entries q → from_user value (qm_value_size q) = Some bs →
  ∃ q', append q value = (Ok tt, q') ∧ queue_rep q' (l ++ [bs]) ∧ same_sizes q q'.
Proof.
  intros Hr Hlt Hv. pose proof (zlen_nonneg l). pose proof (from_user_zlen _ _ _ Hv) as Hbs.
  assert (Ht : 0 ≤ qm_tail q < qm_max_entries q)
    by (destruct Hr; rewrite qr_tail0; apply Z.mod_pos_bound; lia).
  destruct (slot_write_is_Some (qm_data q) bs (qm_value_size q) (qm_max_entries q) (qm_tail q))
    as (d&Hd&Hz); [destruct Hr; done..|].
  unfold append. rewrite Hv, (queue_offset q _ _ Hr Ht), Hd. eexists. split; [done|].
  split; [|done]. pose proof (queue_next_index _ _ _ Hr Ht) as Hn.
  destruct Hr. split; simpl; rewrite ?zlen_snoc; try (done || lia).
  - rewrite u32_small by lia. lia.
  - rewrite Hn, qr_tail0, Z.add_mod_idemp_l by lia. f_equal. lia.
  - intros i x Hx. rewrite (slot_write_eq _ _ _ _ _ _ Hd Hbs).
    apply lookup_app_Some in Hx as [Hx|[Hge Hx]].
    + pose proof (lookup_lt_Some _ _ _ Hx). unfold zlen in *.
      rewrite decide_False; [by apply qr_slots0|]. rewrite qr_tail0.
      intros Heq%mod_ring_inj; lia.
    + apply list_lookup_singleton_Some in Hx as [Hi <-].
      rewrite decide_True; [done|]. rewrite qr_tail0. f_equal. unfold zlen. lia.
Qed.

(** The relation of the refinement: the sizes are those of the specification. *)
Definition queue_sim (vs cap : Z) (q : queue_map_impl) (l : list (list Z)) : Prop :=
  queue_rep q l ∧ qm_value_size q = vs ∧ qm_max_entries q = cap.

Lemma queue_is_empty q l : queue_rep q l → is_empty q = match l with [] => true | _ => false end.
Proof.
  intros []. unfold is_empty. rewrite qr_count0. destruct l as [|x l]; [done|].
  rewrite zlen_cons. pose proof (zlen_nonneg l). apply Z.eqb_neq. lia.
Qed.

Lemma queue_sim_append vs cap q l b :
  queue_sim vs cap q l → zlen l < cap → vs ≤ zlen b →
  simulates (queue_sim vs cap) (append q (Some b)) (Ok tt, l ++ [take (Z.to_nat vs) b]).
Proof.
  intros (Hr&<-&<-) Hlt Hb.
  destruct (queue_append q l (Some b) (take (Z.to_nat (qm_value_size q)) b)) as (q'&->&Hr'&Hs);
    [done..|destruct Hr; apply from_user_Some; lia|].
  exists q'. done.
Qed.

Lemma queue_push_cases vs cap q l b flags :
  queue_sim vs cap q l → vs ≤ zlen b →
  simulates (queue_sim vs cap)
    (if is_full q then
       if flags =? BPF_EXIST then append (advance_head q) (Some b) else (Err E2BIG, q)
     else append q (Some b))
    (spec_push fifo vs cap l (Some b) flags).
Proof.
  intros Hs Hb. pose proof Hs as (Hr&<-&<-). unfold spec_push, is_full.
  rewrite from_user_Some, (qr_count _ _ Hr) by (destruct Hr; lia).
  destruct (Z.leb_spec (qm_max_entries q) (zlen l)); [|by apply queue_sim_append].
  destruct (flags =? BPF_EXIST); [|by exists q].
  destruct l as [|x l]; [rewrite zlen_nil in *; destruct Hr; lia|].
  destruct (queue_advance _ _ _ Hr) as [Hr' [Hs1 Hs2]].
  apply queue_sim_append; [done| |done]. pose proof (qr_cap _ _ Hr) as Hc.
  rewrite zlen_cons in Hc. simpl. lia.
Qed.

Lemma queue_run_refines vs cap q l ops :
  queue_sim vs cap q l → Forall (op_ok vs) ops →
  pp_run q ops = pp_run (H := spec_push_pop fifo vs cap) l ops ∧ Forall safe (pp_run q ops).
Proof.
  apply run_simulates; clear.
  - intros q l [b|] f Hs Hok; [by apply queue_push_cases|by exists q].
  - intros q l Hs. simpl. unfold elem_delete. pose proof Hs as (Hr&<-&<-).
    rewrite (queue_is_empty _ _ Hr). destruct l as [|x l]; [by exists q|].
    destruct (queue_advance _ _ _ Hr). by eexists.
  - intros q l [b|] f Hs Hok; simpl; [|by exists q]. rewrite push_flags_spec.
    case_bool_decide; cbn [negb]; [by apply queue_push_cases|by exists q].
  - intros q l out Hs. simpl. unfold map_pop_elem. pose proof Hs as (Hr&<-&<-).
    rewrite (queue_is_empty _ _ Hr). destruct out; cbn [negb]; [|by exists q].
    destruct l as [|x l]; [by exists q|]. rewrite (queue_front _ _ _ Hr).
    destruct (queue_advance _ _ _ Hr). by eexists.
  - intros q l out (Hr&<-&<-). simpl. unfold map_peek_elem. rewrite (queue_is_empty _ _ Hr).
    destruct out; cbn [negb]; [|done]. destruct l as [|x l]; [done|].
    by rewrite (queue_front _ _ _ Hr).
Qed.

(** ** Properties *)

(** C18 (refinement). A queue map created with sizes whose product fits 32 bits answers every
    sequence of updates, deletes, pushes, pops and peeks as the bounded FIFO queue does that is
    the list of its values: [BPF_EXIST] on a full queue drops the oldest value, any other push on
    a full queue is refused with [E2BIG], pop and peek hand out the oldest value; and no
    operation accesses memory outside of the buffer. *)
Theorem queue_refines_fifo vs n q ops :
  0 < vs → 0 < n < 2 ^ 32 → n * vs < 2 ^ 32 →
  queue_map_create vs n = Ok q → Forall (op_ok vs) ops →
  pp_run q ops = pp_run (H := spec_push_pop fifo vs n) [] ops ∧ Forall safe (pp_run q ops).
Proof.
  intros Hv Hn Hb Hc Hok. pose proof (queue_create_rep _ _ _ Hv Hn Hb Hc) as Hr.
  assert (qm_value_size q = vs ∧ qm_max_entries q = n) as [<- <-].
  { unfold queue_map_create in Hc. destruct (_ || _); by inversion Hc. }
  by apply (queue_run_refines (qm_value_size q) (qm_max_entries q)).
Qed.

Definition ex_queue_ops : list pp_op :=
  [PPush (Some [1; 2]) BPF_ANY; PPush (Some [3; 4]) BPF_ANY; PPush (Some [5; 6]) BPF_ANY;
   PPush (Some [5; 6]) BPF_EXIST; PPop true; PPeek true; PPush None BPF_ANY;
   PPush (Some [7; 8]) BPF_NOEXIST; PPop true; PPop true].

Lemma queue_refines_fifo_witness :
  ∃ q, queue_map_create 2 2 = Ok q ∧
    pp_run q ex_queue_ops =
      [Ok []; Ok []; Err E2BIG; Ok []; Ok [3; 4]; Ok [5; 6]; Err EINVAL; Err EINVAL; Ok [5; 6];
       Err ENOENT].
Proof.
  eexists. split; [reflexivity|].
  destruct (queue_refines_fifo 2 2 _ ex_queue_ops ltac:(lia) ltac:(lia) ltac:(lia) eq_refl) as [H _].
  - repeat constructor; vm_compute; done.
  - rewrite H. reflexivity.
Defined.

(** Creating a queue map with a zero value size or zero capacity throws, and
    otherwise succeeds with an empty queue. *)
Theorem queue_create_total vs n :
  queue_map_create vs n = Throw ∧ (vs = 0 ∨ n = 0) ∨
  (∃ q, queue_map_create vs n = Ok q ∧ is_empty q = true ∧ get_current_size q = 0 ∧ vs ≠ 0 ∧ n ≠ 0).
Proof.
  unfold queue_map_create. destruct (Z.eqb_spec vs 0), (Z.eqb_spec n 0); simpl;
    [left; auto..|]. right. eexists. done.
Qed.

(** [elem_update] does not reject flags other than [BPF_ANY] and [BPF_EXIST], as the
    comment of queue.hpp says it does: on a queue that is not full it enqueues the value whatever
    the flags, where [map_push_elem] answers [EINVAL]. *)
Theorem queue_update_ignores_flags q l b flags :
  queue_rep q l → zlen l < qm_max_entries q → qm_value_size q ≤ zlen b →
  flags ≠ BPF_ANY → flags ≠ BPF_EXIST →
  (∃ q', elem_update q None (Some b) flags = (Ok tt, q') ∧ get_current_size q' = zlen l + 1) ∧
  map_push_elem q (Some b) flags = (Err EINVAL, q).
Proof.
  intros Hr Hlt Hb Ha He. split.
  - unfold elem_update, is_full. rewrite (qr_count _ _ Hr).
    destruct (Z.leb_spec (qm_max_entries q) (zlen l)); [lia|].
    destruct (queue_append q l (Some b) (take (Z.to_nat (qm_value_size q)) b)) as (q'&Hq&Hr'&_);
      [done..|by apply from_user_Some; destruct Hr; lia|].
    exists q'. split; [done|]. unfold get_current_size. by rewrite (qr_count _ _ Hr'), zlen_snoc.
  - unfold map_push_elem. unfold BPF_ANY, BPF_EXIST in *.
    by rewrite !(proj2 (Z.eqb_neq _ _)) by done.
Qed.

Lemma queue_update_ignores_flags_witness :
  ∃ q, queue_map_create 1 2 = Ok q ∧ map_push_elem q (Some [9]) 77 = (Err EINVAL, q).
Proof.
  eexists. split; [reflexivity|].
  apply (queue_update_ignores_flags _ [] [9] 77).
  - apply (queue_create_rep 1 2); (lia || reflexivity).
  - reflexivity.
  - vm_compute. done.
  - done.
  - done.
Defined.
