(* ===== verification/StackMap.v ===== *)
(** * Stack maps

    [stack_map_impl] (runtime/src/bpf_map/userspace/stack.cpp): the values one after the other in
    a byte vector, oldest first.  The abstract stack is the list of values, newest first. *)

From stdpp Require Import base numbers list.
From S2P Require Import Prelude.
From S2P Require Import PushPop.

Record stack_map_impl := StackMapImpl {
  sm_value_size : Z;
  sm_max_entries : Z;
  sm_data : list Z
}.

Definition stack_map_create (value_size max_entries : Z) : res stack_map_impl :=
  if (value_size =? 0) || (max_entries =? 0) then Throw
  else Ok {| sm_value_size := value_size; sm_max_entries := max_entries; sm_data := [] |}.

Definition set_data (s : stack_map_impl) (d : list Z) : stack_map_impl :=
  {| sm_value_size := sm_value_size s; sm_max_entries := sm_max_entries s; sm_data := d |}.

Definition get_current_size (s : stack_map_impl) : Z := zlen (sm_data s) / sm_value_size s.
Definition is_full (s : stack_map_impl) : bool := sm_max_entries s <=? get_current_size s.
Definition is_empty (s : stack_map_impl) : bool := bool_decide (sm_data s = []).

(** [data.erase(data.begin(), data.begin() + _value_size)] *)
Definition erase_front (s : stack_map_impl) : res unit * stack_map_impl :=
  if zlen (sm_data s) <? sm_value_size s then (Fault, s)
  else (Ok tt, set_data s (drop (Z.to_nat (sm_value_size s)) (sm_data s))).
(** [data.erase(data.end() - _value_size, data.end())] *)
Definition erase_back (s : stack_map_impl) : res unit * stack_map_impl :=
  if zlen (sm_data s) <? sm_value_size s then (Fault, s)
  else (Ok tt, set_data s (take (Z.to_nat (zlen (sm_data s) - sm_value_size s)) (sm_data s))).
(** [data.insert(data.end(), value_bytes, value_bytes + _value_size)] *)
Definition insert_back (s : stack_map_impl) (value : uptr) : res unit * stack_map_impl :=
  match from_user value (sm_value_size s) with
  | None => (Fault, s)
  | Some bs => (Ok tt, set_data s (sm_data s ++ bs))
  end.

Definition top_offset (s : stack_map_impl) : Z := u64 ((get_current_size s - 1) * sm_value_size s).

(** A pointer to the top element, as its offset in [data]. *)
Definition elem_lookup (s : stack_map_impl) (key : uptr) : res Z :=
  if is_empty s then Err ENOENT else Ok (top_offset s).

(** The part [elem_update] and [map_push_elem] share: evict the oldest value when the stack is
    full and the flags say so, then append. *)
Definition push_body (s : stack_map_impl) (value : uptr) (flags : Z) : res unit * stack_map_impl :=
  if is_full s then
    if flags =? BPF_EXIST then
      match erase_front s with
      | (Ok _, s') => insert_back s' value
      | r => r
      end
    else (Err E2BIG, s)
  else insert_back s value.

Definition elem_update (s : stack_map_impl) (key value : uptr) (flags : Z)
  : res unit * stack_map_impl :=
  match value with
  | None => (Err EINVAL, s)
  | Some _ => push_body s value flags
  end.

Definition elem_delete (s : stack_map_impl) (key : uptr) : res unit * stack_map_impl :=
  if is_empty s then (Err ENOENT, s) else erase_back s.

Definition map_get_next_key (s : stack_map_impl) (key : uptr) : res (list Z) := Err EINVAL.

Definition map_push_elem (s : stack_map_impl) (value : uptr) (flags : Z)
  : res unit * stack_map_impl :=
  match value with
  | None => (Err EINVAL, s)
  | Some _ =>
      if negb (flags =? 0) && negb (flags =? BPF_ANY) && negb (flags =? BPF_EXIST)
      then (Err EINVAL, s)
      else push_body s value flags
  end.

Definition map_pop_elem (s : stack_map_impl) (out : bool) : res (list Z) * stack_map_impl :=
  if negb out then (Err EINVAL, s)
  else if is_empty s then (Err ENOENT, s)
  else match vread (sm_data s) (top_offset s) (sm_value_size s) with
       | None => (Fault, s)
       | Some bs => let '(r, s') := erase_back s in (res_map (λ _, bs) r, s')
       end.

Definition map_peek_elem (s : stack_map_impl) (out : bool) : res (list Z) :=
  if negb out then Err EINVAL
  else if is_empty s then Err ENOENT
  else match vread (sm_data s) (top_offset s) (sm_value_size s) with
       | None => Fault
       | Some bs => Ok bs
       end.

#[export] Instance stack_push_pop : PushPopMap stack_map_impl := {
  pp_update := elem_update;
  pp_delete := elem_delete;
  pp_push := map_push_elem;
  pp_pop := map_pop_elem;
  pp_peek := map_peek_elem
}.

(** ** Representation *)

(** The stack [l], newest first, is in the buffer; the buffer stays below 2^64 bytes. *)
Record stack_sim (vs cap : Z) (s : stack_map_impl) (l : list (list Z)) : Prop := {
  ss_vs : sm_value_size s = vs;
  ss_cap : sm_max_entries s = cap;
  ss_pos : 0 < vs ∧ 0 < cap ∧ cap * vs < 2 ^ 64;
  ss_data : sm_data s = concat (reverse l);
  ss_len : Forall (λ x, zlen x = vs) l;
  ss_bound : zlen l ≤ cap
}.

(** ** Lemmas *)

Lemma concat_zlen vs (l : list (list Z)) :
  Forall (λ x, zlen x = vs) l → zlen (concat l) = zlen l * vs.
Proof.
  induction 1 as [|x l Hx _ IH]; [done|]. cbn [concat]. rewrite zlen_app, zlen_cons, IH, Hx. lia.
Qed.

Lemma stack_zlen vs cap s l : stack_sim vs cap s l → zlen (sm_data s) = zlen l * vs.
Proof.
  intros []. rewrite ss_data0, (concat_zlen vs).
  - unfold zlen. by rewrite length_reverse.
  - by apply Forall_reverse.
Qed.

Lemma stack_size vs cap s l : stack_sim vs cap s l → get_current_size s = zlen l.
Proof.
  intros Hs. unfold get_current_size. rewrite (stack_zlen _ _ _ _ Hs). destruct Hs.
  rewrite ss_vs0. apply Z.div_mul. lia.
Qed.

Lemma stack_is_empty vs cap s l :
  stack_sim vs cap s l → is_empty s = match l with [] => true | _ => false end.
Proof.
  intros Hs. pose proof (stack_zlen _ _ _ _ Hs) as Hz. unfold is_empty.
  destruct l as [|x l].
  - destruct Hs. by rewrite ss_data0.
  - apply bool_decide_false. intros He. rewrite He, zlen_cons, zlen_nil in Hz.
    pose proof (zlen_nonneg l). destruct Hs. nia.
Qed.

Lemma concat_snoc {A} (ls : list (list A)) x : concat (ls ++ [x]) = concat ls ++ x.
Proof. rewrite concat_app. simpl. by rewrite app_nil_r. Qed.

Lemma stack_top vs cap s x l :
  stack_sim vs cap s (x :: l) → vread (sm_data s) (top_offset s) (sm_value_size s) = Some x.
Proof.
  intros Hs. unfold top_offset. rewrite (stack_size _ _ _ _ Hs).
  pose proof (zlen_nonneg l). pose proof (stack_zlen _ _ _ _ Hs) as Hz. destruct Hs.
  apply Forall_cons in ss_len0 as [Hx Hl]. rewrite zlen_cons in *.
  assert (Hd : zlen (concat (reverse l)) = zlen l * vs).
  { rewrite (concat_zlen vs) by (by apply Forall_reverse). unfold zlen. by rewrite length_reverse. }
  rewrite ss_vs0, u64_small by nia.
  replace ((zlen l + 1 - 1) * vs) with (zlen l * vs) by lia.
  rewrite vread_Some by nia. rewrite ss_data0, reverse_cons, concat_snoc. f_equal.
  unfold zlen in *. rewrite drop_app_length' by lia. by rewrite take_ge by lia.
Qed.

Lemma stack_erase_back vs cap s x l :
  stack_sim vs cap s (x :: l) → ∃ s', erase_back s = (Ok tt, s') ∧ stack_sim vs cap s' l.
Proof.
  intros Hs. pose proof (stack_zlen _ _ _ _ Hs) as Hz. unfold erase_back.
  pose proof (zlen_nonneg l). destruct Hs. rewrite zlen_cons in *.
  apply Forall_cons in ss_len0 as [Hx Hl]. rewrite ss_vs0.
  destruct (Z.ltb_spec (zlen (sm_data s)) vs); [nia|]. eexists. split; [done|].
  split; simpl; try (done || lia). rewrite Hz, ss_data0, reverse_cons, concat_snoc.
  assert (Hd : zlen (concat (reverse l)) = zlen l * vs).
  { rewrite (concat_zlen vs) by (by apply Forall_reverse). unfold zlen. by rewrite length_reverse. }
  apply take_app_length'. unfold zlen in *. lia.
Qed.

Lemma stack_erase_front vs cap s l :
  stack_sim vs cap s l → l ≠ [] →
  ∃ s', erase_front s = (Ok tt, s') ∧ stack_sim vs cap s' (removelast l).
Proof.
  intros Hs Hne. pose proof (stack_zlen _ _ _ _ Hs) as Hz. unfold erase_front. destruct Hs.
  destruct (exists_last Hne) as (l'&x&->). rewrite zlen_snoc in *. pose proof (zlen_nonneg l').
  apply Forall_app in ss_len0 as [Hl Hx]. apply Forall_cons in Hx as [Hx _]. rewrite ss_vs0.
  destruct (Z.ltb_spec (zlen (sm_data s)) vs); [nia|]. eexists. split; [done|].
  rewrite removelast_last. split; simpl; try (done || lia).
  rewrite ss_data0, reverse_snoc. cbn [concat]. rewrite <- Hx. unfold zlen. rewrite Nat2Z.id.
  apply drop_app_length.
Qed.

Lemma stack_insert_back vs cap s l b :
  stack_sim vs cap s l → zlen l < cap → vs ≤ zlen b →
  simulates (stack_sim vs cap) (insert_back s (Some b)) (Ok tt, take (Z.to_nat vs) b :: l).
Proof.
  intros [] Hlt Hb. unfold insert_back. rewrite ss_vs0, from_user_Some by lia.
  eexists. split; [done|]. split; [|done]. split; simpl; try (done || lia).
  - by rewrite ss_data0, reverse_cons, concat_snoc.
  - constructor; [|done]. unfold zlen in *. rewrite length_take. lia.
  - rewrite zlen_cons. lia.
Qed.

Lemma stack_push_body vs cap s l b flags :
  stack_sim vs cap s l → vs ≤ zlen b →
  simulates (stack_sim vs cap) (push_body s (Some b) flags) (spec_push lifo vs cap l (Some b) flags).
Proof.
  intros Hs Hb. unfold push_body, spec_push, is_full.
  rewrite (stack_size _ _ _ _ Hs), (ss_cap _ _ _ _ Hs), from_user_Some
    by (destruct (ss_pos _ _ _ _ Hs); lia).
  destruct (Z.leb_spec cap (zlen l)); [|by apply stack_insert_back].
  destruct (flags =? BPF_EXIST); [|by exists s].
  assert (Hne : l ≠ []).
  { intros ->. rewrite zlen_nil in *. destruct (ss_pos _ _ _ _ Hs). lia. }
  destruct (stack_erase_front _ _ _ _ Hs Hne) as (s'&->&Hs'). apply stack_insert_back; [done| |done].
  pose proof (ss_bound _ _ _ _ Hs). destruct (exists_last Hne) as (l'&x&->).
  cbn [d_evict lifo]. rewrite removelast_last. rewrite zlen_snoc in *. lia.
Qed.

Lemma stack_run_refines vs cap s l ops :
  stack_sim vs cap s l → Forall (op_ok vs) ops →
  pp_run s ops = pp_run (H := spec_push_pop lifo vs cap) l ops ∧ Forall safe (pp_run s ops).
Proof.
  apply run_simulates; clear.
  - intros s l [b|] f Hs Hok; [by apply stack_push_body|by exists s].
  - intros s l Hs. simpl. unfold elem_delete. rewrite (stack_is_empty _ _ _ _ Hs).
    destruct l as [|x l]; [by exists s|].
    destruct (stack_erase_back _ _ _ _ _ Hs) as (s'&->&Hs'). by exists s'.
  - intros s l [b|] f Hs Hok; simpl; [|by exists s]. rewrite push_flags_spec.
    case_bool_decide; cbn [negb]; [by apply stack_push_body|by exists s].
  - intros s l out Hs. simpl. unfold map_pop_elem. rewrite (stack_is_empty _ _ _ _ Hs).
    destruct out; cbn [negb]; [|by exists s]. destruct l as [|x l]; [by exists s|].
    rewrite (stack_top _ _ _ _ _ Hs).
    destruct (stack_erase_back _ _ _ _ _ Hs) as (s'&->&Hs'). by exists s'.
  - intros s l out Hs. simpl. unfold map_peek_elem. rewrite (stack_is_empty _ _ _ _ Hs).
    destruct out; cbn [negb]; [|done]. destruct l as [|x l]; [done|].
    by rewrite (stack_top _ _ _ _ _ Hs).
Qed.

(** ** Properties *)

(** C19 (refinement). A stack map whose capacity fits 64-bit sizes answers every sequence of
    updates, deletes, pushes, pops and peeks as the bounded LIFO stack does that is the list of
    its values: pop and peek hand out the newest value, a push or update with [BPF_EXIST] on a full
    stack drops the oldest, any other one on a full stack is refused with [E2BIG]; a push with other
    flags is refused with [EINVAL], while an update accepts any flags (the comment of elem_update
    has [EINVAL] for them, and [EBUSY] for a full stack); and no operation leaves the buffer. *)
Theorem stack_refines_lifo vs n s ops :
  0 < vs → 0 < n → n * vs < 2 ^ 64 →
  stack_map_create vs n = Ok s → Forall (op_ok vs) ops →
  pp_run s ops = pp_run (H := spec_push_pop lifo vs n) [] ops ∧ Forall safe (pp_run s ops).
Proof.
  intros Hv Hn Hb Hc Hok. apply (stack_run_refines vs n); [|done].
  unfold stack_map_create in Hc. destruct (_ || _); [done|]. inversion Hc; subst.
  split; simpl; rewrite ?zlen_nil; (done || constructor || lia).
Qed.

Definition ex_stack_ops : list pp_op :=
  [PPush (Some [1]) BPF_ANY; PPush (Some [2]) BPF_ANY; PUpdate (Some [3]) BPF_ANY;
   PPush (Some [4]) BPF_EXIST; PPop true; PPop true; PPop true; PPeek false].

Lemma stack_refines_lifo_witness :
  ∃ s, stack_map_create 1 2 = Ok s ∧
    pp_run s ex_stack_ops =
      [Ok []; Ok []; Err E2BIG; Ok []; Ok [4]; Ok [2]; Err ENOENT; Err EINVAL].
Proof.
  eexists. split; [reflexivity|].
  destruct (stack_refines_lifo 1 2 _ ex_stack_ops ltac:(lia) ltac:(lia) ltac:(lia) eq_refl) as [H _].
  - repeat constructor; vm_compute; done.
  - rewrite H. reflexivity.
Defined.
