(* ===== verification/KvMap.v ===== *)
(** * Key-value maps: the interface of the lookup, update and delete operations

    The operations that [bpf_map_handler] calls on a map of any type
    (runtime/src/handler/map_handler.cpp), as a class with one instance per implementation and one
    per abstract map, and the step from operations to sequences of operations. *)

From stdpp Require Import base numbers list.
From S2P Require Import Prelude.

(** A lookup may change the state of the map (the order of an LRU map does). *)
Class KvMap (T : Type) := {
  kv_lookup : T → uptr → res (list Z) * T;
  kv_update : T → uptr → uptr → Z → res unit * T;
  kv_delete : T → uptr → res unit * T
}.

Inductive kv_op :=
  | KLookup (key : uptr)
  | KUpdate (key value : uptr) (flags : Z)
  | KDelete (key : uptr).

(** The answer to an operation, with the bytes a lookup points to. *)
Definition kv_step {T} `{KvMap T} (s : T) (op : kv_op) : res (list Z) * T :=
  match op with
  | KLookup k => kv_lookup s k
  | KUpdate k v f => let '(r, s') := kv_update s k v f in (res_map (λ _, []) r, s')
  | KDelete k => let '(r, s') := kv_delete s k in (res_map (λ _, []) r, s')
  end.

(** The answers to a sequence of operations, and the state it ends in. *)
Fixpoint kv_run {T} `{KvMap T} (s : T) (ops : list kv_op) : list (res (list Z)) * T :=
  match ops with
  | [] => ([], s)
  | op :: ops => let '(r, s') := kv_step s op in let '(rs, s'') := kv_run s' ops in (r :: rs, s'')
  end.

(** The caller's buffers hold a whole key and a whole value. *)
Definition kv_op_ok (ks vs : Z) (op : kv_op) : Prop :=
  match op with
  | KLookup k | KDelete k => match k with Some b => ks ≤ zlen b | None => True end
  | KUpdate k v _ => match k with Some b => ks ≤ zlen b | None => True end ∧
                     match v with Some b => vs ≤ zlen b | None => True end
  end.

Section simulation.
Context {T T' : Type} `{KvMap T} `{KvMap T'}.
(** The implementation's state represents the abstract one; operations the caller may make. *)
Variables (R : T → T' → Prop) (ok : kv_op → Prop).

(** Equal answers, related states. *)
Definition kv_sim {A} (x : res A * T) (y : res A * T') : Prop := x.1 = y.1 ∧ R x.2 y.2.

Lemma kv_run_sim :
  (∀ s t op, R s t → ok op → kv_sim (kv_step s op) (kv_step t op)) →
  ∀ ops s t, R s t → Forall ok ops →
    (kv_run s ops).1 = (kv_run t ops).1 ∧ R (kv_run s ops).2 (kv_run t ops).2.
Proof.
  intros Hstep. induction ops as [|op ops IH]; intros s t HR Hok; [done|].
  apply Forall_cons in Hok as [Hop Hops]. cbn [kv_run].
  destruct (Hstep s t op HR Hop) as [Hr HR'].
  destruct (kv_step s op) as [r s'], (kv_step t op) as [r' t']. simpl in *. subst r'.
  destruct (IH _ _ HR' Hops) as [Hrs HR''].
  destruct (kv_run s' ops), (kv_run t' ops). simpl in *. by subst.
Qed.

(** A step is simulated when each of the three operations is. *)
Lemma kv_step_sim s t op :
  (∀ k, op = KLookup k → kv_sim (kv_lookup s k) (kv_lookup t k)) →
  (∀ k v f, op = KUpdate k v f → kv_sim (kv_update s k v f) (kv_update t k v f)) →
  (∀ k, op = KDelete k → kv_sim (kv_delete s k) (kv_delete t k)) →
  kv_sim (kv_step s op) (kv_step t op).
Proof.
  intros Hl Hu Hd. destruct op as [k|k v f|k]; cbn [kv_step].
  - by apply Hl.
  - destruct (Hu k v f eq_refl) as [Hr HR]. destruct (kv_update s k v f), (kv_update t k v f).
    simpl in *. by subst.
  - destruct (Hd k eq_refl) as [Hr HR]. destruct (kv_delete s k), (kv_delete t k).
    simpl in *. by subst.
Qed.
End simulation.
