(* ===== verification/UnorderedMap.v ===== *)
(** * The interface of boost::unordered_map

    The hash table of the Boost library is not part of the sources. Its clients are written against
    the class [UnorderedMap], the operations they use with byte-vector keys, and their theorems are
    proved from [UnorderedMapLaws], the documented behaviour: a finite map, with an iteration order
    that visits every key once and that nothing else is known of. Finite maps of stdpp are an
    instance. *)

From stdpp Require Import base numbers list gmap.
From S2P Require Import Prelude.

Class UnorderedMap (V U : Type) := {
  um_empty : U;
  um_find : U → list Z → option V;
  (** [insert_or_assign(key, value)] *)
  um_assign : U → list Z → V → U;
  (** [insert] and [emplace]: nothing when the key is there *)
  um_insert : U → list Z → V → U;
  um_erase : U → list Z → U;
  (** the keys from [begin()] to [end()] *)
  um_keys : U → list (list Z)
}.

Class UnorderedMapLaws (V U : Type) `{UnorderedMap V U} : Prop := {
  um_find_empty k : um_find um_empty k = None;
  um_find_assign u k v k' : um_find (um_assign u k v) k' = if decide (k = k') then Some v else um_find u k';
  um_find_insert u k v k' :
    um_find (um_insert u k v) k' =
    match um_find u k with
    | Some _ => um_find u k'
    | None => if decide (k = k') then Some v else um_find u k'
    end;
  um_find_erase u k k' : um_find (um_erase u k) k' = if decide (k = k') then None else um_find u k';
  um_keys_NoDup u : NoDup (um_keys u);
  um_keys_find u k : k ∈ um_keys u ↔ is_Some (um_find u k)
}.

(** The keys reported by following a [map_get_next_key] from [key], at most [n] of them. *)
Fixpoint iterate (next : uptr → res (list Z)) (key : uptr) (n : nat) : list (list Z) :=
  match n with
  | O => []
  | S n => match next key with Ok k => k :: iterate next (Some k) n | _ => [] end
  end.

Lemma iterate_ext f f' key n : (∀ key, f key = f' key) → iterate f key n = iterate f' key n.
Proof.
  intros He. revert key. induction n as [|n IH]; intros key; [done|]. cbn [iterate]. rewrite He.
  destruct (f' key); by rewrite ?IH.
Qed.

Section unordered_map.
Context {V U : Type} `{UnorderedMapLaws V U}.
Implicit Types (u : U) (k : list Z).

Definition um_size u : Z := zlen (um_keys u).

(** The key after [k] in a list. *)
Fixpoint key_after (k : list Z) (l : list (list Z)) : option (list Z) :=
  match l with
  | [] => None
  | x :: l' => if decide (x = k) then head l' else key_after k l'
  end.

(** The iteration step that the maps built on the table share: the first key when [key] is null or
    not in the table, else the next one; [ENOENT] at the end. *)
Definition um_next_key u (ks : Z) (key : uptr) : res (list Z) :=
  let first := match head (um_keys u) with Some k => Ok k | None => Err ENOENT end in
  match key with
  | None => first
  | Some _ =>
      match from_user key ks with
      | None => Fault
      | Some k =>
          match um_find u k with
          | None => first
          | Some _ => match key_after k (um_keys u) with Some k' => Ok k' | None => Err ENOENT end
          end
      end
  end.

(** ** The finite map of a table *)

Definition um_rep u (g : gmap (list Z) V) : Prop := ∀ k, um_find u k = g !! k.

Lemma um_rep_empty : um_rep um_empty ∅.
Proof. intros k. by rewrite um_find_empty, lookup_empty. Qed.

Lemma um_rep_assign u g k v : um_rep u g → um_rep (um_assign u k v) (<[k := v]> g).
Proof.
  intros Hr k'. rewrite um_find_assign. case_decide as E; [subst; by rewrite lookup_insert_eq|].
  by rewrite lookup_insert_ne, Hr by done.
Qed.

Lemma um_rep_insert u g k v : um_rep u g → g !! k = None → um_rep (um_insert u k v) (<[k := v]> g).
Proof.
  intros Hr Hk k'. rewrite um_find_insert, Hr, Hk. case_decide as E; [subst; by rewrite lookup_insert_eq|].
  by rewrite lookup_insert_ne, Hr by done.
Qed.

Lemma um_rep_erase u g k : um_rep u g → um_rep (um_erase u k) (delete k g).
Proof.
  intros Hr k'. rewrite um_find_erase. case_decide as E; [subst; by rewrite lookup_delete_eq|].
  by rewrite lookup_delete_ne, Hr by done.
Qed.

Lemma um_rep_keys u g : um_rep u g → (list_to_set (um_keys u) : gset (list Z)) = dom g.
Proof.
  intros Hr. apply set_eq. intros k. by rewrite elem_of_list_to_set, um_keys_find, Hr, elem_of_dom.
Qed.

Lemma um_rep_size u g : um_rep u g → um_size u = Z.of_nat (size g).
Proof.
  intros Hr. unfold um_size, zlen. f_equal.
  rewrite <- (size_list_to_set (C := gset (list Z)) (um_keys u)) by apply um_keys_NoDup.
  by rewrite (um_rep_keys u g Hr), size_dom.
Qed.

(** ** Iteration *)

Lemma key_after_app l k l' : NoDup (l ++ k :: l') → key_after k (l ++ k :: l') = head l'.
Proof.
  induction l as [|x l IH]; simpl; intros Hnd.
  - by rewrite decide_True.
  - apply NoDup_cons in Hnd as [Hx Hnd]. rewrite decide_False; [auto|]. intros ->. set_solver.
Qed.

Lemma um_next_key_after u ks l k l' :
  um_keys u = l ++ k :: l' → zlen k = ks →
  um_next_key u ks (Some k) = match head l' with Some k' => Ok k' | None => Err ENOENT end.
Proof.
  intros Hl Hk. unfold um_next_key. rewrite from_user_exact by done.
  assert (k ∈ um_keys u) as [v ->]%um_keys_find by (rewrite Hl; set_solver).
  pose proof (um_keys_NoDup u) as Hnd. rewrite Hl in Hnd |- *. by rewrite key_after_app.
Qed.

Lemma um_iterate_from u ks l k l' n :
  um_keys u = l ++ k :: l' → (length l' < n)%nat →
  (∀ k, k ∈ um_keys u → zlen k = ks) → iterate (um_next_key u ks) (Some k) n = l'.
Proof.
  revert l k l'. induction n as [|n IH]; intros l k l' Hl Hn Hall; [lia|]. cbn [iterate].
  rewrite (um_next_key_after u ks l k l') by (done || (apply Hall; rewrite Hl; set_solver)).
  destruct l' as [|k' l']; [done|]. simpl head. cbn iota. f_equal. apply (IH (l ++ [k])); [|simpl in Hn; lia|done].
  by rewrite Hl, <- app_assoc.
Qed.

(** Iterating from a null key reports every key of the table, each once, and ends. *)
Lemma um_iterate_all u ks n :
  (∀ k, k ∈ um_keys u → zlen k = ks) → (length (um_keys u) < n)%nat →
  iterate (um_next_key u ks) None n = um_keys u.
Proof.
  intros Hall Hn. destruct n as [|n]; [lia|]. cbn [iterate]. unfold um_next_key at 1.
  destruct (um_keys u) as [|k l] eqn:Hl; [done|]. cbn [head]. f_equal.
  apply (um_iterate_from u ks []); [done|simpl in Hn; lia|by rewrite Hl].
Qed.
End unordered_map.

(** ** An instance: finite maps, in the order of their elements *)

#[export] Instance gmap_um V : UnorderedMap V (gmap (list Z) V) := {
  um_empty := ∅;
  um_find g k := g !! k;
  um_assign g k v := <[k := v]> g;
  um_insert g k v := match g !! k with Some _ => g | None => <[k := v]> g end;
  um_erase g k := delete k g;
  um_keys g := (map_to_list g).*1
}.

#[export] Instance gmap_um_laws V : UnorderedMapLaws V (gmap (list Z) V).
Proof.
  split; simpl.
  - intros. apply lookup_empty.
  - intros. apply lookup_insert.
  - intros u k v k'. destruct (u !! k); [done|]. apply lookup_insert.
  - intros. apply lookup_delete.
  - intros. apply NoDup_fst_map_to_list.
  - intros u k. rewrite list_elem_of_fmap. split.
    + intros ([k' v]&->&Hin%elem_of_map_to_list). by eexists.
    + intros [v Hv]. exists (k, v). split; [done|]. by apply elem_of_map_to_list.
Qed.
