(* ===== verification/StackTrace.v ===== *)
(** * Stack trace maps

    [stack_trace_map_impl] (runtime/src/bpf_map/userspace/stack_trace_map.cpp): traces (vectors of
    addresses) filed under a hash of them. The table has 32-bit keys; the key of a trace is the byte
    vector of its number, since the table interface is one of byte vectors and only lookups,
    insertions and deletions are used here. [boost::hash_combine] is a parameter. *)

From stdpp Require Import base numbers list gmap.
From S2P Require Import Prelude.
From S2P Require Import UnorderedMap.

Section stack_trace.
Context {U : Type} `{UnorderedMap (list Z) U}.
(** [boost::hash_combine]: the new seed. *)
Variable hash_combine : Z → Z → Z.

Definition hash_stack_trace (stk : list Z) : Z := u64 (foldl hash_combine (hash_combine 0 (zlen stk)) stk).

Record stack_trace_map_impl := StackTraceMap {
  st_max_stack_entries : Z;
  st_max_entries : Z;
  st_data : U;
  st_key_buf : list Z
}.

Definition stack_trace_create (key_size value_size max_entries : Z) : res stack_trace_map_impl :=
  if negb (key_size =? 4) then Throw
  else if negb (value_size mod 8 =? 0) then Throw
  else Ok (StackTraceMap (value_size / 8) max_entries um_empty (replicate (Z.to_nat (value_size / 8)) 0)).

(** The table key of a number. *)
Definition st_key (n : Z) : list Z := le_store 4 (u32 n).

Definition elem_lookup (m : stack_trace_map_impl) (key : uptr) : res (list Z) :=
  match key with
  | None => Err EINVAL
  | Some _ =>
      match load_s32 key with
      | None => Fault
      | Some k =>
          match um_find (st_data m) (st_key (u32 k)) with
          | None => Err ENOENT
          | Some stk => Ok stk
          end
      end
  end.

(** It returns [-ENOTSUP]. *)
Definition elem_update (m : stack_trace_map_impl) (key value : uptr) (flags : Z) : res unit := Raw (- errno_val ENOTSUP).

Definition with_traces (m : stack_trace_map_impl) (u : U) : stack_trace_map_impl :=
  StackTraceMap (st_max_stack_entries m) (st_max_entries m) u (st_key_buf m).

Definition elem_delete (m : stack_trace_map_impl) (key : uptr) : res unit * stack_trace_map_impl :=
  match key with
  | None => (Err EINVAL, m)
  | Some _ =>
      match load_s32 key with
      | None => (Fault, m)
      | Some k =>
          match um_find (st_data m) (st_key (u32 k)) with
          | Some _ => (Ok tt, with_traces m (um_erase (st_data m) (st_key (u32 k))))
          | None => (Err ENOENT, m)
          end
      end
  end.

Definition map_get_next_key (m : stack_trace_map_impl) (key : uptr) : res (list Z) := Err ENOTSUP.

(** Whether the trace that is there counts as the same, as the code decides it. *)
Definition same_trace (old stk : list Z) (compare_only_by_hash : bool) : bool :=
  let equals := true in
  if negb compare_only_by_hash then
    let equals := equals && (zlen old =? zlen stk) in
    if negb equals then equals && bool_decide (stk = take (length stk) old) else equals
  else equals.

(** The number is returned as an [int]. *)
Definition fill_stack_trace (m : stack_trace_map_impl) (stk : list Z) (discard_old_one compare_only_by_hash : bool)
  : res Z * stack_trace_map_impl :=
  if st_max_entries m =? 0 then (Fault, m)
  else
    let to_put_hash := hash_stack_trace stk mod st_max_entries m in
    let m := StackTraceMap (st_max_stack_entries m) (st_max_entries m) (st_data m) stk in
    match um_find (st_data m) (st_key to_put_hash) with
    | None => (Ok (s32 to_put_hash), with_traces m (um_insert (st_data m) (st_key to_put_hash) stk))
    | Some old =>
        if same_trace old stk compare_only_by_hash then (Ok (s32 to_put_hash), m)
        else if discard_old_one then (Ok (s32 to_put_hash), with_traces m (um_assign (st_data m) (st_key to_put_hash) stk))
        else (Ok (s32 to_put_hash), m)
    end.
End stack_trace.

(** ** Lemmas *)

Lemma st_key_inj a b : 0 ≤ a < 2 ^ 32 → 0 ≤ b < 2 ^ 32 → st_key a = st_key b → a = b.
Proof.
  intros Ha Hb He. apply (f_equal le_load) in He. unfold st_key in He. rewrite !le_load_store in He.
  rewrite !u32_small in He by done. change (256 ^ Z.of_nat 4) with (2 ^ 32) in He. by rewrite !Z.mod_small in He.
Qed.

Lemma same_trace_eq old stk by_hash : same_trace old stk by_hash = by_hash || (zlen old =? zlen stk).
Proof. unfold same_trace. destruct by_hash; [done|]. simpl. by destruct (zlen old =? zlen stk). Qed.

Section props.
Context {U : Type} `{UnorderedMapLaws (list Z) U}.
Variable hash_combine : Z → Z → Z.

Lemma lookup_key32 (m : stack_trace_map_impl (U := U)) k : 0 ≤ k < 2 ^ 31 →
  elem_lookup m (key32 k) = match um_find (st_data m) (st_key k) with Some s => Ok s | None => Err ENOENT end.
Proof.
  intros Hk. unfold elem_lookup. change (key32 k) with (Some (le_store 4 k)) at 1.
  rewrite load_s32_key32, u32_small by lia. done.
Qed.

(** The number of a trace. *)
Definition trace_id (m : stack_trace_map_impl (U := U)) (stk : list Z) : Z := hash_stack_trace hash_combine stk mod st_max_entries m.

(** What is filed under a number after [fill_stack_trace]. *)
Definition filed (m : stack_trace_map_impl (U := U)) (stk : list Z) (discard by_hash : bool) : list Z :=
  match um_find (st_data m) (st_key (trace_id m stk)) with
  | None => stk
  | Some old => if by_hash || (zlen old =? zlen stk) then old else if discard then stk else old
  end.

Lemma fill_find m stk discard by_hash : 0 < st_max_entries m →
  let '(r, m') := fill_stack_trace hash_combine m stk discard by_hash in
  r = Ok (s32 (trace_id m stk)) ∧
  (∀ k, um_find (st_data m') k =
    if decide (st_key (trace_id m stk) = k) then Some (filed m stk discard by_hash) else um_find (st_data m) k) ∧
  st_max_entries m' = st_max_entries m.
Proof using All.
  intros Hm. unfold fill_stack_trace, filed. rewrite (proj2 (Z.eqb_neq _ 0)) by lia. cbn [st_data].
  fold (trace_id m stk). destruct (um_find (st_data m) (st_key (trace_id m stk))) as [old|] eqn:E.
  - rewrite same_trace_eq. destruct (by_hash || _) eqn:Es; [|destruct discard].
    + split; [done|]. split; [|done]. intros k. simpl. case_decide; by subst.
    + split; [done|]. split; [|done]. intros k. simpl. apply um_find_assign.
    + split; [done|]. split; [|done]. intros k. simpl. case_decide; by subst.
  - split; [done|]. split; [|done]. intros k. simpl. by rewrite um_find_insert, E.
Qed.
End props.

(** ** Properties *)

(** [fill_stack_trace] returns the number of the trace, and a lookup of that number
    gives the new trace when the number was free, or when the old trace has another length, is not
    compared by hash only and is to be discarded; the other numbers keep their traces. In a map of
    up to 2^31 entries. *)
Theorem stack_trace_fill {U} `{UnorderedMapLaws (list Z) U} hc m stk discard by_hash j :
  0 < st_max_entries m ≤ 2 ^ 31 → 0 ≤ j < 2 ^ 31 →
  let i := trace_id hc m stk in
  let f := fill_stack_trace hc m stk discard by_hash in
  f.1 = Ok i ∧ elem_lookup f.2 (key32 i) = Ok (filed hc m stk discard by_hash) ∧
  (j ≠ i → elem_lookup f.2 (key32 j) = elem_lookup m (key32 j)).
Proof.
  intros Hm Hj i f. unfold f. pose proof (fill_find hc m stk discard by_hash ltac:(lia)) as Hf.
  assert (Hi : 0 ≤ i < 2 ^ 31) by (unfold i, trace_id; pose proof (Z.mod_pos_bound (hash_stack_trace hc stk) (st_max_entries m)); lia).
  destruct (fill_stack_trace hc m stk discard by_hash) as [r m']. destruct Hf as (->&Hf&_). fold i in Hf |- *. cbn [fst snd].
  rewrite s32_small by done. split; [done|]. rewrite !lookup_key32, !Hf by lia. rewrite decide_True by done. split; [done|].
  intros Hne. rewrite decide_False; [done|]. intros He. apply Hne. symmetry. by apply st_key_inj; [lia..|].
Qed.

(** A hash with collisions. *)
Definition demo_hash (seed x : Z) : Z := seed.
Definition demo_traces : stack_trace_map_impl (U := gmap (list Z) (list Z)) :=
  StackTraceMap 4 8 (<[st_key 0 := [1; 2]]> ∅) [].

Lemma stack_trace_fill_witness :
  let f := fill_stack_trace demo_hash demo_traces [1; 2; 3] true false in
  f.1 = Ok 0 ∧ elem_lookup f.2 (key32 0) = Ok [1; 2; 3] ∧
  (5 ≠ 0 → elem_lookup f.2 (key32 5) = elem_lookup demo_traces (key32 5)).
Proof.
  pose proof (stack_trace_fill demo_hash demo_traces [1; 2; 3] true false 5) as W. cbn zeta in W.
  assert (Hi : trace_id demo_hash demo_traces [1; 2; 3] = 0) by (vm_compute; done).
  assert (Hf : filed demo_hash demo_traces [1; 2; 3] true false = [1; 2; 3]) by (vm_compute; done).
  rewrite Hi, Hf in W. apply W; simpl; lia.
Defined.

(** Traces of the same length are never compared: when the number of a trace is taken by
    another trace of its length, the new one is not filed, whatever the caller asked for, and a
    lookup of the number that was returned gives the other trace. *)
Theorem stack_trace_same_length_lost {U} `{UnorderedMapLaws (list Z) U} hc m stk old discard by_hash :
  0 < st_max_entries m ≤ 2 ^ 31 → elem_lookup m (key32 (trace_id hc m stk)) = Ok old →
  zlen old = zlen stk →
  let f := fill_stack_trace hc m stk discard by_hash in
  f.1 = Ok (trace_id hc m stk) ∧ elem_lookup f.2 (key32 (trace_id hc m stk)) = Ok old.
Proof.
  intros Hm. pose proof (fill_find hc m stk discard by_hash ltac:(lia)) as Hf. set (i := trace_id hc m stk) in *.
  assert (Hi : 0 ≤ i < 2 ^ 31) by (unfold i, trace_id; pose proof (Z.mod_pos_bound (hash_stack_trace hc stk) (st_max_entries m)); lia).
  rewrite lookup_key32 by done. destruct (um_find (st_data m) (st_key i)) as [o|] eqn:E; [|done]. intros [= ->] Hz. cbn zeta.
  destruct (fill_stack_trace hc m stk discard by_hash) as [r m']. destruct Hf as (->&Hf&_). cbn [fst snd].
  rewrite s32_small by done. split; [done|]. rewrite lookup_key32, Hf by done. rewrite decide_True by done.
  unfold filed. fold i. by rewrite E, Hz, Z.eqb_refl, orb_true_r.
Qed.

Lemma stack_trace_same_length_lost_witness :
  let f := fill_stack_trace demo_hash demo_traces [7; 9] true false in
  f.1 = Ok 0 ∧ elem_lookup f.2 (key32 0) = Ok [1; 2].
Proof.
  pose proof (stack_trace_same_length_lost demo_hash demo_traces [7; 9] [1; 2] true false) as W. cbn zeta in W.
  assert (Hi : trace_id demo_hash demo_traces [7; 9] = 0) by (vm_compute; done). rewrite Hi in W.
  apply W; [simpl; lia|vm_compute; done..].
Defined.
