(* ===== verification/VarHashMap.v ===== *)
(** * Hash maps with variable sizes

    [var_size_hash_map_impl] (runtime/src/bpf_map/userspace/var_hash_map.cpp), over the table of
    [UnorderedMap]. The scratch vectors [key_vec] and [value_vec] are assigned before every use, so
    the model passes their contents. *)

From stdpp Require Import base numbers list gmap.
From S2P Require Import Prelude.
From S2P Require Import KvMap.
From S2P Require Import UnorderedMap.

Definition is_good_update_flag (flags : Z) : bool :=
  (flags =? BPF_ANY) || (flags =? BPF_EXIST) || (flags =? BPF_NOEXIST).

Section var_hash.
Context {U : Type} `{UnorderedMap (list Z) U}.

Record var_size_hash_map_impl := VarHashMap {
  vh_map_impl : U;
  vh_key_size : Z;
  vh_value_size : Z;
  vh_max_entries : Z;
  vh_flags : Z
}.

Definition var_hash_create (key_size value_size max_entries flags : Z) : var_size_hash_map_impl :=
  VarHashMap um_empty key_size value_size max_entries flags.

Definition vh_with (m : var_size_hash_map_impl) (u : U) : var_size_hash_map_impl :=
  VarHashMap u (vh_key_size m) (vh_value_size m) (vh_max_entries m) (vh_flags m).

(** The bytes the returned pointer points to. *)
Definition elem_lookup (m : var_size_hash_map_impl) (key : uptr) : res (list Z) :=
  if negb (Z.land (vh_flags m) BPF_F_WRONLY =? 0) then Err EPERM
  else match from_user key (vh_key_size m) with
       | None => Fault
       | Some key_vec =>
           match um_find (vh_map_impl m) key_vec with Some v => Ok v | None => Err ENOENT end
       end.

Definition elem_update (m : var_size_hash_map_impl) (key value : uptr) (flags : Z)
  : res unit * var_size_hash_map_impl :=
  if negb (is_good_update_flag flags) then (Err EINVAL, m)
  else match from_user key (vh_key_size m), from_user value (vh_value_size m) with
       | Some key_vec, Some value_vec =>
           let element_exists := bool_decide (is_Some (um_find (vh_map_impl m) key_vec)) in
           if (flags =? BPF_NOEXIST) && element_exists then (Err EEXIST, m)
           else if (flags =? BPF_EXIST) && negb element_exists then (Err ENOENT, m)
           else if negb element_exists && (um_size (vh_map_impl m) =? vh_max_entries m) then (Err E2BIG, m)
           else if negb element_exists && negb (Z.land (vh_flags m) BPF_F_RDONLY =? 0) then (Err EPERM, m)
           else (Ok tt, vh_with m (um_assign (vh_map_impl m) key_vec value_vec))
       | _, _ => (Fault, m)
       end.

Definition elem_delete (m : var_size_hash_map_impl) (key : uptr) : res unit * var_size_hash_map_impl :=
  match from_user key (vh_key_size m) with
  | None => (Fault, m)
  | Some key_vec =>
      match um_find (vh_map_impl m) key_vec with
      | None => (Err ENOENT, m)
      | Some _ => (Ok tt, vh_with m (um_erase (vh_map_impl m) key_vec))
      end
  end.

(** The bytes written to [value_out]. *)
Definition lookup_and_delete (m : var_size_hash_map_impl) (key : uptr)
  : res (list Z) * var_size_hash_map_impl :=
  match from_user key (vh_key_size m) with
  | None => (Fault, m)
  | Some key_vec =>
      match um_find (vh_map_impl m) key_vec with
      | None => (Err ENOENT, m)
      | Some v =>
          match vread v 0 (vh_value_size m) with
          | Some bs => (Ok bs, vh_with m (um_erase (vh_map_impl m) key_vec))
          | None => (Fault, m)
          end
      end
  end.

Definition map_get_next_key (m : var_size_hash_map_impl) (key : uptr) : res (list Z) :=
  if negb (Z.land (vh_flags m) BPF_F_WRONLY =? 0) then Err EPERM
  else um_next_key (vh_map_impl m) (vh_key_size m) key.

#[export] Instance var_hash_kv : KvMap var_size_hash_map_impl := {
  kv_lookup m k := (elem_lookup m k, m);
  kv_update := elem_update;
  kv_delete := elem_delete
}.
End var_hash.
Arguments var_size_hash_map_impl U : clear implicits.

(** ** The abstract map *)

Section spec.
(** Key and value size, capacity, and what the map's flags allow. *)
Variables (ks vs cap : Z) (readable growable : bool).
Abbreviation bmap := (gmap (list Z) (list Z)).

(** An update of a bounded finite map, by the key's presence. *)
Definition bounded_update (g : bmap) (k v : list Z) (flags : Z) : res unit * bmap :=
  match g !! k with
  | Some _ => if flags =? BPF_NOEXIST then (Err EEXIST, g) else (Ok tt, <[k := v]> g)
  | None =>
      if flags =? BPF_EXIST then (Err ENOENT, g)
      else if Z.of_nat (size g) =? cap then (Err E2BIG, g)
      else if negb growable then (Err EPERM, g)
      else (Ok tt, <[k := v]> g)
  end.

#[export] Instance bounded_kv : KvMap bmap := {
  kv_lookup g key :=
    (if negb readable then Err EPERM
     else match from_user key ks with
          | None => Fault
          | Some k => match g !! k with Some v => Ok v | None => Err ENOENT end
          end, g);
  kv_update g key value flags :=
    if bool_decide (flags ∉ [BPF_ANY; BPF_NOEXIST; BPF_EXIST]) then (Err EINVAL, g)
    else match from_user key ks, from_user value vs with
         | Some k, Some v => bounded_update g k v flags
         | _, _ => (Fault, g)
         end;
  kv_delete g key :=
    match from_user key ks with
    | None => (Fault, g)
    | Some k => match g !! k with Some _ => (Ok tt, delete k g) | None => (Err ENOENT, g) end
    end
}.
End spec.

Lemma good_flag_spec flags :
  negb (is_good_update_flag flags) = bool_decide (flags ∉ [BPF_ANY; BPF_NOEXIST; BPF_EXIST]).
Proof.
  unfold is_good_update_flag, BPF_ANY, BPF_NOEXIST, BPF_EXIST.
  destruct (Z.eqb_spec flags 0), (Z.eqb_spec flags 1), (Z.eqb_spec flags 2); simpl;
    symmetry; (apply bool_decide_eq_true_2 || apply bool_decide_eq_false_2); set_solver.
Qed.

Section refine.
Context {U : Type} `{UnorderedMapLaws (list Z) U}.
Variables (ks vs cap mflags : Z).

(** The table of the map is the finite map, with keys and values of the map's sizes. *)
Record vh_rep (m : var_size_hash_map_impl U) (g : gmap (list Z) (list Z)) : Prop := {
  vh_um : um_rep (vh_map_impl m) g;
  vh_ks : vh_key_size m = ks;
  vh_vs : vh_value_size m = vs;
  vh_cap : vh_max_entries m = cap;
  vh_fl : vh_flags m = mflags;
  vh_keys : ∀ k v, g !! k = Some v → zlen k = ks ∧ zlen v = vs;
  vh_size : Z.of_nat (size g) ≤ cap
}.

Lemma vh_rep_create : 0 ≤ cap → vh_rep (var_hash_create ks vs cap mflags) ∅.
Proof.
  intros. split; simpl; try done. apply um_rep_empty.
Qed.

Lemma vh_rep_assign m g k v :
  vh_rep m g → zlen k = ks → zlen v = vs → is_Some (g !! k) ∨ Z.of_nat (size g) ≠ cap →
  vh_rep (vh_with m (um_assign (vh_map_impl m) k v)) (<[k := v]> g).
Proof.
  intros [] Hk Hv Hfit. split; simpl; try done.
  - by apply um_rep_assign.
  - intros k' v'. rewrite lookup_insert_Some. naive_solver.
  - destruct (g !! k) eqn:E; [rewrite map_size_insert_Some by done; lia|].
    rewrite map_size_insert_None by done. destruct Hfit as [[? ?]|]; [done|lia].
Qed.

Lemma vh_rep_erase m g k :
  vh_rep m g → vh_rep (vh_with m (um_erase (vh_map_impl m) k)) (delete k g).
Proof.
  intros []. split; simpl; try done.
  - by apply um_rep_erase.
  - intros k' v'. rewrite lookup_delete_Some. naive_solver.
  - rewrite map_size_delete. destruct (g !! k); unfold id; lia.
Qed.

Let spec := bounded_kv ks vs cap (Z.land mflags BPF_F_WRONLY =? 0) (Z.land mflags BPF_F_RDONLY =? 0).

Lemma vh_step_sim m g op : vh_rep m g → kv_sim vh_rep (kv_step m op) (kv_step (H := spec) g op).
Proof.
  intros Hr. pose proof Hr as [Hu Hks Hvs Hcap Hfl Hkeys Hsz].
  apply (kv_step_sim (H0 := spec)); intros; subst op;
    cbn [kv_lookup kv_update kv_delete var_hash_kv spec bounded_kv].
  - split; [|done]. cbn [fst]. unfold elem_lookup. rewrite Hks, Hfl.
    destruct (negb _); [done|]. destruct (from_user k ks); [|done]. by rewrite Hu.
  - unfold elem_update, bounded_update. rewrite good_flag_spec, Hks, Hvs, Hcap, Hfl.
    destruct (bool_decide _); [done|].
    destruct (from_user k ks) as [kv|] eqn:Hk; [|done].
    destruct (from_user v vs) as [vv|] eqn:Hv; [|done].
    apply from_user_zlen in Hk, Hv. rewrite Hu, (um_rep_size _ _ Hu).
    destruct (g !! kv) as [v0|] eqn:Hg; simpl.
    + rewrite andb_true_r, andb_false_r. destruct (f =? BPF_NOEXIST); [done|].
      split; [done|]. apply vh_rep_assign; [done..|]. left. by rewrite Hg.
    + rewrite andb_false_r, andb_true_r. destruct (f =? BPF_EXIST); [done|].
      destruct (Z.eqb_spec (Z.of_nat (size g)) cap) as [|Hne]; [done|].
      destruct (negb _); [done|]. split; [done|]. apply vh_rep_assign; [done..|]. by right.
  - unfold elem_delete. rewrite Hks. destruct (from_user k ks) as [kv|]; [|done]. rewrite Hu.
    destruct (g !! kv) eqn:Hg; [|done]. split; [done|]. by apply vh_rep_erase.
Qed.

Lemma vh_run_sim ops :
  0 ≤ cap →
  (kv_run (var_hash_create ks vs cap mflags) ops).1 = (kv_run (H := spec) ∅ ops).1 ∧
  vh_rep (kv_run (var_hash_create ks vs cap mflags) ops).2 (kv_run (H := spec) ∅ ops).2.
Proof.
  intros. apply (kv_run_sim (H0 := spec) vh_rep (λ _, True)).
  - intros. by apply vh_step_sim.
  - by apply vh_rep_create.
  - apply Forall_forall. done.
Qed.
End refine.

(** ** Properties *)

(** C20 (refinement). A fresh map answers every sequence of lookups, updates and deletes as a finite
    map of bounded size: [EEXIST]/[ENOENT] for [BPF_NOEXIST]/[BPF_EXIST], [E2BIG] for a new key at
    capacity, [EPERM] for what the map's flags exclude, for any hash table with the documented
    behaviour. *)
Theorem var_hash_refines_map {U} `{UnorderedMapLaws (list Z) U} ks vs cap mflags ops :
  0 ≤ cap →
  (kv_run (var_hash_create (U := U) ks vs cap mflags) ops).1 =
  (kv_run (H := bounded_kv ks vs cap (Z.land mflags BPF_F_WRONLY =? 0) (Z.land mflags BPF_F_RDONLY =? 0))
     ∅ ops).1.
Proof. intros. by apply vh_run_sim. Qed.

Definition var_hash_ops : list kv_op :=
  [KUpdate (Some [1; 2]) (Some [7]) BPF_NOEXIST; KUpdate (Some [1; 2]) (Some [8]) BPF_NOEXIST;
   KUpdate (Some [3; 4]) (Some [9]) BPF_ANY; KUpdate (Some [5; 6]) (Some [9]) BPF_ANY;
   KDelete (Some [3; 4]); KLookup (Some [1; 2]); KLookup (Some [3; 4]); KUpdate (Some [1; 2]) (Some [8]) 7].

Lemma var_hash_refines_map_witness :
  (kv_run (var_hash_create (U := gmap (list Z) (list Z)) 2 1 2 0) var_hash_ops).1 =
  (kv_run (H := bounded_kv 2 1 2 true true) ∅ var_hash_ops).1 ∧
  (kv_run (var_hash_create (U := gmap (list Z) (list Z)) 2 1 2 0) var_hash_ops).1 =
  [Ok []; Err EEXIST; Ok []; Err E2BIG; Ok []; Ok [7]; Err ENOENT; Err EINVAL].
Proof.
  split; [|vm_compute; reflexivity].
  apply (var_hash_refines_map (U := gmap (list Z) (list Z)) 2 1 2 0). lia.
Defined.

(** In every reachable state: following [map_get_next_key] from a null key reports
    each stored key exactly once and ends, and [lookup_and_delete] returns the value of a stored key
    and removes it. *)
Theorem var_hash_iterate {U} `{UnorderedMapLaws (list Z) U} ks vs cap mflags ops :
  0 ≤ cap → 0 ≤ vs → Z.land mflags BPF_F_WRONLY = 0 →
  let m := (kv_run (var_hash_create (U := U) ks vs cap mflags) ops).2 in
  ∃ g : gmap (list Z) (list Z),
    (∀ k, zlen k = ks → elem_lookup m (Some k) = match g !! k with Some v => Ok v | None => Err ENOENT end) ∧
    (let keys := iterate (map_get_next_key m) None (S (size g)) in
     NoDup keys ∧ ∀ k, k ∈ keys ↔ is_Some (g !! k)) ∧
    (∀ k v, g !! k = Some v →
       (lookup_and_delete m (Some k)).1 = Ok v ∧ vh_rep ks vs cap mflags (lookup_and_delete m (Some k)).2 (delete k g)).
Proof.
  intros Hcap Hvs Hfl m. destruct (vh_run_sim (U := U) ks vs cap mflags ops Hcap) as [_ Hr].
  fold m in Hr. set (g := (kv_run _ _).2) in Hr. pose proof Hr as [Hu Hks Hvs' _ Hf Hkeys _].
  exists g. split; [|split].
  - intros k Hk. unfold elem_lookup. rewrite Hf, Hfl, Hks, from_user_exact by done. simpl. by rewrite Hu.
  - pose proof (um_rep_size _ _ Hu) as Hsz. unfold um_size, zlen in Hsz.
    rewrite (iterate_ext _ (um_next_key (vh_map_impl m) ks)), um_iterate_all.
    + split; [apply um_keys_NoDup|]. intros k. by rewrite um_keys_find, Hu.
    + intros k [v Hv]%um_keys_find. rewrite Hu in Hv. by eapply Hkeys.
    + lia.
    + intros key. unfold map_get_next_key. by rewrite Hf, Hfl, Hks.
  - intros k v Hg. destruct (Hkeys k v Hg) as [Hk Hv]. unfold lookup_and_delete.
    rewrite Hks, Hvs', from_user_exact, Hu, Hg, <- Hv, vread_all by done.
    split; [done|]. rewrite Hv. by apply vh_rep_erase.
Qed.

Lemma var_hash_iterate_witness :
  let m := (kv_run (var_hash_create (U := gmap (list Z) (list Z)) 2 1 2 0) var_hash_ops).2 in
  ∃ g : gmap (list Z) (list Z), g !! [1; 2] = Some [7] ∧
    NoDup (iterate (map_get_next_key m) None (S (size g))).
Proof.
  intros m. destruct (var_hash_iterate (U := gmap (list Z) (list Z)) 2 1 2 0 var_hash_ops)
    as (g&Hl&[Hn _]&_); [lia|lia|reflexivity|]. exists g. split; [|exact Hn].
  specialize (Hl [1; 2] eq_refl). replace (elem_lookup _ _) with (Ok [7]) in Hl by (vm_compute; reflexivity).
  destruct (g !! [1; 2]); congruence.
Defined.
