(* ===== verification/PerCpuHash.v ===== *)
(** * Per-CPU hash maps

    [per_cpu_hash_map_impl] (runtime/src/bpf_map/userspace/per_cpu_hash_map.cpp): a table from keys to
    the [ncpu] values of a key, one after the other. The CPU that an operation of an eBPF program
    runs on, the answer of [my_sched_getcpu()], is an argument; a CPU number outside the template
    vectors is an access outside of them. The templates are assigned before every use. *)

From stdpp Require Import base numbers list gmap.
From S2P Require Import Prelude.
From S2P Require Import ArrayMap.
From S2P Require Import UnorderedMap.

Section per_cpu_hash.
Context {U : Type} `{UnorderedMap (list Z) U}.

Record per_cpu_hash_map_impl := PerCpuHashMap {
  ph_impl : U;
  ph_key_size : Z;
  ph_value_size : Z;
  ph_ncpu : Z;
  ph_max_entries : Z
}.

Definition per_cpu_hash_create (key_size value_size max_entries ncpu : Z) : per_cpu_hash_map_impl :=
  PerCpuHashMap um_empty key_size value_size ncpu max_entries.

Definition ph_with (m : per_cpu_hash_map_impl) (u : U) : per_cpu_hash_map_impl :=
  PerCpuHashMap u (ph_key_size m) (ph_value_size m) (ph_ncpu m) (ph_max_entries m).

(** The zeroed values of a new key. *)
Definition value_template (m : per_cpu_hash_map_impl) : list Z :=
  replicate (Z.to_nat (u32 (ph_value_size m * ph_ncpu m))) 0.

(** [key_templates[cpu]] is inside the vector. *)
Definition cpu_ok (m : per_cpu_hash_map_impl) (cpu : Z) : bool := (0 <=? cpu) && (cpu <? ph_ncpu m).

(** The [value_size] bytes the returned pointer points to. *)
Definition elem_lookup (m : per_cpu_hash_map_impl) (key : uptr) (cpu : Z) : res (list Z) :=
  match key with
  | None => Err ENOENT
  | Some _ =>
      if negb (cpu_ok m cpu) then Fault
      else match from_user key (ph_key_size m) with
           | None => Fault
           | Some key_vec =>
               match um_find (ph_impl m) key_vec with
               | Some v => match vread v (u32 (ph_value_size m * cpu)) (ph_value_size m) with
                           | Some bs => Ok bs | None => Fault end
               | None => Err ENOENT
               end
           end
  end.

Definition elem_update (m : per_cpu_hash_map_impl) (key value : uptr) (flags cpu : Z)
  : res unit * per_cpu_hash_map_impl :=
  if negb (check_update_flags flags) then (Err EINVAL, m)
  else if negb (cpu_ok m cpu) then (Fault, m)
  else match from_user key (ph_key_size m), from_user value (ph_value_size m) with
       | Some key_vec, Some value_vec =>
           match um_find (ph_impl m) key_vec with
           | Some old =>
               match vwrite old (u32 (cpu * ph_value_size m)) value_vec with
               | Some new => (Ok tt, ph_with m (um_assign (ph_impl m) key_vec new))
               | None => (Fault, m)
               end
           | None =>
               match vwrite (value_template m) (u32 (cpu * ph_value_size m)) value_vec with
               | Some new => (Ok tt, ph_with m (um_insert (ph_impl m) key_vec new))
               | None => (Fault, m)
               end
           end
       | _, _ => (Fault, m)
       end.

(** [std::fill(begin, begin + cpu * value_size, 0)]. *)
Definition elem_delete (m : per_cpu_hash_map_impl) (key : uptr) (cpu : Z)
  : res unit * per_cpu_hash_map_impl :=
  if negb (cpu_ok m cpu) then (Fault, m)
  else match from_user key (ph_key_size m) with
       | None => (Fault, m)
       | Some key_vec =>
           match um_find (ph_impl m) key_vec with
           | Some old =>
               match vwrite old 0 (replicate (Z.to_nat (u32 (cpu * ph_value_size m))) 0) with
               | Some new => (Ok tt, ph_with m (um_assign (ph_impl m) key_vec new))
               | None => (Fault, m)
               end
           | None => (Ok tt, m)
           end
       end.

Definition map_get_next_key (m : per_cpu_hash_map_impl) (key : uptr) : res (list Z) :=
  um_next_key (ph_impl m) (ph_key_size m) key.

(** The values of all CPUs. *)
Definition elem_lookup_userspace (m : per_cpu_hash_map_impl) (key : uptr) : res (list Z) :=
  match key with
  | None => Err ENOENT
  | Some _ =>
      match from_user key (ph_key_size m) with
      | None => Fault
      | Some key_vec =>
          match um_find (ph_impl m) key_vec with Some v => Ok v | None => Err ENOENT end
      end
  end.

Definition elem_update_userspace (m : per_cpu_hash_map_impl) (key value : uptr) (flags : Z)
  : res unit * per_cpu_hash_map_impl :=
  if negb (check_update_flags flags) then (Err EINVAL, m)
  else match from_user key (ph_key_size m), from_user value (u32 (ph_value_size m * ph_ncpu m)) with
       | Some key_vec, Some value_vec =>
           let elem_exists := bool_decide (is_Some (um_find (ph_impl m) key_vec)) in
           if (flags =? BPF_NOEXIST) && elem_exists then (Err EEXIST, m)
           else if (flags =? BPF_EXIST) && negb elem_exists then (Err ENOENT, m)
           else if negb elem_exists && (um_size (ph_impl m) =? ph_max_entries m) then (Err E2BIG, m)
           else (Ok tt, ph_with m (um_assign (ph_impl m) key_vec value_vec))
       | _, _ => (Fault, m)
       end.

Definition elem_delete_userspace (m : per_cpu_hash_map_impl) (key : uptr)
  : res unit * per_cpu_hash_map_impl :=
  match from_user key (ph_key_size m) with
  | None => (Fault, m)
  | Some key_vec =>
      match um_find (ph_impl m) key_vec with
      | None => (Err ENOENT, m)
      | Some _ => (Ok tt, ph_with m (um_erase (ph_impl m) key_vec))
      end
  end.

(** The bytes copied to [value]. *)
Definition lookup_and_delete_userspace (m : per_cpu_hash_map_impl) (key : uptr)
  : res (list Z) * per_cpu_hash_map_impl :=
  match from_user key (ph_key_size m) with
  | None => (Fault, m)
  | Some key_vec =>
      match um_find (ph_impl m) key_vec with
      | None => (Err ENOENT, m)
      | Some v =>
          match vread v 0 (u32 (ph_ncpu m * ph_value_size m)) with
          | Some bs => (Ok bs, ph_with m (um_erase (ph_impl m) key_vec))
          | None => (Fault, m)
          end
      end
  end.
End per_cpu_hash.
Arguments per_cpu_hash_map_impl U : clear implicits.

(** ** The values of a key *)

Section values.
Context {U : Type} `{UnorderedMapLaws (list Z) U}.
Implicit Types (m : per_cpu_hash_map_impl U) (k : list Z).

(** Every stored vector has a value for every CPU. *)
Record ph_wf m : Prop := {
  ph_pos : 0 < ph_ncpu m ∧ 0 < ph_value_size m ∧ 0 ≤ ph_key_size m;
  ph_32 : ph_ncpu m * ph_value_size m < 2 ^ 32;
  ph_values : ∀ k v, um_find (ph_impl m) k = Some v → zlen v = ph_ncpu m * ph_value_size m
}.

(** What CPU [c] finds for key [k]. *)
Definition cpu_value m k (c : Z) : option (list Z) :=
  v ← um_find (ph_impl m) k; slot v (ph_value_size m) c.

Lemma cpu_ok_spec m c : 0 ≤ c < ph_ncpu m → cpu_ok m c = true.
Proof. intros. unfold cpu_ok. rewrite (proj2 (Z.leb_le _ _)), (proj2 (Z.ltb_lt _ _)) by lia. done. Qed.

Lemma offset_small m c : ph_wf m → 0 ≤ c < ph_ncpu m →
  u32 (c * ph_value_size m) = c * ph_value_size m ∧ u32 (ph_value_size m * c) = c * ph_value_size m.
Proof. intros [] Hc. rewrite (Z.mul_comm (ph_value_size m) c), !u32_small by nia. done. Qed.

Lemma lookup_cpu m k c : ph_wf m → zlen k = ph_key_size m → 0 ≤ c < ph_ncpu m →
  elem_lookup m (Some k) c = match cpu_value m k c with Some v => Ok v | None => Err ENOENT end.
Proof.
  intros Hwf Hk Hc. unfold elem_lookup, cpu_value. rewrite cpu_ok_spec, from_user_exact by done.
  cbn [negb]. rewrite (proj2 (offset_small m c Hwf Hc)). destruct Hwf as [(?&?&?) _ Hv].
  destruct (um_find (ph_impl m) k) as [v|] eqn:E; [|done]. cbn [mbind option_bind].
  destruct (slot_is_Some v (ph_value_size m) (ph_ncpu m) c) as (bs&Hs&_); [lia|done|by apply Hv in E|].
  rewrite Hs. unfold slot in Hs. by rewrite Hs.
Qed.

Lemma template_spec m : ph_wf m →
  zlen (value_template m) = ph_ncpu m * ph_value_size m ∧
  ∀ c, 0 ≤ c < ph_ncpu m → slot (value_template m) (ph_value_size m) c =
    Some (replicate (Z.to_nat (ph_value_size m)) 0).
Proof.
  intros [(?&?&?) H32 _]. unfold value_template. rewrite u32_small by nia.
  assert (Hz : zlen (replicate (Z.to_nat (ph_value_size m * ph_ncpu m)) 0) = ph_ncpu m * ph_value_size m)
    by (rewrite zlen_replicate; nia).
  split; [done|]. intros c Hc. unfold slot. rewrite vread_Some by nia. f_equal.
  rewrite drop_replicate, take_replicate. f_equal. nia.
Qed.

(** Storing a vector for a key. *)
Lemma ph_assign m u k v :
  ph_wf m → zlen v = ph_ncpu m * ph_value_size m →
  (∀ k', um_find u k' = if decide (k = k') then Some v else um_find (ph_impl m) k') →
  ph_wf (ph_with m u) ∧
  ∀ k' c, cpu_value (ph_with m u) k' c = if decide (k = k') then slot v (ph_value_size m) c else cpu_value m k' c.
Proof.
  intros [] Hv Hu. split.
  - split; simpl; try done. intros k' v'. rewrite Hu. case_decide; [|apply ph_values0]. by intros [= <-].
  - intros k' c. unfold cpu_value. simpl. rewrite Hu. by case_decide.
Qed.

Lemma update_cpu m k value flags c v :
  ph_wf m → zlen k = ph_key_size m → 0 ≤ c < ph_ncpu m → check_update_flags flags = true →
  from_user value (ph_value_size m) = Some v →
  ∃ m', elem_update m (Some k) value flags c = (Ok tt, m') ∧ ph_wf m' ∧
    ph_ncpu m' = ph_ncpu m ∧ ph_key_size m' = ph_key_size m ∧
    ∀ k' c', 0 ≤ c' < ph_ncpu m →
      cpu_value m' k' c' =
        if decide (k = k') then
          if decide (c = c') then Some v
          else match cpu_value m k c' with Some w => Some w
               | None => Some (replicate (Z.to_nat (ph_value_size m)) 0) end
        else cpu_value m k' c'.
Proof.
  intros Hwf Hk Hc Hf Hv. pose proof Hwf as [(?&?&?) H32 Hvals].
  unfold elem_update. rewrite Hf, cpu_ok_spec, from_user_exact, Hv by done. cbn [negb].
  rewrite (proj1 (offset_small m c Hwf Hc)). pose proof (from_user_zlen _ _ _ Hv) as Hz.
  set (old := match um_find (ph_impl m) k with Some o => o | None => value_template m end).
  assert (Hold : zlen old = ph_ncpu m * ph_value_size m).
  { unfold old. destruct (um_find (ph_impl m) k) eqn:E; [by apply Hvals in E|by apply template_spec]. }
  destruct (slot_write_is_Some old v (ph_value_size m) (ph_ncpu m) c) as (new&Hnew&Hnz); [done..|lia|].
  assert (Hres : ∃ u, (∀ k', um_find u k' = if decide (k = k') then Some new else um_find (ph_impl m) k') ∧
    match um_find (ph_impl m) k with
    | Some o => match vwrite o (c * ph_value_size m) v with
        | Some n => (Ok tt, ph_with m (um_assign (ph_impl m) k n)) | None => (Fault, m) end
    | None => match vwrite (value_template m) (c * ph_value_size m) v with
        | Some n => (Ok tt, ph_with m (um_insert (ph_impl m) k n)) | None => (Fault, m) end
    end = (Ok tt, ph_with m u)).
  { unfold old in Hnew. destruct (um_find (ph_impl m) k) as [o|] eqn:E; rewrite Hnew; eexists; (split; [|done]).
    - intros k'. apply um_find_assign.
    - intros k'. by rewrite um_find_insert, E. }
  destruct Hres as (u&Hu&->). destruct (ph_assign m u k new Hwf ltac:(congruence) Hu) as [Hwf' Hcv].
  exists (ph_with m u). split; [done|]. split; [done|]. do 2 (split; [done|]). intros k' c' Hc'.
  rewrite Hcv. case_decide; [|done]. rewrite (slot_write_eq _ _ _ _ _ _ Hnew Hz).
  case_decide; [done|]. unfold old, cpu_value. destruct (um_find (ph_impl m) k) as [o|] eqn:E; simpl.
  - destruct (slot_is_Some o (ph_value_size m) (ph_ncpu m) c') as (bs&->&_); [lia|done|by apply Hvals in E|done].
  - by apply template_spec.
Qed.
End values.

(** ** Properties *)

(** An update by an eBPF program on CPU [c] sets the value of that key on that CPU, a
    new key starts with zeroes on the others, and nothing else changes. It succeeds whatever the
    flags and however many entries the map has. *)
Theorem per_cpu_hash_isolation {U} `{UnorderedMapLaws (list Z) U} (m : per_cpu_hash_map_impl U)
  k value flags c v k' c' :
  ph_wf m → zlen k = ph_key_size m → zlen k' = ph_key_size m →
  0 ≤ c < ph_ncpu m → 0 ≤ c' < ph_ncpu m → check_update_flags flags = true →
  from_user value (ph_value_size m) = Some v →
  let x := elem_update m (Some k) value flags c in
  x.1 = Ok tt ∧ ph_wf x.2 ∧
  elem_lookup x.2 (Some k') c' =
    if bool_decide (k = k' ∧ c = c') then Ok v
    else if bool_decide (k = k' ∧ um_find (ph_impl m) k = None)
         then Ok (replicate (Z.to_nat (ph_value_size m)) 0)
         else elem_lookup m (Some k') c'.
Proof.
  intros Hwf Hk Hk' Hc Hc' Hf Hv x.
  destruct (update_cpu m k value flags c v Hwf Hk Hc Hf Hv) as (m'&Hu&Hwf'&Hn&Hks&Hcv).
  assert (x = (Ok tt, m')) as -> by exact Hu. cbn [fst snd]. split; [done|]. split; [done|].
  rewrite (lookup_cpu m' k' c'), (lookup_cpu m k' c') by (done || congruence || lia).
  rewrite Hcv by done. case_decide as E1; [subst k'|].
  - case_decide as E2; [by rewrite bool_decide_eq_true_2|]. rewrite bool_decide_eq_false_2 by (by intros [_ ?]).
    pose proof Hwf as [(?&?&?) _ Hvals]. unfold cpu_value.
    destruct (um_find (ph_impl m) k) as [o|] eqn:E; simpl.
    + rewrite bool_decide_eq_false_2 by (by intros [_ ?]).
      by destruct (slot_is_Some o (ph_value_size m) (ph_ncpu m) c') as (bs&->&_); [lia|done|apply Hvals in E|].
    + by rewrite bool_decide_eq_true_2.
  - rewrite !bool_decide_eq_false_2 by (by intros [? _]). done.
Qed.

Lemma per_cpu_hash_isolation_witness :
  let m := per_cpu_hash_create (U := gmap (list Z) (list Z)) 2 2 1 4 in
  let x := elem_update m (Some [1; 2]) (Some [7; 8]) BPF_ANY 1 in
  x.1 = Ok tt ∧ elem_lookup x.2 (Some [1; 2]) 1 = Ok [7; 8] ∧ elem_lookup x.2 (Some [1; 2]) 0 = Ok [0; 0].
Proof.
  intros m x. assert (Hwf : ph_wf m) by (split; simpl; [lia|lia|intros k v; by rewrite lookup_empty]).
  destruct (per_cpu_hash_isolation m [1; 2] (Some [7; 8]) BPF_ANY 1 [7; 8] [1; 2] 1 Hwf) as (H1&_&H2);
    [reflexivity|reflexivity|simpl; lia|simpl; lia|reflexivity|reflexivity|].
  destruct (per_cpu_hash_isolation m [1; 2] (Some [7; 8]) BPF_ANY 1 [7; 8] [1; 2] 0 Hwf) as (_&_&H3);
    [reflexivity|reflexivity|simpl; lia|simpl; lia|reflexivity|reflexivity|].
  exact (conj H1 (conj H2 H3)).
Defined.

(** A delete by an eBPF program on CPU [c] zeroes the values of the CPUs below [c] and
    leaves the value of CPU [c] itself, and the key, in the map. *)
Theorem per_cpu_hash_delete {U} `{UnorderedMapLaws (list Z) U} (m : per_cpu_hash_map_impl U) k c c' old :
  ph_wf m → zlen k = ph_key_size m → 0 ≤ c < ph_ncpu m → 0 ≤ c' < ph_ncpu m →
  um_find (ph_impl m) k = Some old →
  let x := elem_delete m (Some k) c in
  x.1 = Ok tt ∧
  elem_lookup x.2 (Some k) c' =
    if bool_decide (c' < c) then Ok (replicate (Z.to_nat (ph_value_size m)) 0)
    else elem_lookup m (Some k) c'.
Proof.
  intros Hwf Hk Hc Hc' Hold x. pose proof Hwf as [(?&?&?) H32 Hvals].
  pose proof (Hvals _ _ Hold) as Hz. set (vs := ph_value_size m) in *.
  assert (Hzr : zlen (replicate (Z.to_nat (c * vs)) 0) = c * vs) by (apply zlen_replicate; nia).
  destruct (vwrite_is_Some old 0 (replicate (Z.to_nat (c * vs)) 0)) as (new&Hnew&Hnz); [lia|rewrite Hzr; nia|].
  destruct (ph_assign m (um_assign (ph_impl m) k new) k new Hwf) as [Hwf' Hcv];
    [fold vs; congruence|intros; apply um_find_assign|].
  assert (x = (Ok tt, ph_with m (um_assign (ph_impl m) k new))) as ->.
  { unfold x, elem_delete. rewrite cpu_ok_spec, from_user_exact by done. cbn [negb]. rewrite Hold.
    rewrite (proj1 (offset_small m c Hwf Hc)). fold vs. by rewrite Hnew. }
  cbn [fst snd]. split; [done|]. rewrite !lookup_cpu by done. rewrite Hcv, decide_True by done.
  unfold cpu_value at 1. rewrite Hold. fold vs. cbn [mbind option_bind]. unfold slot.
  case_bool_decide as Hlt.
  - pose proof (vread_vwrite_same _ _ _ _ Hnew) as Hr. rewrite Hzr in Hr.
    rewrite <- (Z.add_0_l (c' * vs)), <- (vread_vread _ _ _ _ (c' * vs) vs Hr) by nia.
    rewrite vread_Some by (rewrite ?Hzr; nia). rewrite drop_replicate, take_replicate.
    assert (0 ≤ c' * vs ∧ c' * vs + vs ≤ c * vs) by nia. do 2 f_equal. lia.
  - by rewrite (vread_vwrite_disjoint _ _ _ _ _ _ Hnew) by (right; rewrite Hzr; nia).
Qed.

Lemma per_cpu_hash_delete_witness :
  let m := (elem_update_userspace (per_cpu_hash_create (U := gmap (list Z) (list Z)) 1 1 4 3) (Some [9]) (Some [5; 6; 7]) 0).2 in
  let x := elem_delete m (Some [9]) 1 in
  elem_lookup x.2 (Some [9]) 1 = Ok [6] ∧ elem_lookup x.2 (Some [9]) 0 = Ok [0].
Proof.
  intros m x. assert (Hwf : ph_wf m).
  { assert (m = PerCpuHashMap (<[[9] := [5; 6; 7]]> ∅ : gmap (list Z) (list Z)) 1 1 3 4) as -> by reflexivity.
    split; simpl; [lia|lia|]. intros k v. rewrite lookup_insert_Some, lookup_empty.
    intros [[_ <-]|[_ [=]]]. reflexivity. }
  destruct (per_cpu_hash_delete m [9] 1 1 [5; 6; 7] Hwf) as (_&H1); [reflexivity|done|done|reflexivity|].
  destruct (per_cpu_hash_delete m [9] 1 0 [5; 6; 7] Hwf) as (_&H2); [reflexivity|done|done|reflexivity|].
  split; [etrans; [exact H1|]|etrans; [exact H2|]]; vm_compute; reflexivity.
Defined.
