(* ===== verification/LruHashMap.v ===== *)
(** * LRU hash maps

    [lru_var_hash_map_impl] (runtime/src/bpf_map/userspace/lru_var_hash_map.cpp): a hash table from
    keys to values and a doubly linked list of the keys in the order of their last use. The list
    entries are objects in shared memory held by reference-counted pointers, so the model has a
    heap of entries; an entry leaves the heap when its last owner lets go of it, and a pointer that
    is null or whose entry is gone cannot be followed. *)

From stdpp Require Import base numbers list gmap.
From S2P Require Import Prelude.
From S2P Require Import KvMap.
From S2P Require Import UnorderedMap.
From S2P Require Import VarHashMap.

(** [lru_linklist_entry]. *)
Record lru_linklist_entry := LruEntry {
  e_key : list Z;
  e_next : option positive;
  e_prev : option positive
}.

Record hash_map_value := HashMapValue {
  hv_value : list Z;
  linked_list_entry : positive
}.

Definition with_next (e : lru_linklist_entry) (n : option positive) : lru_linklist_entry :=
  LruEntry (e_key e) n (e_prev e).
Definition with_prev (e : lru_linklist_entry) (p : option positive) : lru_linklist_entry :=
  LruEntry (e_key e) (e_next e) p.

Section lru.
Context {U : Type} `{UnorderedMap hash_map_value U}.

Record lru_var_hash_map_impl := LruHashMap {
  lru_map_impl : U;
  lru_link_list_head : option positive;
  lru_link_list_tail : option positive;
  lru_heap : gmap positive lru_linklist_entry;
  (** the address of the next entry *)
  lru_fresh : positive;
  lru_key_size : Z;
  lru_value_size : Z;
  lru_max_entries : Z
}.

Definition lru_create (key_size value_size max_entries : Z) : lru_var_hash_map_impl :=
  LruHashMap um_empty None None ∅ 1 key_size value_size max_entries.

Definition set_map (u : U) : M lru_var_hash_map_impl unit := modify (λ s,
  LruHashMap u (lru_link_list_head s) (lru_link_list_tail s) (lru_heap s) (lru_fresh s)
    (lru_key_size s) (lru_value_size s) (lru_max_entries s)).
Definition set_head (p : option positive) : M lru_var_hash_map_impl unit := modify (λ s,
  LruHashMap (lru_map_impl s) p (lru_link_list_tail s) (lru_heap s) (lru_fresh s)
    (lru_key_size s) (lru_value_size s) (lru_max_entries s)).
Definition set_tail (p : option positive) : M lru_var_hash_map_impl unit := modify (λ s,
  LruHashMap (lru_map_impl s) (lru_link_list_head s) p (lru_heap s) (lru_fresh s)
    (lru_key_size s) (lru_value_size s) (lru_max_entries s)).
Definition set_heap (h : gmap positive lru_linklist_entry) : M lru_var_hash_map_impl unit := modify (λ s,
  LruHashMap (lru_map_impl s) (lru_link_list_head s) (lru_link_list_tail s) h (lru_fresh s)
    (lru_key_size s) (lru_value_size s) (lru_max_entries s)).

(** [*p], [*p = e], [new], and the end of an entry's life. *)
Definition load (p : positive) : M lru_var_hash_map_impl lru_linklist_entry :=
  s ← get; deref (lru_heap s !! p).
Definition store (p : positive) (e : lru_linklist_entry) : M lru_var_hash_map_impl unit :=
  s ← get; set_heap (<[p := e]> (lru_heap s)).
Definition alloc (e : lru_linklist_entry) : M lru_var_hash_map_impl positive := λ s,
  (Ok (lru_fresh s),
   LruHashMap (lru_map_impl s) (lru_link_list_head s) (lru_link_list_tail s)
     (<[lru_fresh s := e]> (lru_heap s)) (lru_fresh s + 1)
     (lru_key_size s) (lru_value_size s) (lru_max_entries s)).
Definition free (p : positive) : M lru_var_hash_map_impl unit :=
  s ← get; set_heap (delete p (lru_heap s)).
(** [weak.lock()], by a caller that follows the result. *)
Definition lock (w : option positive) : M lru_var_hash_map_impl positive :=
  p ← deref w; _ ← load p; mret p.

Definition move_to_head (entry : positive) : M lru_var_hash_map_impl unit :=
  s ← get;
  if bool_decide (Some entry = lru_link_list_head s) then mret tt
  else
    e ← load entry;
    prev ← lock (e_prev e);
    let next := e_next e in
    pe ← load prev;
    _ ← store prev (with_next pe next);
    _ ← (match next with
         | Some n => ne ← load n; store n (with_prev ne (Some prev))
         | None => set_tail (Some prev)
         end);
    s ← get;
    e ← load entry;
    _ ← store entry (with_next e (lru_link_list_head s));
    e ← load entry;
    _ ← store entry (with_prev e None);
    h ← deref (lru_link_list_head s);
    he ← load h;
    _ ← store h (with_prev he (Some entry));
    set_head (Some entry).

Definition insert_new_entry (key : list Z) : M lru_var_hash_map_impl positive :=
  p ← alloc (LruEntry key None None);
  s ← get;
  match lru_link_list_head s with
  | None => _ ← set_head (Some p); _ ← set_tail (Some p); mret p
  | Some h =>
      e ← load p;
      _ ← store p (with_next e (Some h));
      he ← load h;
      _ ← store h (with_prev he (Some p));
      _ ← set_head (Some p);
      mret p
  end.

Definition evict_entry (entry : positive) : M lru_var_hash_map_impl unit :=
  s ← get;
  if bool_decide (Some entry = lru_link_list_tail s) then
    if bool_decide (Some entry = lru_link_list_head s) then
      _ ← set_head None; set_tail None
    else
      e ← load entry;
      prev ← lock (e_prev e);
      pe ← load prev;
      _ ← store prev (with_next pe None);
      set_tail (Some prev)
  else if bool_decide (Some entry = lru_link_list_head s) then
    e ← load entry;
    n ← deref (e_next e);
    ne ← load n;
    _ ← store n (with_prev ne None);
    set_head (e_next e)
  else
    e ← load entry;
    prev ← lock (e_prev e);
    pe ← load prev;
    _ ← store prev (with_next pe (e_next e));
    n ← deref (e_next e);
    ne ← load n;
    store n (with_prev ne (Some prev)).

(** The eviction of [elem_update]: the tail's key leaves the table, then the tail the list. *)
Definition evict_least_recently_used : M lru_var_hash_map_impl unit :=
  s ← get;
  tail ← deref (lru_link_list_tail s);
  e ← load tail;
  _ ← set_map (um_erase (lru_map_impl s) (e_key e));
  _ ← evict_entry tail;
  free tail.

(** The bytes the returned pointer points to. *)
Definition elem_lookup (key : uptr) : M lru_var_hash_map_impl (list Z) :=
  s ← get;
  key_vec ← deref (from_user key (lru_key_size s));
  match um_find (lru_map_impl s) key_vec with
  | Some hv => _ ← move_to_head (linked_list_entry hv); mret (hv_value hv)
  | None => fail ENOENT
  end.

Definition elem_update (key value : uptr) (flags : Z) : M lru_var_hash_map_impl unit :=
  if negb (is_good_update_flag flags) then fail EINVAL
  else
    s ← get;
    key_vec ← deref (from_user key (lru_key_size s));
    let itr := um_find (lru_map_impl s) key_vec in
    let element_exists := bool_decide (is_Some itr) in
    if (flags =? BPF_NOEXIST) && element_exists then fail EEXIST
    else if (flags =? BPF_EXIST) && negb element_exists then fail ENOENT
    else
      _ ← (if negb element_exists && (um_size (lru_map_impl s) =? lru_max_entries s)
           then evict_least_recently_used else mret tt);
      match itr with
      | Some hv =>
          v ← deref (from_user value (lru_value_size s));
          s ← get;
          _ ← set_map (um_assign (lru_map_impl s) key_vec (HashMapValue v (linked_list_entry hv)));
          move_to_head (linked_list_entry hv)
      | None =>
          value_vec ← deref (from_user value (lru_value_size s));
          entry_ptr ← insert_new_entry key_vec;
          s ← get;
          set_map (um_insert (lru_map_impl s) key_vec (HashMapValue value_vec entry_ptr))
      end.

Definition elem_delete (key : uptr) : M lru_var_hash_map_impl unit :=
  s ← get;
  key_vec ← deref (from_user key (lru_key_size s));
  match um_find (lru_map_impl s) key_vec with
  | None => fail ENOENT
  | Some hv =>
      _ ← evict_entry (linked_list_entry hv);
      s ← get;
      _ ← set_map (um_erase (lru_map_impl s) key_vec);
      free (linked_list_entry hv)
  end.

Definition map_get_next_key (s : lru_var_hash_map_impl) (key : uptr) : res (list Z) :=
  um_next_key (lru_map_impl s) (lru_key_size s) key.

#[export] Instance lru_kv : KvMap lru_var_hash_map_impl := {
  kv_lookup s k := elem_lookup k s;
  kv_update s k v f := elem_update k v f s;
  kv_delete s k := elem_delete k s
}.
End lru.
Arguments lru_var_hash_map_impl U : clear implicits.
