(* ===== verification/LruRefine.v ===== *)
(** * LRU hash maps: the linked list and refinement

    The heap of entries holds a doubly linked list in the order of last use; the map refines the
    list of its entries, most recently used first, in which a new key evicts the last entry of a
    full map. *)

From stdpp Require Import base numbers list gmap.
From S2P Require Import Prelude.
From S2P Require Import KvMap.
From S2P Require Import UnorderedMap.
From S2P Require Import VarHashMap.
From S2P Require Import LruHashMap.

(** ** Segments of the list *)

(** An entry of the list: its address, key and value. *)
Abbreviation node := (positive * (list Z * list Z))%type.
Abbreviation heap := (gmap positive lru_linklist_entry).

Definition first_or (N : list node) (next : option positive) : option positive :=
  match N with [] => next | n :: _ => Some n.1 end.
Definition last_or (N : list node) (prev : option positive) : option positive :=
  match last N with Some n => Some n.1 | None => prev end.

(** The nodes are linked in order, between [prev] and [next]. *)
Fixpoint chain (prev : option positive) (N : list node) (next : option positive) (h : heap) : Prop :=
  match N with
  | [] => True
  | n :: N' => h !! n.1 = Some (LruEntry n.2.1 (first_or N' next) prev) ∧ chain (Some n.1) N' next h
  end.

Lemma first_or_app A B next : first_or (A ++ B) next = first_or A (first_or B next).
Proof. by destruct A. Qed.

Lemma last_or_snoc A n prev : last_or (A ++ [n]) prev = Some n.1.
Proof. unfold last_or. by rewrite last_snoc. Qed.

Lemma last_or_cons n A prev : last_or (n :: A) prev = last_or A (Some n.1).
Proof. unfold last_or. rewrite last_cons. by destruct (last A). Qed.

Lemma chain_app prev A B next h :
  chain prev (A ++ B) next h ↔ chain prev A (first_or B next) h ∧ chain (last_or A prev) B next h.
Proof.
  revert prev. induction A as [|n A IH]; intros prev; simpl; [tauto|].
  rewrite IH, first_or_app, last_or_cons. tauto.
Qed.

Lemma chain_other prev N next h p e :
  p ∉ N.*1 → chain prev N next (<[p := e]> h) ↔ chain prev N next h.
Proof.
  revert prev. induction N as [|n N IH]; intros prev Hp; simpl; [done|].
  rewrite IH, lookup_insert_ne by set_solver. done.
Qed.

Lemma chain_delete prev N next h p :
  p ∉ N.*1 → chain prev N next (delete p h) ↔ chain prev N next h.
Proof.
  revert prev. induction N as [|n N IH]; intros prev Hp; simpl; [done|].
  rewrite IH, lookup_delete_ne by set_solver. done.
Qed.

Lemma chain_lookup prev A n B next h :
  chain prev (A ++ n :: B) next h → h !! n.1 = Some (LruEntry n.2.1 (first_or B next) (last_or A prev)).
Proof. intros [_ [Hn _]]%chain_app. done. Qed.

(** [q->next_entry = next] for the last node. *)
Lemma chain_set_next prev A q next next' h :
  chain prev (A ++ [q]) next h → q.1 ∉ A.*1 →
  chain prev (A ++ [q]) next' (<[q.1 := LruEntry q.2.1 next' (last_or A prev)]> h).
Proof.
  intros Hc Hq. apply chain_app in Hc as [Ha [_ _]]. apply chain_app. split.
  - apply chain_other; [done|]. by destruct A.
  - simpl. by rewrite lookup_insert_eq.
Qed.

(** [b->previous_entry = prev] for the first node. *)
Lemma chain_set_prev prev prev' b B next h :
  chain prev (b :: B) next h → b.1 ∉ B.*1 →
  chain prev' (b :: B) next (<[b.1 := LruEntry b.2.1 (first_or B next) prev']> h).
Proof.
  intros [_ Hc] Hb. simpl. rewrite lookup_insert_eq. split; [done|]. by apply chain_other.
Qed.

(** Taking a node in the middle out: its neighbours point to each other. *)
Lemma chain_unlink A q n B h :
  chain None ((A ++ [q]) ++ n :: B) None h → NoDup ((A ++ [q]) ++ n :: B).*1 →
  let h1 := <[q.1 := LruEntry q.2.1 (first_or B None) (last_or A None)]> h in
  match B with
  | [] => chain None (A ++ [q]) None h1
  | b :: B' => chain None ((A ++ [q]) ++ B) None (<[b.1 := LruEntry b.2.1 (first_or B' None) (Some q.1)]> h1)
  end.
Proof.
  intros Hc Hnd h1. rewrite !fmap_app in Hnd. simpl in Hnd.
  apply chain_app in Hc as [Ha [Hn Hb]].
  apply NoDup_app in Hnd as (Hnd1&Hdisj&Hnd2). apply NoDup_app in Hnd1 as (_&Hq&_).
  assert (Hqa : q.1 ∉ A.*1) by (intros Hin; apply (Hq _ Hin); set_solver).
  assert (H1 : chain None (A ++ [q]) (first_or B None) h1) by (by eapply chain_set_next).
  destruct B as [|b B']; [done|]. apply NoDup_cons in Hnd2 as [Hnb Hnd2].
  simpl in Hnd2. apply NoDup_cons in Hnd2 as [Hbb _]. apply chain_app. split.
  - apply chain_other; [|done]. intros Hin. rewrite fmap_app in Hin. eapply Hdisj; [exact Hin|]. set_solver.
  - rewrite last_or_snoc. eapply chain_set_prev; [|done]. apply chain_other; [|done].
    intros Hin. eapply (Hdisj q.1); [set_solver|]. set_solver.
Qed.

(** Putting a node in front. *)
Lemma chain_push p k v m N h e :
  chain None (m :: N) None h → p ∉ (m :: N).*1 → m.1 ∉ N.*1 →
  chain None ((p, (k, v)) :: m :: N) None
    (<[m.1 := LruEntry m.2.1 (first_or N None) (Some p)]> (<[p := LruEntry k (Some m.1) None]> (<[p := e]> h))).
Proof.
  intros Hc Hp Hm. split; [|eapply chain_set_prev; [|done]].
  - simpl. rewrite lookup_insert_ne by set_solver. by rewrite lookup_insert_eq.
  - rewrite !chain_other by done. exact Hc.
Qed.

(** ** The list operations *)

Section ops.
Context {U : Type} `{UnorderedMap hash_map_value U}.
Implicit Types (s : lru_var_hash_map_impl U) (N A B : list node) (n m q b : node).

(** The state holds the list [N]. *)
Definition linked s N : Prop :=
  chain None N None (lru_heap s) ∧
  lru_link_list_head s = first_or N None ∧ lru_link_list_tail s = last_or N None.

(** Only the links changed. *)
Definition same_data s s' : Prop :=
  lru_map_impl s' = lru_map_impl s ∧ lru_fresh s' = lru_fresh s ∧ lru_key_size s' = lru_key_size s ∧
  lru_value_size s' = lru_value_size s ∧ lru_max_entries s' = lru_max_entries s ∧
  dom (lru_heap s') = dom (lru_heap s).

Lemma load_ok s p e : lru_heap s !! p = Some e → load p s = (Ok e, s).
Proof. intros Hp. unfold load, mbind, M_bind, get, deref. by rewrite Hp. Qed.

Lemma lock_ok s p e : lru_heap s !! p = Some e → lock (Some p) s = (Ok p, s).
Proof.
  intros Hp. unfold lock, deref, mbind, M_bind. by rewrite (load_ok s p e Hp).
Qed.

Lemma bind_get {X} (f : lru_var_hash_map_impl U → M _ X) s : (get ≫= f) s = f s s.
Proof. done. Qed.
Lemma bind_load {X} (f : _ → M _ X) s p e : lru_heap s !! p = Some e → (load p ≫= f) s = f e s.
Proof. intros. erewrite bind_ok; [done|]. by apply load_ok. Qed.
Lemma bind_lock {X} (f : _ → M _ X) s p e : lru_heap s !! p = Some e → (lock (Some p) ≫= f) s = f p s.
Proof. intros. erewrite bind_ok; [done|]. by eapply lock_ok. Qed.

(** The state after [store p e]. *)
Definition stored s p e : lru_var_hash_map_impl U :=
  LruHashMap (lru_map_impl s) (lru_link_list_head s) (lru_link_list_tail s) (<[p := e]> (lru_heap s))
    (lru_fresh s) (lru_key_size s) (lru_value_size s) (lru_max_entries s).
Lemma bind_store {X} (f : _ → M _ X) s p e : (store p e ≫= f) s = f tt (stored s p e).
Proof. done. Qed.

Lemma stored_same s p e : is_Some (lru_heap s !! p) → same_data s (stored s p e).
Proof.
  intros Hp. repeat split. simpl. rewrite dom_insert_L. apply elem_of_dom in Hp. set_solver.
Qed.

Lemma same_data_trans s1 s2 s3 : same_data s1 s2 → same_data s2 s3 → same_data s1 s3.
Proof. unfold same_data. intuition congruence. Qed.

(** The nodes next to one in the middle, as the code reads them. *)
Lemma neighbours s A q n B :
  linked s ((A ++ [q]) ++ n :: B) →
  lru_heap s !! n.1 = Some (LruEntry n.2.1 (first_or B None) (Some q.1)) ∧
  lru_heap s !! q.1 = Some (LruEntry q.2.1 (Some n.1) (last_or A None)) ∧
  match B with
  | [] => lru_link_list_tail s = Some n.1
  | b :: B' => lru_heap s !! b.1 = Some (LruEntry b.2.1 (first_or B' None) (Some n.1))
  end.
Proof.
  intros (Hc&_&Ht). split; [|split].
  - rewrite (chain_lookup None _ n B None _ Hc). by rewrite last_or_snoc.
  - rewrite <- app_assoc in Hc. simpl in Hc. by apply chain_lookup in Hc.
  - destruct B as [|b B'].
    + by rewrite last_or_snoc in Ht.
    + replace ((A ++ [q]) ++ n :: b :: B') with (((A ++ [q]) ++ [n]) ++ b :: B') in Hc
        by (by rewrite <- app_assoc).
      rewrite (chain_lookup None _ b B' None _ Hc). by rewrite last_or_snoc.
Qed.

Lemma NoDup_mid_ne A n B m : NoDup (A ++ n :: B).*1 → m ∈ A ++ B → m.1 ≠ n.1.
Proof.
  rewrite fmap_app. simpl. intros (_&Hd&[Hn _]%NoDup_cons)%NoDup_app Hm He.
  apply elem_of_app in Hm as [Hm|Hm].
  - apply (Hd m.1); [by apply list_elem_of_fmap_2|]. rewrite He. set_solver.
  - apply Hn. rewrite <- He. by apply list_elem_of_fmap_2.
Qed.

Lemma first_or_last A (q : node) N :
  first_or ((A ++ [q]) ++ N) None = first_or (A ++ [q]) None.
Proof. by destruct A. Qed.

Lemma last_or_mid A n N prev : N ≠ [] → last_or (A ++ n :: N) prev = last_or (A ++ N) prev.
Proof.
  intros HN. destruct (exists_last HN) as (N'&x&->). unfold last_or.
  by rewrite (app_comm_cons N' [x] n), !app_assoc, !last_snoc.
Qed.

Definition tailed s (t : option positive) : lru_var_hash_map_impl U :=
  LruHashMap (lru_map_impl s) (lru_link_list_head s) t (lru_heap s)
    (lru_fresh s) (lru_key_size s) (lru_value_size s) (lru_max_entries s).
Definition headed s (t : option positive) : lru_var_hash_map_impl U :=
  LruHashMap (lru_map_impl s) t (lru_link_list_tail s) (lru_heap s)
    (lru_fresh s) (lru_key_size s) (lru_value_size s) (lru_max_entries s).

Lemma bind_set_tail {X} (f : _ → M _ X) s t : (set_tail t ≫= f) s = f tt (tailed s t).
Proof. done. Qed.
Lemma bind_set_head {X} (f : _ → M _ X) s t : (set_head t ≫= f) s = f tt (headed s t).
Proof. done. Qed.

(** The state when the node between [q] and [B] is taken out. *)
Definition unlinked s A (q : node) B : lru_var_hash_map_impl U :=
  let s1 := stored s q.1 (LruEntry q.2.1 (first_or B None) (last_or A None)) in
  match B with
  | [] => tailed s1 (Some q.1)
  | b :: B' => stored s1 b.1 (LruEntry b.2.1 (first_or B' None) (Some q.1))
  end.

Lemma unlinked_spec s A q n B :
  linked s ((A ++ [q]) ++ n :: B) → NoDup ((A ++ [q]) ++ n :: B).*1 →
  linked (unlinked s A q B) ((A ++ [q]) ++ B) ∧ same_data s (unlinked s A q B) ∧
  lru_heap (unlinked s A q B) !! n.1 = lru_heap s !! n.1.
Proof.
  intros Hl Hnd. destruct (neighbours s A q n B Hl) as (Hn&Hq&Hb). pose proof Hl as (Hc&Hh&Ht).
  pose proof (chain_unlink A q n B (lru_heap s) Hc Hnd) as Hun. simpl in Hun.
  assert (Hqn : q.1 ≠ n.1) by (apply (NoDup_mid_ne (A ++ [q]) n B); [done|set_solver]).
  unfold unlinked. destruct B as [|b B'].
  - rewrite app_nil_r. split; [|split].
    + split; [done|]. simpl. split; [by rewrite Hh, first_or_last|by rewrite last_or_snoc].
    + eapply same_data_trans; [apply stored_same; by eexists|done].
    + simpl. by rewrite lookup_insert_ne.
  - assert (Hbn : b.1 ≠ n.1) by (apply (NoDup_mid_ne (A ++ [q]) n (b :: B')); [done|set_solver]).
    split; [|split].
    + split; [done|]. simpl. split; [by rewrite Hh, !first_or_last|].
      rewrite Ht. by apply last_or_mid.
    + eapply same_data_trans; apply stored_same; [by eexists|]. simpl.
      apply lookup_insert_is_Some'. right. by eexists.
    + simpl. by rewrite !lookup_insert_ne.
Qed.

(** The state when [p] is put in front of a list that begins with [m]. *)
Definition pushed s p k (m : node) N : lru_var_hash_map_impl U :=
  headed (stored (stored s p (LruEntry k (Some m.1) None)) m.1
    (LruEntry m.2.1 (first_or N None) (Some p))) (Some p).

Lemma pushed_spec s p k v m N :
  linked s (m :: N) → NoDup (p :: (m :: N).*1) →
  linked (pushed s p k m N) ((p, (k, v)) :: m :: N).
Proof.
  intros (Hc&Hh&Ht) [Hp [Hm _]%NoDup_cons]%NoDup_cons. unfold pushed. split; [|split].
  - simpl lru_heap. pose proof (chain_push p k v m N (lru_heap s) (LruEntry k (Some m.1) None) Hc Hp Hm) as Hx.
    by rewrite insert_insert_eq in Hx.
  - done.
  - simpl. rewrite Ht. by rewrite (last_or_cons (p, (k, v))), !(last_or_cons m).
Qed.

Lemma move_to_head_spec s A n B :
  linked s (A ++ n :: B) → NoDup (A ++ n :: B).*1 →
  ∃ s', move_to_head n.1 s = (Ok tt, s') ∧ linked s' (n :: A ++ B) ∧ same_data s s'.
Proof.
  intros Hl Hnd. unfold move_to_head. rewrite bind_get. pose proof Hl as (_&Hh&_).
  destruct A as [|a A0 _] using rev_ind; rewrite Hh.
  { simpl. rewrite bool_decide_eq_true_2 by done. by eexists. }
  rename A0 into A, a into q. rewrite first_or_last.
  destruct (neighbours s A q n B Hl) as (Hn&Hq&Hb).
  rewrite bool_decide_eq_false_2; cycle 1.
  { intros He. destruct (A ++ [q]) as [|m M] eqn:E; [by destruct A|]. simpl in He.
    apply (NoDup_mid_ne (m :: M) n B m Hnd); [set_solver|congruence]. }
  erewrite bind_load by done. cbn [e_prev]. erewrite bind_lock by done. cbn [e_next].
  erewrite bind_load by done. rewrite bind_store. cbn [with_next e_key e_prev].
  destruct (unlinked_spec s A q n B Hl Hnd) as (Hl2&Hs2&Hn2).
  set (s2 := unlinked s A q B) in *.
  match goal with |- context [(?b ≫= ?f) ?s1] => assert (Hb2 : (b ≫= f) s1 = f tt s2) end.
  { unfold s2, unlinked. destruct B as [|b B']; cbn [first_or]; [done|].
    erewrite bind_ok; [done|].
    rewrite (bind_load _ _ b.1 (LruEntry b.2.1 (first_or B' None) (Some n.1))); [done|].
    simpl. rewrite lookup_insert_ne; [done|]. intros He.
    rewrite <- app_assoc in Hnd. simpl in Hnd. apply (NoDup_mid_ne A q (n :: b :: B') b Hnd); [set_solver|done]. }
  rewrite Hb2. clear Hb2. rewrite bind_get. erewrite bind_load by (by rewrite Hn2).
  rewrite bind_store. cbn [with_next e_key e_prev].
  erewrite bind_load by (simpl; by rewrite lookup_insert_eq).
  rewrite bind_store. cbn [with_prev e_key e_next].
  assert (∃ m M, (A ++ [q]) ++ B = m :: M) as (m&M&HM).
  { destruct A; simpl; by do 2 eexists. }
  rewrite HM in *. pose proof Hl2 as (Hc2&Hh2&_). rewrite Hh2. cbn [first_or].
  rewrite bind_deref with (a := m.1) by done.
  assert (Hmn : m.1 ≠ n.1).
  { apply (NoDup_mid_ne (A ++ [q]) n B); [done|]. rewrite HM. set_solver. }
  destruct Hc2 as [Hm2 _].
  erewrite bind_load by (simpl; rewrite !lookup_insert_ne by done; exact Hm2).
  rewrite bind_store. cbn [with_prev e_key e_next].
  eexists. split; [done|].
  assert (Hnd2 : NoDup (n.1 :: (m :: M).*1)).
  { rewrite <- HM. rewrite fmap_app in Hnd |- *. simpl in Hnd. by rewrite <- Permutation_middle in Hnd. }
  split.
  - pose proof (pushed_spec s2 n.1 n.2.1 n.2.2 m M Hl2 Hnd2) as Hp. destruct n as [p [k v]]. simpl in *.
    unfold pushed, stored, headed in *. simpl in *. by rewrite insert_insert_eq.
  - eapply same_data_trans; [exact Hs2|]. eapply same_data_trans; [apply stored_same|].
    { rewrite Hn2. by eexists. }
    eapply same_data_trans; [apply stored_same; simpl; by rewrite lookup_insert_eq|].
    eapply same_data_trans; [apply stored_same|done]. simpl.
    rewrite !lookup_insert_ne by done. by rewrite Hm2.
Qed.

(** Which end of the list a node is at. *)
Lemma is_head s A n B :
  linked s (A ++ n :: B) → NoDup (A ++ n :: B).*1 →
  bool_decide (Some n.1 = lru_link_list_head s) = match A with [] => true | _ => false end.
Proof.
  intros (_&->&_) Hnd. destruct A as [|a A]; simpl; [by apply bool_decide_eq_true_2|].
  apply bool_decide_eq_false_2. intros [= He]. apply (NoDup_mid_ne (a :: A) n B a Hnd); [set_solver|done].
Qed.

Lemma is_tail s A n B :
  linked s (A ++ n :: B) → NoDup (A ++ n :: B).*1 →
  bool_decide (Some n.1 = lru_link_list_tail s) = match B with [] => true | _ => false end.
Proof.
  intros (_&_&->) Hnd. destruct B as [|b B]; [rewrite last_or_snoc; by apply bool_decide_eq_true_2|].
  apply bool_decide_eq_false_2. destruct (exists_last (l := b :: B)) as (B'&x&Hx); [done|].
  rewrite Hx in *. rewrite app_comm_cons, app_assoc, last_or_snoc. intros [= He].
  apply (NoDup_mid_ne A n (B' ++ [x]) x Hnd); [set_solver|done].
Qed.

Lemma evict_entry_spec s A n B :
  linked s (A ++ n :: B) → NoDup (A ++ n :: B).*1 →
  ∃ s', evict_entry n.1 s = (Ok tt, s') ∧ linked s' (A ++ B) ∧ same_data s s'.
Proof.
  intros Hl Hnd. unfold evict_entry. rewrite bind_get, (is_head s A n B Hl Hnd), (is_tail s A n B Hl Hnd).
  destruct A as [|q A _] using rev_ind.
  - pose proof Hl as (Hc&Hh&Ht). destruct B as [|b B']; [by eexists|]. simpl app in *.
    destruct Hc as [Hn [Hb Hc]]. erewrite bind_load by done. cbn [e_next first_or].
    rewrite bind_deref with (a := b.1) by done. erewrite bind_load by done.
    rewrite bind_store. cbn [with_prev e_key e_next].
    eexists. split; [done|]. apply NoDup_cons in Hnd as [_ [Hbb _]%NoDup_cons].
    split; [split; [|split]|].
    + simpl lru_heap. eapply chain_set_prev; [|done]. split; [exact Hb|done].
    + done.
    + simpl. rewrite Ht. by rewrite !last_or_cons.
    + eapply same_data_trans; [apply stored_same; by eexists|done].
  - destruct (neighbours s A q n B Hl) as (Hn&Hq&Hb).
    destruct (unlinked_spec s A q n B Hl Hnd) as (Hl2&Hs2&_).
    assert (match A ++ [q] with [] => true | _ => false end = false) as -> by (by destruct A).
    exists (unlinked s A q B). split; [|done].
    destruct B as [|b B']; erewrite bind_load by done; cbn [e_prev]; erewrite bind_lock by done;
      erewrite bind_load by done; rewrite bind_store; cbn [with_next e_key e_prev e_next first_or]; [done|].
    rewrite bind_deref with (a := b.1) by done.
    rewrite (bind_load _ _ b.1 (LruEntry b.2.1 (first_or B' None) (Some n.1))); [done|].
    simpl. rewrite lookup_insert_ne; [done|]. intros He.
    rewrite <- app_assoc in Hnd. simpl in Hnd.
    apply (NoDup_mid_ne A q (n :: b :: B') b Hnd); [set_solver|done].
Qed.

Lemma insert_new_entry_spec s N k v :
  linked s N → NoDup N.*1 → dom (lru_heap s) = list_to_set N.*1 → lru_fresh s ∉ N.*1 →
  ∃ s', insert_new_entry k s = (Ok (lru_fresh s), s') ∧
        linked s' ((lru_fresh s, (k, v)) :: N) ∧
        dom (lru_heap s') = {[lru_fresh s]} ∪ dom (lru_heap s) ∧
        lru_map_impl s' = lru_map_impl s ∧ lru_fresh s' = (lru_fresh s + 1)%positive ∧
        lru_key_size s' = lru_key_size s ∧ lru_value_size s' = lru_value_size s ∧
        lru_max_entries s' = lru_max_entries s.
Proof.
  intros Hl Hnd Hdom Hf. unfold insert_new_entry. pose proof Hl as (Hc&Hh&Ht).
  erewrite bind_ok by done. rewrite bind_get. cbn [lru_link_list_head]. rewrite Hh.
  destruct N as [|m N]; cbn [first_or].
  - rewrite bind_set_head, bind_set_tail. eexists. split; [done|]. split; [split; [|done]|].
    + simpl. by rewrite lookup_insert_eq.
    + simpl. by rewrite dom_insert_L.
  - erewrite bind_load by (simpl; by rewrite lookup_insert_eq).
    rewrite bind_store. cbn [with_next e_key e_prev].
    assert (Hmf : m.1 ≠ lru_fresh s) by (intros He; apply Hf; rewrite <- He; set_solver).
    destruct Hc as [Hm Hc].
    erewrite bind_load by (simpl; rewrite !lookup_insert_ne by done; exact Hm).
    rewrite bind_store, bind_set_head. cbn [with_prev e_key e_next].
    eexists. split; [done|]. split.
    + pose proof (pushed_spec s (lru_fresh s) k v m N Hl) as Hp. unfold pushed, linked in *. simpl in *.
      rewrite insert_insert_eq. apply Hp. by apply NoDup_cons.
    + simpl. rewrite !dom_insert_L. apply elem_of_dom_2 in Hm as Hmd. split; [set_solver|done].
Qed.
End ops.

(** ** The abstract map: entries in the order of their last use *)

Fixpoint find_key (k : list Z) (L : list (list Z * list Z)) : option (list Z) :=
  match L with
  | [] => None
  | (k', v) :: L => if decide (k' = k) then Some v else find_key k L
  end.
Definition remove_key (k : list Z) (L : list (list Z * list Z)) : list (list Z * list Z) :=
  filter (λ x, x.1 ≠ k) L.

Section spec.
(** Key and value size, capacity. *)
Variables (ks vs cap : Z).

#[export] Instance lru_spec : KvMap (list (list Z * list Z)) := {
  kv_lookup L key :=
    match from_user key ks with
    | None => (Fault, L)
    | Some k => match find_key k L with
                | Some v => (Ok v, (k, v) :: remove_key k L)
                | None => (Err ENOENT, L)
                end
    end;
  kv_update L key value flags :=
    if bool_decide (flags ∉ [BPF_ANY; BPF_NOEXIST; BPF_EXIST]) then (Err EINVAL, L)
    else match from_user key ks, from_user value vs with
         | Some k, Some v =>
             match find_key k L with
             | Some _ => if flags =? BPF_NOEXIST then (Err EEXIST, L)
                         else (Ok tt, (k, v) :: remove_key k L)
             | None => if flags =? BPF_EXIST then (Err ENOENT, L)
                       else (Ok tt, (k, v) :: (if zlen L =? cap then removelast L else L))
             end
         | _, _ => (Fault, L)
         end;
  kv_delete L key :=
    match from_user key ks with
    | None => (Fault, L)
    | Some k => match find_key k L with
                | Some _ => (Ok tt, remove_key k L)
                | None => (Err ENOENT, L)
                end
    end
}.

(** Operations with whole keys and values. *)
Definition lru_op_ok (op : kv_op) : Prop :=
  match op with
  | KLookup (Some k) | KDelete (Some k) => ks ≤ zlen k
  | KUpdate (Some k) (Some v) _ => ks ≤ zlen k ∧ vs ≤ zlen v
  | _ => False
  end.
End spec.

Lemma find_key_None k L : k ∉ L.*1 → find_key k L = None.
Proof.
  induction L as [|[k' v] L IH]; simpl; intros Hk; [done|]. rewrite decide_False by set_solver.
  apply IH. set_solver.
Qed.

Lemma remove_key_id k L : k ∉ L.*1 → remove_key k L = L.
Proof.
  unfold remove_key. induction L as [|[k' v] L IH]; simpl; intros Hk; [done|].
  rewrite filter_cons_True by (simpl; set_solver). f_equal. apply IH. set_solver.
Qed.

Lemma find_key_mid k v A B : k ∉ A.*1 → find_key k (A ++ (k, v) :: B) = Some v.
Proof.
  induction A as [|[k' v'] A IH]; simpl; intros Hk; [by rewrite decide_True|].
  rewrite decide_False by set_solver. apply IH. set_solver.
Qed.

Lemma remove_key_mid k v A B : k ∉ A.*1 → k ∉ B.*1 → remove_key k (A ++ (k, v) :: B) = A ++ B.
Proof.
  intros HA HB. unfold remove_key. rewrite filter_app, filter_cons_False by (simpl; tauto).
  fold (remove_key k A) (remove_key k B). by rewrite !remove_key_id.
Qed.

Section refine.
Context {U : Type} `{UnorderedMapLaws hash_map_value U}.
Variables (ks vs cap : Z).
Implicit Types (s : lru_var_hash_map_impl U) (N A B : list node).

(** The state holds the nodes [N]. *)
Record lru_nodes s N : Prop := {
  ln_linked : linked s N;
  ln_ptrs : NoDup N.*1;
  ln_keys : NoDup N.*2.*1;
  ln_dom : dom (lru_heap s) = list_to_set N.*1;
  ln_fresh : ∀ p, p ∈ N.*1 → (p < lru_fresh s)%positive;
  ln_find : ∀ k hv, um_find (lru_map_impl s) k = Some hv ↔ (linked_list_entry hv, (k, hv_value hv)) ∈ N;
  ln_ks : lru_key_size s = ks;
  ln_vs : lru_value_size s = vs;
  ln_cap : lru_max_entries s = cap;
  ln_len : zlen N ≤ cap
}.

Definition lru_rep s (L : list (list Z * list Z)) : Prop := ∃ N, lru_nodes s N ∧ L = N.*2.

Lemma lru_rep_create : 0 ≤ cap → lru_rep (lru_create ks vs cap) [].
Proof.
  intros. exists []. split; [|done]. split; simpl; try done; try apply NoDup_nil_2.
  - set_solver.
  - intros k hv. rewrite um_find_empty. split; [done|set_solver].
Qed.

(** Where a key is, in the table, in the list and in the abstract list. *)
Lemma key_cases s N k :
  lru_nodes s N →
  (um_find (lru_map_impl s) k = None ∧ find_key k N.*2 = None ∧ k ∉ N.*2.*1) ∨
  (∃ A p v B, N = A ++ (p, (k, v)) :: B ∧ um_find (lru_map_impl s) k = Some (HashMapValue v p) ∧
              find_key k N.*2 = Some v ∧ remove_key k N.*2 = (A ++ B).*2 ∧ k ∉ (A ++ B).*2.*1).
Proof.
  intros [_ _ Hkeys _ _ Hfind _ _ _ _]. destruct (um_find (lru_map_impl s) k) as [[v p]|] eqn:E.
  - right. pose proof E as Hin%Hfind. simpl in Hin. apply list_elem_of_split in Hin as (A&B&->).
    rewrite !fmap_app in Hkeys. simpl in Hkeys. apply NoDup_app in Hkeys as (_&Hd&[Hb _]%NoDup_cons).
    assert (k ∉ A.*2.*1) by (intros Hin; apply (Hd k Hin); set_solver).
    exists A, p, v, B. rewrite !fmap_app. simpl.
    rewrite find_key_mid, remove_key_mid by done. repeat split. set_solver.
  - left. assert (Hk : k ∉ N.*2.*1).
    { intros Hin. apply list_elem_of_fmap in Hin as ([k' v]&->&Hin). simpl in *.
      apply list_elem_of_fmap in Hin as ([p [k2 v2]]&[= -> ->]&Hin).
      assert (um_find (lru_map_impl s) k2 = Some (HashMapValue v2 p)) by (by apply Hfind). congruence. }
    by rewrite find_key_None.
Qed.

Lemma map_size s N : lru_nodes s N → um_size (lru_map_impl s) = zlen N.
Proof.
  intros [_ _ Hkeys _ _ Hfind _ _ _ _]. unfold um_size, zlen.
  rewrite (Permutation_length (l' := N.*2.*1)); [by rewrite !length_fmap|].
  apply NoDup_Permutation; [apply um_keys_NoDup|done|]. intros k. rewrite um_keys_find. split.
  - intros [hv Hin%Hfind]. apply list_elem_of_fmap. exists (k, hv_value hv). split; [done|].
    apply list_elem_of_fmap. by exists (linked_list_entry hv, (k, hv_value hv)).
  - intros Hin. apply list_elem_of_fmap in Hin as ([k' v]&->&Hin).
    apply list_elem_of_fmap in Hin as ([p [k2 v2]]&[= -> ->]&Hin).
    exists (HashMapValue v2 p). by apply Hfind.
Qed.

(** ** What the operations do to the nodes *)

Definition mapped s (u : U) : lru_var_hash_map_impl U :=
  LruHashMap u (lru_link_list_head s) (lru_link_list_tail s) (lru_heap s)
    (lru_fresh s) (lru_key_size s) (lru_value_size s) (lru_max_entries s).
Definition freed s (p : positive) : lru_var_hash_map_impl U :=
  LruHashMap (lru_map_impl s) (lru_link_list_head s) (lru_link_list_tail s) (delete p (lru_heap s))
    (lru_fresh s) (lru_key_size s) (lru_value_size s) (lru_max_entries s).

Lemma bind_set_map {X} (f : _ → M _ X) s u : (set_map u ≫= f) s = f tt (mapped s u).
Proof. done. Qed.
Lemma bind_free {X} (f : _ → M _ X) s p : (free p ≫= f) s = f tt (freed s p).
Proof. done. Qed.

(** The nodes in another order. *)
Lemma nodes_reorder s s' N N' :
  lru_nodes s N → N' ≡ₚ N → linked s' N' → same_data s s' → lru_nodes s' N'.
Proof.
  intros [] HP Hl (Hm&Hf&Hk&Hv&Hc&Hd). split; try done.
  - by rewrite HP.
  - by rewrite HP.
  - rewrite Hd, ln_dom0. apply set_eq. intros p. by rewrite !elem_of_list_to_set, HP.
  - intros p. rewrite Hf, HP. auto.
  - intros k hv. by rewrite Hm, HP.
  - congruence.
  - congruence.
  - congruence.
  - unfold zlen. by rewrite HP.
Qed.

(** Another value for a key. *)
Lemma linked_value s A p k v v' B : linked s (A ++ (p, (k, v)) :: B) → linked s (A ++ (p, (k, v')) :: B).
Proof.
  intros (Hc&Hh&Ht). split; [|split].
  - apply chain_app in Hc as [Ha Hb]. by apply chain_app.
  - by rewrite Hh, !first_or_app.
  - rewrite Ht. destruct B as [|b B _] using rev_ind; [by rewrite !last_or_snoc|].
    by rewrite !last_or_mid by (by destruct B).
Qed.

Lemma NoDup_key_ptr s A p k v B p' v' :
  lru_nodes s (A ++ (p, (k, v)) :: B) → (p', (k, v')) ∈ A ++ (p, (k, v)) :: B → p' = p ∧ v' = v.
Proof.
  intros Hn Hin. assert (H1 : um_find (lru_map_impl s) k = Some (HashMapValue v' p')).
  { by apply (ln_find _ _ Hn). }
  assert (H2 : um_find (lru_map_impl s) k = Some (HashMapValue v p)).
  { apply (ln_find _ _ Hn). simpl. set_solver. }
  rewrite H1 in H2. by simplify_eq.
Qed.

Lemma nodes_assign s A p k v v' B :
  lru_nodes s (A ++ (p, (k, v)) :: B) →
  lru_nodes (mapped s (um_assign (lru_map_impl s) k (HashMapValue v' p))) (A ++ (p, (k, v')) :: B).
Proof.
  intros Hn. pose proof (key_cases s _ k Hn) as Hkc. pose proof Hn as [].
  rewrite !fmap_app in *. split; rewrite ?fmap_app; try done; simpl in *; try done.
  - by eapply linked_value.
  - intros k' [v2 p2]. rewrite um_find_assign. simpl. destruct (decide (k = k')) as [<-|Hne].
    + split; [intros [= <- <-]; set_solver|].
      rewrite elem_of_app, elem_of_cons. intros [Hin|[[= <- <-]|Hin]]; [|done|].
      * destruct (NoDup_key_ptr s A p k v B p2 v2 Hn) as [-> ->]; [set_solver|]. exfalso.
        apply NoDup_app in ln_ptrs0 as (_&Hd&_).
        apply (Hd p); [|set_solver]. by apply (list_elem_of_fmap_2 fst) in Hin.
      * destruct (NoDup_key_ptr s A p k v B p2 v2 Hn) as [-> ->]; [set_solver|]. exfalso.
        apply NoDup_app in ln_ptrs0 as (_&_&[Hd _]%NoDup_cons).
        apply Hd. by apply (list_elem_of_fmap_2 fst) in Hin.
    + rewrite ln_find0. simpl. rewrite !elem_of_app, !elem_of_cons. naive_solver.
  - unfold zlen in *. rewrite length_app in *. simpl in *. lia.
Qed.

(** A node leaves the list, the table and the heap. *)
Lemma nodes_drop s s' A p k v B :
  lru_nodes s (A ++ (p, (k, v)) :: B) → linked s' (A ++ B) → dom (lru_heap s') = dom (lru_heap s) →
  lru_map_impl s' = um_erase (lru_map_impl s) k → lru_fresh s' = lru_fresh s →
  lru_key_size s' = lru_key_size s → lru_value_size s' = lru_value_size s →
  lru_max_entries s' = lru_max_entries s →
  lru_nodes (freed s' p) (A ++ B).
Proof.
  intros Hn (Hc&Hh&Ht) Hd Hm Hf Hk Hv Hcp. pose proof Hn as [].
  rewrite !fmap_app in *. simpl in *.
  assert (Hp : p ∉ (A ++ B).*1).
  { rewrite <- Permutation_middle in ln_ptrs0. apply NoDup_cons in ln_ptrs0 as [Hp _]. by rewrite fmap_app. }
  split; rewrite ?fmap_app; simpl; try done; try congruence.
  - split; [|done]. simpl. by apply chain_delete.
  - rewrite <- Permutation_middle in ln_ptrs0. by apply NoDup_cons in ln_ptrs0 as [_ ?].
  - rewrite <- Permutation_middle in ln_keys0. by apply NoDup_cons in ln_keys0 as [_ ?].
  - rewrite dom_delete_L, Hd, ln_dom0. rewrite fmap_app in Hp. set_solver.
  - intros q Hq. rewrite Hf. apply ln_fresh0. set_solver.
  - intros k' [v2 p2]. rewrite Hm, um_find_erase. simpl. destruct (decide (k = k')) as [<-|Hne].
    + split; [done|]. intros Hin. destruct (NoDup_key_ptr s A p k v B p2 v2 Hn) as [-> ->]; [set_solver|].
      destruct Hp. by apply (list_elem_of_fmap_2 fst) in Hin.
    + rewrite ln_find0. simpl. rewrite !elem_of_app, !elem_of_cons. naive_solver.
  - unfold zlen in *. rewrite length_app in *. simpl in *. lia.
Qed.

Lemma nodes_insert s s' N k v :
  lru_nodes s N → k ∉ N.*2.*1 → zlen N < cap →
  linked s' ((lru_fresh s, (k, v)) :: N) →
  dom (lru_heap s') = {[lru_fresh s]} ∪ dom (lru_heap s) →
  lru_map_impl s' = lru_map_impl s → lru_fresh s' = (lru_fresh s + 1)%positive →
  lru_key_size s' = lru_key_size s → lru_value_size s' = lru_value_size s →
  lru_max_entries s' = lru_max_entries s →
  lru_nodes (mapped s' (um_insert (lru_map_impl s') k (HashMapValue v (lru_fresh s)))) ((lru_fresh s, (k, v)) :: N).
Proof.
  intros Hn Hk Hcap Hl Hd Hm Hf ? ? ?. pose proof Hn as [].
  assert (Hfr : lru_fresh s ∉ N.*1) by (intros Hin%ln_fresh0; lia).
  split; simpl; try done; try congruence.
  - by apply NoDup_cons.
  - by apply NoDup_cons.
  - rewrite Hd, ln_dom0. set_solver.
  - intros p Hp. rewrite Hf. apply elem_of_cons in Hp as [->|Hp%ln_fresh0]; lia.
  - intros k' [v2 p2]. rewrite Hm, um_find_insert.
    assert (um_find (lru_map_impl s) k = None) as ->.
    { destruct (key_cases s N k Hn) as [[? _]|(A&p&v0&B&->&_)]; [done|]. destruct Hk.
      rewrite !fmap_app. simpl. set_solver. }
    simpl. rewrite elem_of_cons. destruct (decide (k = k')) as [<-|Hne].
    + split; [intros [= <- <-]; by left|]. intros [[= <- <-]|Hin]; [done|]. destruct Hk.
      apply (list_elem_of_fmap_2 snd) in Hin. by apply (list_elem_of_fmap_2 fst) in Hin.
    + rewrite ln_find0. simpl. naive_solver.
  - rewrite zlen_cons. lia.
Qed.

(** ** Simulation *)

Lemma lookup_sim s L key k :
  lru_rep s L → from_user key ks = Some k →
  kv_sim lru_rep (elem_lookup key s) (kv_lookup (KvMap := lru_spec ks vs cap) L key).
Proof.
  intros (N&Hn&->) Hk. unfold elem_lookup. rewrite bind_get, (ln_ks _ _ Hn), Hk.
  rewrite bind_deref with (a := k) by done. cbn [kv_lookup lru_spec]. rewrite Hk.
  destruct (key_cases s N k Hn) as [(->&->&_)|(A&p&v&B&->&->&->&->&_)].
  - split; [done|]. by exists N.
  - cbn [linked_list_entry hv_value].
    destruct (move_to_head_spec s A (p, (k, v)) B (ln_linked _ _ Hn) (ln_ptrs _ _ Hn)) as (s'&Hm&Hl&Hs).
    erewrite bind_ok by exact Hm. split; [done|]. exists ((p, (k, v)) :: A ++ B). split; [|done].
    eapply nodes_reorder; [done| |done|done]. apply Permutation_middle.
Qed.

Lemma delete_sim s L key k :
  lru_rep s L → from_user key ks = Some k →
  kv_sim lru_rep (elem_delete key s) (kv_delete (KvMap := lru_spec ks vs cap) L key).
Proof.
  intros (N&Hn&->) Hk. unfold elem_delete. rewrite bind_get, (ln_ks _ _ Hn), Hk.
  rewrite bind_deref with (a := k) by done. cbn [kv_delete lru_spec]. rewrite Hk.
  destruct (key_cases s N k Hn) as [(->&->&_)|(A&p&v&B&->&->&->&->&_)].
  - split; [done|]. by exists N.
  - cbn [linked_list_entry].
    destruct (evict_entry_spec s A (p, (k, v)) B (ln_linked _ _ Hn) (ln_ptrs _ _ Hn))
      as (s'&Hm&Hl&(Hmap&Hf&?&?&?&Hd)).
    erewrite bind_ok by exact Hm. rewrite bind_get, bind_set_map. split; [done|]. exists (A ++ B).
    split; [|done]. cbn [fst snd]. eapply nodes_drop; [done|done|done| |done..]. simpl. by rewrite Hmap.
Qed.

(** Making room for a new key. *)
Lemma evict_tail s N :
  lru_nodes s N → zlen N = cap → 0 < cap →
  ∃ s' A n, N = A ++ [n] ∧
    evict_least_recently_used s = (Ok tt, s') ∧ lru_nodes s' A.
Proof.
  intros Hn Hlen Hcap. destruct (exists_last (l := N)) as (A&[p [k v]]&->).
  { intros ->. rewrite zlen_nil in Hlen. lia. }
  pose proof (ln_linked _ _ Hn) as (Hc&Hh&Ht). unfold evict_least_recently_used.
  rewrite bind_get, Ht, last_or_snoc.
  rewrite bind_deref with (a := p) by done.
  erewrite bind_load by (exact (chain_lookup None A (p, (k, v)) [] None _ Hc)).
  cbn [e_key fst snd]. rewrite bind_set_map.
  set (s1 := mapped s (um_erase (lru_map_impl s) k)).
  destruct (evict_entry_spec s1 A (p, (k, v)) []) as (s'&Hm&Hl&(Hmap&Hf&?&?&?&Hd)).
  { exact (ln_linked _ _ Hn). }
  { exact (ln_ptrs _ _ Hn). }
  erewrite bind_ok by exact Hm. exists (freed s' p), A, (p, (k, v)). split; [done|]. split; [done|].
  rewrite <- (app_nil_r A). by eapply nodes_drop.
Qed.

Lemma make_room s N k :
  lru_nodes s N → 0 < cap → k ∉ N.*2.*1 →
  ∃ s1 N1, (if zlen N =? cap then evict_least_recently_used else mret tt) s = (Ok tt, s1) ∧
           lru_nodes s1 N1 ∧ k ∉ N1.*2.*1 ∧ zlen N1 < cap ∧
           N1.*2 = if zlen N =? cap then removelast (N.*2) else N.*2.
Proof.
  intros Hn Hcap Hk. destruct (Z.eqb_spec (zlen N) cap) as [He|He].
  - destruct (evict_tail s N Hn He Hcap) as (s1&A&n&->&Hs1&Hn1). exists s1, A.
    rewrite zlen_snoc in He. rewrite !fmap_app in *. simpl in *. rewrite removelast_last.
    do 2 (split; [done|]). split; [set_solver|]. split; [lia|done].
  - exists s, N. pose proof (ln_len _ _ Hn). do 3 (split; [done|]). split; [lia|done].
Qed.

Lemma update_sim s L key value flags k v :
  lru_rep s L → 0 < cap → from_user key ks = Some k → from_user value vs = Some v →
  kv_sim lru_rep (elem_update key value flags s)
    (kv_update (KvMap := lru_spec ks vs cap) L key value flags).
Proof.
  intros (N&Hn&->) Hcap Hk Hv. unfold elem_update. cbn [kv_update lru_spec]. rewrite good_flag_spec.
  destruct (bool_decide (flags ∉ _)); [by split; [|exists N]|].
  rewrite bind_get, (ln_ks _ _ Hn), (ln_vs _ _ Hn), (ln_cap _ _ Hn), Hk, Hv, (map_size s N Hn).
  rewrite bind_deref with (a := k) by done.
  destruct (key_cases s N k Hn) as [(->&->&Hnin)|(A&p&v0&B&->&->&->&->&_)]; cbn zeta.
  - rewrite bool_decide_eq_false_2 by apply is_Some_None. cbn [negb andb].
    rewrite andb_false_r, andb_true_r. destruct (flags =? BPF_EXIST); [by split; [|exists N]|].
    unfold zlen at 2. rewrite length_fmap. fold (zlen N).
    destruct (make_room s N k Hn Hcap Hnin) as (s1&N1&Hs1&Hn1&Hk1&Hlen1&<-).
    erewrite bind_ok by exact Hs1.
    rewrite bind_deref with (a := v) by done.
    destruct (insert_new_entry_spec s1 N1 k v (ln_linked _ _ Hn1) (ln_ptrs _ _ Hn1) (ln_dom _ _ Hn1))
      as (s2&Hi&Hl&Hd&Hm&Hf&?&?&?).
    { intros Hin%(ln_fresh _ _ Hn1). lia. }
    erewrite bind_ok by exact Hi. rewrite bind_get. split; [done|].
    exists ((lru_fresh s1, (k, v)) :: N1). split; [|done]. by eapply nodes_insert.
  - rewrite bool_decide_eq_true_2 by done. cbn [negb andb]. rewrite andb_true_r, andb_false_r.
    destruct (flags =? BPF_NOEXIST); [split; [done|by exists (A ++ (p, (k, v0)) :: B)]|].
    erewrite bind_ok by done. rewrite bind_deref with (a := v) by done. rewrite bind_get, bind_set_map.
    cbn [linked_list_entry]. pose proof (nodes_assign s A p k v0 v B Hn) as Hn1.
    destruct (move_to_head_spec _ A (p, (k, v)) B (ln_linked _ _ Hn1) (ln_ptrs _ _ Hn1)) as (s'&Hm&Hl&Hs).
    change ((p, (k, v)).1) with p in Hm. rewrite Hm. split; [done|].
    exists ((p, (k, v)) :: A ++ B). split; [|done].
    eapply nodes_reorder; [exact Hn1| |done|done]. apply Permutation_middle.
Qed.

Lemma lru_step_sim s L op :
  0 ≤ ks → 0 ≤ vs → 0 < cap → lru_rep s L → lru_op_ok ks vs op →
  kv_sim lru_rep (kv_step s op) (kv_step (H := lru_spec ks vs cap) L op).
Proof.
  intros Hks Hvs Hcap Hr Hok. apply (kv_step_sim (H0 := lru_spec ks vs cap)); intros; subst op.
  - destruct k as [k|]; [|done]. eapply lookup_sim; [done|]. apply from_user_Some. simpl in Hok. lia.
  - destruct k as [k|]; [|done]. destruct v as [v|]; [|done]. simpl in Hok.
    eapply update_sim; [done|done|apply from_user_Some; lia..].
  - destruct k as [k|]; [|done]. eapply delete_sim; [done|]. apply from_user_Some. simpl in Hok. lia.
Qed.
End refine.

(** ** Properties *)

(** C8 (refinement). A fresh LRU map answers every sequence of lookups, updates and deletes as the list
    of its entries in the order of last use: a lookup or an update moves the key to the front, and
    a new key of a full map evicts the entry at the end. The pointer operations never follow a null
    or dangling link. *)
Theorem lru_refines_list {U} `{UnorderedMapLaws hash_map_value U} ks vs cap ops :
  0 ≤ ks → 0 ≤ vs → 0 < cap → Forall (lru_op_ok ks vs) ops →
  (kv_run (lru_create (U := U) ks vs cap) ops).1 = (kv_run (H := lru_spec ks vs cap) [] ops).1.
Proof.
  intros Hks Hvs Hcap Hok.
  apply (kv_run_sim (H0 := lru_spec ks vs cap) (lru_rep ks vs cap) (lru_op_ok ks vs)); [|by apply lru_rep_create; lia|done].
  intros. by apply lru_step_sim.
Qed.

(** A map for two entries: looking 1 up makes 2 the one that the third key evicts. *)
Definition lru_ops : list kv_op :=
  [KUpdate (Some [1]) (Some [10]) 0; KUpdate (Some [2]) (Some [20]) 0; KLookup (Some [1]);
   KUpdate (Some [3]) (Some [30]) 0; KLookup (Some [2]); KLookup (Some [1]); KDelete (Some [3]);
   KUpdate (Some [3]) (Some [31]) BPF_EXIST].

Lemma lru_refines_list_witness :
  (kv_run (lru_create (U := gmap (list Z) hash_map_value) 1 1 2) lru_ops).1 =
  (kv_run (H := lru_spec 1 1 2) [] lru_ops).1 ∧
  (kv_run (lru_create (U := gmap (list Z) hash_map_value) 1 1 2) lru_ops).1 =
  [Ok []; Ok []; Ok [10]; Ok []; Err ENOENT; Ok [10]; Ok []; Err ENOENT].
Proof.
  split; [|vm_compute; reflexivity].
  apply (lru_refines_list (U := gmap (list Z) hash_map_value) 1 1 2); [lia|lia|lia|].
  repeat constructor; vm_compute; congruence.
Defined.

(** In every reachable state the heap holds exactly the entries of the table (no entry
    leaks, none is freed while it is in use), and there are at most [max_entries] of them. *)
Theorem lru_no_leak {U} `{UnorderedMapLaws hash_map_value U} ks vs cap ops :
  0 ≤ ks → 0 ≤ vs → 0 < cap → Forall (lru_op_ok ks vs) ops →
  let s := (kv_run (lru_create (U := U) ks vs cap) ops).2 in
  (∀ p, is_Some (lru_heap s !! p) ↔ ∃ k hv, um_find (lru_map_impl s) k = Some hv ∧ linked_list_entry hv = p) ∧
  um_size (lru_map_impl s) = Z.of_nat (size (lru_heap s)) ∧ um_size (lru_map_impl s) ≤ cap.
Proof.
  intros Hks Hvs Hcap Hok s.
  destruct (kv_run_sim (H0 := lru_spec ks vs cap) (lru_rep ks vs cap) (lru_op_ok ks vs)
    ltac:(by intros; apply lru_step_sim) ops (lru_create (U := U) ks vs cap) []) as [_ (N&Hn&_)];
    [by apply lru_rep_create; lia|done|].
  fold s in Hn. pose proof (map_size ks vs cap s N Hn) as Hsz. pose proof Hn as [].
  split; [|split].
  - intros p. rewrite <- elem_of_dom, ln_dom0, elem_of_list_to_set. split.
    + intros Hin. apply list_elem_of_fmap in Hin as ([p' [k v]]&->&Hin).
      exists k, (HashMapValue v p'). split; [by apply ln_find0|done].
    + intros (k&hv&Hf%ln_find0&<-). by apply (list_elem_of_fmap_2 fst) in Hf.
  - rewrite Hsz, <- size_dom, ln_dom0, size_list_to_set by done. unfold zlen. by rewrite length_fmap.
  - by rewrite Hsz.
Qed.

Lemma lru_no_leak_witness :
  let s := (kv_run (lru_create (U := gmap (list Z) hash_map_value) 1 1 2) lru_ops).2 in
  um_size (lru_map_impl s) = Z.of_nat (size (lru_heap s)) ∧ um_size (lru_map_impl s) = 1.
Proof.
  intros s. split; [|vm_compute; reflexivity].
  apply (lru_no_leak (U := gmap (list Z) hash_map_value) 1 1 2 lru_ops); [lia|lia|lia|].
  repeat constructor; vm_compute; congruence.
Defined.

(** A map created with [max_entries] 0 follows a null pointer when a key is inserted: the
    table is "full", but there is no least recently used entry. *)
Theorem lru_zero_capacity_faults {U} `{UnorderedMapLaws hash_map_value U} ks vs key value k :
  from_user key ks = Some k →
  (elem_update key value BPF_ANY (lru_create (U := U) ks vs 0)).1 = Fault.
Proof.
  intros Hk. unfold elem_update. cbn [is_good_update_flag BPF_ANY Z.eqb orb negb].
  rewrite bind_get. cbn [lru_create lru_key_size lru_map_impl lru_max_entries]. rewrite Hk.
  rewrite bind_deref with (a := k) by done. rewrite um_find_empty.
  rewrite bool_decide_eq_false_2 by apply is_Some_None. cbn [negb andb BPF_NOEXIST BPF_EXIST Z.eqb].
  rewrite (um_rep_size _ _ um_rep_empty), map_size_empty. reflexivity.
Qed.

Lemma lru_zero_capacity_faults_witness :
  (elem_update (Some [1]) (Some [2]) BPF_ANY (lru_create (U := gmap (list Z) hash_map_value) 1 1 0)).1 = Fault.
Proof. apply (lru_zero_capacity_faults (U := gmap (list Z) hash_map_value) 1 1 _ _ [1]). reflexivity. Defined.
