(* ===== verification/LpmTrie.v ===== *)
(** * Longest-prefix-match trie maps

    [lpm_trie_map_impl] (runtime/src/bpf_map/userspace/lpm_trie_map.cpp).  The nodes own their
    children through unique pointers, so the trie is an inductive tree and an update through a
    [node_unique_ptr *slot] rebuilds the path to the slot.  The abstract map is a finite map from
    prefixes, as lists of bits, to values. *)

From stdpp Require Import base numbers list gmap.
From S2P Require Import Prelude.

(** ** Data *)

(** [bpf_lpm_trie_key]. *)
Record bpf_lpm_trie_key := LpmKey { k_prefixlen : Z; k_data : list Z }.

(** [lpm_trie_node]: [data] is the prefix bytes followed, in a node that is not intermediate, by
    the value. The [flags] field of the code is never read. *)
Inductive lpm_trie_node :=
  | Null
  | Node (prefixlen : Z) (is_intermediate : bool) (data : list Z) (child0 child1 : lpm_trie_node).

Record lpm_trie_map_impl := LpmTrieMap {
  lt_key_size : Z;
  lt_value_size : Z;
  lt_max_entries : Z;
  lt_data_size : Z;
  lt_max_prefixlen : Z;
  lt_root : lpm_trie_node;
  lt_n_entries : Z
}.

Abbreviation LPM_DATA_SIZE_MAX := 256 (only parsing).
Abbreviation LPM_DATA_SIZE_MIN := 1 (only parsing).
Abbreviation LPM_KEY_SIZE_MIN := (4 + LPM_DATA_SIZE_MIN) (only parsing).
Abbreviation LPM_KEY_SIZE_MAX := (4 + LPM_DATA_SIZE_MAX) (only parsing).

(** [rc] is what [pthread_spin_init] returns. *)
Definition lpm_trie_create (key_size value_size max_entries rc : Z) : res lpm_trie_map_impl :=
  if (key_size <? LPM_KEY_SIZE_MIN) || (LPM_KEY_SIZE_MAX <? key_size) then Throw
  else if (value_size =? 0) || (max_entries =? 0) then Throw
  else if negb (rc =? 0) then Throw
  else Ok {| lt_key_size := key_size; lt_value_size := value_size; lt_max_entries := max_entries;
             lt_data_size := key_size - 4; lt_max_prefixlen := (key_size - 4) * 8;
             lt_root := Null; lt_n_entries := 0 |}.

(** The key a key pointer denotes: the length word and [data_size] bytes. *)
Definition load_key (data_size : Z) (key : uptr) : option bpf_lpm_trie_key :=
  l ← key; pl ← load_u32 (Some l); d ← vread l 4 data_size; Some (LpmKey pl d).

Section trie.
(** [_data_size], [_value_size]. *)
Variables (ds vs : Z).

(** Bit [index] of prefix bytes, from the most significant bit of the first byte. The bytes read
    are in range, because prefix bytes are [data_size] long. *)
Definition extract_bit (data : list Z) (index : Z) : Z :=
  if ds * 8 <=? index then 0
  else Z.land (Z.shiftr (nth (Z.to_nat (index / 8)) data 0) (7 - index mod 8)) 1.

(** The loop of [longest_prefix_match], [n] bits before the limit. *)
Fixpoint match_loop (node_data key_data : list Z) (matched : Z) (n : nat) : Z :=
  match n with
  | O => matched
  | S n =>
      if negb (extract_bit node_data matched =? extract_bit key_data matched) then matched
      else match_loop node_data key_data (matched + 1) n
  end.

Definition longest_prefix_match (prefixlen : Z) (data : list Z) (key : bpf_lpm_trie_key) : Z :=
  match_loop data (k_data key) 0 (Z.to_nat (Z.min prefixlen (k_prefixlen key))).

(** [create_node] with the prefix length and [copy_key_data] of its callers: a fresh node for the
    first [prefixlen] bits of the key. *)
Definition create_node (prefixlen : Z) (key : bpf_lpm_trie_key) (value : option (list Z))
  (child0 child1 : lpm_trie_node) : lpm_trie_node :=
  Node prefixlen (match value with Some _ => false | None => true end)
    (k_data key ++ match value with Some v => v | None => [] end) child0 child1.

(** [data.resize(n)] of a byte vector. *)
Definition resize_bytes (data : list Z) (n : Z) : list Z := resize (Z.to_nat n) 0 data.

(** ** Lookup *)

(** The walk of [elem_lookup]; the result is the last candidate, by its flag and data. *)
Fixpoint lookup_walk (maxpl : Z) (node : lpm_trie_node) (key : bpf_lpm_trie_key)
  (found : option (bool * list Z)) : option (bool * list Z) :=
  match node with
  | Null => found
  | Node prefixlen im data child0 child1 =>
      let matchlen := longest_prefix_match prefixlen data key in
      if matchlen =? maxpl then Some (im, data)
      else if matchlen <? prefixlen then found
      else
        let found := if negb im then Some (im, data) else found in
        if matchlen <? k_prefixlen key then
          if extract_bit (k_data key) prefixlen =? 0
          then lookup_walk maxpl child0 key found
          else lookup_walk maxpl child1 key found
        else found
  end.

(** ** Update *)

(** A new intermediate node above [node] and the new node, at their longest common prefix. *)
Definition split_node (matchlen : Z) (key : bpf_lpm_trie_key) (value : list Z)
  (node : lpm_trie_node) : lpm_trie_node :=
  let new_node := create_node (k_prefixlen key) key (Some value) Null Null in
  if negb (extract_bit (k_data key) matchlen =? 0)
  then create_node matchlen key None node new_node
  else create_node matchlen key None new_node node.

(** The guards of every insertion: [BPF_EXIST] asks for a key that is there, and the map must not
    be full. *)
Definition insert_guard (flags : Z) (full : bool) (t t' : lpm_trie_node)
  : res bool * lpm_trie_node :=
  if flags =? 2 then (Err ENOENT, t) else if full then (Err ENOSPC, t) else (Ok true, t').

(** [elem_update] at a slot: the answer, [Ok true] when the number of entries grew, and the tree
    that is in the slot afterwards. The walk goes down while the node's prefix is a proper prefix
    of the key; the four cases of the code are the four branches where it stops. *)
Fixpoint update_slot (maxpl : Z) (full : bool) (slot : lpm_trie_node) (key : bpf_lpm_trie_key)
  (value : list Z) (flags : Z) : res bool * lpm_trie_node :=
  match slot with
  | Null =>
      insert_guard flags full Null (create_node (k_prefixlen key) key (Some value) Null Null)
  | Node prefixlen im data child0 child1 =>
      let matchlen := longest_prefix_match prefixlen data key in
      if negb (prefixlen =? matchlen) || (prefixlen =? k_prefixlen key) || (prefixlen =? maxpl)
      then
        if prefixlen =? k_prefixlen key then
          if matchlen =? k_prefixlen key then
            if flags =? 1 then (Err EEXIST, slot)
            else if (flags =? 2) && im then (Err ENOENT, slot)
            else if im && full then (Err ENOSPC, slot)
            else
              let data := if im then resize_bytes data (ds + vs) else data in
              match vwrite data ds value with
              | Some data' => (Ok im, Node prefixlen false data' child0 child1)
              | None => (Fault, slot)
              end
          else insert_guard flags full slot (split_node matchlen key value slot)
        else if matchlen =? k_prefixlen key then
          insert_guard flags full slot
            (if extract_bit data matchlen =? 0
             then create_node (k_prefixlen key) key (Some value) slot Null
             else create_node (k_prefixlen key) key (Some value) Null slot)
        else insert_guard flags full slot (split_node matchlen key value slot)
      else if extract_bit (k_data key) prefixlen =? 0 then
        let '(r, c) := update_slot maxpl full child0 key value flags in
        (r, Node prefixlen im data c child1)
      else
        let '(r, c) := update_slot maxpl full child1 key value flags in
        (r, Node prefixlen im data child0 c)
  end.

(** ** Delete *)

(** [elem_delete] at a slot: a node whose prefix is the key's becomes intermediate. *)
Fixpoint delete_slot (slot : lpm_trie_node) (key : bpf_lpm_trie_key) : res unit * lpm_trie_node :=
  match slot with
  | Null => (Err ENOENT, Null)
  | Node prefixlen im data child0 child1 =>
      let matchlen := longest_prefix_match prefixlen data key in
      if negb (prefixlen =? matchlen) || (prefixlen =? k_prefixlen key) then
        if negb (prefixlen =? k_prefixlen key) || negb (matchlen =? prefixlen) || im
        then (Err ENOENT, slot)
        else (Ok tt, Node prefixlen true (resize_bytes data ds) child0 child1)
      else if extract_bit (k_data key) prefixlen =? 0 then
        let '(r, c) := delete_slot child0 key in (r, Node prefixlen im data c child1)
      else
        let '(r, c) := delete_slot child1 key in (r, Node prefixlen im data child0 c)
  end.

(** ** First key *)

(** The walk of [map_get_next_key] with a null key: the first node on the path that goes left
    where it can that is not intermediate. *)
Fixpoint leftmost (node : lpm_trie_node) : option bpf_lpm_trie_key :=
  match node with
  | Null => None
  | Node prefixlen im data child0 child1 =>
      if negb im then Some (LpmKey prefixlen (take (Z.to_nat ds) data))
      else match child0 with Null => leftmost child1 | _ => leftmost child0 end
  end.
End trie.

Definition set_root (m : lpm_trie_map_impl) (root : lpm_trie_node) (n : Z) : lpm_trie_map_impl :=
  {| lt_key_size := lt_key_size m; lt_value_size := lt_value_size m;
     lt_max_entries := lt_max_entries m; lt_data_size := lt_data_size m;
     lt_max_prefixlen := lt_max_prefixlen m; lt_root := root; lt_n_entries := n |}.

(** The bytes the returned pointer points to. *)
Definition elem_lookup (m : lpm_trie_map_impl) (key : uptr) : res (list Z) :=
  match key with
  | None => Err EINVAL
  | Some _ =>
      match load_key (lt_data_size m) key with
      | None => Fault
      | Some k =>
          if lt_max_prefixlen m <? k_prefixlen k then Err EINVAL
          else match lookup_walk (lt_data_size m) (lt_max_prefixlen m) (lt_root m) k None with
               | None => Err ENOENT
               | Some (true, _) => Err ENOENT
               | Some (false, data) =>
                   match vread data (lt_data_size m) (lt_value_size m) with
                   | Some v => Ok v
                   | None => Fault
                   end
               end
      end
  end.

Definition elem_update (m : lpm_trie_map_impl) (key value : uptr) (flags : Z)
  : res unit * lpm_trie_map_impl :=
  match key, value with
  | Some _, Some _ =>
      if negb (flags =? 0) && negb (flags =? 1) && negb (flags =? 2) then (Err EINVAL, m)
      else match load_key (lt_data_size m) key, from_user value (lt_value_size m) with
           | Some k, Some v =>
               if lt_max_prefixlen m <? k_prefixlen k then (Err EINVAL, m)
               else
                 let full := lt_max_entries m <=? lt_n_entries m in
                 match update_slot (lt_data_size m) (lt_value_size m) (lt_max_prefixlen m) full
                         (lt_root m) k v flags with
                 | (Ok true, t) => (Ok tt, set_root m t (lt_n_entries m + 1))
                 | (Ok false, t) => (Ok tt, set_root m t (lt_n_entries m))
                 | (Err e, t) => (Err e, set_root m t (lt_n_entries m))
                 | (Raw c, t) => (Raw c, set_root m t (lt_n_entries m))
                 | (Throw, t) => (Throw, set_root m t (lt_n_entries m))
                 | (Fault, t) => (Fault, set_root m t (lt_n_entries m))
                 end
           | _, _ => (Fault, m)
           end
  | _, _ => (Err EINVAL, m)
  end.

Definition elem_delete (m : lpm_trie_map_impl) (key : uptr) : res unit * lpm_trie_map_impl :=
  match key with
  | None => (Err EINVAL, m)
  | Some _ =>
      match load_key (lt_data_size m) key with
      | None => (Fault, m)
      | Some k =>
          if lt_max_prefixlen m <? k_prefixlen k then (Err EINVAL, m)
          else match delete_slot (lt_data_size m) (lt_root m) k with
               | (Ok u, t) =>
                   (Ok u, set_root m t (if 0 <? lt_n_entries m then lt_n_entries m - 1
                                        else lt_n_entries m))
               | (r, t) => (r, set_root m t (lt_n_entries m))
               end
      end
  end.

(** The key written to [*next_key]; [out] tells whether that pointer is not null. *)
Definition map_get_next_key (m : lpm_trie_map_impl) (key : uptr) (out : bool)
  : res bpf_lpm_trie_key :=
  if negb out then Err EINVAL
  else match lt_root m with
       | Null => Err ENOENT
       | Node _ _ _ _ _ =>
           match key with
           | None => match leftmost (lt_data_size m) (lt_root m) with
                     | Some k => Ok k
                     | None => Err ENOENT
                     end
           | Some _ => Err ENOENT
           end
       end.

Definition map_push_elem (m : lpm_trie_map_impl) (value : uptr) (flags : Z) : res unit := Err ENOTSUP.
Definition map_pop_elem (m : lpm_trie_map_impl) (out : bool) : res (list Z) := Err ENOTSUP.
Definition map_peek_elem (m : lpm_trie_map_impl) (out : bool) : res (list Z) := Err ENOTSUP.

(** ** Prefixes as lists of bits *)

(** The first [n] bits of prefix bytes. *)
Definition bits (ds : Z) (data : list Z) (n : Z) : list Z :=
  extract_bit ds data <$> seqZ 0 n.
(** The prefix a key denotes. *)
Definition key_bits (ds : Z) (k : bpf_lpm_trie_key) : list Z := bits ds (k_data k) (k_prefixlen k).

Section bits.
Variable ds : Z.
Implicit Types (d : list Z) (n : Z).

Lemma extract_bit_01 d i : extract_bit ds d i = 0 ∨ extract_bit ds d i = 1.
Proof.
  unfold extract_bit. destruct (_ <=? _); [by left|].
  rewrite Z.land_ones with (n := 1) by lia.
  pose proof (Z.mod_pos_bound (nth (Z.to_nat (i / 8)) d 0 ≫ (7 - i mod 8)) (2 ^ 1)). lia.
Qed.

Lemma length_bits d n : length (bits ds d n) = Z.to_nat n.
Proof. unfold bits. by rewrite length_fmap, length_seqZ. Qed.

Lemma lookup_bits d n (i : nat) :
  Z.of_nat i < n → bits ds d n !! i = Some (extract_bit ds d (Z.of_nat i)).
Proof.
  intros Hi. unfold bits. rewrite list_lookup_fmap, lookup_seqZ_lt by lia. done.
Qed.

Lemma lookup_bits_ge d n (i : nat) : n ≤ Z.of_nat i → bits ds d n !! i = None.
Proof. intros. apply lookup_ge_None_2. rewrite length_bits. lia. Qed.

Lemma bits_eq d d' n n' :
  0 ≤ n → n = n' → (∀ i, 0 ≤ i < n → extract_bit ds d i = extract_bit ds d' i) →
  bits ds d n = bits ds d' n'.
Proof.
  intros Hn <- Hb. apply list_eq. intros i. destruct (decide (Z.of_nat i < n)).
  - rewrite !lookup_bits by done. f_equal. apply Hb. lia.
  - by rewrite !lookup_bits_ge by lia.
Qed.

Lemma take_bits d n m : 0 ≤ m ≤ n → take (Z.to_nat m) (bits ds d n) = bits ds d m.
Proof.
  intros Hm. apply list_eq. intros i. destruct (decide (Z.of_nat i < m)).
  - rewrite lookup_take_lt by lia. by rewrite !lookup_bits by lia.
  - rewrite lookup_take_ge by lia. by rewrite lookup_bits_ge by lia.
Qed.

Lemma bits_snoc d n : 0 ≤ n → bits ds d (n + 1) = bits ds d n ++ [extract_bit ds d n].
Proof.
  intros. unfold bits. rewrite seqZ_app by lia. rewrite fmap_app. simpl. do 3 f_equal.
Qed.

Lemma bits_prefix d n m : 0 ≤ m ≤ n → bits ds d m `prefix_of` bits ds d n.
Proof. intros. rewrite <- (take_bits d n m) by done. apply prefix_take. Qed.

Lemma bits_prefix_eq d d' n m :
  0 ≤ m → bits ds d m `prefix_of` bits ds d' n →
  m ≤ Z.max 0 n ∧ ∀ i, 0 ≤ i < m → extract_bit ds d i = extract_bit ds d' i.
Proof.
  intros Hm Hp. pose proof (prefix_length _ _ Hp) as Hl. rewrite !length_bits in Hl.
  split; [lia|]. intros i Hi.
  pose proof (prefix_lookup_Some _ _ (Z.to_nat i) _ (lookup_bits d m (Z.to_nat i) ltac:(lia)) Hp)
    as H. rewrite lookup_bits, Z2Nat.id in H by lia. congruence.
Qed.

(** Bits only depend on the first [ds] bytes. *)
Lemma extract_bit_app d e i :
  0 ≤ i → zlen d = ds → extract_bit ds (d ++ e) i = extract_bit ds d i.
Proof.
  intros Hi Hd. unfold extract_bit. destruct (Z.leb_spec (ds * 8) i); [done|].
  rewrite app_nth1; [done|]. unfold zlen in Hd.
  pose proof (Z.div_lt_upper_bound i 8 ds). lia.
Qed.

Lemma bits_app d e n : 0 ≤ n → zlen d = ds → bits ds (d ++ e) n = bits ds d n.
Proof. intros. apply bits_eq; [done..|]. intros i Hi. apply extract_bit_app; [lia|done]. Qed.

(** ** The loop of [longest_prefix_match] *)
Lemma match_loop_spec d e k : ∀ j,
  let m := match_loop ds d e j k in
  j ≤ m ≤ j + Z.of_nat k ∧
  (∀ i, j ≤ i < m → extract_bit ds d i = extract_bit ds e i) ∧
  (m < j + Z.of_nat k → extract_bit ds d m ≠ extract_bit ds e m).
Proof.
  induction k as [|k IH]; intros j; simpl.
  - split; [lia|]. split; intros; lia.
  - destruct (Z.eqb_spec (extract_bit ds d j) (extract_bit ds e j)) as [He|He]; simpl.
    + destruct (IH (j + 1)) as (Hb&Hag&Hne). split; [lia|]. split.
      * intros i Hi. destruct (decide (i = j)) as [->|]; [done|]. apply Hag. lia.
      * intros Hm. apply Hne. lia.
    + split; [lia|]. split; [intros; lia|done].
Qed.

Lemma lpm_spec pl d k :
  0 ≤ pl → 0 ≤ k_prefixlen k →
  let m := longest_prefix_match ds pl d k in
  0 ≤ m ≤ pl ∧ m ≤ k_prefixlen k ∧ bits ds d m = bits ds (k_data k) m ∧
  (m < pl → m < k_prefixlen k → extract_bit ds d m ≠ extract_bit ds (k_data k) m).
Proof.
  intros Hp Hk m. destruct (match_loop_spec d (k_data k) (Z.to_nat (Z.min pl (k_prefixlen k))) 0)
    as (Hb&Hag&Hne). fold (longest_prefix_match ds pl d k) in *. fold m in Hb, Hag, Hne.
  repeat split; try lia. apply bits_eq; [lia..|]. intros i Hi. apply Hag. lia.
Qed.

(** The match is the node's whole prefix exactly when that is a prefix of the key's. *)
Lemma lpm_full pl d k :
  0 ≤ pl → 0 ≤ k_prefixlen k →
  longest_prefix_match ds pl d k = pl ↔ bits ds d pl `prefix_of` key_bits ds k.
Proof.
  intros Hp Hk. destruct (lpm_spec pl d k Hp Hk) as (Hb&Hbk&He&Hne). split.
  - intros Heq. rewrite Heq in *. rewrite He. apply bits_prefix. lia.
  - intros [Hl Hag]%bits_prefix_eq; [|done].
    destruct (decide (longest_prefix_match ds pl d k < pl)); [|lia].
    exfalso. apply Hne; [done|lia|]. apply Hag. lia.
Qed.

(** The match is the whole key exactly when that is a prefix of the node's. *)
Lemma lpm_key pl d k :
  0 ≤ pl → 0 ≤ k_prefixlen k →
  longest_prefix_match ds pl d k = k_prefixlen k ↔ key_bits ds k `prefix_of` bits ds d pl.
Proof.
  intros Hp Hk. destruct (lpm_spec pl d k Hp Hk) as (Hb&Hbk&He&Hne). split.
  - intros Heq. unfold key_bits. rewrite <- Heq, <- He. apply bits_prefix. lia.
  - intros [Hl Hag]%bits_prefix_eq; [|done].
    destruct (decide (longest_prefix_match ds pl d k < k_prefixlen k)); [|lia].
    exfalso. apply Hne; [lia|done|]. symmetry. apply Hag. lia.
Qed.
End bits.

(** ** Well-formed tries and what they store *)

Section trie_wf.
Variables (ds vs : Z).

(** Every node extends the prefix [q] of its slot, and the subtree below a node continues with the
    bit of its side. *)
Fixpoint trie_wf (q : list Z) (t : lpm_trie_node) : Prop :=
  match t with
  | Null => True
  | Node pl im d c0 c1 =>
      0 ≤ pl ≤ ds * 8 ∧ zlen d = ds + (if im then 0 else vs) ∧
      q `prefix_of` bits ds d pl ∧
      trie_wf (bits ds d pl ++ [0]) c0 ∧ trie_wf (bits ds d pl ++ [1]) c1
  end.

(** The trie holds value [v] for the prefix [p]. *)
Fixpoint stored (t : lpm_trie_node) (p v : list Z) : Prop :=
  match t with
  | Null => False
  | Node pl im d c0 c1 =>
      (im = false ∧ p = bits ds d pl ∧ v = drop (Z.to_nat ds) d) ∨ stored c0 p v ∨ stored c1 p v
  end.

(** Some node of the trie, intermediate or not, has the prefix [p]. *)
Fixpoint has_node (t : lpm_trie_node) (p : list Z) : Prop :=
  match t with
  | Null => False
  | Node pl im d c0 c1 => p = bits ds d pl ∨ has_node c0 p ∨ has_node c1 p
  end.

(** No intermediate node has a prefix of full length. *)
Fixpoint no_full_im (t : lpm_trie_node) : Prop :=
  match t with
  | Null => True
  | Node pl im d c0 c1 => (im = true → pl < ds * 8) ∧ no_full_im c0 ∧ no_full_im c1
  end.

Lemma trie_wf_weaken q q' t : q' `prefix_of` q → trie_wf q t → trie_wf q' t.
Proof.
  destruct t as [|pl im d c0 c1]; [done|]. intros Hq (?&?&Hp&?&?). repeat split; try done; try lia.
  by etrans.
Qed.

Lemma stored_prefix t : ∀ q p v, trie_wf q t → stored t p v → q `prefix_of` p.
Proof.
  induction t as [|pl im d c0 IH0 c1 IH1]; intros q p v; [done|].
  intros (?&?&Hq&H0&H1) [(_&->&_)|[Hs|Hs]]; [done|..].
  - specialize (IH0 _ _ _ H0 Hs). etrans; [done|]. etrans; [|done]. by apply prefix_app_r.
  - specialize (IH1 _ _ _ H1 Hs). etrans; [done|]. etrans; [|done]. by apply prefix_app_r.
Qed.

Lemma snoc_not_prefix (l k : list Z) x y :
  x ≠ y → l ++ [x] `prefix_of` k → l ++ [y] `prefix_of` k → False.
Proof.
  intros Hne [k1 ->] [k2 H2]. rewrite <- !app_assoc in H2. simplify_eq/=.
Qed.

Lemma snoc_not_refl (l : list Z) x : ¬ (l ++ [x] `prefix_of` l).
Proof. intros H%prefix_length. rewrite length_app in H. simpl in H. lia. Qed.

(** A prefix is stored at most once. *)
Lemma stored_fun t : ∀ q p v v', trie_wf q t → stored t p v → stored t p v' → v = v'.
Proof.
  induction t as [|pl im d c0 IH0 c1 IH1]; intros q p v v'; [done|].
  intros (?&?&Hq&H0&H1) Hs Hs'. cbn [stored] in Hs, Hs'.
  destruct Hs as [(?&->&->)|[Hs|Hs]], Hs' as [(?&He&->)|[Hs'|Hs']]; try done;
    repeat match goal with
    | H : stored c0 _ _ |- _ => pose proof (stored_prefix _ _ _ _ H0 H); revert H
    | H : stored c1 _ _ |- _ => pose proof (stored_prefix _ _ _ _ H1 H); revert H
    end; intros; subst;
    try (exfalso; by eapply snoc_not_refl); try (exfalso; by eapply (snoc_not_prefix _ _ 0 1)).
  - by eapply IH0.
  - by eapply IH1.
Qed.

(** ** Lookup finds the longest stored prefix *)

(** A key of the map: its prefix is at most as long as its bytes. *)
Definition key_wf (k : bpf_lpm_trie_key) : Prop :=
  0 ≤ k_prefixlen k ≤ ds * 8 ∧ zlen (k_data k) = ds.

Lemma length_key_bits k : length (key_bits ds k) = Z.to_nat (k_prefixlen k).
Proof. apply length_bits. Qed.

(** Where the walk continues below a node. *)
Lemma below_prefix d pl b k :
  0 ≤ pl → bits ds d pl ++ [b] `prefix_of` key_bits ds k →
  pl < k_prefixlen k ∧ b = extract_bit ds (k_data k) pl ∧ bits ds d pl `prefix_of` key_bits ds k.
Proof.
  intros Hpl Hp. pose proof (prefix_length _ _ Hp) as Hl.
  rewrite length_app, length_bits, length_key_bits in Hl. simpl in Hl.
  split; [lia|]. split; [|etrans; [|done]; by apply prefix_app_r].
  assert (Hlk : (bits ds d pl ++ [b]) !! Z.to_nat pl = Some b).
  { rewrite lookup_app_r, length_bits by (rewrite length_bits; lia). by rewrite Nat.sub_diag. }
  pose proof (prefix_lookup_Some _ _ _ _ Hlk Hp) as H.
  unfold key_bits in H. rewrite lookup_bits, Z2Nat.id in H by lia. congruence.
Qed.

Lemma stored_below c d pl b p v k :
  0 ≤ pl → trie_wf (bits ds d pl ++ [b]) c → stored c p v → p `prefix_of` key_bits ds k →
  pl < k_prefixlen k ∧ b = extract_bit ds (k_data k) pl ∧ bits ds d pl `prefix_of` key_bits ds k.
Proof.
  intros Hpl Hwf Hs Hp. apply below_prefix; [done|]. etrans; [|done]. by eapply stored_prefix.
Qed.

(** The result of the walk below a slot: it keeps the candidate when the subtree stores no prefix
    of the key, and otherwise ends at the longest one it stores. *)
Definition walk_result (t : lpm_trie_node) (k : bpf_lpm_trie_key) (found r : option (bool * list Z))
  : Prop :=
  (r = found ∧ ∀ p v, stored t p v → ¬ p `prefix_of` key_bits ds k) ∨
  (∃ p d, r = Some (false, d) ∧ zlen d = ds + vs ∧ stored t p (drop (Z.to_nat ds) d) ∧
     p `prefix_of` key_bits ds k ∧
     ∀ p' v', stored t p' v' → p' `prefix_of` key_bits ds k → (length p' ≤ length p)%nat).

(** The step of the walk into the child of the key's next bit. *)
Lemma walk_descend pl im d c0 c1 b k found r :
  let t := Node pl im d c0 c1 in
  let c := if b =? 0 then c0 else c1 in
  0 ≤ pl → b = extract_bit ds (k_data k) pl → zlen d = ds + (if im then 0 else vs) →
  trie_wf (bits ds d pl ++ [0]) c0 → trie_wf (bits ds d pl ++ [1]) c1 →
  bits ds d pl `prefix_of` key_bits ds k →
  walk_result c k (if negb im then Some (im, d) else found) r → walk_result t k found r.
Proof.
  intros t c Hpl Hb Hz H0 H1 Hpre Hr.
  assert (Hc : ∀ p v, p `prefix_of` key_bits ds k → stored c0 p v ∨ stored c1 p v → stored c p v).
  { intros p v Hp [Hs|Hs].
    - destruct (stored_below _ _ _ _ _ _ _ Hpl H0 Hs Hp) as (_&Hbit&_).
      unfold c. by rewrite Hb, <- Hbit.
    - destruct (stored_below _ _ _ _ _ _ _ Hpl H1 Hs Hp) as (_&Hbit&_).
      unfold c. by rewrite Hb, <- Hbit. }
  assert (Hct : ∀ p v, stored c p v → stored t p v).
  { intros p v Hs. unfold c in Hs. simpl. destruct (b =? 0); auto. }
  assert (Hlen : ∀ p v, stored c p v → (length (bits ds d pl) ≤ length p)%nat).
  { intros p v Hs. apply prefix_length. unfold c in Hs.
    destruct (b =? 0); [apply stored_prefix with (2 := Hs) in H0|apply stored_prefix with (2 := Hs) in H1];
      (etrans; [|done]; by apply prefix_app_r). }
  destruct Hr as [[-> Hno]|(p&d'&->&Hz'&Hs&Hp&Hmax)].
  - destruct im; simpl.
    + left. split; [done|]. intros p v [(?&_)|Hs] Hp; [done|]. by eapply Hno; [apply Hc|].
    + right. exists (bits ds d pl), d. split; [done|]. split; [done|]. split; [by left|].
      split; [done|]. intros p' v' [(_&->&_)|Hs'] Hp'; [done|].
      exfalso. by eapply Hno; [apply Hc|].
  - right. exists p, d'. split; [done|]. split; [done|]. split; [by apply Hct|]. split; [done|].
    intros p' v' [(_&->&_)|Hs'] Hp'; [by eapply Hlen|]. eapply Hmax; [|done]. by apply Hc.
Qed.

Lemma lookup_walk_spec k : key_wf k → ∀ t q found,
  trie_wf q t → no_full_im t → walk_result t k found (lookup_walk ds (ds * 8) t k found).
Proof.
  intros [Hk Hkd]. induction t as [|pl im d c0 IH0 c1 IH1]; intros q found Hwf Hnf.
  { left. split; [done|]. by intros. }
  destruct Hwf as (Hpl&Hz&Hq&H0&H1). destruct Hnf as (Him&Hn0&Hn1).
  destruct (lpm_spec ds pl d k) as (Hb&Hbk&He&Hne); [lia..|].
  pose proof (lpm_full ds pl d k ltac:(lia) ltac:(lia)) as Hfull. cbn [lookup_walk].
  set (m := longest_prefix_match ds pl d k) in *.
  assert (Hkids : ∀ p v, ¬ (bits ds d pl `prefix_of` key_bits ds k ∧ pl < k_prefixlen k) →
            stored c0 p v ∨ stored c1 p v → ¬ p `prefix_of` key_bits ds k).
  { intros p v Hnp [Hs|Hs] Hp; apply Hnp.
    - destruct (stored_below c0 d pl 0 p v k) as (?&_&?); [lia|done..].
    - destruct (stored_below c1 d pl 1 p v k) as (?&_&?); [lia|done..]. }
  destruct (Z.eqb_spec m (ds * 8)) as [Hm|Hm].
  { assert (pl = ds * 8) as -> by lia. assert (im = false) as -> by (destruct im; [|done]; lia).
    right. exists (bits ds d (ds * 8)), d. split; [done|]. split; [done|]. split; [by left|].
    split; [by apply Hfull|]. intros p' v' [(_&->&_)|Hs'] Hp'; [done|].
    exfalso. revert Hp'. eapply Hkids; [|done]. lia. }
  destruct (Z.ltb_spec m pl) as [Hlt|Hge].
  { left. split; [done|]. assert (Hnp : ¬ bits ds d pl `prefix_of` key_bits ds k)
      by (intros Hp%Hfull; lia).
    intros p v [(_&->&_)|Hs]; [done|]. eapply Hkids; [tauto|done]. }
  assert (Hpre : bits ds d pl `prefix_of` key_bits ds k) by (apply Hfull; lia).
  destruct (Z.ltb_spec m (k_prefixlen k)) as [Hlk|Hgk].
  - eapply (walk_descend _ _ _ _ _ (extract_bit ds (k_data k) pl)); [lia|done..|].
    destruct (_ =? 0); [by eapply IH0|by eapply IH1].
  - destruct im; simpl.
    + left. split; [done|]. intros p v [(?&_)|Hs]; [done|]. eapply Hkids; [lia|done].
    + right. exists (bits ds d pl), d. split; [done|]. split; [done|]. split; [by left|].
      split; [done|]. intros p' v' [(_&->&_)|Hs'] Hp'; [done|].
      exfalso. revert Hp'. eapply Hkids; [lia|done].
Qed.

(** ** Update *)

Lemma has_node_prefix t : ∀ q p, trie_wf q t → has_node t p → q `prefix_of` p.
Proof.
  induction t as [|pl im d c0 IH0 c1 IH1]; intros q p; [done|].
  intros (?&?&Hq&H0&H1) [->|[Hs|Hs]]; [done|..].
  - specialize (IH0 _ _ H0 Hs). etrans; [done|]. etrans; [|done]. by apply prefix_app_r.
  - specialize (IH1 _ _ H1 Hs). etrans; [done|]. etrans; [|done]. by apply prefix_app_r.
Qed.

Lemma stored_has_node t p v : stored t p v → has_node t p.
Proof.
  induction t as [|pl im d c0 IH0 c1 IH1]; [done|]. intros [(_&->&_)|[Hs|Hs]]; simpl; auto.
Qed.

Section update.
Context (k : bpf_lpm_trie_key) (value : list Z).
Hypothesis k_ok : key_wf k.
Hypothesis value_ok : zlen value = vs.
Let K : list Z := key_bits ds k.

Lemma create_value_wf q c0 c1 :
  q `prefix_of` K → trie_wf (K ++ [0]) c0 → trie_wf (K ++ [1]) c1 →
  trie_wf q (create_node (k_prefixlen k) k (Some value) c0 c1).
Proof.
  intros Hq H0 H1. destruct k_ok as [Hk Hd]. cbn [create_node trie_wf].
  rewrite bits_app by (lia || done). rewrite zlen_app. repeat split; try (done || lia).
Qed.

Lemma create_value_stored c0 c1 p v :
  stored (create_node (k_prefixlen k) k (Some value) c0 c1) p v ↔
  (p = K ∧ v = value) ∨ stored c0 p v ∨ stored c1 p v.
Proof.
  destruct k_ok as [Hk Hd]. cbn [create_node stored]. rewrite bits_app by (lia || done).
  rewrite drop_app_length' by (unfold zlen in *; lia). naive_solver.
Qed.

Lemma create_im_wf q m c0 c1 :
  0 ≤ m ≤ k_prefixlen k → q `prefix_of` bits ds (k_data k) m →
  trie_wf (bits ds (k_data k) m ++ [0]) c0 → trie_wf (bits ds (k_data k) m ++ [1]) c1 →
  trie_wf q (create_node m k None c0 c1).
Proof.
  intros Hm Hq H0 H1. destruct k_ok as [Hk Hd]. cbn [create_node trie_wf].
  rewrite bits_app by (lia || done). rewrite app_nil_r. repeat split; try (done || lia).
Qed.

Lemma create_im_stored m c0 c1 p v :
  stored (create_node m k None c0 c1) p v ↔ stored c0 p v ∨ stored c1 p v.
Proof. cbn [create_node stored]. naive_solver. Qed.

(** [t'] is [t] with the key added. *)
Definition inserted (q : list Z) (t t' : lpm_trie_node) : Prop :=
  trie_wf q t' ∧ (∀ p v, stored t' p v ↔ (p = K ∧ v = value) ∨ stored t p v) ∧
  (no_full_im t → no_full_im t').

Lemma insert_leaf q : q `prefix_of` K →
  inserted q Null (create_node (k_prefixlen k) k (Some value) Null Null).
Proof.
  intros Hq. split; [by apply create_value_wf|]. split; [|done].
  intros p v. rewrite create_value_stored. simpl. tauto.
Qed.

(** Case 3 of the code: the key is a proper prefix of the node's. *)
Lemma insert_ancestor q pl im d c0 c1 :
  let t := Node pl im d c0 c1 in
  trie_wf q t → q `prefix_of` K → K `prefix_of` bits ds d pl → k_prefixlen k < pl →
  inserted q t (if extract_bit ds d (k_prefixlen k) =? 0
                then create_node (k_prefixlen k) k (Some value) t Null
                else create_node (k_prefixlen k) k (Some value) Null t).
Proof.
  intros t Hwf Hq HK Hlt. pose proof Hwf as (Hpl&Hz&Hqd&H0&H1). destruct k_ok as [Hk Hd].
  assert (Hb : K = bits ds d (k_prefixlen k)).
  { apply bits_prefix_eq in HK as [_ Hag]; [|lia]. apply bits_eq; [lia|done|]. apply Hag. }
  assert (Hsub : trie_wf (K ++ [extract_bit ds d (k_prefixlen k)]) t).
  { repeat split; try (done || lia). rewrite Hb, <- bits_snoc by lia. apply bits_prefix. lia. }
  destruct (extract_bit_01 ds d (k_prefixlen k)) as [Hx|Hx]; rewrite Hx in *; simpl;
    (split; [by apply create_value_wf|]; split; [|naive_solver]);
    intros p v; rewrite create_value_stored; simpl; tauto.
Qed.

(** Case 4: the key and the node's prefix part ways at [m]. *)
Lemma insert_split q pl im d c0 c1 m :
  let t := Node pl im d c0 c1 in
  trie_wf q t → q `prefix_of` K → 0 ≤ m → m < pl → m < k_prefixlen k →
  bits ds d m = bits ds (k_data k) m → extract_bit ds d m ≠ extract_bit ds (k_data k) m →
  inserted q t (split_node ds m k value t).
Proof.
  intros t Hwf Hq Hm Hmp Hmk He Hne. pose proof Hwf as (Hpl&Hz&Hqd&H0&H1).
  destruct k_ok as [Hk Hd].
  assert (Hqm : q `prefix_of` bits ds (k_data k) m).
  { destruct (decide (length q ≤ Z.to_nat m)%nat) as [Hl|Hl].
    - rewrite <- (take_bits ds (k_data k) (k_prefixlen k) m) by lia. fold (key_bits ds k). fold K.
      destruct Hq as [q' ->]. rewrite take_app_ge by lia. by apply prefix_app_r.
    - exfalso. apply Hne. destruct (lookup_lt_is_Some_2 q (Z.to_nat m)) as [x Hx]; [lia|].
      pose proof (prefix_lookup_Some _ _ _ _ Hx Hq) as H2.
      pose proof (prefix_lookup_Some _ _ _ _ Hx Hqd) as H3. unfold K, key_bits in H2.
      rewrite lookup_bits, Z2Nat.id in H2, H3 by lia. congruence. }
  assert (Hnew : ∀ b, b = extract_bit ds (k_data k) m →
    trie_wf (bits ds (k_data k) m ++ [b]) (create_node (k_prefixlen k) k (Some value) Null Null)).
  { intros b ->. apply create_value_wf; [|done..]. rewrite <- bits_snoc by lia.
    apply bits_prefix. lia. }
  assert (Hold : ∀ b, b = extract_bit ds d m → trie_wf (bits ds (k_data k) m ++ [b]) t).
  { intros b ->. repeat split; try (done || lia). rewrite <- He, <- bits_snoc by lia.
    apply bits_prefix. lia. }
  unfold split_node.
  destruct (extract_bit_01 ds d m) as [Hx|Hx], (extract_bit_01 ds (k_data k) m) as [Hy|Hy];
    try congruence; rewrite Hy; cbn [Z.eqb negb];
    (split; [apply create_im_wf; [lia|done|by auto..]|]);
    (split; [intros p v; rewrite create_im_stored, create_value_stored; simpl; tauto
            |intros Hn; simpl; split; [lia|]; done]).
Qed.

(** What [update_slot] does to a well-formed subtree. *)
Definition update_post (q : list Z) (t : lpm_trie_node) (flags : Z) (full : bool)
  (x : res bool * lpm_trie_node) : Prop :=
  match x.1 with
  | Ok grew =>
      trie_wf q x.2 ∧
      (∀ p v, stored x.2 p v ↔ (p = K ∧ v = value) ∨ (p ≠ K ∧ stored t p v)) ∧
      (no_full_im t → no_full_im x.2) ∧
      (if grew then full = false ∧ flags ≠ 2 ∧ (∀ v, ¬ stored t K v) else ∃ v, stored t K v) ∧
      (flags = 1 → ¬ has_node t K)
  | Err e =>
      x.2 = t ∧
      (e = EEXIST ∧ flags = 1 ∧ has_node t K ∨
       e = ENOENT ∧ flags = 2 ∧ (∀ v, ¬ stored t K v) ∨
       e = ENOSPC ∧ flags ≠ 2 ∧ full = true ∧ (∀ v, ¬ stored t K v) ∧ (flags = 1 → ¬ has_node t K))
  | _ => False
  end.

Lemma insert_guard_post q t t' flags full :
  ¬ has_node t K → inserted q t t' → update_post q t flags full (insert_guard flags full t t').
Proof.
  intros Hno (Hwf&Hs&Hf).
  assert (Hns : ∀ v, ¬ stored t K v) by (intros v Hv; by eapply Hno, stored_has_node).
  unfold insert_guard. destruct (Z.eqb_spec flags 2); [split; naive_solver|].
  destruct full; [split; naive_solver|]. repeat split; try done; try (by intros); intros.
  - apply Hs in H as [?|H]; [by left|]. right. split; [|done]. intros ->. by eapply Hns.
  - apply Hs. destruct H as [?|[_ ?]]; auto.
Qed.

(** Case 1 of the code: the node has the key's prefix. *)
Lemma overwrite_data (im : bool) d :
  zlen d = ds + (if im then 0 else vs) → 0 ≤ ds → 0 ≤ vs →
  vwrite (if im then resize_bytes d (ds + vs) else d) ds value
  = Some (take (Z.to_nat ds) d ++ value).
Proof.
  intros Hz Hd Hv. unfold resize_bytes.
  assert (Hl : zlen (if im then resize (Z.to_nat (ds + vs)) 0 d else d) = ds + vs).
  { destruct im; [|done]. unfold zlen. rewrite length_resize. lia. }
  rewrite vwrite_Some by (rewrite ?Hl; lia). f_equal.
  rewrite (drop_ge _ (Z.to_nat ds + length value)) by (unfold zlen in *; lia).
  rewrite app_nil_r. f_equal. destruct im; [|done]. rewrite take_resize_le by lia.
  rewrite resize_le by (unfold zlen in *; lia). done.
Qed.

Lemma overwrite_post q pl im d c0 c1 flags full :
  let t := Node pl im d c0 c1 in
  0 ≤ ds → trie_wf q t → bits ds d pl = K → flags ≠ 1 → (flags = 2 → im = false) →
  (im = true → full = false) →
  update_post q t flags full (Ok im, Node pl false (take (Z.to_nat ds) d ++ value) c0 c1).
Proof.
  intros t Hds (Hpl&Hz&Hq&H0&H1) HK Hf1 Hf2 Hfull.
  assert (Htz : zlen (take (Z.to_nat ds) d) = ds).
  { unfold zlen in *. rewrite length_take. destruct im; [lia|]. pose proof (zlen_nonneg value). lia. }
  assert (Hb : bits ds (take (Z.to_nat ds) d ++ value) pl = K).
  { rewrite <- HK, (bits_app _ _ value) by (lia || done).
    rewrite <- (bits_app ds (take (Z.to_nat ds) d) (drop (Z.to_nat ds) d)) by (lia || done).
    by rewrite take_drop. }
  assert (HnK : ∀ v, stored c0 K v ∨ stored c1 K v → False).
  { intros v [Hs|Hs]; eapply stored_prefix in Hs; [|done| |done]; rewrite HK in Hs;
      by eapply snoc_not_refl. }
  unfold update_post; cbn [fst snd]. split; [|split; [|split; [|split]]].
  - cbn [trie_wf]. rewrite Hb, <- HK, zlen_app. repeat split; try (done || lia).
  - intros p v. cbn [stored]. rewrite Hb.
    rewrite drop_app_length' by (unfold zlen in *; lia). split.
    + intros [(_&->&->)|Hs]; [by left|]. right. split; [|by right]. intros ->. by eapply HnK.
    + intros [[-> ->]|[Hne [(_&->&_)|Hs]]]; [by left| |by right]. by rewrite HK in Hne.
  - by intros (_&?&?).
  - destruct im; [|exists (drop (Z.to_nat ds) d); left; by rewrite HK].
    split; [auto|]. split; [intros ->; by specialize (Hf2 eq_refl)|].
    intros v [(?&_)|Hs]; [done|by eapply HnK].
  - done.
Qed.

(** The key is only in the child the walk goes to. *)
Lemma only_below pl im d c0 c1 b :
  let t := Node pl im d c0 c1 in
  0 ≤ pl < k_prefixlen k → trie_wf (bits ds d pl ++ [0]) c0 → trie_wf (bits ds d pl ++ [1]) c1 →
  b = extract_bit ds (k_data k) pl →
  (has_node t K ↔ has_node (if b =? 0 then c0 else c1) K) ∧
  (∀ v, stored t K v ↔ stored (if b =? 0 then c0 else c1) K v) ∧
  K ≠ bits ds d pl ∧ (∀ v, ¬ stored (if b =? 0 then c1 else c0) K v).
Proof.
  intros t Hpl H0 H1 Hb.
  assert (Hne : K ≠ bits ds d pl).
  { intros He. apply (f_equal length) in He. unfold K in He.
    rewrite length_key_bits, length_bits in He. lia. }
  assert (Hc0 : has_node c0 K → b = 0).
  { intros Hh. pose proof (has_node_prefix _ _ _ H0 Hh) as Hp.
    apply below_prefix in Hp as (_&Hx&_); [congruence|lia]. }
  assert (Hc1 : has_node c1 K → b = 1).
  { intros Hh. pose proof (has_node_prefix _ _ _ H1 Hh) as Hp.
    apply below_prefix in Hp as (_&Hx&_); [congruence|lia]. }
  split; [|split; [|split; [done|]]].
  - destruct (Z.eqb_spec b 0); simpl; split; auto; intros [?|[Hh|Hh]]; try done;
      [specialize (Hc1 Hh)|specialize (Hc0 Hh)]; lia.
  - intros v. destruct (Z.eqb_spec b 0); simpl; split; auto; intros [(_&?&_)|[Hh|Hh]]; try done;
      apply stored_has_node in Hh; [specialize (Hc1 Hh)|specialize (Hc0 Hh)]; lia.
  - intros v Hh. destruct (Z.eqb_spec b 0); apply stored_has_node in Hh;
      [specialize (Hc1 Hh)|specialize (Hc0 Hh)]; lia.
Qed.

(** Putting an updated child back below its node. *)
Lemma update_child q pl im d c0 c1 b flags full x :
  let t := Node pl im d c0 c1 in
  let t' := if b =? 0 then Node pl im d x.2 c1 else Node pl im d c0 x.2 in
  trie_wf q t → pl < k_prefixlen k → b = extract_bit ds (k_data k) pl →
  update_post (bits ds d pl ++ [b]) (if b =? 0 then c0 else c1) flags full x →
  update_post q t flags full (x.1, t').
Proof.
  intros t t' (Hpl&Hz&Hq&H0&H1) Hlt Hb Hpost.
  destruct (only_below pl im d c0 c1 b) as (Hn&Hs&HneK&Hoth); [lia|done..|].
  destruct x as [r c]. unfold update_post in *. cbn [fst snd] in *. fold t in Hn, Hs.
  assert (Hb01 : b = 0 ∨ b = 1) by (subst b; apply extract_bit_01).
  destruct r as [grew|e| | |]; try done.
  - destruct Hpost as (Hwf&Hst&Hf&Hg&Hx). split; [|split; [|split; [|split]]].
    + unfold t'. destruct Hb01 as [->| ->]; simpl; repeat split; try (done || lia).
    + intros p v. specialize (Hst p v). unfold t'.
      specialize (Hoth v). unfold t.
      destruct Hb01 as [->| ->]; cbn [Z.eqb] in *; cbn [stored]; rewrite Hst;
        (destruct (decide (p = K)) as [->|]; [|tauto]); split; [|tauto| |tauto];
        (intros [(_&?&_)|[[?|[? _]]|?]]; [done|by left|done|done]) ||
        (intros [(_&?&_)|[?|[?|[? _]]]]; [done|done|by left|done]).
    + unfold t', t. intros (?&?&?). destruct Hb01 as [->| ->]; simpl in *; auto.
    + destruct grew; [|destruct Hg as [v Hv]; exists v; by apply Hs].
      destruct Hg as (?&?&Hg). repeat split; [done..|]. intros v Hv%Hs. by eapply Hg.
    + intros Hf1. rewrite Hn. auto.
  - destruct Hpost as [-> He]. split.
    + unfold t', t. by destruct (b =? 0).
    + rewrite Hn. assert (Hall : (∀ v, ¬ stored (if b =? 0 then c0 else c1) K v) → ∀ v, ¬ stored t K v)
        by (intros Ha v Hv%Hs; by eapply Ha). naive_solver.
Qed.

Lemma update_slot_spec flags full : 0 ≤ ds → ∀ t q,
  trie_wf q t → q `prefix_of` K →
  update_post q t flags full (update_slot ds vs (ds * 8) full t k value flags).
Proof.
  intros Hds. pose proof k_ok as [Hk Hkd]. pose proof value_ok as Hv.
  assert (0 ≤ vs) by (rewrite <- Hv; apply zlen_nonneg).
  induction t as [|pl im d c0 IH0 c1 IH1]; intros q Hwf Hq.
  { apply insert_guard_post; [by intros []|]. by apply insert_leaf. }
  pose proof Hwf as (Hpl&Hz&Hqd&H0&H1). cbn [update_slot].
  destruct (lpm_spec ds pl d k) as (Hb&Hbk&He&Hne); [lia..|].
  pose proof (lpm_full ds pl d k ltac:(lia) ltac:(lia)) as Hfull.
  pose proof (lpm_key ds pl d k ltac:(lia) ltac:(lia)) as Hkey.
  set (m := longest_prefix_match ds pl d k) in *.
  assert (Hno : m ≠ pl → ¬ has_node (Node pl im d c0 c1) K).
  { intros Hm Hh. apply Hm, Hfull. eapply has_node_prefix; [|done].
    repeat split; try (done || lia). }
  destruct (Z.eqb_spec pl m) as [Hpm|Hpm].
  - destruct (Z.eqb_spec pl (k_prefixlen k)) as [Hpk|Hpk]; cbn [negb orb].
    + rewrite (proj2 (Z.eqb_eq m (k_prefixlen k))) by lia.
      assert (HK : bits ds d pl = K) by (unfold K, key_bits; rewrite <- Hpk, Hpm; exact He).
      destruct (Z.eqb_spec flags 1); [split; [done|]; left; repeat split; [done|by left]|].
      assert (Hns : im = true → ∀ v, ¬ stored (Node pl im d c0 c1) K v).
      { intros -> v [(?&_)|[Hs|Hs]]; [done|..]; eapply stored_prefix in Hs; [|done| |done];
          rewrite HK in Hs; by eapply snoc_not_refl. }
      pose proof (overwrite_data im d Hz ltac:(lia) ltac:(lia)) as Hov.
      destruct (Z.eqb_spec flags 2), im; cbn [andb]; try (split; naive_solver).
      * rewrite Hov. by apply overwrite_post.
      * destruct full; [split; naive_solver|]. rewrite Hov. by apply overwrite_post.
      * rewrite Hov. by apply overwrite_post.
    + destruct (Z.eqb_spec pl (ds * 8)); [lia|].
      set (b := extract_bit ds (k_data k) pl).
      pose proof (update_child q pl im d c0 c1 b flags full
        (update_slot ds vs (ds * 8) full (if b =? 0 then c0 else c1) k value flags) Hwf) as Hc.
      assert (Hqb : bits ds d pl ++ [b] `prefix_of` K).
      { unfold b. rewrite Hpm, He, <- bits_snoc by lia. apply bits_prefix. lia. }
      fold b. destruct (extract_bit_01 ds (k_data k) pl) as [Hx|Hx]; fold b in Hx; rewrite Hx in *;
        cbn [Z.eqb] in *.
      * destruct (update_slot ds vs (ds * 8) full c0 k value flags) as [r c] eqn:E.
        apply Hc; [lia|done|]. by apply IH0.
      * destruct (update_slot ds vs (ds * 8) full c1 k value flags) as [r c] eqn:E.
        apply Hc; [lia|done|]. by apply IH1.
  - cbn [negb orb]. specialize (Hno ltac:(congruence)).
    assert (Hsplit : m ≠ k_prefixlen k → update_post q (Node pl im d c0 c1) flags full
      (insert_guard flags full (Node pl im d c0 c1) (split_node ds m k value (Node pl im d c0 c1)))).
    { intros Hmk. apply insert_guard_post; [done|]. apply insert_split; try done; lia. }
    destruct (Z.eqb_spec pl (k_prefixlen k)), (Z.eqb_spec m (k_prefixlen k)) as [Hmk|];
      try lia; try (by apply Hsplit).
    apply insert_guard_post; [done|]. rewrite Hmk.
    apply insert_ancestor; try done; [by apply Hkey|lia].
Qed.

End update.

(** ** Delete *)

Section delete.
Context (k : bpf_lpm_trie_key).
Hypothesis k_ok : key_wf k.
Let K := key_bits ds k.

Lemma bits_take d pl : 0 ≤ ds ≤ zlen d → 0 ≤ pl → bits ds (take (Z.to_nat ds) d) pl = bits ds d pl.
Proof.
  intros. rewrite <- (bits_app ds (take (Z.to_nat ds) d) (drop (Z.to_nat ds) d)).
  - by rewrite take_drop.
  - lia.
  - unfold zlen in *. rewrite length_take. lia.
Qed.

(** What [delete_slot] does to a well-formed subtree. *)
Definition delete_post (q : list Z) (t : lpm_trie_node) (x : res unit * lpm_trie_node) : Prop :=
  match x.1 with
  | Ok _ =>
      trie_wf q x.2 ∧ (∀ p v, stored x.2 p v ↔ p ≠ K ∧ stored t p v) ∧ (∃ v, stored t K v) ∧
      (k_prefixlen k < ds * 8 → no_full_im t → no_full_im x.2)
  | Err e => x.2 = t ∧ e = ENOENT ∧ (∀ v, ¬ stored t K v)
  | _ => False
  end.

Lemma delete_node_post q pl d c0 c1 :
  let t := Node pl false d c0 c1 in
  0 ≤ ds → 0 ≤ vs → trie_wf q t → bits ds d pl = K → pl = k_prefixlen k →
  delete_post q t (Ok tt, Node pl true (resize_bytes d ds) c0 c1).
Proof.
  intros t Hds Hvs (Hpl&Hz&Hq&H0&H1) HK Hpk. unfold resize_bytes.
  rewrite resize_le by (unfold zlen in *; lia).
  assert (Htz : zlen (take (Z.to_nat ds) d) = ds) by (unfold zlen in *; rewrite length_take; lia).
  assert (Hb : bits ds (take (Z.to_nat ds) d) pl = bits ds d pl) by (apply bits_take; lia).
  unfold delete_post; cbn [fst snd]. split; [|split; [|split]].
  - cbn [trie_wf]. rewrite Hb. repeat split; try (done || lia).
  - intros p v. cbn [stored]. rewrite <- HK. split.
    + intros [(?&_)|Hs]; [done|]. split; [|by right]. intros ->.
      destruct Hs as [Hs|Hs]; eapply stored_prefix in Hs; [|done| |done]; by eapply snoc_not_refl.
    + intros [Hne [(_&->&_)|Hs]]; [done|by right].
  - exists (drop (Z.to_nat ds) d). left. by rewrite HK.
  - intros Hlt (?&?&?). simpl. repeat split; [lia|done..].
Qed.

Lemma delete_child q pl im d c0 c1 b x :
  let t := Node pl im d c0 c1 in
  let t' := if b =? 0 then Node pl im d x.2 c1 else Node pl im d c0 x.2 in
  trie_wf q t → pl < k_prefixlen k → b = extract_bit ds (k_data k) pl →
  delete_post (bits ds d pl ++ [b]) (if b =? 0 then c0 else c1) x →
  delete_post q t (x.1, t').
Proof.
  intros t t' (Hpl&Hz&Hq&H0&H1) Hlt Hb Hpost.
  destruct (only_below k pl im d c0 c1 b) as (_&Hs&HneK&Hoth); [lia|done..|]. fold K in Hs, HneK, Hoth.
  destruct x as [r c]. unfold delete_post in *. cbn [fst snd] in *. fold t in Hs.
  assert (Hb01 : b = 0 ∨ b = 1) by (subst b; apply extract_bit_01).
  destruct r as [u|e| | |]; try done.
  - destruct Hpost as (Hwf&Hst&[v0 Hv0]&Hf). split; [|split; [|split]].
    + unfold t'. destruct Hb01 as [->| ->]; simpl; repeat split; try (done || lia).
    + intros p v. specialize (Hst p v). unfold t'. specialize (Hoth v). unfold t.
      destruct Hb01 as [->| ->]; cbn [Z.eqb] in *; cbn [stored]; rewrite Hst;
        (destruct (decide (p = K)) as [->|]; [|tauto]); split; [|tauto| |tauto]; tauto.
    + exists v0. by apply Hs.
    + unfold t', t. intros Hlt' (?&?&?). destruct Hb01 as [->| ->]; simpl in *; auto.
  - destruct Hpost as (->&->&Hno). split; [unfold t', t; by destruct (b =? 0)|].
    split; [done|]. intros v Hv%Hs. by eapply Hno.
Qed.

Lemma delete_slot_spec : 0 ≤ ds → 0 ≤ vs → ∀ t q,
  trie_wf q t → q `prefix_of` K → delete_post q t (delete_slot ds t k).
Proof.
  intros Hds Hvs. pose proof k_ok as [Hk Hkd].
  induction t as [|pl im d c0 IH0 c1 IH1]; intros q Hwf Hq.
  { split; [done|]. split; [done|]. by intros v ?. }
  pose proof Hwf as (Hpl&Hz&Hqd&H0&H1). cbn [delete_slot].
  destruct (lpm_spec ds pl d k) as (Hb&Hbk&He&Hne); [lia..|].
  pose proof (lpm_full ds pl d k ltac:(lia) ltac:(lia)) as Hfull.
  set (m := longest_prefix_match ds pl d k) in *.
  destruct (Z.eqb_spec pl m) as [Hpm|Hpm].
  - destruct (Z.eqb_spec pl (k_prefixlen k)) as [Hpk|Hpk]; cbn [negb orb].
    + rewrite (proj2 (Z.eqb_eq m pl)) by lia. cbn [negb orb].
      assert (HK : bits ds d pl = K) by (unfold K, key_bits; rewrite <- Hpk, Hpm; exact He).
      destruct im; [|by apply delete_node_post].
      split; [done|]. split; [done|]. intros v [(?&_)|[Hs|Hs]]; [done|..];
        eapply stored_prefix in Hs; [|done| |done]; rewrite HK in Hs; by eapply snoc_not_refl.
    + set (b := extract_bit ds (k_data k) pl).
      pose proof (delete_child q pl im d c0 c1 b (delete_slot ds (if b =? 0 then c0 else c1) k) Hwf)
        as Hc.
      assert (Hqb : bits ds d pl ++ [b] `prefix_of` K).
      { unfold b. rewrite Hpm, He, <- bits_snoc by lia. apply bits_prefix. lia. }
      fold b. destruct (extract_bit_01 ds (k_data k) pl) as [Hx|Hx]; fold b in Hx; rewrite Hx in *;
        cbn [Z.eqb] in *.
      * destruct (delete_slot ds c0 k) as [r c] eqn:E. apply Hc; [lia|done|]. by apply IH0.
      * destruct (delete_slot ds c1 k) as [r c] eqn:E. apply Hc; [lia|done|]. by apply IH1.
  - assert (Hno : ¬ has_node (Node pl im d c0 c1) K).
    { intros Hh. assert (m = pl); [|lia]. apply Hfull. eapply has_node_prefix; [|done].
      repeat split; try (done || lia). }
    rewrite (proj2 (Z.eqb_neq m pl)) by lia. cbn [negb orb]. rewrite orb_true_r. cbn [orb].
    split; [done|]. split; [done|]. intros v Hs. by eapply Hno, stored_has_node.
Qed.
End delete.
End trie_wf.
