(* ===== verification/LpmRefine.v ===== *)
(** * Longest-prefix-match tries: refinement of finite maps from prefixes

    The operations of [LpmTrie] act on the finite map from prefixes (lists of bits) to values that
    the trie represents: a lookup returns the value of the longest stored prefix of the key. The
    places where the code departs from that are theorems of their own. *)

From stdpp Require Import base numbers list gmap fin_maps.
From S2P Require Import Prelude.
From S2P Require Import KvMap.
From S2P Require Import LpmTrie.

(** ** The abstract map: a finite map from prefixes to values *)

(** Some length of a prefix of [K] that has a value, from [n] down. *)
Fixpoint longest_in (g : gmap (list Z) (list Z)) (K : list Z) (n : nat) : option (list Z) :=
  match g !! take n K with
  | Some v => Some v
  | None => match n with O => None | S n => longest_in g K n end
  end.

Lemma longest_in_Some g K v p : ∀ n,
  (length p ≤ n ≤ length K)%nat → p `prefix_of` K → g !! p = Some v →
  (∀ p' v', g !! p' = Some v' → p' `prefix_of` K → (length p' ≤ length p)%nat) →
  longest_in g K n = Some v.
Proof.
  intros n Hn [e ->] Hp Hmax. induction n as [|n IH]; cbn [longest_in].
  - destruct p; [|simpl in Hn; lia]. by rewrite take_0, Hp.
  - destruct (decide (length p = S n)) as [Hl|Hl].
    + rewrite <- Hl, take_app_length. by rewrite Hp.
    + destruct (g !! take (S n) (p ++ e)) as [v'|] eqn:E; [|apply IH; lia].
      apply Hmax in E; [|apply prefix_take].
      rewrite length_take in E. lia.
Qed.

Lemma longest_in_None g K : ∀ n,
  (∀ p v, g !! p = Some v → ¬ p `prefix_of` K) → longest_in g K n = None.
Proof.
  intros n Hno. induction n as [|n IH]; cbn [longest_in]; destruct (g !! take _ K) as [v|] eqn:E; try done;
    exfalso; (eapply Hno; [done|apply prefix_take]).
Qed.

Section spec.
(** [_data_size], [_value_size] and [_max_entries]. *)
Variables (ds vs cap : Z).
Abbreviation pmap := (gmap (list Z) (list Z)).

Definition spec_lookup (g : pmap) (key : uptr) : res (list Z) :=
  match key with
  | None => Err EINVAL
  | Some _ =>
      match load_key ds key with
      | None => Fault
      | Some k =>
          if ds * 8 <? k_prefixlen k then Err EINVAL
          else match longest_in g (key_bits ds k) (length (key_bits ds k)) with
               | Some v => Ok v
               | None => Err ENOENT
               end
      end
  end.

Definition spec_update (g : pmap) (key value : uptr) (flags : Z) : res unit * pmap :=
  match key, value with
  | Some _, Some _ =>
      if bool_decide (flags ∉ [BPF_ANY; BPF_NOEXIST; BPF_EXIST]) then (Err EINVAL, g)
      else match load_key ds key, from_user value vs with
           | Some k, Some v =>
               if ds * 8 <? k_prefixlen k then (Err EINVAL, g)
               else match g !! key_bits ds k with
                    | Some _ => if flags =? BPF_NOEXIST then (Err EEXIST, g)
                                else (Ok tt, <[key_bits ds k := v]> g)
                    | None => if flags =? BPF_EXIST then (Err ENOENT, g)
                              else if cap <=? Z.of_nat (size g) then (Err ENOSPC, g)
                              else (Ok tt, <[key_bits ds k := v]> g)
                    end
           | _, _ => (Fault, g)
           end
  | _, _ => (Err EINVAL, g)
  end.

Definition spec_delete (g : pmap) (key : uptr) : res unit * pmap :=
  match key with
  | None => (Err EINVAL, g)
  | Some _ =>
      match load_key ds key with
      | None => (Fault, g)
      | Some k =>
          if ds * 8 <? k_prefixlen k then (Err EINVAL, g)
          else match g !! key_bits ds k with
               | Some _ => (Ok tt, delete (key_bits ds k) g)
               | None => (Err ENOENT, g)
               end
      end
  end.

#[export] Instance prefix_kv : KvMap pmap := {
  kv_lookup g k := (spec_lookup g k, g);
  kv_update := spec_update;
  kv_delete := spec_delete
}.
End spec.

#[export] Instance lpm_kv : KvMap lpm_trie_map_impl := {
  kv_lookup m k := (elem_lookup m k, m);
  kv_update := elem_update;
  kv_delete := elem_delete
}.

(** The trie represents a finite map. *)
Record lpm_rep (ds vs cap : Z) (m : lpm_trie_map_impl) (g : gmap (list Z) (list Z)) : Prop := {
  rep_ds : lt_data_size m = ds;
  rep_vs : lt_value_size m = vs;
  rep_cap : lt_max_entries m = cap;
  rep_max : lt_max_prefixlen m = ds * 8;
  rep_pos : 0 < ds ∧ 0 < vs;
  rep_wf : trie_wf ds vs [] (lt_root m);
  rep_map : ∀ p v, g !! p = Some v ↔ stored ds (lt_root m) p v;
  rep_size : lt_n_entries m = Z.of_nat (size g)
}.

Lemma load_key_wf ds key k : 0 < ds → load_key ds key = Some k → k_prefixlen k ≤ ds * 8 → key_wf ds k.
Proof.
  unfold load_key. intros Hds. destruct key as [l|]; [|done]. cbn [mbind option_bind].
  destruct (load_u32 (Some l)) as [pl|] eqn:Hpl; [|done]. cbn [mbind option_bind].
  destruct (vread l 4 ds) as [d|] eqn:Hd; [|done]. intros [= <-] Hle.
  apply load_u32_bound in Hpl. apply vread_zlen in Hd. simpl in *. split; [simpl; lia|done].
Qed.

Lemma load_key_Some ds l : 0 < ds → 4 + ds ≤ zlen l → ∃ k, load_key ds (Some l) = Some k.
Proof.
  intros. unfold load_key, load_u32. cbn [mbind option_bind].
  rewrite from_user_Some, vread_Some by lia. cbn [mbind option_bind]. by eexists.
Qed.

Section refine.
Variables (ds vs cap : Z).
Implicit Types (m : lpm_trie_map_impl) (g : gmap (list Z) (list Z)) (k : bpf_lpm_trie_key).

Lemma rep_lookup m g k p :
  lpm_rep ds vs cap m g → (∀ v, ¬ stored ds (lt_root m) p v) ↔ g !! p = None.
Proof.
  intros Hr. rewrite eq_None_not_Some. split.
  - intros Hno [v Hv]. by eapply Hno, (rep_map _ _ _ _ _ Hr).
  - intros Hno v Hs. apply Hno. exists v. by apply (rep_map _ _ _ _ _ Hr).
Qed.

Lemma rep_update m g t p v n :
  lpm_rep ds vs cap m g → trie_wf ds vs [] t →
  (∀ p' v', stored ds t p' v' ↔ (p' = p ∧ v' = v) ∨ (p' ≠ p ∧ stored ds (lt_root m) p' v')) →
  n = Z.of_nat (size (<[p := v]> g)) →
  lpm_rep ds vs cap (set_root m t n) (<[p := v]> g).
Proof.
  intros [] Hwf Hst Hn. split; try done. intros p' v'. simpl. rewrite Hst.
  rewrite lookup_insert_Some. rewrite rep_map0. naive_solver.
Qed.

Lemma rep_same m g : lpm_rep ds vs cap m g → lpm_rep ds vs cap (set_root m (lt_root m) (lt_n_entries m)) g.
Proof. by intros []. Qed.

Lemma rep_delete m g t p n :
  lpm_rep ds vs cap m g → trie_wf ds vs [] t →
  (∀ p' v', stored ds t p' v' ↔ p' ≠ p ∧ stored ds (lt_root m) p' v') →
  n = Z.of_nat (size (delete p g)) →
  lpm_rep ds vs cap (set_root m t n) (delete p g).
Proof.
  intros [] Hwf Hst Hn. split; try done. intros p' v'. simpl. rewrite Hst.
  rewrite lookup_delete_Some. rewrite rep_map0. naive_solver.
Qed.

(** Lookup, when no deletion has left an intermediate node of full length. *)
Lemma lookup_refines m g key :
  lpm_rep ds vs cap m g → no_full_im ds (lt_root m) → elem_lookup m key = spec_lookup ds g key.
Proof.
  intros Hr Hnf. pose proof Hr as []. unfold elem_lookup, spec_lookup. rewrite rep_ds0, rep_max0, rep_vs0.
  destruct key as [l|]; [|done]. destruct (load_key ds (Some l)) as [k|] eqn:Hk; [|done].
  destruct (Z.ltb_spec (ds * 8) (k_prefixlen k)); [done|].
  pose proof (load_key_wf ds _ k ltac:(lia) Hk ltac:(lia)) as Hkw.
  destruct (lookup_walk_spec ds vs k Hkw (lt_root m) [] None rep_wf0 Hnf)
    as [[-> Hno]|(p&d&->&Hz&Hs&Hp&Hmax)].
  - rewrite longest_in_None; [done|]. intros p v Hv%rep_map0. by eapply Hno.
  - rewrite vread_Some by lia. apply rep_map0 in Hs.
    rewrite take_ge by (rewrite length_drop; unfold zlen in Hz; lia).
    erewrite longest_in_Some; [done| |done|done|].
    + split; [by apply prefix_length|done].
    + intros p' v' Hv'%rep_map0. by eapply Hmax.
Qed.
Lemma set_root_same m : set_root m (lt_root m) (lt_n_entries m) = m.
Proof. by destruct m. Qed.

(** What an update with a valid key, value and flags does. *)
Definition update_outcome m g (K v : list Z) (flags : Z) (x : res unit * lpm_trie_map_impl) : Prop :=
  match x.1 with
  | Ok _ =>
      lpm_rep ds vs cap x.2 (<[K := v]> g) ∧
      (no_full_im ds (lt_root m) → no_full_im ds (lt_root x.2)) ∧
      (flags = BPF_NOEXIST → ¬ has_node ds (lt_root m) K) ∧
      (g !! K = None → flags ≠ BPF_EXIST ∧ Z.of_nat (size g) < cap)
  | Err e =>
      x.2 = m ∧
      (e = EEXIST ∧ flags = BPF_NOEXIST ∧ has_node ds (lt_root m) K ∨
       e = ENOENT ∧ flags = BPF_EXIST ∧ g !! K = None ∨
       e = ENOSPC ∧ flags ≠ BPF_EXIST ∧ cap ≤ Z.of_nat (size g) ∧ g !! K = None ∧
         (flags = BPF_NOEXIST → ¬ has_node ds (lt_root m) K))
  | _ => False
  end.

Lemma update_outcome_ok m g key value flags k v :
  lpm_rep ds vs cap m g → load_key ds key = Some k → from_user value vs = Some v →
  k_prefixlen k ≤ ds * 8 → flags = 0 ∨ flags = 1 ∨ flags = 2 →
  update_outcome m g (key_bits ds k) v flags (elem_update m key value flags).
Proof.
  intros Hr Hk Hv Hpl Hf. pose proof Hr as [? ? ? ? [? ?] ? ? Hsz].
  destruct key as [kb|]; [|done]. destruct value as [vb|]; [|done]. unfold elem_update.
  replace (negb (flags =? 0) && _ && _) with false
    by (destruct Hf as [->|[->| ->]]; done).
  rewrite rep_ds0, rep_vs0, rep_cap0, rep_max0, Hk, Hv.
  destruct (Z.ltb_spec (ds * 8) (k_prefixlen k)); [lia|].
  pose proof (load_key_wf ds _ k ltac:(lia) Hk Hpl) as Hkw. apply from_user_zlen in Hv.
  pose proof (update_slot_spec ds vs k v Hkw Hv flags (cap <=? lt_n_entries m) ltac:(lia)
    (lt_root m) [] rep_wf0 (prefix_nil _)) as Hpost.
  destruct (update_slot _ _ _ _ _ _ _ _) as [[grew|e| | |] t]; try done; unfold update_post in Hpost;
    cbn [fst snd] in Hpost.
  - destruct Hpost as (Hwf&Hst&Hnf&Hg&Hne). destruct grew; unfold update_outcome; cbn [fst snd].
    + destruct Hg as (Hfull&?&Hno). apply Z.leb_gt in Hfull.
      eapply rep_lookup in Hno; [|done..]. split; [|split; [done|split; [done|]]].
      * eapply rep_update; [done..|]. rewrite map_size_insert_None by done. lia.
      * intros _. unfold BPF_EXIST. lia.
    + destruct Hg as [v' Hv']. apply rep_map0 in Hv'. split; [|split; [done|split; [done|]]].
      * eapply rep_update; [done..|]. rewrite Hsz. by erewrite map_size_insert_Some.
      * congruence.
  - destruct Hpost as [-> He]. unfold update_outcome; cbn [fst snd].
    rewrite set_root_same. split; [done|]. rewrite !(rep_lookup _ _ k _ Hr), Z.leb_le in He.
    unfold BPF_NOEXIST, BPF_EXIST. rewrite Hsz in He. naive_solver.
Qed.

Lemma update_refines m g key value flags :
  lpm_rep ds vs cap m g → flags ≠ BPF_NOEXIST → kv_op_ok (4 + ds) vs (KUpdate key value flags) →
  kv_sim (λ m' g', lpm_rep ds vs cap m' g' ∧ (no_full_im ds (lt_root m) → no_full_im ds (lt_root m')))
    (elem_update m key value flags) (spec_update ds vs cap g key value flags).
Proof.
  intros Hr Hne Hok. pose proof Hr as [? ? ? ? [? ?] ? ? Hsz].
  destruct (decide (flags = 0 ∨ flags = 1 ∨ flags = 2)) as [Hf|Hf]; cycle 1.
  { unfold elem_update, spec_update. destruct key, value; try done.
    rewrite bool_decide_eq_true_2 by (unfold BPF_ANY, BPF_NOEXIST, BPF_EXIST; set_solver).
    destruct (Z.eqb_spec flags 0), (Z.eqb_spec flags 1), (Z.eqb_spec flags 2); try lia. done. }
  destruct key as [kb|], value as [vb|]; try done. destruct Hok as [Hkb Hvb].
  pose proof (update_outcome_ok m g (Some kb) (Some vb) flags) as Hout.
  unfold spec_update. rewrite bool_decide_eq_false_2
    by (unfold BPF_ANY, BPF_NOEXIST, BPF_EXIST; set_solver).
  destruct (load_key_Some ds kb) as [k Hk]; [lia..|].
  rewrite from_user_Some in * by lia. rewrite Hk in *.
  destruct (Z.ltb_spec (ds * 8) (k_prefixlen k)).
  { unfold elem_update. rewrite rep_ds0, rep_vs0, rep_max0, Hk, from_user_Some by lia.
    destruct (Z.ltb_spec (ds * 8) (k_prefixlen k)); [|lia].
    by destruct Hf as [->|[->| ->]]. }
  specialize (Hout k _ Hr eq_refl eq_refl ltac:(lia) Hf).
  rewrite (proj2 (Z.eqb_neq flags BPF_NOEXIST)) by done.
  destruct (elem_update _ _ _ _) as [[u|e| | |] m']; try done; unfold update_outcome in Hout;
    cbn [fst snd] in Hout.
  - destruct Hout as (Hr'&Hnf&_&Hnew). destruct u. destruct (g !! key_bits ds k) eqn:E; [done|].
    destruct Hnew as [??]; [done|].
    by rewrite (proj2 (Z.eqb_neq flags BPF_EXIST)), (proj2 (Z.leb_gt cap (Z.of_nat (size g)))) by done.
  - destruct Hout as [-> [(?&?&_)|[(->&->&->)|(->&?&?&->&_)]]]; try done.
    by rewrite (proj2 (Z.eqb_neq flags BPF_EXIST)), (proj2 (Z.leb_le cap (Z.of_nat (size g)))) by done.
Qed.

(** Delete, on a key that is shorter than the map's longest ones. *)
Lemma delete_refines m g key :
  lpm_rep ds vs cap m g → kv_op_ok (4 + ds) vs (KDelete key) →
  kv_sim (λ m' g', lpm_rep ds vs cap m' g' ∧
            (load_key ds key ≫= (λ k, Some (k_prefixlen k)) ≠ Some (ds * 8) →
             no_full_im ds (lt_root m) → no_full_im ds (lt_root m')))
    (elem_delete m key) (spec_delete ds g key).
Proof.
  intros Hr Hok. pose proof Hr as [? ? ? ? [? ?] ? ? Hsz].
  unfold elem_delete, spec_delete. rewrite rep_ds0, rep_max0.
  destruct key as [kb|]; [|done]. destruct (load_key_Some ds kb) as [k Hk]; [simpl in Hok; lia..|].
  rewrite Hk. destruct (Z.ltb_spec (ds * 8) (k_prefixlen k)) as [|Hpl]; [done|].
  pose proof (load_key_wf ds _ k ltac:(lia) Hk Hpl) as Hkw.
  pose proof (delete_slot_spec ds vs k Hkw ltac:(lia) ltac:(lia) (lt_root m) [] rep_wf0 (prefix_nil _))
    as Hpost.
  destruct (delete_slot _ _ _) as [[u|e| | |] t]; try done; unfold delete_post in Hpost;
    cbn [fst snd] in Hpost.
  - destruct Hpost as (Hwf&Hst&[v Hv]&Hnf). apply rep_map0 in Hv. rewrite Hv. destruct u.
    pose proof (map_size_delete_Some _ _ (mk_is_Some _ _ Hv)) as Hd.
    assert (size g ≠ 0%nat) by (intros ->%map_size_empty_inv; by rewrite lookup_empty in Hv).
    split; [done|]. split.
    + cbn [snd]. eapply rep_delete; [done..|]. rewrite Hd.
      destruct (Z.ltb_spec 0 (lt_n_entries m)); lia.
    + intros Hlen. simpl in Hlen. apply Hnf.
      destruct (decide (k_prefixlen k = ds * 8)) as [He|]; [by rewrite He in Hlen|lia].
  - destruct Hpost as (->&->&Hno). eapply rep_lookup in Hno; [|done..]. rewrite Hno.
    by rewrite set_root_same.
Qed.
End refine.

(** ** Sequences of operations *)

(** The operations on which the code agrees with the abstract map: not [BPF_NOEXIST], which also
    fails on prefixes of intermediate nodes, and no deletion of a key of full length, whose node a
    later lookup of that key stops at. *)
Definition lpm_op_ok (ds vs : Z) (op : kv_op) : Prop :=
  kv_op_ok (4 + ds) vs op ∧
  match op with
  | KLookup _ => True
  | KUpdate _ _ flags => flags ≠ BPF_NOEXIST
  | KDelete key => load_key ds key ≫= (λ k, Some (k_prefixlen k)) ≠ Some (ds * 8)
  end.

Lemma create_rep ks vs cap rc m :
  0 ≤ vs → lpm_trie_create ks vs cap rc = Ok m →
  lpm_rep (ks - 4) vs cap m ∅ ∧ no_full_im (ks - 4) (lt_root m).
Proof.
  unfold lpm_trie_create.
  intros Hvs. split_code; try done; intros [= <-]; bool_to_prop; split; [|done];
    split; simpl; try done; try lia; intros p v; rewrite lookup_empty; by split.
Qed.

Section run.
Variables (ds vs cap : Z).

Definition lpm_R (m : lpm_trie_map_impl) (g : gmap (list Z) (list Z)) : Prop :=
  lpm_rep ds vs cap m g ∧ no_full_im ds (lt_root m).

Lemma lpm_step_sim m g op :
  lpm_R m g → lpm_op_ok ds vs op →
  kv_sim lpm_R (kv_step m op) (kv_step (H := prefix_kv ds vs cap) g op).
Proof.
  intros [Hr Hnf] [Hok Hop].
  apply (kv_step_sim (H0 := prefix_kv ds vs cap)); intros; subst op; cbn [kv_lookup kv_update kv_delete lpm_kv prefix_kv].
  - split; [by eapply lookup_refines|done].
  - destruct (update_refines ds vs cap m g k v f) as (?&?&?); [done..|]. split; [done|]. split; auto.
  - destruct (delete_refines ds vs cap m g k) as (?&?&?); [done..|]. split; [done|]. split; auto.
Qed.

(** Whatever the operations, the trie stays well formed and no step leaves a buffer. *)
Definition lpm_inv (m : lpm_trie_map_impl) : Prop := ∃ g, lpm_rep ds vs cap m g.

(** The node a lookup ends at has the data its kind of node has. *)
Lemma lookup_walk_zlen t k : ∀ q found r,
  trie_wf ds vs q t →
  (∀ (im : bool) d, found = Some (im, d) → zlen d = ds + (if im then 0 else vs)) →
  lookup_walk ds (ds * 8) t k found = r →
  ∀ (im : bool) d, r = Some (im, d) → zlen d = ds + (if im then 0 else vs).
Proof.
  induction t as [|pl im d c0 IH0 c1 IH1]; intros q found r; [naive_solver|].
  intros (Hpl&Hz&Hq&H0&H1) Hf. cbn [lookup_walk].
  destruct (_ =? _); [naive_solver|]. destruct (_ <? _); [naive_solver|].
  assert (Hf' : ∀ (im' : bool) d', (if negb im then Some (im, d) else found) = Some (im', d') →
    zlen d' = ds + (if im' then 0 else vs)) by (destruct im; naive_solver).
  destruct (_ <? _); [|naive_solver].
  destruct (_ =? 0); [by eapply IH0|by eapply IH1].
Qed.

Lemma lookup_safe m g key :
  lpm_rep ds vs cap m g → kv_op_ok (4 + ds) vs (KLookup key) → safe (elem_lookup m key).
Proof.
  intros [] Hok. unfold safe, elem_lookup. rewrite rep_ds0, rep_max0, rep_vs0.
  destruct key as [kb|]; [|done]. destruct (load_key_Some ds kb) as [k ->]; [simpl in Hok; lia..|].
  destruct (_ <? _); [done|]. destruct (lookup_walk _ _ _ _ _) as [[[] d]|] eqn:E; [done| |done].
  pose proof (lookup_walk_zlen _ _ [] None _ rep_wf0 ltac:(naive_solver) E false d eq_refl) as Hz.
  cbn iota in Hz.   rewrite vread_Some by lia. done.
Qed.

(** The arguments an update rejects before it touches the trie. *)
Lemma update_rejects m g key value flags :
  lpm_rep ds vs cap m g → kv_op_ok (4 + ds) vs (KUpdate key value flags) →
  elem_update m key value flags = (Err EINVAL, m) ∨
  (∃ k v, load_key ds key = Some k ∧ from_user value vs = Some v ∧ k_prefixlen k ≤ ds * 8 ∧
          (flags = 0 ∨ flags = 1 ∨ flags = 2)).
Proof.
  intros [? ? ? ? [? ?]] [Hkb Hvb]. unfold elem_update. rewrite rep_ds0, rep_vs0, rep_max0.
  destruct key as [kb|]; [|by left]. destruct value as [vb|]; [|by left].
  destruct (load_key_Some ds kb) as [k Hk]; [lia..|]. rewrite Hk, from_user_Some by lia.
  destruct (Z.ltb_spec (ds * 8) (k_prefixlen k)).
  - left. by destruct (_ && _).
  - destruct (negb (flags =? 0) && _ && _) eqn:E; [by left|]. right. do 2 eexists.
    do 3 (split; [done|]). bool_to_prop. lia.
Qed.

Lemma lpm_step_inv m op :
  lpm_inv m → kv_op_ok (4 + ds) vs op → safe (kv_step m op).1 ∧ lpm_inv (kv_step m op).2.
Proof.
  intros [g Hr] Hok. destruct op as [key|key value flags|key];
    cbn [kv_step kv_lookup kv_update kv_delete lpm_kv].
  - split; [by eapply lookup_safe|by exists g].
  - destruct (update_rejects m g key value flags Hr Hok) as [->|(k&v&Hk&Hv&Hpl&Hf)];
      [by split; [|exists g]|].
    pose proof (update_outcome_ok ds vs cap m g key value flags k v Hr Hk Hv Hpl Hf) as Hout.
    destruct (elem_update _ _ _ _) as [[u|e| | |] m']; try done.
    + destruct Hout as [Hr' _]. split; [done|by eexists].
    + destruct Hout as [Hm _]. simpl in Hm. subst m'. split; [done|by exists g].
  - destruct (delete_refines ds vs cap m g key Hr Hok) as [Hres [Hr' _]].
    destruct (elem_delete m key) as [x m']. cbn [fst snd] in *. split; [|by eexists]. subst x.
    pose proof Hr as []. unfold spec_delete. destruct key as [kb|]; [|done].
    destruct (load_key_Some ds kb) as [k ->]; [simpl in Hok; lia..|].
    destruct (_ <? _); [done|]. by destruct (_ !! _).
Qed.

Lemma lpm_run_inv ops : ∀ m,
  lpm_inv m → Forall (kv_op_ok (4 + ds) vs) ops →
  Forall safe (kv_run m ops).1 ∧ lpm_inv (kv_run m ops).2.
Proof.
  induction ops as [|op ops IH]; intros m Hi Hok; [done|].
  apply Forall_cons in Hok as [Hop Hok]. cbn [kv_run].
  destruct (lpm_step_inv m op Hi Hop) as [Hs Hi']. destruct (kv_step m op) as [r m'].
  destruct (IH m' Hi' Hok) as [Hss Hi'']. destruct (kv_run m' ops). simpl in *. auto.
Qed.
End run.

Lemma load_key_zlen ds vs key k : load_key ds key = Some k → kv_op_ok (4 + ds) vs (KDelete key).
Proof.
  unfold load_key. destruct key as [l|]; [|done]. cbn [mbind option_bind].
  destruct (load_u32 (Some l)) as [pl|] eqn:Hpl; [|done]. cbn [mbind option_bind].
  destruct (vread l 4 ds) as [d|] eqn:Hd; [|done]. intros _. simpl.
  apply vread_inv in Hd. lia.
Qed.

(** After a deletion of a key of full length, a walk for it ends at its intermediate node. *)
Lemma delete_slot_hides ds vs k t : ∀ q t',
  key_wf ds k → k_prefixlen k = ds * 8 → 0 < ds ∧ 0 < vs → trie_wf ds vs q t →
  delete_slot ds t k = (Ok tt, t') →
  ∀ found, ∃ d, lookup_walk ds (ds * 8) t' k found = Some (true, d).
Proof.
  induction t as [|pl im d c0 IH0 c1 IH1]; intros q t' Hkw Hlen Hpos Hwf E found; [done|].
  pose proof Hwf as (Hpl&Hz&Hqd&H0&H1). pose proof Hkw as [Hk Hkd].
  cbn [delete_slot] in E.
  pose proof (lpm_full ds pl d k ltac:(lia) ltac:(lia)) as Hfull.
  set (m := longest_prefix_match ds pl d k) in *.
  destruct (Z.eqb_spec pl m) as [Hpm|Hpm], (Z.eqb_spec pl (k_prefixlen k)) as [Hpk|Hpk];
    cbn [negb orb] in E; try done.
  - rewrite (proj2 (Z.eqb_eq m pl)) in E by lia. destruct im; [done|]. injection E as <-.
    exists (resize_bytes d ds). cbn [lookup_walk].
    rewrite (proj2 (lpm_full ds pl (resize_bytes d ds) k ltac:(lia) ltac:(lia))).
    + by rewrite (proj2 (Z.eqb_eq pl (ds * 8))) by lia.
    + unfold resize_bytes. rewrite resize_le by (unfold zlen in *; lia).
      rewrite bits_take by lia. by apply Hfull.
  - destruct (extract_bit ds (k_data k) pl =? 0) eqn:Eb;
      [destruct (delete_slot ds c0 k) as [r c] eqn:Ec|destruct (delete_slot ds c1 k) as [r c] eqn:Ec];
      injection E as -> <-; cbn [lookup_walk]; fold m;
      rewrite (proj2 (Z.eqb_neq m (ds * 8))), (proj2 (Z.ltb_ge m pl)), (proj2 (Z.ltb_lt m _)), Eb by lia;
      [by eapply IH0|by eapply IH1].
  - rewrite (proj2 (Z.eqb_neq m pl)) in E by lia. done.
Qed.

Lemma leftmost_stored ds vs t : ∀ q k,
  0 < ds ∧ 0 < vs → trie_wf ds vs q t → leftmost ds t = Some k → ∃ v, stored ds t (key_bits ds k) v.
Proof.
  induction t as [|pl im d c0 IH0 c1 IH1]; intros q k Hpos Hwf; [done|].
  destruct Hwf as (Hpl&Hz&_&Hw0&Hw1). cbn [leftmost]. destruct im; cbn [negb].
  - destruct c0; intros Hl;
      [destruct (IH1 _ _ Hpos Hw1 Hl) as [v ?]|destruct (IH0 _ _ Hpos Hw0 Hl) as [v ?]];
      exists v; simpl; tauto.
  - intros [= <-]. eexists. left. split; [done|]. split; [|done].
    unfold key_bits. simpl. apply bits_take; lia.
Qed.

(** Maps with two-byte prefixes and one-byte values, for the examples. *)
Definition lpm_key2 (pl a b : Z) : uptr := Some (le_store 4 pl ++ [a; b]).
Definition lpm_empty2 : lpm_trie_map_impl := LpmTrieMap 6 1 3 2 16 Null 0.

Lemma lpm_empty2_rep : lpm_rep 2 1 3 lpm_empty2 ∅.
Proof. by apply (create_rep 6 1 3 0). Qed.

Lemma lpm_insert2 m g key k v :
  lpm_rep 2 1 3 m g → load_key 2 key = Some k → k_prefixlen k ≤ 16 →
  (elem_update m key (Some [v]) BPF_ANY).1 = Ok tt →
  lpm_rep 2 1 3 (elem_update m key (Some [v]) BPF_ANY).2 (<[key_bits 2 k := [v]]> g).
Proof.
  intros Hr Hk Hpl Hok.
  pose proof (update_outcome_ok 2 1 3 m g key (Some [v]) BPF_ANY k [v] Hr Hk eq_refl Hpl ltac:(by left))
    as Ho.
  unfold update_outcome in Ho. rewrite Hok in Ho. by destruct Ho.
Qed.

(** ** Properties *)

(** C6 (refinement). Longest prefix match: a trie of a fresh map answers every sequence of lookups,
    updates and deletes (without [BPF_NOEXIST] and deletions of full-length keys) as the finite map
    from prefixes to values does, in which a lookup returns the value of the longest stored prefix
    of its key, errors and the capacity check included. *)
Theorem lpm_refines_prefix_map ks vs cap rc m ops :
  0 ≤ vs → lpm_trie_create ks vs cap rc = Ok m → Forall (lpm_op_ok (ks - 4) vs) ops →
  (kv_run m ops).1 = (kv_run (H := prefix_kv (ks - 4) vs cap) ∅ ops).1.
Proof.
  intros Hvs Hc Hok.
  apply (kv_run_sim (H0 := prefix_kv (ks - 4) vs cap) (lpm_R (ks - 4) vs cap) (lpm_op_ok (ks - 4) vs));
    [by intros; apply lpm_step_sim| |done].
  by eapply create_rep in Hc.
Qed.

(** An IPv4-like map: 10.0.0.0/8 and 10.1.0.0/16, by a two-byte prefix. *)
Definition lpm_ops : list kv_op :=
  [KUpdate (lpm_key2 8 10 0) (Some [1]) 0; KUpdate (lpm_key2 16 10 1) (Some [2]) 0;
   KLookup (lpm_key2 16 10 1); KLookup (lpm_key2 16 10 7); KDelete (lpm_key2 8 10 0);
   KLookup (lpm_key2 16 10 7); KUpdate (lpm_key2 3 0 0) (Some [3]) 2].

Lemma lpm_refines_prefix_map_witness : ∃ m,
  lpm_trie_create 6 1 3 0 = Ok m ∧
  (kv_run m lpm_ops).1 = (kv_run (H := prefix_kv 2 1 3) ∅ lpm_ops).1 ∧
  (kv_run m lpm_ops).1 = [Ok []; Ok []; Ok [2]; Ok [1]; Ok []; Err ENOENT; Err ENOENT].
Proof.
  eexists. split; [reflexivity|]. split; [|vm_compute; reflexivity].
  apply (lpm_refines_prefix_map 6 1 3 0); [lia|reflexivity|].
  repeat constructor; simpl; (done || (vm_compute; congruence)).
Defined.

(** Whatever the operations, flags and lengths, the trie of a fresh map stays a
    well-formed prefix tree that represents some finite map, [n_entries] is its size, and no
    operation reads or writes outside a node's data. *)
Theorem lpm_reachable_wf ks vs cap rc m ops :
  0 ≤ vs → lpm_trie_create ks vs cap rc = Ok m → Forall (kv_op_ok ks vs) ops →
  Forall safe (kv_run m ops).1 ∧ ∃ g, lpm_rep (ks - 4) vs cap (kv_run m ops).2 g.
Proof.
  intros Hvs Hc Hok. eapply create_rep in Hc as [Hr _]; [|done].
  apply lpm_run_inv; [by eexists|]. by replace (4 + (ks - 4)) with ks by lia.
Qed.

Lemma lpm_reachable_wf_witness : ∃ m,
  lpm_trie_create 6 1 3 0 = Ok m ∧ Forall safe (kv_run m (lpm_ops ++ [KDelete (lpm_key2 16 10 1)])).1.
Proof.
  eexists. split; [reflexivity|]. apply (lpm_reachable_wf 6 1 3 0); [lia|reflexivity|].
  repeat constructor; simpl; (done || (vm_compute; congruence)).
Defined.

(** Deleting a stored key of full length hides the shorter prefixes that cover it: the
    map represented is the old one without the key, yet a lookup of the key answers [ENOENT]
    whatever other prefixes are stored. *)
Theorem lpm_deleted_full_key_hides ds vs cap m g key k :
  lpm_rep ds vs cap m g → load_key ds key = Some k → k_prefixlen k = ds * 8 →
  is_Some (g !! key_bits ds k) →
  (elem_delete m key).1 = Ok tt ∧
  lpm_rep ds vs cap (elem_delete m key).2 (delete (key_bits ds k) g) ∧
  elem_lookup (elem_delete m key).2 key = Err ENOENT.
Proof.
  intros Hr Hk Hlen [v Hv]. pose proof Hr as []. pose proof (load_key_wf ds _ k ltac:(lia) Hk ltac:(lia)) as Hkw.
  assert (Hok : kv_op_ok (4 + ds) vs (KDelete key)) by (by eapply load_key_zlen).
  destruct (delete_refines ds vs cap m g key Hr Hok) as [Hres [Hr' _]].
  destruct key as [kb|]; [|done]. unfold spec_delete in Hres, Hr'. rewrite Hk, Hv in Hres, Hr'.
  rewrite (proj2 (Z.ltb_ge _ _)) in Hres, Hr' by lia. cbn [fst snd] in Hres, Hr'.
  split; [done|]. split; [done|]. pose proof Hr' as [Hds' _ _ Hmax' _ _ _ _].
  unfold elem_lookup. rewrite Hds', Hmax', Hk, (proj2 (Z.ltb_ge _ _)) by lia.
  unfold elem_delete in *. rewrite rep_ds0, rep_max0, Hk, (proj2 (Z.ltb_ge _ _)) in * by lia.
  destruct (delete_slot ds (lt_root m) k) as [[[]|e| | |] t] eqn:E; try done.
  destruct (delete_slot_hides ds vs k (lt_root m) [] t Hkw Hlen ltac:(lia) rep_wf0 E None) as [d Hd].
  cbn [snd set_root lt_root]. by rewrite Hd.
Qed.

Lemma lpm_deleted_full_key_hides_witness : ∃ m g,
  lpm_rep 2 1 3 m g ∧ g !! bits 2 [10; 0] 8 = Some [1] ∧
  elem_lookup m (lpm_key2 16 10 1) = Ok [2] ∧
  elem_lookup (elem_delete m (lpm_key2 16 10 1)).2 (lpm_key2 16 10 1) = Err ENOENT.
Proof.
  set (k1 := lpm_key2 8 10 0). set (k2 := lpm_key2 16 10 1).
  set (m1 := (elem_update lpm_empty2 k1 (Some [1]) 0).2). set (m2 := (elem_update m1 k2 (Some [2]) 0).2).
  set (g := <[bits 2 [10; 1] 16 := [2]]> (<[bits 2 [10; 0] 8 := [1]]> ∅) : gmap (list Z) (list Z)).
  assert (H1 : lpm_rep 2 1 3 m1 (<[bits 2 [10; 0] 8 := [1]]> ∅)).
  { apply (lpm_insert2 _ _ _ (LpmKey 8 [10; 0])); [exact lpm_empty2_rep|reflexivity|done|reflexivity]. }
  assert (H2 : lpm_rep 2 1 3 m2 g).
  { apply (lpm_insert2 _ _ _ (LpmKey 16 [10; 1])); [exact H1|reflexivity|done|reflexivity]. }
  exists m2, g. split; [exact H2|]. split; [vm_compute; reflexivity|].
  split; [vm_compute; reflexivity|].
  apply (lpm_deleted_full_key_hides 2 1 3 m2 g k2 (LpmKey 16 [10; 1]) H2); [reflexivity..|].
  by eexists.
Defined.

(** [BPF_NOEXIST] is answered by the nodes of the trie, not by the stored keys: the
    update fails with [EEXIST] exactly when some node, intermediate or not, has the key's prefix;
    otherwise it fails with [ENOSPC] exactly when the map is full, and inserts the value when not. *)
Theorem lpm_update_noexist ds vs cap m g key value k v :
  lpm_rep ds vs cap m g → load_key ds key = Some k → from_user value vs = Some v →
  k_prefixlen k ≤ ds * 8 →
  let x := elem_update m key value BPF_NOEXIST in
  (x.1 = Err EEXIST ∧ x.2 = m ∧ has_node ds (lt_root m) (key_bits ds k)) ∨
  (¬ has_node ds (lt_root m) (key_bits ds k) ∧
   if cap <=? Z.of_nat (size g) then x = (Err ENOSPC, m)
   else x.1 = Ok tt ∧ lpm_rep ds vs cap x.2 (<[key_bits ds k := v]> g)).
Proof.
  intros Hr Hk Hv Hpl.
  pose proof (update_outcome_ok ds vs cap m g key value BPF_NOEXIST k v Hr Hk Hv Hpl ltac:(auto)) as Ho.
  simpl. destruct (elem_update _ _ _ _) as [[[]|e| | |] m']; try done; unfold update_outcome in Ho;
    cbn [fst snd] in *.
  - destruct Ho as (Hr'&_&Hno&Hnew). right. specialize (Hno eq_refl). split; [done|].
    assert (Hg : g !! key_bits ds k = None).
    { apply (rep_lookup ds vs cap m g k); [done|]. intros v' Hs. by eapply Hno, stored_has_node. }
    rewrite (proj2 (Z.leb_gt _ _)) by (by apply Hnew). done.
  - destruct Ho as [-> [(->&_&Hh)|[(_&?&_)|(->&_&Hc&_&Hno)]]]; [by left|done|].
    right. split; [auto|]. by rewrite (proj2 (Z.leb_le _ _)) by done.
Qed.

(** 10.0.0.0/9 and 10.128.0.0/9 meet in an intermediate node for 10.0.0.0/8, which is not stored. *)
Lemma lpm_update_noexist_witness : ∃ m g,
  lpm_rep 2 1 3 m g ∧ g !! bits 2 [10; 0] 8 = None ∧
  (elem_update m (lpm_key2 8 10 0) (Some [3]) BPF_NOEXIST).1 = Err EEXIST ∧
  has_node 2 (lt_root m) (bits 2 [10; 0] 8).
Proof.
  set (k1 := lpm_key2 9 10 0). set (k2 := lpm_key2 9 10 128).
  set (m1 := (elem_update lpm_empty2 k1 (Some [1]) 0).2). set (m2 := (elem_update m1 k2 (Some [2]) 0).2).
  set (g := <[bits 2 [10; 128] 9 := [2]]> (<[bits 2 [10; 0] 9 := [1]]> ∅) : gmap (list Z) (list Z)).
  assert (H1 : lpm_rep 2 1 3 m1 (<[bits 2 [10; 0] 9 := [1]]> ∅)).
  { apply (lpm_insert2 _ _ _ (LpmKey 9 [10; 0])); [exact lpm_empty2_rep|reflexivity|done|reflexivity]. }
  assert (H2 : lpm_rep 2 1 3 m2 g).
  { apply (lpm_insert2 _ _ _ (LpmKey 9 [10; 128])); [exact H1|reflexivity|done|reflexivity]. }
  exists m2, g. split; [exact H2|]. split; [vm_compute; reflexivity|].
  destruct (lpm_update_noexist 2 1 3 m2 g (lpm_key2 8 10 0) (Some [3]) (LpmKey 8 [10; 0]) [3] H2
    eq_refl eq_refl ltac:(done)) as [(He&_&Hn)|[_ Hr]]; [exact (conj He Hn)|].
  exfalso. vm_compute in Hr. destruct Hr as [Hr _]. discriminate Hr.
Defined.

(** [map_get_next_key] answers a null key with a stored key, and any other key with
    [ENOENT], so an iteration never gets past its first key. *)
Theorem lpm_next_key ds vs cap m g :
  lpm_rep ds vs cap m g →
  (∀ k, map_get_next_key m None true = Ok k → is_Some (g !! key_bits ds k)) ∧
  (∀ l, map_get_next_key m (Some l) true = Err ENOENT).
Proof.
  intros [? ? ? ? [? ?] Hwf ? ?]. split.
  - intros k Hk. assert (Hl : leftmost ds (lt_root m) = Some k).
    { unfold map_get_next_key in Hk. rewrite rep_ds0 in Hk. destruct (lt_root m); [done|].
      simpl negb in Hk. cbn iota in Hk. destruct (leftmost _ _); by simplify_eq. }
    destruct (leftmost_stored ds vs _ _ _ ltac:(lia) Hwf Hl) as [v Hv]. exists v. by apply rep_map0.
  - intros l. unfold map_get_next_key. simpl. by destruct (lt_root m).
Qed.

Lemma lpm_next_key_witness : ∃ m,
  lpm_rep 2 1 3 m (<[bits 2 [10; 0] 9 := [1]]> ∅) ∧
  map_get_next_key m None true = Ok (LpmKey 9 [10; 0]) ∧
  map_get_next_key m (lpm_key2 9 10 0) true = Err ENOENT.
Proof.
  exists (elem_update lpm_empty2 (lpm_key2 9 10 0) (Some [1]) 0).2.
  assert (H1 : lpm_rep 2 1 3 (elem_update lpm_empty2 (lpm_key2 9 10 0) (Some [1]) 0).2
    (<[bits 2 [10; 0] 9 := [1]]> ∅)).
  { apply (lpm_insert2 _ _ _ (LpmKey 9 [10; 0])); [exact lpm_empty2_rep|reflexivity|done|reflexivity]. }
  split; [exact H1|]. split; [vm_compute; reflexivity|]. apply (lpm_next_key 2 1 3 _ _ H1).
Defined.
