(* ===== verification/Primes.v ===== *)
(** * Bucket counts: the prime search of the fixed-size hash map

    [is_prime] and [next_prime] of runtime/src/bpf_map/bpftime_hash_map.hpp, on 64-bit [size_t]. *)

From stdpp Require Import base numbers.
From Stdlib Require Import Znumtheory.
From S2P Require Import Prelude.

(** The trial divisions of [is_prime], from [i]. *)
Fixpoint prime_loop (fuel : nat) (n i : Z) : bool :=
  match fuel with
  | O => true
  | S fuel =>
      if u64 (i * i) <=? n then
        if (n mod i =? 0) || (n mod u64 (i + 2) =? 0) then false
        else prime_loop fuel n (u64 (i + 6))
      else true
  end.

(** [i] grows by 6 from 5 while its square is at most [n], so the loop has fewer rounds than the
    square root of [n]. *)
Definition is_prime (n : Z) : bool :=
  if n <=? 1 then false
  else if n <=? 3 then true
  else if (n mod 2 =? 0) || (n mod 3 =? 0) then false
  else prime_loop (Z.to_nat (Z.sqrt n)) n 5.

(** The loop runs at most once per 64-bit number. *)
Definition next_prime (n : Z) : Z :=
  match iter_until (2 ^ 64) (λ n, if is_prime n then inr n else inl (u64 (n + 1))) n with
  | inl n | inr n => n
  end.

(** ** Trial division *)

Lemma mod_eqb_divide n d : 0 < d → (n mod d =? 0) = true ↔ (d | n).
Proof. intros. rewrite Z.eqb_eq. apply Z.mod_divide. lia. Qed.

(** No divisor up to the square root: prime. *)
Lemma prime_small_divisors n :
  1 < n → (∀ d, 1 < d → d * d ≤ n → ¬ (d | n)) → prime n.
Proof.
  intros Hn Hd. apply prime_alt. split; [done|]. intros d [H1 H2] Hdn. pose proof Hdn as [e He].
  destruct (Z.le_gt_cases (d * d) n); [by eapply (Hd d)|].
  apply (Hd e); [nia|nia|]. exists d. lia.
Qed.

(** What the checks of one round rule out. *)
Lemma round_no_divisor n i d :
  i mod 6 = 5 → ¬ (2 | n) → ¬ (3 | n) → ¬ (i | n) → ¬ (i + 2 | n) → i ≤ d < i + 6 → ¬ (d | n).
Proof.
  intros Hi H2 H3 Hi0 Hi2 Hd Hdn.
  assert (Hi6 : i = 6 * (i / 6) + 5) by (rewrite <- Hi; apply Z.div_mod; lia).
  assert (Hcase : d = i ∨ d = i + 1 ∨ d = i + 2 ∨ d = i + 3 ∨ d = i + 4 ∨ d = i + 5) by lia.
  destruct Hcase as [->|[->|[->|[->|[->| ->]]]]]; try done.
  - apply H2. etrans; [|exact Hdn]. exists (3 * (i / 6) + 3). lia.
  - apply H2. etrans; [|exact Hdn]. exists (3 * (i / 6) + 4). lia.
  - apply H3. etrans; [|exact Hdn]. exists (2 * (i / 6) + 3). lia.
  - apply H2. etrans; [|exact Hdn]. exists (3 * (i / 6) + 5). lia.
Qed.

Lemma prime_loop_spec n fuel : ∀ i,
  3 < n < 2 ^ 62 → ¬ (2 | n) → ¬ (3 | n) →
  5 ≤ i → i mod 6 = 5 → Z.sqrt n < i + 6 * Z.of_nat fuel → i ≤ Z.sqrt n + 6 →
  (∀ d, 1 < d < i → ¬ (d | n)) →
  prime_loop fuel n i = true ↔ prime n.
Proof.
  assert (Hs : ∀ i, 0 ≤ n → Z.sqrt n < i → n < i * i).
  { intros i H0 Hi. pose proof (Z.sqrt_spec n H0) as [_ Hs]. pose proof (Z.sqrt_nonneg n). nia. }
  induction fuel as [|fuel IH]; intros i Hn H2 H3 Hi Hi6 Hfuel Hib Hnod; cbn [prime_loop].
  { split; [|done]. intros _. apply prime_small_divisors; [lia|]. intros d Hd Hdd. apply Hnod.
    split; [done|]. specialize (Hs i ltac:(lia) ltac:(lia)). nia. }
  assert (Hsq : Z.sqrt n < 2 ^ 31) by (apply Z.sqrt_lt_square; lia).
  rewrite !u64_small by nia. destruct (Z.leb_spec (i * i) n) as [Hii|Hii].
  - destruct ((n mod i =? 0) || (n mod (i + 2) =? 0)) eqn:Hm.
    + split; [done|]. intros [_ Hp]%prime_alt. exfalso. assert (5 * i ≤ i * i) by nia.
      apply orb_true_iff in Hm as [Hm|Hm]; apply mod_eqb_divide in Hm; try lia;
        (eapply Hp; [|exact Hm]); lia.
    + apply orb_false_iff in Hm as [Hm1 Hm2]. assert (i ≤ Z.sqrt n) by (apply Z.sqrt_le_square; lia).
      apply IH; try done; [lia| | |lia|].
      * rewrite Zplus_mod, Hi6. done.
      * lia.
      * intros d Hd. destruct (decide (d < i)); [apply Hnod; lia|].
        apply (round_no_divisor n i); try done; try lia;
          (rewrite <- mod_eqb_divide by lia; by apply not_true_iff_false).
  - split; [|done]. intros _. apply prime_small_divisors; [lia|]. intros d Hd Hdd. apply Hnod. nia.
Qed.

(** The trial division decides primality, on the numbers whose square root's successors do not
    overflow. *)
Lemma is_prime_prime n : 0 ≤ n < 2 ^ 62 → is_prime n = true ↔ prime n.
Proof.
  intros Hn. unfold is_prime. destruct (Z.leb_spec n 1).
  { split; [done|]. intros Hp%prime_ge_2. lia. }
  destruct (Z.leb_spec n 3).
  { split; [|done]. intros _. assert (n = 2 ∨ n = 3) as [-> | ->] by lia; [apply prime_2|apply prime_3]. }
  destruct ((n mod 2 =? 0) || (n mod 3 =? 0)) eqn:Hm.
  { split; [done|]. intros [_ Hp]%prime_alt. exfalso.
    apply orb_true_iff in Hm as [Hm|Hm]; apply mod_eqb_divide in Hm; try lia;
      (eapply Hp; [|exact Hm]); lia. }
  apply orb_false_iff in Hm as [Hm2 Hm3].
  assert (H2 : ¬ (2 | n)) by (rewrite <- mod_eqb_divide by lia; by apply not_true_iff_false).
  assert (H3 : ¬ (3 | n)) by (rewrite <- mod_eqb_divide by lia; by apply not_true_iff_false).
  assert (Hsq : 1 ≤ Z.sqrt n) by (apply Z.sqrt_le_square; lia).
  apply prime_loop_spec; try done; try lia.
  intros d Hd Hdn. assert (d = 2 ∨ d = 3 ∨ d = 4) as [->|[->| ->]] by lia; try done.
  apply H2. etrans; [|exact Hdn]. by exists 2.
Qed.

(** ** The search *)

Definition prime_step (n : Z) : Z + Z := if is_prime n then inr n else inl (u64 (n + 1)).

Lemma prime_search p fuel : ∀ n,
  0 ≤ n ≤ p → p < 2 ^ 62 → is_prime p = true → (Z.to_nat (p - n) < fuel)%nat →
  ∃ q, nat_until fuel prime_step n = inr q ∧ n ≤ q ≤ p ∧ is_prime q = true ∧
       ∀ d, n ≤ d < q → is_prime d = false.
Proof.
  induction fuel as [|fuel IH]; intros n Hn Hp Hpp Hf; [lia|].
  cbn [nat_until]. unfold prime_step at 1. destruct (is_prime n) eqn:E.
  - exists n. repeat split; try done; lia.
  - assert (n ≠ p) by congruence. rewrite u64_small by lia.
    destruct (IH (n + 1)) as (q&Hq&Hb&Hqp&Hl); [lia|lia|done|lia|].
    exists q. repeat split; try done; try lia. intros d Hd.
    destruct (decide (d = n)) as [->|]; [done|apply Hl; lia].
Qed.

(** The first prime above 2^32 - 1. *)
Lemma prime_above_u32 : is_prime 4294967311 = true.
Proof. vm_compute. reflexivity. Qed.

Lemma next_prime_search n : 0 ≤ n ≤ 2 ^ 32 →
  n ≤ next_prime n ≤ 4294967311 ∧ is_prime (next_prime n) = true ∧
  ∀ d, n ≤ d < next_prime n → is_prime d = false.
Proof.
  intros Hn. unfold next_prime. rewrite iter_until_nat. fold prime_step.
  destruct (prime_search 4294967311 (Pos.to_nat (2 ^ 64)) n) as (q&Hq&Hr);
    [lia|lia|apply prime_above_u32|lia|].
  by rewrite Hq.
Qed.

(** ** Properties *)

(** [is_prime] decides primality for every count below 2^62. *)
Theorem is_prime_correct n : 0 ≤ n < 2 ^ 62 → is_prime n = true ↔ prime n.
Proof. apply is_prime_prime. Qed.

Lemma is_prime_correct_witness : prime 65537 ∧ ¬ prime 65535.
Proof.
  split; [apply (is_prime_correct 65537); [lia|vm_compute; reflexivity]|].
  intros Hp. apply (is_prime_correct 65535) in Hp; [|lia]. vm_compute in Hp. discriminate Hp.
Defined.

(** [next_prime] ends for every 32-bit bucket count, at the least prime that is not
    below it, and the result is at most 4294967311. *)
Theorem next_prime_least n : 0 ≤ n ≤ 2 ^ 32 →
  n ≤ next_prime n ≤ 4294967311 ∧ prime (next_prime n) ∧ ∀ p, prime p → n ≤ p → next_prime n ≤ p.
Proof.
  intros Hn. destruct (next_prime_search n Hn) as (Hb&Hp&Hl). split; [done|]. split.
  - apply is_prime_prime; [lia|done].
  - intros p Hpp Hnp. destruct (Z.le_gt_cases (next_prime n) p) as [|Hlt]; [done|].
    specialize (Hl p ltac:(lia)). apply is_prime_prime in Hpp; [congruence|lia].
Qed.

Lemma next_prime_least_witness : prime 1009 ∧ next_prime 1000 = 1009.
Proof.
  split; [|vm_compute; reflexivity].
  replace 1009 with (next_prime 1000) by (vm_compute; reflexivity).
  apply (next_prime_least 1000). lia.
Defined.
