(* ===== verification/HashMap.v ===== *)
(** * Fixed-size hash maps

    [bpftime_hash_map] (runtime/src/bpf_map/bpftime_hash_map.hpp), open addressing with linear
    probing in one byte vector, and the map type on top of it, [fix_size_hash_map_impl]
    (runtime/src/bpf_map/userspace/fix_hash_map.cpp). Bucket [i] is the [4 + key_size + value_size]
    bytes at offset [i] times that: a 32-bit flag, the key and the value. A pointer into the vector
    is its offset. *)

From stdpp Require Import base numbers list.
From S2P Require Import Prelude.
From S2P Require Import Primes.
From S2P Require Import KvMap.

(** ** The table *)

Record bpftime_hash_map := BpftimeHashMap {
  hm_key_size : Z;
  hm_value_size : Z;
  hm_num_buckets : Z;
  hm_max_element_count : Z;
  hm_count : Z;
  data_buffer : list Z
}.

Definition hm_stride (m : bpftime_hash_map) : Z := 4 + hm_key_size m + hm_value_size m.

Definition get_elem_offset (m : bpftime_hash_map) (index : Z) : Z := u64 (index * hm_stride m).

Definition bpftime_hash_map_create (num_buckets key_size value_size : Z) : bpftime_hash_map :=
  let nb := next_prime num_buckets in
  {| hm_key_size := key_size; hm_value_size := value_size; hm_num_buckets := nb;
     hm_max_element_count := num_buckets; hm_count := 0;
     data_buffer := replicate (Z.to_nat (u64 (nb * (4 + key_size + value_size)))) 0 |}.

(** The hash of the [key_size] bytes of a key, in a 64-bit register. *)
Definition hash_func (key : list Z) : Z := foldl (λ hash b, u64 (hash * 31 + b)) 0 key.

Definition with_buffer (m : bpftime_hash_map) (buf : list Z) : bpftime_hash_map :=
  {| hm_key_size := hm_key_size m; hm_value_size := hm_value_size m;
     hm_num_buckets := hm_num_buckets m; hm_max_element_count := hm_max_element_count m;
     hm_count := hm_count m; data_buffer := buf |}.

Definition with_count (m : bpftime_hash_map) (c : Z) : bpftime_hash_map :=
  {| hm_key_size := hm_key_size m; hm_value_size := hm_value_size m;
     hm_num_buckets := hm_num_buckets m; hm_max_element_count := hm_max_element_count m;
     hm_count := c; data_buffer := data_buffer m |}.

(** [None] below is an access outside the vector. *)
Definition is_empty (m : bpftime_hash_map) (index : Z) : option bool :=
  w ← vread (data_buffer m) (get_elem_offset m index) 4; Some (le_load w =? 0).
Definition set_empty (m : bpftime_hash_map) (index : Z) : option bpftime_hash_map :=
  buf ← vwrite (data_buffer m) (get_elem_offset m index) (le_store 4 0); Some (with_buffer m buf).
Definition set_filled (m : bpftime_hash_map) (index : Z) : option bpftime_hash_map :=
  buf ← vwrite (data_buffer m) (get_elem_offset m index) (le_store 4 1); Some (with_buffer m buf).
(** The pointers to the key and the value of a bucket. *)
Definition get_key (m : bpftime_hash_map) (index : Z) : Z := get_elem_offset m index + 4.
Definition get_value (m : bpftime_hash_map) (index : Z) : Z :=
  get_elem_offset m index + 4 + hm_key_size m.

(** The bucket of a value pointer; [(size_t)-1] for a pointer that is not into the vector. *)
Definition get_index_of_value (m : bpftime_hash_map) (value : option Z) : Z :=
  match value with
  | None => 2 ^ 64 - 1
  | Some off => if (off <? 0) || (zlen (data_buffer m) <=? off) then 2 ^ 64 - 1
                else off / hm_stride m
  end.

(** Where the probing loop of the three operations stops: at an empty bucket, at a bucket with the
    key, or back at the first bucket. *)
Inductive probe_end := AtEmpty (index : Z) | AtMatch (index : Z) | Wrapped.

(** The loop: do { ... } while (index != start_index). It has at most one round per bucket. *)
Fixpoint probe (fuel : nat) (m : bpftime_hash_map) (key : list Z) (index start_index : Z)
  : res probe_end :=
  match fuel with
  | O => Fault
  | S fuel =>
      match is_empty m index with
      | None => Fault
      | Some true => Ok (AtEmpty index)
      | Some false =>
          match vread (data_buffer m) (get_key m index) (hm_key_size m) with
          | None => Fault
          | Some k =>
              if bool_decide (k = key) then Ok (AtMatch index)
              else
                let index := (index + 1) mod hm_num_buckets m in
                if negb (index =? start_index) then probe fuel m key index start_index
                else Ok Wrapped
          end
      end
  end.

Definition probe_key (m : bpftime_hash_map) (key : list Z) : res probe_end :=
  let index := hash_func key mod hm_num_buckets m in
  probe (Z.to_nat (hm_num_buckets m)) m key index index.

(** The value pointer, [None] for null. *)
Definition hm_elem_lookup (m : bpftime_hash_map) (key : uptr) : res (option Z) :=
  match from_user key (hm_key_size m) with
  | None => Fault
  | Some k =>
      match probe_key m k with
      | Ok (AtMatch index) => Ok (Some (get_value m index))
      | Ok _ => Ok None
      | _ => Fault
      end
  end.

Definition hm_elem_update (m : bpftime_hash_map) (key value : uptr) : res bool * bpftime_hash_map :=
  match from_user key (hm_key_size m) with
  | None => (Fault, m)
  | Some k =>
      match probe_key m k with
      | Ok (AtEmpty index) =>
          if hm_max_element_count m <=? hm_count m then (Ok false, m)
          else match from_user value (hm_value_size m) with
               | None => (Fault, m)
               | Some v =>
                   match (buf ← vwrite (data_buffer m) (get_key m index) k;
                          buf ← vwrite buf (get_value m index) v;
                          set_filled (with_buffer m buf) index) with
                   | Some m' => (Ok true, with_count m' (u64 (hm_count m' + 1)))
                   | None => (Fault, m)
                   end
               end
      | Ok (AtMatch index) =>
          match (v ← from_user value (hm_value_size m);
                 vwrite (data_buffer m) (get_value m index) v) with
          | Some buf => (Ok true, with_buffer m buf)
          | None => (Fault, m)
          end
      | Ok Wrapped => (Ok false, m)
      | _ => (Fault, m)
      end
  end.

Definition hm_elem_delete (m : bpftime_hash_map) (key : uptr) : res bool * bpftime_hash_map :=
  match from_user key (hm_key_size m) with
  | None => (Fault, m)
  | Some k =>
      match probe_key m k with
      | Ok (AtMatch index) =>
          match set_empty m index with
          | Some m' => (Ok true, with_count m' (u64 (hm_count m' - 1)))
          | None => (Fault, m)
          end
      | Ok _ => (Ok false, m)
      | _ => (Fault, m)
      end
  end.

Definition get_elem_count (m : bpftime_hash_map) : Z := hm_count m.

(** ** The map type *)

Record fix_size_hash_map_impl := FixSizeHashMap {
  map_impl : bpftime_hash_map;
  fh_key_size : Z;
  fh_value_size : Z;
  fh_num_buckets : Z
}.

Definition fix_hash_create (num_buckets key_size value_size : Z) : fix_size_hash_map_impl :=
  {| map_impl := bpftime_hash_map_create num_buckets key_size value_size;
     fh_key_size := u32 key_size; fh_value_size := u32 value_size; fh_num_buckets := u32 num_buckets |}.

Definition with_impl (m : fix_size_hash_map_impl) (i : bpftime_hash_map) : fix_size_hash_map_impl :=
  {| map_impl := i; fh_key_size := fh_key_size m; fh_value_size := fh_value_size m;
     fh_num_buckets := fh_num_buckets m |}.

(** The bytes the returned pointer points to; a null pointer is returned with [errno] unchanged. *)
Definition elem_lookup (m : fix_size_hash_map_impl) (key : uptr) : res (list Z) :=
  match hm_elem_lookup (map_impl m) key with
  | Ok (Some off) =>
      match vread (data_buffer (map_impl m)) off (hm_value_size (map_impl m)) with
      | Some v => Ok v
      | None => Fault
      end
  | Ok None => Raw 0
  | _ => Fault
  end.

(** The flags and the answers of the table are ignored. *)
Definition elem_update (m : fix_size_hash_map_impl) (key value : uptr) (flags : Z)
  : res unit * fix_size_hash_map_impl :=
  let '(r, i) := hm_elem_update (map_impl m) key value in
  (match r with Ok _ => Ok tt | _ => Fault end, with_impl m i).

Definition elem_delete (m : fix_size_hash_map_impl) (key : uptr)
  : res unit * fix_size_hash_map_impl :=
  let '(r, i) := hm_elem_delete (map_impl m) key in
  (match r with Ok _ => Ok tt | _ => Fault end, with_impl m i).

(** The loops of [map_get_next_key]: the key of the first bucket from [i] that is not empty, among
    [n] buckets. *)
Fixpoint first_key (m : fix_size_hash_map_impl) (i : Z) (n : nat) : res (list Z) :=
  match n with
  | O => Err ENOENT
  | S n =>
      match is_empty (map_impl m) i with
      | None => Fault
      | Some true => first_key m (i + 1) n
      | Some false =>
          match vread (data_buffer (map_impl m)) (get_key (map_impl m) i) (fh_key_size m) with
          | Some k => Ok k
          | None => Fault
          end
      end
  end.

(** The bytes written to [next_key]; [out] tells whether that pointer is not null. *)
Definition map_get_next_key (m : fix_size_hash_map_impl) (key : uptr) (out : bool) : res (list Z) :=
  if negb out then Err EINVAL
  else
    let first := first_key m 0 (Z.to_nat (fh_num_buckets m)) in
    match key with
    | None => first
    | Some _ =>
        match hm_elem_lookup (map_impl m) key with
        | Ok None => first
        | Ok (Some off) =>
            let index := get_index_of_value (map_impl m) (Some off) in
            first_key m (u64 (index + 1)) (Z.to_nat (fh_num_buckets m - u64 (index + 1)))
        | _ => Fault
        end
    end.

#[export] Instance fix_hash_kv : KvMap fix_size_hash_map_impl := {
  kv_lookup m k := (elem_lookup m k, m);
  kv_update := elem_update;
  kv_delete := elem_delete
}.
