(* ===== verification/HashRefine.v ===== *)
(** * Fixed-size hash maps: refinement of finite maps

    The table of [HashMap] as a function from buckets to entries, the probing invariant, and what
    the operations do to the finite map that a table represents. Deletion empties a bucket in the
    middle of a probing sequence, which the invariant does not survive; the consequences are
    theorems of their own. *)

From stdpp Require Import base numbers list gmap fin_maps fin_sets.
From S2P Require Import Prelude.
From S2P Require Import Primes.
From S2P Require Import KvMap.
From S2P Require Import HashMap.

Section table.
(** [_key_size], [_value_size] and the number of buckets. *)
Variables (ks vs nb : Z).
Let st : Z := 4 + ks + vs.

(** The entry in bucket [i]: its key and value when it is filled. *)
Definition bucket (buf : list Z) (i : Z) : option (list Z * list Z) :=
  w ← vread buf (i * st) 4;
  if le_load w =? 0 then None
  else k ← vread buf (i * st + 4) ks; v ← vread buf (i * st + 4 + ks) vs; Some (k, v).

Record hm_wf (m : bpftime_hash_map) : Prop := {
  wf_ks : hm_key_size m = ks;
  wf_vs : hm_value_size m = vs;
  wf_nb : hm_num_buckets m = nb;
  wf_pos : 0 ≤ ks ∧ 0 ≤ vs ∧ 0 < nb;
  wf_buf : zlen (data_buffer m) = nb * st;
  wf_64 : nb * st < 2 ^ 64
}.

Lemma offset_eq m i : hm_wf m → 0 ≤ i < nb → get_elem_offset m i = i * st.
Proof.
  intros [] Hi. unfold get_elem_offset, hm_stride. rewrite wf_ks0, wf_vs0. apply u64_small. fold st.
  unfold st in *. nia.
Qed.

Lemma in_range i : 0 ≤ ks → 0 ≤ vs → 0 ≤ i < nb → 0 ≤ i * st ∧ i * st + st ≤ nb * st.
Proof. unfold st. nia. Qed.

Lemma is_empty_bucket m i :
  hm_wf m → 0 ≤ i < nb → is_empty m i = Some (bool_decide (bucket (data_buffer m) i = None)).
Proof.
  intros Hwf Hi. unfold is_empty. rewrite offset_eq by done. destruct Hwf as [_ _ _ [? ?] Hb _].
  destruct (in_range i) as [? ?]; [lia..|]. unfold bucket.
  destruct (vread_is_Some (data_buffer m) (i * st) 4) as (w&Hw&_); [unfold st in *; lia..|].
  destruct (vread_is_Some (data_buffer m) (i * st + 4) ks) as (k&Hk&_); [unfold st in *; lia..|].
  destruct (vread_is_Some (data_buffer m) (i * st + 4 + ks) vs) as (v&Hv&_); [unfold st in *; lia..|].
  rewrite Hw, Hk, Hv. simpl. by destruct (le_load w =? 0).
Qed.

Lemma bucket_reads m i k v :
  hm_wf m → 0 ≤ i < nb → bucket (data_buffer m) i = Some (k, v) →
  vread (data_buffer m) (get_key m i) ks = Some k ∧
  vread (data_buffer m) (get_value m i) vs = Some v ∧ zlen k = ks.
Proof.
  intros Hwf Hi. unfold get_key, get_value. rewrite offset_eq by done.
  rewrite (wf_ks _ Hwf). unfold bucket.
  destruct (vread _ _ 4) as [w|]; [|done]. simpl. destruct (_ =? 0); [done|].
  destruct (vread _ (i * st + 4) ks) as [k'|] eqn:Hk; [|done]. simpl.
  destruct (vread _ (i * st + 4 + ks) vs) as [v'|] eqn:Hv; [|done]. simpl.
  intros [= <- <-]. repeat split. by eapply vread_zlen.
Qed.

(** A write inside one bucket leaves the others. *)
Lemma bucket_write_other buf buf' i j o bs :
  vwrite buf (i * st + o) bs = Some buf' → 0 ≤ o → o + zlen bs ≤ st → 0 ≤ ks → 0 ≤ vs → i ≠ j →
  bucket buf' j = bucket buf j.
Proof.
  intros Hw Ho Hbs Hks Hvs Hij. unfold bucket.
  assert (Hd : j * st + st ≤ i * st + o ∨ i * st + o + zlen bs ≤ j * st).
  { assert (0 < st) by (unfold st; lia). destruct (decide (i < j)); nia. }
  rewrite !(vread_vwrite_disjoint _ _ _ _ _ _ Hw) by (unfold st in *; lia). done.
Qed.

(** Writing the value of a filled bucket. *)
Lemma bucket_write_value m i k v v' :
  hm_wf m → 0 ≤ i < nb → bucket (data_buffer m) i = Some (k, v) → zlen v' = vs →
  ∃ buf, vwrite (data_buffer m) (get_value m i) v' = Some buf ∧ hm_wf (with_buffer m buf) ∧
         (∀ j, bucket buf j = if decide (i = j) then Some (k, v') else bucket (data_buffer m) j).
Proof.
  intros Hwf Hi Hb Hv'. unfold get_value. rewrite offset_eq, (wf_ks _ Hwf) by done.
  pose proof Hwf as [? ? ? [? ?] Hz ?]. destruct (in_range i) as [? ?]; [lia..|].
  rewrite <- Z.add_assoc. 
  destruct (vwrite_is_Some (data_buffer m) (i * st + (4 + ks)) v') as (buf&Hw&Hbz);
    [unfold st in *; lia..|].
  exists buf. split; [done|]. split; [split; simpl; try done; lia|]. intros j.
  case_decide as Hij; [subst j|by eapply bucket_write_other; [done|unfold st; lia..|done]].
  unfold bucket in *. rewrite (vread_vwrite_disjoint _ _ _ _ (i * st) 4 Hw) by lia.
  rewrite (vread_vwrite_disjoint _ _ _ _ (i * st + 4) ks Hw) by lia.
  destruct (vread (data_buffer m) (i * st) 4) as [w|]; [|done]. simpl in *.
  destruct (_ =? 0); [done|]. destruct (vread _ (i * st + 4) ks) as [k'|]; [|done]. simpl in *.
  destruct (vread _ (i * st + 4 + ks) vs) as [v0|]; [|done]. simpl in *. simplify_eq.
  by rewrite <- Z.add_assoc, <- Hv', (vread_vwrite_same _ _ _ _ Hw).
Qed.

(** Filling an empty bucket. *)
Lemma bucket_fill m i k v :
  hm_wf m → 0 ≤ i < nb → zlen k = ks → zlen v = vs →
  ∃ m', (buf ← vwrite (data_buffer m) (get_key m i) k;
         buf ← vwrite buf (get_value m i) v;
         set_filled (with_buffer m buf) i) = Some m' ∧ hm_wf m' ∧
        hm_count m' = hm_count m ∧ hm_max_element_count m' = hm_max_element_count m ∧
        (∀ j, bucket (data_buffer m') j =
              if decide (i = j) then Some (k, v) else bucket (data_buffer m) j).
Proof.
  intros Hwf Hi Hk Hv. pose proof Hwf as [? ? ? [? ?] Hz ?]. destruct (in_range i) as [? ?]; [lia..|].
  unfold get_key, get_value, set_filled.
  assert (Hoff : ∀ buf, get_elem_offset (with_buffer m buf) i = i * st)
    by (intros; exact (offset_eq m i Hwf Hi)).
  rewrite offset_eq, (wf_ks _ Hwf) by done. rewrite <- (Z.add_assoc (i * st) 4 ks).
  destruct (vwrite_is_Some (data_buffer m) (i * st + 4) k) as (b1&Hw1&Hz1); [unfold st in *; lia..|].
  destruct (vwrite_is_Some b1 (i * st + (4 + ks)) v) as (b2&Hw2&Hz2); [unfold st in *; lia..|].
  destruct (vwrite_is_Some b2 (i * st) (le_store 4 1)) as (b3&Hw3&Hz3);
    [unfold st, zlen in *; rewrite ?length_le_store; lia..|].
  assert (Hl4 : zlen (le_store 4 1) = 4) by reflexivity.
  exists (with_buffer m b3). rewrite Hw1. cbn [mbind option_bind]. rewrite Hw2. cbn [mbind option_bind].
  rewrite Hoff. cbn [data_buffer with_buffer]. rewrite Hw3.
  split; [done|]. split; [split; simpl; try done; lia|]. do 2 (split; [done|]). intros j.
  cbn [data_buffer with_buffer]. case_decide as Hij.
  - subst j. unfold bucket.
    rewrite <- Hl4 at 1. rewrite (vread_vwrite_same _ _ _ _ Hw3). cbn [mbind option_bind].
    replace (le_load (le_store 4 1) =? 0) with false by reflexivity.
    rewrite !(vread_vwrite_disjoint _ _ _ _ _ _ Hw3) by lia.
    rewrite (vread_vwrite_disjoint _ _ _ _ (i * st + 4) ks Hw2) by lia.
    rewrite <- Hk at 1. rewrite (vread_vwrite_same _ _ _ _ Hw1). cbn [mbind option_bind].
    rewrite <- Z.add_assoc, <- Hv. rewrite (vread_vwrite_same _ _ _ _ Hw2). done.
  - rewrite (bucket_write_other b2 b3 i j 0) with (bs := le_store 4 1);
      [|by rewrite Z.add_0_r|unfold st; lia..|done].
    rewrite (bucket_write_other b1 b2 i j _ _ Hw2), (bucket_write_other _ b1 i j _ _ Hw1);
      unfold st; try done; lia.
Qed.

(** Emptying a bucket. *)
Lemma bucket_clear m i :
  hm_wf m → 0 ≤ i < nb →
  ∃ m', set_empty m i = Some m' ∧ hm_wf m' ∧ hm_count m' = hm_count m ∧
        hm_max_element_count m' = hm_max_element_count m ∧
        (∀ j, bucket (data_buffer m') j = if decide (i = j) then None else bucket (data_buffer m) j).
Proof.
  intros Hwf Hi. pose proof Hwf as [? ? ? [? ?] Hz ?]. destruct (in_range i) as [? ?]; [lia..|].
  unfold set_empty. rewrite offset_eq by done.
  assert (Hl4 : zlen (le_store 4 0) = 4) by reflexivity.
  destruct (vwrite_is_Some (data_buffer m) (i * st) (le_store 4 0)) as (b&Hb&Hbz);
    [unfold st in *; lia..|].
  rewrite Hb. exists (with_buffer m b). split; [done|]. split; [split; simpl; try done; lia|].
  do 2 (split; [done|]). intros j. cbn [data_buffer with_buffer]. case_decide as Hij.
  - subst j. unfold bucket. rewrite <- Hl4 at 1. by rewrite (vread_vwrite_same _ _ _ _ Hb).
  - apply (bucket_write_other _ _ i j 0 (le_store 4 0)); [by rewrite Z.add_0_r|unfold st; lia..|done].
Qed.

(** ** Probing *)

(** The [e]-th bucket a search from bucket [h] looks at. *)
Definition pos (h e : Z) : Z := (h + e) mod nb.

Lemma pos_range h e : 0 < nb → 0 ≤ pos h e < nb.
Proof. intros. apply Z.mod_pos_bound. lia. Qed.

Lemma pos_inj h e e' : 0 ≤ h < nb → 0 ≤ e < nb → 0 ≤ e' < nb → pos h e = pos h e' → e = e'.
Proof. unfold pos. intros Hn He He2. apply mod_ring_inj; lia. Qed.

Lemma pos_succ h d : 0 < nb → (pos h d + 1) mod nb = pos h (d + 1).
Proof. intros. unfold pos. rewrite Zplus_mod_idemp_l. f_equal. lia. Qed.

Lemma pos_0 h : 0 ≤ h < nb → pos h 0 = h.
Proof. intros. unfold pos. rewrite Z.add_0_r. by apply Z.mod_small. Qed.

(** Every bucket is at some distance. *)
Lemma pos_surj h i : 0 ≤ h < nb → 0 ≤ i < nb → ∃ e, 0 ≤ e < nb ∧ pos h e = i.
Proof.
  intros Hh Hi. exists ((i - h) mod nb). split; [apply Z.mod_pos_bound; lia|].
  unfold pos. rewrite Zplus_mod_idemp_r. replace (h + (i - h)) with i by lia. by apply Z.mod_small.
Qed.

(** The [e]-th bucket of the search for [key] holds another key. *)
Definition other (buf : list Z) (key : list Z) (e : Z) : Prop :=
  ∃ k v, bucket buf (pos (hash_func key mod nb) e) = Some (k, v) ∧ k ≠ key.

(** Where the search for [key] ends. *)
Definition probe_post (buf : list Z) (key : list Z) (r : probe_end) : Prop :=
  let h := hash_func key mod nb in
  match r with
  | AtEmpty i => ∃ e, 0 ≤ e < nb ∧ i = pos h e ∧ bucket buf i = None ∧
                      ∀ e', 0 ≤ e' < e → other buf key e'
  | AtMatch i => ∃ e v, 0 ≤ e < nb ∧ i = pos h e ∧ bucket buf i = Some (key, v) ∧
                        ∀ e', 0 ≤ e' < e → other buf key e'
  | Wrapped => ∀ e', 0 ≤ e' < nb → other buf key e'
  end.

Lemma probe_spec m key fuel : ∀ d,
  hm_wf m → 0 ≤ d < nb → fuel = Z.to_nat (nb - d) →
  (∀ e, 0 ≤ e < d → other (data_buffer m) key e) →
  ∃ r, probe fuel m key (pos (hash_func key mod nb) d) (hash_func key mod nb) = Ok r ∧
       probe_post (data_buffer m) key r.
Proof.
  set (h := hash_func key mod nb). induction fuel as [|fuel IH]; intros d Hwf Hd Hf Hpre; [lia|].
  pose proof Hwf as [? _ ? [? ?] _ _]. pose proof (pos_range h d ltac:(lia)) as Hr. cbn [probe].
  rewrite is_empty_bucket by done. case_bool_decide as Hb.
  { exists (AtEmpty (pos h d)). split; [done|]. by exists d. }
  destruct (bucket (data_buffer m) (pos h d)) as [[k v]|] eqn:E; [|done].
  destruct (bucket_reads m _ k v Hwf Hr E) as (Hk&_&_). rewrite wf_ks0, Hk.
  case_bool_decide as Hkey.
  { subst k. exists (AtMatch (pos h d)). split; [done|]. by exists d, v. }
  rewrite wf_nb0, pos_succ by lia.
  assert (Hpre' : ∀ e, 0 ≤ e < d + 1 → other (data_buffer m) key e).
  { intros e He. destruct (decide (e = d)) as [->|]; [by exists k, v|apply Hpre; lia]. }
  assert (Hh : 0 ≤ h < nb) by (apply Z.mod_pos_bound; lia).
  destruct (decide (d + 1 = nb)) as [Hdn|Hdn].
  - rewrite Hdn. unfold pos. rewrite <- Zplus_mod_idemp_r, Z.mod_same, Z.add_0_r, Z.mod_small by lia.
    rewrite Z.eqb_refl. exists Wrapped. split; [done|]. by rewrite Hdn in Hpre'.
  - destruct (Z.eqb_spec (pos h (d + 1)) h) as [He|He]; cbn [negb].
    + rewrite <- (pos_0 h Hh) in He at 2. apply pos_inj in He; lia.
    + apply IH; [done|lia|lia|done].
Qed.

Lemma probe_key_spec m key :
  hm_wf m → ∃ r, probe_key m key = Ok r ∧ probe_post (data_buffer m) key r.
Proof.
  intros Hwf. pose proof Hwf as [_ _ ? [? ?] _ _]. unfold probe_key. rewrite wf_nb0.
  pose proof (probe_spec m key (Z.to_nat nb) 0 Hwf ltac:(lia) ltac:(f_equal; lia) ltac:(lia)) as Hp.
  by rewrite pos_0 in Hp by (apply Z.mod_pos_bound; lia).
Qed.

(** ** Tables that represent a finite map *)

Record hm_rep (m : bpftime_hash_map) (g : gmap (list Z) (list Z)) : Prop := {
  rep_wf : hm_wf m;
  rep_map : ∀ k v, g !! k = Some v ↔ ∃ i, 0 ≤ i < nb ∧ bucket (data_buffer m) i = Some (k, v);
  (** No gap between the first bucket of a key and the one it is in. *)
  rep_path : ∀ i k v, 0 ≤ i < nb → bucket (data_buffer m) i = Some (k, v) →
    ∃ d, 0 ≤ d < nb ∧ i = pos (hash_func k mod nb) d ∧ ∀ e, 0 ≤ e < d → other (data_buffer m) k e;
  rep_count : hm_count m = Z.of_nat (size g);
  rep_max : hm_count m ≤ hm_max_element_count m ≤ nb
}.

Lemma rep_unique m g i j k v v' :
  hm_rep m g → 0 ≤ i < nb → 0 ≤ j < nb →
  bucket (data_buffer m) i = Some (k, v) → bucket (data_buffer m) j = Some (k, v') → i = j.
Proof.
  intros Hr Hi Hj Hbi Hbj. destruct (rep_path _ _ Hr _ _ _ Hi Hbi) as (d&Hd&->&Hpd).
  destruct (rep_path _ _ Hr _ _ _ Hj Hbj) as (e&He&->&Hpe).
  destruct (Z.lt_trichotomy d e) as [Hlt|[->|Hlt]]; [|done|].
  - destruct (Hpe d ltac:(lia)) as (k'&w&Hb&Hne). congruence.
  - destruct (Hpd e ltac:(lia)) as (k'&w&Hb&Hne). congruence.
Qed.

(** A search that ends without a match: the key is not there. *)
Lemma no_match m g key e :
  hm_rep m g → 0 ≤ e ≤ nb → (∀ e', 0 ≤ e' < e → other (data_buffer m) key e') →
  (e < nb → bucket (data_buffer m) (pos (hash_func key mod nb) e) = None) → g !! key = None.
Proof.
  intros Hr He Hpre Hend. destruct (g !! key) as [v|] eqn:Hg; [|done]. exfalso.
  apply (rep_map _ _ Hr) in Hg as (i&Hi&Hb). destruct (rep_path _ _ Hr _ _ _ Hi Hb) as (d&Hd&->&Hpd).
  destruct (Z.lt_trichotomy d e) as [Hlt|[->|Hlt]].
  - destruct (Hpre d ltac:(lia)) as (k'&w&Hb'&Hne). congruence.
  - rewrite Hend in Hb by lia. done.
  - destruct (Hpd e ltac:(lia)) as (k'&w&Hb'&_). rewrite Hend in Hb' by lia. done.
Qed.

(** When every bucket is filled the map has as many entries as there are buckets. *)
Lemma full_size m g :
  hm_rep m g → (∀ i, 0 ≤ i < nb → is_Some (bucket (data_buffer m) i)) → nb ≤ Z.of_nat (size g).
Proof.
  intros Hr Hall. pose proof (rep_wf _ _ Hr) as [_ _ _ [? ?] _ _].
  set (keyat := λ i, match bucket (data_buffer m) i with Some (k, _) => k | None => [] end).
  assert (Hnd : NoDup (keyat <$> seqZ 0 nb)).
  { apply NoDup_fmap_2_strong; [|apply NoDup_seqZ]. intros i j Hi%elem_of_seqZ Hj%elem_of_seqZ.
    destruct (Hall i ltac:(lia)) as [[k v] Hbi], (Hall j ltac:(lia)) as [[k' v'] Hbj].
    unfold keyat. rewrite Hbi, Hbj. intros <-. eapply rep_unique; [done|lia|lia|done..]. }
  pose proof (size_list_to_set (C := gset (list Z)) _ Hnd) as Hsz.
  rewrite length_fmap, length_seqZ in Hsz.
  assert (Hsub : (list_to_set (keyat <$> seqZ 0 nb) : gset (list Z)) ⊆ dom g).
  { intros k Hk. apply elem_of_list_to_set, list_elem_of_fmap in Hk as (i&->&Hi%elem_of_seqZ).
    destruct (Hall i ltac:(lia)) as [[k v] Hbi]. unfold keyat. rewrite Hbi.
    apply elem_of_dom. exists v. apply (rep_map _ _ Hr). exists i. split; [lia|done]. }
  apply subseteq_size in Hsub. rewrite size_dom, Hsz in Hsub. lia.
Qed.

(** The search, in a table that represents [g]. *)
Lemma search m g key :
  hm_rep m g → ∃ r, probe_key m key = Ok r ∧
  match r with
  | AtEmpty i => 0 ≤ i < nb ∧ g !! key = None ∧ probe_post (data_buffer m) key (AtEmpty i)
  | AtMatch i => 0 ≤ i < nb ∧ ∃ v, bucket (data_buffer m) i = Some (key, v) ∧ g !! key = Some v
  | Wrapped => g !! key = None ∧ nb ≤ Z.of_nat (size g)
  end.
Proof.
  intros Hr. pose proof (rep_wf _ _ Hr) as Hwf. pose proof Hwf as [_ _ _ [? ?] _ _].
  destruct (probe_key_spec m key Hwf) as ([i|i|]&Hp&Hpost); rewrite Hp; (eexists; split; [done|]).
  - pose proof Hpost as (e&He&->&Hb&Hpre). split; [apply pos_range; lia|]. split; [|done].
    apply (no_match m g key e); [done|lia|done|done].
  - destruct Hpost as (e&v&He&->&Hb&Hpre). pose proof (pos_range (hash_func key mod nb) e ltac:(lia)).
    split; [done|]. exists v. split; [done|]. apply (rep_map _ _ Hr). by eexists.
  - split; [apply (no_match m g key nb); [done|lia|done|lia]|].
    apply (full_size m g Hr). intros i Hi.
    destruct (pos_surj (hash_func key mod nb) i) as (e&He&<-); [apply Z.mod_pos_bound; lia|done|].
    destruct (Hpost e He) as (k&v&Hb&_). rewrite Hb. done.
Qed.

Lemma rep_set_value m g i k v v' buf :
  hm_rep m g → 0 ≤ i < nb → bucket (data_buffer m) i = Some (k, v) →
  hm_wf (with_buffer m buf) →
  (∀ j, bucket buf j = if decide (i = j) then Some (k, v') else bucket (data_buffer m) j) →
  hm_rep (with_buffer m buf) (<[k := v']> g).
Proof.
  intros Hr Hi Hb Hwf Hbuf.
  assert (Hgk : g !! k = Some v) by (apply (rep_map _ _ Hr); by exists i).
  assert (Hsame : ∀ j k' w, bucket buf j = Some (k', w) → ∃ w', bucket (data_buffer m) j = Some (k', w')).
  { intros j k' w. rewrite Hbuf. case_decide; [intros [= -> ->]; subst; by eexists|by eexists]. }
  assert (Hoth : ∀ key e, other (data_buffer m) key e → other buf key e).
  { intros key e (k'&w&Hb'&Hne). unfold other. rewrite Hbuf. case_decide as Hd; [|by exists k', w].
    exists k, v'. split; [done|]. congruence. }
  split; cbn [data_buffer with_buffer hm_count hm_max_element_count]; try done.
  - intros k' w. rewrite lookup_insert_Some. split.
    + intros [[<- <-]|[Hne Hg]]; [exists i; by rewrite Hbuf, decide_True|].
      apply (rep_map _ _ Hr) in Hg as (j&Hj&Hbj). exists j. split; [done|].
      rewrite Hbuf, decide_False; [done|]. intros <-. congruence.
    + intros (j&Hj&Hbj). rewrite Hbuf in Hbj. case_decide as Hd; [left; by simplify_eq|].
      right. split; [|apply (rep_map _ _ Hr); by exists j].
      intros <-. by eapply Hd, (rep_unique m g i j).
  - intros j k' w Hj Hbj. destruct (Hsame _ _ _ Hbj) as [w' Hbj'].
    destruct (rep_path _ _ Hr _ _ _ Hj Hbj') as (d&?&?&Hd). exists d. eauto.
  - rewrite (map_size_insert_Some _ _ _ (mk_is_Some _ _ Hgk)). apply (rep_count _ _ Hr).
  - apply (rep_max _ _ Hr).
Qed.

Lemma rep_fill m g i k v m' :
  hm_rep m g → 0 ≤ i < nb → g !! k = None → probe_post (data_buffer m) k (AtEmpty i) →
  hm_count m < hm_max_element_count m →
  hm_wf m' → hm_count m' = hm_count m + 1 → hm_max_element_count m' = hm_max_element_count m →
  (∀ j, bucket (data_buffer m') j = if decide (i = j) then Some (k, v) else bucket (data_buffer m) j) →
  hm_rep m' (<[k := v]> g).
Proof.
  intros Hr Hi Hg (d&Hd&Hid&Hbi&Hpre) Hcap Hwf Hcnt Hmax Hbuf.
  assert (Hkeep : ∀ j x, bucket (data_buffer m) j = Some x → bucket (data_buffer m') j = Some x).
  { intros j x Hx. rewrite Hbuf, decide_False; [done|]. intros <-. congruence. }
  assert (Hoth : ∀ key e, other (data_buffer m) key e → other (data_buffer m') key e).
  { intros key e (k'&w&Hb'&Hne). exists k', w. auto. }
  split; try done.
  - intros k' w. rewrite lookup_insert_Some. split.
    + intros [[<- <-]|[Hne Hg']]; [exists i; by rewrite Hbuf, decide_True|].
      apply (rep_map _ _ Hr) in Hg' as (j&Hj&Hbj). exists j. auto.
    + intros (j&Hj&Hbj). rewrite Hbuf in Hbj. case_decide as Hij; [left; by simplify_eq|].
      assert (Hg' : g !! k' = Some w) by (apply (rep_map _ _ Hr); by exists j).
      right. split; [congruence|done].
  - intros j k' w Hj Hbj. rewrite Hbuf in Hbj. case_decide as Hij.
    + simplify_eq. exists d. auto.
    + destruct (rep_path _ _ Hr _ _ _ Hj Hbj) as (d'&?&?&Hd'). exists d'. eauto.
  - rewrite (map_size_insert_None _ _ _ Hg), Hcnt, (rep_count _ _ Hr). lia.
  - pose proof (rep_max _ _ Hr). lia.
Qed.

(** [elem_lookup] of the table. *)
Lemma hm_lookup_rep m g key k :
  hm_rep m g → from_user key ks = Some k →
  match g !! k with
  | Some v => ∃ off, hm_elem_lookup m key = Ok (Some off) ∧ vread (data_buffer m) off vs = Some v
  | None => hm_elem_lookup m key = Ok None
  end.
Proof.
  intros Hr Hk. pose proof (rep_wf _ _ Hr) as Hwf. unfold hm_elem_lookup. rewrite (wf_ks _ Hwf), Hk.
  destruct (search m g k Hr) as ([i|i|]&->&Hpost).
  - destruct Hpost as (_&->&_). done.
  - destruct Hpost as (Hi&v&Hb&->). destruct (bucket_reads m i k v Hwf Hi Hb) as (_&Hv&_). eauto.
  - destruct Hpost as [-> _]. done.
Qed.

(** [elem_update] of the table: the new value, when the key is there or the map is not full. *)
Lemma hm_update_rep m g key value k v :
  hm_rep m g → from_user key ks = Some k → from_user value vs = Some v →
  let fits := bool_decide (is_Some (g !! k) ∨ Z.of_nat (size g) < hm_max_element_count m) in
  ∃ m', hm_elem_update m key value = (Ok fits, m') ∧
        hm_rep m' (if fits then <[k := v]> g else g) ∧
        hm_max_element_count m' = hm_max_element_count m.
Proof.
  intros Hr Hk Hv fits. pose proof (rep_wf _ _ Hr) as Hwf. pose proof (rep_max _ _ Hr) as Hmax.
  pose proof (rep_count _ _ Hr) as Hcnt. pose proof Hwf as [_ _ _ [? ?] Hz H64].
  unfold hm_elem_update. rewrite (wf_ks _ Hwf), (wf_vs _ Hwf), Hk.
  destruct (search m g k Hr) as ([i|i|]&->&Hpost).
  - destruct Hpost as (Hi&Hg&Hpost). destruct (Z.leb_spec (hm_max_element_count m) (hm_count m)).
    + assert (fits = false) as -> by (apply bool_decide_eq_false_2; rewrite Hg, <- Hcnt, is_Some_alt; lia).
      by eexists.
    + assert (fits = true) as -> by (apply bool_decide_eq_true_2; right; lia). rewrite Hv.
      destruct (bucket_fill m i k v Hwf Hi (from_user_zlen _ _ _ Hk) (from_user_zlen _ _ _ Hv))
        as (m'&->&Hwf'&Hc'&Hm'&Hb'). eexists. split; [done|]. split; [|done].
      eapply (rep_fill m g i); try done; [|cbn [hm_count with_count]; rewrite u64_small; [lia|]].
      * destruct Hwf'. by split.
      * unfold st in *. nia.
  - destruct Hpost as (Hi&v0&Hb&Hg).
    assert (fits = true) as -> by (apply bool_decide_eq_true_2; left; by rewrite Hg). rewrite Hv.
    destruct (bucket_write_value m i k v0 v Hwf Hi Hb (from_user_zlen _ _ _ Hv)) as (buf&Hbuf&Hwf'&Hb').
    cbn [mbind option_bind]. rewrite Hbuf. eexists. split; [done|]. split; [|done].
    by eapply rep_set_value.
  - destruct Hpost as [Hg Hfull].
    assert (fits = false) as -> by (apply bool_decide_eq_false_2; rewrite Hg, is_Some_alt; lia).
    by eexists.
Qed.

(** ** Deletion *)

(** Deleting a stored key empties its bucket and nothing else. *)
Lemma hm_delete_rep m g key k :
  hm_rep m g → from_user key ks = Some k →
  match g !! k with
  | None => hm_elem_delete m key = (Ok false, m)
  | Some v => ∃ i m',
      0 ≤ i < nb ∧ bucket (data_buffer m) i = Some (k, v) ∧ hm_elem_delete m key = (Ok true, m') ∧
      hm_wf m' ∧ hm_count m' = hm_count m - 1 ∧ hm_max_element_count m' = hm_max_element_count m ∧
      (∀ j, bucket (data_buffer m') j = if decide (i = j) then None else bucket (data_buffer m) j)
  end.
Proof.
  intros Hr Hk. pose proof (rep_wf _ _ Hr) as Hwf. unfold hm_elem_delete. rewrite (wf_ks _ Hwf), Hk.
  destruct (search m g k Hr) as ([i|i|]&->&Hpost).
  - by destruct Hpost as (_&->&_).
  - destruct Hpost as (Hi&v&Hb&Hg). rewrite Hg.
    destruct (bucket_clear m i Hwf Hi) as (m'&->&Hwf'&Hc&Hm&Hb').
    assert (0 < size g)%nat.
    { destruct (size g) eqn:E; [|lia]. apply map_size_empty_inv in E. subst g.
      by rewrite lookup_empty in Hg. }
    pose proof (rep_max _ _ Hr). pose proof (rep_count _ _ Hr). destruct Hwf as [_ _ _ [? ?] _ ?].
    exists i, (with_count m' (u64 (hm_count m' - 1))). do 3 (split; [done|]). split; [by destruct Hwf'; split|].
    split; [|done]. cbn [hm_count with_count]. rewrite Hc. apply u64_small. unfold st in *. nia.
  - by destruct Hpost as [-> _].
Qed.

(** A search that meets an emptied bucket first finds nothing. *)
Lemma lookup_past_gap m m' g key k i d :
  hm_rep m g → hm_wf m' → from_user key ks = Some k →
  (∀ j, bucket (data_buffer m') j = if decide (i = j) then None else bucket (data_buffer m) j) →
  0 ≤ d < nb → i = pos (hash_func k mod nb) d → (∀ e, 0 ≤ e < d → other (data_buffer m) k e) →
  hm_elem_lookup m' key = Ok None.
Proof.
  intros Hr Hwf Hk Hb Hd -> Hpre. pose proof Hwf as [? _ _ [? ?] _ _]. unfold hm_elem_lookup.
  rewrite wf_ks0, Hk. destruct (probe_key_spec m' k Hwf) as ([j|j|]&->&Hpost); [done| |done].
  destruct Hpost as (e&v&He&->&Hbj&Hpre'). exfalso.
  destruct (Z.lt_trichotomy e d) as [Hlt|[->|Hlt]].
  - destruct (Hpre e ltac:(lia)) as (k'&w&Hbe&Hne). rewrite Hb in Hbj. case_decide; congruence.
  - rewrite Hb, decide_True in Hbj by done. done.
  - destruct (Hpre' d ltac:(lia)) as (k'&w&Hbe&_). rewrite Hb, decide_True in Hbe by done. done.
Qed.

(** Deleting an entry at the end of its cluster is sound. *)
Lemma rep_clear m g i k v m' :
  hm_rep m g → 0 ≤ i < nb → bucket (data_buffer m) i = Some (k, v) →
  bucket (data_buffer m) ((i + 1) mod nb) = None →
  hm_wf m' → hm_count m' = hm_count m - 1 → hm_max_element_count m' = hm_max_element_count m →
  (∀ j, bucket (data_buffer m') j = if decide (i = j) then None else bucket (data_buffer m) j) →
  hm_rep m' (delete k g).
Proof.
  intros Hr Hi Hb Hnext Hwf Hc Hm Hbuf. pose proof Hwf as [_ _ _ [? ?] _ _].
  assert (Hgk : g !! k = Some v) by (apply (rep_map _ _ Hr); by exists i).
  split; try done.
  - intros k' w. rewrite lookup_delete_Some. split.
    + intros [Hne Hg]. apply (rep_map _ _ Hr) in Hg as (j&Hj&Hbj). exists j. split; [done|].
      rewrite Hbuf, decide_False; [done|]. intros <-. congruence.
    + intros (j&Hj&Hbj). rewrite Hbuf in Hbj. case_decide as Hij; [done|].
      split; [|apply (rep_map _ _ Hr); by exists j]. intros <-. by eapply Hij, (rep_unique m g i j).
  - intros j k' w Hj Hbj. rewrite Hbuf in Hbj. case_decide as Hij; [done|].
    destruct (rep_path _ _ Hr _ _ _ Hj Hbj) as (d&Hd&Hjd&Hpre). exists d. split; [done|]. split; [done|].
    intros e He. destruct (Hpre e He) as (k2&w2&Hb2&Hne). exists k2, w2. split; [|done].
    rewrite Hbuf, decide_False; [done|]. intros Hie.
    rewrite Hie, pos_succ in Hnext by lia. destruct (decide (e + 1 = d)) as [Hed|Hed].
    + rewrite Hed, <- Hjd in Hnext. congruence.
    + destruct (Hpre (e + 1) ltac:(lia)) as (?&?&Hx&_). congruence.
  - rewrite (map_size_delete_Some _ _ (mk_is_Some _ _ Hgk)), Hc, (rep_count _ _ Hr).
    assert (size g ≠ 0%nat) by (intros ->%map_size_empty_inv; by rewrite lookup_empty in Hgk). lia.
  - pose proof (rep_max _ _ Hr). lia.
Qed.
(** ** What holds after any operations *)

(** The number of filled buckets. *)
Definition filled (buf : list Z) : Z :=
  Z.of_nat (length (filter (λ i, is_Some (bucket buf i)) (seqZ 0 nb))).

(** The count is the number of filled buckets, whatever was deleted. *)
Definition hm_inv (m : bpftime_hash_map) : Prop :=
  hm_wf m ∧ hm_count m = filled (data_buffer m) ∧ hm_count m ≤ hm_max_element_count m ≤ nb.

Lemma filter_agree (P Q : Z → Prop) `{∀ x, Decision (P x), ∀ x, Decision (Q x)} (l : list Z) :
  (∀ x, x ∈ l → P x ↔ Q x) → filter P l = filter Q l.
Proof.
  induction l as [|x l IH]; intros Hs; [done|]. rewrite !filter_cons, IH by set_solver.
  specialize (Hs x ltac:(set_solver)). destruct (decide (P x)), (decide (Q x)); tauto.
Qed.

Lemma filter_change (P Q : Z → Prop) `{∀ x, Decision (P x), ∀ x, Decision (Q x)} i (l : list Z) :
  NoDup l → i ∈ l → ¬ P i → Q i → (∀ j, j ≠ i → P j ↔ Q j) →
  length (filter Q l) = S (length (filter P l)).
Proof.
  intros Hnd Hi HP HQ Hsame. induction Hnd as [|x l Hx Hnd IH]; [by apply not_elem_of_nil in Hi|].
  rewrite !filter_cons. apply elem_of_cons in Hi as [<-|Hi].
  - rewrite decide_True, decide_False by done. simpl. f_equal. f_equal. apply filter_agree.
    intros y Hy. symmetry. apply Hsame. intros ->. done.
  - assert (x ≠ i) as Hne by (intros ->; done). specialize (IH Hi). pose proof (Hsame x Hne) as Hxs.
    destruct (decide (Q x)), (decide (P x)); simpl; try tauto; lia.
Qed.

Lemma filled_change buf buf' i x y :
  0 ≤ i < nb → bucket buf i = x → (∀ j, bucket buf' j = if decide (i = j) then y else bucket buf j) →
  match x, y with
  | None, Some _ => filled buf' = filled buf + 1
  | Some _, None => filled buf' = filled buf - 1
  | _, _ => filled buf' = filled buf
  end.
Proof.
  intros Hi Hx Hb. unfold filled.
  assert (Hin : i ∈ seqZ 0 nb) by (apply elem_of_seqZ; lia). pose proof (NoDup_seqZ 0 nb) as Hnd.
  assert (Hne : ∀ j, j ≠ i → is_Some (bucket buf j) ↔ is_Some (bucket buf' j))
    by (intros j Hj; by rewrite Hb, decide_False).
  assert (Hbi : bucket buf' i = y) by (by rewrite Hb, decide_True).
  destruct x as [x|], y as [y|].
  - do 2 f_equal. apply filter_agree. intros j _. destruct (decide (j = i)) as [->|Hj]; [|by rewrite Hne].
    rewrite Hx, Hbi. by split.
  - rewrite (filter_change (λ j, is_Some (bucket buf' j)) (λ j, is_Some (bucket buf j)) i _ Hnd Hin);
      [lia|rewrite Hbi; apply is_Some_None|by rewrite Hx|]. intros j Hj. by rewrite Hne.
  - rewrite (filter_change (λ j, is_Some (bucket buf j)) (λ j, is_Some (bucket buf' j)) i _ Hnd Hin);
      [lia|rewrite Hx; apply is_Some_None|by rewrite Hbi|done].
  - do 2 f_equal. apply filter_agree. intros j _. destruct (decide (j = i)) as [->|Hj]; [|by rewrite Hne].
    rewrite Hx, Hbi. by split.
Qed.

Lemma hm_update_inv m key value k v :
  hm_inv m → from_user key ks = Some k → from_user value vs = Some v →
  ∃ b m', hm_elem_update m key value = (Ok b, m') ∧ hm_inv m' ∧
          hm_max_element_count m' = hm_max_element_count m.
Proof.
  intros (Hwf&Hcnt&Hmax) Hk Hv. pose proof Hwf as [_ _ _ [? ?] _ H64].
  unfold hm_elem_update. rewrite (wf_ks _ Hwf), (wf_vs _ Hwf), Hk.
  destruct (probe_key_spec m k Hwf) as ([i|i|]&->&Hpost); [..|by do 2 eexists].
  - destruct Hpost as (e&He&->&Hb&_). pose proof (pos_range (hash_func k mod nb) e ltac:(lia)) as Hi.
    destruct (Z.leb_spec (hm_max_element_count m) (hm_count m)); [by do 2 eexists|]. rewrite Hv.
    destruct (bucket_fill m _ k v Hwf Hi (from_user_zlen _ _ _ Hk) (from_user_zlen _ _ _ Hv))
      as (m'&->&Hwf'&Hc'&Hm'&Hb'). do 2 eexists. split; [done|]. split; [|done].
    pose proof (filled_change _ _ _ None (Some (k, v)) Hi Hb Hb') as Hf. simpl in Hf.
    split; [by destruct Hwf'; split|]. cbn [hm_count hm_max_element_count data_buffer with_count].
    assert (0 ≤ hm_count m) by (rewrite Hcnt; unfold filled; lia).
    rewrite u64_small by (unfold st in *; nia). lia.
  - destruct Hpost as (e&v0&He&->&Hb&_). pose proof (pos_range (hash_func k mod nb) e ltac:(lia)) as Hi.
    rewrite Hv. cbn [mbind option_bind].
    destruct (bucket_write_value m _ k v0 v Hwf Hi Hb (from_user_zlen _ _ _ Hv)) as (buf&->&Hwf'&Hb').
    do 2 eexists. split; [done|]. split; [|done]. split; [done|].
    pose proof (filled_change _ _ _ (Some (k, v0)) (Some (k, v)) Hi Hb Hb') as Hf. simpl in *. lia.
Qed.

Lemma hm_delete_inv m key k :
  hm_inv m → from_user key ks = Some k →
  ∃ b m', hm_elem_delete m key = (Ok b, m') ∧ hm_inv m' ∧
          hm_max_element_count m' = hm_max_element_count m.
Proof.
  intros (Hwf&Hcnt&Hmax) Hk. pose proof Hwf as [_ _ _ [? ?] _ H64].
  unfold hm_elem_delete. rewrite (wf_ks _ Hwf), Hk.
  destruct (probe_key_spec m k Hwf) as ([i|i|]&->&Hpost); [by do 2 eexists| |by do 2 eexists].
  destruct Hpost as (e&v0&He&->&Hb&_). pose proof (pos_range (hash_func k mod nb) e ltac:(lia)) as Hi.
  destruct (bucket_clear m _ Hwf Hi) as (m'&->&Hwf'&Hc&Hm&Hb').
  pose proof (filled_change _ _ _ (Some (k, v0)) None Hi Hb Hb') as Hf. simpl in Hf.
  do 2 eexists. split; [done|]. split; [|done]. split; [by destruct Hwf'; split|].
  cbn [hm_count hm_max_element_count data_buffer with_count].
  assert (0 ≤ filled (data_buffer m')) by (unfold filled; lia).
  rewrite u64_small by (unfold st in *; nia). lia.
Qed.

Lemma hm_lookup_inv m key k :
  hm_inv m → from_user key ks = Some k →
  hm_elem_lookup m key = Ok None ∨
  ∃ off v, hm_elem_lookup m key = Ok (Some off) ∧ vread (data_buffer m) off vs = Some v.
Proof.
  intros (Hwf&_&_) Hk. pose proof Hwf as [_ _ _ [? ?] _ _].
  unfold hm_elem_lookup. rewrite (wf_ks _ Hwf), Hk.
  destruct (probe_key_spec m k Hwf) as ([i|i|]&->&Hpost); [by left| |by left]. right.
  destruct Hpost as (e&v0&He&->&Hb&_). pose proof (pos_range (hash_func k mod nb) e ltac:(lia)) as Hi.
  destruct (bucket_reads m _ _ _ Hwf Hi Hb) as (_&Hv&_). eauto.
Qed.
End table.

(** ** The map type *)

Section fix_map.
Variables (ks vs nb cap : Z).

Record fh_rep (m : fix_size_hash_map_impl) (g : gmap (list Z) (list Z)) : Prop := {
  fh_table : hm_rep ks vs nb (map_impl m) g;
  fh_ks : fh_key_size m = ks;
  fh_num : fh_num_buckets m = cap;
  fh_cap : hm_max_element_count (map_impl m) = cap
}.

(** The abstract map: updates beyond the capacity are dropped, and no answer is an error. *)
Definition spec_lookup (g : gmap (list Z) (list Z)) (key : uptr) : res (list Z) :=
  match from_user key ks with
  | None => Fault
  | Some k => match g !! k with Some v => Ok v | None => Raw 0 end
  end.

Definition spec_update (g : gmap (list Z) (list Z)) (key value : uptr) (flags : Z)
  : res unit * gmap (list Z) (list Z) :=
  match from_user key ks, from_user value vs with
  | Some k, Some v =>
      (Ok tt, if bool_decide (is_Some (g !! k) ∨ Z.of_nat (size g) < cap) then <[k := v]> g else g)
  | _, _ => (Fault, g)
  end.

Definition spec_delete (g : gmap (list Z) (list Z)) (key : uptr)
  : res unit * gmap (list Z) (list Z) :=
  match from_user key ks with
  | None => (Fault, g)
  | Some k => (Ok tt, delete k g)
  end.

#[export] Instance hash_spec_kv : KvMap (gmap (list Z) (list Z)) := {
  kv_lookup g k := (spec_lookup g k, g);
  kv_update := spec_update;
  kv_delete := spec_delete
}.

(** Lookups and updates with whole keys and values; no deletions. *)
Definition hash_op_ok (op : kv_op) : Prop :=
  match op with
  | KLookup (Some k) => ks ≤ zlen k
  | KUpdate (Some k) (Some v) _ => ks ≤ zlen k ∧ vs ≤ zlen v
  | _ => False
  end.

Lemma fh_lookup m g key :
  fh_rep m g → from_user key ks ≠ None → elem_lookup m key = spec_lookup g key.
Proof.
  intros [Hr _ _ _] Hk. destruct (from_user key ks) as [k|] eqn:E; [|done].
  unfold elem_lookup, spec_lookup. rewrite E. pose proof (hm_lookup_rep ks vs nb _ g key k Hr E) as Hl.
  destruct (g !! k) as [v|]; [|by rewrite Hl]. destruct Hl as (off&->&Hv).
  by rewrite (wf_vs _ _ _ _ (rep_wf _ _ _ _ _ Hr)), Hv.
Qed.

Lemma fh_step_sim m g op :
  0 ≤ ks → 0 ≤ vs → fh_rep m g → hash_op_ok op → kv_sim fh_rep (kv_step m op) (kv_step g op).
Proof.
  intros Hks Hvs Hr Hok. apply kv_step_sim; intros; subst op; cbn [kv_lookup kv_update kv_delete fix_hash_kv hash_spec_kv].
  - split; [|done]. destruct k as [k|]; [|done]. apply fh_lookup; [done|].
    simpl in Hok. by rewrite from_user_Some by lia.
  - destruct k as [k|]; [|done]. destruct v as [v|]; [|done]. simpl in Hok.
    unfold spec_update, elem_update. rewrite !from_user_Some by lia.
    pose proof Hr as [Ht Hk Hn Hc].
    destruct (hm_update_rep ks vs nb (map_impl m) g (Some k) (Some v) _ _ Ht
      (from_user_Some k ks ltac:(lia)) (from_user_Some v vs ltac:(lia))) as (m'&->&Hr'&Hm').
    rewrite Hc in Hr', Hm'. split; [done|]. by split.
  - done.
Qed.
End fix_map.

(** ** A fresh map *)

Lemma vread_replicate n (x : Z) off len bs :
  vread (replicate n x) off len = Some bs → bs = replicate (Z.to_nat len) x.
Proof.
  intros (?&?&Hl&->)%vread_inv. rewrite drop_replicate, take_replicate. f_equal.
  unfold zlen in Hl. rewrite length_replicate in Hl. lia.
Qed.

Lemma bucket_replicate ks vs n i : bucket ks vs (replicate n 0) i = None.
Proof.
  unfold bucket. destruct (vread _ _ 4) as [w|] eqn:E; [|done].
  apply vread_replicate in E. by subst w.
Qed.

(** Sizes for which the whole table fits 64 bits. *)
Definition sizes_ok (num ks vs : Z) : Prop :=
  0 ≤ num < 2 ^ 32 ∧ 0 ≤ ks ∧ 0 ≤ vs ∧ 4 + ks + vs < 2 ^ 31.

Lemma create_wf num ks vs :
  sizes_ok num ks vs → hm_wf ks vs (next_prime num) (bpftime_hash_map_create num ks vs).
Proof.
  intros (Hn&?&?&?). destruct (next_prime_search num ltac:(lia)) as (Hb&Hp&_).
  assert (0 < next_prime num).
  { destruct (Z.le_gt_cases (next_prime num) 0); [|lia].
    assert (next_prime num = 0) as E by lia. by rewrite E in Hp. }
  assert (0 ≤ next_prime num * (4 + ks + vs) ≤ 4294967311 * 2 ^ 31) by nia.
  split; simpl; try done; try lia. rewrite u64_small by lia. by rewrite zlen_replicate by lia.
Qed.

Lemma create_fh_rep num ks vs :
  sizes_ok num ks vs → fh_rep ks vs (next_prime num) num (fix_hash_create num ks vs) ∅.
Proof.
  intros Hs. pose proof (create_wf num ks vs Hs) as Hwf. destruct Hs as (Hn&?&?&?).
  destruct (next_prime_search num ltac:(lia)) as (Hb&Hp&_).
  split; simpl; [|by apply u32_small; lia..|done]. split; simpl; try done; try lia.
  - intros k v. rewrite lookup_empty. split; [done|]. intros (i&_&Hi). by rewrite bucket_replicate in Hi.
  - intros i k v _ Hi. by rewrite bucket_replicate in Hi.
Qed.

Lemma create_inv num ks vs :
  sizes_ok num ks vs → hm_inv ks vs (next_prime num) (bpftime_hash_map_create num ks vs).
Proof.
  intros Hs. pose proof (create_wf num ks vs Hs) as Hwf. destruct Hs as (Hn&?&?&?).
  destruct (next_prime_search num ltac:(lia)) as (Hb&_&_). split; [done|]. split; [|simpl; lia].
  unfold filled. rewrite (filter_agree _ (λ _, False)); simpl.
  - induction (seqZ 0 (next_prime num)) as [|x l IH]; [done|]. by rewrite filter_cons_False by tauto.
  - intros x _. rewrite bucket_replicate. split; [apply is_Some_None|done].
Qed.

Lemma fh_step_inv num ks vs op m :
  sizes_ok num ks vs → hash_op_ok ks vs op ∨ (∃ k, op = KDelete (Some k) ∧ ks ≤ zlen k) →
  hm_inv ks vs (next_prime num) (map_impl m) → hm_max_element_count (map_impl m) = num →
  safe (kv_step m op).1 ∧ hm_inv ks vs (next_prime num) (map_impl (kv_step m op).2) ∧
  hm_max_element_count (map_impl (kv_step m op).2) = num.
Proof.
  intros (_&?&?&_) Hop Hi Hm. destruct Hop as [Hop|(k&->&Hk)].
  - destruct op as [[k|]|[k|] [v|] f|]; try done; cbn [kv_step kv_lookup kv_update fix_hash_kv].
    + split; [|done]. unfold elem_lookup, safe.
      destruct (hm_lookup_inv ks vs (next_prime num) (map_impl m) (Some k) _ Hi
        (from_user_Some k ks ltac:(simpl in Hop; lia))) as [->|(off&v&->&Hv)]; [done|].
      pose proof Hi as (Hwf&_). by rewrite (wf_vs _ _ _ _ Hwf), Hv.
    + destruct Hop as [Hk Hv]. unfold elem_update.
      destruct (hm_update_inv ks vs (next_prime num) (map_impl m) (Some k) (Some v) _ _ Hi
        (from_user_Some k ks ltac:(lia)) (from_user_Some v vs ltac:(lia))) as (b&m'&->&Hi'&Hm').
      split; [done|]. simpl. split; [done|congruence].
  - cbn [kv_step kv_delete fix_hash_kv]. unfold elem_delete.
    destruct (hm_delete_inv ks vs (next_prime num) (map_impl m) (Some k) _ Hi
      (from_user_Some k ks ltac:(lia))) as (b&m'&->&Hi'&Hm').
    split; [done|]. simpl. split; [done|congruence].
Qed.

(** ** Iteration *)

Lemma first_key_spec ks vs nb cap m g i n :
  fh_rep ks vs nb cap m g → 0 ≤ i → i + Z.of_nat n ≤ cap →
  let buf := data_buffer (map_impl m) in
  (∃ j k v, i ≤ j < i + Z.of_nat n ∧ bucket ks vs buf j = Some (k, v) ∧
     (∀ i', i ≤ i' < j → bucket ks vs buf i' = None) ∧ first_key m i n = Ok k) ∨
  (∀ i', i ≤ i' < i + Z.of_nat n → bucket ks vs buf i' = None) ∧ first_key m i n = Err ENOENT.
Proof.
  intros Hr Hi Hn buf. pose proof Hr as [Ht Hks ? Hcap]. pose proof (rep_wf _ _ _ _ _ Ht) as Hwf.
  pose proof (rep_max _ _ _ _ _ Ht) as Hmax. rewrite Hcap in Hmax. revert i Hi Hn.
  induction n as [|n IH]; intros i Hi Hn; [right; split; [lia|done]|]. cbn [first_key].
  rewrite (is_empty_bucket ks vs nb _ _ Hwf) by lia. fold buf. case_bool_decide as Hb.
  - destruct (IH (i + 1) ltac:(lia) ltac:(lia)) as [(j&k&v&Hj&Hbj&Hpre&He)|[Hpre He]]; [left|right].
    + exists j, k, v. split; [lia|]. split; [done|]. split; [|done]. intros i' Hi'.
      destruct (decide (i' = i)) as [->|]; [done|apply Hpre; lia].
    + split; [|done]. intros i' Hi'. destruct (decide (i' = i)) as [->|]; [done|apply Hpre; lia].
  - left. destruct (bucket ks vs buf i) as [[k v]|] eqn:E; [|done].
    destruct (bucket_reads ks vs nb (map_impl m) i k v Hwf ltac:(lia) E) as (Hk&_&_).
    fold buf in Hk. rewrite Hks, Hk. exists i, k, v. split; [lia|]. split; [done|]. split; [lia|done].
Qed.

Lemma hm_lookup_index ks vs nb m g key k v :
  hm_rep ks vs nb m g → 0 < vs → from_user key ks = Some k → g !! k = Some v →
  ∃ i, 0 ≤ i < nb ∧ bucket ks vs (data_buffer m) i = Some (k, v) ∧
       hm_elem_lookup m key = Ok (Some (get_value m i)).
Proof.
  intros Hr Hvs Hk Hg. pose proof (rep_wf _ _ _ _ _ Hr) as Hwf. unfold hm_elem_lookup.
  rewrite (wf_ks _ _ _ _ Hwf), Hk. destruct (search ks vs nb m g k Hr) as ([i|i|]&->&Hpost).
  - destruct Hpost as (_&Hn&_). congruence.
  - destruct Hpost as (Hi&v'&Hb&Hg'). exists i. split; [done|]. split; [congruence|done].
  - destruct Hpost as [Hn _]. congruence.
Qed.

Lemma index_of_value ks vs nb m i :
  hm_wf ks vs nb m → 0 < vs → 0 ≤ i < nb → get_index_of_value m (Some (get_value m i)) = i.
Proof.
  intros Hwf Hvs Hi. unfold get_index_of_value, get_value. rewrite (offset_eq ks vs nb) by done.
  pose proof Hwf as [Hks Hvs' _ [? ?] Hz _]. unfold hm_stride. rewrite Hks, Hvs', Hz.
  destruct (in_range ks vs nb i) as [? ?]; [lia..|].
  rewrite (proj2 (Z.ltb_ge _ _)), (proj2 (Z.leb_gt _ _)) by lia. simpl.
  symmetry. apply (Z.div_unique_pos _ _ _ (4 + ks)); lia.
Qed.

(** ** Properties *)

(** C7 (refinement). A fresh hash map answers every sequence of lookups and updates with whole keys and values as the
    finite map that drops new keys beyond its capacity: linear probing over the prime number of buckets finds every key
    that was inserted, with the last value written. Every update answers 0: the flags are not looked at, so BPF_NOEXIST
    overwrites and BPF_EXIST inserts, and a new key of a full map is dropped, where the comment of map_update_elem has the
    errors EEXIST, ENOENT and E2BIG. *)
Theorem hash_refines_map num ks vs ops :
  sizes_ok num ks vs → Forall (hash_op_ok ks vs) ops →
  (kv_run (fix_hash_create num ks vs) ops).1 = (kv_run (H := hash_spec_kv ks vs num) ∅ ops).1.
Proof.
  intros Hs Hok. pose proof Hs as (_&?&?&_).
  apply (kv_run_sim (H0 := hash_spec_kv ks vs num) (fh_rep ks vs (next_prime num) num)
    (hash_op_ok ks vs)); [by intros; apply fh_step_sim|by apply create_fh_rep|done].
Qed.

(** Keys 0 and 5 share a bucket of the five of a map for four entries. *)
Definition hash_ops : list kv_op :=
  [KUpdate (Some [0]) (Some [1]) 0; KUpdate (Some [5]) (Some [2]) 0; KUpdate (Some [0]) (Some [3]) 1;
   KLookup (Some [5]); KLookup (Some [0]); KLookup (Some [10])].

Lemma hash_refines_map_witness :
  (kv_run (fix_hash_create 4 1 1) hash_ops).1 = (kv_run (H := hash_spec_kv 1 1 4) ∅ hash_ops).1 ∧
  (kv_run (fix_hash_create 4 1 1) hash_ops).1 = [Ok []; Ok []; Ok []; Ok [2]; Ok [3]; Raw 0].
Proof.
  split; [|vm_compute; reflexivity].
  apply (hash_refines_map 4 1 1); [unfold sizes_ok; lia|].
  repeat constructor; vm_compute; congruence.
Defined.

(** C27 (invariant). After any lookups, updates and deletions with whole keys and values on a fresh hash map whose
    capacity fits 32 bits and whose bucket fits 31: no operation has accessed memory outside of the table, the
    count of elements is the number of filled buckets, and it is at most the capacity. *)
Theorem hash_reachable_inv num ks vs ops :
  sizes_ok num ks vs →
  Forall (λ op, hash_op_ok ks vs op ∨ ∃ k, op = KDelete (Some k) ∧ ks ≤ zlen k) ops →
  let x := kv_run (fix_hash_create num ks vs) ops in
  Forall safe x.1 ∧
  get_elem_count (map_impl x.2) = filled ks vs (next_prime num) (data_buffer (map_impl x.2)) ∧
  get_elem_count (map_impl x.2) ≤ num.
Proof.
  intros Hs Hok x. pose proof Hs as (?&?&?&_).
  assert (Hgen : ∀ m, hm_inv ks vs (next_prime num) (map_impl m) →
    hm_max_element_count (map_impl m) = num →
    Forall safe (kv_run m ops).1 ∧ hm_inv ks vs (next_prime num) (map_impl (kv_run m ops).2) ∧
    hm_max_element_count (map_impl (kv_run m ops).2) = num).
  { clear x. induction Hok as [|op ops Hop Hok IH]; intros m Hi Hm; [done|]. cbn [kv_run].
    destruct (fh_step_inv num ks vs op m Hs Hop Hi Hm) as (Hsafe&Hi'&Hm').
    destruct (kv_step m op) as [r m']. destruct (IH m' Hi' Hm') as (?&?&?).
    destruct (kv_run m' ops). simpl in *. auto. }
  destruct (Hgen (fix_hash_create num ks vs) (create_inv num ks vs Hs) eq_refl) as (Hsafe&(_&Hc&Hb)&Hm).
  split; [done|]. unfold get_elem_count. split; [done|]. subst x. lia.
Qed.

Lemma hash_reachable_inv_witness :
  let x := kv_run (fix_hash_create 4 1 1) (hash_ops ++ [KDelete (Some [0])]) in
  Forall safe x.1 ∧ get_elem_count (map_impl x.2) = filled 1 1 5 (data_buffer (map_impl x.2)) ∧
  get_elem_count (map_impl x.2) ≤ 4.
Proof.
  apply (hash_reachable_inv 4 1 1); [unfold sizes_ok; lia|].
  unfold hash_ops. simpl app. repeat apply Forall_cons_2; [left; unfold hash_op_ok, zlen; simpl; lia..| |].
  - right. eexists. split; [done|unfold zlen; simpl; lia].
  - apply Forall_nil_2.
Defined.

(** C40 (error). Of two stored keys with the same first bucket, deleting one makes a lookup of the
    other answer null, although the other was never deleted. *)
Theorem hash_delete_loses_collision ks vs nb cap m g k1 k2 v1 v2 :
  fh_rep ks vs nb cap m g → g !! k1 = Some v1 → g !! k2 = Some v2 → k1 ≠ k2 →
  hash_func k1 mod nb = hash_func k2 mod nb →
  ∃ a b, (a = k1 ∧ b = k2 ∨ a = k2 ∧ b = k1) ∧
         elem_lookup (elem_delete m (Some a)).2 (Some b) = Raw 0.
Proof.
  assert (Hone : ∀ a b va vb d e, fh_rep ks vs nb cap m g → g !! a = Some va → g !! b = Some vb →
    hash_func a mod nb = hash_func b mod nb → 0 ≤ d < e → e < nb →
    bucket ks vs (data_buffer (map_impl m)) (pos nb (hash_func a mod nb) d) = Some (a, va) →
    (∀ e', 0 ≤ e' < e → other ks vs nb (data_buffer (map_impl m)) b e') →
    zlen a = ks → zlen b = ks → elem_lookup (elem_delete m (Some a)).2 (Some b) = Raw 0).
  { intros a b va vb d e [Hr ? ? ?] Ha Hb Hh Hd He Hba Hpb Hza Hzb.
    pose proof (hm_delete_rep ks vs nb (map_impl m) g (Some a) a Hr (from_user_exact a ks Hza)) as Hdel.
    rewrite Ha in Hdel. destruct Hdel as (i&m'&Hi&Hbi&Hdel&Hwf'&_&_&Hb').
    unfold elem_delete. rewrite Hdel. cbn [snd]. unfold elem_lookup. cbn [map_impl with_impl].
    pose proof Hwf' as [_ _ _ [? ?] _ _].
    assert (i = pos nb (hash_func b mod nb) d) as Hid.
    { rewrite <- Hh. eapply (rep_unique ks vs nb _ g i _ a va va Hr Hi); [|done..].
      apply (pos_range ks vs); lia. }
    rewrite (lookup_past_gap ks vs nb (map_impl m) m' g (Some b) b i d); try done.
    - by apply from_user_exact.
    - lia.
    - intros e' He'. apply Hpb. lia. }
  intros Hf H1 H2 Hne Hh. pose proof Hf as [Hr _ _ _].
  pose proof (proj1 (rep_map _ _ _ _ _ Hr _ _) H1) as (i&Hi&Hbi).
  pose proof (proj1 (rep_map _ _ _ _ _ Hr _ _) H2) as (j&Hj&Hbj).
  destruct (bucket_reads ks vs nb _ i k1 v1 (rep_wf _ _ _ _ _ Hr) Hi Hbi) as (_&_&Hz1).
  destruct (bucket_reads ks vs nb _ j k2 v2 (rep_wf _ _ _ _ _ Hr) Hj Hbj) as (_&_&Hz2).
  destruct (rep_path _ _ _ _ _ Hr _ _ _ Hi Hbi) as (d&Hd&->&Hpd).
  destruct (rep_path _ _ _ _ _ Hr _ _ _ Hj Hbj) as (e&He&->&Hpe).
  destruct (Z.lt_trichotomy d e) as [Hlt|[->|Hlt]].
  - exists k1, k2. split; [by left|]. eapply (Hone k1 k2 v1 v2 d e); try done; lia.
  - rewrite Hh in Hbi. congruence.
  - exists k2, k1. split; [by right|]. eapply (Hone k2 k1 v2 v1 e d); try done; lia.
Qed.

(** Two updates of a fresh map for four one-byte keys and values. *)
Lemma fh_two a b va vb :
  a ≠ b →
  fh_rep 1 1 5 4 (kv_run (fix_hash_create 4 1 1)
      [KUpdate (Some [a]) (Some [va]) 0; KUpdate (Some [b]) (Some [vb]) 0]).2
    (<[[b] := [vb]]> (<[[a] := [va]]> ∅)).
Proof.
  intros Hab. set (ops := [_; _]).
  destruct (kv_run_sim (H0 := hash_spec_kv 1 1 4) (fh_rep 1 1 5 4) (hash_op_ok 1 1)) with
    (ops := ops) (s := fix_hash_create 4 1 1) (t := ∅ : gmap (list Z) (list Z)) as [_ Hr].
  - intros. by apply fh_step_sim.
  - apply (create_fh_rep 4 1 1). unfold sizes_ok. lia.
  - unfold ops. repeat constructor; unfold zlen; simpl; lia.
  - unfold ops in *. cbn [kv_run kv_step kv_update hash_spec_kv] in Hr.
    unfold spec_update in Hr. rewrite !from_user_exact in Hr by done.
    rewrite (bool_decide_eq_true_2 (is_Some ((∅ : gmap (list Z) (list Z)) !! [a]) ∨ _)) in Hr
      by (right; rewrite map_size_empty; lia).
    cbn [res_map snd] in Hr. rewrite bool_decide_eq_true_2 in Hr; [exact Hr|].
    right. rewrite map_size_insert_None, map_size_empty by apply lookup_empty. lia.
Qed.

Lemma hash_delete_loses_collision_witness : ∃ m g a b,
  fh_rep 1 1 5 4 m g ∧ is_Some (g !! b) ∧ a ≠ b ∧
  elem_lookup (elem_delete m (Some a)).2 (Some b) = Raw 0.
Proof.
  pose proof (fh_two 0 5 1 2 ltac:(lia)) as Hr.
  destruct (hash_delete_loses_collision 1 1 5 4 _ _ [0] [5] [1] [2] Hr) as (a&b&Hab&Hl);
    [reflexivity|reflexivity|congruence|reflexivity|].
  do 2 eexists. exists a, b. split; [exact Hr|].
  split; [destruct Hab as [[-> ->]|[-> ->]]; by eexists|].
  split; [destruct Hab as [[-> ->]|[-> ->]]; congruence|exact Hl].
Defined.

(** [map_get_next_key] returns the key of the first filled bucket after the one of
    the given key (the first of all when that is null or not stored), but it only looks at the
    first [max_entries] buckets: entries in the buckets added to reach a prime are never reported. *)
Theorem hash_next_key ks vs nb cap m g key :
  fh_rep ks vs nb cap m g → 0 < vs → match key with Some k => ks ≤ zlen k | None => True end →
  let buf := data_buffer (map_impl m) in
  ∃ start, 0 ≤ start ≤ nb ∧
    (start = 0 ∧ from_user key ks ≫= (g !!.) = None ∨
     ∃ k v, from_user key ks = Some k ∧ bucket ks vs buf (start - 1) = Some (k, v)) ∧
    ((∃ j k v, start ≤ j < cap ∧ bucket ks vs buf j = Some (k, v) ∧
       (∀ i, start ≤ i < j → bucket ks vs buf i = None) ∧ map_get_next_key m key true = Ok k) ∨
     (∀ i, start ≤ i < cap → bucket ks vs buf i = None) ∧ map_get_next_key m key true = Err ENOENT).
Proof.
  intros Hr Hvs Hk buf. pose proof Hr as [Ht ? Hnum Hcap]. pose proof (rep_wf _ _ _ _ _ Ht) as Hwf.
  pose proof (rep_max _ _ _ _ _ Ht) as Hmax. rewrite Hcap, (rep_count _ _ _ _ _ Ht) in Hmax.
  pose proof Hwf as [_ _ _ [? ?] Hz H64].
  unfold map_get_next_key. cbn [negb]. rewrite Hnum.
  pose proof (first_key_spec ks vs nb cap m g 0 (Z.to_nat cap) Hr ltac:(lia) ltac:(lia)) as Hf0.
  rewrite Z2Nat.id, Z.add_0_l in Hf0 by lia.
  destruct key as [l|]; [|exists 0; split; [lia|]; split; [by left|done]].
  pose proof (hm_lookup_rep ks vs nb _ g (Some l) _ Ht (from_user_Some l ks ltac:(lia))) as Hl.
  destruct (g !! take (Z.to_nat ks) l) as [v|] eqn:Hg.
  - destruct (hm_lookup_index ks vs nb (map_impl m) g (Some l) _ v Ht Hvs
      (from_user_Some l ks ltac:(lia)) Hg) as (i&Hi&Hb&->).
    rewrite (index_of_value ks vs nb) by done. rewrite u64_small by nia.
    exists (i + 1). split; [lia|]. split.
    + right. do 2 eexists. split; [by apply from_user_Some; lia|]. by replace (i + 1 - 1) with i by lia.
    + destruct (Z.le_gt_cases (i + 1) cap) as [Hle|Hgt].
      * pose proof (first_key_spec ks vs nb cap m g (i + 1) (Z.to_nat (cap - (i + 1))) Hr
          ltac:(lia) ltac:(lia)) as Hf. rewrite Z2Nat.id in Hf by lia.
        by replace (i + 1 + (cap - (i + 1))) with cap in Hf by lia.
      * right. replace (Z.to_nat (cap - (i + 1))) with 0%nat by lia. split; [lia|done].
  - rewrite Hl. exists 0. split; [lia|]. split; [|done]. left. split; [done|].
    rewrite from_user_Some by lia. simpl. done.
Qed.

(** The only entry of a map for four keys is in the fifth bucket. *)
Lemma hash_next_key_witness :
  let m := (kv_run (fix_hash_create 4 1 1) [KUpdate (Some [4]) (Some [1]) 0; KUpdate (Some [0]) (Some [2]) 0]).2 in
  elem_lookup m (Some [4]) = Ok [1] ∧ map_get_next_key m None true = Ok [0] ∧
  map_get_next_key m (Some [0]) true = Err ENOENT.
Proof.
  intros m. split; [vm_compute; reflexivity|]. split; [vm_compute; reflexivity|].
  destruct (hash_next_key 1 1 5 4 m _ (Some [0]) (fh_two 4 0 1 2 ltac:(lia)) ltac:(lia) ltac:(done))
    as (start&_&_&[(j&k&v&_&_&_&He)|[_ He]]); [|exact He].
  vm_compute in He. discriminate He.
Defined.
