(* ===== verification/MapHandler.v ===== *)
(** * The map handler

    [bpf_map_handler] (runtime/src/handler/map_handler.cpp, map_handler.hpp): a map of any type. It
    constructs the implementation as a named object of the shared memory, passes every operation on
    to it according to the type of the map, and destroys it. The shared memory is a finite map from
    names to objects, a pointer to an object is its name, and a cast of a pointer to the wrong
    implementation is a fault. The locks that some implementations ask for are held during one
    operation, so they do not show in a model of whole operations. The GPU map types are those of a
    build without them. *)

From stdpp Require Import base numbers list gmap strings.
From S2P Require Import Prelude.
From S2P Require Import ArrayMap.
From S2P Require Import PerCpuArray.
From S2P Require Import BloomFilter.
From S2P Require Import FdArray.
From S2P Require Import RingBuf.
From S2P Require Import PushPop.
From S2P Require Import QueueMap.
From S2P Require Import StackMap.
From S2P Require Import UnorderedMap.
From S2P Require Import StackTrace.
From S2P Require Import PerCpuHash.
From S2P Require Import LruHashMap.
From S2P Require Import LpmTrie.
From S2P Require Import HashMap.

Inductive bpf_map_type :=
| BPF_MAP_TYPE_HASH | BPF_MAP_TYPE_ARRAY | BPF_MAP_TYPE_PROG_ARRAY | BPF_MAP_TYPE_PERF_EVENT_ARRAY
| BPF_MAP_TYPE_PERCPU_HASH | BPF_MAP_TYPE_PERCPU_ARRAY | BPF_MAP_TYPE_STACK_TRACE
| BPF_MAP_TYPE_LRU_HASH | BPF_MAP_TYPE_LPM_TRIE | BPF_MAP_TYPE_ARRAY_OF_MAPS
| BPF_MAP_TYPE_QUEUE | BPF_MAP_TYPE_STACK | BPF_MAP_TYPE_RINGBUF | BPF_MAP_TYPE_BLOOM_FILTER
| BPF_MAP_TYPE_KERNEL_USER_HASH | BPF_MAP_TYPE_KERNEL_USER_ARRAY
| BPF_MAP_TYPE_KERNEL_USER_PERCPU_ARRAY | BPF_MAP_TYPE_KERNEL_USER_PERF_EVENT_ARRAY
| BPF_MAP_TYPE_OTHER (n : Z).

Abbreviation KERNEL_USER_MAP_OFFSET := 1000 (only parsing).
Abbreviation BPF_MAP_TYPE_MAX := 2048 (only parsing).

Definition type_num (t : bpf_map_type) : Z :=
  match t with
  | BPF_MAP_TYPE_HASH => 1 | BPF_MAP_TYPE_ARRAY => 2 | BPF_MAP_TYPE_PROG_ARRAY => 3
  | BPF_MAP_TYPE_PERF_EVENT_ARRAY => 4 | BPF_MAP_TYPE_PERCPU_HASH => 5
  | BPF_MAP_TYPE_PERCPU_ARRAY => 6 | BPF_MAP_TYPE_STACK_TRACE => 7 | BPF_MAP_TYPE_LRU_HASH => 9
  | BPF_MAP_TYPE_LPM_TRIE => 11 | BPF_MAP_TYPE_ARRAY_OF_MAPS => 12 | BPF_MAP_TYPE_QUEUE => 22
  | BPF_MAP_TYPE_STACK => 23 | BPF_MAP_TYPE_RINGBUF => 27 | BPF_MAP_TYPE_BLOOM_FILTER => 30
  | BPF_MAP_TYPE_KERNEL_USER_HASH => KERNEL_USER_MAP_OFFSET + 1
  | BPF_MAP_TYPE_KERNEL_USER_ARRAY => KERNEL_USER_MAP_OFFSET + 2
  | BPF_MAP_TYPE_KERNEL_USER_PERCPU_ARRAY => KERNEL_USER_MAP_OFFSET + 6
  | BPF_MAP_TYPE_KERNEL_USER_PERF_EVENT_ARRAY => KERNEL_USER_MAP_OFFSET + 4
  | BPF_MAP_TYPE_OTHER n => n
  end.

Record bpf_map_attr := MapAttr {
  at_type : bpf_map_type;
  at_key_size : Z;
  at_value_size : Z;
  at_max_ents : Z;
  at_flags : Z;
  at_map_extra : Z;
  at_kernel_bpf_map_id : Z
}.

(** What a lookup hands out: the bytes the pointer points to, an offset into the data of an array,
    or a number (of a descriptor array, or a pointer that is one). *)
Inductive mem_ptr := Bytes (bs : list Z) | InData (off : Z) | Number (n : Z).

(** The array of maps, a class of its own. *)
Record array_map_of_maps_impl := ArrayOfMaps { om_array : array_map_impl }.

(** The operations registered for a type that is not built in. The first argument is the id of the
    map; they act outside of the shared memory. *)
Record bpftime_map_ops := MapOps {
  op_alloc_map : option (Z → string → bpf_map_attr → Z);
  op_map_free : option (Z → unit);
  op_elem_lookup : option (Z → uptr → bool → res mem_ptr);
  op_elem_update : option (Z → uptr → uptr → Z → bool → res unit);
  op_elem_delete : option (Z → uptr → bool → res unit);
  op_map_get_next_key : option (Z → uptr → bool → bool → res (list Z))
}.
Definition no_ops : bpftime_map_ops := MapOps None None None None None None.

(** [global_map_ops_table], a table of [BPF_MAP_TYPE_MAX] entries. *)
Definition ops_table := Z → bpftime_map_ops.

Definition bpftime_register_map_ops (t : ops_table) (map_type : Z) (ops : bpftime_map_ops) : res unit * ops_table :=
  if (map_type <? 0) || (BPF_MAP_TYPE_MAX <=? map_type) then (Raw (-1), t)
  else (Ok tt, λ n, if n =? map_type then ops else t n).

(** The maps shared with the kernel, which are built on system calls. *)
Class KernelUserMaps (F : Type) := {
  ku_create : bpf_map_type → Z → F;
  ku_lookup : F → uptr → res mem_ptr * F;
  ku_update : F → uptr → uptr → Z → res unit * F;
  ku_delete : F → uptr → res unit * F;
  ku_next_key : F → uptr → bool → res (list Z)
}.

Section handler.
(** The tables of Boost, the kernel, and the maps shared with it. *)
Context {U : Type} `{!UnorderedMap (list Z) U} {UL : Type} `{!UnorderedMap hash_map_value UL}.
Context `{Kernel} {F : Type} `{!KernelUserMaps F}.

(** ** Objects and casts *)

(** An object of the shared memory. *)
Inductive map_impl :=
| IHash (m : fix_size_hash_map_impl) | IArray (m : array_map_impl) | IRingbuf (m : ringbuf)
| IPerfEventArray (m : perf_event_array_map_impl) | IPerCpuArray (m : per_cpu_array_map_impl)
| IPerCpuHash (m : per_cpu_hash_map_impl U) | IStackTrace (m : stack_trace_map_impl (U := U))
| IQueue (m : queue_map_impl) | IStack (m : stack_map_impl) | IBloomFilter (m : bloom_filter_map_impl)
| ILruHash (m : lru_var_hash_map_impl UL) | ILpmTrie (m : lpm_trie_map_impl)
| IProgArray (m : prog_array_map_impl) | IArrayOfMaps (m : array_map_of_maps_impl) | IKernelUser (m : F).

Abbreviation shm := (gmap string map_impl).

(** An implementation class: its objects among those of the memory ([static_cast]), and the
    operations every implementation has. *)
Class MapImpl (S : Type) := {
  inj : S → map_impl;
  prj : map_impl → option S;
  impl_lookup : S → uptr → res mem_ptr * S;
  impl_update : S → uptr → uptr → Z → res unit * S;
  impl_delete : S → uptr → res unit * S;
  impl_next_key : S → uptr → bool → res (list Z)
}.

(** [elem_lookup_userspace] and the like, of the per-CPU maps. *)
Class UserspaceImpl (S : Type) := {
  impl_lookup_userspace : S → uptr → res mem_ptr * S;
  impl_update_userspace : S → uptr → uptr → Z → res unit * S;
  impl_delete_userspace : S → uptr → res unit * S
}.

(** [map_push_elem] and [map_peek_elem]; the pointer is to the value, or to where it goes. *)
Class PushImpl (S : Type) := {
  impl_push : S → uptr → Z → res unit * S;
  impl_peek : S → uptr → res (list Z) * S
}.
Class PopImpl (S : Type) := { impl_pop : S → uptr → res (list Z) * S }.

Definition lift_read {S A B} (f : A → B) (r : res A) (s : S) : res B * S := (res_map f r, s).

(** The CPU the calling thread runs on. *)
Variable cpu : Z.

#[export] Instance hash_impl : MapImpl fix_size_hash_map_impl := {
  inj := IHash; prj i := match i with IHash m => Some m | _ => None end;
  impl_lookup m k := lift_read Bytes (HashMap.elem_lookup m k) m;
  impl_update := HashMap.elem_update; impl_delete := HashMap.elem_delete;
  impl_next_key := HashMap.map_get_next_key }.
#[export] Instance array_impl : MapImpl array_map_impl := {
  inj := IArray; prj i := match i with IArray m => Some m | _ => None end;
  impl_lookup m k := lift_read InData (ArrayMap.elem_lookup m k) m;
  impl_update := ArrayMap.elem_update; impl_delete m k := (ArrayMap.elem_delete m k, m);
  impl_next_key m k _ := res_map (le_store 4) (ArrayMap.map_get_next_key m k) }.
#[export] Instance ringbuf_impl : MapImpl ringbuf := {
  inj := IRingbuf; prj i := match i with IRingbuf m => Some m | _ => None end;
  impl_lookup m k := lift_read Bytes (RingBuf.elem_lookup m k) m;
  impl_update m k v f := (RingBuf.elem_update m k v f, m); impl_delete m k := (RingBuf.elem_delete m k, m);
  impl_next_key m k _ := RingBuf.map_get_next_key m k }.
#[export] Instance perf_event_array_impl : MapImpl perf_event_array_map_impl := {
  inj := IPerfEventArray; prj i := match i with IPerfEventArray m => Some m | _ => None end;
  impl_lookup m k := lift_read Number (perf_elem_lookup m k) m;
  impl_update := perf_elem_update; impl_delete := perf_elem_delete;
  impl_next_key m k _ := res_map (le_store 4) (perf_map_get_next_key m k) }.
#[export] Instance per_cpu_array_impl : MapImpl per_cpu_array_map_impl := {
  inj := IPerCpuArray; prj i := match i with IPerCpuArray m => Some m | _ => None end;
  impl_lookup m k := lift_read Bytes (PerCpuArray.elem_lookup m k cpu) m;
  impl_update m k v f := PerCpuArray.elem_update m k v f cpu; impl_delete m k := (PerCpuArray.elem_delete m k, m);
  impl_next_key m k _ := res_map (le_store 4) (PerCpuArray.map_get_next_key m k) }.
#[export] Instance per_cpu_array_userspace_impl : UserspaceImpl per_cpu_array_map_impl := {
  impl_lookup_userspace m k := lift_read Bytes (PerCpuArray.elem_lookup_userspace m k) m;
  impl_update_userspace := PerCpuArray.elem_update_userspace;
  impl_delete_userspace m k := (PerCpuArray.elem_delete_userspace m k, m) }.
#[export] Instance per_cpu_hash_impl : MapImpl (per_cpu_hash_map_impl U) := {
  inj := IPerCpuHash; prj i := match i with IPerCpuHash m => Some m | _ => None end;
  impl_lookup m k := lift_read Bytes (PerCpuHash.elem_lookup m k cpu) m;
  impl_update m k v f := PerCpuHash.elem_update m k v f cpu; impl_delete m k := PerCpuHash.elem_delete m k cpu;
  impl_next_key m k _ := PerCpuHash.map_get_next_key m k }.
#[export] Instance per_cpu_hash_userspace_impl : UserspaceImpl (per_cpu_hash_map_impl U) := {
  impl_lookup_userspace m k := lift_read Bytes (PerCpuHash.elem_lookup_userspace m k) m;
  impl_update_userspace := PerCpuHash.elem_update_userspace;
  impl_delete_userspace := PerCpuHash.elem_delete_userspace }.
#[export] Instance stack_trace_impl : MapImpl (stack_trace_map_impl (U := U)) := {
  inj := IStackTrace; prj i := match i with IStackTrace m => Some m | _ => None end;
  impl_lookup m k := lift_read Bytes (StackTrace.elem_lookup m k) m;
  impl_update m k v f := (StackTrace.elem_update m k v f, m); impl_delete := StackTrace.elem_delete;
  impl_next_key m k _ := StackTrace.map_get_next_key m k }.
#[export] Instance queue_impl : MapImpl queue_map_impl := {
  inj := IQueue; prj i := match i with IQueue m => Some m | _ => None end;
  impl_lookup m k := lift_read InData (QueueMap.elem_lookup m k) m;
  impl_update := QueueMap.elem_update; impl_delete := QueueMap.elem_delete;
  impl_next_key m k _ := QueueMap.map_get_next_key m k }.
#[export] Instance stack_impl : MapImpl stack_map_impl := {
  inj := IStack; prj i := match i with IStack m => Some m | _ => None end;
  impl_lookup m k := lift_read InData (StackMap.elem_lookup m k) m;
  impl_update := StackMap.elem_update; impl_delete := StackMap.elem_delete;
  impl_next_key m k _ := StackMap.map_get_next_key m k }.
#[export] Instance bloom_filter_impl : MapImpl bloom_filter_map_impl := {
  inj := IBloomFilter; prj i := match i with IBloomFilter m => Some m | _ => None end;
  impl_lookup m k := lift_read Bytes (BloomFilter.elem_lookup m k) m;
  impl_update := BloomFilter.elem_update; impl_delete m k := (BloomFilter.elem_delete m k, m);
  impl_next_key m k _ := BloomFilter.map_get_next_key m k }.
#[export] Instance lru_hash_impl : MapImpl (lru_var_hash_map_impl UL) := {
  inj := ILruHash; prj i := match i with ILruHash m => Some m | _ => None end;
  impl_lookup m k := let '(r, m) := LruHashMap.elem_lookup k m in (res_map Bytes r, m);
  impl_update m k v f := LruHashMap.elem_update k v f m; impl_delete m k := LruHashMap.elem_delete k m;
  impl_next_key m k _ := LruHashMap.map_get_next_key m k }.
#[export] Instance lpm_trie_impl : MapImpl lpm_trie_map_impl := {
  inj := ILpmTrie; prj i := match i with ILpmTrie m => Some m | _ => None end;
  impl_lookup m k := lift_read Bytes (LpmTrie.elem_lookup m k) m;
  impl_update := LpmTrie.elem_update; impl_delete := LpmTrie.elem_delete;
  impl_next_key m k out := res_map (λ k, le_store 4 (k_prefixlen k) ++ k_data k) (LpmTrie.map_get_next_key m k out) }.
#[export] Instance prog_array_impl : MapImpl prog_array_map_impl := {
  inj := IProgArray; prj i := match i with IProgArray m => Some m | _ => None end;
  impl_lookup m k := lift_read Number (prog_elem_lookup m k) m;
  impl_update := prog_elem_update; impl_delete := prog_elem_delete;
  impl_next_key m k _ := res_map (le_store 4) (prog_map_get_next_key m k) }.
(** Everything but the lookup is inherited from the array map. *)
#[export] Instance array_of_maps_impl : MapImpl array_map_of_maps_impl := {
  inj := IArrayOfMaps; prj i := match i with IArrayOfMaps m => Some m | _ => None end;
  impl_lookup m k := lift_read Number (of_maps_elem_lookup (om_array m) k) m;
  impl_update m k v f := let '(r, a) := ArrayMap.elem_update (om_array m) k v f in (r, ArrayOfMaps a);
  impl_delete m k := (ArrayMap.elem_delete (om_array m) k, m);
  impl_next_key m k _ := res_map (le_store 4) (ArrayMap.map_get_next_key (om_array m) k) }.
#[export] Instance kernel_user_impl : MapImpl F := {
  inj := IKernelUser; prj i := match i with IKernelUser m => Some m | _ => None end;
  impl_lookup := ku_lookup; impl_update := ku_update; impl_delete := ku_delete; impl_next_key := ku_next_key }.

Definition not_null (p : uptr) : bool := match p with Some _ => true | None => false end.

#[export] Instance queue_push_impl : PushImpl queue_map_impl := {
  impl_push := QueueMap.map_push_elem;
  impl_peek m v := (QueueMap.map_peek_elem m (not_null v), m) }.
#[export] Instance queue_pop_impl : PopImpl queue_map_impl := { impl_pop m v := QueueMap.map_pop_elem m (not_null v) }.
#[export] Instance stack_push_impl : PushImpl stack_map_impl := {
  impl_push := StackMap.map_push_elem;
  impl_peek m v := (StackMap.map_peek_elem m (not_null v), m) }.
#[export] Instance stack_pop_impl : PopImpl stack_map_impl := { impl_pop m v := StackMap.map_pop_elem m (not_null v) }.
#[export] Instance bloom_push_impl : PushImpl bloom_filter_map_impl := {
  impl_push := BloomFilter.map_push_elem;
  impl_peek m v := lift_read (λ _, []) (BloomFilter.map_peek_elem m v) m }.

(** ** The handler *)

(** [map_impl_ptr] is the name of the object it points to. *)
Record bpf_map_handler := BpfMapHandler {
  mh_id : Z;
  mh_type : bpf_map_type;
  mh_name : string;
  mh_map_impl_ptr : option string;
  mh_max_entries : Z;
  mh_flags : Z;
  mh_key_size : Z;
  mh_value_size : Z;
  mh_attr : bpf_map_attr
}.

Definition with_ptr (h : bpf_map_handler) (p : option string) : bpf_map_handler :=
  BpfMapHandler (mh_id h) (mh_type h) (mh_name h) p (mh_max_entries h) (mh_flags h) (mh_key_size h)
    (mh_value_size h) (mh_attr h).

(** The constructors do not store their argument [id]; the member keeps its default 0. *)
Definition bpf_map_handler_create (id : Z) (name : string) (attr : bpf_map_attr) : bpf_map_handler :=
  BpfMapHandler 0 (at_type attr) name None (at_max_ents attr) (at_flags attr) (at_key_size attr)
    (at_value_size attr) attr.

Definition get_container_name (h : bpf_map_handler) : string := ("ebpf_map_fd_" +:+ mh_name h)%string.

Definition get_key_size (h : bpf_map_handler) : Z := mh_key_size h.
Definition get_value_size (h : bpf_map_handler) : Z := mh_value_size h.
Definition get_max_entries (h : bpf_map_handler) : Z := mh_max_entries h.

(** [ncpu] processors are online. *)
Definition get_userspace_value_size (ncpu : Z) (h : bpf_map_handler) : Z :=
  match mh_type h with
  | BPF_MAP_TYPE_PERCPU_ARRAY | BPF_MAP_TYPE_PERCPU_HASH => u32 (mh_value_size h * ncpu)
  | _ => mh_value_size h
  end.

Definition try_get_ringbuf_map_impl (h : bpf_map_handler) : option (option string) :=
  match mh_type h with BPF_MAP_TYPE_RINGBUF => Some (mh_map_impl_ptr h) | _ => None end.
Definition try_get_array_map_impl (h : bpf_map_handler) : option (option string) :=
  match mh_type h with BPF_MAP_TYPE_ARRAY => Some (mh_map_impl_ptr h) | _ => None end.
Definition try_get_stack_trace_map_impl (h : bpf_map_handler) : option (option string) :=
  match mh_type h with BPF_MAP_TYPE_STACK_TRACE => Some (mh_map_impl_ptr h) | _ => None end.
Definition try_get_shared_perf_event_array_map_impl (h : bpf_map_handler) : option (option string) :=
  match mh_type h with BPF_MAP_TYPE_KERNEL_USER_PERF_EVENT_ARRAY => Some (mh_map_impl_ptr h) | _ => None end.

(** [static_cast<S *>(map_impl_ptr.get())] and a call on the object: the pointer must not be null,
    nor dangle, nor point to an object of another class. *)
Definition call_impl (S : Type) `{!MapImpl S} {A} (f : S → res A * S) (h : bpf_map_handler) (w : shm) : res A * shm :=
  match mh_map_impl_ptr h with
  | None => (Fault, w)
  | Some p =>
      match w !! p ≫= prj with
      | None => (Fault, w)
      | Some s => let '(r, s') := f s in (r, <[p := inj s']> w)
      end
  end.

(** A build option ([BPFTIME_BUILD_WITH_LIBBPF]), and the table of registered operations. *)
Variables (with_libbpf : bool) (table : ops_table).

(** [global_map_ops_table[(int)type]]. *)
Definition table_ops (t : bpf_map_type) : option bpftime_map_ops :=
  if (0 <=? type_num t) && (type_num t <? BPF_MAP_TYPE_MAX) then Some (table (type_num t)) else None.

(** The default case: a registered operation, an error without one. A null pointer is returned as
    [Raw 0]. *)
Definition default_case {O A} (h : bpf_map_handler) (field : bpftime_map_ops → option O) (f : O → res A) (none : Z) (w : shm)
  : res A * shm :=
  match table_ops (mh_type h) with
  | None => (Fault, w)
  | Some ops => match field ops with Some o => (f o, w) | None => (Raw none, w) end
  end.

Definition map_lookup_elem (h : bpf_map_handler) (key : uptr) (from_syscall : bool) (w : shm) : res mem_ptr * shm :=
  let do_lookup (S : Type) `{!MapImpl S} := call_impl S (λ s, impl_lookup s key) h w in
  let do_lookup_userspace (S : Type) `{!MapImpl S} `{!UserspaceImpl S} := call_impl S (λ s, impl_lookup_userspace s key) h w in
  let default := default_case h op_elem_lookup (λ f, f (mh_id h) key from_syscall) 0 w in
  match mh_type h with
  | BPF_MAP_TYPE_HASH => do_lookup fix_size_hash_map_impl
  | BPF_MAP_TYPE_ARRAY => do_lookup array_map_impl
  | BPF_MAP_TYPE_RINGBUF => do_lookup ringbuf
  | BPF_MAP_TYPE_PERF_EVENT_ARRAY => do_lookup perf_event_array_map_impl
  | BPF_MAP_TYPE_PERCPU_ARRAY =>
      if from_syscall then do_lookup_userspace per_cpu_array_map_impl else do_lookup per_cpu_array_map_impl
  | BPF_MAP_TYPE_PERCPU_HASH =>
      if from_syscall then do_lookup_userspace (per_cpu_hash_map_impl U) else do_lookup (per_cpu_hash_map_impl U)
  | BPF_MAP_TYPE_STACK_TRACE => do_lookup stack_trace_map_impl
  | BPF_MAP_TYPE_QUEUE => do_lookup queue_map_impl
  | BPF_MAP_TYPE_STACK => do_lookup stack_map_impl
  | BPF_MAP_TYPE_BLOOM_FILTER => do_lookup bloom_filter_map_impl
  | BPF_MAP_TYPE_LRU_HASH => do_lookup (lru_var_hash_map_impl UL)
  | BPF_MAP_TYPE_LPM_TRIE => do_lookup lpm_trie_map_impl
  | BPF_MAP_TYPE_KERNEL_USER_ARRAY | BPF_MAP_TYPE_KERNEL_USER_HASH
  | BPF_MAP_TYPE_KERNEL_USER_PERCPU_ARRAY | BPF_MAP_TYPE_KERNEL_USER_PERF_EVENT_ARRAY =>
      if with_libbpf then do_lookup F else default
  | BPF_MAP_TYPE_PROG_ARRAY => if with_libbpf then do_lookup prog_array_map_impl else default
  | BPF_MAP_TYPE_ARRAY_OF_MAPS => do_lookup array_map_of_maps_impl
  | BPF_MAP_TYPE_OTHER _ => default
  end.

Definition map_update_elem (h : bpf_map_handler) (key value : uptr) (flags : Z) (from_syscall : bool) (w : shm)
  : res unit * shm :=
  let do_update (S : Type) `{!MapImpl S} := call_impl S (λ s, impl_update s key value flags) h w in
  let do_update_userspace (S : Type) `{!MapImpl S} `{!UserspaceImpl S} :=
    call_impl S (λ s, impl_update_userspace s key value flags) h w in
  let default := default_case h op_elem_update (λ f, f (mh_id h) key value flags from_syscall) (-1) w in
  match mh_type h with
  | BPF_MAP_TYPE_HASH => do_update fix_size_hash_map_impl
  | BPF_MAP_TYPE_ARRAY => do_update array_map_impl
  | BPF_MAP_TYPE_RINGBUF => do_update ringbuf
  | BPF_MAP_TYPE_PERF_EVENT_ARRAY => do_update perf_event_array_map_impl
  | BPF_MAP_TYPE_PERCPU_ARRAY =>
      if from_syscall then do_update_userspace per_cpu_array_map_impl else do_update per_cpu_array_map_impl
  | BPF_MAP_TYPE_PERCPU_HASH =>
      if from_syscall then do_update_userspace (per_cpu_hash_map_impl U) else do_update (per_cpu_hash_map_impl U)
  | BPF_MAP_TYPE_STACK_TRACE => do_update stack_trace_map_impl
  | BPF_MAP_TYPE_QUEUE => do_update queue_map_impl
  | BPF_MAP_TYPE_STACK => do_update stack_map_impl
  | BPF_MAP_TYPE_BLOOM_FILTER => do_update bloom_filter_map_impl
  | BPF_MAP_TYPE_KERNEL_USER_ARRAY | BPF_MAP_TYPE_KERNEL_USER_HASH
  | BPF_MAP_TYPE_KERNEL_USER_PERCPU_ARRAY | BPF_MAP_TYPE_KERNEL_USER_PERF_EVENT_ARRAY =>
      if with_libbpf then do_update F else default
  | BPF_MAP_TYPE_PROG_ARRAY => if with_libbpf then do_update prog_array_map_impl else default
  | BPF_MAP_TYPE_ARRAY_OF_MAPS =>
      if negb from_syscall then (Raw (- errno_val EINVAL), w) else do_update array_map_of_maps_impl
  | BPF_MAP_TYPE_LRU_HASH => do_update (lru_var_hash_map_impl UL)
  | BPF_MAP_TYPE_LPM_TRIE => do_update lpm_trie_map_impl
  | BPF_MAP_TYPE_OTHER _ => default
  end.

(** [out]: whether [next_key] is not null. *)
Definition bpf_map_get_next_key (h : bpf_map_handler) (key : uptr) (out from_syscall : bool) (w : shm) : res (list Z) * shm :=
  let do_get_next_key (S : Type) `{!MapImpl S} := call_impl S (λ s, (impl_next_key s key out, s)) h w in
  let default := default_case h op_map_get_next_key (λ f, f (mh_id h) key out from_syscall) (-1) w in
  match mh_type h with
  | BPF_MAP_TYPE_HASH => do_get_next_key fix_size_hash_map_impl
  | BPF_MAP_TYPE_ARRAY => do_get_next_key array_map_impl
  | BPF_MAP_TYPE_RINGBUF => do_get_next_key ringbuf
  | BPF_MAP_TYPE_PERF_EVENT_ARRAY => do_get_next_key perf_event_array_map_impl
  | BPF_MAP_TYPE_PERCPU_ARRAY => do_get_next_key per_cpu_array_map_impl
  | BPF_MAP_TYPE_PERCPU_HASH => do_get_next_key (per_cpu_hash_map_impl U)
  | BPF_MAP_TYPE_STACK_TRACE => do_get_next_key stack_trace_map_impl
  | BPF_MAP_TYPE_QUEUE => do_get_next_key queue_map_impl
  | BPF_MAP_TYPE_STACK => do_get_next_key stack_map_impl
  | BPF_MAP_TYPE_BLOOM_FILTER => do_get_next_key bloom_filter_map_impl
  | BPF_MAP_TYPE_KERNEL_USER_ARRAY | BPF_MAP_TYPE_KERNEL_USER_HASH
  | BPF_MAP_TYPE_KERNEL_USER_PERCPU_ARRAY | BPF_MAP_TYPE_KERNEL_USER_PERF_EVENT_ARRAY =>
      if with_libbpf then do_get_next_key F else default
  | BPF_MAP_TYPE_PROG_ARRAY => if with_libbpf then do_get_next_key prog_array_map_impl else default
  | BPF_MAP_TYPE_ARRAY_OF_MAPS => do_get_next_key array_map_of_maps_impl
  | BPF_MAP_TYPE_LRU_HASH => do_get_next_key (lru_var_hash_map_impl UL)
  | BPF_MAP_TYPE_LPM_TRIE => do_get_next_key lpm_trie_map_impl
  | BPF_MAP_TYPE_OTHER _ => default
  end.

Definition map_delete_elem (h : bpf_map_handler) (key : uptr) (from_syscall : bool) (w : shm) : res unit * shm :=
  let do_delete (S : Type) `{!MapImpl S} := call_impl S (λ s, impl_delete s key) h w in
  let do_delete_userspace (S : Type) `{!MapImpl S} `{!UserspaceImpl S} := call_impl S (λ s, impl_delete_userspace s key) h w in
  let default := default_case h op_elem_delete (λ f, f (mh_id h) key from_syscall) (-1) w in
  match mh_type h with
  | BPF_MAP_TYPE_HASH => do_delete fix_size_hash_map_impl
  | BPF_MAP_TYPE_ARRAY => do_delete array_map_impl
  | BPF_MAP_TYPE_RINGBUF => do_delete ringbuf
  | BPF_MAP_TYPE_PERF_EVENT_ARRAY => do_delete perf_event_array_map_impl
  | BPF_MAP_TYPE_PERCPU_ARRAY =>
      if from_syscall then do_delete_userspace per_cpu_array_map_impl else do_delete per_cpu_array_map_impl
  | BPF_MAP_TYPE_PERCPU_HASH =>
      if from_syscall then do_delete_userspace (per_cpu_hash_map_impl U) else do_delete (per_cpu_hash_map_impl U)
  | BPF_MAP_TYPE_STACK_TRACE => do_delete stack_trace_map_impl
  | BPF_MAP_TYPE_QUEUE => do_delete queue_map_impl
  | BPF_MAP_TYPE_STACK => do_delete stack_map_impl
  | BPF_MAP_TYPE_BLOOM_FILTER => do_delete bloom_filter_map_impl
  | BPF_MAP_TYPE_KERNEL_USER_ARRAY | BPF_MAP_TYPE_KERNEL_USER_HASH
  | BPF_MAP_TYPE_KERNEL_USER_PERCPU_ARRAY | BPF_MAP_TYPE_KERNEL_USER_PERF_EVENT_ARRAY =>
      if with_libbpf then do_delete F else default
  | BPF_MAP_TYPE_PROG_ARRAY => if with_libbpf then do_delete prog_array_map_impl else default
  | BPF_MAP_TYPE_ARRAY_OF_MAPS =>
      if negb from_syscall then (Raw (- errno_val EINVAL), w) else do_delete array_map_of_maps_impl
  | BPF_MAP_TYPE_LRU_HASH => do_delete (lru_var_hash_map_impl UL)
  | BPF_MAP_TYPE_LPM_TRIE => do_delete lpm_trie_map_impl
  | BPF_MAP_TYPE_OTHER _ => default
  end.

Definition map_push_elem (h : bpf_map_handler) (value : uptr) (flags : Z) (w : shm) : res unit * shm :=
  let do_push (S : Type) `{!MapImpl S} `{!PushImpl S} := call_impl S (λ s, impl_push s value flags) h w in
  match mh_type h with
  | BPF_MAP_TYPE_QUEUE => do_push queue_map_impl
  | BPF_MAP_TYPE_STACK => do_push stack_map_impl
  | BPF_MAP_TYPE_BLOOM_FILTER => do_push bloom_filter_map_impl
  | _ => (Raw (- errno_val ENOTSUP), w)
  end.

Definition map_pop_elem (h : bpf_map_handler) (value : uptr) (w : shm) : res (list Z) * shm :=
  let do_pop (S : Type) `{!MapImpl S} `{!PopImpl S} := call_impl S (λ s, impl_pop s value) h w in
  match mh_type h with
  | BPF_MAP_TYPE_QUEUE => do_pop queue_map_impl
  | BPF_MAP_TYPE_STACK => do_pop stack_map_impl
  | _ => (Raw (- errno_val ENOTSUP), w)
  end.

Definition map_peek_elem (h : bpf_map_handler) (value : uptr) (w : shm) : res (list Z) * shm :=
  let do_peek (S : Type) `{!MapImpl S} `{!PushImpl S} := call_impl S (λ s, impl_peek s value) h w in
  match mh_type h with
  | BPF_MAP_TYPE_QUEUE => do_peek queue_map_impl
  | BPF_MAP_TYPE_STACK => do_peek stack_map_impl
  | BPF_MAP_TYPE_BLOOM_FILTER => do_peek bloom_filter_map_impl
  | _ => (Raw (- errno_val ENOTSUP), w)
  end.

(** ** Construction and destruction *)

(** What the constructors take from their surroundings: the page size, the number of CPUs, the seed
    of a Bloom filter, the answer of [pthread_spin_init], whether the agent's configuration allows
    map types that are not built in; and what [construct] of the shared memory does with a name
    that is taken, which is to throw or to return null. *)
Record machine := Machine {
  mc_page_size : Z;
  mc_ncpu : Z;
  mc_seed : Z;
  mc_spin_init : Z;
  mc_allow_non_buildin_map_types : bool;
  mc_taken_throws : bool
}.
Variable mc : machine.

(** [memory.construct<S>(name)(...)]. *)
Definition construct (S : Type) `{!MapImpl S} (name : string) (s : res S) (w : shm) : res (option string) * shm :=
  match w !! name with
  | Some _ => if mc_taken_throws mc then (Throw, w) else (Ok None, w)
  | None =>
      match s with
      | Ok s => (Ok (Some name), <[name := inj s]> w)
      | Throw => (Throw, w)
      | _ => (Fault, w)
      end
  end.

Definition map_init (h : bpf_map_handler) (w : shm) : res unit * bpf_map_handler * shm :=
  let container_name := get_container_name h in
  let set (S : Type) `{!MapImpl S} (s : res S) :=
    match construct S container_name s w with
    | (Ok p, w) => (Ok tt, with_ptr h p, w)
    | (Err e, w) => (Err e, h, w) | (Raw c, w) => (Raw c, h, w) | (Throw, w) => (Throw, h, w) | (Fault, w) => (Fault, h, w)
    end in
  let default :=
    if mc_allow_non_buildin_map_types mc then
      let h := with_ptr h None in
      match table_ops (mh_type h) with
      | None => (Fault, h, w)
      | Some ops =>
          match op_alloc_map ops with
          | Some alloc_map =>
              let r := alloc_map (mh_id h) (mh_name h) (mh_attr h) in
              (if r =? 0 then Ok tt else Raw r, h, w)
          | None => (Ok tt, h, w)
          end
      end
    else (Raw (-1), h, w) in
  match mh_type h with
  | BPF_MAP_TYPE_HASH => set fix_size_hash_map_impl (Ok (fix_hash_create (mh_max_entries h) (mh_key_size h) (mh_value_size h)))
  | BPF_MAP_TYPE_ARRAY => set array_map_impl (Ok (array_map_create (mh_value_size h) (mh_max_entries h)))
  | BPF_MAP_TYPE_RINGBUF =>
      if negb (pop_count 32 (mh_max_entries h) 0 =? 1) then (Raw (-1), h, w)
      else set ringbuf (ringbuf_create (mc_page_size mc) (mh_max_entries h))
  | BPF_MAP_TYPE_PERF_EVENT_ARRAY =>
      set perf_event_array_map_impl (perf_event_array_create (mh_key_size h) (mh_value_size h) (mh_max_entries h))
  | BPF_MAP_TYPE_PERCPU_ARRAY =>
      set per_cpu_array_map_impl (Ok (per_cpu_array_create (mh_value_size h) (mh_max_entries h) (mc_ncpu mc)))
  | BPF_MAP_TYPE_PERCPU_HASH =>
      set (per_cpu_hash_map_impl U)
        (Ok (per_cpu_hash_create (mh_key_size h) (mh_value_size h) (mh_max_entries h) (mc_ncpu mc)))
  | BPF_MAP_TYPE_QUEUE => set queue_map_impl (queue_map_create (mh_value_size h) (mh_max_entries h))
  | BPF_MAP_TYPE_STACK => set stack_map_impl (stack_map_create (mh_value_size h) (mh_max_entries h))
  | BPF_MAP_TYPE_BLOOM_FILTER =>
      if negb (mh_key_size h =? 0) then (Raw (-1), h, w)
      else
        let nr_hashes := Z.land (at_map_extra (mh_attr h)) 15 in
        let nr_hashes := if nr_hashes =? 0 then 5 else nr_hashes in
        set bloom_filter_map_impl (bloom_filter_create (mh_value_size h) (mh_max_entries h) nr_hashes JHASH (mc_seed mc))
  | BPF_MAP_TYPE_KERNEL_USER_ARRAY | BPF_MAP_TYPE_KERNEL_USER_HASH
  | BPF_MAP_TYPE_KERNEL_USER_PERCPU_ARRAY | BPF_MAP_TYPE_KERNEL_USER_PERF_EVENT_ARRAY =>
      if with_libbpf then set F (Ok (ku_create (mh_type h) (at_kernel_bpf_map_id (mh_attr h)))) else default
  | BPF_MAP_TYPE_PROG_ARRAY =>
      if with_libbpf then set prog_array_map_impl (prog_array_create (mh_key_size h) (mh_value_size h) (mh_max_entries h))
      else default
  | BPF_MAP_TYPE_STACK_TRACE =>
      if with_libbpf then
        set (stack_trace_map_impl (U := U)) (stack_trace_create (mh_key_size h) (mh_value_size h) (mh_max_entries h))
      else default
  | BPF_MAP_TYPE_ARRAY_OF_MAPS => set array_map_of_maps_impl (Ok (ArrayOfMaps (of_maps_create (mh_max_entries h))))
  | BPF_MAP_TYPE_LRU_HASH =>
      set (lru_var_hash_map_impl UL) (Ok (lru_create (mh_key_size h) (mh_value_size h) (mh_max_entries h)))
  | BPF_MAP_TYPE_LPM_TRIE =>
      set lpm_trie_map_impl (lpm_trie_create (mh_key_size h) (mh_value_size h) (mh_max_entries h) (mc_spin_init mc))
  | BPF_MAP_TYPE_OTHER _ => default
  end.

(** [memory.destroy<S>(name)] removes the object with the name, if there is one. *)
Definition destroy (name : string) (w : shm) : shm := delete name w.

Definition map_free (h : bpf_map_handler) (w : shm) : res unit * bpf_map_handler * shm :=
  let freed := (Ok tt, with_ptr h None, destroy (get_container_name h) w) in
  let default :=
    match table_ops (mh_type h) with
    | None => (Fault, h, w)
    | Some _ => (Ok tt, with_ptr h None, w)
    end in
  match mh_type h with
  | BPF_MAP_TYPE_HASH | BPF_MAP_TYPE_ARRAY | BPF_MAP_TYPE_RINGBUF | BPF_MAP_TYPE_PERF_EVENT_ARRAY
  | BPF_MAP_TYPE_PERCPU_ARRAY | BPF_MAP_TYPE_PERCPU_HASH | BPF_MAP_TYPE_STACK_TRACE
  | BPF_MAP_TYPE_QUEUE | BPF_MAP_TYPE_STACK | BPF_MAP_TYPE_BLOOM_FILTER => freed
  | BPF_MAP_TYPE_KERNEL_USER_ARRAY | BPF_MAP_TYPE_KERNEL_USER_HASH
  | BPF_MAP_TYPE_KERNEL_USER_PERCPU_ARRAY | BPF_MAP_TYPE_KERNEL_USER_PERF_EVENT_ARRAY
  | BPF_MAP_TYPE_PROG_ARRAY | BPF_MAP_TYPE_LRU_HASH | BPF_MAP_TYPE_LPM_TRIE =>
      if with_libbpf then freed else default
  | BPF_MAP_TYPE_ARRAY_OF_MAPS | BPF_MAP_TYPE_OTHER _ => default
  end.

(** ** The implementation of a type *)

(** What a type of maps is implemented by: a class, how the handler makes an object of it, and the
    operations that the handler is to call, for programs or for system calls. *)
Record impl_class := ImplClass {
  ic_type : Type;
  ic_impl : MapImpl ic_type;
  ic_create : bpf_map_handler → res ic_type;
  ic_lookup : ic_type → uptr → res mem_ptr * ic_type;
  ic_update : ic_type → uptr → uptr → Z → res unit * ic_type;
  ic_delete : ic_type → uptr → res unit * ic_type;
  ic_next_key : ic_type → uptr → bool → res (list Z);
  ic_push : ic_type → uptr → Z → res unit * ic_type;
  ic_pop : ic_type → uptr → res (list Z) * ic_type;
  ic_peek : ic_type → uptr → res (list Z) * ic_type
}.

Definition not_supported {A S} (s : S) : res A * S := (Raw (- errno_val ENOTSUP), s).

Definition plain (S : Type) `{!MapImpl S} (create : bpf_map_handler → res S) : impl_class :=
  ImplClass S _ create impl_lookup impl_update impl_delete impl_next_key
    (λ s _ _, not_supported s) (λ s _, not_supported s) (λ s _, not_supported s).
Definition per_cpu (fs : bool) (S : Type) `{!MapImpl S} `{!UserspaceImpl S} (create : bpf_map_handler → res S) : impl_class :=
  ImplClass S _ create
    (if fs then impl_lookup_userspace else impl_lookup) (if fs then impl_update_userspace else impl_update)
    (if fs then impl_delete_userspace else impl_delete) impl_next_key
    (λ s _ _, not_supported s) (λ s _, not_supported s) (λ s _, not_supported s).
Definition push_pop (S : Type) `{!MapImpl S} `{!PushImpl S} `{!PopImpl S} (create : bpf_map_handler → res S) : impl_class :=
  ImplClass S _ create impl_lookup impl_update impl_delete impl_next_key impl_push impl_pop impl_peek.

(** The types that are built in; [fs] tells a system call from a program. *)
Definition class_of (t : bpf_map_type) (fs : bool) : option impl_class :=
  match t with
  | BPF_MAP_TYPE_HASH => Some (plain fix_size_hash_map_impl (λ h, Ok (fix_hash_create (mh_max_entries h) (mh_key_size h) (mh_value_size h))))
  | BPF_MAP_TYPE_ARRAY => Some (plain array_map_impl (λ h, Ok (array_map_create (mh_value_size h) (mh_max_entries h))))
  | BPF_MAP_TYPE_RINGBUF => Some (plain ringbuf (λ h, ringbuf_create (mc_page_size mc) (mh_max_entries h)))
  | BPF_MAP_TYPE_PERF_EVENT_ARRAY =>
      Some (plain perf_event_array_map_impl (λ h, perf_event_array_create (mh_key_size h) (mh_value_size h) (mh_max_entries h)))
  | BPF_MAP_TYPE_PERCPU_ARRAY =>
      Some (per_cpu fs per_cpu_array_map_impl (λ h, Ok (per_cpu_array_create (mh_value_size h) (mh_max_entries h) (mc_ncpu mc))))
  | BPF_MAP_TYPE_PERCPU_HASH =>
      Some (per_cpu fs (per_cpu_hash_map_impl U)
        (λ h, Ok (per_cpu_hash_create (mh_key_size h) (mh_value_size h) (mh_max_entries h) (mc_ncpu mc))))
  | BPF_MAP_TYPE_QUEUE => Some (push_pop queue_map_impl (λ h, queue_map_create (mh_value_size h) (mh_max_entries h)))
  | BPF_MAP_TYPE_STACK => Some (push_pop stack_map_impl (λ h, stack_map_create (mh_value_size h) (mh_max_entries h)))
  | BPF_MAP_TYPE_BLOOM_FILTER =>
      Some (ImplClass bloom_filter_map_impl _
        (λ h, let n := at_map_extra (mh_attr h) mod 16 in
              bloom_filter_create (mh_value_size h) (mh_max_entries h) (if n =? 0 then 5 else n) JHASH (mc_seed mc))
        impl_lookup impl_update impl_delete impl_next_key impl_push (λ s _, not_supported s) impl_peek)
  | BPF_MAP_TYPE_KERNEL_USER_ARRAY | BPF_MAP_TYPE_KERNEL_USER_HASH
  | BPF_MAP_TYPE_KERNEL_USER_PERCPU_ARRAY | BPF_MAP_TYPE_KERNEL_USER_PERF_EVENT_ARRAY =>
      if with_libbpf then Some (plain F (λ h, Ok (ku_create (mh_type h) (at_kernel_bpf_map_id (mh_attr h))))) else None
  | BPF_MAP_TYPE_PROG_ARRAY =>
      if with_libbpf then
        Some (plain prog_array_map_impl (λ h, prog_array_create (mh_key_size h) (mh_value_size h) (mh_max_entries h)))
      else None
  | BPF_MAP_TYPE_STACK_TRACE =>
      if with_libbpf then
        Some (plain (stack_trace_map_impl (U := U)) (λ h, stack_trace_create (mh_key_size h) (mh_value_size h) (mh_max_entries h)))
      else None
  | BPF_MAP_TYPE_ARRAY_OF_MAPS =>
      Some (ImplClass array_map_of_maps_impl _ (λ h, Ok (ArrayOfMaps (of_maps_create (mh_max_entries h))))
        impl_lookup
        (λ s k v f, if fs then impl_update s k v f else (Raw (- errno_val EINVAL), s))
        (λ s k, if fs then impl_delete s k else (Raw (- errno_val EINVAL), s))
        impl_next_key (λ s _ _, not_supported s) (λ s _, not_supported s) (λ s _, not_supported s))
  | BPF_MAP_TYPE_LRU_HASH =>
      Some (plain (lru_var_hash_map_impl UL) (λ h, Ok (lru_create (mh_key_size h) (mh_value_size h) (mh_max_entries h))))
  | BPF_MAP_TYPE_LPM_TRIE =>
      Some (plain lpm_trie_map_impl (λ h, lpm_trie_create (mh_key_size h) (mh_value_size h) (mh_max_entries h) (mc_spin_init mc)))
  | BPF_MAP_TYPE_OTHER _ => None
  end.

(** ** Sequences of operations *)

Inductive map_op :=
| OpLookup (key : uptr) | OpUpdate (key value : uptr) (flags : Z) | OpDelete (key : uptr)
| OpNextKey (key : uptr) (out : bool) | OpPush (value : uptr) (flags : Z) | OpPop (value : uptr) | OpPeek (value : uptr).
Inductive map_ans := AnsPtr (r : res mem_ptr) | AnsUnit (r : res unit) | AnsBytes (r : res (list Z)).

Definition answer {A S} (f : A → map_ans) (x : A * S) : map_ans * S := (f x.1, x.2).

Definition handler_step (h : bpf_map_handler) (fs : bool) (w : shm) (op : map_op) : map_ans * shm :=
  match op with
  | OpLookup k => answer AnsPtr (map_lookup_elem h k fs w)
  | OpUpdate k v f => answer AnsUnit (map_update_elem h k v f fs w)
  | OpDelete k => answer AnsUnit (map_delete_elem h k fs w)
  | OpNextKey k out => answer AnsBytes (bpf_map_get_next_key h k out fs w)
  | OpPush v f => answer AnsUnit (map_push_elem h v f w)
  | OpPop v => answer AnsBytes (map_pop_elem h v w)
  | OpPeek v => answer AnsBytes (map_peek_elem h v w)
  end.

Definition class_step (c : impl_class) (s : ic_type c) (op : map_op) : map_ans * ic_type c :=
  match op with
  | OpLookup k => answer AnsPtr (ic_lookup c s k)
  | OpUpdate k v f => answer AnsUnit (ic_update c s k v f)
  | OpDelete k => answer AnsUnit (ic_delete c s k)
  | OpNextKey k out => answer AnsBytes (ic_next_key c s k out, s)
  | OpPush v f => answer AnsUnit (ic_push c s v f)
  | OpPop v => answer AnsBytes (ic_pop c s v)
  | OpPeek v => answer AnsBytes (ic_peek c s v)
  end.

Fixpoint run {T} (step : T → map_op → map_ans * T) (s : T) (ops : list map_op) : list map_ans * T :=
  match ops with
  | [] => ([], s)
  | op :: ops => let '(a, s1) := step s op in let '(as_, s2) := run step s1 ops in (a :: as_, s2)
  end.

Definition class_inj (c : impl_class) : ic_type c → map_impl := @inj _ (ic_impl c).

(** ** Lemmas *)

Lemma class_prj t fs c s : class_of t fs = Some c → @prj _ (ic_impl c) (class_inj c s) = Some s.
Proof.
  destruct t; cbn [class_of]; try destruct with_libbpf; intros Hc; (discriminate || (injection Hc as <-; done)).
Qed.

Lemma call_impl_ok (S : Type) (I : MapImpl S) {A} (f : S → res A * S) h w p s :
  mh_map_impl_ptr h = Some p → w !! p = Some (inj s) → prj (inj s) = Some s →
  call_impl S f h w = ((f s).1, <[p := inj (f s).2]> w).
Proof.
  intros Hp Hw Hs. unfold call_impl. rewrite Hp, Hw. cbn [mbind option_bind]. rewrite Hs. by destruct (f s).
Qed.

(** A step of the handler is the step of the implementation. *)
Lemma handler_step_ok h fs c p s w op :
  class_of (mh_type h) fs = Some c → mh_map_impl_ptr h = Some p → w !! p = Some (class_inj c s) →
  handler_step h fs w op = ((class_step c s op).1, <[p := class_inj c (class_step c s op).2]> w).
Proof.
  intros Hc Hp Hw. pose proof (class_prj _ _ _ s Hc) as Hs. unfold class_inj in *.
  unfold handler_step, map_lookup_elem, map_update_elem, map_delete_elem, bpf_map_get_next_key,
    map_push_elem, map_pop_elem, map_peek_elem.
  destruct (mh_type h); cbn [class_of] in Hc; try destruct with_libbpf; try discriminate Hc; injection Hc as <-;
    destruct op, fs; cbn [negb];
    first [ by erewrite call_impl_ok by eassumption
          | unfold answer; cbn [fst snd]; apply (f_equal2 pair); [reflexivity|symmetry; apply insert_id; exact Hw] ].
Qed.

Lemma handler_run_ok h fs c p ops : ∀ s w,
  class_of (mh_type h) fs = Some c → mh_map_impl_ptr h = Some p → w !! p = Some (class_inj c s) →
  run (handler_step h fs) w ops = ((run (class_step c) s ops).1, <[p := class_inj c (run (class_step c) s ops).2]> w).
Proof.
  induction ops as [|op ops IH]; intros s w Hc Hp Hw; cbn [run].
  - cbn [fst snd]. f_equal. symmetry. by apply insert_id.
  - rewrite (handler_step_ok h fs c p s w op Hc Hp Hw). destruct (class_step c s op) as [a s1]. cbn [fst snd].
    rewrite (IH s1) by (done || apply lookup_insert_eq). destruct (run (class_step c) s1 ops) as [as_ s2]. cbn [fst snd].
    f_equal. apply insert_insert_eq.
Qed.

Lemma land_15 x : Z.land x 15 = x mod 16.
Proof. change 15 with (Z.ones 4). by rewrite Z.land_ones. Qed.

(** A map that was made on a free name. *)
Lemma map_init_ok h w h' w' c fs :
  class_of (mh_type h) fs = Some c → w !! get_container_name h = None → map_init h w = (Ok tt, h', w') →
  ∃ s, ic_create c h = Ok s ∧ h' = with_ptr h (Some (get_container_name h)) ∧
       w' = <[get_container_name h := class_inj c s]> w.
Proof.
  intros Hc Hw. unfold map_init, construct, class_inj. rewrite Hw, land_15.
  destruct (mh_type h) eqn:Ht; cbn [class_of] in Hc; try destruct with_libbpf; try discriminate Hc; injection Hc as <-;
    cbn [plain per_cpu push_pop ic_create ic_impl ic_type]; repeat case_match; try discriminate; intros [= <- <-];
    simplify_eq; rewrite ?Ht; by eexists.
Qed.

(** The types whose object [map_free] destroys. *)
Definition freed_type (t : bpf_map_type) : bool :=
  match t with
  | BPF_MAP_TYPE_ARRAY_OF_MAPS | BPF_MAP_TYPE_OTHER _ => false
  | BPF_MAP_TYPE_KERNEL_USER_ARRAY | BPF_MAP_TYPE_KERNEL_USER_HASH
  | BPF_MAP_TYPE_KERNEL_USER_PERCPU_ARRAY | BPF_MAP_TYPE_KERNEL_USER_PERF_EVENT_ARRAY
  | BPF_MAP_TYPE_PROG_ARRAY | BPF_MAP_TYPE_LRU_HASH | BPF_MAP_TYPE_LPM_TRIE => with_libbpf
  | _ => true
  end.

Lemma map_free_ok h w : freed_type (mh_type h) = true →
  map_free h w = (Ok tt, with_ptr h None, delete (get_container_name h) w).
Proof. unfold map_free, freed_type. destruct (mh_type h); intros Hf; rewrite ?Hf; done. Qed.

(** ** Queue maps behind a handler *)

Definition of_pp (op : pp_op) : map_op :=
  let buffer (out : bool) : uptr := if out then Some [] else None in
  match op with
  | PUpdate v f => OpUpdate None v f
  | PDelete => OpDelete None
  | PPush v f => OpPush v f
  | PPop out => OpPop (buffer out)
  | PPeek out => OpPeek (buffer out)
  end.

(** The bytes of an answer. *)
Definition bytes_of (a : map_ans) : res (list Z) :=
  match a with
  | AnsUnit r => res_map (λ _, []) r
  | AnsBytes r => r
  | AnsPtr r => res_map (λ _, []) r
  end.

Lemma queue_class_run create ops : ∀ q,
  bytes_of <$> (run (class_step (push_pop queue_map_impl create)) q (of_pp <$> ops)).1 = pp_run q ops.
Proof.
  induction ops as [|op ops IH]; intros q; [done|]. cbn [fmap list_fmap run pp_run].
  assert (Hs : bytes_of (class_step (push_pop queue_map_impl create) q (of_pp op)).1 = (pp_step q op).1 ∧
               (class_step (push_pop queue_map_impl create) q (of_pp op)).2 = (pp_step q op).2).
  { destruct op as [v f| |v f|[]|[]]; cbn; try done.
    - by destruct (QueueMap.elem_update q None v f).
    - by destruct (QueueMap.elem_delete q None).
    - by destruct (QueueMap.map_push_elem q v f). }
  destruct (class_step _ q (of_pp op)) as [a q1], (pp_step q op) as [r q1']. cbn [fst snd] in Hs. destruct Hs as [Ha ->].
  specialize (IH q1'). destruct (run _ q1' (of_pp <$> ops)) as [as_ q2]. cbn [fst] in IH |- *.
  rewrite fmap_cons, Ha. f_equal. exact IH.
Qed.
End handler.

(** ** Properties *)

Section props.
Context {U : Type} `{!UnorderedMap (list Z) U} {UL : Type} `{!UnorderedMap hash_map_value UL}.
Context `{Kernel} {F : Type} `{!KernelUserMaps F} (cpu : Z) (with_libbpf : bool) (table : ops_table) (mc : machine).

Abbreviation shm := (gmap string (map_impl (U := U) (UL := UL) (F := F))).
Implicit Types w : shm.

(** C2 (refinement). A map of a built-in type that is made on a free name is its implementation:
    every sequence of operations through the handler, from programs or from system calls, is
    answered as the implementation of the type answers it from its initial state, no cast goes
    wrong, and the other objects of the shared memory are untouched. *)
Theorem map_handler_transparent h fs c w h' w' ops :
  class_of cpu with_libbpf mc (mh_type h) fs = Some c → w !! get_container_name h = None →
  map_init cpu with_libbpf table mc h w = (Ok tt, h', w') →
  ∃ s, ic_create c h = Ok s ∧
    run (handler_step cpu with_libbpf table h' fs) w' ops =
      ((run (class_step c) s ops).1, <[get_container_name h := class_inj c (run (class_step c) s ops).2]> w).
Proof.
  intros Hc Hw Hi. destruct (map_init_ok cpu with_libbpf table mc _ _ _ _ _ _ Hc Hw Hi) as (s&Hs&->&->).
  exists s. split; [done|].
  rewrite (handler_run_ok cpu with_libbpf table mc _ fs c (get_container_name h) ops s); [|done|done|apply lookup_insert_eq].
  f_equal. apply (insert_insert_eq w).
Qed.

(** A queue map behind a handler is the bounded FIFO queue. *)
Theorem map_handler_queue_fifo id name attr w h' w' ops :
  let h := bpf_map_handler_create id name attr in
  let vs := at_value_size attr in
  let n := at_max_ents attr in
  at_type attr = BPF_MAP_TYPE_QUEUE → 0 < vs → 0 < n < 2 ^ 32 → n * vs < 2 ^ 32 → Forall (op_ok vs) ops →
  w !! get_container_name h = None → map_init cpu with_libbpf table mc h w = (Ok tt, h', w') →
  bytes_of <$> (run (handler_step cpu with_libbpf table h' false) w' (of_pp <$> ops)).1 =
  pp_run (H := spec_push_pop fifo vs n) [] ops.
Proof.
  intros h vs n Ht Hv Hn Hb Hok Hw Hi.
  assert (Hc : class_of cpu with_libbpf mc (mh_type h) false =
    Some (push_pop queue_map_impl (λ h, queue_map_create (mh_value_size h) (mh_max_entries h)))).
  { unfold h, bpf_map_handler_create. simpl. by rewrite Ht. }
  destruct (map_init_ok cpu with_libbpf table mc _ _ _ _ _ _ Hc Hw Hi) as (q&Hq&->&->). cbn in Hq.
  rewrite (handler_run_ok cpu with_libbpf table mc _ false _ (get_container_name h) _ q); [|done|done|apply lookup_insert_eq].
  cbn [fst]. rewrite queue_class_run. pose proof (queue_create_rep _ _ _ Hv Hn Hb Hq) as Hr.
  assert (qm_value_size q = vs ∧ qm_max_entries q = n) as [<- <-].
  { unfold queue_map_create in Hq. destruct (_ || _); by inversion Hq. }
  by apply (queue_run_refines (qm_value_size q) (qm_max_entries q)).
Qed.

(** Destroying a map that was made on a free name gives the shared memory back, for
    the types that [map_free] knows; the objects of other maps are the same all along. *)
Theorem map_init_free h w h' w' fs c :
  class_of cpu with_libbpf mc (mh_type h) fs = Some c → freed_type with_libbpf (mh_type h) = true →
  w !! get_container_name h = None → map_init cpu with_libbpf table mc h w = (Ok tt, h', w') →
  mh_map_impl_ptr h' = Some (get_container_name h) ∧ is_Some (w' !! get_container_name h) ∧
  map_free with_libbpf table h' w' = (Ok tt, with_ptr h None, w).
Proof.
  intros Hc Hf Hw Hi. destruct (map_init_ok cpu with_libbpf table mc _ _ _ _ _ _ Hc Hw Hi) as (s&Hs&->&->).
  split; [done|]. split; [by rewrite (lookup_insert_eq w)|]. rewrite map_free_ok by done. f_equal.
  change (get_container_name (with_ptr h (Some (get_container_name h)))) with (get_container_name h).
  by apply (delete_insert_id w).
Qed.

Lemma free_array_of_maps h w : mh_type h = BPF_MAP_TYPE_ARRAY_OF_MAPS →
  map_free with_libbpf table h w = (Ok tt, with_ptr h None, w).
Proof. intros Ht. unfold map_free. by rewrite Ht. Qed.

Lemma init_array_of_maps_taken h w x : mh_type h = BPF_MAP_TYPE_ARRAY_OF_MAPS → w !! get_container_name h = Some x →
  map_init cpu with_libbpf table mc h w = if mc_taken_throws mc then (Throw, h, w) else (Ok tt, with_ptr h None, w).
Proof. intros Ht Hx. unfold map_init, construct. rewrite Ht, Hx. by destruct (mc_taken_throws mc). Qed.

(** An array of maps is never destroyed: [map_free] leaves its object in the shared
    memory under its name, and making a map of any built-in type with that name again either throws,
    or succeeds with a null pointer on which every lookup faults. *)
Theorem array_of_maps_leaks h w h1 w1 key fs :
  mh_type h = BPF_MAP_TYPE_ARRAY_OF_MAPS → w !! get_container_name h = None →
  map_init cpu with_libbpf table mc h w = (Ok tt, h1, w1) →
  let freed := map_free with_libbpf table h1 w1 in
  let again := map_init cpu with_libbpf table mc h freed.2 in
  freed.1.1 = Ok tt ∧ is_Some (freed.2 !! get_container_name h) ∧
  (again.1.1 = Throw ∨
   again.1.1 = Ok tt ∧ (map_lookup_elem cpu with_libbpf table again.1.2 key fs again.2).1 = Fault).
Proof.
  intros Ht Hw Hi. destruct (map_init_ok cpu with_libbpf table mc h w h1 w1 _ fs ltac:(rewrite Ht; reflexivity) Hw Hi) as (s&Hs&->&->).
  rewrite free_array_of_maps by done. cbn [fst snd]. split; [done|].
  set (w1 := <[_ := _]> w). assert (Hw1 : is_Some (w1 !! get_container_name h)) by (unfold w1; rewrite lookup_insert_eq; by eexists).
  split; [done|]. destruct Hw1 as [x Hx]. rewrite (init_array_of_maps_taken _ _ x) by done.
  destruct (mc_taken_throws mc); [by left|right]. split; [done|]. unfold map_lookup_elem. cbn [fst snd with_ptr mh_type].
  by rewrite Ht.
Qed.

(** A ring buffer map is made exactly when [max_entries] is a power of two; otherwise
    [map_init] returns -1 and leaves the pointer null and the memory as it was. *)
Theorem map_init_ringbuf h w :
  mh_type h = BPF_MAP_TYPE_RINGBUF → mh_map_impl_ptr h = None → 0 ≤ mh_max_entries h < 2 ^ 32 →
  8 ≤ mc_page_size mc ≤ 2 ^ 16 → w !! get_container_name h = None →
  let n := mh_max_entries h in
  ((∃ e, 0 ≤ e ∧ n = 2 ^ e) → ∃ rb, map_init cpu with_libbpf table mc h w =
     (Ok tt, with_ptr h (Some (get_container_name h)), <[get_container_name h := IRingbuf rb]> w) ∧ rb_max_ent rb = n) ∧
  ((¬ ∃ e, 0 ≤ e ∧ n = 2 ^ e) → map_init cpu with_libbpf table mc h w = (Raw (-1), h, w)).
Proof.
  intros Ht Hp Hn Hpg Hw n. pose proof (pop_count_one 32 n Hn) as Hone. unfold map_init. rewrite Ht.
  fold n. split.
  - intros Hpow. rewrite (proj2 Hone Hpow). cbn [Z.eqb negb Pos.eqb].
    assert (Hc : ∃ rb, ringbuf_create (mc_page_size mc) n = Ok rb ∧ rb_max_ent rb = n).
    { unfold ringbuf_create. pose proof (u32_bound (n * 2)) as Hu. rewrite (proj2 (Z.ltb_ge (mc_page_size mc) 8)) by lia.
      destruct Hpow as (e&He&Hne). assert (e < 32) by (apply (Z.pow_lt_mono_r_iff 2); lia).
      assert (u32 (n * 2) ≤ 2 ^ 31).
      { destruct (decide (e = 31)) as [->|]; [rewrite Hne; vm_compute; done|].
        assert (n * 2 ≤ 2 ^ 31) by (rewrite Hne, Z.mul_comm, <- Z.pow_succ_r by lia; apply Z.pow_le_mono_r; lia).
        rewrite u32_small; lia. }
      rewrite (u32_small (_ + _)) by lia. rewrite (proj2 (Z.ltb_ge _ (mc_page_size mc * 2))) by lia. by eexists. }
    destruct Hc as (rb&Hc&Hm). exists rb. unfold construct. rewrite Hw, Hc. done.
  - intros Hnp. destruct (Z.eqb_spec (pop_count 32 n 0) 1) as [He|He]; [|done]. destruct Hnp. by apply Hone.
Qed.

(** The operations registered for a type that is not built in are always called with the
    map id 0, whatever the id the map was made with: the constructor does not store it. *)
Theorem registered_ops_id_zero table0 n f id name attr w key fs :
  0 ≤ n < BPF_MAP_TYPE_MAX → at_type attr = BPF_MAP_TYPE_OTHER n →
  let ops := MapOps None None (Some f) None None None in
  let table := (bpftime_register_map_ops table0 n ops).2 in
  map_lookup_elem cpu with_libbpf table (bpf_map_handler_create id name attr) key fs w = (f 0 key fs, w).
Proof.
  intros Hn Ht ops. unfold bpftime_register_map_ops. rewrite (proj2 (Z.ltb_ge n 0)), (proj2 (Z.leb_gt _ n)) by lia.
  cbn [orb snd]. unfold map_lookup_elem, bpf_map_handler_create. cbn [mh_type]. rewrite Ht.
  unfold default_case, table_ops. cbn [mh_type type_num]. rewrite (proj2 (Z.leb_le 0 n)), (proj2 (Z.ltb_lt n _)) by lia.
  cbn [andb]. by rewrite Z.eqb_refl.
Qed.
End props.

(** ** Witnesses *)

(** Maps shared with a kernel that has none. *)
#[export] Instance no_kernel_maps : KernelUserMaps unit := {
  ku_create _ _ := tt; ku_lookup f _ := (Raw 0, f); ku_update f _ _ _ := (Raw (-1), f);
  ku_delete f _ := (Raw (-1), f); ku_next_key _ _ _ := Raw (-1) }.

Definition demo_shm : Type := gmap string (map_impl (U := gmap (list Z) (list Z)) (UL := gmap (list Z) hash_map_value) (F := unit)).
Definition demo_machine : machine := Machine 4096 2 1 0 false true.
Definition demo_table : ops_table := λ _, no_ops.
Definition demo_init (h : bpf_map_handler) (w : demo_shm) : res unit * bpf_map_handler * demo_shm :=
  map_init 0 true demo_table demo_machine h w.
Definition demo_attr (t : bpf_map_type) (ks vs n : Z) : bpf_map_attr := MapAttr t ks vs n 0 0 0.
Definition demo_map (t : bpf_map_type) (ks vs n : Z) : bpf_map_handler := bpf_map_handler_create 7 "m" (demo_attr t ks vs n).

Definition demo_array_ops : list map_op :=
  [OpUpdate (key32 1) (Some [5; 6]) 0; OpLookup (key32 1); OpLookup (key32 4); OpPop None; OpNextKey (key32 0) true].

Lemma map_handler_transparent_witness :
  let h := demo_map BPF_MAP_TYPE_ARRAY 4 2 3 in
  let '(_, h', w') := demo_init h ∅ in
  let r := run (handler_step 0 true demo_table h' false) w' demo_array_ops in
  r.1 = [AnsUnit (Ok tt); AnsPtr (Ok (InData 2)); AnsPtr (Err ENOENT); AnsBytes (Raw (-95)); AnsBytes (Ok [1; 0; 0; 0])] ∧
  r.2 = <["ebpf_map_fd_m" := IArray (ArrayMapImpl [0; 0; 5; 6; 0; 0] 2 3)]> ∅.
Proof.
  cbn zeta. assert (Hr : (demo_init (demo_map BPF_MAP_TYPE_ARRAY 4 2 3) ∅).1.1 = Ok tt) by (vm_compute; done).
  destruct (demo_init (demo_map BPF_MAP_TYPE_ARRAY 4 2 3) ∅) as [[r h'] w'] eqn:E. cbn [fst] in Hr. subst r.
  destruct (map_handler_transparent 0 true demo_table demo_machine (demo_map BPF_MAP_TYPE_ARRAY 4 2 3) false _ ∅ h' w'
    demo_array_ops eq_refl (lookup_empty _) E) as (s&Hs&->).
  injection Hs as <-. split; [vm_compute; done|].
  apply (f_equal (λ i, <["ebpf_map_fd_m" := i]> ∅)). vm_compute. done.
Defined.

Lemma map_handler_queue_fifo_witness :
  let h := demo_map BPF_MAP_TYPE_QUEUE 0 2 2 in
  let '(_, h', w') := demo_init h ∅ in
  bytes_of <$> (run (handler_step 0 true demo_table h' false) w' (of_pp <$> ex_queue_ops)).1 =
  [Ok []; Ok []; Err E2BIG; Ok []; Ok [3; 4]; Ok [5; 6]; Err EINVAL; Err EINVAL; Ok [5; 6]; Err ENOENT].
Proof.
  cbn zeta. assert (Hr : (demo_init (demo_map BPF_MAP_TYPE_QUEUE 0 2 2) ∅).1.1 = Ok tt) by (vm_compute; done).
  destruct (demo_init (demo_map BPF_MAP_TYPE_QUEUE 0 2 2) ∅) as [[r h'] w'] eqn:E. cbn [fst] in Hr. subst r.
  rewrite (map_handler_queue_fifo 0 true demo_table demo_machine 7 "m" (demo_attr BPF_MAP_TYPE_QUEUE 0 2 2) ∅ h' w'
    ex_queue_ops eq_refl ltac:(simpl; lia) ltac:(simpl; lia) ltac:(simpl; lia)
    ltac:(repeat constructor; vm_compute; done) (lookup_empty _) E).
  vm_compute. done.
Defined.

Lemma map_init_free_witness :
  let h := demo_map BPF_MAP_TYPE_LPM_TRIE 8 4 10 in
  let '(r, h', w') := demo_init h ∅ in
  r = Ok tt ∧ is_Some (w' !! "ebpf_map_fd_m") ∧ map_free true demo_table h' w' = (Ok tt, h, ∅).
Proof.
  cbn zeta. assert (Hr : (demo_init (demo_map BPF_MAP_TYPE_LPM_TRIE 8 4 10) ∅).1.1 = Ok tt) by (vm_compute; done).
  destruct (demo_init (demo_map BPF_MAP_TYPE_LPM_TRIE 8 4 10) ∅) as [[r h'] w'] eqn:E. cbn [fst] in Hr. subst r. split; [done|].
  destruct (map_init_free 0 true demo_table demo_machine (demo_map BPF_MAP_TYPE_LPM_TRIE 8 4 10) ∅ h' w' false _
    eq_refl eq_refl (lookup_empty _) E) as (_&Hs&Hf). split; [exact Hs|]. exact Hf.
Defined.

Lemma array_of_maps_leaks_witness :
  let h := demo_map BPF_MAP_TYPE_ARRAY_OF_MAPS 4 4 2 in
  let '(_, h', w') := demo_init h ∅ in
  is_Some ((map_free true demo_table h' w').2 !! "ebpf_map_fd_m") ∧
  let again := demo_init h (map_free true demo_table h' w').2 in
  (again.1.1 = Throw ∨ again.1.1 = Ok tt ∧ (map_lookup_elem 0 true demo_table again.1.2 None false again.2).1 = Fault).
Proof.
  cbn zeta. assert (Hr : (demo_init (demo_map BPF_MAP_TYPE_ARRAY_OF_MAPS 4 4 2) ∅).1.1 = Ok tt) by (vm_compute; done).
  destruct (demo_init (demo_map BPF_MAP_TYPE_ARRAY_OF_MAPS 4 4 2) ∅) as [[r h'] w'] eqn:E. cbn [fst] in Hr. subst r.
  destruct (array_of_maps_leaks 0 true demo_table demo_machine (demo_map BPF_MAP_TYPE_ARRAY_OF_MAPS 4 4 2) ∅ h' w' None false
    eq_refl (lookup_empty _) E) as (_&Hs&Ha). split; [exact Hs|exact Ha].
Defined.

Lemma map_init_ringbuf_witness :
  (∃ rb, demo_init (demo_map BPF_MAP_TYPE_RINGBUF 0 0 16) ∅ =
     (Ok tt, with_ptr (demo_map BPF_MAP_TYPE_RINGBUF 0 0 16) (Some "ebpf_map_fd_m"), <["ebpf_map_fd_m" := IRingbuf rb]> ∅) ∧
     rb_max_ent rb = 16) ∧
  demo_init (demo_map BPF_MAP_TYPE_RINGBUF 0 0 24) ∅ = (Raw (-1), demo_map BPF_MAP_TYPE_RINGBUF 0 0 24, ∅).
Proof.
  split.
  - destruct (map_init_ringbuf 0 true demo_table demo_machine (demo_map BPF_MAP_TYPE_RINGBUF 0 0 16) ∅) as [Hy _];
      [done|done|simpl; lia|simpl; lia|done|]. apply Hy. by exists 4.
  - destruct (map_init_ringbuf 0 true demo_table demo_machine (demo_map BPF_MAP_TYPE_RINGBUF 0 0 24) ∅) as [_ Hn];
      [done|done|simpl; lia|simpl; lia|done|]. apply Hn. intros (e&He&Hp). cbn in Hp.
    assert (e < 5) by (apply (Z.pow_lt_mono_r_iff 2); lia). assert (4 < e) by (apply (Z.pow_lt_mono_r_iff 2); lia). lia.
Defined.

Lemma registered_ops_id_zero_witness :
  let ops := MapOps None None (Some (λ id _ _, Ok (Number id))) None None None in
  (map_lookup_elem (F := unit) (U := gmap (list Z) (list Z)) (UL := gmap (list Z) hash_map_value) 0 true
    (bpftime_register_map_ops demo_table 77 ops).2 (demo_map (BPF_MAP_TYPE_OTHER 77) 4 4 4) None false ∅).1 = Ok (Number 0).
Proof.
  cbn zeta. unfold demo_map. rewrite (registered_ops_id_zero 0 true demo_table 77 (λ id _ _, Ok (Number id)) 7 "m"
    (demo_attr (BPF_MAP_TYPE_OTHER 77) 4 4 4) ∅ None false); [done|lia|done].
Defined.
