(* ===== verification/HandlerManager.v ===== *)
(** * The handler manager

    [handler_manager] (runtime/src/handler/handler_manager.cpp): the table of file descriptors of
    the runtime, a vector of variants in shared memory. It makes and destroys the objects of the
    maps it holds through the interface [MapHandlerOps], which [bpf_map_handler] implements. What
    the programs, perf events, epoll instances and memory files hold is not looked at here. *)

From stdpp Require Import base numbers list gmap strings.
From S2P Require Import Prelude.
From S2P Require Import FdArray.
From S2P Require Import RingBuf.
From S2P Require Import UnorderedMap.
From S2P Require Import LruHashMap.
From S2P Require Import MapHandler.

(** What the manager asks of a map: to be made and destroyed in a memory of type [W]. *)
Class MapHandlerOps (H W : Type) := {
  mho_init : H → W → res unit * H * W;
  mho_free : H → W → res unit * H * W
}.

Record bpf_link_handler := BpfLinkHandler {
  lk_prog_id : Z;
  lk_attach_target_id : Z;
  lk_attach_cookie : option Z
}.

Section manager.
(** Maps and their memory; programs, perf events, and the other handlers. *)
Context {H W : Type} `{MapHandlerOps H W} {P E X Y : Type}.

Inductive handler_variant :=
| unused_handler
| HMap (h : H) | HLink (l : bpf_link_handler) | HProg (p : P) | HPerfEvent (e : E)
| HEpoll (x : X) | HMemfd (x : Y).

Record handler_manager := HandlerManager { handlers : list handler_variant; memory : W }.

Definition handler_manager_create (max_fd_count : Z) (w : W) : handler_manager :=
  HandlerManager (replicate (Z.to_nat max_fd_count) unused_handler) w.

Implicit Types s : handler_manager.

Definition size s : Z := zlen (handlers s).

Definition unused (h : handler_variant) : bool := match h with unused_handler => true | _ => false end.

Definition in_table s (fd : Z) : bool := negb ((fd <? 0) || (size s <=? fd)).

(** [handlers[fd]], without a range check. *)
Definition get_handler s (fd : Z) : res handler_variant :=
  match in_table s fd, handlers s !! Z.to_nat fd with true, Some h => Ok h | _, _ => Fault end.

Definition is_allocated s (fd : Z) : bool :=
  if (fd <? 0) || (size s <=? fd) then false
  else match handlers s !! Z.to_nat fd with Some h => negb (unused h) | None => false end.

Definition put_handler s (fd : Z) (h : handler_variant) : handler_manager :=
  HandlerManager (<[Z.to_nat fd := h]> (handlers s)) (memory s).

(** [handlers[fd] = handler] has no range check, and the result of [map_init] is not looked at. *)
Definition set_handler (fd : Z) (handler : handler_variant) s : res Z * handler_manager :=
  if is_allocated s fd then (Raw (- errno_val EEXIST), s)
  else if unused handler then (Raw (- errno_val ENOTSUP), s)
  else if negb (in_table s fd) then (Fault, s)
  else
    let s := put_handler s fd handler in
    match handler with
    | HMap h =>
        let '(r, h', w') := mho_init h (memory s) in
        let s := HandlerManager (handlers (put_handler s fd (HMap h'))) w' in
        match r with
        | Throw => (Throw, s)
        | Fault => (Fault, s)
        | _ => (Ok fd, s)
        end
    | _ => (Ok fd, s)
    end.

(** for (i = 0; i < size(); i++) if (!is_allocated(i)) return i *)
Fixpoint first_unused s (is_ : list nat) : Z :=
  match is_ with
  | [] => -1
  | i :: is_ => if negb (is_allocated s (Z.of_nat i)) then Z.of_nat i else first_unused s is_
  end.
Definition find_minimal_unused_idx s : Z := first_unused s (seq 0 (length (handlers s))).

Definition set_handler_at_empty_slot (handler : handler_variant) s : res Z * handler_manager :=
  let id := find_minimal_unused_idx s in
  if id <? 0 then (Raw id, s) else set_handler id handler s.

(** The loop over the table: [clear] is called on the links that [test] accepts. *)
Fixpoint clear_links (clear : Z → handler_manager → res unit * handler_manager) (test : bpf_link_handler → bool)
  (is_ : list nat) s : res unit * handler_manager :=
  match is_ with
  | [] => (Ok tt, s)
  | i :: is_ =>
      match handlers s !! i with
      | Some (HLink l) =>
          if test l then
            match clear (Z.of_nat i) s with
            | (Ok _, s) => clear_links clear test is_ s
            | r => r
            end
          else clear_links clear test is_ s
      | _ => clear_links clear test is_ s
      end
  end.

(** The recursion is on links only, which recur no further: a depth of 2 is enough. *)
Fixpoint clear_at (depth : nat) (fd : Z) s : res unit * handler_manager :=
  match depth with
  | O => (Fault, s)
  | S depth =>
      if (fd <? 0) || (size s <=? fd) then (Ok tt, s)
      else
        let all := seq 0 (length (handlers s)) in
        let '(r, s) :=
          match handlers s !! Z.to_nat fd with
          | Some (HMap h) =>
              let '(r, h', w') := mho_free h (memory s) in
              (r, HandlerManager (handlers (put_handler s fd (HMap h'))) w')
          | Some (HPerfEvent _) => clear_links (clear_at depth) (λ l, lk_attach_target_id l =? fd) all s
          | Some (HProg _) => clear_links (clear_at depth) (λ l, lk_prog_id l =? fd) all s
          | _ => (Ok tt, s)
          end in
        match r with
        | Ok _ => (Ok tt, put_handler s fd unused_handler)
        | r => (r, s)
        end
  end.
Definition clear_id_at (fd : Z) s : res unit * handler_manager := clear_at 2 fd s.

Fixpoint clear_ids (is_ : list nat) s : res unit * handler_manager :=
  match is_ with
  | [] => (Ok tt, s)
  | i :: is_ =>
      if is_allocated s (Z.of_nat i) then
        match clear_id_at (Z.of_nat i) s with
        | (Ok _, s) => clear_ids is_ s
        | r => r
        end
      else clear_ids is_ s
  end.
Definition clear_all s : res unit * handler_manager := clear_ids (seq 0 (length (handlers s))) s.

(** ** Lemmas *)

Lemma in_table_lookup s fd : in_table s fd = true ↔ 0 ≤ fd ∧ is_Some (handlers s !! Z.to_nat fd).
Proof.
  unfold in_table, size, zlen. rewrite lookup_lt_is_Some, negb_true_iff, orb_false_iff, Z.ltb_ge, Z.leb_gt. lia.
Qed.

Lemma out_of_table s fd : ((fd <? 0) || (size s <=? fd)) = negb (in_table s fd).
Proof. unfold in_table. by rewrite negb_involutive. Qed.

Lemma is_allocated_nat s (i : nat) :
  is_allocated s (Z.of_nat i) = match handlers s !! i with Some h => negb (unused h) | None => false end.
Proof.
  unfold is_allocated. rewrite out_of_table. destruct (in_table s (Z.of_nat i)) eqn:Ein; cbn [negb].
  - by rewrite Nat2Z.id.
  - destruct (handlers s !! i) as [h|] eqn:Eh; [|done]. assert (in_table s (Z.of_nat i) = true); [|congruence].
    apply in_table_lookup. rewrite Nat2Z.id, Eh. split; [lia|done].
Qed.

(** A link is cleared by itself. *)
Lemma clear_at_link depth i s l : handlers s !! i = Some (HLink l) →
  clear_at (S depth) (Z.of_nat i) s = (Ok tt, HandlerManager (<[i := unused_handler]> (handlers s)) (memory s)).
Proof.
  intros Hi. cbn [clear_at]. rewrite out_of_table. rewrite (proj2 (in_table_lookup s (Z.of_nat i))).
  - cbn [negb]. unfold put_handler. by rewrite Nat2Z.id, Hi.
  - rewrite Nat2Z.id, Hi. split; [lia|done].
Qed.

(** What the loop leaves of a handler. *)
Definition without (test : bpf_link_handler → bool) (h : handler_variant) : handler_variant :=
  match h with HLink l => if test l then unused_handler else h | _ => h end.

Lemma clear_links_ok depth test : ∀ is_ s,
  NoDup is_ →
  ∃ hs, clear_links (clear_at (S depth)) test is_ s = (Ok tt, HandlerManager hs (memory s)) ∧
        length hs = length (handlers s) ∧
        ∀ j, hs !! j = (if decide (j ∈ is_) then without test else id) <$> handlers s !! j.
Proof.
  induction is_ as [|i is_ IH]; intros s Hnd.
  { exists (handlers s). destruct s. split; [done|]. split; [done|]. intros j. rewrite decide_False by set_solver.
    by rewrite option_fmap_id. }
  apply NoDup_cons in Hnd as [Hi Hnd]. cbn [clear_links].
  assert (Hskip : (handlers s !! i = without test <$> handlers s !! i) →
    ∃ hs, clear_links (clear_at (S depth)) test is_ s = (Ok tt, HandlerManager hs (memory s)) ∧
      length hs = length (handlers s) ∧
      ∀ j, hs !! j = (if decide (j ∈ i :: is_) then without test else id) <$> handlers s !! j).
  { intros Hid. destruct (IH s Hnd) as (hs&Hc&Hl&Hj). exists hs. split; [done|]. split; [done|]. intros j. rewrite Hj.
    destruct (decide (j = i)) as [->|Hne].
    - rewrite decide_False, decide_True, option_fmap_id by set_solver. exact Hid.
    - destruct (decide (j ∈ is_)); [by rewrite decide_True by set_solver|by rewrite decide_False by set_solver]. }
  destruct (handlers s !! i) as [[| |l| | | |]|] eqn:Ei; try (apply Hskip; done).
  destruct (test l) eqn:Et; [|apply Hskip; cbn; by rewrite Et]. clear Hskip.
  rewrite (clear_at_link depth i s l Ei). destruct (IH (HandlerManager (<[i := unused_handler]> (handlers s)) (memory s)) Hnd) as (hs&Hc&Hl&Hj).
  exists hs. split; [done|]. cbn [handlers] in *. rewrite length_insert in Hl. split; [done|]. intros j. rewrite Hj.
  destruct (decide (j = i)) as [->|Hne].
  - rewrite decide_False, decide_True by set_solver. rewrite list_lookup_insert_eq by (by eapply lookup_lt_Some).
    rewrite Ei. cbn. by rewrite Et.
  - rewrite list_lookup_insert_ne by done.
    destruct (decide (j ∈ is_)); [by rewrite decide_True by set_solver|by rewrite decide_False by set_solver].
Qed.

(** The links that go with a handler. *)
Definition refers s (fd : Z) (l : bpf_link_handler) : bool :=
  match handlers s !! Z.to_nat fd with
  | Some (HPerfEvent _) => lk_attach_target_id l =? fd
  | Some (HProg _) => lk_prog_id l =? fd
  | _ => false
  end.

(** What is in the table when [fd] is cleared. *)
Definition cleared s (fd : Z) (j : nat) : option handler_variant :=
  if decide (j = Z.to_nat fd) then Some unused_handler else without (refers s fd) <$> handlers s !! j.

Lemma without_false h : without (λ _, false) h = h.
Proof. by destruct h. Qed.

Lemma all_in_table s (f : handler_variant → handler_variant) j :
  (if decide (j ∈ seq 0 (length (handlers s))) then f else id) <$> handlers s !! j = f <$> handlers s !! j.
Proof.
  destruct (handlers s !! j) as [h|] eqn:Hj; [|done]. apply lookup_lt_Some in Hj. by rewrite decide_True by (apply elem_of_seq; lia).
Qed.

(** The last assignment of [clear_id_at]. *)
Lemma put_cleared s fd hs w : in_table s fd = true → length hs = length (handlers s) →
  (∀ j, j ≠ Z.to_nat fd → hs !! j = without (refers s fd) <$> handlers s !! j) →
  ∃ hs', put_handler (HandlerManager hs w) fd unused_handler = HandlerManager hs' w ∧
    length hs' = length (handlers s) ∧ ∀ j, hs' !! j = cleared s fd j.
Proof.
  intros Hin Hl Hhs. apply in_table_lookup in Hin as [Hfd [h Hh]]. apply lookup_lt_Some in Hh.
  eexists. split; [done|]. cbn [handlers]. rewrite length_insert. split; [done|]. intros j. unfold cleared.
  case_decide as Hj; [subst; apply list_lookup_insert_eq; lia|]. rewrite list_lookup_insert_ne by done. by apply Hhs.
Qed.

Lemma clear_id_at_ok s fd : in_table s fd = true →
  (∀ h, handlers s !! Z.to_nat fd = Some (HMap h) → (mho_free h (memory s)).1.1 = Ok tt) →
  ∃ hs, clear_id_at fd s = (Ok tt, HandlerManager hs
      match handlers s !! Z.to_nat fd with Some (HMap h) => (mho_free h (memory s)).2 | _ => memory s end) ∧
    length hs = length (handlers s) ∧ ∀ j, hs !! j = cleared s fd j.
Proof.
  intros Hin Hfree. pose proof (proj1 (in_table_lookup s fd) Hin) as [Hfd [h Hh]].
  unfold clear_id_at. remember 1%nat as d eqn:Hd. cbn [clear_at]. rewrite out_of_table, Hin, Hh. cbn [negb].
  assert (Hnone : (∀ l, refers s fd l = false) → ∀ j, handlers s !! j = without (refers s fd) <$> handlers s !! j).
  { intros Hf j. destruct (handlers s !! j) as [[]|]; cbn; rewrite ?Hf; done. }
  pose proof (put_cleared s fd) as Hput. subst d.
  destruct h as [|h|l|p|e|x|x].
  1, 3, 6, 7: destruct (Hput (handlers s) (memory s) Hin eq_refl) as (hs&Hp&Hl&Hj);
    [intros j _; apply Hnone; intros l'; unfold refers; by rewrite Hh
    |exists hs; split; [destruct s; cbn [handlers memory] in *; by rewrite Hp|done]].
  - specialize (Hfree h Hh). destruct (mho_free h (memory s)) as [[r h'] w']. cbn [fst snd] in *. subst r.
    destruct (Hput (<[Z.to_nat fd := HMap h']> (handlers s)) w' Hin) as (hs&Hp&Hl&Hj);
      [apply length_insert|intros j Hne; rewrite list_lookup_insert_ne by done; apply Hnone; intros l'; unfold refers; by rewrite Hh|].
    exists hs. split; [|done]. unfold put_handler in *. cbn [handlers memory] in *. by rewrite Hp.
  - destruct (clear_links_ok 0 (λ l, lk_prog_id l =? fd) (seq 0 (length (handlers s))) s (NoDup_seq _ _)) as (hs&->&Hl&Hj).
    destruct (Hput hs (memory s) Hin Hl) as (hs'&->&Hl'&Hj'); [|by exists hs'].
    intros j _. rewrite Hj. rewrite all_in_table. destruct (handlers s !! j) as [[]|]; cbn; unfold refers; by rewrite ?Hh.
  - destruct (clear_links_ok 0 (λ l, lk_attach_target_id l =? fd) (seq 0 (length (handlers s))) s (NoDup_seq _ _)) as (hs&->&Hl&Hj).
    destruct (Hput hs (memory s) Hin Hl) as (hs'&->&Hl'&Hj'); [|by exists hs'].
    intros j _. rewrite Hj. rewrite all_in_table. destruct (handlers s !! j) as [[]|]; cbn; unfold refers; by rewrite ?Hh.
Qed.

(** ** Links and what they refer to *)

Definition is_prog s (fd : Z) : Prop := 0 ≤ fd ∧ ∃ p, handlers s !! Z.to_nat fd = Some (HProg p).
Definition is_perf_event s (fd : Z) : Prop := 0 ≤ fd ∧ ∃ e, handlers s !! Z.to_nat fd = Some (HPerfEvent e).

Definition links_ok s : Prop :=
  ∀ i l, handlers s !! i = Some (HLink l) → is_prog s (lk_prog_id l) ∧ is_perf_event s (lk_attach_target_id l).

(** A link may be made for a program and a perf event that are there. *)
Definition may_set s (h : handler_variant) : Prop :=
  match h with HLink l => is_prog s (lk_prog_id l) ∧ is_perf_event s (lk_attach_target_id l) | _ => True end.

(** The calls of the runtime. *)
Inductive hm_step : handler_manager → handler_manager → Prop :=
| step_set fd h s : may_set s h → hm_step s (set_handler fd h s).2
| step_set_at_empty_slot h s : may_set s h → hm_step s (set_handler_at_empty_slot h s).2
| step_clear fd s : hm_step s (clear_id_at fd s).2
| step_clear_all s : hm_step s (clear_all s).2.

Inductive reachable (n : Z) (w : W) : handler_manager → Prop :=
| reach_create : reachable n w (handler_manager_create n w)
| reach_step s s' : reachable n w s → hm_step s s' → reachable n w s'.

(** A handler put on a slot that holds neither a link, a program nor a perf event. *)
Lemma links_ok_put s i h w h0 : links_ok s → may_set s h → handlers s !! i = Some h0 →
  match h0 with HLink _ | HProg _ | HPerfEvent _ => False | _ => True end →
  links_ok (HandlerManager (<[i := h]> (handlers s)) w).
Proof.
  intros Hl Hm Hi Hh0.
  assert (Hkeep : ∀ j x, handlers s !! j = Some x → match x with HProg _ | HPerfEvent _ => True | _ => False end →
    <[i := h]> (handlers s) !! j = Some x).
  { intros j x Hj Hx. rewrite list_lookup_insert_ne; [done|]. intros ->. rewrite Hi in Hj. injection Hj as ->. by destruct x. }
  intros j l Hj. cbn [handlers] in Hj.
  assert (Hlk : is_prog s (lk_prog_id l) ∧ is_perf_event s (lk_attach_target_id l)).
  { destruct (decide (j = i)) as [->|Hne].
    - rewrite list_lookup_insert_eq in Hj by (by eapply lookup_lt_Some). injection Hj as ->. exact Hm.
    - rewrite list_lookup_insert_ne in Hj by done. by apply Hl in Hj. }
  destruct Hlk as [[? [p Hp]] [? [e He]]]. split; (split; [done|]); eexists; by apply Hkeep.
Qed.

Lemma unallocated s fd : is_allocated s fd = false → in_table s fd = true → handlers s !! Z.to_nat fd = Some unused_handler.
Proof.
  intros Ha Hin. unfold is_allocated in Ha. rewrite out_of_table, Hin in Ha. cbn [negb] in Ha.
  apply in_table_lookup in Hin as [_ [h Hh]]. rewrite Hh in *. by destruct h.
Qed.

Lemma links_ok_set fd h s : links_ok s → may_set s h → links_ok (set_handler fd h s).2.
Proof.
  intros Hl Hm. unfold set_handler. destruct (is_allocated s fd) eqn:Ea; [done|]. destruct (unused h); [done|].
  destruct (in_table s fd) eqn:Hin; [|done]. cbn [negb]. pose proof (unallocated _ _ Ea Hin) as Hu.
  assert (Hput : links_ok (put_handler s fd h)) by (by eapply links_ok_put). destruct h as [|m|l|p|e|x|x]; try done.
  destruct (mho_init m (memory (put_handler s fd (HMap m)))) as [[r h'] w'].
  assert (Hs : links_ok (HandlerManager (handlers (put_handler (put_handler s fd (HMap m)) fd (HMap h'))) w')).
  { cbn [put_handler handlers]. rewrite list_insert_insert_eq. by eapply links_ok_put. }
  by destruct r.
Qed.

Lemma links_ok_cleared s fd hs w : links_ok s → 0 ≤ fd → (∀ j, hs !! j = cleared s fd j) → links_ok (HandlerManager hs w).
Proof.
  intros Hl Hfd Hhs i l Hi. cbn [handlers] in Hi. rewrite Hhs in Hi. unfold cleared in Hi. case_decide as Hne; [done|].
  destruct (handlers s !! i) as [h|] eqn:Ei; [|done]. injection Hi as Hi.
  assert (h = HLink l ∧ refers s fd l = false) as [-> Hr].
  { destruct h as [| |l'| | | |]; try done. cbn in Hi. destruct (refers s fd l') eqn:E'; [done|]. by injection Hi as ->. }
  destruct (Hl i l Ei) as [[Hp [p Hpp]] [He [e Hee]]]. unfold refers in Hr.
  assert (Hkeep : ∀ x h, Z.to_nat x ≠ Z.to_nat fd → handlers s !! Z.to_nat x = Some h →
    match h with HLink _ => False | _ => True end → hs !! Z.to_nat x = Some h).
  { intros x h Hx Hxx Hnl. rewrite Hhs. unfold cleared. rewrite decide_False, Hxx by done. by destruct h. }
  split; (split; [done|]); eexists; apply Hkeep; try done; intros Heq; rewrite <- Heq, ?Hpp, ?Hee in Hr;
    apply Z.eqb_neq in Hr; lia.
Qed.

Lemma links_ok_clear fd s : links_ok s → links_ok (clear_id_at fd s).2.
Proof.
  intros Hl. destruct (in_table s fd) eqn:Hin.
  2:{ unfold clear_id_at. cbn [clear_at]. by rewrite out_of_table, Hin. }
  pose proof (proj1 (in_table_lookup s fd) Hin) as [Hfd [h Hh]].
  assert (Hc : (∃ m, h = HMap m ∧ (mho_free m (memory s)).1.1 ≠ Ok tt) ∨ (∀ m, h = HMap m → (mho_free m (memory s)).1.1 = Ok tt)).
  { destruct h as [|m| | | | |]; try by right. destruct (decide ((mho_free m (memory s)).1.1 = Ok tt)); [right|left; by exists m].
    intros m' [= <-]. done. }
  destruct Hc as [(m&->&Hm)|Hok].
  - unfold clear_id_at. cbn [clear_at]. rewrite out_of_table, Hin, Hh. cbn [negb].
    destruct (mho_free m (memory s)) as [[r h'] w']. cbn [fst] in Hm.
    assert (Hs : links_ok (HandlerManager (handlers (put_handler s fd (HMap h'))) w')) by (by eapply links_ok_put).
    by destruct r as [[]| | | |].
  - destruct (clear_id_at_ok s fd Hin) as (hs&->&_&Hj).
    { intros m Hm. rewrite Hm in Hh. injection Hh as <-. by apply Hok. }
    by apply (links_ok_cleared s fd).
Qed.

Lemma links_ok_clear_ids is_ s : links_ok s → links_ok (clear_ids is_ s).2.
Proof.
  revert s. induction is_ as [|i is_ IH]; intros s Hl; [done|]. cbn [clear_ids]. destruct (is_allocated s (Z.of_nat i)); [|by apply IH].
  pose proof (links_ok_clear (Z.of_nat i) s Hl) as Hc. destruct (clear_id_at (Z.of_nat i) s) as [[[]| | | |] s']; try done. by apply IH.
Qed.

Lemma links_ok_step s s' : hm_step s s' → links_ok s → links_ok s'.
Proof.
  intros Hs Hl. destruct Hs as [fd h s Hm|h s Hm|fd s|s].
  - by apply links_ok_set.
  - unfold set_handler_at_empty_slot. destruct (_ <? 0); [done|]. by apply links_ok_set.
  - by apply links_ok_clear.
  - by apply links_ok_clear_ids.
Qed.

Lemma first_unused_spec s is_ :
  (∃ a i b, is_ = a ++ i :: b ∧ Forall (λ j, is_allocated s (Z.of_nat j) = true) a ∧
            is_allocated s (Z.of_nat i) = false ∧ first_unused s is_ = Z.of_nat i) ∨
  (Forall (λ j, is_allocated s (Z.of_nat j) = true) is_ ∧ first_unused s is_ = -1).
Proof.
  induction is_ as [|i is_ IH]; [by right|]. cbn [first_unused]. destruct (is_allocated s (Z.of_nat i)) eqn:Ea; cbn [negb].
  - destruct IH as [(a&k&b&->&Ha&Hk&Hf)|[Ha Hf]]; [left|right; by auto]. exists (i :: a), k, b. auto.
  - left. by exists [], i, is_.
Qed.

(** The slot that [find_minimal_unused_idx] finds. *)
Lemma minimal_spec s :
  (∃ i, handlers s !! i = Some unused_handler ∧ (∀ j, (j < i)%nat → is_allocated s (Z.of_nat j) = true) ∧
        find_minimal_unused_idx s = Z.of_nat i) ∨
  (∀ i h, handlers s !! i = Some h → h ≠ unused_handler) ∧ find_minimal_unused_idx s = -1.
Proof.
  unfold find_minimal_unused_idx. destruct (first_unused_spec s (seq 0 (length (handlers s)))) as [(a&i&b&Hs&Ha&Hi&Hf)|[Ha Hf]].
  - left. assert (i = length a) as ->.
    { assert (Hl : seq 0 (length (handlers s)) !! length a = Some i) by (rewrite Hs; by apply list_lookup_middle).
      apply lookup_seq in Hl as [-> _]. done. }
    exists (length a). split; [|split; [|done]].
    + rewrite is_allocated_nat in Hi. assert (length a < length (handlers s))%nat as Hlt.
      { assert (Hl : length (seq 0 (length (handlers s))) = length (a ++ length a :: b)) by congruence.
        rewrite length_seq, length_app in Hl. cbn in Hl. lia. }
      apply lookup_lt_is_Some in Hlt as [h Hh]. rewrite Hh in *. by destruct h.
    + intros j Hj. assert (Hl : seq 0 (length (handlers s)) !! j = a !! j) by (rewrite Hs; by apply lookup_app_l).
      apply lookup_lt_is_Some in Hj as [k Hk]. rewrite Hk in Hl. apply lookup_seq in Hl as [-> _].
      rewrite Forall_forall in Ha. apply Ha. by apply list_elem_of_lookup_2 in Hk.
  - right. split; [|done]. intros i h Hi ->. rewrite Forall_forall in Ha. specialize (Ha i).
    rewrite is_allocated_nat, Hi in Ha. cbn in Ha. assert (false = true); [|done]. apply Ha, elem_of_seq. apply lookup_lt_Some in Hi. lia.
Qed.
End manager.

(** ** Properties *)

Section properties.
Context {H W : Type} `{MapHandlerOps H W} {P E X Y : Type}.
Implicit Types s : handler_manager (H := H) (W := W) (P := P) (E := E) (X := X) (Y := Y).

(** When links are only made for programs and perf events that are there, no sequence
    of calls leaves a link to a descriptor that is not a program, or to a target that is not a perf
    event. *)
Theorem no_dangling_links n w s : reachable n w s → links_ok s.
Proof.
  induction 1 as [|s s' _ IH Hs].
  - intros i l Hi. cbn in Hi. apply lookup_replicate in Hi as [Hi _]. done.
  - by eapply links_ok_step.
Qed.

(** Clearing a descriptor in the table frees its slot and the slots of the links that
    refer to it, and no others; a map is destroyed in the shared memory, which is untouched
    otherwise. *)
Theorem clear_id_at_effect s fd :
  in_table s fd = true →
  (∀ h, handlers s !! Z.to_nat fd = Some (HMap h) → (mho_free h (memory s)).1.1 = Ok tt) →
  let c := clear_id_at fd s in
  c.1 = Ok tt ∧ is_allocated c.2 fd = false ∧ size c.2 = size s ∧
  (∀ i h, i ≠ fd → get_handler s i = Ok h →
    get_handler c.2 i = Ok (match h with HLink l => if refers s fd l then unused_handler else h | _ => h end)) ∧
  (∀ i l, get_handler c.2 i = Ok (HLink l) → refers s fd l = false) ∧
  memory c.2 = match handlers s !! Z.to_nat fd with Some (HMap h) => (mho_free h (memory s)).2 | _ => memory s end.
Proof.
  intros Hin Hfree. destruct (clear_id_at_ok s fd Hin Hfree) as (hs&->&Hl&Hj). cbn [fst snd memory].
  pose proof (proj1 (in_table_lookup s fd) Hin) as [Hfd _]. split; [done|]. set (w := match handlers s !! _ with Some _ => _ | None => _ end).
  assert (Hsz : size (HandlerManager hs w) = size s) by (unfold size, zlen; cbn; by rewrite Hl).
  split.
  { unfold is_allocated. destruct (_ || _); [done|]. cbn [handlers]. by rewrite Hj; unfold cleared; rewrite decide_True. }
  split; [apply Hsz|]. split; [|split; [|done]].
  - intros i h Hne. unfold get_handler, in_table. rewrite Hsz. cbn [handlers].
    destruct (negb _) eqn:Ein; [|done]. destruct (handlers s !! Z.to_nat i) as [h'|] eqn:Ei; [|done]. intros [= ->].
    rewrite Hj. unfold cleared. rewrite decide_False, Ei; [done|].
    apply negb_true_iff, orb_false_iff in Ein as [Ein _]. apply Z.ltb_ge in Ein. lia.
  - intros i l. unfold get_handler. cbn [handlers]. destruct (in_table _ i); [|done]. rewrite Hj. unfold cleared.
    case_decide; [done|]. destruct (handlers s !! Z.to_nat i) as [h|]; [|done]. cbn.
    destruct h as [| |l'| | | |]; cbn; try done. destruct (refers s fd l') eqn:Er; [done|]. by intros [= ->].
Qed.

(** [set_handler_at_empty_slot] takes the lowest descriptor that is free, and
    returns -1 without a change when there is none. *)
Theorem set_at_empty_slot_minimal s h :
  match h with unused_handler | HMap _ => False | _ => True end →
  (∃ i, set_handler_at_empty_slot h s = (Ok (Z.of_nat i), put_handler s (Z.of_nat i) h) ∧
        get_handler s (Z.of_nat i) = Ok unused_handler ∧ ∀ j, 0 ≤ j < Z.of_nat i → is_allocated s j = true) ∨
  set_handler_at_empty_slot h s = (Raw (-1), s) ∧ ∀ j, 0 ≤ j < size s → is_allocated s j = true.
Proof.
  intros Hh. unfold set_handler_at_empty_slot. destruct (minimal_spec s) as [(i&Hi&Hmin&->)|[Hall ->]].
  - left. exists i. rewrite (proj2 (Z.ltb_ge (Z.of_nat i) 0)) by lia.
    assert (Hin : in_table s (Z.of_nat i) = true) by (apply in_table_lookup; rewrite Nat2Z.id, Hi; split; [lia|done]).
    split; [|split].
    + unfold set_handler. rewrite is_allocated_nat, Hi. cbn. rewrite Hin. by destruct h.
    + unfold get_handler. by rewrite Hin, Nat2Z.id, Hi.
    + intros j Hj. replace j with (Z.of_nat (Z.to_nat j)) by lia. apply Hmin. lia.
  - right. split; [done|]. intros j Hj. replace j with (Z.of_nat (Z.to_nat j)) by lia. rewrite is_allocated_nat.
    destruct (handlers s !! Z.to_nat j) as [x|] eqn:Ex.
    + apply Hall in Ex. by destruct x.
    + apply lookup_ge_None in Ex. unfold size, zlen in Hj. lia.
Qed.
End properties.

(** ** The manager with the maps of the runtime *)

Section with_maps.
Context {U : Type} `{!UnorderedMap (list Z) U} {UL : Type} `{!UnorderedMap hash_map_value UL}.
Context `{Kernel} {F : Type} `{!KernelUserMaps F} (cpu : Z) (with_libbpf : bool) (table : ops_table) (mc : machine).

#[export] Instance map_handler_ops : MapHandlerOps bpf_map_handler (gmap string (map_impl (U := U) (UL := UL) (F := F))) := {
  mho_init := map_init cpu with_libbpf table mc;
  mho_free := map_free with_libbpf table }.
End with_maps.

(** [set_handler] checks neither the range of a descriptor nor the result of [map_init]: a
    descriptor beyond the table is written out of bounds, and a ring buffer map whose size is not a
    power of two is reported as made and gets its descriptor, with a null pointer on which lookups
    fault. *)
Theorem set_handler_unchecked {U} `{!UnorderedMap (list Z) U} {UL} `{!UnorderedMap hash_map_value UL} `{Kernel} {F}
  `{!KernelUserMaps F} cpu with_libbpf table mc {P E X Y}
  (s : handler_manager (H := bpf_map_handler) (W := gmap string (map_impl (U := U) (UL := UL) (F := F))) (P := P) (E := E) (X := X) (Y := Y))
  h fd key from_syscall :
  mh_type h = BPF_MAP_TYPE_RINGBUF → mh_map_impl_ptr h = None →
  0 ≤ mh_max_entries h < 2 ^ 32 → (¬ ∃ e, 0 ≤ e ∧ mh_max_entries h = 2 ^ e) →
  let r := set_handler (H0 := map_handler_ops cpu with_libbpf table mc) fd (HMap h) s in
  (fd < 0 ∨ size s ≤ fd → r.1 = Fault) ∧
  (get_handler s fd = Ok unused_handler →
   r = (Ok fd, put_handler s fd (HMap h)) ∧
   (map_lookup_elem cpu with_libbpf table h key from_syscall (memory s)).1 = Fault).
Proof.
  intros Ht Hp Hn Hpow. split.
  - intros Hout. unfold set_handler, is_allocated. rewrite out_of_table.
    assert (Hin : in_table s fd = false).
    { unfold in_table. apply negb_false_iff, orb_true_iff. destruct Hout; [left; by apply Z.ltb_lt|right; by apply Z.leb_le]. }
    by rewrite Hin.
  - unfold get_handler. destruct (in_table s fd) eqn:Hin; [|done].
    destruct (handlers s !! Z.to_nat fd) as [x|] eqn:Ex; [|done]. intros [= ->]. split.
    + unfold set_handler, is_allocated. rewrite out_of_table, Hin, Ex. cbn [negb unused mho_init map_handler_ops].
      unfold map_init. rewrite Ht. destruct (Z.eqb_spec (pop_count 32 (mh_max_entries h) 0) 1) as [Ho|Ho].
      { destruct Hpow. by apply (pop_count_one 32). }
      cbn [negb put_handler handlers memory]. unfold put_handler. by rewrite list_insert_insert_eq.
    + unfold map_lookup_elem, call_impl. by rewrite Ht, Hp.
Qed.

(** ** Witnesses *)

Definition demo_manager : Type :=
  handler_manager (H := bpf_map_handler) (W := demo_shm) (P := unit) (E := unit) (X := unit) (Y := unit).
#[export] Instance demo_map_ops : MapHandlerOps bpf_map_handler demo_shm := map_handler_ops 0 true demo_table demo_machine.

(** Program 0 and perf event 1, linked by 2; an array at 3. *)
Definition demo_hm : demo_manager :=
  HandlerManager [HProg tt; HPerfEvent tt; HLink (BpfLinkHandler 0 1 None); HMap (demo_map BPF_MAP_TYPE_ARRAY 4 2 3); unused_handler] ∅.

Lemma no_dangling_links_witness :
  let s1 : demo_manager := handler_manager_create 4 ∅ in
  let s2 := (set_handler 2 (HProg tt) s1).2 in
  let s3 := (set_handler 0 (HPerfEvent tt) s2).2 in
  let s4 := (set_handler_at_empty_slot (HLink (BpfLinkHandler 2 0 None)) s3).2 in
  let s5 := (clear_id_at 2 s4).2 in
  handlers s4 = [HPerfEvent tt; HLink (BpfLinkHandler 2 0 None); HProg tt; unused_handler] ∧
  handlers s5 = [HPerfEvent tt; unused_handler; unused_handler; unused_handler] ∧ links_ok s5.
Proof.
  intros s1 s2 s3 s4 s5. split; [vm_compute; done|]. split; [vm_compute; done|]. apply (no_dangling_links 4 ∅).
  assert (Hm : may_set s3 (HLink (BpfLinkHandler 2 0 None))) by (split; split; cbn; try lia; by eexists).
  eapply reach_step; [|apply step_clear]. eapply reach_step; [|by apply step_set_at_empty_slot].
  eapply reach_step; [|by apply step_set]. eapply reach_step; [|by apply step_set]. apply reach_create.
Defined.

Lemma clear_id_at_effect_witness :
  (clear_id_at 1 demo_hm).1 = Ok tt ∧ is_allocated (clear_id_at 1 demo_hm).2 1 = false ∧
  get_handler (clear_id_at 1 demo_hm).2 2 = Ok unused_handler ∧
  get_handler (clear_id_at 1 demo_hm).2 0 = Ok (HProg tt).
Proof.
  destruct (clear_id_at_effect demo_hm 1) as (H1&H2&_&H4&_&_); [vm_compute; done|intros h Hh; vm_compute in Hh; congruence|].
  split; [exact H1|]. split; [exact H2|]. split.
  - apply (H4 2 (HLink (BpfLinkHandler 0 1 None))); [lia|vm_compute; done].
  - apply (H4 0 (HProg tt)); [lia|vm_compute; done].
Defined.

Lemma set_at_empty_slot_minimal_witness :
  set_handler_at_empty_slot (HPerfEvent tt) demo_hm = (Ok 4, put_handler demo_hm 4 (HPerfEvent tt)).
Proof.
  destruct (set_at_empty_slot_minimal demo_hm (HPerfEvent tt) I) as [(i&Hr&Hg&Hj)|[Hr Hall]].
  - assert (Hc : (set_handler_at_empty_slot (HPerfEvent tt) demo_hm).1 = Ok 4) by (vm_compute; done).
    rewrite Hr in Hc. cbn [fst] in Hc. injection Hc as Hc. by rewrite Hr, Hc.
  - specialize (Hall 4 ltac:(vm_compute; done)). vm_compute in Hall. done.
Defined.

Lemma set_handler_unchecked_witness :
  let h := demo_map BPF_MAP_TYPE_RINGBUF 0 0 24 in
  (set_handler 9 (HMap h) demo_hm).1 = Fault ∧
  set_handler 4 (HMap h) demo_hm = (Ok 4, put_handler demo_hm 4 (HMap h)) ∧
  (map_lookup_elem 0 true demo_table h (key32 0) true (memory demo_hm)).1 = Fault.
Proof.
  intros h. assert (Hp : ¬ ∃ e, 0 ≤ e ∧ mh_max_entries h = 2 ^ e).
  { intros (e&He&Hp). cbn in Hp. assert (e < 5) by (apply (Z.pow_lt_mono_r_iff 2); lia).
    assert (4 < e) by (apply (Z.pow_lt_mono_r_iff 2); lia). lia. }
  split.
  - apply (set_handler_unchecked 0 true demo_table demo_machine demo_hm h 9 (key32 0) true); [done|done|cbn; lia|done|right; vm_compute; done].
  - apply (set_handler_unchecked 0 true demo_table demo_machine demo_hm h 4 (key32 0) true); [done|done|cbn; lia|done|done].
Defined.
