(* ===== verification/EbpfIsa.v ===== *)
(** * eBPF instructions

    The instruction format and the opcodes (third_party/ubpf/vm/ebpf.h, and vm/llvm-jit/src/ebpf_inst.h,
    which has the same opcodes and four more), the 64-bit encoding of an instruction, and the memory that
    a program and its helpers see: a finite map from addresses to bytes. The interpreter and the compiler
    share these. *)

From stdpp Require Import base numbers list strings gmap.
From S2P Require Import Prelude.

(** ** Instructions *)

Record ebpf_inst := EbpfInst { i_opcode : Z; i_dst : Z; i_src : Z; i_offset : Z; i_imm : Z }.

#[export] Instance ebpf_inst_eq_dec : EqDecision ebpf_inst.
Proof. solve_decision. Defined.

(** The widths of the fields. *)
Definition inst_wf (i : ebpf_inst) : Prop :=
  0 ≤ i_opcode i < 2 ^ 8 ∧ 0 ≤ i_dst i < 2 ^ 4 ∧ 0 ≤ i_src i < 2 ^ 4 ∧
  - 2 ^ 15 ≤ i_offset i < 2 ^ 15 ∧ - 2 ^ 31 ≤ i_imm i < 2 ^ 31.

(** The eight bytes of an instruction as an [uint64_t]: opcode, registers, offset, immediate. *)
Definition inst_value (i : ebpf_inst) : Z :=
  u8 (i_opcode i) + 2 ^ 8 * (i_dst i mod 2 ^ 4) + 2 ^ 12 * (i_src i mod 2 ^ 4) + 2 ^ 16 * u16 (i_offset i) + 2 ^ 32 * u32 (i_imm i).
Definition inst_of_value (v : Z) : ebpf_inst :=
  EbpfInst (u8 v) ((v / 2 ^ 8) mod 2 ^ 4) ((v / 2 ^ 12) mod 2 ^ 4) (s16 (v / 2 ^ 16)) (s32 (v / 2 ^ 32)).

(** ** Opcodes *)

Abbreviation EBPF_CLS_LD := 0x00 (only parsing).
Abbreviation EBPF_CLS_LDX := 0x01 (only parsing).
Abbreviation EBPF_CLS_ST := 0x02 (only parsing).
Abbreviation EBPF_CLS_STX := 0x03 (only parsing).
Abbreviation EBPF_CLS_ALU := 0x04 (only parsing).
Abbreviation EBPF_CLS_JMP := 0x05 (only parsing).
Abbreviation EBPF_CLS_JMP32 := 0x06 (only parsing).
Abbreviation EBPF_CLS_ALU64 := 0x07 (only parsing).
Abbreviation EBPF_SRC_IMM := 0x00 (only parsing).
Abbreviation EBPF_SRC_REG := 0x08 (only parsing).
Abbreviation EBPF_SIZE_W := 0x00 (only parsing).
Abbreviation EBPF_SIZE_H := 0x08 (only parsing).
Abbreviation EBPF_SIZE_B := 0x10 (only parsing).
Abbreviation EBPF_SIZE_DW := 0x18 (only parsing).
Abbreviation EBPF_MODE_IMM := 0x00 (only parsing).
Abbreviation EBPF_MODE_MEM := 0x60 (only parsing).
Abbreviation EBPF_MODE_JA := 0x00 (only parsing).
Abbreviation EBPF_MODE_JEQ := 0x10 (only parsing).
Abbreviation EBPF_MODE_JGT := 0x20 (only parsing).
Abbreviation EBPF_MODE_JGE := 0x30 (only parsing).
Abbreviation EBPF_MODE_JSET := 0x40 (only parsing).
Abbreviation EBPF_MODE_JNE := 0x50 (only parsing).
Abbreviation EBPF_MODE_JSGT := 0x60 (only parsing).
Abbreviation EBPF_MODE_JSGE := 0x70 (only parsing).
Abbreviation EBPF_MODE_CALL := 0x80 (only parsing).
Abbreviation EBPF_MODE_EXIT := 0x90 (only parsing).
Abbreviation EBPF_MODE_JLT := 0xa0 (only parsing).
Abbreviation EBPF_MODE_JLE := 0xb0 (only parsing).
Abbreviation EBPF_MODE_JSLT := 0xc0 (only parsing).
Abbreviation EBPF_MODE_JSLE := 0xd0 (only parsing).
Abbreviation EBPF_MODE_ATOMIC := 0xc0 (only parsing).
Abbreviation EBPF_STX := 0x03 (only parsing).
Abbreviation EBPF_ALU_OP_END := 0xd0 (only parsing).

Inductive ebpf_op :=
| EBPF_OP_ADD_IMM | EBPF_OP_ADD_REG | EBPF_OP_SUB_IMM | EBPF_OP_SUB_REG | EBPF_OP_MUL_IMM | EBPF_OP_MUL_REG |
EBPF_OP_DIV_IMM | EBPF_OP_DIV_REG | EBPF_OP_OR_IMM | EBPF_OP_OR_REG | EBPF_OP_AND_IMM | EBPF_OP_AND_REG |
EBPF_OP_LSH_IMM | EBPF_OP_LSH_REG | EBPF_OP_RSH_IMM | EBPF_OP_RSH_REG | EBPF_OP_NEG | EBPF_OP_MOD_IMM |
EBPF_OP_MOD_REG | EBPF_OP_XOR_IMM | EBPF_OP_XOR_REG | EBPF_OP_MOV_IMM | EBPF_OP_MOV_REG | EBPF_OP_ARSH_IMM |
EBPF_OP_ARSH_REG | EBPF_OP_LE | EBPF_OP_BE | EBPF_OP_ADD64_IMM | EBPF_OP_ADD64_REG | EBPF_OP_SUB64_IMM |
EBPF_OP_SUB64_REG | EBPF_OP_MUL64_IMM | EBPF_OP_MUL64_REG | EBPF_OP_DIV64_IMM | EBPF_OP_DIV64_REG |
EBPF_OP_OR64_IMM | EBPF_OP_OR64_REG | EBPF_OP_AND64_IMM | EBPF_OP_AND64_REG | EBPF_OP_LSH64_IMM |
EBPF_OP_LSH64_REG | EBPF_OP_RSH64_IMM | EBPF_OP_RSH64_REG | EBPF_OP_NEG64 | EBPF_OP_MOD64_IMM |
EBPF_OP_MOD64_REG | EBPF_OP_XOR64_IMM | EBPF_OP_XOR64_REG | EBPF_OP_MOV64_IMM | EBPF_OP_MOV64_REG |
EBPF_OP_ARSH64_IMM | EBPF_OP_ARSH64_REG | EBPF_OP_LDXW | EBPF_OP_LDXH | EBPF_OP_LDXB | EBPF_OP_LDXDW |
EBPF_OP_STW | EBPF_OP_STH | EBPF_OP_STB | EBPF_OP_STDW | EBPF_OP_STXW | EBPF_OP_STXH | EBPF_OP_STXB |
EBPF_OP_STXDW | EBPF_OP_LDDW | EBPF_OP_JA | EBPF_OP_JEQ_IMM | EBPF_OP_JEQ_REG | EBPF_OP_JGT_IMM |
EBPF_OP_JGT_REG | EBPF_OP_JGE_IMM | EBPF_OP_JGE_REG | EBPF_OP_JSET_REG | EBPF_OP_JSET_IMM | EBPF_OP_JNE_IMM |
EBPF_OP_JNE_REG | EBPF_OP_JSGT_IMM | EBPF_OP_JSGT_REG | EBPF_OP_JSGE_IMM | EBPF_OP_JSGE_REG | EBPF_OP_CALL |
EBPF_OP_EXIT | EBPF_OP_JLT_IMM | EBPF_OP_JLT_REG | EBPF_OP_JLE_IMM | EBPF_OP_JLE_REG | EBPF_OP_JSLT_IMM |
EBPF_OP_JSLT_REG | EBPF_OP_JSLE_IMM | EBPF_OP_JSLE_REG | EBPF_OP_JEQ32_IMM | EBPF_OP_JEQ32_REG |
EBPF_OP_JGT32_IMM | EBPF_OP_JGT32_REG | EBPF_OP_JGE32_IMM | EBPF_OP_JGE32_REG | EBPF_OP_JSET32_REG |
EBPF_OP_JSET32_IMM | EBPF_OP_JNE32_IMM | EBPF_OP_JNE32_REG | EBPF_OP_JSGT32_IMM | EBPF_OP_JSGT32_REG |
EBPF_OP_JSGE32_IMM | EBPF_OP_JSGE32_REG | EBPF_OP_JLT32_IMM | EBPF_OP_JLT32_REG | EBPF_OP_JLE32_IMM |
EBPF_OP_JLE32_REG | EBPF_OP_JSLT32_IMM | EBPF_OP_JSLT32_REG | EBPF_OP_JSLE32_IMM | EBPF_OP_JSLE32_REG |
EBPF_ATOMIC_OPCODE_32 | EBPF_ATOMIC_OPCODE_64 | EBPF_OP_BYTESWAP | EBPF_OP_JA_IMM.

#[local] Infix "|||" := Z.lor (at level 50, left associativity).

Definition op_code (o : ebpf_op) : Z :=
  match o with
  | EBPF_OP_ADD_IMM => EBPF_CLS_ALU ||| EBPF_SRC_IMM ||| 0x00
  | EBPF_OP_ADD_REG => EBPF_CLS_ALU ||| EBPF_SRC_REG ||| 0x00
  | EBPF_OP_SUB_IMM => EBPF_CLS_ALU ||| EBPF_SRC_IMM ||| 0x10
  | EBPF_OP_SUB_REG => EBPF_CLS_ALU ||| EBPF_SRC_REG ||| 0x10
  | EBPF_OP_MUL_IMM => EBPF_CLS_ALU ||| EBPF_SRC_IMM ||| 0x20
  | EBPF_OP_MUL_REG => EBPF_CLS_ALU ||| EBPF_SRC_REG ||| 0x20
  | EBPF_OP_DIV_IMM => EBPF_CLS_ALU ||| EBPF_SRC_IMM ||| 0x30
  | EBPF_OP_DIV_REG => EBPF_CLS_ALU ||| EBPF_SRC_REG ||| 0x30
  | EBPF_OP_OR_IMM => EBPF_CLS_ALU ||| EBPF_SRC_IMM ||| 0x40
  | EBPF_OP_OR_REG => EBPF_CLS_ALU ||| EBPF_SRC_REG ||| 0x40
  | EBPF_OP_AND_IMM => EBPF_CLS_ALU ||| EBPF_SRC_IMM ||| 0x50
  | EBPF_OP_AND_REG => EBPF_CLS_ALU ||| EBPF_SRC_REG ||| 0x50
  | EBPF_OP_LSH_IMM => EBPF_CLS_ALU ||| EBPF_SRC_IMM ||| 0x60
  | EBPF_OP_LSH_REG => EBPF_CLS_ALU ||| EBPF_SRC_REG ||| 0x60
  | EBPF_OP_RSH_IMM => EBPF_CLS_ALU ||| EBPF_SRC_IMM ||| 0x70
  | EBPF_OP_RSH_REG => EBPF_CLS_ALU ||| EBPF_SRC_REG ||| 0x70
  | EBPF_OP_NEG => EBPF_CLS_ALU ||| 0x80
  | EBPF_OP_MOD_IMM => EBPF_CLS_ALU ||| EBPF_SRC_IMM ||| 0x90
  | EBPF_OP_MOD_REG => EBPF_CLS_ALU ||| EBPF_SRC_REG ||| 0x90
  | EBPF_OP_XOR_IMM => EBPF_CLS_ALU ||| EBPF_SRC_IMM ||| 0xa0
  | EBPF_OP_XOR_REG => EBPF_CLS_ALU ||| EBPF_SRC_REG ||| 0xa0
  | EBPF_OP_MOV_IMM => EBPF_CLS_ALU ||| EBPF_SRC_IMM ||| 0xb0
  | EBPF_OP_MOV_REG => EBPF_CLS_ALU ||| EBPF_SRC_REG ||| 0xb0
  | EBPF_OP_ARSH_IMM => EBPF_CLS_ALU ||| EBPF_SRC_IMM ||| 0xc0
  | EBPF_OP_ARSH_REG => EBPF_CLS_ALU ||| EBPF_SRC_REG ||| 0xc0
  | EBPF_OP_LE => EBPF_CLS_ALU ||| EBPF_SRC_IMM ||| 0xd0
  | EBPF_OP_BE => EBPF_CLS_ALU ||| EBPF_SRC_REG ||| 0xd0
  | EBPF_OP_ADD64_IMM => EBPF_CLS_ALU64 ||| EBPF_SRC_IMM ||| 0x00
  | EBPF_OP_ADD64_REG => EBPF_CLS_ALU64 ||| EBPF_SRC_REG ||| 0x00
  | EBPF_OP_SUB64_IMM => EBPF_CLS_ALU64 ||| EBPF_SRC_IMM ||| 0x10
  | EBPF_OP_SUB64_REG => EBPF_CLS_ALU64 ||| EBPF_SRC_REG ||| 0x10
  | EBPF_OP_MUL64_IMM => EBPF_CLS_ALU64 ||| EBPF_SRC_IMM ||| 0x20
  | EBPF_OP_MUL64_REG => EBPF_CLS_ALU64 ||| EBPF_SRC_REG ||| 0x20
  | EBPF_OP_DIV64_IMM => EBPF_CLS_ALU64 ||| EBPF_SRC_IMM ||| 0x30
  | EBPF_OP_DIV64_REG => EBPF_CLS_ALU64 ||| EBPF_SRC_REG ||| 0x30
  | EBPF_OP_OR64_IMM => EBPF_CLS_ALU64 ||| EBPF_SRC_IMM ||| 0x40
  | EBPF_OP_OR64_REG => EBPF_CLS_ALU64 ||| EBPF_SRC_REG ||| 0x40
  | EBPF_OP_AND64_IMM => EBPF_CLS_ALU64 ||| EBPF_SRC_IMM ||| 0x50
  | EBPF_OP_AND64_REG => EBPF_CLS_ALU64 ||| EBPF_SRC_REG ||| 0x50
  | EBPF_OP_LSH64_IMM => EBPF_CLS_ALU64 ||| EBPF_SRC_IMM ||| 0x60
  | EBPF_OP_LSH64_REG => EBPF_CLS_ALU64 ||| EBPF_SRC_REG ||| 0x60
  | EBPF_OP_RSH64_IMM => EBPF_CLS_ALU64 ||| EBPF_SRC_IMM ||| 0x70
  | EBPF_OP_RSH64_REG => EBPF_CLS_ALU64 ||| EBPF_SRC_REG ||| 0x70
  | EBPF_OP_NEG64 => EBPF_CLS_ALU64 ||| 0x80
  | EBPF_OP_MOD64_IMM => EBPF_CLS_ALU64 ||| EBPF_SRC_IMM ||| 0x90
  | EBPF_OP_MOD64_REG => EBPF_CLS_ALU64 ||| EBPF_SRC_REG ||| 0x90
  | EBPF_OP_XOR64_IMM => EBPF_CLS_ALU64 ||| EBPF_SRC_IMM ||| 0xa0
  | EBPF_OP_XOR64_REG => EBPF_CLS_ALU64 ||| EBPF_SRC_REG ||| 0xa0
  | EBPF_OP_MOV64_IMM => EBPF_CLS_ALU64 ||| EBPF_SRC_IMM ||| 0xb0
  | EBPF_OP_MOV64_REG => EBPF_CLS_ALU64 ||| EBPF_SRC_REG ||| 0xb0
  | EBPF_OP_ARSH64_IMM => EBPF_CLS_ALU64 ||| EBPF_SRC_IMM ||| 0xc0
  | EBPF_OP_ARSH64_REG => EBPF_CLS_ALU64 ||| EBPF_SRC_REG ||| 0xc0
  | EBPF_OP_LDXW => EBPF_CLS_LDX ||| EBPF_MODE_MEM ||| EBPF_SIZE_W
  | EBPF_OP_LDXH => EBPF_CLS_LDX ||| EBPF_MODE_MEM ||| EBPF_SIZE_H
  | EBPF_OP_LDXB => EBPF_CLS_LDX ||| EBPF_MODE_MEM ||| EBPF_SIZE_B
  | EBPF_OP_LDXDW => EBPF_CLS_LDX ||| EBPF_MODE_MEM ||| EBPF_SIZE_DW
  | EBPF_OP_STW => EBPF_CLS_ST ||| EBPF_MODE_MEM ||| EBPF_SIZE_W
  | EBPF_OP_STH => EBPF_CLS_ST ||| EBPF_MODE_MEM ||| EBPF_SIZE_H
  | EBPF_OP_STB => EBPF_CLS_ST ||| EBPF_MODE_MEM ||| EBPF_SIZE_B
  | EBPF_OP_STDW => EBPF_CLS_ST ||| EBPF_MODE_MEM ||| EBPF_SIZE_DW
  | EBPF_OP_STXW => EBPF_CLS_STX ||| EBPF_MODE_MEM ||| EBPF_SIZE_W
  | EBPF_OP_STXH => EBPF_CLS_STX ||| EBPF_MODE_MEM ||| EBPF_SIZE_H
  | EBPF_OP_STXB => EBPF_CLS_STX ||| EBPF_MODE_MEM ||| EBPF_SIZE_B
  | EBPF_OP_STXDW => EBPF_CLS_STX ||| EBPF_MODE_MEM ||| EBPF_SIZE_DW
  | EBPF_OP_LDDW => EBPF_CLS_LD ||| EBPF_MODE_IMM ||| EBPF_SIZE_DW
  | EBPF_OP_JA => EBPF_CLS_JMP ||| EBPF_MODE_JA
  | EBPF_OP_JEQ_IMM => EBPF_CLS_JMP ||| EBPF_SRC_IMM ||| EBPF_MODE_JEQ
  | EBPF_OP_JEQ_REG => EBPF_CLS_JMP ||| EBPF_SRC_REG ||| EBPF_MODE_JEQ
  | EBPF_OP_JGT_IMM => EBPF_CLS_JMP ||| EBPF_SRC_IMM ||| EBPF_MODE_JGT
  | EBPF_OP_JGT_REG => EBPF_CLS_JMP ||| EBPF_SRC_REG ||| EBPF_MODE_JGT
  | EBPF_OP_JGE_IMM => EBPF_CLS_JMP ||| EBPF_SRC_IMM ||| EBPF_MODE_JGE
  | EBPF_OP_JGE_REG => EBPF_CLS_JMP ||| EBPF_SRC_REG ||| EBPF_MODE_JGE
  | EBPF_OP_JSET_REG => EBPF_CLS_JMP ||| EBPF_SRC_REG ||| EBPF_MODE_JSET
  | EBPF_OP_JSET_IMM => EBPF_CLS_JMP ||| EBPF_SRC_IMM ||| EBPF_MODE_JSET
  | EBPF_OP_JNE_IMM => EBPF_CLS_JMP ||| EBPF_SRC_IMM ||| EBPF_MODE_JNE
  | EBPF_OP_JNE_REG => EBPF_CLS_JMP ||| EBPF_SRC_REG ||| EBPF_MODE_JNE
  | EBPF_OP_JSGT_IMM => EBPF_CLS_JMP ||| EBPF_SRC_IMM ||| EBPF_MODE_JSGT
  | EBPF_OP_JSGT_REG => EBPF_CLS_JMP ||| EBPF_SRC_REG ||| EBPF_MODE_JSGT
  | EBPF_OP_JSGE_IMM => EBPF_CLS_JMP ||| EBPF_SRC_IMM ||| EBPF_MODE_JSGE
  | EBPF_OP_JSGE_REG => EBPF_CLS_JMP ||| EBPF_SRC_REG ||| EBPF_MODE_JSGE
  | EBPF_OP_CALL => EBPF_CLS_JMP ||| EBPF_MODE_CALL
  | EBPF_OP_EXIT => EBPF_CLS_JMP ||| EBPF_MODE_EXIT
  | EBPF_OP_JLT_IMM => EBPF_CLS_JMP ||| EBPF_SRC_IMM ||| EBPF_MODE_JLT
  | EBPF_OP_JLT_REG => EBPF_CLS_JMP ||| EBPF_SRC_REG ||| EBPF_MODE_JLT
  | EBPF_OP_JLE_IMM => EBPF_CLS_JMP ||| EBPF_SRC_IMM ||| EBPF_MODE_JLE
  | EBPF_OP_JLE_REG => EBPF_CLS_JMP ||| EBPF_SRC_REG ||| EBPF_MODE_JLE
  | EBPF_OP_JSLT_IMM => EBPF_CLS_JMP ||| EBPF_SRC_IMM ||| EBPF_MODE_JSLT
  | EBPF_OP_JSLT_REG => EBPF_CLS_JMP ||| EBPF_SRC_REG ||| EBPF_MODE_JSLT
  | EBPF_OP_JSLE_IMM => EBPF_CLS_JMP ||| EBPF_SRC_IMM ||| EBPF_MODE_JSLE
  | EBPF_OP_JSLE_REG => EBPF_CLS_JMP ||| EBPF_SRC_REG ||| EBPF_MODE_JSLE
  | EBPF_OP_JEQ32_IMM => EBPF_CLS_JMP32 ||| EBPF_SRC_IMM ||| EBPF_MODE_JEQ
  | EBPF_OP_JEQ32_REG => EBPF_CLS_JMP32 ||| EBPF_SRC_REG ||| EBPF_MODE_JEQ
  | EBPF_OP_JGT32_IMM => EBPF_CLS_JMP32 ||| EBPF_SRC_IMM ||| EBPF_MODE_JGT
  | EBPF_OP_JGT32_REG => EBPF_CLS_JMP32 ||| EBPF_SRC_REG ||| EBPF_MODE_JGT
  | EBPF_OP_JGE32_IMM => EBPF_CLS_JMP32 ||| EBPF_SRC_IMM ||| EBPF_MODE_JGE
  | EBPF_OP_JGE32_REG => EBPF_CLS_JMP32 ||| EBPF_SRC_REG ||| EBPF_MODE_JGE
  | EBPF_OP_JSET32_REG => EBPF_CLS_JMP32 ||| EBPF_SRC_REG ||| EBPF_MODE_JSET
  | EBPF_OP_JSET32_IMM => EBPF_CLS_JMP32 ||| EBPF_SRC_IMM ||| EBPF_MODE_JSET
  | EBPF_OP_JNE32_IMM => EBPF_CLS_JMP32 ||| EBPF_SRC_IMM ||| EBPF_MODE_JNE
  | EBPF_OP_JNE32_REG => EBPF_CLS_JMP32 ||| EBPF_SRC_REG ||| EBPF_MODE_JNE
  | EBPF_OP_JSGT32_IMM => EBPF_CLS_JMP32 ||| EBPF_SRC_IMM ||| EBPF_MODE_JSGT
  | EBPF_OP_JSGT32_REG => EBPF_CLS_JMP32 ||| EBPF_SRC_REG ||| EBPF_MODE_JSGT
  | EBPF_OP_JSGE32_IMM => EBPF_CLS_JMP32 ||| EBPF_SRC_IMM ||| EBPF_MODE_JSGE
  | EBPF_OP_JSGE32_REG => EBPF_CLS_JMP32 ||| EBPF_SRC_REG ||| EBPF_MODE_JSGE
  | EBPF_OP_JLT32_IMM => EBPF_CLS_JMP32 ||| EBPF_SRC_IMM ||| EBPF_MODE_JLT
  | EBPF_OP_JLT32_REG => EBPF_CLS_JMP32 ||| EBPF_SRC_REG ||| EBPF_MODE_JLT
  | EBPF_OP_JLE32_IMM => EBPF_CLS_JMP32 ||| EBPF_SRC_IMM ||| EBPF_MODE_JLE
  | EBPF_OP_JLE32_REG => EBPF_CLS_JMP32 ||| EBPF_SRC_REG ||| EBPF_MODE_JLE
  | EBPF_OP_JSLT32_IMM => EBPF_CLS_JMP32 ||| EBPF_SRC_IMM ||| EBPF_MODE_JSLT
  | EBPF_OP_JSLT32_REG => EBPF_CLS_JMP32 ||| EBPF_SRC_REG ||| EBPF_MODE_JSLT
  | EBPF_OP_JSLE32_IMM => EBPF_CLS_JMP32 ||| EBPF_SRC_IMM ||| EBPF_MODE_JSLE
  | EBPF_OP_JSLE32_REG => EBPF_CLS_JMP32 ||| EBPF_SRC_REG ||| EBPF_MODE_JSLE
  | EBPF_ATOMIC_OPCODE_32 => EBPF_MODE_ATOMIC ||| EBPF_SIZE_W ||| EBPF_STX
  | EBPF_ATOMIC_OPCODE_64 => EBPF_MODE_ATOMIC ||| EBPF_SIZE_DW ||| EBPF_STX
  | EBPF_OP_BYTESWAP => EBPF_CLS_ALU64 ||| EBPF_SRC_IMM ||| EBPF_ALU_OP_END
  | EBPF_OP_JA_IMM => EBPF_CLS_JMP32 ||| EBPF_MODE_JA
  end.

(** The opcodes of ebpf.h. *)
Definition ubpf_ops : list ebpf_op :=
  [EBPF_OP_ADD_IMM; EBPF_OP_ADD_REG; EBPF_OP_SUB_IMM; EBPF_OP_SUB_REG; EBPF_OP_MUL_IMM; EBPF_OP_MUL_REG;
   EBPF_OP_DIV_IMM; EBPF_OP_DIV_REG; EBPF_OP_OR_IMM; EBPF_OP_OR_REG; EBPF_OP_AND_IMM; EBPF_OP_AND_REG;
   EBPF_OP_LSH_IMM; EBPF_OP_LSH_REG; EBPF_OP_RSH_IMM; EBPF_OP_RSH_REG; EBPF_OP_NEG; EBPF_OP_MOD_IMM;
   EBPF_OP_MOD_REG; EBPF_OP_XOR_IMM; EBPF_OP_XOR_REG; EBPF_OP_MOV_IMM; EBPF_OP_MOV_REG; EBPF_OP_ARSH_IMM;
   EBPF_OP_ARSH_REG; EBPF_OP_LE; EBPF_OP_BE; EBPF_OP_ADD64_IMM; EBPF_OP_ADD64_REG; EBPF_OP_SUB64_IMM;
   EBPF_OP_SUB64_REG; EBPF_OP_MUL64_IMM; EBPF_OP_MUL64_REG; EBPF_OP_DIV64_IMM; EBPF_OP_DIV64_REG;
   EBPF_OP_OR64_IMM; EBPF_OP_OR64_REG; EBPF_OP_AND64_IMM; EBPF_OP_AND64_REG; EBPF_OP_LSH64_IMM;
   EBPF_OP_LSH64_REG; EBPF_OP_RSH64_IMM; EBPF_OP_RSH64_REG; EBPF_OP_NEG64; EBPF_OP_MOD64_IMM;
   EBPF_OP_MOD64_REG; EBPF_OP_XOR64_IMM; EBPF_OP_XOR64_REG; EBPF_OP_MOV64_IMM; EBPF_OP_MOV64_REG;
   EBPF_OP_ARSH64_IMM; EBPF_OP_ARSH64_REG; EBPF_OP_LDXW; EBPF_OP_LDXH; EBPF_OP_LDXB; EBPF_OP_LDXDW;
   EBPF_OP_STW; EBPF_OP_STH; EBPF_OP_STB; EBPF_OP_STDW; EBPF_OP_STXW; EBPF_OP_STXH; EBPF_OP_STXB;
   EBPF_OP_STXDW; EBPF_OP_LDDW; EBPF_OP_JA; EBPF_OP_JEQ_IMM; EBPF_OP_JEQ_REG; EBPF_OP_JGT_IMM;
   EBPF_OP_JGT_REG; EBPF_OP_JGE_IMM; EBPF_OP_JGE_REG; EBPF_OP_JSET_REG; EBPF_OP_JSET_IMM; EBPF_OP_JNE_IMM;
   EBPF_OP_JNE_REG; EBPF_OP_JSGT_IMM; EBPF_OP_JSGT_REG; EBPF_OP_JSGE_IMM; EBPF_OP_JSGE_REG; EBPF_OP_CALL;
   EBPF_OP_EXIT; EBPF_OP_JLT_IMM; EBPF_OP_JLT_REG; EBPF_OP_JLE_IMM; EBPF_OP_JLE_REG; EBPF_OP_JSLT_IMM;
   EBPF_OP_JSLT_REG; EBPF_OP_JSLE_IMM; EBPF_OP_JSLE_REG; EBPF_OP_JEQ32_IMM; EBPF_OP_JEQ32_REG;
   EBPF_OP_JGT32_IMM; EBPF_OP_JGT32_REG; EBPF_OP_JGE32_IMM; EBPF_OP_JGE32_REG; EBPF_OP_JSET32_REG;
   EBPF_OP_JSET32_IMM; EBPF_OP_JNE32_IMM; EBPF_OP_JNE32_REG; EBPF_OP_JSGT32_IMM; EBPF_OP_JSGT32_REG;
   EBPF_OP_JSGE32_IMM; EBPF_OP_JSGE32_REG; EBPF_OP_JLT32_IMM; EBPF_OP_JLT32_REG; EBPF_OP_JLE32_IMM;
   EBPF_OP_JLE32_REG; EBPF_OP_JSLT32_IMM; EBPF_OP_JSLT32_REG; EBPF_OP_JSLE32_IMM; EBPF_OP_JSLE32_REG].
(** The opcodes of ebpf_inst.h. *)
Definition jit_ops : list ebpf_op :=
  ubpf_ops ++ [EBPF_ATOMIC_OPCODE_32; EBPF_ATOMIC_OPCODE_64; EBPF_OP_BYTESWAP; EBPF_OP_JA_IMM].

(** The opcode that a byte stands for; a [switch] on the byte goes to the case of it. *)
Definition find_op (ops : list ebpf_op) (c : Z) : option ebpf_op := snd <$> list_find (λ o, op_code o = c) ops.

(** ** Memory *)

Abbreviation memory := (gmap Z Z).

(** [n] bytes from address [a] on; [None] when one of them is not mapped. *)
Fixpoint mem_load (m : memory) (a : Z) (n : nat) : option (list Z) :=
  match n with
  | O => Some []
  | S n => b ← m !! a; bs ← mem_load m (a + 1) n; Some (b :: bs)
  end.
Fixpoint mem_store (m : memory) (a : Z) (bs : list Z) : option memory :=
  match bs with
  | [] => Some m
  | b :: bs => _ ← m !! a; mem_store (<[a := b]> m) (a + 1) bs
  end.

(** The addresses from [a] on, [n] of them, are mapped. *)
Definition mapped (m : memory) (a : Z) (n : Z) : Prop := ∀ i, a ≤ i < a + n → is_Some (m !! i).

(** ** Facts *)

Lemma find_op_code o : find_op jit_ops (op_code o) = Some o.
Proof. by destruct o; vm_compute. Qed.

#[export] Instance op_code_inj : Inj (=) (=) op_code.
Proof. intros a b H. pose proof (find_op_code a) as Ha. rewrite H, find_op_code in Ha. congruence. Qed.

#[export] Instance ebpf_op_eq_dec : EqDecision ebpf_op.
Proof. intros a b. destruct (decide (op_code a = op_code b)) as [H|H]; [left; by apply (inj op_code)|right; congruence]. Defined.

Lemma find_op_Some ops c o : find_op ops c = Some o → op_code o = c.
Proof. unfold find_op. intros ([i x]&H&->)%fmap_Some. by apply list_find_Some in H as (_&?&_). Qed.

Lemma find_op_elem ops c o : find_op ops c = Some o → o ∈ ops.
Proof. unfold find_op. intros ([i x]&Hf&->)%fmap_Some. apply list_find_Some in Hf as (Hk&_). by eapply list_elem_of_lookup_2. Qed.

Lemma op_code_bound o : 0 < op_code o < 2 ^ 8.
Proof. destruct o; vm_compute; done. Qed.

Lemma inst_of_value_wf v : inst_wf (inst_of_value v).
Proof.
  unfold inst_wf, inst_of_value. cbn [i_opcode i_dst i_src i_offset i_imm].
  pose proof (s16_bound (v / 2 ^ 16)). pose proof (s32_bound (v / 2 ^ 32)). unfold u8.
  repeat split; try lia; apply Z.mod_pos_bound; lia.
Qed.

Lemma inst_value_bound i : 0 ≤ inst_value i < 2 ^ 64.
Proof.
  unfold inst_value, u8, u16, u32.
  pose proof (Z.mod_pos_bound (i_opcode i) (2 ^ 8) ltac:(lia)). pose proof (Z.mod_pos_bound (i_dst i) (2 ^ 4) ltac:(lia)).
  pose proof (Z.mod_pos_bound (i_src i) (2 ^ 4) ltac:(lia)). pose proof (Z.mod_pos_bound (i_offset i) (2 ^ 16) ltac:(lia)).
  pose proof (Z.mod_pos_bound (i_imm i) (2 ^ 32) ltac:(lia)). lia.
Qed.

(** Encoding and decoding are inverses. *)
Lemma inst_of_value_value i : inst_wf i → inst_of_value (inst_value i) = i.
Proof.
  destruct i as [op d sr off im]. unfold inst_wf. cbn [i_opcode i_dst i_src i_offset i_imm]. intros (Ho&Hd&Hs&Hf&Hi).
  unfold inst_of_value, inst_value. cbn [i_opcode i_dst i_src i_offset i_imm]. unfold u8.
  rewrite (Z.mod_small op), (Z.mod_small d), (Z.mod_small sr) by lia.
  pose proof (Z.mod_pos_bound off (2 ^ 16) ltac:(lia)) as Hof. pose proof (Z.mod_pos_bound im (2 ^ 32) ltac:(lia)) as Him.
  fold (u16 off) in *. fold (u32 im) in *. set (v := op + _ + _ + _ + _).
  assert (v / 2 ^ 32 = u32 im) as ->. { symmetry. apply (Z.div_unique_pos _ _ _ (op + 2 ^ 8 * d + 2 ^ 12 * sr + 2 ^ 16 * u16 off)); lia. }
  assert (v / 2 ^ 16 = u16 off + 2 ^ 16 * u32 im) as ->. { symmetry. apply (Z.div_unique_pos _ _ _ (op + 2 ^ 8 * d + 2 ^ 12 * sr)); lia. }
  assert (v / 2 ^ 12 = sr + 2 ^ 4 * (u16 off + 2 ^ 16 * u32 im)) as ->. { symmetry. apply (Z.div_unique_pos _ _ _ (op + 2 ^ 8 * d)); lia. }
  assert (v / 2 ^ 8 = d + 2 ^ 4 * (sr + 2 ^ 4 * (u16 off + 2 ^ 16 * u32 im))) as ->. { symmetry. apply (Z.div_unique_pos _ _ _ op); lia. }
  f_equal.
  - unfold v. rewrite <- (Z.mod_small op (2 ^ 8)) at 2 by lia.
    rewrite <- (Z_mod_plus_full op (d + 2 ^ 4 * sr + 2 ^ 8 * u16 off + 2 ^ 24 * u32 im)). f_equal. lia.
  - rewrite Z.mul_comm, Z_mod_plus_full, Z.mod_small; lia.
  - rewrite Z.mul_comm, Z_mod_plus_full, Z.mod_small; lia.
  - rewrite <- s16_u16. unfold u16 at 1. rewrite Z.mul_comm, Z_mod_plus_full. fold (u16 (u16 off)). rewrite !s16_u16. by apply s16_small.
  - rewrite s32_u32. by apply s32_signed.
Qed.

Lemma inst_value_of_value v : 0 ≤ v < 2 ^ 64 → inst_value (inst_of_value v) = v.
Proof.
  intros Hv. unfold inst_value, inst_of_value. cbn [i_opcode i_dst i_src i_offset i_imm].
  rewrite u16_s16, u32_s32. unfold u8, u16, u32. rewrite !Z.mod_mod by lia.
  rewrite (Z.mod_small (v / 2 ^ 32)) by (split; [apply Z.div_pos|apply Z.div_lt_upper_bound]; lia).
  Z.to_euclidean_division_equations. nia.
Qed.

Lemma mem_load_is_Some m a n : mapped m a (Z.of_nat n) → is_Some (mem_load m a n).
Proof.
  revert a. induction n as [|n IH]; intros a Hm; [by eexists|]. cbn [mem_load].
  destruct (Hm a ltac:(lia)) as [b ->]. cbn [mbind option_bind].
  destruct (IH (a + 1)) as [bs ->]; [|by eexists]. intros i Hi. apply Hm. lia.
Qed.

Lemma mem_store_is_Some m a bs : mapped m a (zlen bs) → is_Some (mem_store m a bs).
Proof.
  revert m a. induction bs as [|b bs IH]; intros m a Hm; [by eexists|]. rewrite zlen_cons in Hm. pose proof (zlen_nonneg bs).
  cbn [mem_store]. destruct (Hm a ltac:(lia)) as [b' ->]. cbn [mbind option_bind].
  apply IH. intros i Hi. rewrite lookup_insert_ne by lia. apply Hm. lia.
Qed.

(** What is mapped does not change. *)
Lemma mem_store_dom m a bs m' : mem_store m a bs = Some m' → ∀ i, is_Some (m' !! i) ↔ is_Some (m !! i).
Proof.
  revert m a. induction bs as [|b bs IH]; intros m a; cbn [mem_store]; [by intros [= ->]|].
  destruct (m !! a) as [c|] eqn:E; [|done]. cbn [mbind option_bind]. intros H i. rewrite (IH _ _ H).
  destruct (decide (a = i)) as [->|]; [rewrite lookup_insert_eq, E|rewrite lookup_insert_ne by done]; split; eauto.
Qed.

Lemma mem_store_mapped m a bs m' : mem_store m a bs = Some m' → mapped m a (zlen bs).
Proof.
  revert m a. induction bs as [|b bs IH]; intros m a; cbn [mem_store]; [intros _ i; rewrite zlen_nil; lia|].
  destruct (m !! a) as [c|] eqn:E; [|done]. cbn [mbind option_bind]. rewrite zlen_cons. intros Hst i Hi.
  destruct (decide (i = a)) as [->|]; [by eexists|]. specialize (IH _ _ Hst i ltac:(lia)). by rewrite lookup_insert_ne in IH by lia.
Qed.

Lemma mem_store_outside m a bs m' i : mem_store m a bs = Some m' → (i < a ∨ a + zlen bs ≤ i) → m' !! i = m !! i.
Proof.
  revert m a. induction bs as [|b bs IH]; intros m a; cbn [mem_store]; [by intros [= ->]|].
  destruct (m !! a) as [c|] eqn:E; [|done]. cbn [mbind option_bind]. rewrite zlen_cons. pose proof (zlen_nonneg bs).
  intros Hst Hi. rewrite (IH _ _ Hst) by lia. by rewrite lookup_insert_ne by lia.
Qed.

Lemma mem_load_store m a bs m' : mem_store m a bs = Some m' → mem_load m' a (length bs) = Some bs.
Proof.
  revert m a. induction bs as [|b bs IH]; intros m a; cbn [mem_store mem_load length]; [done|].
  destruct (m !! a) as [c|] eqn:E; [|done]. cbn [mbind option_bind]. intros H.
  rewrite (mem_store_outside _ _ _ _ a H), lookup_insert_eq by lia. cbn [mbind option_bind]. by rewrite (IH _ _ H).
Qed.

Lemma mem_load_length m a n bs : mem_load m a n = Some bs → length bs = n.
Proof.
  revert a bs. induction n as [|n IH]; intros a bs; cbn [mem_load]; [by intros [= <-]|].
  destruct (m !! a); [|done]. cbn [mbind option_bind]. destruct (mem_load m (a + 1) n) eqn:E; [|done].
  intros [= <-]. cbn [length]. f_equal. by eapply IH.
Qed.
