(* ===== verification/UbpfVm.v ===== *)
(** * The uBPF virtual machine

    The loader, the validator and the interpreter of third_party/ubpf/vm/ubpf_vm.c. Instructions are kept
    xor-ed with the address of the array and a secret. The interpreter runs on the memory of the process,
    and what C leaves undefined is a value of [undef]: an access to an instruction or a byte that is not
    there, a shift by a count out of range, the negation of the least integer, a call of a null pointer.
    Registers have an unknown content when a program starts, which is an argument of [ubpf_exec], as are
    the address of its stack and what allocations return. *)

From stdpp Require Import base numbers list strings gmap.
From S2P Require Import Prelude.
From S2P Require Import EbpfIsa.

Definition UBPF_MAX_INSTS : Z := 65536.
Definition UBPF_STACK_SIZE : Z := 512.
Definition UBPF_MAX_CALL_DEPTH : Z := 10.
Definition MAX_EXT_FUNCS : Z := 64.
Definition UINT32_MAX : Z := 2 ^ 32 - 1.
Definition INT_MAX : Z := 2 ^ 31 - 1.
Definition SHIFT_MASK_32_BIT (x : Z) : Z := Z.land x 0x1f.
Definition SHIFT_MASK_64_BIT (x : Z) : Z := Z.land x 0x3f.

(** ** The machine *)

(** A helper gets five arguments and can change the memory. *)
Definition ext_func : Type := list Z → memory → Z * memory.

(** The default functions look at the machine itself. *)
Inductive external_dispatcher := DefaultDispatcher | UserDispatcher (f : Z → ext_func).
Inductive external_validator := DefaultValidator | UserValidator (f : Z → bool).

Record ubpf_vm := UbpfVm {
  vm_insts : option (Z * list Z);
  vm_num_insts : Z;
  vm_jitted : bool;
  vm_ext_funcs : list (option ext_func);
  vm_int_funcs : list bool;
  vm_ext_func_names : list (option string);
  vm_dispatcher : option external_dispatcher;
  vm_dispatcher_validate : option external_validator;
  vm_bounds_check_enabled : bool;
  vm_unwind_stack_extension_index : Z;
  vm_pointer_secret : Z;
  vm_data_relocation_registered : bool;
  vm_bounds_check_function : option (Z → Z → bool)
}.

Definition vm_set_code (vm : ubpf_vm) (insts : option (Z * list Z)) (num : Z) (jitted : bool) (int_funcs : list bool) : ubpf_vm :=
  UbpfVm insts num jitted (vm_ext_funcs vm) int_funcs (vm_ext_func_names vm) (vm_dispatcher vm) (vm_dispatcher_validate vm)
    (vm_bounds_check_enabled vm) (vm_unwind_stack_extension_index vm) (vm_pointer_secret vm) (vm_data_relocation_registered vm)
    (vm_bounds_check_function vm).

Definition vm_set_funcs (vm : ubpf_vm) (fs : list (option ext_func)) (names : list (option string)) (d : option external_dispatcher)
    (v : option external_validator) : ubpf_vm :=
  UbpfVm (vm_insts vm) (vm_num_insts vm) (vm_jitted vm) fs (vm_int_funcs vm) names d v
    (vm_bounds_check_enabled vm) (vm_unwind_stack_extension_index vm) (vm_pointer_secret vm) (vm_data_relocation_registered vm)
    (vm_bounds_check_function vm).

Definition vm_set_options (vm : ubpf_vm) (check : bool) (unwind secret : Z) (reloc : bool) (f : option (Z → Z → bool)) : ubpf_vm :=
  UbpfVm (vm_insts vm) (vm_num_insts vm) (vm_jitted vm) (vm_ext_funcs vm) (vm_int_funcs vm) (vm_ext_func_names vm)
    (vm_dispatcher vm) (vm_dispatcher_validate vm) check unwind secret reloc f.

(** The machine when no allocation fails. *)
Definition ubpf_create : ubpf_vm :=
  UbpfVm None 0 false (replicate (Z.to_nat MAX_EXT_FUNCS) None) [] (replicate (Z.to_nat MAX_EXT_FUNCS) None)
    (Some DefaultDispatcher) (Some DefaultValidator) true (-1) 0 false None.

Definition ubpf_toggle_bounds_check (vm : ubpf_vm) (enable : bool) : bool * ubpf_vm :=
  (vm_bounds_check_enabled vm,
   vm_set_options vm enable (vm_unwind_stack_extension_index vm) (vm_pointer_secret vm) (vm_data_relocation_registered vm)
     (vm_bounds_check_function vm)).

(** [idx] is unsigned. *)
Definition ubpf_register (vm : ubpf_vm) (idx : Z) (name : option string) (fn : option ext_func) : Z * ubpf_vm :=
  if MAX_EXT_FUNCS <=? idx then (-1, vm)
  else (0, vm_set_funcs vm (<[Z.to_nat idx := fn]> (vm_ext_funcs vm)) (<[Z.to_nat idx := name]> (vm_ext_func_names vm))
             (vm_dispatcher vm) (vm_dispatcher_validate vm)).

Definition ubpf_register_external_dispatcher (vm : ubpf_vm) (d : option external_dispatcher) (v : option external_validator)
  : Z * ubpf_vm := (0, vm_set_funcs vm (vm_ext_funcs vm) (vm_ext_func_names vm) d v).

Definition ubpf_set_unwind_function_index (vm : ubpf_vm) (idx : Z) : Z * ubpf_vm :=
  if negb (vm_unwind_stack_extension_index vm =? -1) then (-1, vm)
  else (0, vm_set_options vm (vm_bounds_check_enabled vm) (s32 idx) (vm_pointer_secret vm) (vm_data_relocation_registered vm)
             (vm_bounds_check_function vm)).

(** The first helper of that name; -1 as an [unsigned int] when there is none. *)
Definition ubpf_lookup_registered_function (vm : ubpf_vm) (name : string) : Z :=
  match list_find (λ n, n = Some name) (vm_ext_func_names vm) with
  | Some (i, _) => Z.of_nat i
  | None => u32 (-1)
  end.

Definition ubpf_set_pointer_secret (vm : ubpf_vm) (secret : Z) : Z * ubpf_vm :=
  match vm_insts vm with
  | Some _ => (-1, vm)
  | None => (0, vm_set_options vm (vm_bounds_check_enabled vm) (vm_unwind_stack_extension_index vm) secret
                  (vm_data_relocation_registered vm) (vm_bounds_check_function vm))
  end.

Definition ubpf_register_data_relocation (vm : ubpf_vm) : Z * ubpf_vm :=
  if vm_data_relocation_registered vm then (-1, vm)
  else (0, vm_set_options vm (vm_bounds_check_enabled vm) (vm_unwind_stack_extension_index vm) (vm_pointer_secret vm) true
             (vm_bounds_check_function vm)).

Definition ubpf_register_data_bounds_check (vm : ubpf_vm) (f : option (Z → Z → bool)) : Z * ubpf_vm :=
  match vm_bounds_check_function vm with
  | Some _ => (-1, vm)
  | None => (0, vm_set_options vm (vm_bounds_check_enabled vm) (vm_unwind_stack_extension_index vm) (vm_pointer_secret vm)
                  (vm_data_relocation_registered vm) f)
  end.

(** A helper is registered under the index. *)
Definition ubpf_default_external_validator (vm : ubpf_vm) (index : Z) : bool :=
  if index <? MAX_EXT_FUNCS then match vm_ext_funcs vm !! Z.to_nat index with Some (Some _) => true | _ => false end else false.

Definition validator_call (vm : ubpf_vm) (v : external_validator) (index : Z) : bool :=
  match v with DefaultValidator => ubpf_default_external_validator vm index | UserValidator f => f index end.

(** ** Stored instructions *)

Definition ubpf_fetch_instruction (vm : ubpf_vm) (pc : Z) : option ebpf_inst :=
  '(base, ws) ← vm_insts vm;
  w ← ws !! Z.to_nat (u16 pc);
  Some (inst_of_value (Z.lxor (Z.lxor w base) (vm_pointer_secret vm))).

(** The array after the store; the machine is not changed otherwise. *)
Definition ubpf_store_instruction (vm : ubpf_vm) (base : Z) (ws : list Z) (pc : Z) (inst : ebpf_inst) : option (list Z) :=
  let w := Z.lxor (Z.lxor (inst_value inst) base) (vm_pointer_secret vm) in
  if u16 pc <? zlen ws then Some (<[Z.to_nat (u16 pc) := w]> ws) else None.

(** ** Validation *)

(** What [validate] writes into [errmsg]. *)
Inductive verror :=
| TooManyInsts | InvalidEndian (pc : Z) | InvalidLddwSrc (pc : Z) | IncompleteLddw (pc : Z) | InfiniteLoop (pc : Z)
| JumpOutOfBounds (pc : Z) | JumpIntoLddw (pc : Z) | InvalidCallImm (pc : Z) | NonexistentFunction (idx pc : Z)
| CallOutOfBounds (pc target : Z) | CallBtf (pc : Z) | CallInvalidType (pc : Z) | UnknownOpcode (op pc : Z)
| InvalidSrc (pc : Z) | InvalidDst (pc : Z).

(** [VUndef]: an [int] overflows or a null function is called. *)
Inductive vresult (A : Type) := VOk (a : A) | VErr (e : verror) | VUndef.
Arguments VOk {A} a.
Arguments VErr {A} e.
Arguments VUndef {A}.

(** The cases of the [switch] that only break. *)
Definition is_alu_op (o : ebpf_op) : bool :=
  match o with
  | EBPF_OP_ADD_IMM | EBPF_OP_ADD_REG | EBPF_OP_SUB_IMM | EBPF_OP_SUB_REG | EBPF_OP_MUL_IMM | EBPF_OP_MUL_REG
  | EBPF_OP_DIV_REG | EBPF_OP_OR_IMM | EBPF_OP_OR_REG | EBPF_OP_AND_IMM | EBPF_OP_AND_REG | EBPF_OP_LSH_IMM
  | EBPF_OP_LSH_REG | EBPF_OP_RSH_IMM | EBPF_OP_RSH_REG | EBPF_OP_NEG | EBPF_OP_MOD_REG | EBPF_OP_XOR_IMM
  | EBPF_OP_XOR_REG | EBPF_OP_MOV_IMM | EBPF_OP_MOV_REG | EBPF_OP_ARSH_IMM | EBPF_OP_ARSH_REG
  | EBPF_OP_ADD64_IMM | EBPF_OP_ADD64_REG | EBPF_OP_SUB64_IMM | EBPF_OP_SUB64_REG | EBPF_OP_MUL64_IMM | EBPF_OP_MUL64_REG
  | EBPF_OP_DIV64_REG | EBPF_OP_OR64_IMM | EBPF_OP_OR64_REG | EBPF_OP_AND64_IMM | EBPF_OP_AND64_REG | EBPF_OP_LSH64_IMM
  | EBPF_OP_LSH64_REG | EBPF_OP_RSH64_IMM | EBPF_OP_RSH64_REG | EBPF_OP_NEG64 | EBPF_OP_MOD64_REG | EBPF_OP_XOR64_IMM
  | EBPF_OP_XOR64_REG | EBPF_OP_MOV64_IMM | EBPF_OP_MOV64_REG | EBPF_OP_ARSH64_IMM | EBPF_OP_ARSH64_REG
  | EBPF_OP_DIV_IMM | EBPF_OP_MOD_IMM | EBPF_OP_DIV64_IMM | EBPF_OP_MOD64_IMM => true
  | _ => false
  end.
Definition is_load_op (o : ebpf_op) : bool :=
  match o with EBPF_OP_LDXW | EBPF_OP_LDXH | EBPF_OP_LDXB | EBPF_OP_LDXDW => true | _ => false end.
Definition is_store_op (o : ebpf_op) : bool :=
  match o with
  | EBPF_OP_STW | EBPF_OP_STH | EBPF_OP_STB | EBPF_OP_STDW | EBPF_OP_STXW | EBPF_OP_STXH | EBPF_OP_STXB | EBPF_OP_STXDW => true
  | _ => false
  end.
Definition is_jump_op (o : ebpf_op) : bool :=
  match o with
  | EBPF_OP_JA | EBPF_OP_JEQ_REG | EBPF_OP_JEQ_IMM | EBPF_OP_JGT_REG | EBPF_OP_JGT_IMM | EBPF_OP_JGE_REG | EBPF_OP_JGE_IMM
  | EBPF_OP_JLT_REG | EBPF_OP_JLT_IMM | EBPF_OP_JLE_REG | EBPF_OP_JLE_IMM | EBPF_OP_JSET_REG | EBPF_OP_JSET_IMM
  | EBPF_OP_JNE_REG | EBPF_OP_JNE_IMM | EBPF_OP_JSGT_IMM | EBPF_OP_JSGT_REG | EBPF_OP_JSGE_IMM | EBPF_OP_JSGE_REG
  | EBPF_OP_JSLT_IMM | EBPF_OP_JSLT_REG | EBPF_OP_JSLE_IMM | EBPF_OP_JSLE_REG | EBPF_OP_JEQ32_IMM | EBPF_OP_JEQ32_REG
  | EBPF_OP_JGT32_IMM | EBPF_OP_JGT32_REG | EBPF_OP_JGE32_IMM | EBPF_OP_JGE32_REG | EBPF_OP_JSET32_REG | EBPF_OP_JSET32_IMM
  | EBPF_OP_JNE32_IMM | EBPF_OP_JNE32_REG | EBPF_OP_JSGT32_IMM | EBPF_OP_JSGT32_REG | EBPF_OP_JSGE32_IMM | EBPF_OP_JSGE32_REG
  | EBPF_OP_JLT32_IMM | EBPF_OP_JLT32_REG | EBPF_OP_JLE32_IMM | EBPF_OP_JLE32_REG | EBPF_OP_JSLT32_IMM | EBPF_OP_JSLT32_REG
  | EBPF_OP_JSLE32_IMM | EBPF_OP_JSLE32_REG => true
  | _ => false
  end.

Definition validate_jump (insts : list ebpf_inst) (i : Z) (inst : ebpf_inst) : vresult unit :=
  if i_offset inst =? -1 then VErr (InfiniteLoop i)
  else
    let new_pc := i + 1 + i_offset inst in
    if (new_pc <? 0) || (zlen insts <=? new_pc) then VErr (JumpOutOfBounds i)
    else match insts !! Z.to_nat new_pc with
         | Some t => if i_opcode t =? 0 then VErr (JumpIntoLddw i) else VOk tt
         | None => VUndef
         end.

Definition validate_call (vm : ubpf_vm) (num_insts i : Z) (inst : ebpf_inst) : vresult unit :=
  let imm := i_imm inst in
  if i_src inst =? 0 then
    if (imm <? 0) || (MAX_EXT_FUNCS <=? imm) then VErr (InvalidCallImm i)
    else
      match vm_dispatcher vm, vm_dispatcher_validate vm with
      | Some _, Some v => if validator_call vm v imm then VOk tt else VErr (NonexistentFunction imm i)
      | Some _, None => VUndef
      | None, _ => match vm_ext_funcs vm !! Z.to_nat imm with
                   | Some (Some _) => VOk tt
                   | Some None => VErr (NonexistentFunction imm i)
                   | None => VUndef
                   end
      end
  else if i_src inst =? 1 then
    if (INT_MAX <? imm + 1) || (INT_MAX <? i + (imm + 1)) then VUndef
    else
      let call_target := i + (imm + 1) in
      if (call_target <? 0) || (num_insts <? call_target) then VErr (CallOutOfBounds i call_target) else VOk tt
  else if i_src inst =? 2 then VErr (CallBtf i)
  else VErr (CallInvalidType i).

(** The [switch] on instruction [i]; the number of slots it takes. *)
Definition validate_op (vm : ubpf_vm) (insts : list ebpf_inst) (i : Z) (inst : ebpf_inst) : vresult Z :=
  match find_op ubpf_ops (i_opcode inst) with
  | None => VErr (UnknownOpcode (i_opcode inst) i)
  | Some o =>
      if is_alu_op o || is_load_op o || is_store_op o then VOk 1
      else if is_jump_op o then
        match validate_jump insts i inst with VOk _ => VOk 1 | VErr e => VErr e | VUndef => VUndef end
      else
        match o with
        | EBPF_OP_LE | EBPF_OP_BE =>
            if negb (i_imm inst =? 16) && negb (i_imm inst =? 32) && negb (i_imm inst =? 64) then VErr (InvalidEndian i) else VOk 1
        | EBPF_OP_LDDW =>
            if negb (i_src inst =? 0) then VErr (InvalidLddwSrc i)
            else if zlen insts <=? i + 1 then VErr (IncompleteLddw i)
            else match insts !! Z.to_nat (i + 1) with
                 | Some n => if negb (i_opcode n =? 0) then VErr (IncompleteLddw i) else VOk 2
                 | None => VUndef
                 end
        | EBPF_OP_CALL => match validate_call vm (zlen insts) i inst with VOk _ => VOk 1 | VErr e => VErr e | VUndef => VUndef end
        | EBPF_OP_EXIT => VOk 1
        | _ => VErr (UnknownOpcode (i_opcode inst) i)
        end
  end.

(** After an LDDW the code has moved [i] to its second half; messages name that slot. *)
Definition validate_inst (vm : ubpf_vm) (insts : list ebpf_inst) (i : Z) (inst : ebpf_inst) : vresult Z :=
  match validate_op vm insts i inst with
  | VOk n =>
      let store := match find_op ubpf_ops (i_opcode inst) with Some o => is_store_op o | None => false end in
      if 10 <? i_src inst then VErr (InvalidSrc (i + n - 1))
      else if (9 <? i_dst inst) && negb (store && (i_dst inst =? 10)) then VErr (InvalidDst (i + n - 1))
      else VOk (i + n)
  | r => r
  end.

(** The loop from [i] on; each round moves on, so as many rounds as instructions are enough. *)
Fixpoint validate_from (fuel : nat) (vm : ubpf_vm) (insts : list ebpf_inst) (i : Z) : vresult unit :=
  match insts !! Z.to_nat i with
  | None => VOk tt
  | Some inst =>
      match fuel with
      | O => VOk tt
      | S fuel =>
          match validate_inst vm insts i inst with
          | VOk i => validate_from fuel vm insts i
          | VErr e => VErr e
          | VUndef => VUndef
          end
      end
  end.

Definition validate (vm : ubpf_vm) (insts : list ebpf_inst) : vresult unit :=
  if UBPF_MAX_INSTS <=? zlen insts then VErr TooManyInsts else validate_from (length insts) vm insts 0.

(** ** Loading *)

(** The loop that marks local functions and stores the instructions. *)
Fixpoint load_insts (vm : ubpf_vm) (base i : Z) (src : list ebpf_inst) (ws : list Z) (int_funcs : list bool)
  : option (list Z * list bool) :=
  match src with
  | [] => Some (ws, int_funcs)
  | inst :: src =>
      fs ← (if (i_opcode inst =? op_code EBPF_OP_CALL) && (i_src inst =? 1) then
              let target := u32 (i + i_imm inst + 1) in
              if target <? zlen int_funcs then Some (<[Z.to_nat target := true]> int_funcs) else None
            else Some int_funcs);
      ws ← ubpf_store_instruction vm base ws i inst;
      load_insts vm base (i + 1) src ws fs
  end.

(** [insts_mem] is what [malloc] returns for the instructions, [funcs_mem] whether [calloc] gives the
    array of marks. The code is [code_len] bytes at [code]. *)
Definition ubpf_load (vm : ubpf_vm) (code : list ebpf_inst) (code_len : Z) (insts_mem : option Z) (funcs_mem : bool)
  : res unit * option verror * ubpf_vm :=
  match vm_insts vm with
  | Some _ => (Raw (-1), None, vm)
  | None =>
      if negb (code_len mod 8 =? 0) then (Raw (-1), None, vm)
      else if zlen code <? code_len / 8 then (Fault, None, vm)
      else
        let insts := take (Z.to_nat (code_len / 8)) code in
        match validate vm insts with
        | VUndef => (Fault, None, vm)
        | VErr e => (Raw (-1), Some e, vm)
        | VOk _ =>
            match insts_mem with
            | None => (Raw (-1), None, vm)
            | Some base =>
                let ws := replicate (length insts) 0 in
                let vm := vm_set_code vm (Some (base, ws)) (u16 (code_len / 8)) (vm_jitted vm) (vm_int_funcs vm) in
                if negb funcs_mem then (Raw (-1), None, vm)
                else
                  match load_insts vm base 0 insts ws (replicate (Z.to_nat (vm_num_insts vm)) false) with
                  | None => (Fault, None, vm)
                  | Some (ws, fs) => (Ok tt, None, vm_set_code vm (Some (base, ws)) (vm_num_insts vm) (vm_jitted vm) fs)
                  end
            end
        end
  end.

Definition ubpf_unload_code (vm : ubpf_vm) : ubpf_vm :=
  match vm_insts vm with
  | Some _ => vm_set_code vm None 0 false (vm_int_funcs vm)
  | None => vm_set_code vm None (vm_num_insts vm) false (vm_int_funcs vm)
  end.

(** ** Execution *)

Inductive undef := UndefFetch | UndefMemory (addr size : Z) | UndefShift | UndefNegate | UndefCall.

(** [UINT32_MAX] is an [unsigned int]. *)
Definition mask32 (x : Z) : Z := Z.land x UINT32_MAX.

(** [htobe16] and the like on a little-endian machine. *)
Definition bswap (n : nat) (x : Z) : Z := le_load (rev (le_store n x)).

(** The 32-bit operations: the value of the destination register from the values [d] and [s] of the
    registers and the immediate; [None] for other opcodes. An immediate used with a register is converted
    to [uint64_t]. *)
Definition alu32 (o : ebpf_op) (d s imm : Z) : option (Z + undef) :=
  let ret x := Some (inl x) in
  match o with
  | EBPF_OP_ADD_IMM => ret (mask32 (u64 (d + u64 imm)))
  | EBPF_OP_ADD_REG => ret (mask32 (u64 (d + s)))
  | EBPF_OP_SUB_IMM => ret (mask32 (u64 (d - u64 imm)))
  | EBPF_OP_SUB_REG => ret (mask32 (u64 (d - s)))
  | EBPF_OP_MUL_IMM => ret (mask32 (u64 (d * u64 imm)))
  | EBPF_OP_MUL_REG => ret (mask32 (u64 (d * s)))
  | EBPF_OP_DIV_IMM => ret (mask32 (if u32 imm =? 0 then 0 else u32 d / u32 imm))
  | EBPF_OP_DIV_REG => ret (mask32 (if u32 s =? 0 then 0 else u32 d / u32 s))
  | EBPF_OP_OR_IMM => ret (mask32 (Z.lor d (u64 imm)))
  | EBPF_OP_OR_REG => ret (mask32 (Z.lor d s))
  | EBPF_OP_AND_IMM => ret (mask32 (Z.land d (u64 imm)))
  | EBPF_OP_AND_REG => ret (mask32 (Z.land d s))
  | EBPF_OP_LSH_IMM => ret (mask32 (u32 (Z.shiftl (u32 d) (SHIFT_MASK_32_BIT imm))))
  | EBPF_OP_LSH_REG => ret (mask32 (u32 (Z.shiftl (u32 d) (SHIFT_MASK_32_BIT s))))
  | EBPF_OP_RSH_IMM => ret (mask32 (Z.shiftr (u32 d) (SHIFT_MASK_32_BIT imm)))
  | EBPF_OP_RSH_REG => ret (mask32 (Z.shiftr (u32 d) (SHIFT_MASK_32_BIT s)))
  | EBPF_OP_NEG => if s64 d =? - 2 ^ 63 then Some (inr UndefNegate) else ret (mask32 (u64 (- s64 d)))
  | EBPF_OP_MOD_IMM => ret (mask32 (if u32 imm =? 0 then u32 d else u32 d mod u32 imm))
  | EBPF_OP_MOD_REG => ret (if u32 s =? 0 then u32 d else u32 d mod u32 s)
  | EBPF_OP_XOR_IMM => ret (mask32 (Z.lxor d (u64 imm)))
  | EBPF_OP_XOR_REG => ret (mask32 (Z.lxor d s))
  | EBPF_OP_MOV_IMM => ret (mask32 (u64 imm))
  | EBPF_OP_MOV_REG => ret (mask32 s)
  | EBPF_OP_ARSH_IMM =>
      if (imm <? 0) || (32 <=? imm) then Some (inr UndefShift) else ret (mask32 (u64 (Z.shiftr (s32 d) imm)))
  | EBPF_OP_ARSH_REG => if 32 <=? u32 s then Some (inr UndefShift) else ret (mask32 (u64 (Z.shiftr (s32 d) (u32 s))))
  | EBPF_OP_LE => ret (if imm =? 16 then u16 d else if imm =? 32 then u32 d else if imm =? 64 then u64 d else d)
  | EBPF_OP_BE => ret (if imm =? 16 then bswap 2 d else if imm =? 32 then bswap 4 d else if imm =? 64 then bswap 8 d else d)
  | _ => None
  end.

(** The 64-bit operations. *)
Definition alu64 (o : ebpf_op) (d s imm : Z) : option (Z + undef) :=
  let ret x := Some (inl x) in
  match o with
  | EBPF_OP_ADD64_IMM => ret (u64 (d + u64 imm))
  | EBPF_OP_ADD64_REG => ret (u64 (d + s))
  | EBPF_OP_SUB64_IMM => ret (u64 (d - u64 imm))
  | EBPF_OP_SUB64_REG => ret (u64 (d - s))
  | EBPF_OP_MUL64_IMM => ret (u64 (d * u64 imm))
  | EBPF_OP_MUL64_REG => ret (u64 (d * s))
  | EBPF_OP_DIV64_IMM => ret (if imm =? 0 then 0 else d / u64 imm)
  | EBPF_OP_DIV64_REG => ret (if s =? 0 then 0 else d / s)
  | EBPF_OP_OR64_IMM => ret (Z.lor d (u64 imm))
  | EBPF_OP_OR64_REG => ret (Z.lor d s)
  | EBPF_OP_AND64_IMM => ret (Z.land d (u64 imm))
  | EBPF_OP_AND64_REG => ret (Z.land d s)
  | EBPF_OP_LSH64_IMM => ret (u64 (Z.shiftl d (SHIFT_MASK_64_BIT imm)))
  | EBPF_OP_LSH64_REG => ret (u64 (Z.shiftl d (SHIFT_MASK_64_BIT s)))
  | EBPF_OP_RSH64_IMM => ret (Z.shiftr d (SHIFT_MASK_64_BIT imm))
  | EBPF_OP_RSH64_REG => ret (Z.shiftr d (SHIFT_MASK_64_BIT s))
  | EBPF_OP_NEG64 => ret (u64 (- d))
  | EBPF_OP_MOD64_IMM => ret (if imm =? 0 then d else d mod u64 imm)
  | EBPF_OP_MOD64_REG => ret (if s =? 0 then d else d mod s)
  | EBPF_OP_XOR64_IMM => ret (Z.lxor d (u64 imm))
  | EBPF_OP_XOR64_REG => ret (Z.lxor d s)
  | EBPF_OP_MOV64_IMM => ret (u64 imm)
  | EBPF_OP_MOV64_REG => ret s
  | EBPF_OP_ARSH64_IMM =>
      if (imm <? 0) || (64 <=? imm) then Some (inr UndefShift) else ret (u64 (Z.shiftr (s64 d) imm))
  | EBPF_OP_ARSH64_REG => if 64 <=? s then Some (inr UndefShift) else ret (u64 (Z.shiftr (s64 d) s))
  | _ => None
  end.

(** Whether a conditional jump is taken; [None] for other opcodes. *)
Definition jump_unsigned (o : ebpf_op) (d s imm : Z) : option bool :=
  match o with
  | EBPF_OP_JEQ_IMM => Some (d =? u64 imm)
  | EBPF_OP_JEQ_REG => Some (d =? s)
  | EBPF_OP_JEQ32_IMM => Some (u32 d =? u32 imm)
  | EBPF_OP_JEQ32_REG => Some (u32 d =? s)
  | EBPF_OP_JGT_IMM => Some (u32 imm <? d)
  | EBPF_OP_JGT_REG => Some (s <? d)
  | EBPF_OP_JGT32_IMM => Some (u32 imm <? u32 d)
  | EBPF_OP_JGT32_REG => Some (u32 s <? u32 d)
  | EBPF_OP_JGE_IMM => Some (u32 imm <=? d)
  | EBPF_OP_JGE_REG => Some (s <=? d)
  | EBPF_OP_JGE32_IMM => Some (u32 imm <=? u32 d)
  | EBPF_OP_JGE32_REG => Some (u32 s <=? u32 d)
  | EBPF_OP_JLT_IMM => Some (d <? u32 imm)
  | EBPF_OP_JLT_REG => Some (d <? s)
  | EBPF_OP_JLT32_IMM => Some (u32 d <? u32 imm)
  | EBPF_OP_JLT32_REG => Some (u32 d <? u32 s)
  | EBPF_OP_JLE_IMM => Some (d <=? u32 imm)
  | EBPF_OP_JLE_REG => Some (d <=? s)
  | EBPF_OP_JLE32_IMM => Some (u32 d <=? u32 imm)
  | EBPF_OP_JLE32_REG => Some (u32 d <=? u32 s)
  | EBPF_OP_JSET_IMM => Some (negb (Z.land d (u64 imm) =? 0))
  | EBPF_OP_JSET_REG => Some (negb (Z.land d s =? 0))
  | EBPF_OP_JSET32_IMM => Some (negb (Z.land (u32 d) (u32 imm) =? 0))
  | EBPF_OP_JSET32_REG => Some (negb (Z.land (u32 d) (u32 s) =? 0))
  | EBPF_OP_JNE_IMM => Some (negb (d =? u64 imm))
  | EBPF_OP_JNE_REG => Some (negb (d =? s))
  | EBPF_OP_JNE32_IMM => Some (negb (u32 d =? u32 imm))
  | EBPF_OP_JNE32_REG => Some (negb (u32 d =? u32 s))
  | _ => None
  end.

Definition jump_signed (o : ebpf_op) (d s imm : Z) : option bool :=
  match o with
  | EBPF_OP_JSGT_IMM => Some (imm <? s64 d)
  | EBPF_OP_JSGT_REG => Some (s64 s <? s64 d)
  | EBPF_OP_JSGT32_IMM => Some (s32 imm <? s32 d)
  | EBPF_OP_JSGT32_REG => Some (s32 s <? s32 d)
  | EBPF_OP_JSGE_IMM => Some (imm <=? s64 d)
  | EBPF_OP_JSGE_REG => Some (s64 s <=? s64 d)
  | EBPF_OP_JSGE32_IMM => Some (s32 imm <=? s32 d)
  | EBPF_OP_JSGE32_REG => Some (s32 s <=? s32 d)
  | EBPF_OP_JSLT_IMM => Some (s64 d <? imm)
  | EBPF_OP_JSLT_REG => Some (s64 d <? s64 s)
  | EBPF_OP_JSLT32_IMM => Some (s32 d <? s32 imm)
  | EBPF_OP_JSLT32_REG => Some (s32 d <? s32 s)
  | EBPF_OP_JSLE_IMM => Some (s64 d <=? imm)
  | EBPF_OP_JSLE_REG => Some (s64 d <=? s64 s)
  | EBPF_OP_JSLE32_IMM => Some (s32 d <=? s32 imm)
  | EBPF_OP_JSLE32_REG => Some (s32 d <=? s32 s)
  | _ => None
  end.

(** The sizes of loads and stores. *)
Definition load_size (o : ebpf_op) : option Z :=
  match o with
  | EBPF_OP_LDXW => Some 4 | EBPF_OP_LDXH => Some 2 | EBPF_OP_LDXB => Some 1 | EBPF_OP_LDXDW => Some 8
  | _ => None
  end.
(** The size and whether the value is in a register. *)
Definition store_size (o : ebpf_op) : option (Z * bool) :=
  match o with
  | EBPF_OP_STW => Some (4, false) | EBPF_OP_STH => Some (2, false)
  | EBPF_OP_STB => Some (1, false) | EBPF_OP_STDW => Some (8, false)
  | EBPF_OP_STXW => Some (4, true) | EBPF_OP_STXH => Some (2, true)
  | EBPF_OP_STXB => Some (1, true) | EBPF_OP_STXDW => Some (8, true)
  | _ => None
  end.

Definition IS_ALIGNED (x a : Z) : bool := Z.land x (a - 1) =? 0.

(** [None] when the memory is not there. *)
Definition ubpf_mem_load (m : memory) (address size : Z) : option Z :=
  bs ← mem_load m address (Z.to_nat size);
  if negb (IS_ALIGNED address size) then Some (le_load (bs ++ replicate (8 - length bs) 0))
  else if (size =? 1) || (size =? 2) || (size =? 4) || (size =? 8) then Some (le_load bs) else None.

Definition ubpf_mem_store (m : memory) (address value size : Z) : option memory :=
  if negb (IS_ALIGNED address size) then mem_store m address (take (Z.to_nat size) (le_store 8 value))
  else if (size =? 1) || (size =? 2) || (size =? 4) || (size =? 8) then mem_store m address (le_store (Z.to_nat size) value)
  else None.

Record stack_frame := StackFrame { sf_return_address : Z; sf_saved : list Z }.

(** The local variables of the interpreter: the frames in use are a list, the newest first, and [ras_index]
    is its length. *)
Record exec_state := ExecState {
  st_pc : Z;
  st_reg : list Z;
  st_mem : memory;
  st_frames : list stack_frame
}.

(** What a round of the loop does. *)
Inductive outcome := Next (s : exec_state) | Return (v : Z) (s : exec_state) | Error (s : exec_state) | Undefined (u : undef).

Definition reg (s : exec_state) (i : Z) : Z := st_reg s !!! Z.to_nat i.
Definition set_reg (s : exec_state) (i v : Z) : exec_state :=
  ExecState (st_pc s) (<[Z.to_nat i := v]> (st_reg s)) (st_mem s) (st_frames s).
Definition set_pc (s : exec_state) (pc : Z) : exec_state := ExecState pc (st_reg s) (st_mem s) (st_frames s).
Definition set_mem (s : exec_state) (m : memory) : exec_state := ExecState (st_pc s) (st_reg s) m (st_frames s).

Section exec.
Context (vm : ubpf_vm) (mem mem_len stack : Z).

(** Pointers are compared as addresses, and sums of them wrap. *)
Definition bounds_check (addr size : Z) : bool :=
  if negb (vm_bounds_check_enabled vm) then true
  else if negb (mem =? 0) && ((mem <=? addr) && (u64 (addr + size) <=? u64 (mem + mem_len))) then true
  else if (stack <=? addr) && (u64 (addr + size) <=? u64 (stack + UBPF_STACK_SIZE)) then true
  else match vm_bounds_check_function vm with Some f => f addr size | None => false end.

Definition ubpf_default_external_dispatcher (index : Z) : option ext_func := f ← vm_ext_funcs vm !! Z.to_nat index; f.

(** The function that a call of a helper runs. *)
Definition dispatch (index : Z) : option ext_func :=
  match vm_dispatcher vm with
  | Some DefaultDispatcher => ubpf_default_external_dispatcher index
  | Some (UserDispatcher f) => Some (f index)
  | None => None
  end.

Definition exec_exit (s : exec_state) : outcome :=
  match st_frames s with
  | StackFrame ra saved :: fs =>
      let s := ExecState ra (st_reg s) (st_mem s) fs in
      Next (set_reg (set_reg (set_reg (set_reg s 6 (saved !!! 0%nat)) 7 (saved !!! 1%nat)) 8 (saved !!! 2%nat)) 9 (saved !!! 3%nat))
  | [] => Return (reg s 0) s
  end.

Definition exec_call (s : exec_state) (inst : ebpf_inst) : outcome :=
  if i_src inst =? 0 then
    match dispatch (u32 (i_imm inst)) with
    | None => Undefined UndefCall
    | Some f =>
        let '(r, m) := f [reg s 1; reg s 2; reg s 3; reg s 4; reg s 5] (st_mem s) in
        let s := set_reg (set_mem s m) 0 (u64 r) in
        if (i_imm inst =? vm_unwind_stack_extension_index vm) && (reg s 0 =? 0) then Return (reg s 0) s else Next s
    end
  else if i_src inst =? 1 then
    if UBPF_MAX_CALL_DEPTH <=? zlen (st_frames s) then Error s
    else
      let frame := StackFrame (st_pc s) [reg s 6; reg s 7; reg s 8; reg s 9] in
      Next (ExecState (u16 (st_pc s + i_imm inst)) (st_reg s) (st_mem s) (frame :: st_frames s))
  else if i_src inst =? 2 then Error s
  else Next s.

(** The [switch]; [s] is the state after the fetch, with [pc] moved on. *)
Definition exec_inst (s : exec_state) (o : ebpf_op) (inst : ebpf_inst) : outcome :=
  let d := reg s (i_dst inst) in
  let r := reg s (i_src inst) in
  let alu v := match v with inl v => Next (set_reg s (i_dst inst) v) | inr u => Undefined u end in
  let jump (b : bool) := Next (if b then set_pc s (u16 (st_pc s + i_offset inst)) else s) in
  match alu32 o d r (i_imm inst), alu64 o d r (i_imm inst), jump_unsigned o d r (i_imm inst), jump_signed o d r (i_imm inst) with
  | Some v, _, _, _ | None, Some v, _, _ => alu v
  | None, None, Some b, _ | None, None, None, Some b => jump b
  | None, None, None, None =>
      match load_size o, store_size o with
      | Some size, _ =>
          let addr := u64 (r + i_offset inst) in
          if negb (bounds_check addr size) then Error s
          else match ubpf_mem_load (st_mem s) addr size with
               | Some v => Next (set_reg s (i_dst inst) v)
               | None => Undefined (UndefMemory addr size)
               end
      | None, Some (size, from_reg) =>
          let addr := u64 (d + i_offset inst) in
          if negb (bounds_check addr size) then Error s
          else match ubpf_mem_store (st_mem s) addr (if from_reg then r else u64 (i_imm inst)) size with
               | Some m => Next (set_mem s m)
               | None => Undefined (UndefMemory addr size)
               end
      | None, None =>
          match o with
          | EBPF_OP_LDDW =>
              match ubpf_fetch_instruction vm (st_pc s) with
              | None => Undefined UndefFetch
              | Some next =>
                  let v := Z.lor (u32 (i_imm inst)) (u64 (Z.shiftl (u64 (i_imm next)) 32)) in
                  Next (set_reg (set_pc s (u16 (st_pc s + 1))) (i_dst inst) v)
              end
          | EBPF_OP_JA => jump true
          | EBPF_OP_EXIT => exec_exit s
          | EBPF_OP_CALL => exec_call s inst
          | _ => Next s
          end
      end
  end.

(** A round of the loop. An opcode without a case does nothing. *)
Definition exec_step (s : exec_state) : outcome :=
  match ubpf_fetch_instruction vm (st_pc s) with
  | None => Undefined UndefFetch
  | Some inst =>
      let s := set_pc s (u16 (st_pc s + 1)) in
      match find_op ubpf_ops (i_opcode inst) with
      | Some o => exec_inst s o inst
      | None => Next s
      end
  end.

(** At most [fuel] rounds; [Next] when that is not enough. *)
Fixpoint exec_loop (fuel : nat) (s : exec_state) : outcome :=
  match fuel with
  | O => Next s
  | S fuel => match exec_step s with Next s => exec_loop fuel s | r => r end
  end.

(** [regs] is what the registers contain before the program starts. *)
Definition exec_start (regs : list Z) (m : memory) : exec_state :=
  ExecState 0 (<[10%nat := u64 (stack + UBPF_STACK_SIZE)]> (<[2%nat := mem_len]> (<[1%nat := mem]> regs))) m [].

Definition ubpf_exec (fuel : nat) (regs : list Z) (m : memory) : outcome :=
  match vm_insts vm with
  | None => Error (exec_start regs m)
  | Some _ => exec_loop fuel (exec_start regs m)
  end.
End exec.
