(* ===== verification/UbpfSafe.v ===== *)
(** * Loading and running on uBPF: safety

    What loading and validation give (every slot of a loaded program is validated or the second half of an
    LDDW, and is fetched back as it was), and what they give for the runs of the interpreter: no fetch
    outside of the program, no call of a missing helper, and no access outside of the memory argument and
    the stack; the order of calls and returns; the end of runs without backward jumps. *)

From stdpp Require Import base numbers list strings gmap.
From S2P Require Import Prelude.
From S2P Require Import EbpfIsa.
From S2P Require Import UbpfVm.

(** ** Loaded programs *)

(** The machine holds [code], and fetches it. *)
Record loaded (vm : ubpf_vm) (code : list ebpf_inst) : Prop := {
  ld_insts : is_Some (vm_insts vm);
  ld_len : zlen code < UBPF_MAX_INSTS;
  ld_fetch : ∀ pc, 0 ≤ pc < UBPF_MAX_INSTS → ubpf_fetch_instruction vm pc = code !! Z.to_nat pc
}.

Lemma lxor_twice v b s : Z.lxor (Z.lxor (Z.lxor (Z.lxor v b) s) b) s = v.
Proof.
  rewrite (Z.lxor_assoc (Z.lxor v b) s b), (Z.lxor_comm s b), <- Z.lxor_assoc, (Z.lxor_assoc v b b), Z.lxor_nilpotent, Z.lxor_0_r.
  by rewrite Z.lxor_assoc, Z.lxor_nilpotent, Z.lxor_0_r.
Qed.

(** The words of the instructions. *)
Definition encode (vm : ubpf_vm) (base : Z) (i : ebpf_inst) : Z := Z.lxor (Z.lxor (inst_value i) base) (vm_pointer_secret vm).

Lemma load_insts_words vm base src : ∀ i ws fs ws' fs',
  0 ≤ i → i + zlen src ≤ zlen ws → zlen ws < UBPF_MAX_INSTS →
  load_insts vm base i src ws fs = Some (ws', fs') →
  ws' = take (Z.to_nat i) ws ++ (encode vm base <$> src) ++ drop (Z.to_nat i + length src) ws ∧ length fs' = length fs.
Proof.
  induction src as [|inst src IH]; intros i ws fs ws' fs' Hi Hl Hn; cbn [load_insts].
  { intros [= <- <-]. split; [|done]. cbn [fmap list_fmap app length]. by rewrite Nat.add_0_r, take_drop. }
  rewrite zlen_cons in Hl. pose proof (zlen_nonneg src). unfold UBPF_MAX_INSTS in *.
  destruct (if _ && _ then _ else _) as [fs1|] eqn:Ef; [|done]. cbn [mbind option_bind].
  unfold ubpf_store_instruction. rewrite u16_small by lia. destruct (Z.ltb_spec i (zlen ws)); [|lia]. cbn [mbind option_bind].
  fold (encode vm base inst). intros Hld. assert (Hfs : length fs1 = length fs).
  { destruct (_ && _); [|by injection Ef as ->]. destruct (_ <? _); [|done]. injection Ef as <-. by rewrite length_insert. }
  apply IH in Hld as [-> ->]; [|lia|unfold zlen in *; rewrite length_insert; lia..]. split; [|done].
  replace (Z.to_nat (i + 1)) with (S (Z.to_nat i)) by lia. cbn [fmap list_fmap app length].
  rewrite (take_S_r _ _ (encode vm base inst)) by (rewrite list_lookup_insert_eq; [done|unfold zlen in *; lia]).
  rewrite take_insert_ge, drop_insert_lt by lia. rewrite <- app_assoc. cbn [app]. do 4 f_equal. lia.
Qed.

(** A successful load: the code is valid, and the machine holds it; nothing else of it changes. *)
Lemma ubpf_load_inv vm code base fm e vm' :
  ubpf_load vm code (8 * zlen code) (Some base) fm = (Ok tt, e, vm') →
  validate vm code = VOk tt ∧
  ∃ fs, vm' = vm_set_code vm (Some (base, encode vm base <$> code)) (zlen code) (vm_jitted vm) fs.
Proof.
  unfold ubpf_load. destruct (vm_insts vm) eqn:Ei; [done|]. rewrite Z.mul_comm, Z.mod_mul, Z.div_mul by lia. cbn [Z.eqb negb].
  rewrite Z.ltb_irrefl. rewrite !(take_ge code) by (unfold zlen; lia).
  destruct (validate vm code) as [[]|?|] eqn:Ev; [|done..].
  assert (zlen code < UBPF_MAX_INSTS).
  { unfold validate in Ev. destruct (Z.leb_spec UBPF_MAX_INSTS (zlen code)); [done|lia]. }
  pose proof (zlen_nonneg code). unfold UBPF_MAX_INSTS in *. rewrite u16_small by lia.
  destruct fm; [|done]. cbn [negb vm_num_insts vm_set_code vm_jitted].
  set (vm1 := vm_set_code _ _ _ _ _). destruct (load_insts _ _ _ _ _ _) as [[ws fs]|] eqn:El; [|done]. intros [= <- <-].
  apply load_insts_words in El as [-> _]; [|lia|rewrite zlen_replicate_nat; unfold zlen, UBPF_MAX_INSTS in *; lia..].
  split; [done|]. exists fs. rewrite drop_ge by (rewrite length_replicate; lia). cbn [Z.to_nat take app]. by rewrite app_nil_r.
Qed.

Lemma load_loaded vm code base fm e vm' :
  Forall inst_wf code → ubpf_load vm code (8 * zlen code) (Some base) fm = (Ok tt, e, vm') → loaded vm' code.
Proof.
  intros Hwf Hl. apply ubpf_load_inv in Hl as [Hv [fs ->]].
  assert (Hn : zlen code < UBPF_MAX_INSTS).
  { unfold validate in Hv. destruct (Z.leb_spec UBPF_MAX_INSTS (zlen code)); [done|lia]. }
  split; [by eexists|done|]. intros pc Hpc. unfold ubpf_fetch_instruction. cbn [vm_insts vm_set_code vm_pointer_secret mbind option_bind].
  unfold UBPF_MAX_INSTS in *. rewrite u16_small by lia. rewrite list_lookup_fmap.
  destruct (code !! Z.to_nat pc) as [i|] eqn:E; cbn [fmap option_fmap option_map mbind option_bind]; [|done].
  unfold encode. rewrite lxor_twice. f_equal. apply inst_of_value_value. by eapply Forall_lookup_1.
Qed.

(** ** Validated slots *)

(** What the validator has established of slot [i]. *)
Definition slot_ok (vm : ubpf_vm) (code : list ebpf_inst) (i : Z) : Prop :=
  ∃ inst, code !! Z.to_nat i = Some inst ∧ ((∃ j, validate_inst vm code i inst = VOk j) ∨ i_opcode inst = 0).

Lemma validate_inst_next vm code i inst j : validate_inst vm code i inst = VOk j →
  (j = i + 1 ∨ (j = i + 2 ∧ find_op ubpf_ops (i_opcode inst) = Some EBPF_OP_LDDW ∧
    ∃ n, code !! Z.to_nat (i + 1) = Some n ∧ i_opcode n = 0)).
Proof.
  unfold validate_inst. destruct (validate_op vm code i inst) as [n|?|] eqn:Ho; [|done..].
  destruct (10 <? i_src inst); [done|]. destruct (_ && _); [done|]. intros [= <-]. revert Ho. unfold validate_op.
  destruct (find_op ubpf_ops (i_opcode inst)) as [o|]; [|done]. destruct (_ || _ || _); [intros [= <-]; by left|].
  destruct (is_jump_op o); [destruct (validate_jump _ _ _); intros [= <-]; by left|].
  destruct o; try done; repeat case_match; try done; intros [= <-]; try (by left).
  right. bool_to_prop. eauto.
Qed.

Lemma validate_from_slots vm code fuel : ∀ i,
  0 ≤ i → zlen code - i ≤ Z.of_nat fuel → validate_from fuel vm code i = VOk tt →
  ∀ j, i ≤ j < zlen code → slot_ok vm code j.
Proof.
  induction fuel as [|fuel IH]; intros i Hi Hf Hv j Hj; [lia|]. cbn [validate_from] in Hv.
  destruct (lookup_lt_is_Some_2 code (Z.to_nat i)) as [inst Hinst]; [unfold zlen in *; lia|]. rewrite Hinst in Hv.
  destruct (validate_inst vm code i inst) as [k|?|] eqn:Ei; [|done..].
  destruct (decide (j = i)) as [->|]; [exists inst; eauto|].
  destruct (validate_inst_next _ _ _ _ _ Ei) as [->|(->&_&i2&Hi2&Hz)]; [apply (IH (i + 1)); auto; lia|].
  destruct (decide (j = i + 1)) as [->|]; [exists i2; auto|]. apply (IH (i + 2)); auto; lia.
Qed.

Lemma validate_slots vm code : validate vm code = VOk tt → ∀ i, 0 ≤ i < zlen code → slot_ok vm code i.
Proof.
  unfold validate. destruct (_ <=? _); [done|]. intros Hv i Hi. eapply validate_from_slots; [| |exact Hv|done]; unfold zlen; lia.
Qed.

(** ** Safety of runs *)

Definition in_u64 (x : Z) : Prop := 0 ≤ x < 2 ^ 64.

(** The last slot is one that execution does not go on from. *)
Definition ends (code : list ebpf_inst) : Prop :=
  ∃ inst, last code = Some inst ∧ (i_opcode inst = op_code EBPF_OP_EXIT ∨ i_opcode inst = op_code EBPF_OP_JA).

(** Local calls stay before the end. *)
Definition calls_inside (code : list ebpf_inst) : Prop :=
  ∀ i inst, code !! i = Some inst → i_opcode inst = op_code EBPF_OP_CALL → i_src inst = 1 →
    Z.of_nat i + i_imm inst + 1 ≠ zlen code.

(** The validator answers for the functions that calls run. *)
Definition dispatch_ok (vm : ubpf_vm) : Prop :=
  (vm_dispatcher vm = Some DefaultDispatcher ∧ vm_dispatcher_validate vm = Some DefaultValidator) ∨
  (∃ f, vm_dispatcher vm = Some (UserDispatcher f)).

(** Whether a jump is taken. *)
Definition jump_taken (o : ebpf_op) (d s imm : Z) (b : bool) : Prop :=
  o = EBPF_OP_JA ∧ b = true ∨ jump_unsigned o d s imm = Some b ∨ jump_signed o d s imm = Some b.

(** The cases of the [switch]. *)
Lemma exec_inst_cases vm mem len stack s o inst (P : outcome → Prop) :
  let d := reg s (i_dst inst) in
  let r := reg s (i_src inst) in
  (∀ v, alu32 o d r (i_imm inst) = Some (inl v) ∨ alu64 o d r (i_imm inst) = Some (inl v) → P (Next (set_reg s (i_dst inst) v))) →
  (∀ u, alu32 o d r (i_imm inst) = Some (inr u) ∨ alu64 o d r (i_imm inst) = Some (inr u) → P (Undefined u)) →
  (∀ b : bool, is_jump_op o = true → jump_taken o d r (i_imm inst) b → P (Next (if b then set_pc s (u16 (st_pc s + i_offset inst)) else s))) →
  (∀ size, load_size o = Some size → let addr := u64 (r + i_offset inst) in
    P (if negb (bounds_check vm mem len stack addr size) then Error s
       else match ubpf_mem_load (st_mem s) addr size with
            | Some v => Next (set_reg s (i_dst inst) v) | None => Undefined (UndefMemory addr size) end)) →
  (∀ size (b : bool), store_size o = Some (size, b) → let addr := u64 (d + i_offset inst) in
    P (if negb (bounds_check vm mem len stack addr size) then Error s
       else match ubpf_mem_store (st_mem s) addr (if b then r else u64 (i_imm inst)) size with
            | Some m => Next (set_mem s m) | None => Undefined (UndefMemory addr size) end)) →
  (o = EBPF_OP_LDDW → P (match ubpf_fetch_instruction vm (st_pc s) with
     | None => Undefined UndefFetch
     | Some next => Next (set_reg (set_pc s (u16 (st_pc s + 1))) (i_dst inst)
                           (Z.lor (u32 (i_imm inst)) (u64 (Z.shiftl (u64 (i_imm next)) 32)))) end)) →
  (o = EBPF_OP_EXIT → P (exec_exit s)) →
  (o = EBPF_OP_CALL → P (exec_call vm s inst)) →
  (o ∉ ubpf_ops → P (Next s)) →
  P (exec_inst vm mem len stack s o inst).
Proof.
  intros d r Halu Hund Hj Hl Hs Hd He Hc Hn. unfold exec_inst. fold d r.
  destruct o; cbn [alu32 alu64 jump_unsigned jump_signed load_size store_size]; try (by apply Halu; eauto);
    try (apply Hj; [done|by right; auto]); try (by apply (Hl _ eq_refl)); try (by apply (Hs _ _ eq_refl)); auto;
    try (apply Hn; by vm_compute; set_solver);
    try (match goal with |- P (match (if ?c then _ else _) with _ => _ end) => destruct c eqn:E end;
         [apply Hund|apply Halu]; cbn [alu32 alu64]; rewrite E; auto).
  apply (Hj true); [done|by left].
Qed.

Lemma mask32_u32 x : mask32 x = u32 x.
Proof. unfold mask32, u32. change UINT32_MAX with (Z.ones 32). by rewrite Z.land_ones. Qed.

Lemma u32_in_u64 x : in_u64 (u32 x).
Proof. pose proof (u32_bound x). unfold in_u64. lia. Qed.
Lemma u64_in_u64 x : in_u64 (u64 x).
Proof. apply u64_bound. Qed.

Lemma div_in_u64 a b : in_u64 a → 0 ≤ b → in_u64 (a / b).
Proof.
  unfold in_u64. intros Ha Hb. destruct (decide (b = 0)) as [->|]; [rewrite Zdiv_0_r; lia|].
  split; [apply Z.div_pos; lia|]. apply Z.div_lt_upper_bound; nia.
Qed.
Lemma mod_in_u64 a b : in_u64 a → 0 ≤ b → in_u64 (a mod b).
Proof.
  unfold in_u64. intros Ha Hb. destruct (decide (b = 0)) as [->|]; [rewrite Zmod_0_r; lia|].
  pose proof (Z.mod_pos_bound a b). pose proof (Z.mod_le a b). lia.
Qed.

Lemma land_5 x : 0 ≤ Z.land x 0x1f < 32.
Proof. change 0x1f with (Z.ones 5). rewrite Z.land_ones by lia. apply Z.mod_pos_bound. lia. Qed.
Lemma land_6 x : 0 ≤ Z.land x 0x3f < 64.
Proof. change 0x3f with (Z.ones 6). rewrite Z.land_ones by lia. apply Z.mod_pos_bound. lia. Qed.

Lemma le_load_in_u64 bs : (length bs ≤ 8)%nat → in_u64 (le_load bs).
Proof.
  intros Hl. pose proof (le_load_bound bs) as Hb. unfold in_u64. change (2 ^ 64) with (256 ^ 8).
  pose proof (Z.pow_le_mono_r 256 (zlen bs) 8 ltac:(lia) ltac:(unfold zlen; lia)). lia.
Qed.

Lemma bswap_in_u64 n x : (n ≤ 8)%nat → in_u64 (bswap n x).
Proof. intros. apply le_load_in_u64. by rewrite length_rev, length_le_store. Qed.

Create HintDb u64.
#[local] Hint Resolve u32_in_u64 u64_in_u64 div_in_u64 mod_in_u64 : u64.

(** Registers stay 64-bit values, and only arithmetic is undefined. *)
Lemma alu32_typed o d s imm v : in_u64 d → in_u64 s → alu32 o d s imm = Some (inl v) → in_u64 v.
Proof.
  intros Hd Hs Ha. pose proof (u16_bound d). pose proof (u32_bound s). pose proof (u32_bound imm).
  destruct o; try done; cbn [alu32] in Ha; repeat case_match; try done; injection Ha as <-; rewrite ?mask32_u32;
    eauto with u64; try (apply bswap_in_u64; lia); unfold in_u64 in *; lia || idtac.
  apply mod_in_u64; [apply u32_in_u64|lia].
Qed.

Lemma alu64_typed o d s imm v : in_u64 d → in_u64 s → alu64 o d s imm = Some (inl v) → in_u64 v.
Proof.
  intros Hd Hs Ha. pose proof (u64_bound imm) as Hi. pose proof (land_6 imm). pose proof (land_6 s). unfold in_u64 in *.
  destruct o; try done; cbn [alu64] in Ha; repeat case_match; try done; injection Ha as <-; try apply u64_bound; try lia;
    try (by apply lor_bound; lia); try (by apply land_bound; lia); try (by apply lxor_bound; lia);
    try (by apply shiftr_bound; unfold SHIFT_MASK_64_BIT; lia); apply div_in_u64 || apply mod_in_u64; unfold in_u64; lia.
Qed.

Lemma alu_undef o d s imm u : alu32 o d s imm = Some (inr u) ∨ alu64 o d s imm = Some (inr u) → u = UndefShift ∨ u = UndefNegate.
Proof. destruct o; cbn [alu32 alu64]; intros [Ha|Ha]; repeat case_match; simplify_eq; auto. Qed.

Section safe.
Context (vm : ubpf_vm) (code : list ebpf_inst) (mem mem_len stack : Z).

(** The memory argument and the stack are there, and the last byte of the address space is not. *)
Record env_ok (m : memory) : Prop := {
  eo_mem : mem ≠ 0 → mapped m mem mem_len;
  eo_stack : mapped m stack UBPF_STACK_SIZE;
  eo_top : ∀ i, is_Some (m !! i) → i < 2 ^ 64 - 1
}.

(** Addresses that the program may use. *)
Definition inside (i : Z) : Prop := (mem ≠ 0 ∧ mem ≤ i < mem + mem_len) ∨ stack ≤ i < stack + UBPF_STACK_SIZE.

Definition agree_outside (m m' : memory) : Prop := ∀ i, ¬ inside i → m' !! i = m !! i.

(** What is known of the machine, of helpers and of the addresses. *)
Record run_ok (vm0 : ubpf_vm) : Prop := {
  ro_loaded : loaded vm code;
  ro_slots : ∀ i, 0 ≤ i < zlen code → slot_ok vm0 code i;
  ro_wf : Forall inst_wf code;
  ro_funcs : vm_dispatcher vm = vm_dispatcher vm0 ∧ vm_dispatcher_validate vm = vm_dispatcher_validate vm0 ∧ vm_ext_funcs vm = vm_ext_funcs vm0;
  ro_ends : ends code;
  ro_calls : calls_inside code;
  ro_dispatch : dispatch_ok vm0;
  ro_check : vm_bounds_check_enabled vm = true;
  ro_nofun : vm_bounds_check_function vm = None;
  ro_mem : 0 ≤ mem ∧ 0 ≤ mem_len ∧ mem + mem_len < 2 ^ 64;
  ro_stack : 0 ≤ stack ∧ stack + UBPF_STACK_SIZE < 2 ^ 64;
  ro_helpers : ∀ i f args m, dispatch vm i = Some f → env_ok m → env_ok (f args m).2 ∧ agree_outside m (f args m).2
}.

Record st_ok (m0 : memory) (s : exec_state) : Prop := {
  so_pc : 0 ≤ st_pc s < zlen code;
  so_len : length (st_reg s) = 16%nat;
  so_regs : Forall in_u64 (st_reg s);
  so_frames : Forall (λ f, 0 ≤ sf_return_address f < zlen code ∧ Forall in_u64 (sf_saved f) ∧ length (sf_saved f) = 4%nat) (st_frames s);
  so_mem : env_ok (st_mem s);
  so_agree : agree_outside m0 (st_mem s)
}.

(** A state that a run can end in. *)
Definition safe_outcome (m0 : memory) (r : outcome) : Prop :=
  match r with
  | Next s => st_ok m0 s
  | Return _ s | Error s => agree_outside m0 (st_mem s)
  | Undefined (UndefMemory a n) => 2 ^ 64 ≤ a + n
  | Undefined u => u = UndefShift ∨ u = UndefNegate
  end.

Lemma bounds_check_inside vm0 addr size : run_ok vm0 → 0 ≤ addr < 2 ^ 64 → 0 < size →
  bounds_check vm mem mem_len stack addr size = true →
  2 ^ 64 ≤ addr + size ∨ (mem ≠ 0 ∧ mem ≤ addr ∧ addr + size ≤ mem + mem_len) ∨ (stack ≤ addr ∧ addr + size ≤ stack + UBPF_STACK_SIZE).
Proof.
  intros Hr Ha Hs. unfold bounds_check. rewrite (ro_check _ Hr), (ro_nofun _ Hr). cbn [negb].
  destruct (ro_mem _ Hr) as (?&?&?), (ro_stack _ Hr) as (?&?).
  destruct (decide (2 ^ 64 ≤ addr + size)); [by left|]. rewrite (u64_small (addr + size)), (u64_small (mem + mem_len)) by lia.
  rewrite u64_small by (unfold UBPF_STACK_SIZE in *; lia). right. destruct (_ && (_ && _)) eqn:E1; [left; bool_to_prop; lia|].
  destruct ((stack <=? addr) && _) eqn:E2; [|done]. right. bool_to_prop. lia.
Qed.

Lemma access_mapped vm0 m addr size : run_ok vm0 → env_ok m → 0 ≤ addr < 2 ^ 64 → 0 < size →
  bounds_check vm mem mem_len stack addr size = true →
  2 ^ 64 ≤ addr + size ∨ (mapped m addr size ∧ ∀ i, addr ≤ i < addr + size → inside i).
Proof.
  intros Hr [Hm Hst _] Ha Hs Hb. destruct (bounds_check_inside _ _ _ Hr Ha Hs Hb) as [?|[(?&?&?)|(?&?)]]; [by left|right..].
  - split; [intros i Hi; apply Hm; [done|lia]|]. intros i Hi. left. lia.
  - split; [intros i Hi; apply Hst; lia|]. intros i Hi. right. lia.
Qed.

Lemma mem_load_mapped m a size : size = 1 ∨ size = 2 ∨ size = 4 ∨ size = 8 → mapped m a size →
  ∃ v, ubpf_mem_load m a size = Some v ∧ in_u64 v.
Proof.
  intros Hs Hm. unfold ubpf_mem_load. destruct (mem_load_is_Some m a (Z.to_nat size)) as [bs Hbs].
  { by rewrite Z2Nat.id by lia. }
  rewrite Hbs. cbn [mbind option_bind]. apply mem_load_length in Hbs.
  destruct (negb _); [|assert (((size =? 1) || (size =? 2) || (size =? 4) || (size =? 8)) = true) as -> by lia];
    eexists; (split; [done|]); apply le_load_in_u64; rewrite ?length_app, ?length_replicate; lia.
Qed.

(** The bytes a store writes. *)
Lemma ubpf_mem_store_bytes m a v size : size = 1 ∨ size = 2 ∨ size = 4 ∨ size = 8 →
  ∃ bs, zlen bs = size ∧ ubpf_mem_store m a v size = mem_store m a bs.
Proof.
  intros Hs. unfold ubpf_mem_store. destruct (negb _).
  - eexists. split; [|done]. unfold zlen. rewrite length_take, length_le_store. lia.
  - assert (((size =? 1) || (size =? 2) || (size =? 4) || (size =? 8)) = true) as -> by lia.
    eexists. split; [|done]. unfold zlen. rewrite length_le_store. lia.
Qed.

Lemma reg_typed m0 s i : st_ok m0 s → in_u64 (reg s i).
Proof.
  intros Hs. unfold reg. rewrite list_lookup_total_alt. destruct (st_reg s !! Z.to_nat i) eqn:E; [|cbn; unfold in_u64; lia].
  cbn. eapply Forall_lookup_1; [apply (so_regs _ _ Hs)|done].
Qed.

Lemma set_reg_ok m0 s i v : st_ok m0 s → in_u64 v → st_ok m0 (set_reg s i v).
Proof.
  intros [? ? ? ? ? ?] Hv. split; cbn [st_pc set_reg st_reg st_mem st_frames]; auto; [by rewrite length_insert|].
  by apply Forall_insert.
Qed.

Lemma set_pc_ok m0 s pc : st_ok m0 s → 0 ≤ pc < zlen code → st_ok m0 (set_pc s pc).
Proof. intros [? ? ? ? ? ?] Hv. by split. Qed.

Lemma set_mem_ok m0 s m : st_ok m0 s → env_ok m → agree_outside (st_mem s) m → st_ok m0 (set_mem s m).
Proof. intros [? ? ? ? ? Ha] Hm Ho. split; auto. intros i Hi. cbn [st_mem set_mem]. by rewrite Ho, Ha. Qed.

Lemma store_ok m a bs m' : env_ok m → mem_store m a bs = Some m' → (∀ i, a ≤ i < a + zlen bs → inside i) →
  env_ok m' ∧ agree_outside m m'.
Proof.
  intros [Hm Hst Ht] Hw Hi. pose proof (mem_store_dom _ _ _ _ Hw) as Hd. split.
  - split; [intros Hz i ?; apply Hd; by apply Hm|intros i ?; apply Hd; by apply Hst|intros i Hs; apply Ht; by apply Hd].
  - intros i Ho. eapply mem_store_outside; [done|]. destruct (decide (a ≤ i < a + zlen bs)) as [Hin|]; [destruct Ho; auto|lia].
Qed.

(** A store that the check lets through but that reaches the end of the address space is not possible. *)
Lemma store_top m a bs m' : env_ok m → 0 < zlen bs ≤ 8 → 2 ^ 64 ≤ a + zlen bs → 0 ≤ a < 2 ^ 64 → mem_store m a bs = Some m' → False.
Proof.
  intros [_ _ Ht] Hl Hw Ha Hst. pose proof (mem_store_mapped _ _ _ _ Hst (2 ^ 64 - 1) ltac:(lia)) as Hmap. apply Ht in Hmap. lia.
Qed.

Lemma not_last i inst : ends code → 0 ≤ i → code !! Z.to_nat i = Some inst →
  i_opcode inst ≠ op_code EBPF_OP_EXIT → i_opcode inst ≠ op_code EBPF_OP_JA → i + 1 < zlen code.
Proof.
  intros (l&Hl&Ho) Hi Hc H1 H2. pose proof (lookup_lt_Some _ _ _ Hc). rewrite last_lookup in Hl.
  destruct (decide (i + 1 = zlen code)) as [He|]; [|unfold zlen in *; lia].
  replace (pred (length code)) with (Z.to_nat i) in Hl by (unfold zlen in *; lia). rewrite Hc in Hl. injection Hl as ->.
  by destruct Ho.
Qed.

Section valid.
Context (vm0 : ubpf_vm) (i : Z) (inst : ebpf_inst) (j : Z) (o : ebpf_op).
Context (Hi : 0 ≤ i < zlen code) (Hv : validate_inst vm0 code i inst = VOk j) (Ho : find_op ubpf_ops (i_opcode inst) = Some o).

Lemma validate_inst_op : ∃ n, validate_op vm0 code i inst = VOk n.
Proof. unfold validate_inst in Hv. destruct (validate_op vm0 code i inst); [by eexists|done..]. Qed.

Lemma valid_jump : is_jump_op o = true → 0 ≤ i + 1 + i_offset inst < zlen code.
Proof.
  intros Hj. destruct validate_inst_op as [n Hop]. unfold validate_op in Hop. rewrite Ho, Hj in Hop.
  assert ((is_alu_op o || is_load_op o || is_store_op o) = false) as Hx by (by destruct o). rewrite Hx in Hop.
  unfold validate_jump in Hop. destruct (i_offset inst =? -1); [done|]. destruct (_ || _) eqn:E; [done|]. bool_to_prop. lia.
Qed.

Lemma valid_jump_target : is_jump_op o = true → ∃ t, code !! Z.to_nat (i + 1 + i_offset inst) = Some t ∧ i_opcode t ≠ 0.
Proof.
  intros Hj. destruct validate_inst_op as [n Hop]. unfold validate_op in Hop. rewrite Ho, Hj in Hop.
  assert ((is_alu_op o || is_load_op o || is_store_op o) = false) as Hx by (by destruct o). rewrite Hx in Hop.
  unfold validate_jump in Hop. destruct (i_offset inst =? -1); [done|]. destruct (_ || _) eqn:E; [done|].
  destruct (code !! _) as [t|]; [|done]. exists t. split; [done|]. destruct (Z.eqb_spec (i_opcode t) 0); [done|done].
Qed.

Lemma valid_lddw_src : o = EBPF_OP_LDDW → i_src inst = 0.
Proof.
  intros ->. destruct validate_inst_op as [n Hop]. unfold validate_op in Hop. rewrite Ho in Hop. cbn in Hop.
  destruct (Z.eqb_spec (i_src inst) 0); [done|done].
Qed.

Lemma valid_lddw : o = EBPF_OP_LDDW → ∃ n, code !! Z.to_nat (i + 1) = Some n ∧ i_opcode n = 0.
Proof.
  intros ->. destruct validate_inst_op as [n Hop]. unfold validate_op in Hop. rewrite Ho in Hop. cbn in Hop.
  repeat case_match; try done. eexists. split; [done|]. by bool_to_prop.
Qed.

Lemma valid_call : o = EBPF_OP_CALL → ∃ u, validate_call vm0 (zlen code) i inst = VOk u.
Proof.
  intros ->. destruct validate_inst_op as [n Hop]. unfold validate_op in Hop. rewrite Ho in Hop. cbn [is_alu_op is_load_op is_store_op is_jump_op orb] in Hop.
  destruct (validate_call vm0 (zlen code) i inst); [by eexists|done..].
Qed.
End valid.

(** A call of a helper finds it. *)
Lemma validated_dispatch vm0 num i inst u : run_ok vm0 → inst_wf inst →
  validate_call vm0 num i inst = VOk u → i_src inst = 0 → is_Some (dispatch vm (u32 (i_imm inst))).
Proof.
  intros Hr (_&_&_&_&Himm) Hv Hs. unfold validate_call in Hv. rewrite Hs in Hv. cbn in Hv.
  destruct (_ || _) eqn:E; [done|]. bool_to_prop. unfold MAX_EXT_FUNCS in *. rewrite u32_small by lia.
  unfold dispatch. destruct (ro_funcs _ Hr) as (->&_&Hf).
  destruct (ro_dispatch _ Hr) as [[Hd Hvd]|[f Hd]]; rewrite Hd in *; [|by eexists].
  rewrite Hvd in Hv. cbn in Hv. unfold ubpf_default_external_dispatcher. rewrite Hf.
  unfold ubpf_default_external_validator in Hv. destruct (_ <? _); [|done].
  destruct (vm_ext_funcs vm0 !! Z.to_nat (i_imm inst)) as [[f|]|]; [by eexists|done..].
Qed.

Lemma exec_exit_ok m0 s pc : st_ok m0 s → safe_outcome m0 (exec_exit (set_pc s pc)).
Proof.
  intros [Hpc Hl Hr Hf Hm Ha]. unfold exec_exit. cbn [st_frames set_pc]. destruct (st_frames s) as [|[ra saved] fs]; [done|].
  apply Forall_cons in Hf as [(Hra&Hsv&Hls) Hf]. cbn [sf_return_address sf_saved] in *.
  assert (Hx : ∀ k, in_u64 (saved !!! k)).
  { intros k. rewrite list_lookup_total_alt. destruct (saved !! k) eqn:E; [|cbn; unfold in_u64; lia]. by eapply Forall_lookup_1. }
  cbn [safe_outcome]. repeat apply set_reg_ok; auto. by split.
Qed.

Lemma exec_call_ok vm0 m0 s i inst u : run_ok vm0 → st_ok m0 s → inst_wf inst →
  0 ≤ i → st_pc s = i + 1 → code !! Z.to_nat i = Some inst → i_opcode inst = op_code EBPF_OP_CALL →
  validate_call vm0 (zlen code) i inst = VOk u → safe_outcome m0 (exec_call vm s inst).
Proof.
  intros Hr Hs Hwf Hi Hpc Hc Hop Hv. pose proof (ld_len _ _ (ro_loaded _ Hr)) as Hn. unfold UBPF_MAX_INSTS in Hn.
  unfold exec_call. destruct (Z.eqb_spec (i_src inst) 0) as [H0|H0].
  - destruct (validated_dispatch _ _ _ _ _ Hr Hwf Hv H0) as [f Hf]. rewrite Hf.
    destruct (f _ _) as [r m] eqn:E. pose proof (ro_helpers _ Hr _ _ [reg s 1; reg s 2; reg s 3; reg s 4; reg s 5] _ Hf (so_mem _ _ Hs)) as [He Hag].
    rewrite E in He, Hag. cbn [snd] in *. pose proof (set_mem_ok _ _ _ Hs He Hag) as Hs'.
    destruct (_ && _); [apply (so_agree _ _ Hs')|]. apply set_reg_ok; [done|apply u64_bound].
  - unfold validate_call in Hv. destruct (Z.eqb_spec (i_src inst) 0); [done|].
    destruct (Z.eqb_spec (i_src inst) 1) as [H1|]; [|destruct (i_src inst =? 2); done].
    destruct (_ || _); [done|]. destruct (_ || _) eqn:E; [done|]. bool_to_prop.
    pose proof (ro_calls _ Hr _ _ Hc Hop H1) as Hne. rewrite Z2Nat.id in Hne by lia.
    destruct (_ <=? _); [apply (so_agree _ _ Hs)|]. rewrite Hpc, u16_small by lia.
    pose proof (reg_typed _ _ 6 Hs). pose proof (reg_typed _ _ 7 Hs). pose proof (reg_typed _ _ 8 Hs). pose proof (reg_typed _ _ 9 Hs).
    destruct Hs as [Hp Hl Hrs Hf Hm Ha]. cbn [safe_outcome]. split; cbn [st_pc st_reg st_frames st_mem]; auto; [lia|].
    constructor; [|done]. cbn [sf_return_address sf_saved]. split; [lia|]. split; [by rewrite !Forall_cons, Forall_nil|done].
Qed.

Lemma exec_load_ok vm0 m0 s i v size : run_ok vm0 → st_ok m0 s → size = 1 ∨ size = 2 ∨ size = 4 ∨ size = 8 →
  let addr := u64 v in
  safe_outcome m0 (if negb (bounds_check vm mem mem_len stack addr size) then Error s
     else match ubpf_mem_load (st_mem s) addr size with
          | Some v => Next (set_reg s i v) | None => Undefined (UndefMemory addr size) end).
Proof.
  intros Hr Hs Hz addr. destruct (bounds_check _ _ _ _ _ _) eqn:Hb; cbn [negb]; [|apply (so_agree _ _ Hs)].
  destruct (access_mapped vm0 (st_mem s) addr size Hr (so_mem _ _ Hs) (u64_bound v) ltac:(lia) Hb) as [Hw|[Hm _]].
  - destruct (ubpf_mem_load (st_mem s) addr size) as [x|] eqn:E; [|done]. unfold ubpf_mem_load in E.
    destruct (mem_load (st_mem s) addr (Z.to_nat size)) as [bs|] eqn:El; [|done]. cbn [mbind option_bind] in E.
    apply set_reg_ok; [done|]. apply mem_load_length in El.
    repeat case_match; try done; injection E as <-; apply le_load_in_u64; rewrite ?length_app, ?length_replicate; lia.
  - destruct (mem_load_mapped _ _ _ Hz Hm) as (x&->&Hx). by apply set_reg_ok.
Qed.

Lemma exec_store_ok vm0 m0 s a v size : run_ok vm0 → st_ok m0 s → size = 1 ∨ size = 2 ∨ size = 4 ∨ size = 8 →
  let addr := u64 a in
  safe_outcome m0 (if negb (bounds_check vm mem mem_len stack addr size) then Error s
     else match ubpf_mem_store (st_mem s) addr v size with
          | Some m => Next (set_mem s m) | None => Undefined (UndefMemory addr size) end).
Proof.
  intros Hr Hs Hz addr. destruct (bounds_check _ _ _ _ _ _) eqn:Hb; cbn [negb]; [|apply (so_agree _ _ Hs)].
  destruct (ubpf_mem_store_bytes (st_mem s) addr v size Hz) as (bs&Hl&->).
  destruct (access_mapped vm0 (st_mem s) addr size Hr (so_mem _ _ Hs) (u64_bound a) ltac:(lia) Hb) as [Hw|[Hm Hin]].
  - destruct (mem_store (st_mem s) addr bs) as [m|] eqn:E; [|done].
    destruct (store_top _ addr bs _ (so_mem _ _ Hs) ltac:(lia) ltac:(lia) (u64_bound a) E).
  - destruct (mem_store_is_Some (st_mem s) addr bs) as [m Hst]; [by rewrite Hl|]. rewrite Hst.
    destruct (store_ok _ _ _ _ (so_mem _ _ Hs) Hst) as [He Hag]; [by rewrite Hl|]. by apply set_mem_ok.
Qed.

Lemma exec_step_safe vm0 m0 s : run_ok vm0 → st_ok m0 s → safe_outcome m0 (exec_step vm mem mem_len stack s).
Proof.
  intros Hr Hs. pose proof (so_pc _ _ Hs) as Hpc. pose proof (ld_len _ _ (ro_loaded _ Hr)) as Hn. unfold UBPF_MAX_INSTS in Hn.
  destruct (ro_slots _ Hr _ Hpc) as (inst&Hc&Hslot). pose proof (Forall_lookup_1 _ _ _ _ (ro_wf _ Hr) Hc) as Hwf.
  unfold exec_step. rewrite (ld_fetch _ _ (ro_loaded _ Hr)) by (unfold UBPF_MAX_INSTS; lia). rewrite Hc, u16_small by lia.
  destruct (find_op ubpf_ops (i_opcode inst)) as [o|] eqn:Ho.
  2:{ assert (Hz : i_opcode inst = 0).
      { destruct Hslot as [[j Hj]|]; [|done]. unfold validate_inst, validate_op in Hj. by rewrite Ho in Hj. }
      apply set_pc_ok; [done|]. split; [lia|]. eapply not_last; [apply (ro_ends _ Hr)|lia|done|rewrite Hz; vm_compute; done..]. }
  pose proof (find_op_Some _ _ _ Ho) as Hop. destruct Hslot as [[j Hv]|Hz]; [|pose proof (op_code_bound o); lia].
  assert (Hnext : o ≠ EBPF_OP_EXIT → o ≠ EBPF_OP_JA → st_ok m0 (set_pc s (st_pc s + 1))).
  { intros H1 H2. apply set_pc_ok; [done|]. split; [lia|].
    eapply not_last; [apply (ro_ends _ Hr)|lia|done|rewrite <- Hop; intros ?%(inj op_code); congruence..]. }
  apply exec_inst_cases.
  - intros v Hva. assert (st_ok m0 (set_pc s (st_pc s + 1))) as Hs1 by (apply Hnext; intros ->; by destruct Hva).
    pose proof (reg_typed _ _ (i_dst inst) Hs1). pose proof (reg_typed _ _ (i_src inst) Hs1).
    apply set_reg_ok; [done|]. destruct Hva as [Hva|Hva]; [by eapply alu32_typed in Hva|by eapply alu64_typed in Hva].
  - intros u Hu. apply alu_undef in Hu as [-> | ->]; cbn; auto.
  - intros b Hj Hja. destruct b.
    + cbn [st_pc set_pc]. pose proof (valid_jump _ _ _ _ _ Hv Ho Hj). rewrite u16_small by lia. by apply (set_pc_ok m0 s).
    + apply Hnext; [by intros ->|]. intros ->. by destruct Hja as [[_ ?]|[?|?]].
  - intros size Hz. apply (exec_load_ok vm0); [done|apply Hnext; by intros ->|]. destruct o; simplify_eq/=; auto.
  - intros size b Hz. apply (exec_store_ok vm0); [done|apply Hnext; by intros ->|]. destruct o; simplify_eq/=; auto.
  - intros Hl. destruct (valid_lddw _ _ _ _ _ Hv Ho Hl) as (n&Hn1&Hn0). cbn [st_pc set_pc].
    assert (st_pc s + 1 + 1 < zlen code) by (eapply not_last; [apply (ro_ends _ Hr)|lia|done|rewrite Hn0; vm_compute; done..]).
    rewrite (ld_fetch _ _ (ro_loaded _ Hr)) by (unfold UBPF_MAX_INSTS; lia). rewrite Hn1, u16_small by lia.
    apply set_reg_ok; [apply set_pc_ok; [by apply set_pc_ok; [|lia]|lia]|].
    apply lor_bound; [done|pose proof (u32_bound (i_imm inst)); lia|apply u64_bound].
  - intros ->. by apply exec_exit_ok.
  - intros ->. destruct (valid_call _ _ _ _ _ Hv Ho eq_refl) as [u Hu].
    eapply exec_call_ok; [done|by apply Hnext| | |done|done| |done]; [done|lia|congruence].
  - intros Hno. destruct Hno. by eapply find_op_elem.
Qed.

Lemma exec_loop_safe vm0 m0 fuel : ∀ s, run_ok vm0 → st_ok m0 s → safe_outcome m0 (exec_loop vm mem mem_len stack fuel s).
Proof.
  induction fuel as [|fuel IH]; intros s Hr Hs; [done|]. cbn [exec_loop].
  pose proof (exec_step_safe vm0 m0 s Hr Hs) as H1. destruct (exec_step vm mem mem_len stack s); [by apply IH|done..].
Qed.

Lemma exec_start_ok vm0 regs m : run_ok vm0 → length regs = 16%nat → Forall in_u64 regs → env_ok m →
  st_ok m (exec_start mem mem_len stack regs m).
Proof.
  intros Hr Hl Hf Hm. destruct (ro_mem _ Hr) as (?&?&?), (ro_stack _ Hr) as (?&?).
  split; cbn [exec_start st_pc st_reg st_frames st_mem]; auto; [|by rewrite !length_insert| |done].
  - destruct (ro_ends _ Hr) as (i&Hi&_). destruct code; [done|]. rewrite zlen_cons. pose proof (zlen_nonneg l). lia.
  - apply Forall_insert; [apply Forall_insert; [apply Forall_insert|]|]; auto; [unfold in_u64; lia..|apply u64_bound].
Qed.
End safe.

(** C3 (safety). A program that uBPF has loaded, whose last instruction is EXIT or JA and whose local calls stay
    inside, run with the bounds check on, without a bounds check function of the application, and with helpers that
    keep to the memory argument and the stack: whatever the registers and the memory contain, after any number of
    rounds the interpreter has not fetched an instruction outside of the program nor called a missing helper, has not
    changed a byte outside of the memory argument and the stack, and has not read or written a byte that is not there
    except at an address so close to 2^64 that the end of the access reaches it. *)
Theorem ubpf_run_safe vm code base fm e vm' mem mem_len stack regs m fuel :
  Forall inst_wf code → ubpf_load vm code (8 * zlen code) (Some base) fm = (Ok tt, e, vm') →
  ends code → calls_inside code → dispatch_ok vm →
  vm_bounds_check_enabled vm = true → vm_bounds_check_function vm = None →
  0 ≤ mem → 0 ≤ mem_len → mem + mem_len < 2 ^ 64 → 0 ≤ stack → stack + UBPF_STACK_SIZE < 2 ^ 64 →
  (∀ i f args m, dispatch vm i = Some f → env_ok mem mem_len stack m →
     env_ok mem mem_len stack (f args m).2 ∧ agree_outside mem mem_len stack m (f args m).2) →
  length regs = 16%nat → Forall in_u64 regs → env_ok mem mem_len stack m →
  match ubpf_exec vm' mem mem_len stack fuel regs m with
  | Undefined UndefFetch | Undefined UndefCall => False
  | Undefined (UndefMemory addr size) => 2 ^ 64 ≤ addr + size
  | Undefined _ => True
  | Next s | Return _ s | Error s => agree_outside mem mem_len stack m (st_mem s)
  end.
Proof.
  intros Hwf Hld He Hc Hd Hb Hbf ? ? ? ? ? Hh Hl Hf Hm. pose proof (load_loaded _ _ _ _ _ _ Hwf Hld) as Hload.
  apply ubpf_load_inv in Hld as [Hv [fs ->]].
  set (vm' := vm_set_code _ _ _ _ _) in *.
  assert (Hr : run_ok vm' code mem mem_len stack vm) by (split; auto using validate_slots).
  unfold ubpf_exec. cbn [vm' vm_set_code vm_insts].
  pose proof (exec_loop_safe _ _ _ _ _ vm m fuel _ Hr (exec_start_ok _ _ _ _ _ _ _ _ Hr Hl Hf Hm)) as Hs.
  destruct (exec_loop _ _ _ _ _ _) as [s|v s|s|u]; cbn [safe_outcome] in Hs; [apply (so_agree _ _ _ _ _ _ Hs)|done|done|].
  destruct u; auto; by destruct Hs.
Qed.

(** A program that stores to its stack and to the memory argument, and reads back. *)
Definition mk (o : ebpf_op) (dst src off imm : Z) : ebpf_inst := EbpfInst (op_code o) dst src off imm.
Definition demo_code : list ebpf_inst :=
  [mk EBPF_OP_MOV64_IMM 3 0 0 7; mk EBPF_OP_STXDW 10 3 (-8) 0; mk EBPF_OP_STXW 1 3 4 0; mk EBPF_OP_LDXDW 0 10 (-8) 0;
   mk EBPF_OP_LDXB 4 1 4 0; mk EBPF_OP_ADD64_REG 0 4 0 0; mk EBPF_OP_EXIT 0 0 0 0].
Definition demo_vm : ubpf_vm := (ubpf_load ubpf_create demo_code 56 (Some 4096) true).2.
Definition zeros (a n : Z) : memory := map_seqZ a (replicate (Z.to_nat n) 0).
Definition demo_mem : memory := zeros 8192 16 ∪ zeros 65536 UBPF_STACK_SIZE.

Lemma zeros_mapped a n : mapped (zeros a n) a n.
Proof. intros i Hi. unfold zeros. apply lookup_map_seqZ_is_Some. rewrite length_replicate. lia. Qed.

Lemma zeros_range a n i : is_Some (zeros a n !! i) → a ≤ i < a + n ∨ n ≤ 0.
Proof. unfold zeros. rewrite lookup_map_seqZ_is_Some, length_replicate. lia. Qed.

Lemma demo_env_ok : env_ok 8192 16 65536 demo_mem.
Proof.
  unfold demo_mem. split.
  - intros _ i Hi. apply lookup_union_is_Some. left. by apply zeros_mapped.
  - intros i Hi. apply lookup_union_is_Some. right. by apply zeros_mapped.
  - intros i Hi. apply lookup_union_is_Some in Hi as [Hi|Hi]; apply zeros_range in Hi; unfold UBPF_STACK_SIZE in *; lia.
Qed.

Lemma demo_wf (code : list ebpf_inst) :
  forallb (λ i, (0 <=? i_opcode i) && (i_opcode i <? 2 ^ 8) && (0 <=? i_dst i) && (i_dst i <? 2 ^ 4) && (0 <=? i_src i) && (i_src i <? 2 ^ 4)
     && (- 2 ^ 15 <=? i_offset i) && (i_offset i <? 2 ^ 15) && (- 2 ^ 31 <=? i_imm i) && (i_imm i <? 2 ^ 31)) code = true →
  Forall inst_wf code.
Proof. intros H. apply Forall_forall. intros i Hi. rewrite forallb_forall in H. apply list_elem_of_In, H in Hi. unfold inst_wf. lia. Qed.

Lemma no_local_calls (code : list ebpf_inst) : forallb (λ i, negb (i_opcode i =? op_code EBPF_OP_CALL)) code = true → calls_inside code.
Proof.
  intros H k i Hk Ho. rewrite forallb_forall in H. specialize (H i). rewrite Ho, Z.eqb_refl in H.
  apply list_elem_of_lookup_2, list_elem_of_In in Hk. by apply H in Hk.
Qed.

Lemma ubpf_run_safe_witness :
  match ubpf_exec demo_vm 8192 16 65536 20 (replicate 16 0) demo_mem with
  | Undefined UndefFetch | Undefined UndefCall => False
  | Undefined (UndefMemory addr size) => 2 ^ 64 ≤ addr + size
  | Undefined _ => True
  | Next s | Return _ s | Error s => agree_outside 8192 16 65536 demo_mem (st_mem s)
  end.
Proof.
  apply (ubpf_run_safe ubpf_create demo_code 4096 true None); try done.
  - by apply demo_wf.
  - exists (mk EBPF_OP_EXIT 0 0 0 0). split; [done|by left].
  - by apply no_local_calls.
  - by left.
  - intros i f args m Hf. cbn in Hf. unfold ubpf_default_external_dispatcher in Hf.
    apply bind_Some in Hf as (x&Hx&->). apply lookup_replicate in Hx as [? _]. done.
  - apply Forall_replicate. by unfold in_u64.
  - exact demo_env_ok.
Defined.
