(* ===== verification/UbpfRuns.v ===== *)
(** * Loading and running on uBPF: results, calls and termination

    The result of a load and the round trip of instructions through it; local calls and returns; programs
    without backward jumps end; and what the validator and the bounds check let through. *)

From stdpp Require Import base numbers list strings gmap.
From S2P Require Import Prelude.
From S2P Require Import EbpfIsa.
From S2P Require Import UbpfVm.
From S2P Require Import UbpfSafe.

(** ** Loading *)

(** The interpreter fetches the instructions that were loaded, whatever the address of the array and
    the secret that they are xor-ed with, and nothing behind them. *)
Theorem ubpf_load_fetch vm code base fm e vm' pc :
  Forall inst_wf code → ubpf_load vm code (8 * zlen code) (Some base) fm = (Ok tt, e, vm') →
  0 ≤ pc < UBPF_MAX_INSTS → ubpf_fetch_instruction vm' pc = code !! Z.to_nat pc.
Proof. intros Hwf Hl. apply (ld_fetch _ _ (load_loaded _ _ _ _ _ _ Hwf Hl)). Qed.

Lemma ubpf_load_fetch_witness :
  let vm := (ubpf_set_pointer_secret ubpf_create 0x1234567890abcdef).2 in
  ubpf_fetch_instruction (ubpf_load vm demo_code 56 (Some 0x7f0000001000) true).2 1 = Some (mk EBPF_OP_STXDW 10 3 (-8) 0).
Proof.
  intros vm. apply (ubpf_load_fetch vm demo_code 0x7f0000001000 true None _ 1); [by apply demo_wf|done|done].
Defined.

(** Whether the loop that loads instructions stays inside the array of marks. *)
Definition marks_ok (n i : Z) (src : list ebpf_inst) : Prop :=
  ∀ k inst, src !! k = Some inst → i_opcode inst = op_code EBPF_OP_CALL → i_src inst = 1 → u32 (i + Z.of_nat k + i_imm inst + 1) < n.

Lemma marks_ok_cons n i inst src : marks_ok n i (inst :: src) ↔
  (i_opcode inst = op_code EBPF_OP_CALL → i_src inst = 1 → u32 (i + i_imm inst + 1) < n) ∧ marks_ok n (i + 1) src.
Proof.
  split.
  - intros H. split; [intros Ho Hs; specialize (H 0%nat inst eq_refl Ho Hs); by rewrite Z.add_0_r in H|].
    intros k x Hk Ho Hs. specialize (H (S k) x Hk Ho Hs). by replace (i + 1 + Z.of_nat k) with (i + Z.of_nat (S k)) by lia.
  - intros [H1 H2] [|k] x Hk Ho Hs; [injection Hk as ->; rewrite Z.add_0_r; auto|].
    specialize (H2 k x Hk Ho Hs). by replace (i + Z.of_nat (S k)) with (i + 1 + Z.of_nat k) by lia.
Qed.

Lemma load_insts_result vm base src : ∀ i ws fs,
  0 ≤ i → i + zlen src ≤ zlen ws → zlen ws < UBPF_MAX_INSTS →
  is_Some (load_insts vm base i src ws fs) ↔ marks_ok (zlen fs) i src.
Proof.
  induction src as [|inst src IH]; intros i ws fs Hi Hl Hn; cbn [load_insts]; [split; [by intros _ k|by eexists]|].
  rewrite zlen_cons in Hl. pose proof (zlen_nonneg src). unfold UBPF_MAX_INSTS in *. rewrite marks_ok_cons.
  assert (Hst : ∃ ws', ubpf_store_instruction vm base ws i inst = Some ws' ∧ zlen ws' = zlen ws).
  { unfold ubpf_store_instruction. rewrite u16_small by lia. destruct (Z.ltb_spec i (zlen ws)); [|lia].
    eexists. split; [done|]. unfold zlen. by rewrite length_insert. }
  destruct Hst as (ws'&Hst&Hlw). rewrite Hst. destruct (_ && _) eqn:E.
  - bool_to_prop. destruct (Z.ltb_spec (u32 (i + i_imm inst + 1)) (zlen fs)) as [Hlt|Hge]; cbn [mbind option_bind].
    + rewrite IH by lia. unfold zlen at 1. rewrite length_insert. fold (zlen fs). tauto.
    + split; [by intros [? ?]|]. intros [Hx _]. specialize (Hx ltac:(done) ltac:(done)). lia.
  - cbn [mbind option_bind]. rewrite IH by lia. split; [|tauto]. intros Hm. split; [|done]. intros Ho Hs.
    rewrite Ho, Hs, !Z.eqb_refl in E. done.
Qed.

(** The marks of a validated program: the end is the only target that is not inside. *)
Lemma validated_marks vm code : validate vm code = VOk tt → marks_ok (zlen code) 0 code ↔ calls_inside code.
Proof.
  intros Hv. pose proof (validate_slots _ _ Hv) as Hs.
  assert (Hn : zlen code < UBPF_MAX_INSTS) by (unfold validate in Hv; destruct (Z.leb_spec UBPF_MAX_INSTS (zlen code)); [done|lia]).
  assert (Ht : ∀ k inst, code !! k = Some inst → i_opcode inst = op_code EBPF_OP_CALL → i_src inst = 1 →
            0 ≤ Z.of_nat k + i_imm inst + 1 ≤ zlen code).
  { intros k inst Hk Ho H1. pose proof (lookup_lt_Some _ _ _ Hk).
    destruct (Hs (Z.of_nat k)) as (i&Hi&[[j Hj]|Hz]); [unfold zlen; lia|..]; rewrite Nat2Z.id in Hi; rewrite Hk in Hi; injection Hi as <-.
    - destruct (valid_call code vm (Z.of_nat k) inst j EBPF_OP_CALL) as [u Hu]; [done|by rewrite Ho|done|].
      unfold validate_call in Hu. rewrite H1 in Hu. cbn in Hu. repeat case_match; try done. bool_to_prop. lia.
    - rewrite Ho in Hz. by vm_compute in Hz. }
  unfold UBPF_MAX_INSTS in Hn. split; intros Hm k inst Hk Ho H1; specialize (Hm k inst Hk Ho H1); specialize (Ht k inst Hk Ho H1).
  - rewrite Z.add_0_l, u32_small in Hm by lia. lia.
  - rewrite Z.add_0_l, u32_small by lia. lia.
Qed.

(** The result of loading a valid program into a machine without code. *)
Lemma load_valid_result vm code base :
  vm_insts vm = None → validate vm code = VOk tt →
  let '(r, _, _) := ubpf_load vm code (8 * zlen code) (Some base) true in
  (calls_inside code → r = Ok tt) ∧ (¬ calls_inside code → r = Fault).
Proof.
  intros Hi Hv. pose proof (validated_marks _ _ Hv) as Hm.
  assert (Hn : zlen code < UBPF_MAX_INSTS) by (unfold validate in Hv; destruct (Z.leb_spec UBPF_MAX_INSTS (zlen code)); [done|lia]).
  pose proof (zlen_nonneg code). unfold ubpf_load. rewrite Hi, Z.mul_comm, Z.mod_mul, Z.div_mul by lia. cbn [Z.eqb negb].
  rewrite Z.ltb_irrefl. rewrite !(take_ge code) by (unfold zlen; lia). rewrite Hv. unfold UBPF_MAX_INSTS in Hn.
  rewrite u16_small by lia. cbn [vm_num_insts vm_set_code].
  set (vm1 := vm_set_code _ _ _ _ _).
  pose proof (load_insts_result vm1 base code 0 (replicate (length code) 0) (replicate (Z.to_nat (zlen code)) false)) as Hl.
  rewrite zlen_replicate_nat, zlen_replicate in Hl by lia. specialize (Hl ltac:(lia) ltac:(unfold zlen; lia) ltac:(unfold zlen, UBPF_MAX_INSTS in *; lia)).
  rewrite Hm in Hl. destruct (load_insts _ _ _ _ _ _) as [[ws fs]|]; split; try done.
  - intros Hc. destruct Hc. apply Hl. by eexists.
  - intros Hc. apply Hl in Hc as [? ?]. done.
Qed.

(** Loading a valid program into a machine without code succeeds when its local calls stay inside;
    the validator also lets a call to the slot behind the last one pass, and then the load writes behind
    the array of marks. *)
Theorem ubpf_load_valid vm code base :
  vm_insts vm = None → validate vm code = VOk tt →
  let '(r, _, _) := ubpf_load vm code (8 * zlen code) (Some base) true in
  (calls_inside code → r = Ok tt) ∧ (¬ calls_inside code → r = Fault).
Proof. apply load_valid_result. Qed.

Lemma ubpf_load_valid_witness :
  let '(r, _, _) := ubpf_load ubpf_create [mk EBPF_OP_CALL 0 1 0 0] 8 (Some 4096) true in
  (calls_inside [mk EBPF_OP_CALL 0 1 0 0] → r = Ok tt) ∧ (¬ calls_inside [mk EBPF_OP_CALL 0 1 0 0] → r = Fault).
Proof. apply (ubpf_load_valid ubpf_create [mk EBPF_OP_CALL 0 1 0 0] 4096); done. Defined.

(** ** Local calls *)

Section calls.
Context (vm : ubpf_vm) (mem mem_len stack : Z).

Definition step (s s' : exec_state) : Prop := exec_step vm mem mem_len stack s = Next s'.

(** What a round does to the frames: nothing, a call or a return. *)
Inductive frame_step (s s' : exec_state) : Prop :=
| FrameSame : st_frames s' = st_frames s → frame_step s s'
| FrameCall : st_frames s' = StackFrame (u16 (st_pc s + 1)) [reg s 6; reg s 7; reg s 8; reg s 9] :: st_frames s →
    zlen (st_frames s') ≤ UBPF_MAX_CALL_DEPTH → frame_step s s'
| FrameReturn ra a b c d : st_frames s = StackFrame ra [a; b; c; d] :: st_frames s' → st_pc s' = ra →
    (length (st_reg s) = 16%nat → reg s' 6 = a ∧ reg s' 7 = b ∧ reg s' 8 = c ∧ reg s' 9 = d) → frame_step s s'
| FrameReturnShort ra saved : st_frames s = StackFrame ra saved :: st_frames s' → length saved ≠ 4%nat → frame_step s s'.

Lemma reg_set_same (l : list Z) (i : nat) v : (i < length l)%nat → <[i := v]> l !!! i = v.
Proof. intros. by rewrite list_lookup_total_insert_eq. Qed.

Lemma exec_exit_frames s pc s' : exec_exit (set_pc s pc) = Next s' → frame_step s s'.
Proof.
  unfold exec_exit. cbn [st_frames set_pc]. destruct (st_frames s) as [|[ra saved] fs] eqn:Ef; [done|]. intros [= <-].
  destruct (decide (length saved = 4%nat)) as [Hl|Hl]; [|by apply (FrameReturnShort _ _ ra saved)].
  destruct saved as [|a [|b [|c [|d [|]]]]]; try done. apply (FrameReturn _ _ ra a b c d); [done..|].
  intros Hr. unfold reg, set_reg. cbn [st_reg set_pc]. change (Z.to_nat 6) with 6%nat. change (Z.to_nat 7) with 7%nat.
  change (Z.to_nat 8) with 8%nat. change (Z.to_nat 9) with 9%nat.
  repeat split; rewrite ?list_lookup_total_insert_ne by done; rewrite reg_set_same by (rewrite ?length_insert; lia); done.
Qed.

Lemma exec_call_frames s pc inst s' : pc = u16 (st_pc s + 1) → exec_call vm (set_pc s pc) inst = Next s' → frame_step s s'.
Proof.
  intros ->. unfold exec_call. destruct (_ =? 0).
  - destruct (dispatch vm _) as [f|]; [|done]. destruct (f _ _) as [r m]. destruct (_ && _); [done|]. intros [= <-]. by apply FrameSame.
  - destruct (_ =? 1); [|destruct (_ =? 2); [done|]; intros [= <-]; by apply FrameSame].
    cbn [st_frames set_pc]. destruct (Z.leb_spec UBPF_MAX_CALL_DEPTH (zlen (st_frames s))); [done|]. intros [= <-].
    apply FrameCall; [done|]. cbn [st_frames]. rewrite zlen_cons. lia.
Qed.

Lemma step_frames s s' : step s s' → frame_step s s'.
Proof.
  unfold step, exec_step. destruct (ubpf_fetch_instruction vm (st_pc s)) as [inst|]; [|done].
  destruct (find_op _ _) as [o|]; [|intros [= <-]; by apply FrameSame].
  apply exec_inst_cases.
  - intros v _ [= <-]. by apply FrameSame.
  - done.
  - intros [] _ _ [= <-]; by apply FrameSame.
  - intros size _. cbn. repeat case_match; try done. intros [= <-]. by apply FrameSame.
  - intros size b _. cbn. repeat case_match; try done; intros [= <-]; by apply FrameSame.
  - intros _. destruct (ubpf_fetch_instruction _ _); [|done]. intros [= <-]. by apply FrameSame.
  - intros _. apply exec_exit_frames.
  - intros _. by apply exec_call_frames.
  - intros _ [= <-]. by apply FrameSame.
Qed.

(** Rounds that do not return below [n] frames. *)
Definition step_above (n : nat) (s s' : exec_state) : Prop := step s s' ∧ (n < length (st_frames s'))%nat.

Lemma steps_above_suffix n s s' : rtc (step_above n) s s' →
  ∀ fs, length fs = S n → fs `suffix_of` st_frames s → fs `suffix_of` st_frames s'.
Proof.
  induction 1 as [s|s1 s2 s3 [Hst Hl] _ IH]; intros fs Hn Hs; [done|]. apply IH; [done|].
  destruct (step_frames _ _ Hst) as [Hf|Hf _|ra a b c d Hf _ _|ra sv Hf _]; [by rewrite Hf|rewrite Hf; by apply suffix_cons_r|..];
    destruct fs as [|f fs]; try done; rewrite Hf in Hs; apply suffix_cons_inv in Hs as [Hs|Hs]; try done;
    injection Hs as _ ->; cbn in Hn; lia.
Qed.

(** A local call comes back: when the interpreter makes a local call, runs on for a while without
    returning from it, and then returns from it, execution goes on behind the call with the frames of the
    caller, and r6, r7, r8 and r9 are what they were at the call. *)
Theorem ubpf_call_returns s s1 s2 s3 :
  step s s1 → length (st_frames s1) = S (length (st_frames s)) →
  rtc (step_above (length (st_frames s))) s1 s2 →
  step s2 s3 → length (st_frames s3) = length (st_frames s) → length (st_reg s2) = 16%nat →
  st_pc s3 = u16 (st_pc s + 1) ∧ st_frames s3 = st_frames s ∧
  reg s3 6 = reg s 6 ∧ reg s3 7 = reg s 7 ∧ reg s3 8 = reg s 8 ∧ reg s3 9 = reg s 9.
Proof.
  intros H1 Hl1 Hs H2 Hl3 Hr.
  destruct (step_frames _ _ H1) as [Hf|Hf _|ra a b c d Hf _ _|ra sv Hf _];
    [rewrite Hf in Hl1; lia| |rewrite Hf in Hl1; cbn in Hl1; lia..].
  pose proof (steps_above_suffix _ _ _ Hs (st_frames s1) Hl1 ltac:(done)) as [k Hk].
  assert (Hl2 : (length (st_frames s) < length (st_frames s2))%nat) by (rewrite Hk, length_app; lia).
  destruct (step_frames _ _ H2) as [Hg|Hg _|ra a b c d Hg Hpc Hrs|ra sv Hg Hsv]; [rewrite Hg in Hl3; lia|rewrite Hg in Hl3; cbn in Hl3; lia|..];
    assert (k = []) as -> by (apply length_zero_iff_nil; apply (f_equal length) in Hk, Hg; rewrite length_app in Hk; cbn in Hg; lia);
    rewrite app_nil_l, Hf in Hk; rewrite Hk in Hg; simplify_eq.
  split; [done|]. split; [done|auto].
Qed.
End calls.

(** A program with a local function that overwrites r6. *)
Definition call_code : list ebpf_inst :=
  [mk EBPF_OP_MOV64_IMM 6 0 0 5; mk EBPF_OP_CALL 0 1 0 2; mk EBPF_OP_MOV64_REG 0 6 0 0; mk EBPF_OP_EXIT 0 0 0 0;
   mk EBPF_OP_MOV64_IMM 6 0 0 9; mk EBPF_OP_EXIT 0 0 0 0].
Definition call_vm : ubpf_vm := (ubpf_load ubpf_create call_code 48 (Some 4096) true).2.
Definition call_state (n : nat) : exec_state :=
  let s := exec_start 0 0 65536 (replicate 16 0) ∅ in
  match exec_loop call_vm 0 0 65536 n s with Next s => s | _ => s end.

Lemma ubpf_call_returns_witness :
  let s := call_state 1 in let s' := call_state 4 in
  st_pc s' = u16 (st_pc s + 1) ∧ st_frames s' = st_frames s ∧
  reg s' 6 = reg s 6 ∧ reg s' 7 = reg s 7 ∧ reg s' 8 = reg s 8 ∧ reg s' 9 = reg s 9.
Proof.
  apply (ubpf_call_returns call_vm 0 0 65536 (call_state 1) (call_state 2) (call_state 3) (call_state 4));
    [by vm_compute|by vm_compute| |by vm_compute|by vm_compute|by vm_compute].
  apply rtc_once. split; [by vm_compute|vm_compute; lia].
Defined.

(** ** Termination *)

(** No jump goes back, and there are no local calls. *)
Definition forward (code : list ebpf_inst) : Prop :=
  ∀ k inst, code !! k = Some inst →
    (∀ o, find_op ubpf_ops (i_opcode inst) = Some o → is_jump_op o = true → 0 ≤ i_offset inst) ∧
    ¬ (i_opcode inst = op_code EBPF_OP_CALL ∧ i_src inst = 1).

Section forward.
Context (vm vm0 : ubpf_vm) (code : list ebpf_inst) (mem mem_len stack : Z).
Context (Hld : loaded vm code) (Hslots : ∀ i, 0 ≤ i < zlen code → slot_ok vm0 code i) (Hfw : forward code).

(** A round moves on, or ends the run. *)
Lemma forward_step s : 0 ≤ st_pc s ≤ zlen code → st_frames s = [] →
  match exec_step vm mem mem_len stack s with
  | Next s' => st_pc s < st_pc s' ≤ zlen code ∧ st_frames s' = []
  | _ => True
  end.
Proof.
  intros Hpc Hf. pose proof (ld_len _ _ Hld) as Hn. unfold UBPF_MAX_INSTS in Hn.
  unfold exec_step. rewrite (ld_fetch _ _ Hld) by (unfold UBPF_MAX_INSTS; lia).
  destruct (code !! Z.to_nat (st_pc s)) as [inst|] eqn:Hc; [|done]. pose proof (lookup_lt_Some _ _ _ Hc) as Hlt.
  assert (Hpc' : st_pc s < zlen code) by (unfold zlen; lia). rewrite u16_small by lia.
  destruct (Hfw _ _ Hc) as [Hj Hnc]. destruct (find_op _ _) as [o|] eqn:Ho; [|cbn [st_pc set_pc st_frames]; split; [lia|done]].
  pose proof (find_op_Some _ _ _ Ho) as Hop.
  assert (Hval : ∃ j, validate_inst vm0 code (st_pc s) inst = VOk j).
  { destruct (Hslots (st_pc s) ltac:(lia)) as (i&Hi&[?|Hz]); rewrite Hc in Hi; injection Hi as <-; [done|].
    pose proof (op_code_bound o). lia. }
  destruct Hval as [j Hv]. apply exec_inst_cases.
  - intros v _. cbn [st_pc set_reg set_pc st_frames]. split; [lia|done].
  - done.
  - intros b Hjo _. pose proof (valid_jump _ _ _ _ _ _ Hv Ho Hjo). pose proof (Hj _ eq_refl Hjo).
    destruct b; cbn [st_pc set_pc st_frames]; rewrite ?u16_small by lia; (split; [lia|done]).
  - intros size _. cbn zeta. destruct (negb _); [done|]. destruct (ubpf_mem_load _ _ _); [|done]. cbn [st_pc set_reg set_pc st_frames]. split; [lia|done].
  - intros size b _. cbn zeta. destruct (negb _); [done|]. destruct (ubpf_mem_store _ _ _ _); [|done].
    cbn [st_pc set_mem set_pc st_frames]. split; [lia|done].
  - intros _. cbn [st_pc set_pc]. destruct (ubpf_fetch_instruction vm (st_pc s + 1)) as [nx|] eqn:E; [|done].
    rewrite (ld_fetch _ _ Hld) in E by (unfold UBPF_MAX_INSTS; lia). apply lookup_lt_Some in E.
    cbn [st_pc set_reg set_pc st_frames]. rewrite u16_small by (unfold zlen in *; lia). split; [unfold zlen; lia|done].
  - intros _. unfold exec_exit. cbn [st_frames set_pc]. by rewrite Hf.
  - intros ->. unfold exec_call. destruct (_ =? 0).
    + destruct (dispatch vm _) as [f|]; [|done]. destruct (f _ _) as [r m]. destruct (_ && _); [done|].
      cbn [st_pc set_reg set_mem set_pc st_frames]. split; [lia|done].
    + destruct (Z.eqb_spec (i_src inst) 1) as [H1|]; [by destruct Hnc|]. destruct (_ =? 2); [done|].
      cbn [st_pc set_pc st_frames]. split; [lia|done].
  - intros _. cbn [st_pc set_pc st_frames]. split; [lia|done].
Qed.

Lemma forward_loop fuel : ∀ s s', 0 ≤ st_pc s ≤ zlen code → st_frames s = [] → zlen code - st_pc s < Z.of_nat fuel →
  exec_loop vm mem mem_len stack fuel s ≠ Next s'.
Proof.
  induction fuel as [|fuel IH]; intros s s' Hpc Hf Hl; [lia|]. cbn [exec_loop].
  pose proof (forward_step s Hpc Hf) as H1. destruct (exec_step vm mem mem_len stack s) as [s1|v s1|s1|u]; [|done..].
  destruct H1 as [? ?]. apply IH; auto; lia.
Qed.
End forward.

(** C37 (termination). A loaded program without backward jumps and local calls ends, whatever the registers, the memory
    and the helpers do: after one round more than it has instructions, the interpreter has returned a
    value or an error, or has met something undefined. *)
Theorem ubpf_forward_terminates vm code base fm e vm' mem mem_len stack regs m fuel s :
  Forall inst_wf code → ubpf_load vm code (8 * zlen code) (Some base) fm = (Ok tt, e, vm') → forward code →
  zlen code < Z.of_nat fuel → ubpf_exec vm' mem mem_len stack fuel regs m ≠ Next s.
Proof.
  intros Hwf Hl Hfw Hfu. pose proof (load_loaded _ _ _ _ _ _ Hwf Hl) as Hld. apply ubpf_load_inv in Hl as [Hv [fs ->]].
  unfold ubpf_exec. cbn [vm_set_code vm_insts]. pose proof (zlen_nonneg code).
  eapply (forward_loop _ vm); [exact Hld|by apply validate_slots|done|cbn; lia|done|cbn; lia].
Qed.

Lemma ubpf_forward_terminates_witness : ubpf_exec demo_vm 8192 16 65536 8 (replicate 16 0) demo_mem ≠ Next (call_state 0).
Proof.
  apply (ubpf_forward_terminates ubpf_create demo_code 4096 true None); [by apply demo_wf|done| |done].
  intros k inst Hk. split.
  - intros o Ho Hj. do 7 (destruct k as [|k]; [injection Hk as <-; vm_compute in Ho; injection Ho as <-; done|]). done.
  - do 7 (destruct k as [|k]; [injection Hk as <-; by intros []|]). done.
Defined.

(** ** What validation and the bounds check let through *)

(** A move of a constant into a register that a program can write. *)
Definition is_mov_imm (i : ebpf_inst) : Prop := i_opcode i = op_code EBPF_OP_MOV64_IMM ∧ 0 ≤ i_dst i ≤ 9 ∧ 0 ≤ i_src i ≤ 10.

Lemma mov_imm_valid vm code k i : is_mov_imm i → validate_inst vm code k i = VOk (k + 1).
Proof.
  intros (Ho&Hd&Hs). unfold validate_inst, validate_op. rewrite Ho.
  change (find_op ubpf_ops (op_code EBPF_OP_MOV64_IMM)) with (Some EBPF_OP_MOV64_IMM). cbn [is_alu_op orb is_store_op andb].
  destruct (Z.ltb_spec 10 (i_src i)); [lia|]. destruct (Z.ltb_spec 9 (i_dst i)); [lia|]. done.
Qed.

Lemma mov_imms_valid_from vm code fuel : ∀ k, 0 ≤ k → Forall is_mov_imm code → validate_from fuel vm code k = VOk tt.
Proof.
  induction fuel as [|fuel IH]; intros k Hk Hf; cbn [validate_from]; destruct (code !! Z.to_nat k) as [i|] eqn:E; try done.
  rewrite mov_imm_valid by (by eapply Forall_lookup_1). apply IH; [lia|done].
Qed.

Lemma mov_imms_no_calls code : Forall is_mov_imm code → calls_inside code.
Proof. intros Hf k i Hk Ho. destruct (Forall_lookup_1 _ _ _ _ Hf Hk) as [Hm _]. by rewrite Ho in Hm. Qed.

Lemma mov_imms_run vm code mem mem_len stack fuel : ∀ s, loaded vm code → Forall is_mov_imm code →
  0 ≤ st_pc s ≤ zlen code → zlen code - st_pc s < Z.of_nat fuel → exec_loop vm mem mem_len stack fuel s = Undefined UndefFetch.
Proof.
  induction fuel as [|fuel IH]; intros s Hld Hf Hpc Hl; [lia|]. pose proof (ld_len _ _ Hld) as Hn. unfold UBPF_MAX_INSTS in Hn.
  cbn [exec_loop]. unfold exec_step. rewrite (ld_fetch _ _ Hld) by (unfold UBPF_MAX_INSTS; lia).
  destruct (code !! Z.to_nat (st_pc s)) as [i|] eqn:E; [|done]. pose proof (lookup_lt_Some _ _ _ E).
  rewrite u16_small by (unfold zlen in *; lia). destruct (Forall_lookup_1 _ _ _ _ Hf E) as [-> _].
  change (find_op ubpf_ops (op_code EBPF_OP_MOV64_IMM)) with (Some EBPF_OP_MOV64_IMM). cbn [exec_inst alu32 alu64].
  apply IH; auto; cbn [st_pc set_reg set_pc]; unfold zlen in *; lia.
Qed.

(** The validator does not ask for an EXIT: every program of moves alone loads, and when it is run the
    interpreter fetches an instruction from behind its end. *)
Theorem ubpf_no_exit_fetches_outside vm code base mem mem_len stack regs m fuel :
  vm_insts vm = None → Forall inst_wf code → Forall is_mov_imm code → zlen code < UBPF_MAX_INSTS → zlen code < Z.of_nat fuel →
  ∃ vm', (∃ e, ubpf_load vm code (8 * zlen code) (Some base) true = (Ok tt, e, vm')) ∧
    ubpf_exec vm' mem mem_len stack fuel regs m = Undefined UndefFetch.
Proof.
  intros Hi Hwf Hf Hn Hfu. pose proof (zlen_nonneg code).
  assert (Hv : validate vm code = VOk tt).
  { unfold validate. destruct (Z.leb_spec UBPF_MAX_INSTS (zlen code)); [lia|]. by apply mov_imms_valid_from. }
  pose proof (load_valid_result vm code base Hi Hv) as Hr.
  destruct (ubpf_load _ _ _ _ _) as [[r e] vm'] eqn:Hl. destruct Hr as [Hr _]. specialize (Hr (mov_imms_no_calls _ Hf)). subst r.
  exists vm'. split; [by eexists|]. pose proof (load_loaded _ _ _ _ _ _ Hwf Hl) as Hld. apply ubpf_load_inv in Hl as [_ [fs ->]].
  unfold ubpf_exec. cbn [vm_set_code vm_insts]. eapply mov_imms_run; [exact Hld|done|cbn; lia|cbn; lia].
Qed.

Lemma ubpf_no_exit_fetches_outside_witness :
  ∃ vm', (∃ e, ubpf_load ubpf_create [mk EBPF_OP_MOV64_IMM 0 0 0 1] 8 (Some 4096) true = (Ok tt, e, vm')) ∧
    ubpf_exec vm' 0 0 65536 2 (replicate 16 0) ∅ = Undefined UndefFetch.
Proof.
  apply (ubpf_no_exit_fetches_outside ubpf_create [mk EBPF_OP_MOV64_IMM 0 0 0 1] 4096); [done|by apply demo_wf| |done|done].
  constructor; [|constructor]. vm_compute. intuition discriminate.
Defined.

(** The bounds check adds the size to the address before it compares: an access that starts above the
    memory argument and ends behind 2^64 wraps to a small address and passes. *)
Theorem ubpf_bounds_check_wraps vm mem mem_len stack addr size :
  0 < mem → mem + mem_len < 2 ^ 64 → mem ≤ addr < 2 ^ 64 → 2 ^ 64 ≤ addr + size → addr + size - 2 ^ 64 ≤ mem →
  0 ≤ mem_len → bounds_check vm mem mem_len stack addr size = true.
Proof.
  intros Hm Hl Ha Hw Hs H0. unfold bounds_check. destruct (vm_bounds_check_enabled vm); [cbn [negb]|done].
  assert (u64 (addr + size) = addr + size - 2 ^ 64) as ->.
  { unfold u64. symmetry. apply (Z.mod_unique_pos _ _ 1); lia. }
  rewrite u64_small by lia. destruct (Z.eqb_spec mem 0); [lia|]. destruct (Z.leb_spec mem addr); [|lia].
  destruct (Z.leb_spec (addr + size - 2 ^ 64) (mem + mem_len)); [done|lia].
Qed.

Lemma ubpf_bounds_check_wraps_witness : bounds_check ubpf_create 4096 64 65536 (2 ^ 64 - 4) 8 = true.
Proof. apply ubpf_bounds_check_wraps; lia. Defined.
