(* ===== verification/UbpfCompat.v ===== *)
(** * The uBPF virtual machine of bpftime

    vm/compat/ubpf-vm/compat_ubpf.cpp, the wrapper that makes uBPF a virtual machine of bpftime: it numbers
    the helpers of bpftime anew (uBPF has room for 64), and before it loads a program it patches the calls
    with the new numbers and the LDDW instructions with the addresses they stand for. *)

From stdpp Require Import base numbers list strings gmap.
From S2P Require Import Prelude.
From S2P Require Import EbpfIsa.
From S2P Require Import UbpfVm.
From S2P Require Import UbpfSafe.

(** What [error_string] says. *)
Inductive compat_error :=
| LengthNotMultiple | CompatInvalidCall (pc : Z) | CompatNonexistent (imm pc : Z) | LddwLast (pc : Z)
| LddwUndefined (src pc : Z) | LddwUnsupported (src pc : Z) | UbpfMessage (e : option verror).

(** The functions that give the values of LDDW instructions are null when they are not set. *)
Record bpftime_ubpf_vm := BpftimeUbpfVm {
  bv_vm : ubpf_vm;
  bv_error : option compat_error;
  bv_map_by_fd : option (Z → Z);
  bv_map_by_idx : option (Z → Z);
  bv_map_val : option (Z → Z);
  bv_var_addr : option (Z → Z);
  bv_code_addr : option (Z → Z);
  bv_helper_id_map : gmap Z Z;
  bv_next_helper_id : Z
}.

Definition bpftime_ubpf_vm_new : bpftime_ubpf_vm := BpftimeUbpfVm ubpf_create None None None None None None ∅ 1.

Definition bv_set_vm (v : bpftime_ubpf_vm) (vm : ubpf_vm) (e : option compat_error) : bpftime_ubpf_vm :=
  BpftimeUbpfVm vm e (bv_map_by_fd v) (bv_map_by_idx v) (bv_map_val v) (bv_var_addr v) (bv_code_addr v)
    (bv_helper_id_map v) (bv_next_helper_id v).

Definition toggle_bounds_check (v : bpftime_ubpf_vm) (enable : bool) : bool * bpftime_ubpf_vm :=
  let '(r, vm) := ubpf_toggle_bounds_check (bv_vm v) enable in (r, bv_set_vm v vm (bv_error v)).

(** [index] and the new number are of type [size_t]; uBPF takes an [unsigned int]. *)
Definition register_external_function (v : bpftime_ubpf_vm) (index : Z) (name : string) (fn : option ext_func)
  : Z * bpftime_ubpf_vm :=
  let next_id := bv_next_helper_id v in
  let '(r, vm) := ubpf_register (bv_vm v) (u32 next_id) (Some name) fn in
  (r, BpftimeUbpfVm vm (bv_error v) (bv_map_by_fd v) (bv_map_by_idx v) (bv_map_val v) (bv_var_addr v) (bv_code_addr v)
        (<[index := next_id]> (bv_helper_id_map v)) (u64 (next_id + 1))).

Definition set_lddw_helpers (v : bpftime_ubpf_vm) (map_by_fd map_by_idx map_val var_addr code_addr : option (Z → Z)) : bpftime_ubpf_vm :=
  BpftimeUbpfVm (bv_vm v) (bv_error v) map_by_fd map_by_idx map_val var_addr code_addr (bv_helper_id_map v) (bv_next_helper_id v).

Definition set_unwind_function_index (v : bpftime_ubpf_vm) (idx : Z) : Z * bpftime_ubpf_vm :=
  let '(r, vm) := ubpf_set_unwind_function_index (bv_vm v) (u32 idx) in (r, bv_set_vm v vm (bv_error v)).
Definition set_pointer_secret (v : bpftime_ubpf_vm) (secret : Z) : Z * bpftime_ubpf_vm :=
  let '(r, vm) := ubpf_set_pointer_secret (bv_vm v) secret in (r, bv_set_vm v vm (bv_error v)).

(** ** Patching *)

Definition inst_set_imm (inst : ebpf_inst) (imm : Z) : ebpf_inst :=
  EbpfInst (i_opcode inst) (i_dst inst) (i_src inst) (i_offset inst) (s32 imm).
Definition inst_set_src (inst : ebpf_inst) (src : Z) : ebpf_inst :=
  EbpfInst (i_opcode inst) (i_dst inst) src (i_offset inst) (i_imm inst).

(** The value of the LDDW instruction [c], [n] at [pc]; the functions take [uint32_t] and give [uint64_t]. *)
Definition lddw_imm (v : bpftime_ubpf_vm) (pc : Z) (c n : ebpf_inst) : compat_error + Z :=
  let missing := inl (LddwUndefined (i_src c) pc) in
  let call1 f := match f with Some f => inr (u64 (f (u32 (i_imm c)))) | None => missing end in
  let call2 f g := match f, g with
                   | Some f, Some g => inr (u64 (u64 (g (u64 (f (u32 (i_imm c))))) + i_imm n))
                   | _, _ => missing
                   end in
  if i_src c =? 0 then inr (Z.lor (u32 (i_imm c)) (u64 (Z.shiftl (u32 (i_imm n)) 32)))
  else if i_src c =? 1 then call1 (bv_map_by_fd v)
  else if i_src c =? 2 then call2 (bv_map_by_fd v) (bv_map_val v)
  else if i_src c =? 3 then call1 (bv_var_addr v)
  else if i_src c =? 4 then call1 (bv_code_addr v)
  else if i_src c =? 5 then call1 (bv_map_by_idx v)
  else if i_src c =? 6 then call2 (bv_map_by_idx v) (bv_map_val v)
  else inl (LddwUnsupported (i_src c) pc).

(** The new immediate of a call: [std::map::find] converts the immediate to [size_t]. *)
Definition call_imm (v : bpftime_ubpf_vm) (pc : Z) (c : ebpf_inst) : compat_error + Z :=
  match bv_helper_id_map v !! u64 (i_imm c) with
  | Some id => inr id
  | None => inl (if 64 <=? i_imm c then CompatInvalidCall pc else CompatNonexistent (i_imm c) pc)
  end.

(** The loop of [load_code] over the instructions from [i] on. *)
Fixpoint patch_insns (v : bpftime_ubpf_vm) (i : Z) (insns : list ebpf_inst) : compat_error + list ebpf_inst :=
  match insns with
  | [] => inr []
  | c :: rest =>
      if i_opcode c =? op_code EBPF_OP_CALL then
        match call_imm v i c with
        | inl e => inl e
        | inr id => match patch_insns v (i + 1) rest with inl e => inl e | inr out => inr (inst_set_imm c id :: out) end
        end
      else if i_opcode c =? op_code EBPF_OP_LDDW then
        match rest with
        | [] => inl (LddwLast i)
        | n :: rest =>
            match lddw_imm v i c n with
            | inl e => inl e
            | inr imm =>
                match patch_insns v (i + 2) rest with
                | inl e => inl e
                | inr out => inr (inst_set_src (inst_set_imm c (Z.land imm 0xffffffff)) 0 :: inst_set_imm n (Z.shiftr imm 32) :: out)
                end
            end
        end
      else match patch_insns v (i + 1) rest with inl e => inl e | inr out => inr (c :: out) end
  end.

Definition load_code (v : bpftime_ubpf_vm) (code : list ebpf_inst) (code_len : Z) (insts_mem : option Z) (funcs_mem : bool)
  : res unit * bpftime_ubpf_vm :=
  if negb (code_len mod 8 =? 0) then (Raw (-1), bv_set_vm v (bv_vm v) (Some LengthNotMultiple))
  else if zlen code <? code_len / 8 then (Fault, v)
  else
    match patch_insns v 0 (take (Z.to_nat (code_len / 8)) code) with
    | inl e => (Raw (- errno_val EINVAL), bv_set_vm v (bv_vm v) (Some e))
    | inr insns =>
        let '(r, e, vm) := ubpf_load (bv_vm v) insns (8 * zlen insns) insts_mem funcs_mem in
        (r, bv_set_vm v vm (if is_ok r then bv_error v else Some (UbpfMessage e)))
    end.

Definition unload_code (v : bpftime_ubpf_vm) : bpftime_ubpf_vm := bv_set_vm v (ubpf_unload_code (bv_vm v)) (bv_error v).

Definition exec (v : bpftime_ubpf_vm) (mem mem_len stack : Z) (fuel : nat) (regs : list Z) (m : memory) : outcome :=
  ubpf_exec (bv_vm v) mem mem_len stack fuel regs m.

(** ** What patching does *)

(** Whether the loop starts a round at slot [k]: the second halves of LDDW instructions are skipped. *)
Fixpoint is_boundary (code : list ebpf_inst) (k : nat) : bool :=
  match code, k with
  | [], _ => false
  | _, O => true
  | c :: rest, S k =>
      if i_opcode c =? op_code EBPF_OP_LDDW then
        match rest, k with _ :: rest, S k => is_boundary rest k | _, _ => false end
      else is_boundary rest k
  end.

(** The slots that a round which starts at [c] writes. *)
Definition patched (v : bpftime_ubpf_vm) (i : Z) (c : ebpf_inst) (n o o' : option ebpf_inst) : Prop :=
  if i_opcode c =? op_code EBPF_OP_CALL then ∃ id, call_imm v i c = inr id ∧ o = Some (inst_set_imm c id)
  else if i_opcode c =? op_code EBPF_OP_LDDW then
    ∃ n' imm, n = Some n' ∧ lddw_imm v i c n' = inr imm ∧
      o = Some (inst_set_src (inst_set_imm c (Z.land imm 0xffffffff)) 0) ∧ o' = Some (inst_set_imm n' (Z.shiftr imm 32))
  else o = Some c.

Lemma call_not_lddw c : i_opcode c =? op_code EBPF_OP_CALL = true → i_opcode c =? op_code EBPF_OP_LDDW = false.
Proof. rewrite Z.eqb_eq. by intros ->. Qed.

(** Lists of instructions from the front, an LDDW with its second half. *)
Lemma insns_ind (P : list ebpf_inst → Prop) :
  P [] → (∀ c rest, P rest → (∀ n rest', rest = n :: rest' → P rest') → P (c :: rest)) → ∀ l, P l.
Proof.
  intros H0 Hs l. cut (P l ∧ P (tail l)); [tauto|]. induction l as [|c l [IH1 IH2]]; [done|]. split; [|done].
  apply Hs; [done|]. by intros n rest' ->.
Qed.

Lemma patch_insns_at v code : ∀ i out, patch_insns v i code = inr out →
  length out = length code ∧
  ∀ k c, is_boundary code k = true → code !! k = Some c → patched v (i + Z.of_nat k) c (code !! S k) (out !! k) (out !! S k).
Proof.
  induction code as [|c rest IH1 IH2] using insns_ind; intros i out; cbn [patch_insns]; [by intros [= <-]|].
  destruct (i_opcode c =? op_code EBPF_OP_CALL) eqn:Ec; [|destruct (i_opcode c =? op_code EBPF_OP_LDDW) eqn:El].
  - destruct (call_imm v i c) as [|id] eqn:Ei; [done|]. destruct (patch_insns v (i + 1) rest) as [|out'] eqn:Ep; [done|]. intros [= <-].
    apply IH1 in Ep as [Hl Hp]. split; [cbn; lia|]. intros [|k] d Hb Hk.
    + injection Hk as <-. unfold patched. rewrite Ec, Z.add_0_r. eauto.
    + cbn [is_boundary] in Hb. rewrite (call_not_lddw c Ec) in Hb. replace (i + Z.of_nat (S k)) with (i + 1 + Z.of_nat k) by lia. by apply Hp.
  - destruct rest as [|n rest]; [done|]. destruct (lddw_imm v i c n) as [|imm] eqn:Ei; [done|].
    destruct (patch_insns v (i + 2) rest) as [|out'] eqn:Ep; [done|]. intros [= <-].
    apply (IH2 n rest eq_refl) in Ep as [Hl Hp]. split; [cbn; lia|]. intros [|[|k]] d Hb Hk.
    + injection Hk as <-. unfold patched. rewrite Ec, El, Z.add_0_r. eauto 6.
    + cbn [is_boundary] in Hb. by rewrite El in Hb.
    + cbn [is_boundary] in Hb. rewrite El in Hb. replace (i + Z.of_nat (S (S k))) with (i + 2 + Z.of_nat k) by lia. by apply Hp.
  - destruct (patch_insns v (i + 1) rest) as [|out'] eqn:Ep; [done|]. intros [= <-].
    apply IH1 in Ep as [Hl Hp]. split; [cbn; lia|]. intros [|k] d Hb Hk.
    + injection Hk as <-. unfold patched. by rewrite Ec, El.
    + cbn [is_boundary] in Hb. rewrite El in Hb. replace (i + Z.of_nat (S k)) with (i + 1 + Z.of_nat k) by lia. by apply Hp.
Qed.

Lemma inst_set_imm_wf c x : inst_wf c → inst_wf (inst_set_imm c x).
Proof. unfold inst_wf. cbn [inst_set_imm i_opcode i_dst i_src i_offset i_imm]. pose proof (s32_bound x). lia. Qed.
Lemma inst_set_src_wf c : inst_wf c → inst_wf (inst_set_src c 0).
Proof. unfold inst_wf. cbn [inst_set_src i_opcode i_dst i_src i_offset i_imm]. lia. Qed.

Lemma patch_insns_wf v code : ∀ i out, Forall inst_wf code → patch_insns v i code = inr out → Forall inst_wf out.
Proof.
  induction code as [|c rest IH1 IH2] using insns_ind; intros i out Hwf; cbn [patch_insns]; [by intros [= <-]|].
  apply Forall_cons in Hwf as [Hc Hr].
  destruct (i_opcode c =? op_code EBPF_OP_CALL); [|destruct (i_opcode c =? op_code EBPF_OP_LDDW)].
  - destruct (call_imm v i c) as [|id]; [done|]. destruct (patch_insns v (i + 1) rest) eqn:Ep; [done|]. intros [= <-].
    constructor; [by apply inst_set_imm_wf|eauto].
  - destruct rest as [|n rest]; [done|]. destruct (lddw_imm v i c n); [done|].
    destruct (patch_insns v (i + 2) rest) eqn:Ep; [done|]. intros [= <-]. apply Forall_cons in Hr as [Hn Hr].
    constructor; [by apply inst_set_src_wf, inst_set_imm_wf|]. constructor; [by apply inst_set_imm_wf|eauto].
  - destruct (patch_insns v (i + 1) rest) eqn:Ep; [done|]. intros [= <-]. constructor; eauto.
Qed.

(** A program that was loaded: the machine holds the patched program, which is valid. *)
Lemma load_code_inv v code base fm v' :
  Forall inst_wf code → load_code v code (8 * zlen code) (Some base) fm = (Ok tt, v') →
  ∃ out, patch_insns v 0 code = inr out ∧ Forall inst_wf out ∧ validate (bv_vm v) out = VOk tt ∧ loaded (bv_vm v') out ∧
    ∃ w n fs, bv_vm v' = vm_set_code (bv_vm v) w n (vm_jitted (bv_vm v)) fs.
Proof.
  intros Hwf. unfold load_code. rewrite Z.mul_comm, Z.mod_mul, Z.div_mul by lia. cbn [Z.eqb negb].
  rewrite Z.ltb_irrefl, take_ge by (unfold zlen; lia). destruct (patch_insns v 0 code) as [|out] eqn:Ep; [done|].
  destruct (ubpf_load _ _ _ _ _) as [[r e] vm'] eqn:El. cbn [bv_set_vm]. intros [= -> <-]. cbn [bv_vm].
  pose proof (patch_insns_wf _ _ _ _ Hwf Ep) as Hw. exists out. pose proof (load_loaded _ _ _ _ _ _ Hw El).
  apply ubpf_load_inv in El as [? [fs ->]]. eauto 10.
Qed.

(** ** The value of an LDDW instruction *)

Lemma lddw_imm_bound v i c n x : lddw_imm v i c n = inr x → in_u64 x.
Proof.
  unfold lddw_imm, in_u64. intros Hx.
  repeat match type of Hx with (if ?b then _ else _) = _ => destruct b end;
    repeat match type of Hx with match ?o with _ => _ end = _ => destruct o end; try done; injection Hx as <-; try apply u64_bound.
  apply (lor_bound _ _ 64); [lia|pose proof (u32_bound (i_imm c)); lia|apply u64_bound].
Qed.

(** The halves that the patch writes give the value back when the instruction is executed. *)
Lemma lddw_halves x : in_u64 x →
  Z.lor (u32 (s32 (Z.land x 0xffffffff))) (u64 (Z.shiftl (u64 (s32 (Z.shiftr x 32))) 32)) = x.
Proof.
  intros Hx. rewrite u32_s32. change 0xffffffff with (Z.ones 32). rewrite Z.land_ones by lia. unfold u32. rewrite Z.mod_mod by lia.
  assert (u64 (Z.shiftl (u64 (s32 (Z.shiftr x 32))) 32) = Z.shiftl (Z.shiftr x 32) 32) as ->.
  { pose proof (u32_s32 (Z.shiftr x 32)) as Hu. rewrite Z.shiftr_div_pow2 in * by lia. unfold in_u64 in Hx.
    assert (0 ≤ x / 2 ^ 32 < 2 ^ 32) by (split; [apply Z.div_pos; lia|apply Z.div_lt_upper_bound; lia]).
    rewrite (u32_small (x / 2 ^ 32)) in Hu by done. rewrite !Z.shiftl_mul_pow2 by lia. unfold u64, u32 in *.
    rewrite Z.mul_mod_idemp_l by lia. rewrite <- Hu at 2. change (2 ^ 64) with (2 ^ 32 * 2 ^ 32). by rewrite Z.mul_mod_distr_r by lia. }
  apply Z.bits_inj'. intros k Hk. rewrite Z.lor_spec, testbit_mod_pow2 by lia.
  destruct (Z.ltb_spec k 32) as [Hlt|Hge].
  - rewrite Z.shiftl_spec_low by lia. by rewrite orb_false_r.
  - rewrite Z.shiftl_spec_high, Z.shiftr_spec by lia. cbn [orb andb]. f_equal. lia.
Qed.

(** One round of a program that was loaded, in terms of the patched slot. *)
Lemma loaded_step vm out mem mem_len stack s c o :
  loaded vm out → 0 ≤ st_pc s → out !! Z.to_nat (st_pc s) = Some c → find_op ubpf_ops (i_opcode c) = Some o →
  exec_step vm mem mem_len stack s = exec_inst vm mem mem_len stack (set_pc s (st_pc s + 1)) o c.
Proof.
  intros Hld Hpc Hc Ho. pose proof (lookup_lt_Some _ _ _ Hc) as Hlt. pose proof (ld_len _ _ Hld) as Hn. unfold UBPF_MAX_INSTS, zlen in *.
  unfold exec_step. rewrite (ld_fetch _ _ Hld) by (unfold UBPF_MAX_INSTS; lia). by rewrite Hc, u16_small, Ho by lia.
Qed.

Lemma lddw_step v code base v' k c n imm mem mem_len stack s :
  Forall inst_wf code → load_code v code (8 * zlen code) (Some base) true = (Ok tt, v') →
  is_boundary code k = true → code !! k = Some c → code !! S k = Some n → i_opcode c = op_code EBPF_OP_LDDW →
  lddw_imm v (Z.of_nat k) c n = inr imm → st_pc s = Z.of_nat k →
  exec_step (bv_vm v') mem mem_len stack s = Next (set_reg (set_pc s (Z.of_nat k + 2)) (i_dst c) imm).
Proof.
  intros Hwf Hl Hb Hc Hn Ho Hi Hpc. apply load_code_inv in Hl as (out&Hp&Hwo&_&Hld&_); [|done].
  destruct (patch_insns_at _ _ _ _ Hp) as [_ Hat]. specialize (Hat k c Hb Hc). unfold patched in Hat. rewrite Ho in Hat.
  change (op_code EBPF_OP_LDDW =? op_code EBPF_OP_CALL) with false in Hat. rewrite Z.eqb_refl, Hn, Z.add_0_l in Hat.
  destruct Hat as (n'&imm'&[= <-]&Hi'&Hk&Hk'). rewrite Hi in Hi'. injection Hi' as <-.
  pose proof (lookup_lt_Some _ _ _ Hk') as Hlt. pose proof (ld_len _ _ Hld) as Hz. unfold UBPF_MAX_INSTS, zlen in Hz.
  rewrite (loaded_step _ out _ _ _ s _ EBPF_OP_LDDW Hld ltac:(lia) ltac:(rewrite Hpc, Nat2Z.id; exact Hk) ltac:(cbn; by rewrite Ho)).
  cbn [exec_inst alu32 alu64 jump_unsigned jump_signed load_size store_size st_pc set_pc]. rewrite Hpc.
  rewrite (ld_fetch _ _ Hld) by (unfold UBPF_MAX_INSTS; lia). replace (Z.to_nat (Z.of_nat k + 1)) with (S k) by lia. rewrite Hk'.
  cbn [inst_set_src inst_set_imm i_imm i_dst]. rewrite lddw_halves by (by eapply lddw_imm_bound). rewrite u16_small by lia.
  by replace (Z.of_nat k + 1 + 1) with (Z.of_nat k + 2) by lia.
Qed.

(** An LDDW instruction of a program that the wrapper loaded moves the 64-bit value that its kind
    stands for into its register: the constant of the two halves, the address of a map, of a value in a map, of a variable or
    of code. *)
Theorem compat_lddw_value v code base v' k c n imm mem mem_len stack s :
  Forall inst_wf code → load_code v code (8 * zlen code) (Some base) true = (Ok tt, v') →
  is_boundary code k = true → code !! k = Some c → code !! S k = Some n → i_opcode c = op_code EBPF_OP_LDDW →
  lddw_imm v (Z.of_nat k) c n = inr imm → st_pc s = Z.of_nat k →
  exec_step (bv_vm v') mem mem_len stack s = Next (set_reg (set_pc s (Z.of_nat k + 2)) (i_dst c) imm).
Proof. apply lddw_step. Qed.

(** ** Helpers *)

(** The helpers that a client has registered, under the numbers of bpftime. *)
Definition register_all (v : bpftime_ubpf_vm) (fns : list (Z * string * ext_func)) : bpftime_ubpf_vm :=
  foldl (λ v '(index, name, fn), (register_external_function v index name (Some fn)).2) v fns.
Definition registered (fns : list (Z * string * ext_func)) : gmap Z ext_func :=
  foldl (λ g '(index, _, fn), <[index := fn]> g) ∅ fns.

(** The map of numbers stands for the helpers [g] after [n] registrations. *)
Record helpers_ok (v : bpftime_ubpf_vm) (g : gmap Z ext_func) (n : Z) : Prop := {
  ho_next : bv_next_helper_id v = 1 + n;
  ho_len : zlen (vm_ext_funcs (bv_vm v)) = MAX_EXT_FUNCS;
  ho_dispatch : vm_dispatcher (bv_vm v) = Some DefaultDispatcher;
  ho_unwind : vm_unwind_stack_extension_index (bv_vm v) = -1;
  ho_dom : dom (bv_helper_id_map v) = dom g;
  ho_fn : ∀ index id f, bv_helper_id_map v !! index = Some id → g !! index = Some f →
    1 ≤ id ≤ n ∧ vm_ext_funcs (bv_vm v) !! Z.to_nat id = Some (Some f)
}.

Lemma register_ok v g n index name fn : helpers_ok v g n → 0 ≤ n < MAX_EXT_FUNCS - 1 →
  helpers_ok (register_external_function v index name (Some fn)).2 (<[index := fn]> g) (n + 1).
Proof.
  intros [Hn Hl Hd Hu Hdom Hf] Hlt. unfold MAX_EXT_FUNCS in *. unfold register_external_function, ubpf_register. rewrite Hn.
  rewrite u32_small by lia. unfold MAX_EXT_FUNCS. destruct (Z.leb_spec 64 (1 + n)); [lia|]. cbn [snd].
  split; cbn [bv_next_helper_id bv_vm vm_set_funcs vm_ext_funcs vm_dispatcher vm_unwind_stack_extension_index bv_helper_id_map]; try done.
  - rewrite u64_small by lia. lia.
  - unfold zlen in *. by rewrite length_insert.
  - set_solver.
  - intros i id f Hi Hg. destruct (decide (i = index)) as [->|Hne].
    + rewrite lookup_insert_eq in Hi. injection Hi as <-. rewrite lookup_insert_eq in Hg. injection Hg as <-. split; [lia|].
      apply list_lookup_insert_eq. unfold zlen in Hl. lia.
    + rewrite lookup_insert_ne in Hi by done. rewrite lookup_insert_ne in Hg by done. destruct (Hf i id f Hi Hg) as [? Hfi]. split; [lia|].
      rewrite list_lookup_insert_ne by lia. done.
Qed.

Lemma register_all_ok fns : ∀ v g n, helpers_ok v g n → 0 ≤ n → n + zlen fns < MAX_EXT_FUNCS →
  helpers_ok (register_all v fns) (foldl (λ g '(index, _, fn), <[index := fn]> g) g fns) (n + zlen fns).
Proof.
  induction fns as [|[[index name] fn] fns IH]; intros v g n Hok Hn Hl.
  { unfold zlen. cbn. by rewrite Z.add_0_r. }
  rewrite zlen_cons in *. pose proof (zlen_nonneg fns). cbn [register_all foldl].
  replace (n + (zlen fns + 1)) with (n + 1 + zlen fns) by lia. apply IH; [apply register_ok; [done|]|..]; unfold MAX_EXT_FUNCS in *; lia.
Qed.

Lemma helpers_new : helpers_ok bpftime_ubpf_vm_new ∅ 0.
Proof. by split. Qed.

Definition ldmap_code : list ebpf_inst :=
  [mk EBPF_OP_LDDW 1 2 0 5; EbpfInst 0 0 0 0 (-8); mk EBPF_OP_MOV64_IMM 2 0 0 1; mk EBPF_OP_CALL 0 0 0 1; mk EBPF_OP_EXIT 0 0 0 0].
Definition sum_helper : ext_func := λ args m, (args !!! 0%nat + args !!! 1%nat, m).
Definition ldmap_fns : list (Z * string * ext_func) := [(7, "seven"%string, λ _ m, (7, m)); (1, "sum"%string, sum_helper)].
Definition ldmap_vm (v : bpftime_ubpf_vm) : bpftime_ubpf_vm :=
  set_lddw_helpers v (Some (λ fd, 2 ^ 40 + fd)) None (Some (λ m, m * 16)) None None.
Definition start_state (pc : Z) : exec_state := ExecState pc (replicate 16 0) ∅ [].

Lemma compat_lddw_value_witness :
  let v := ldmap_vm (register_all bpftime_ubpf_vm_new ldmap_fns) in
  exec_step (bv_vm (load_code v ldmap_code 40 (Some 4096) true).2) 0 0 65536 (start_state 0) =
    Next (set_reg (set_pc (start_state 0) 2) 1 ((2 ^ 40 + 5) * 16 - 8)).
Proof.
  intros v. apply (compat_lddw_value v ldmap_code 4096 _ 0 (mk EBPF_OP_LDDW 1 2 0 5) (EbpfInst 0 0 0 0 (-8))); [by apply demo_wf|..]; try done.
Defined.

Lemma helper_call_step v g n code base v' k c f mem mem_len stack s :
  helpers_ok v g n → n < MAX_EXT_FUNCS → Forall inst_wf code →
  load_code v code (8 * zlen code) (Some base) true = (Ok tt, v') →
  is_boundary code k = true → code !! k = Some c → i_opcode c = op_code EBPF_OP_CALL → i_src c = 0 →
  g !! u64 (i_imm c) = Some f → st_pc s = Z.of_nat k →
  let '(r, m) := f [reg s 1; reg s 2; reg s 3; reg s 4; reg s 5] (st_mem s) in
  exec_step (bv_vm v') mem mem_len stack s = Next (set_reg (set_mem (set_pc s (Z.of_nat k + 1)) m) 0 (u64 r)).
Proof.
  intros [_ _ Hd Hu _ Hfn] Hn Hwf Hl Hb Hc Ho Hs Hf Hpc.
  apply load_code_inv in Hl as (out&Hp&_&_&Hld&(w&num&fs&Hvm)); [|done].
  destruct (patch_insns_at _ _ _ _ Hp) as [_ Hat]. specialize (Hat k c Hb Hc). unfold patched in Hat. rewrite Ho, Z.eqb_refl in Hat.
  destruct Hat as (id&Hid&Hk). unfold call_imm in Hid. destruct (bv_helper_id_map _ !! _) as [id'|] eqn:Hm; [|by destruct (64 <=? _)].
  injection Hid as ->. destruct (Hfn _ _ _ Hm Hf) as [Hid Hfs]. unfold MAX_EXT_FUNCS in Hn.
  rewrite (loaded_step _ out _ _ _ s _ EBPF_OP_CALL Hld ltac:(lia) ltac:(rewrite Hpc, Nat2Z.id; exact Hk) ltac:(cbn; by rewrite Ho)).
  cbn [exec_inst alu32 alu64 jump_unsigned jump_signed load_size store_size]. unfold exec_call.
  cbn [inst_set_imm i_src i_imm]. rewrite Hs, u32_s32, u32_small by lia. cbn [Z.eqb]. unfold dispatch, ubpf_default_external_dispatcher.
  rewrite Hvm. cbn [vm_set_code vm_dispatcher vm_ext_funcs vm_unwind_stack_extension_index]. rewrite Hd, Hfs, Hu. cbn [mbind option_bind].
  rewrite Hpc. cbn [st_mem set_pc]. unfold reg at 1 2 3 4 5. cbn [st_reg set_pc]. unfold reg.
  destruct (f _ _) as [r m]. rewrite s32_small by lia. destruct (Z.eqb_spec id (-1)); [lia|]. done.
Qed.

(** A program calls helpers by the numbers of bpftime: after up to 63 registrations on a new machine
    and the load of the program, a call of number [index] runs the function that was registered last under that number on
    the registers 1 to 5, whatever number uBPF gave it. *)
Theorem compat_helper_call fns code base v' k c f mem mem_len stack s :
  zlen fns < MAX_EXT_FUNCS → Forall inst_wf code →
  load_code (register_all bpftime_ubpf_vm_new fns) code (8 * zlen code) (Some base) true = (Ok tt, v') →
  is_boundary code k = true → code !! k = Some c → i_opcode c = op_code EBPF_OP_CALL → i_src c = 0 →
  registered fns !! u64 (i_imm c) = Some f → st_pc s = Z.of_nat k →
  let '(r, m) := f [reg s 1; reg s 2; reg s 3; reg s 4; reg s 5] (st_mem s) in
  exec_step (bv_vm v') mem mem_len stack s = Next (set_reg (set_mem (set_pc s (Z.of_nat k + 1)) m) 0 (u64 r)).
Proof.
  intros Hn. pose proof (zlen_nonneg fns). by apply (helper_call_step _ (registered fns) (0 + zlen fns)); [apply register_all_ok; [apply helpers_new|lia|lia]|lia].
Qed.

Lemma compat_helper_call_witness :
  exec_step (bv_vm (load_code (register_all bpftime_ubpf_vm_new ldmap_fns) (drop 2 ldmap_code) 24 (Some 4096) true).2) 0 0 65536
    (set_reg (set_reg (start_state 1) 1 40) 2 2) =
    Next (set_reg (set_mem (set_pc (set_reg (set_reg (start_state 1) 1 40) 2 2) 2) ∅) 0 42).
Proof.
  apply (compat_helper_call ldmap_fns (drop 2 ldmap_code) 4096 _ 1 (mk EBPF_OP_CALL 0 0 0 1) sum_helper); try done. by apply demo_wf.
Defined.

(** The wrapper takes a call of a local function for the call of a helper: a program with a local call is
    rejected unless the distance is the number of a helper, and then the call goes to a slot which depends on the number
    that uBPF gave that helper. *)
Theorem compat_local_call_redirected v code base k c :
  Forall inst_wf code → is_boundary code k = true → code !! k = Some c → i_opcode c = op_code EBPF_OP_CALL → i_src c = 1 →
  match bv_helper_id_map v !! u64 (i_imm c) with
  | None => ∃ e, load_code v code (8 * zlen code) (Some base) true = (Raw (- errno_val EINVAL), bv_set_vm v (bv_vm v) (Some e))
  | Some id => ∀ v' mem mem_len stack s s', load_code v code (8 * zlen code) (Some base) true = (Ok tt, v') →
      st_pc s = Z.of_nat k → exec_step (bv_vm v') mem mem_len stack s = Next s' → st_pc s' = u16 (Z.of_nat k + 1 + s32 id)
  end.
Proof.
  intros Hwf Hb Hc Ho Hs.
  assert (Hid : ∀ out, patch_insns v 0 code = inr out → ∃ id, bv_helper_id_map v !! u64 (i_imm c) = Some id ∧ out !! k = Some (inst_set_imm c id)).
  { intros out Hp. destruct (patch_insns_at _ _ _ _ Hp) as [_ Hat]. specialize (Hat k c Hb Hc). unfold patched in Hat.
    rewrite Ho, Z.eqb_refl in Hat. destruct Hat as (id&Hid&Hk). unfold call_imm in Hid.
    destruct (bv_helper_id_map _ !! _) as [id'|]; [|by destruct (64 <=? _)]. injection Hid as ->. eauto. }
  destruct (bv_helper_id_map v !! u64 (i_imm c)) as [id|] eqn:Hm.
  - intros v' mem mem_len stack s s' Hl Hpc Hst. apply load_code_inv in Hl as (out&Hp&_&_&Hld&_); [|done].
    destruct (Hid out Hp) as (id'&[= <-]&Hk).
    rewrite (loaded_step _ out _ _ _ s _ EBPF_OP_CALL Hld ltac:(lia) ltac:(rewrite Hpc, Nat2Z.id; exact Hk) ltac:(cbn; by rewrite Ho)) in Hst.
    cbn [exec_inst alu32 alu64 jump_unsigned jump_signed load_size store_size] in Hst. unfold exec_call in Hst.
    cbn [inst_set_imm i_src i_imm] in Hst. rewrite Hs in Hst. cbn [Z.eqb Pos.eqb] in Hst. destruct (_ <=? _); [done|]. injection Hst as <-.
    cbn [st_pc set_pc]. by rewrite Hpc.
  - unfold load_code. rewrite Z.mul_comm, Z.mod_mul, Z.div_mul by lia. cbn [Z.eqb negb].
    rewrite Z.ltb_irrefl, take_ge by (unfold zlen; lia). destruct (patch_insns v 0 code) as [e|out] eqn:Ep; [by exists e|].
    by destruct (Hid out eq_refl) as (id&?&_).
Qed.

Lemma compat_local_call_redirected_witness :
  let v := register_all bpftime_ubpf_vm_new ldmap_fns in
  let code := [mk EBPF_OP_CALL 0 1 0 2; mk EBPF_OP_EXIT 0 0 0 0; mk EBPF_OP_EXIT 0 0 0 0; mk EBPF_OP_EXIT 0 0 0 0] in
  ∃ e, load_code v code 32 (Some 4096) true = (Raw (-22), bv_set_vm v (bv_vm v) (Some e)).
Proof.
  intros v code. apply (compat_local_call_redirected v code 4096 0 (mk EBPF_OP_CALL 0 1 0 2)); try done. by apply demo_wf.
Defined.
