(* ===== verification/LlvmIr.v ===== *)
(** * The LLVM instructions that the compiler emits

    vm/llvm-jit/src/compiler.cpp calls the IRBuilder of LLVM. This file has the instructions that those
    calls create, as data, a monad for the calls, and what the instructions do. LLVM is not part of the
    repository: its operations are the class [Llvm], with the laws that its language reference states and
    nothing for what the reference leaves undefined (a division by zero, a shift by the width). What a run does is
    undefined too where it loads or stores at an address that is not aligned for the type, and where it computes
    with a variable that has not been written. Values are numbered from 0 within the code of one eBPF instruction,
    since none is used outside of it. *)

From stdpp Require Import base numbers list strings gmap.
From S2P Require Import Prelude.
From S2P Require Import EbpfIsa.
From S2P Require Import UbpfVm.

(** ** Types and values *)

Inductive ity := I1 | I8 | I16 | I32 | I64 | PtrTy.
#[export] Instance ity_eq_dec : EqDecision ity.
Proof. solve_decision. Defined.

Definition width (t : ity) : Z := match t with I1 => 1 | I8 => 8 | I16 => 16 | I32 => 32 | I64 | PtrTy => 64 end.

(** What a [Value*] refers to: a constant, the address of the block of an instruction, an argument of the function, the
    stack of the program, or the result of an instruction. *)
Inductive operand :=
| Const (t : ity) (z : Z)
| BlockAddr (pc : Z)
| Arg (t : ity) (n : nat)
| StackBegin
| Val (t : ity) (n : nat).

Definition ty_of (v : operand) : ity :=
  match v with Const t _ | Arg t _ | Val t _ => t | BlockAddr _ | StackBegin => PtrTy end.

Definition getInt32 (z : Z) : operand := Const I32 (u32 z).
Definition getInt64 (z : Z) : operand := Const I64 (u64 z).

(** ** Instructions *)

Inductive binop := Add | Sub | Mul | UDiv | SDiv | URem | SRem | And | Or | Xor | Shl | LShr | AShr.
Inductive icmp := EQ | NE | UGT | UGE | ULT | ULE | SGT | SGE | SLT | SLE.
Inductive castop := Trunc | ZExt | SExt.
Inductive rmwop := RmwAdd | RmwAnd | RmwOr | RmwXor | RmwXchg.

(** The places of loads and stores: the variables of the registers, [callItemCnt], an element of [callStack], and the
    memory that a pointer of the program points to. *)
Inductive place := PReg (r : Z) | PCnt | PSlot (idx : operand) | PMem (ptr : operand).

Inductive instr :=
| ILoad (t : ity) (p : place)
| IStore (v : operand) (p : place)
| IBin (op : binop) (a b : operand)
| IICmp (p : icmp) (a b : operand)
| ICast (c : castop) (a : operand) (t : ity)
| ISelect (c a b : operand)
| IGep (base : operand) (off : Z)
| ICall (name : string) (args : list operand)
| IAtomicRMW (op : rmwop) (ptr v : operand) (align : Z)
| ICmpXchg (ptr cmp new : operand).

(** The blocks: of an instruction, [exitBlock] and [localFuncReturnBlock]. *)
Inductive block := BInst (pc : Z) | BExit | BLocalRet.
Inductive terminator :=
| TBr (b : block)
| TCondBr (c : operand) (b1 b2 : block)
| TIndirectBr (v : operand) (dests : list Z)
| TRet (v : operand)
| TRetVoid.

(** The code of one eBPF instruction in a block. *)
Definition group : Type := list instr * option terminator.

(** The function: the blocks of the instructions in the order of [allBlocks], and the destinations of [localRetBlk]. *)
Record jmodule := JModule {
  jm_setup : list group;
  jm_blocks : list (Z * list group);
  jm_exit : list group;
  jm_local_ret : list group
}.

(** ** The operations of LLVM *)

(** The signed reading of [w] bits. *)
Definition sgnw (w x : Z) : Z := let y := x mod 2 ^ w in if 2 ^ (w - 1) <=? y then y - 2 ^ w else y.

(** [verifyModule] finds no error only when each block has one terminator, at its end. *)
Definition terminated (gs : list group) : Prop := ∃ init g, gs = init ++ [g] ∧ is_Some g.2 ∧ Forall (λ h, h.2 = None) init.

(** [ll_binop] is [None] when the behaviour is not defined. Numbers are unsigned. *)
Class Llvm := {
  ll_binop : binop → Z → Z → Z → option Z;
  ll_icmp : icmp → Z → Z → Z → bool;
  ll_cast : castop → Z → Z → Z → Z;
  ll_verify : jmodule → bool;
  ll_add w a b : ll_binop Add w a b = Some ((a + b) mod 2 ^ w);
  ll_sub w a b : ll_binop Sub w a b = Some ((a - b) mod 2 ^ w);
  ll_mul w a b : ll_binop Mul w a b = Some ((a * b) mod 2 ^ w);
  ll_and w a b : ll_binop And w a b = Some (Z.land a b);
  ll_or w a b : ll_binop Or w a b = Some (Z.lor a b);
  ll_xor w a b : ll_binop Xor w a b = Some (Z.lxor a b);
  ll_udiv w a b : b ≠ 0 → ll_binop UDiv w a b = Some (a / b);
  ll_urem w a b : b ≠ 0 → ll_binop URem w a b = Some (a mod b);
  ll_sdiv w a b : b ≠ 0 → sgnw w a ≠ - 2 ^ (w - 1) ∨ sgnw w b ≠ -1 → ll_binop SDiv w a b = Some (Z.quot (sgnw w a) (sgnw w b) mod 2 ^ w);
  ll_srem w a b : b ≠ 0 → sgnw w a ≠ - 2 ^ (w - 1) ∨ sgnw w b ≠ -1 → ll_binop SRem w a b = Some (Z.rem (sgnw w a) (sgnw w b) mod 2 ^ w);
  ll_shl w a b : 0 ≤ b < w → ll_binop Shl w a b = Some (Z.shiftl a b mod 2 ^ w);
  ll_lshr w a b : 0 ≤ b < w → ll_binop LShr w a b = Some (Z.shiftr a b);
  ll_ashr w a b : 0 ≤ b < w → ll_binop AShr w a b = Some (Z.shiftr (sgnw w a) b mod 2 ^ w);
  ll_eq w a b : ll_icmp EQ w a b = (a =? b);
  ll_ne w a b : ll_icmp NE w a b = negb (a =? b);
  ll_ugt w a b : ll_icmp UGT w a b = (b <? a);
  ll_uge w a b : ll_icmp UGE w a b = (b <=? a);
  ll_ult w a b : ll_icmp ULT w a b = (a <? b);
  ll_ule w a b : ll_icmp ULE w a b = (a <=? b);
  ll_sgt w a b : ll_icmp SGT w a b = (sgnw w b <? sgnw w a);
  ll_sge w a b : ll_icmp SGE w a b = (sgnw w b <=? sgnw w a);
  ll_slt w a b : ll_icmp SLT w a b = (sgnw w a <? sgnw w b);
  ll_sle w a b : ll_icmp SLE w a b = (sgnw w a <=? sgnw w b);
  ll_trunc w w' a : ll_cast Trunc w w' a = a mod 2 ^ w';
  ll_zext w w' a : ll_cast ZExt w w' a = a;
  ll_sext w w' a : ll_cast SExt w w' a = sgnw w a mod 2 ^ w';
  ll_verify_blocks m : ll_verify m = true → ∀ b gs, (b, gs) ∈ jm_blocks m → terminated gs
}.

(** ** Runs *)

(** A number of a type, the address of a block, or what a variable contains that has not been written. *)
Inductive rv := RInt (t : ity) (z : Z) | RBlk (pc : Z) | RUndef.

(** The variables of the function and the memory; a register, and an element of [callStack], without a value has not
    been written. *)
Record jstate := JState {
  j_reg : list (option Z);
  j_mem : memory;
  j_cnt : Z;
  j_slots : list (option rv)
}.
Definition j_set_reg (s : jstate) (r v : Z) : jstate := JState (<[Z.to_nat r := Some v]> (j_reg s)) (j_mem s) (j_cnt s) (j_slots s).
(** The register gets a value that is not defined. *)
Definition j_unset_reg (s : jstate) (r : Z) : jstate := JState (<[Z.to_nat r := None]> (j_reg s)) (j_mem s) (j_cnt s) (j_slots s).
Definition j_set_mem (s : jstate) (m : memory) : jstate := JState (j_reg s) m (j_cnt s) (j_slots s).

(** What a call of the function gets: its arguments, the address of the stack, and the functions that the names of calls
    are linked to. [je_undef] is what the called function sees as an argument that is not defined, which may be anything
    and is not the same for two calls. *)
Record jenv := JEnv {
  je_args : list Z;
  je_stack : Z;
  je_ext : string → option ext_func;
  je_undef : jstate → nat → Z
}.

Section run.
Context `{!Llvm} (je : jenv).

Definition eval (env : list rv) (v : operand) : option rv :=
  match v with
  | Const t z => Some (RInt t z)
  | BlockAddr pc => Some (RBlk pc)
  | Arg t n => z ← je_args je !! n; Some (RInt t z)
  | StackBegin => Some (RInt PtrTy (je_stack je))
  | Val _ n => env !! n
  end.
Definition eval_int (env : list rv) (v : operand) : option (ity * Z) :=
  r ← eval env v; match r with RInt t z => Some (t, z) | RBlk _ | RUndef => None end.

(** Variables and memory are little-endian. Loads and stores have the alignment of the type, which is its size. *)
Definition bytes (t : ity) : nat := Z.to_nat (width t / 8).
Definition aligned (t : ity) (a : Z) : bool := a mod Z.of_nat (bytes t) =? 0.
Definition load_place (s : jstate) (env : list rv) (t : ity) (p : place) : option rv :=
  match p with
  | PReg r => z ← j_reg s !! Z.to_nat r; Some (match z with Some z => RInt t (z mod 2 ^ width t) | None => RUndef end)
  | PCnt => Some (RInt t (j_cnt s))
  | PSlot idx =>
      '(_, k) ← eval_int env idx;
      v ← j_slots s !! Z.to_nat k;
      v
  | PMem ptr =>
      '(_, a) ← eval_int env ptr;
      if aligned t a then bs ← mem_load (j_mem s) a (bytes t); Some (RInt t (le_load bs)) else None
  end.
Definition store_place (s : jstate) (env : list rv) (v : rv) (p : place) : option jstate :=
  match p, v with
  | PReg r, RInt t z =>
      old ← j_reg s !! Z.to_nat r;
      if width t =? 64 then Some (j_set_reg s r z)
      else old ← old; Some (j_set_reg s r (old - old mod 2 ^ width t + z))
  | PReg r, RUndef => _ ← j_reg s !! Z.to_nat r; Some (j_unset_reg s r)
  | PCnt, RInt t z => Some (JState (j_reg s) (j_mem s) z (j_slots s))
  | PSlot idx, _ =>
      '(_, k) ← eval_int env idx;
      if (0 <=? k) && (k <? zlen (j_slots s)) then Some (JState (j_reg s) (j_mem s) (j_cnt s) (<[Z.to_nat k := Some v]> (j_slots s)))
      else None
  | PMem ptr, RInt t z =>
      '(_, a) ← eval_int env ptr;
      if aligned t a then m ← mem_store (j_mem s) a (le_store (bytes t) z); Some (j_set_mem s m) else None
  | _, _ => None
  end.

Definition rmw_sem (op : rmwop) (w old v : Z) : option Z :=
  match op with
  | RmwAdd => ll_binop Add w old v
  | RmwAnd => ll_binop And w old v
  | RmwOr => ll_binop Or w old v
  | RmwXor => ll_binop Xor w old v
  | RmwXchg => Some v
  end.

(** The value of an instruction that has none is not used. *)
Definition no_value : rv := RInt I1 0.

(** The argument of a call at position [n]. *)
Definition eval_arg (s : jstate) (env : list rv) (n : nat) (v : operand) : option Z :=
  r ← eval env v; match r with RInt _ z => Some z | RUndef => Some (je_undef je s n) | RBlk _ => None end.

Definition exec_instr (s : jstate) (env : list rv) (i : instr) : option (jstate * rv) :=
  match i with
  | ILoad t p => v ← load_place s env t p; Some (s, v)
  | IStore v p => v ← eval env v; s ← store_place s env v p; Some (s, no_value)
  | IBin op a b =>
      '(t, a) ← eval_int env a; '(t', b) ← eval_int env b;
      if decide (t = t') then z ← ll_binop op (width t) a b; Some (s, RInt t z) else None
  | IICmp p a b =>
      '(t, a) ← eval_int env a; '(t', b) ← eval_int env b;
      if decide (t = t') then Some (s, RInt I1 (Z.b2z (ll_icmp p (width t) a b))) else None
  | ICast c a t => '(t', a) ← eval_int env a; Some (s, RInt t (ll_cast c (width t') (width t) a))
  | ISelect c a b =>
      '(_, c) ← eval_int env c; a ← eval env a; b ← eval env b;
      Some (s, if c =? 1 then a else b)
  | IGep base off => '(_, a) ← eval_int env base; Some (s, RInt PtrTy (u64 (a + off)))
  | ICall name args =>
      f ← je_ext je name;
      vs ← mapM id (imap (eval_arg s env) args);
      let '(r, m) := f vs (j_mem s) in Some (j_set_mem s m, RInt I64 (u64 r))
  | IAtomicRMW op ptr v align =>
      '(_, a) ← eval_int env ptr; '(t, v) ← eval_int env v;
      if negb (a mod align =? 0) then None
      else
        bs ← mem_load (j_mem s) a (bytes t);
        z ← rmw_sem op (width t) (le_load bs) v;
        m ← mem_store (j_mem s) a (le_store (bytes t) z);
        Some (j_set_mem s m, RInt t (le_load bs))
  | ICmpXchg ptr cmp new =>
      '(_, a) ← eval_int env ptr; '(t, c) ← eval_int env cmp; '(_, n) ← eval_int env new;
      bs ← (if aligned t a then mem_load (j_mem s) a (bytes t) else None);
      if le_load bs =? c then m ← mem_store (j_mem s) a (le_store (bytes t) n); Some (j_set_mem s m, no_value)
      else Some (s, no_value)
  end.

Fixpoint exec_instrs (s : jstate) (env : list rv) (code : list instr) : option (jstate * list rv) :=
  match code with
  | [] => Some (s, env)
  | i :: code => '(s, v) ← exec_instr s env i; exec_instrs s (env ++ [v]) code
  end.

(** Where a run goes after the code of an instruction. *)
Inductive jnext := JFall | JGoto (b : block) | JRet (v : Z).

Definition exec_term (env : list rv) (t : option terminator) : option jnext :=
  match t with
  | None => Some JFall
  | Some (TBr b) => Some (JGoto b)
  | Some (TCondBr c b1 b2) => '(_, c) ← eval_int env c; Some (JGoto (if c =? 1 then b1 else b2))
  | Some (TIndirectBr v dests) =>
      r ← eval env v;
      match r with RBlk pc => if bool_decide (pc ∈ dests) then Some (JGoto (BInst pc)) else None | RInt _ _ | RUndef => None end
  | Some (TRet v) => '(_, z) ← eval_int env v; Some (JRet z)
  | Some TRetVoid => Some (JRet 0)
  end.

Definition exec_group (s : jstate) (g : group) : option (jstate * jnext) :=
  '(s, env) ← exec_instrs s [] g.1;
  n ← exec_term env g.2;
  Some (s, n).

(** What a run does: it is in the middle of a block, it has returned, or its behaviour is not defined. *)
Inductive jout := JRun (gs : list group) (s : jstate) | JDone (v : Z) (s : jstate) | JUndef.

Definition block_code (m : jmodule) (b : block) : option (list group) :=
  match b with
  | BInst pc => p ← list_find (λ p, p.1 = pc) (jm_blocks m); Some p.2.2
  | BExit => Some (jm_exit m)
  | BLocalRet => Some (jm_local_ret m)
  end.

Definition jit_step (m : jmodule) (gs : list group) (s : jstate) : jout :=
  match gs with
  | [] => JUndef
  | g :: gs =>
      match exec_group s g with
      | None => JUndef
      | Some (s, JFall) => JRun gs s
      | Some (s, JGoto b) => match block_code m b with Some gs => JRun gs s | None => JUndef end
      | Some (s, JRet v) => JDone v s
      end
  end.

Fixpoint jit_loop (m : jmodule) (fuel : nat) (gs : list group) (s : jstate) : jout :=
  match fuel with
  | O => JRun gs s
  | S fuel => match jit_step m gs s with JRun gs s => jit_loop m fuel gs s | r => r end
  end.

(** A call of the function: no register has been written. [mem] is the memory of the caller and, from
    [je_stack] on, the stack of the program. *)
Definition jit_exec (m : jmodule) (fuel : nat) (mem : memory) : jout :=
  jit_loop m fuel (jm_setup m) (JState (replicate 11 None) mem 0 (replicate (64 * 5) None)).
End run.

(** ** A machine that traps

    An instance of the class: what the reference leaves undefined stops the run. *)

Definition ref_binop (op : binop) (w a b : Z) : option Z :=
  let nonzero (z : Z) := if b =? 0 then None else Some z in
  let signed (z : Z) := if (b =? 0) || ((sgnw w a =? - 2 ^ (w - 1)) && (sgnw w b =? -1)) then None else Some (z mod 2 ^ w) in
  let count (z : Z) := if (0 <=? b) && (b <? w) then Some z else None in
  match op with
  | Add => Some ((a + b) mod 2 ^ w)
  | Sub => Some ((a - b) mod 2 ^ w)
  | Mul => Some ((a * b) mod 2 ^ w)
  | UDiv => nonzero (a / b)
  | URem => nonzero (a mod b)
  | SDiv => signed (Z.quot (sgnw w a) (sgnw w b))
  | SRem => signed (Z.rem (sgnw w a) (sgnw w b))
  | And => Some (Z.land a b)
  | Or => Some (Z.lor a b)
  | Xor => Some (Z.lxor a b)
  | Shl => count (Z.shiftl a b mod 2 ^ w)
  | LShr => count (Z.shiftr a b)
  | AShr => count (Z.shiftr (sgnw w a) b mod 2 ^ w)
  end.
Definition ref_icmp (p : icmp) (w a b : Z) : bool :=
  match p with
  | EQ => a =? b | NE => negb (a =? b) | UGT => b <? a | UGE => b <=? a | ULT => a <? b | ULE => a <=? b
  | SGT => sgnw w b <? sgnw w a | SGE => sgnw w b <=? sgnw w a | SLT => sgnw w a <? sgnw w b | SLE => sgnw w a <=? sgnw w b
  end.
Definition ref_cast (c : castop) (w w' a : Z) : Z :=
  match c with Trunc => a mod 2 ^ w' | ZExt => a | SExt => sgnw w a mod 2 ^ w' end.

Fixpoint ref_terminated (gs : list group) : bool :=
  match gs with
  | [] => false
  | [g] => match g.2 with Some _ => true | None => false end
  | g :: gs => match g.2 with Some _ => false | None => ref_terminated gs end
  end.

Lemma ref_terminated_ok gs : ref_terminated gs = true → terminated gs.
Proof.
  induction gs as [|g gs IH]; [done|]. destruct gs as [|h gs]; cbn [ref_terminated].
  - intros H. exists [], g. split; [done|]. split; [destruct (g.2); [by eexists|done]|constructor].
  - destruct (g.2) eqn:Eg; [done|]. intros H. destruct (IH H) as (init&x&->&Hx&Hi). exists (g :: init), x. auto.
Qed.

Definition ref_llvm : Llvm.
Proof.
  refine {| ll_binop := ref_binop; ll_icmp := ref_icmp; ll_cast := ref_cast;
            ll_verify m := forallb (λ p, ref_terminated p.2) (jm_blocks m) |}; try done; cbn [ref_binop].
  - intros w a b H. by rewrite (proj2 (Z.eqb_neq b 0) H).
  - intros w a b H. by rewrite (proj2 (Z.eqb_neq b 0) H).
  - intros w a b H Ho. rewrite (proj2 (Z.eqb_neq b 0) H). cbn [orb]. destruct (_ && _) eqn:E; [lia|done].
  - intros w a b H Ho. rewrite (proj2 (Z.eqb_neq b 0) H). cbn [orb]. destruct (_ && _) eqn:E; [lia|done].
  - intros w a b H. destruct (_ && _) eqn:E; [done|lia].
  - intros w a b H. destruct (_ && _) eqn:E; [done|lia].
  - intros w a b H. destruct (_ && _) eqn:E; [done|lia].
  - intros m H b gs Hin. apply ref_terminated_ok. rewrite forallb_forall in H. apply (H (b, gs)). by apply list_elem_of_In.
Defined.
