(* ===== verification/LlvmJit.v ===== *)
(** * The compiler from eBPF to LLVM

    vm/llvm-jit/src/compiler.cpp with compiler_utils.cpp and compiler_utils.hpp: the split of a program into
    blocks, the code for each instruction, and the assembly of the function; and vm/llvm-jit/src/vm.cpp, the
    virtual machine that compiles a program when it is first run. *)

From stdpp Require Import base numbers list strings pretty gmap.
From S2P Require Import Prelude.
From S2P Require Import EbpfIsa.
From S2P Require Import UbpfVm.
From S2P Require Import LlvmIr.

Abbreviation EBPF_STACK_SIZE := 512 (only parsing).
Definition STACK_SIZE : Z := (EBPF_STACK_SIZE + 7) / 8.
Abbreviation CALL_STACK_SIZE := 64 (only parsing).
Abbreviation MAX_LOCAL_FUNC_DEPTH := 32 (only parsing).

Abbreviation EBPF_ATOMIC_ADD := 0x00 (only parsing).
Abbreviation EBPF_ATOMIC_OR := 0x40 (only parsing).
Abbreviation EBPF_ATOMIC_AND := 0x50 (only parsing).
Abbreviation EBPF_ATOMIC_XOR := 0xa0 (only parsing).
Abbreviation EBPF_ATOMIC_OP_FETCH := 0x01 (only parsing).
Abbreviation EBPF_ATOMIC_OP_XCHG := (Z.lor 0xe0 EBPF_ATOMIC_OP_FETCH) (only parsing).
Abbreviation EBPF_ATOMIC_OP_CMPXCHG := (Z.lor 0xf0 EBPF_ATOMIC_OP_FETCH) (only parsing).

(** ** The builder *)

(** The errors that end a compilation. [GenCrash]: an access outside of a vector, a store of a null value or a failed
    assertion; [GenDiverges]: a loop over an [uint16_t] does not end. *)
Inductive gen_error :=
| NoInstructions | IllegalReg (pc : Z) | InvalidMovsx (off pc : Z) | EndianSize (imm : Z) | LddwLastInst (pc : Z)
| LddwNextInst (pc : Z) | LddwHelper (src pc : Z) | IllegalJump (pc target : Z) | ExtFuncNotFound (name : string)
| UnsupportedAtomic (imm : Z) | UnsupportedOpcode (op pc : Z) | InvalidModule | GenCrash | GenDiverges.

(** Calls of the builder append to the code of the instruction. *)
Definition emit (A : Type) : Type := list instr → gen_error + (A * list instr).
#[export] Instance emit_ret : MRet emit := λ A a code, inr (a, code).
#[export] Instance emit_bind : MBind emit := λ A B f e code, match e code with inl x => inl x | inr (a, code) => f a code end.
Definition fail {A} (e : gen_error) : emit A := λ _, inl e.

Definition create (i : instr) (t : ity) : emit operand := λ code, inr (Val t (length code), code ++ [i]).
Definition create_ (i : instr) : emit unit := λ code, inr (tt, code ++ [i]).

Definition CreateLoad (t : ity) (p : place) : emit operand := create (ILoad t p) t.
Definition CreateStore (v : operand) (p : place) : emit unit := create_ (IStore v p).
Definition CreateBinOp (op : binop) (a b : operand) : emit operand := create (IBin op a b) (ty_of a).
Definition CreateICmp (p : icmp) (a b : operand) : emit operand := create (IICmp p a b) I1.
Definition CreateSelect (c a b : operand) : emit operand := create (ISelect c a b) (ty_of a).
Definition CreateGEP (base : operand) (off : Z) : emit operand := create (IGep base off) PtrTy.
Definition CreateCall (name : string) (args : list operand) : emit operand := create (ICall name args) I64.
(** A cast to the type that the value has is the value. *)
Definition CreateCast (c : castop) (v : operand) (t : ity) : emit operand :=
  if decide (ty_of v = t) then mret v else create (ICast c v t) t.

(** ** compiler_utils *)

Definition opcode_class (inst : ebpf_inst) : Z := Z.land (i_opcode inst) 0x07.
Definition is_jmp (inst : ebpf_inst) : bool := (opcode_class inst =? EBPF_CLS_JMP) || (opcode_class inst =? EBPF_CLS_JMP32).
Definition is_imm_jmp (inst : ebpf_inst) : bool := i_opcode inst =? op_code EBPF_OP_JA_IMM.
Definition is_alu64 (inst : ebpf_inst) : bool := opcode_class inst =? EBPF_CLS_ALU64.

(** [%04u]. *)
Definition pad4 (s : string) : string := String.append (String.concat EmptyString (replicate (4 - String.length s) "0"%string)) s.
Definition ext_func_sym (idx : Z) : string := String.append "_bpf_helper_ext_" (pad4 (pretty (Z.to_N idx))).

Definition emitLoadALUSource (inst : ebpf_inst) : emit operand :=
  let srcTy := Z.land (i_opcode inst) 0x08 in
  if opcode_class inst =? EBPF_CLS_ALU64 then
    if srcTy =? EBPF_SRC_IMM then mret (getInt64 (i_imm inst)) else CreateLoad I64 (PReg (i_src inst))
  else
    if srcTy =? EBPF_SRC_IMM then mret (getInt32 (i_imm inst))
    else v ← CreateLoad I64 (PReg (i_src inst)); CreateCast Trunc v I32.

Definition emitLoadALUDest (inst : ebpf_inst) (dstAlways64 : bool) : emit operand :=
  if (opcode_class inst =? EBPF_CLS_ALU64) || dstAlways64 then CreateLoad I64 (PReg (i_dst inst))
  else CreateLoad I32 (PReg (i_dst inst)).

Definition emitStoreALUResult (inst : ebpf_inst) (result : operand) : emit unit :=
  if opcode_class inst =? EBPF_CLS_ALU64 then CreateStore result (PReg (i_dst inst))
  else v ← CreateCast ZExt result I64; CreateStore v (PReg (i_dst inst)).

(** The byte of the register from bit [i] on. *)
Definition emitByte (dst_val : operand) (i : Z) : emit operand :=
  v ← CreateBinOp LShr dst_val (Const (ty_of dst_val) i); CreateBinOp And v (Const (ty_of dst_val) 0xff).
(** The loop that merges the bytes after the first. *)
Fixpoint emitMerge (last : operand) (bytes : list operand) : emit operand :=
  match bytes with
  | [] => mret last
  | val :: bytes => sh ← CreateBinOp Shl last (Const (ty_of last) 8); last ← CreateBinOp Or sh val; emitMerge last bytes
  end.
Fixpoint emitBytes (dst_val : operand) (pos : list Z) : emit (list operand) :=
  match pos with
  | [] => mret []
  | i :: pos => b ← emitByte dst_val i; bs ← emitBytes dst_val pos; mret (b :: bs)
  end.

Definition emitALUEndianConversion (inst : ebpf_inst) (dst_val : operand) : emit operand :=
  if negb (i_imm inst =? 16) && negb (i_imm inst =? 32) && negb (i_imm inst =? 64) then fail (EndianSize (i_imm inst))
  else
    let need_reverse := is_alu64 inst || (Z.land (i_opcode inst) 0x08 =? 0x08) in
    if need_reverse then
      bytes ← emitBytes dst_val (Z.mul 8 <$> seqZ 0 (i_imm inst / 8));
      match bytes with [] => fail GenCrash | last :: bytes => emitMerge last bytes end
    else if i_imm inst =? 16 then CreateCast Trunc dst_val I16
    else if i_imm inst =? 32 then CreateCast Trunc dst_val I32
    else mret dst_val.

Definition emitALUWithDstAndSrc (inst : ebpf_inst) (func : operand → operand → emit operand) : emit unit :=
  dst_val ← emitLoadALUDest inst false;
  src_val ← emitLoadALUSource inst;
  result ← func dst_val src_val;
  emitStoreALUResult inst result.

Definition emitStoreLoadingSrc (inst : ebpf_inst) : emit operand :=
  if opcode_class inst =? EBPF_CLS_STX then CreateLoad I64 (PReg (i_src inst)) else mret (getInt64 (i_imm inst)).
Definition emitStoreWritingResult (inst : ebpf_inst) (result : operand) : emit unit :=
  base ← CreateLoad PtrTy (PReg (i_dst inst));
  ptr ← CreateGEP base (i_offset inst);
  CreateStore result (PMem ptr).
Definition emitStore (inst : ebpf_inst) (destTy : ity) : emit unit :=
  src ← emitStoreLoadingSrc inst;
  result ← CreateCast Trunc src destTy;
  emitStoreWritingResult inst result.

(** The source, the destination and zero. *)
Definition emitJmpLoadSrcAndDstAndZero (inst : ebpf_inst) : emit (operand * operand * operand) :=
  let regSrc := Z.land (i_opcode inst) 0x8 =? 0x8 in
  if opcode_class inst =? EBPF_CLS_JMP32 then
    src ← (if regSrc then CreateLoad I32 (PReg (i_src inst)) else mret (getInt32 (i_imm inst)));
    dst ← CreateLoad I32 (PReg (i_dst inst));
    mret (src, dst, getInt32 0)
  else
    src ← (if regSrc then CreateLoad I64 (PReg (i_src inst)) else mret (getInt64 (i_imm inst)));
    dst ← CreateLoad I64 (PReg (i_dst inst));
    mret (src, dst, getInt64 0).

(** [instBlocks] is the set of the instructions that blocks begin with. *)
Definition findBlock (instBlocks : gset Z) (pc id : Z) : emit block :=
  if bool_decide (id ∈ instBlocks) then mret (BInst id) else fail (IllegalJump pc id).
Definition loadJmpDstBlock (pc : Z) (inst : ebpf_inst) (instBlocks : gset Z) (useOffset : bool) : emit block :=
  findBlock instBlocks pc (u16 (pc + 1 + (if useOffset then i_offset inst else i_imm inst))).
Definition loadCallDstBlock (pc : Z) (inst : ebpf_inst) (instBlocks : gset Z) : emit block :=
  findBlock instBlocks pc (u16 (pc + 1 + i_imm inst)).
Definition loadJmpNextBlock (pc : Z) (instBlocks : gset Z) : emit block := findBlock instBlocks pc (u16 (pc + 1)).
Definition localJmpDstAndNextBlk (pc : Z) (inst : ebpf_inst) (instBlocks : gset Z) : emit (block * block) :=
  dst ← loadJmpDstBlock pc inst instBlocks true;
  next ← loadJmpNextBlock pc instBlocks;
  mret (dst, next).

Definition emitLDXLoadingAddr (inst : ebpf_inst) : emit operand :=
  base ← CreateLoad PtrTy (PReg (i_src inst)); CreateGEP base (i_offset inst).
Definition emitLDXStoringResult (inst : ebpf_inst) (result : operand) : emit unit :=
  v ← CreateCast ZExt result I64; CreateStore v (PReg (i_dst inst)).
Definition emitLoadX (inst : ebpf_inst) (srcTy : ity) : emit unit :=
  addr ← emitLDXLoadingAddr inst;
  result ← CreateLoad srcTy (PMem addr);
  emitLDXStoringResult inst result.

Definition emitCondJmpWithDstAndSrc (pc : Z) (inst : ebpf_inst) (instBlocks : gset Z) (func : operand → operand → emit operand)
  : emit (option terminator) :=
  '(dstBlk, nextBlk) ← localJmpDstAndNextBlk pc inst instBlocks;
  '(src, dst, _) ← emitJmpLoadSrcAndDstAndZero inst;
  c ← func dst src;
  mret (Some (TCondBr c dstBlk nextBlk)).

(** A call of helper 12, bpf_tail_call, ends the program. *)
Definition emitExtFuncCall (inst : ebpf_inst) (extFunc : list string) : emit (option terminator) :=
  let funcNameToCall := ext_func_sym (u32 (i_imm inst)) in
  if bool_decide (funcNameToCall ∈ extFunc) then
    r1 ← CreateLoad I64 (PReg 1); r2 ← CreateLoad I64 (PReg 2); r3 ← CreateLoad I64 (PReg 3);
    r4 ← CreateLoad I64 (PReg 4); r5 ← CreateLoad I64 (PReg 5);
    callInst ← CreateCall funcNameToCall [r1; r2; r3; r4; r5];
    _ ← CreateStore callInst (PReg 0);
    mret (if i_imm inst =? 12 then Some (TBr BExit) else None)
  else fail (ExtFuncNotFound funcNameToCall).

Definition emitAtomicBinOp (op : rmwop) (inst : ebpf_inst) (is64 is_fetch : bool) : emit unit :=
  base ← CreateLoad PtrTy (PReg (i_dst inst));
  ptr ← CreateGEP base (i_offset inst);
  src ← CreateLoad I64 (PReg (i_src inst));
  v ← (if is64 then mret src else CreateCast Trunc src I32);
  oldValue ← create (IAtomicRMW op ptr v 32) (ty_of v);
  if is_fetch then CreateStore oldValue (PReg (i_src inst)) else mret tt.

(** ** The virtual machine and its functions *)

Definition LDDW_HELPER_MAP_VAL : string := "__lddw_helper_map_val".
Abbreviation LLVM_MAX_EXT_FUNCS := 8192 (only parsing).

Inductive lv_message := IndexTooLarge | AlreadyDefined | CodeLength | AlreadyCompiled | CompileError (e : gen_error).
Record external_function := ExternalFunction { ef_name : string; ef_fn : ext_func }.

(** The error message, the program, the helpers and the functions for LDDW instructions, which are null when they are
    not set; the compiled function. *)
Record llvmbpf_vm := LlvmbpfVm {
  lv_error : option lv_message;
  lv_instructions : list ebpf_inst;
  lv_ext_funcs : list (option external_function);
  lv_map_by_fd : option (Z → Z);
  lv_map_by_idx : option (Z → Z);
  lv_map_val : option (Z → Z);
  lv_var_addr : option (Z → Z);
  lv_code_addr : option (Z → Z);
  lv_jitted : option (jmodule * (string → option ext_func))
}.

(** ** The code for an instruction *)

Section gen.
Context (vm : llvmbpf_vm) (extFunc lddwHelper : list string) (patch_map_val_at_compile_time : bool).
Context (instBlocks : gset Z) (localFuncRetBlks : list Z).

Definition emitZero (inst : ebpf_inst) : operand := if is_alu64 inst then getInt64 0 else getInt32 0.

Definition emitSignedDiv (is_64 : bool) (dst_val src_val : operand) : emit operand :=
  let int_min := if is_64 then getInt64 (- 2 ^ 63) else getInt32 (- 2 ^ 31) in
  let minus_one := if is_64 then getInt64 (-1) else getInt32 (-1) in
  a ← CreateICmp EQ dst_val int_min;
  b ← CreateICmp EQ src_val minus_one;
  overflow_cond ← CreateBinOp And a b;
  q ← CreateBinOp SDiv dst_val src_val;
  CreateSelect overflow_cond int_min q.

Definition emitDiv (inst : ebpf_inst) (dst_val src_val : operand) : emit operand :=
  let is_64 := is_alu64 inst in
  let is_sdiv := i_offset inst =? 1 in
  src_is_zero ← CreateICmp EQ src_val (emitZero inst);
  result ← (if is_sdiv then
              src_val ← (if is_64 then v ← CreateCast Trunc src_val I32; CreateCast SExt v I64 else mret src_val);
              emitSignedDiv is_64 dst_val src_val
            else CreateBinOp UDiv dst_val src_val);
  CreateSelect src_is_zero (emitZero inst) result.

Definition emitMod (inst : ebpf_inst) (dst_val src_val : operand) : emit operand :=
  let is_smod := i_offset inst =? 1 in
  let is_64 := is_alu64 inst in
  c ← CreateICmp EQ src_val (emitZero inst);
  result ← (if is_smod then
              d ← (if is_64 then CreateCast SExt dst_val I64 else mret dst_val);
              s ← (if is_64 then v ← CreateCast Trunc src_val I32; CreateCast SExt v I64 else mret src_val);
              CreateBinOp SRem d s
            else CreateBinOp URem dst_val src_val);
  CreateSelect c dst_val result.

(** Shifts take the count modulo the width. *)
Definition emitShift (op : binop) (inst : ebpf_inst) (dst_val src_val : operand) : emit operand :=
  n ← CreateBinOp URem src_val (if is_alu64 inst then getInt64 64 else getInt32 32);
  CreateBinOp op dst_val n.

Definition emitMov (pc : Z) (inst : ebpf_inst) : emit unit :=
  src_val ← emitLoadALUSource inst;
  result ← (if negb (i_offset inst =? 0) then
              extended_result ←
                (if i_offset inst =? 8 then v ← CreateCast Trunc src_val I8; CreateCast SExt v I8
                 else if i_offset inst =? 16 then v ← CreateCast Trunc src_val I16; CreateCast SExt v I16
                 else if i_offset inst =? 32 then v ← CreateCast Trunc src_val I32; CreateCast SExt v I32
                 else fail (InvalidMovsx (i_offset inst) pc));
              CreateCast SExt extended_result (if is_alu64 inst then I64 else I32)
            else mret src_val);
  emitStoreALUResult inst result.

Definition emitNeg (inst : ebpf_inst) : emit unit :=
  dst_val ← emitLoadALUDest inst false;
  result ← CreateBinOp Sub (Const (ty_of dst_val) 0) dst_val;
  emitStoreALUResult inst result.

Definition emitEndian (inst : ebpf_inst) : emit unit :=
  dst_val ← emitLoadALUDest inst true;
  result ← emitALUEndianConversion inst dst_val;
  emitStoreALUResult inst result.

(** The arithmetic instructions; [None] for other opcodes. *)
Definition emitALU (pc : Z) (o : ebpf_op) (inst : ebpf_inst) : option (emit unit) :=
  let bin op := Some (emitALUWithDstAndSrc inst (CreateBinOp op)) in
  match o with
  | EBPF_OP_ADD64_IMM | EBPF_OP_ADD_IMM | EBPF_OP_ADD64_REG | EBPF_OP_ADD_REG => bin Add
  | EBPF_OP_SUB64_IMM | EBPF_OP_SUB_IMM | EBPF_OP_SUB64_REG | EBPF_OP_SUB_REG => bin Sub
  | EBPF_OP_MUL64_IMM | EBPF_OP_MUL_IMM | EBPF_OP_MUL64_REG | EBPF_OP_MUL_REG => bin Mul
  | EBPF_OP_DIV64_IMM | EBPF_OP_DIV_IMM | EBPF_OP_DIV64_REG | EBPF_OP_DIV_REG => Some (emitALUWithDstAndSrc inst (emitDiv inst))
  | EBPF_OP_OR64_IMM | EBPF_OP_OR_IMM | EBPF_OP_OR64_REG | EBPF_OP_OR_REG => bin Or
  | EBPF_OP_AND64_IMM | EBPF_OP_AND_IMM | EBPF_OP_AND64_REG | EBPF_OP_AND_REG => bin And
  | EBPF_OP_LSH64_IMM | EBPF_OP_LSH_IMM | EBPF_OP_LSH64_REG | EBPF_OP_LSH_REG => Some (emitALUWithDstAndSrc inst (emitShift Shl inst))
  | EBPF_OP_RSH64_IMM | EBPF_OP_RSH_IMM | EBPF_OP_RSH64_REG | EBPF_OP_RSH_REG => Some (emitALUWithDstAndSrc inst (emitShift LShr inst))
  | EBPF_OP_NEG | EBPF_OP_NEG64 => Some (emitNeg inst)
  | EBPF_OP_MOD64_IMM | EBPF_OP_MOD_IMM | EBPF_OP_MOD64_REG | EBPF_OP_MOD_REG => Some (emitALUWithDstAndSrc inst (emitMod inst))
  | EBPF_OP_XOR64_IMM | EBPF_OP_XOR_IMM | EBPF_OP_XOR64_REG | EBPF_OP_XOR_REG => bin Xor
  | EBPF_OP_MOV64_IMM | EBPF_OP_MOV_IMM | EBPF_OP_MOV64_REG | EBPF_OP_MOV_REG => Some (emitMov pc inst)
  | EBPF_OP_ARSH64_IMM | EBPF_OP_ARSH_IMM | EBPF_OP_ARSH64_REG | EBPF_OP_ARSH_REG => Some (emitALUWithDstAndSrc inst (emitShift AShr inst))
  | EBPF_OP_LE | EBPF_OP_BE | EBPF_OP_BYTESWAP => Some (emitEndian inst)
  | _ => None
  end.

Definition emitMem (o : ebpf_op) (inst : ebpf_inst) : option (emit unit) :=
  match o with
  | EBPF_OP_STB | EBPF_OP_STXB => Some (emitStore inst I8)
  | EBPF_OP_STH | EBPF_OP_STXH => Some (emitStore inst I16)
  | EBPF_OP_STW | EBPF_OP_STXW => Some (emitStore inst I32)
  | EBPF_OP_STDW | EBPF_OP_STXDW => Some (emitStore inst I64)
  | EBPF_OP_LDXB => Some (emitLoadX inst I8)
  | EBPF_OP_LDXH => Some (emitLoadX inst I16)
  | EBPF_OP_LDXW => Some (emitLoadX inst I32)
  | EBPF_OP_LDXDW => Some (emitLoadX inst I64)
  | _ => None
  end.

(** The address of the map of an LDDW instruction; without a function it is the immediate. *)
Definition lddw_map (f : option (Z → Z)) (inst : ebpf_inst) : Z :=
  match f with Some f => u64 (f (u32 (i_imm inst))) | None => u64 (i_imm inst) end.
Definition emitMapVal (pc : Z) (inst next : ebpf_inst) (mapPtr : Z) : emit unit :=
  if patch_map_val_at_compile_time then
    match lv_map_val vm with
    | None => fail (LddwHelper (i_src inst) pc)
    | Some map_val => CreateStore (getInt64 (u64 (map_val mapPtr) + i_imm next)) (PReg (i_dst inst))
    end
  else if bool_decide (LDDW_HELPER_MAP_VAL ∈ lddwHelper) then
    retMapVal ← CreateCall LDDW_HELPER_MAP_VAL [getInt64 mapPtr];
    finalRet ← CreateBinOp Add retMapVal (getInt64 (i_imm next));
    CreateStore finalRet (PReg (i_dst inst))
  else fail (LddwHelper (i_src inst) pc).
Definition emitAddr (pc : Z) (inst : ebpf_inst) (f : option (Z → Z)) : emit unit :=
  match f with
  | None => fail (LddwHelper (i_src inst) pc)
  | Some f => CreateStore (getInt64 (f (u32 (i_imm inst)))) (PReg (i_dst inst))
  end.

(** An LDDW whose source is not between 0 and 6 gets no code. *)
Definition emitLDDW (pc : Z) (inst : ebpf_inst) (next : option ebpf_inst) : emit unit :=
  match next with
  | None => fail (LddwLastInst pc)
  | Some next =>
      if negb (i_opcode next =? 0) || negb (i_dst next =? 0) || negb (i_src next =? 0) || negb (i_offset next =? 0) then fail (LddwNextInst pc)
      else
        let val := Z.lor (u32 (i_imm inst)) (Z.shiftl (u32 (i_imm next)) 32) in
        if i_src inst =? 0 then CreateStore (getInt64 val) (PReg (i_dst inst))
        else if i_src inst =? 1 then CreateStore (getInt64 (lddw_map (lv_map_by_fd vm) inst)) (PReg (i_dst inst))
        else if i_src inst =? 2 then emitMapVal pc inst next (lddw_map (lv_map_by_fd vm) inst)
        else if i_src inst =? 3 then emitAddr pc inst (lv_var_addr vm)
        else if i_src inst =? 4 then emitAddr pc inst (lv_code_addr vm)
        else if i_src inst =? 5 then CreateStore (getInt64 (lddw_map (lv_map_by_idx vm) inst)) (PReg (i_dst inst))
        else if i_src inst =? 6 then emitMapVal pc inst next (lddw_map (lv_map_by_idx vm) inst)
        else mret tt
  end.

(** A store of register [i] into [callStack]. *)
Definition emitSaveReg (nextPos : operand) (i : Z) : emit unit :=
  v ← CreateLoad I64 (PReg i);
  pos ← CreateBinOp Sub nextPos (getInt64 (i - 4));
  CreateStore v (PSlot pos).

(** The call of a local function; a call whose return has no block stores a null value. *)
Definition emitLocalCall (pc : Z) (inst : ebpf_inst) : emit (option terminator) :=
  cnt ← CreateLoad I64 PCnt;
  nextPos ← CreateBinOp Add cnt (getInt64 5);
  _ ← CreateStore nextPos PCnt;
  if negb (bool_decide (u16 (pc + 1) ∈ localFuncRetBlks)) then fail GenCrash
  else
    pos ← CreateBinOp Sub nextPos (getInt64 1);
    _ ← CreateStore (BlockAddr (u16 (pc + 1))) (PSlot pos);
    _ ← emitSaveReg nextPos 6; _ ← emitSaveReg nextPos 7; _ ← emitSaveReg nextPos 8; _ ← emitSaveReg nextPos 9;
    r10 ← CreateLoad I64 (PReg 10);
    sp ← CreateBinOp Sub r10 (getInt64 STACK_SIZE);
    _ ← CreateStore sp (PReg 10);
    dstBlk ← loadCallDstBlock pc inst instBlocks;
    mret (Some (TBr dstBlk)).

Definition emitCall (pc : Z) (inst : ebpf_inst) : emit (option terminator) :=
  if i_src inst =? 1 then emitLocalCall pc inst else emitExtFuncCall inst extFunc.

Definition emitExit : emit (option terminator) :=
  cnt ← CreateLoad I64 PCnt;
  c ← CreateICmp EQ cnt (getInt64 0);
  mret (Some (TCondBr c BExit BLocalRet)).

Definition emitJSet (pc : Z) (inst : ebpf_inst) : emit (option terminator) :=
  '(dstBlk, nextBlk) ← localJmpDstAndNextBlk pc inst instBlocks;
  '(src, dst, zero) ← emitJmpLoadSrcAndDstAndZero inst;
  v ← CreateBinOp And dst src;
  c ← CreateICmp NE v zero;
  mret (Some (TCondBr c dstBlk nextBlk)).

(** The comparison of a conditional jump; [None] for other opcodes. *)
Definition jmp_pred (o : ebpf_op) : option icmp :=
  match o with
  | EBPF_OP_JEQ32_IMM | EBPF_OP_JEQ_IMM | EBPF_OP_JEQ32_REG | EBPF_OP_JEQ_REG => Some EQ
  | EBPF_OP_JGT32_IMM | EBPF_OP_JGT_IMM | EBPF_OP_JGT32_REG | EBPF_OP_JGT_REG => Some UGT
  | EBPF_OP_JGE32_IMM | EBPF_OP_JGE_IMM | EBPF_OP_JGE32_REG | EBPF_OP_JGE_REG => Some UGE
  | EBPF_OP_JNE32_IMM | EBPF_OP_JNE_IMM | EBPF_OP_JNE32_REG | EBPF_OP_JNE_REG => Some NE
  | EBPF_OP_JSGT32_IMM | EBPF_OP_JSGT_IMM | EBPF_OP_JSGT32_REG | EBPF_OP_JSGT_REG => Some SGT
  | EBPF_OP_JSGE32_IMM | EBPF_OP_JSGE_IMM | EBPF_OP_JSGE32_REG | EBPF_OP_JSGE_REG => Some SGE
  | EBPF_OP_JLT32_IMM | EBPF_OP_JLT_IMM | EBPF_OP_JLT32_REG | EBPF_OP_JLT_REG => Some ULT
  | EBPF_OP_JLE32_IMM | EBPF_OP_JLE_IMM | EBPF_OP_JLE32_REG | EBPF_OP_JLE_REG => Some ULE
  | EBPF_OP_JSLT32_IMM | EBPF_OP_JSLT_IMM | EBPF_OP_JSLT32_REG | EBPF_OP_JSLT_REG => Some SLT
  | EBPF_OP_JSLE32_IMM | EBPF_OP_JSLE_IMM | EBPF_OP_JSLE32_REG | EBPF_OP_JSLE_REG => Some SLE
  | _ => None
  end.

Definition emitCmpXchg (inst : ebpf_inst) (is64 : bool) : emit unit :=
  let t := if is64 then I64 else I32 in
  base ← CreateLoad PtrTy (PReg (i_dst inst));
  vPtr ← CreateGEP base (i_offset inst);
  beforeVal ← CreateLoad t (PMem vPtr);
  cmp ← CreateLoad t (PReg 0);
  new ← CreateLoad t (PReg (i_src inst));
  _ ← create_ (ICmpXchg vPtr cmp new);
  v ← CreateCast ZExt beforeVal I64;
  CreateStore v (PReg 0).

Definition emitAtomic (inst : ebpf_inst) (is64 : bool) : emit unit :=
  let is_fetch := Z.land (i_imm inst) EBPF_ATOMIC_OP_FETCH =? EBPF_ATOMIC_OP_FETCH in
  let is_op c := (i_imm inst =? c) || (i_imm inst =? Z.lor c EBPF_ATOMIC_OP_FETCH) in
  if is_op EBPF_ATOMIC_ADD then emitAtomicBinOp RmwAdd inst is64 is_fetch
  else if is_op EBPF_ATOMIC_AND then emitAtomicBinOp RmwAnd inst is64 is_fetch
  else if is_op EBPF_ATOMIC_OR then emitAtomicBinOp RmwOr inst is64 is_fetch
  else if is_op EBPF_ATOMIC_XOR then emitAtomicBinOp RmwXor inst is64 is_fetch
  else if i_imm inst =? EBPF_ATOMIC_OP_XCHG then emitAtomicBinOp RmwXchg inst is64 false
  else if i_imm inst =? EBPF_ATOMIC_OP_CMPXCHG then emitCmpXchg inst is64
  else fail (UnsupportedAtomic (i_imm inst)).

(** The [switch] for the instruction at [pc]; [next] is the one behind it. *)
Definition emitInst (pc : Z) (inst : ebpf_inst) (next : option ebpf_inst) : emit (option terminator) :=
  let plain (e : emit unit) : emit (option terminator) := _ ← e; mret None in
  match find_op jit_ops (i_opcode inst) with
  | None => if i_opcode inst =? Z.lor (op_code EBPF_OP_CALL) 0x8 then emitCall pc inst else fail (UnsupportedOpcode (i_opcode inst) pc)
  | Some o =>
      match emitALU pc o inst, emitMem o inst, jmp_pred o with
      | Some e, _, _ | None, Some e, _ => plain e
      | None, None, Some p => emitCondJmpWithDstAndSrc pc inst instBlocks (CreateICmp p)
      | None, None, None =>
          match o with
          | EBPF_OP_LDDW => plain (emitLDDW pc inst next)
          | EBPF_OP_JA => b ← loadJmpDstBlock pc inst instBlocks true; mret (Some (TBr b))
          | EBPF_OP_JA_IMM => b ← loadJmpDstBlock pc inst instBlocks false; mret (Some (TBr b))
          | EBPF_OP_CALL => emitCall pc inst
          | EBPF_OP_EXIT => emitExit
          | EBPF_OP_JSET32_IMM | EBPF_OP_JSET_IMM | EBPF_OP_JSET32_REG | EBPF_OP_JSET_REG => emitJSet pc inst
          | EBPF_ATOMIC_OPCODE_32 => plain (emitAtomic inst false)
          | EBPF_ATOMIC_OPCODE_64 => plain (emitAtomic inst true)
          | _ => fail (UnsupportedOpcode (i_opcode inst) pc)
          end
      end
  end.
End gen.

(** ** Blocks *)

(** The marks that instruction [i] makes; [None] when one is outside of the vector. *)
Definition mark_inst (prev : option ebpf_inst) (i : Z) (curr : ebpf_inst) (blockBegin : list bool) : option (list bool) :=
  let bb := match prev with Some p => if is_jmp p then <[Z.to_nat i := true]> blockBegin else blockBegin | None => blockBegin end in
  if is_imm_jmp curr then
    let t := i + i_imm curr + 1 in
    if (0 <=? t) && (t <? zlen bb) then Some (<[Z.to_nat t := true]> bb) else None
  else if is_jmp curr then
    let t := u64 (i + i_offset curr + 1) in
    Some (if t <? zlen bb then <[Z.to_nat t := true]> bb else bb)
  else Some bb.

Fixpoint split_from (prev : option ebpf_inst) (i : Z) (insts : list ebpf_inst) (blockBegin : list bool) : option (list bool) :=
  match insts with
  | [] => Some blockBegin
  | curr :: insts => bb ← mark_inst prev i curr blockBegin; split_from (Some curr) (i + 1) insts bb
  end.
Definition split_blocks (insts : list ebpf_inst) : option (list bool) :=
  split_from None 0 insts (<[0%nat := true]> (replicate (length insts) false)).

(** The instructions that a block begins with, in order. *)
Definition block_pcs (blockBegin : list bool) : list Z :=
  List.filter (λ pc, blockBegin !!! Z.to_nat pc) (seqZ 0 (zlen blockBegin)).

(** The blocks behind calls of local functions. *)
Definition ret_pcs (insts : list ebpf_inst) (pcs : list Z) : list Z :=
  List.filter (λ i, (1 <? i) && match insts !! Z.to_nat (i - 1) with
                                | Some p => (i_opcode p =? op_code EBPF_OP_CALL) && (i_src p =? 1)
                                | None => false
                                end) pcs.

(** ** The function *)

Definition setupCode (main_func_with_arguments : bool) : list instr :=
  [IGep StackBegin (8 * (STACK_SIZE * MAX_LOCAL_FUNC_DEPTH)); IStore (Val PtrTy 0) (PReg 10); IStore (getInt64 0) PCnt] ++
  if main_func_with_arguments then [IStore (Arg PtrTy 0) (PReg 1); IStore (Arg I64 1) (PReg 2)] else [].

Definition exitCode (is_cuda : bool) : group :=
  if is_cuda then ([], Some TRetVoid) else ([ILoad I64 (PReg 0)], Some (TRet (Val I64 0))).

(** The load of register [i] from [callStack]. *)
Definition emitRestoreReg (count : operand) (i : Z) : emit unit :=
  pos ← CreateBinOp Sub count (getInt64 (i - 4));
  v ← CreateLoad I64 (PSlot pos);
  CreateStore v (PReg i).
Definition emitLocalRet (dests : list Z) : emit (option terminator) :=
  count ← CreateLoad I64 PCnt;
  pos ← CreateBinOp Sub count (getInt64 1);
  targetAddr ← CreateLoad PtrTy (PSlot pos);
  _ ← emitRestoreReg count 6; _ ← emitRestoreReg count 7; _ ← emitRestoreReg count 8; _ ← emitRestoreReg count 9;
  n ← CreateBinOp Sub count (getInt64 5);
  _ ← CreateStore n PCnt;
  r10 ← CreateLoad I64 (PReg 10);
  sp ← CreateBinOp Add r10 (getInt64 STACK_SIZE);
  _ ← CreateStore sp (PReg 10);
  mret (Some (TIndirectBr targetAddr dests)).

(** Code at the end of block [cur]; no code leaves the block as it is. *)
Definition append_group (blocks : list (Z * list group)) (cur : Z) (g : group) : list (Z * list group) :=
  match g with
  | ([], None) => blocks
  | _ => (λ '(b, gs), if b =? cur then (b, gs ++ [g]) else (b, gs)) <$> blocks
  end.

Definition has_terminator (gs : list group) : bool :=
  match last gs with Some (_, Some _) => true | _ => false end.

(** The loop that ends the blocks without a terminator with a branch to the next one. *)
Fixpoint add_br (blocks : list (Z * list group)) : list (Z * list group) :=
  match blocks with
  | [] => []
  | (b, gs) :: rest =>
      match rest with
      | [] => blocks
      | (b', _) :: _ => (b, if has_terminator gs then gs else gs ++ [([], Some (TBr (BInst b')))]) :: add_br rest
      end
  end.

Section generate.
Context `{!Llvm} (vm : llvmbpf_vm).

(** The loop over the instructions from [pc] on; [cur] is the block that code is put into. *)
Fixpoint gen_loop (extFuncNames lddwHelpers : list string) (patch : bool) (blockBegin : list bool) (ret : list Z)
    (pc cur : Z) (insts : list ebpf_inst) (blocks : list (Z * list group)) : gen_error + list (Z * list group) :=
  match insts with
  | [] => inr blocks
  | inst :: rest =>
      let cur := if (blockBegin !!! Z.to_nat pc : bool) then pc else cur in
      if (10 <? i_dst inst) || (10 <? i_src inst) then inl (IllegalReg pc)
      else
        match emitInst vm extFuncNames lddwHelpers patch (list_to_set (block_pcs blockBegin)) ret pc inst (head rest) [] with
        | inl e => inl e
        | inr (t, code) =>
            let blocks := append_group blocks cur (code, t) in
            match rest with
            | _ :: rest' =>
                if i_opcode inst =? op_code EBPF_OP_LDDW then gen_loop extFuncNames lddwHelpers patch blockBegin ret (pc + 2) cur rest' blocks
                else gen_loop extFuncNames lddwHelpers patch blockBegin ret (pc + 1) cur rest blocks
            | [] => inr blocks
            end
        end
  end.

Definition generateModule (extFuncNames lddwHelpers : list string) (patch main_func_with_arguments is_cuda : bool)
  : gen_error + jmodule :=
  let insts := lv_instructions vm in
  if zlen insts =? 0 then inl NoInstructions
  else if 2 ^ 16 <=? zlen insts then inl GenDiverges
  else
    match split_blocks insts with
    | None => inl GenCrash
    | Some blockBegin =>
        let pcs := block_pcs blockBegin in
        let ret := ret_pcs insts pcs in
        match gen_loop extFuncNames lddwHelpers patch blockBegin ret 0 0 insts ((λ pc, (pc, [])) <$> pcs), emitLocalRet ret [] with
        | inl e, _ | _, inl e => inl e
        | inr blocks, inr (t, code) =>
            let m := JModule [(setupCode main_func_with_arguments, Some (TBr (BInst 0)))] (add_br blocks) [exitCode is_cuda] [(code, t)] in
            if negb is_cuda && negb (ll_verify m) then inl InvalidModule else inr m
        end
    end.
End generate.

(** ** The virtual machine *)

Definition lv_new : llvmbpf_vm := LlvmbpfVm None [] (replicate (Z.to_nat LLVM_MAX_EXT_FUNCS) None) None None None None None None.

Definition lv_set (vm : llvmbpf_vm) (e : option lv_message) (code : list ebpf_inst) (fs : list (option external_function))
    (j : option (jmodule * (string → option ext_func))) : llvmbpf_vm :=
  LlvmbpfVm e code fs (lv_map_by_fd vm) (lv_map_by_idx vm) (lv_map_val vm) (lv_var_addr vm) (lv_code_addr vm) j.
Definition lv_set_error (vm : llvmbpf_vm) (e : lv_message) : llvmbpf_vm :=
  lv_set vm (Some e) (lv_instructions vm) (lv_ext_funcs vm) (lv_jitted vm).

Definition lv_register_external_function (vm : llvmbpf_vm) (index : Z) (name : string) (fn : ext_func) : Z * llvmbpf_vm :=
  if zlen (lv_ext_funcs vm) <=? index then (- errno_val E2BIG, lv_set_error vm IndexTooLarge)
  else
    match lv_ext_funcs vm !! Z.to_nat index with
    | Some (Some _) => (- errno_val EEXIST, lv_set_error vm AlreadyDefined)
    | _ => (0, lv_set vm (lv_error vm) (lv_instructions vm) (<[Z.to_nat index := Some (ExternalFunction name fn)]> (lv_ext_funcs vm)) (lv_jitted vm))
    end.

(** [code] has the instructions at the pointer. *)
Definition lv_load_code (vm : llvmbpf_vm) (code : list ebpf_inst) (code_len : Z) : res unit * llvmbpf_vm :=
  if negb (code_len mod 8 =? 0) then (Raw (- errno_val EINVAL), lv_set_error vm CodeLength)
  else if zlen code <? code_len / 8 then (Fault, vm)
  else (Ok tt, lv_set vm (lv_error vm) (take (Z.to_nat (code_len / 8)) code) (lv_ext_funcs vm) (lv_jitted vm)).
Definition lv_unload_code (vm : llvmbpf_vm) : llvmbpf_vm := lv_set vm (lv_error vm) [] (lv_ext_funcs vm) (lv_jitted vm).
Definition lv_set_lddw_helpers (vm : llvmbpf_vm) (map_by_fd map_by_idx map_val var_addr code_addr : option (Z → Z)) : llvmbpf_vm :=
  LlvmbpfVm (lv_error vm) (lv_instructions vm) (lv_ext_funcs vm) map_by_fd map_by_idx map_val var_addr code_addr (lv_jitted vm).

(** The names that the code can call, with the functions that they are linked to. *)
Definition ext_symbols (vm : llvmbpf_vm) : list (string * ext_func) :=
  omap (λ '(i, f), (λ f, (ext_func_sym i, ef_fn f)) <$> f) (zip (seqZ 0 (zlen (lv_ext_funcs vm))) (lv_ext_funcs vm)).
Definition lddw_symbols (vm : llvmbpf_vm) : list (string * ext_func) :=
  match lv_map_val vm with Some f => [(LDDW_HELPER_MAP_VAL, λ args m, (f (args !!! 0%nat), m))] | None => [] end.
Definition link (syms : list (string * ext_func)) (name : string) : option ext_func :=
  p ← list_find (λ p, p.1 = name) syms; Some p.2.2.

Section vm.
Context `{!Llvm}.

Definition do_jit_compile (vm : llvmbpf_vm) : gen_error + (jmodule * (string → option ext_func)) :=
  match generateModule vm (ext_symbols vm).*1 (lddw_symbols vm).*1 true true false with
  | inl e => inl e
  | inr m => inr (m, link (ext_symbols vm ++ lddw_symbols vm))
  end.

Definition lv_compile (vm : llvmbpf_vm) : option (jmodule * (string → option ext_func)) * llvmbpf_vm :=
  match lv_jitted vm with
  | Some f => (Some f, lv_set_error vm AlreadyCompiled)
  | None =>
      match do_jit_compile vm with
      | inl e => (None, lv_set_error vm (CompileError e))
      | inr f => (Some f, lv_set vm (lv_error vm) (lv_instructions vm) (lv_ext_funcs vm) (Some f))
      end
  end.

(** A run of at most [fuel] rounds; [None] when the compilation fails. [undef] has the values of undefined arguments. *)
Definition lv_exec (vm : llvmbpf_vm) (mem mem_len stack : Z) (undef : jstate → nat → Z) (fuel : nat) (m : memory)
  : option jout * llvmbpf_vm :=
  let call '(jm, ext) := jit_exec (JEnv [mem; mem_len] stack ext undef) jm fuel m in
  match lv_jitted vm with
  | Some f => (Some (call f), vm)
  | None =>
      match lv_compile vm with
      | (None, vm) => (None, vm)
      | (Some f, vm) => (Some (call f), lv_set vm (lv_error vm) (lv_instructions vm) (lv_ext_funcs vm) (Some f))
      end
  end.
End vm.
