(* ===== verification/LlvmWp.v ===== *)
(** * What emitted code does

    Rules for the code of one eBPF instruction: [emits js env e Q] says that the calls [e] of the builder
    succeed and that the code which they append, run in state [js] where [env] has the values so far, ends
    with [Q]. With them, what the compiler emits for arithmetic, jumps and memory is the same as what the
    interpreter does. *)

From stdpp Require Import base numbers list strings gmap.
From S2P Require Import Prelude.
From S2P Require Import EbpfIsa.
From S2P Require Import UbpfVm.
From S2P Require Import UbpfSafe.
From S2P Require Import LlvmIr.
From S2P Require Import LlvmJit.

Section wp.
Context `{!Llvm} (je : jenv).

Definition emits {A} (js : jstate) (env : list rv) (e : emit A) (Q : A → jstate → list rv → Prop) : Prop :=
  ∀ code0, length code0 = length env → ∃ a code js' ext,
    e code0 = inr (a, code0 ++ code) ∧ length ext = length code ∧ exec_instrs je js env code = Some (js', env ++ ext) ∧ Q a js' (env ++ ext).

(** A value that an operand has, now and after more code. *)
Definition evals (env : list rv) (v : operand) (t : ity) (z : Z) : Prop := eval je env v = Some (RInt t z).

Lemma evals_app env ext v t z : evals env v t z → evals (env ++ ext) v t z.
Proof. unfold evals. destruct v; cbn [eval]; try done. by apply lookup_app_l_Some. Qed.
Lemma evals_int env v t z : evals env v t z → eval_int je env v = Some (t, z).
Proof. unfold evals, eval_int. by intros ->. Qed.
Lemma evals_const env t z : evals env (Const t z) t z.
Proof. done. Qed.
Lemma evals_const' env t z z' : z = z' → evals env (Const t z) t z'.
Proof. by intros ->. Qed.

Lemma exec_instrs_app js env c1 c2 :
  exec_instrs je js env (c1 ++ c2) = '(js, env) ← exec_instrs je js env c1; exec_instrs je js env c2.
Proof.
  revert js env. induction c1 as [|i c1 IH]; intros js env; [done|]. cbn [app exec_instrs].
  destruct (exec_instr je js env i) as [[js' v]|]; [|done]. cbn [mbind option_bind]. apply IH.
Qed.

Lemma emits_ret {A} js env (a : A) (Q : A → jstate → list rv → Prop) : Q a js env → emits js env (mret a) Q.
Proof. intros HQ code0 Hl. exists a, [], js, []. rewrite !app_nil_r. auto. Qed.

Lemma emits_bind {A B} js env (e : emit A) (f : A → emit B) Q :
  emits js env e (λ a js' env', (∃ ext, env' = env ++ ext) → emits js' env' (f a) Q) → emits js env (e ≫= f) Q.
Proof.
  intros He code0 Hl. destruct (He code0 Hl) as (a&c1&js1&x1&E1&L1&X1&K). specialize (K ltac:(by eexists)).
  destruct (K (code0 ++ c1)) as (b&c2&js2&x2&E2&L2&X2&HQ); [rewrite !length_app; lia|].
  exists b, (c1 ++ c2), js2, (x1 ++ x2). unfold mbind, emit_bind. rewrite E1, E2. split; [by rewrite app_assoc|].
  split; [rewrite !length_app; lia|]. rewrite exec_instrs_app, X1. cbn [mbind option_bind]. rewrite X2, !app_assoc. done.
Qed.

Lemma emits_mono {A} js env (e : emit A) (Q Q' : A → jstate → list rv → Prop) :
  emits js env e Q → (∀ a js' env', Q a js' env' → Q' a js' env') → emits js env e Q'.
Proof. intros He HQ code0 Hl. destruct (He code0 Hl) as (a&c&js'&x&?&?&?&?). exists a, c, js', x. auto. Qed.

(** An instruction that gives a value. *)
Lemma emits_create_rv js env i t js' r Q :
  exec_instr je js env i = Some (js', r) →
  (∀ v env', (∃ ext, env' = env ++ ext) → eval je env' v = Some r → ty_of v = t → Q v js' env') → emits js env (create i t) Q.
Proof.
  intros Hi HQ code0 Hl. exists (Val t (length code0)), [i], js', [r]. split; [done|]. split; [done|].
  cbn [exec_instrs]. rewrite Hi. cbn [mbind option_bind]. split; [done|]. apply HQ; [by eexists| |done].
  cbn [eval]. by rewrite Hl, lookup_app_r, Nat.sub_diag by lia.
Qed.
Lemma emits_create js env i t js' z Q :
  exec_instr je js env i = Some (js', RInt t z) →
  (∀ v env', (∃ ext, env' = env ++ ext) → evals env' v t z → ty_of v = t → Q v js' env') → emits js env (create i t) Q.
Proof. apply emits_create_rv. Qed.
Lemma emits_create_ js env i js' r Q :
  exec_instr je js env i = Some (js', r) → (∀ env', Q tt js' env') → emits js env (create_ i) Q.
Proof.
  intros Hi HQ code0 Hl. exists tt, [i], js', [r]. split; [done|]. split; [done|]. cbn [exec_instrs]. by rewrite Hi.
Qed.

Definition post_val (js : jstate) (t : ity) (z : Z) : operand → jstate → list rv → Prop :=
  λ v js' env', js' = js ∧ evals env' v t z ∧ ty_of v = t.

Lemma emits_load_reg js env t r z : j_reg js !! Z.to_nat r = Some (Some z) →
  emits js env (CreateLoad t (PReg r)) (post_val js t (z mod 2 ^ width t)).
Proof. intros Hr. eapply emits_create; [cbn [exec_instr load_place]; by rewrite Hr|]. done. Qed.

(** The load of 64 bits of a register that may not have been written. *)
Definition rv_of (z : option Z) : rv := match z with Some z => RInt I64 z | None => RUndef end.
Lemma emits_load_any js env r z : j_reg js !! Z.to_nat r = Some z → from_option in_u64 True z →
  emits js env (CreateLoad I64 (PReg r)) (λ v js' env', js' = js ∧ eval je env' v = Some (rv_of z)).
Proof.
  intros Hr Hz. eapply emits_create_rv; [cbn [exec_instr load_place]; by rewrite Hr|]. intros v env' _ Hv _. split; [done|].
  rewrite Hv. destruct z as [z|]; [|done]. cbn [rv_of width]. by rewrite Z.mod_small.
Qed.

Lemma emits_binop js env op a b t x y z : evals env a t x → evals env b t y → ty_of a = t → ll_binop op (width t) x y = Some z →
  emits js env (CreateBinOp op a b) (post_val js t z).
Proof.
  intros Ha Hb <- Hz. eapply emits_create; [|by intros; split].
  cbn [exec_instr]. rewrite (evals_int _ _ _ _ Ha), (evals_int _ _ _ _ Hb). cbn [mbind option_bind].
  by rewrite decide_True, Hz by done.
Qed.

Lemma emits_icmp js env p a b t x y : evals env a t x → evals env b t y →
  emits js env (CreateICmp p a b) (post_val js I1 (Z.b2z (ll_icmp p (width t) x y))).
Proof.
  intros Ha Hb. eapply emits_create; [|by intros; split].
  cbn [exec_instr]. rewrite (evals_int _ _ _ _ Ha), (evals_int _ _ _ _ Hb). cbn [mbind option_bind].
  by rewrite decide_True by done.
Qed.

Lemma emits_select js env c a b t x y (cond : bool) : evals env c I1 (Z.b2z cond) → evals env a t x → evals env b t y → ty_of a = t →
  emits js env (CreateSelect c a b) (post_val js t (if cond then x else y)).
Proof.
  intros Hc Ha Hb Ht. unfold CreateSelect. rewrite Ht. eapply (emits_create _ _ _ t js (if cond then x else y)); [|by intros; split].
  cbn [exec_instr]. rewrite (evals_int _ _ _ _ Hc). unfold evals in *. rewrite Ha, Hb. by destruct cond.
Qed.

(** A cast to another type, and one to the same type. *)
Lemma emits_cast js env c a t x t' : evals env a t x → ty_of a = t → t ≠ t' →
  emits js env (CreateCast c a t') (post_val js t' (ll_cast c (width t) (width t') x)).
Proof.
  intros Ha Ht Hne. unfold CreateCast. rewrite decide_False by congruence. eapply emits_create; [|by intros; split].
  cbn [exec_instr]. by rewrite (evals_int _ _ _ _ Ha).
Qed.
Lemma emits_cast_same js env c a t x : evals env a t x → ty_of a = t → emits js env (CreateCast c a t) (post_val js t x).
Proof. intros Ha Ht. unfold CreateCast. rewrite decide_True by done. by apply emits_ret. Qed.

Lemma emits_gep js env base t x off : evals env base t x → emits js env (CreateGEP base off) (post_val js PtrTy (u64 (x + off))).
Proof. intros Hb. eapply emits_create; [cbn [exec_instr]; by rewrite (evals_int _ _ _ _ Hb)|]. done. Qed.

(** The arguments of a call: defined ones, and one that is not. *)
Lemma eval_arg_defined js env n v t z : evals env v t z → eval_arg je js env n v = Some z.
Proof. unfold evals, eval_arg. by intros ->. Qed.
Lemma eval_arg_undef js env n v : eval je env v = Some RUndef → eval_arg je js env n v = Some (je_undef je js n).
Proof. unfold eval_arg. by intros ->. Qed.
Lemma eval_app env ext v r : eval je env v = Some r → eval je (env ++ ext) v = Some r.
Proof. destruct v; cbn [eval]; try done. by apply lookup_app_l_Some. Qed.

Lemma emits_call js env name args zs f r m : imap (eval_arg je js env) args = Some <$> zs → je_ext je name = Some f → f zs (j_mem js) = (r, m) →
  emits js env (CreateCall name args) (post_val (j_set_mem js m) I64 (u64 r)).
Proof.
  intros Ha Hf Hr. eapply emits_create; [|by intros; split]. cbn [exec_instr]. rewrite Hf. cbn [mbind option_bind].
  rewrite Ha, (mapM_Some_2 id _ zs). { cbn [mbind option_bind]. by rewrite Hr. }
  apply Forall2_fmap_l, Forall2_same_length_lookup. split; [done|]. intros i x y Hx Hy. cbn. congruence.
Qed.

(** The registers: 11 of them, of 64 bits, written or not. *)
Definition regs_ok (js : jstate) : Prop := length (j_reg js) = 11%nat ∧ Forall (from_option in_u64 True) (j_reg js).
Definition jreg (js : jstate) (r : Z) : Z := default 0 (j_reg js !!! Z.to_nat r).
Definition written (js : jstate) (r : Z) : Prop := is_Some (j_reg js !!! Z.to_nat r).

Lemma jreg_lookup js r : regs_ok js → 0 ≤ r ≤ 10 → written js r → j_reg js !! Z.to_nat r = Some (Some (jreg js r)).
Proof.
  intros [Hl _] Hr [z Hz]. rewrite list_lookup_lookup_total_lt by lia. unfold jreg. by rewrite Hz.
Qed.
Lemma reg_u64 js r z : regs_ok js → j_reg js !! Z.to_nat r = Some z → from_option in_u64 True z.
Proof. intros [_ Hf]. by apply Forall_lookup_1. Qed.
Lemma jreg_unwritten js r : regs_ok js → 0 ≤ r ≤ 10 → ¬ written js r → j_reg js !! Z.to_nat r = Some None.
Proof.
  intros [Hl _] Hr Hn. rewrite list_lookup_lookup_total_lt by lia. f_equal. apply eq_None_not_Some. exact Hn.
Qed.
Lemma jreg_u64 js r : regs_ok js → 0 ≤ r ≤ 10 → in_u64 (jreg js r).
Proof.
  intros [Hl Hf] Hr. unfold jreg. rewrite Forall_lookup in Hf.
  specialize (Hf (Z.to_nat r) _ (list_lookup_lookup_total_lt (j_reg js) (Z.to_nat r) ltac:(lia))).
  by destruct (j_reg js !!! Z.to_nat r).
Qed.

(** A store of 64 bits. *)
Lemma emits_store_reg js env v t z r : regs_ok js → 0 ≤ r ≤ 10 → evals env v t z → width t = 64 →
  emits js env (CreateStore v (PReg r)) (λ _ js' _, js' = j_set_reg js r z).
Proof.
  intros Hok Hr Hv Hw. eapply emits_create_; [|done]. cbn [exec_instr]. unfold evals in Hv. rewrite Hv. cbn [mbind option_bind store_place].
  destruct Hok as [Hl _]. rewrite (list_lookup_lookup_total_lt (j_reg js) (Z.to_nat r)) by lia. cbn [mbind option_bind]. by rewrite Hw.
Qed.
End wp.

(** ** Arithmetic *)

Lemma u32_u64 x : u32 (u64 x) = u32 x.
Proof. unfold u32, u64. change (2 ^ 64) with (2 ^ 32 * 2 ^ 32). symmetry. apply Znumtheory.Zmod_div_mod; [lia..|]. apply Z.divide_factor_l. Qed.
Lemma u32_u32 x : u32 (u32 x) = u32 x.
Proof. apply u32_small, u32_bound. Qed.
Lemma u32_add a b : (u32 a + u32 b) mod 2 ^ 32 = u32 (a + b).
Proof. unfold u32. by rewrite <- Zplus_mod. Qed.
Lemma u32_sub a b : (u32 a - u32 b) mod 2 ^ 32 = u32 (a - b).
Proof. unfold u32. by rewrite <- Zminus_mod. Qed.
Lemma u32_mul a b : (u32 a * u32 b) mod 2 ^ 32 = u32 (a * b).
Proof. unfold u32. by rewrite <- Zmult_mod. Qed.
Lemma u32_neq_0 imm : - 2 ^ 31 ≤ imm < 2 ^ 31 → imm ≠ 0 → u32 imm ≠ 0.
Proof. intros Hb Hi H0. apply Hi. rewrite <- (s32_signed imm) by done. by rewrite <- s32_u32, H0. Qed.
Lemma u64_neq_0 imm : - 2 ^ 31 ≤ imm < 2 ^ 31 → imm ≠ 0 → u64 imm ≠ 0.
Proof. intros Hb Hi H0. apply (u32_neq_0 imm Hb Hi). by rewrite <- u32_u64, H0. Qed.
Lemma shift_mask_64 x : SHIFT_MASK_64_BIT x = u64 x mod 64.
Proof.
  unfold SHIFT_MASK_64_BIT. change 0x3f with (Z.ones 6). rewrite Z.land_ones by lia. unfold u64.
  apply Znumtheory.Zmod_div_mod; [lia..|]. by exists (2 ^ 58).
Qed.
Lemma shift_mask_32 x : SHIFT_MASK_32_BIT x = u32 x mod 32.
Proof.
  unfold SHIFT_MASK_32_BIT. change 0x1f with (Z.ones 5). rewrite Z.land_ones by lia. unfold u32.
  apply Znumtheory.Zmod_div_mod; [lia..|]. by exists (2 ^ 27).
Qed.
Lemma u32_lor a b : u32 (Z.lor a b) = Z.lor (u32 a) (u32 b).
Proof. apply lor_mod_pow2. lia. Qed.
Lemma u32_land a b : u32 (Z.land a b) = Z.land (u32 a) (u32 b).
Proof. apply land_mod_pow2. lia. Qed.
Lemma u32_lxor a b : u32 (Z.lxor a b) = Z.lxor (u32 a) (u32 b).
Proof. apply lxor_mod_pow2. lia. Qed.
Lemma u32_div a b : u32 b ≠ 0 → u32 (u32 a / u32 b) = u32 a / u32 b.
Proof.
  intros Hb. pose proof (u32_bound a). pose proof (u32_bound b). apply u32_small. split; [apply Z.div_pos; lia|].
  apply Z.div_lt_upper_bound; nia.
Qed.
Lemma u32_rem a b : u32 b ≠ 0 → u32 (u32 a mod u32 b) = u32 a mod u32 b.
Proof. intros Hb. pose proof (u32_bound a). pose proof (u32_bound b). apply u32_small. pose proof (Z.mod_pos_bound (u32 a) (u32 b)). lia. Qed.
Lemma u32_shiftr a n : 0 ≤ n → u32 (Z.shiftr (u32 a) n) = Z.shiftr (u32 a) n.
Proof. intros Hn. apply u32_small. pose proof (u32_bound a). by apply shiftr_bound. Qed.
Lemma sgnw_32 x : sgnw 32 x = s32 x.
Proof. done. Qed.
Lemma sgnw_64 x : sgnw 64 x = s64 x.
Proof. done. Qed.

Section alu.
Context `{!Llvm} (je : jenv) (js : jstate) (inst : ebpf_inst).
Context (Hok : regs_ok js) (Hd : 0 ≤ i_dst inst ≤ 10) (Hs : 0 ≤ i_src inst ≤ 10).
Context (Hwd : written js (i_dst inst)) (Hws : Z.land (i_opcode inst) 0x08 ≠ EBPF_SRC_IMM → written js (i_src inst)).
#[local] Notation d := (jreg js (i_dst inst)).
#[local] Notation s := (jreg js (i_src inst)).

(** The second operand of an arithmetic instruction. *)
Definition alu_src : Z := if Z.land (i_opcode inst) 0x08 =? EBPF_SRC_IMM then u64 (i_imm inst) else s.

Definition writes_dst (v : Z) : unit → jstate → list rv → Prop := λ _ js' _, js' = j_set_reg js (i_dst inst) v.

Lemma emits_result env r v : is_alu64 inst = true ∧ evals je env r I64 v ∨ is_alu64 inst = false ∧ evals je env r I32 v →
  ty_of r = (if is_alu64 inst then I64 else I32) → emits je js env (emitStoreALUResult inst r) (writes_dst v).
Proof.
  intros Hr Ht. unfold emitStoreALUResult. fold (is_alu64 inst). destruct Hr as [[E Hv]|[E Hv]]; rewrite E in *.
  - by eapply emits_store_reg.
  - eapply emits_bind, emits_mono; [by eapply (emits_cast _ _ _ _ _ I32)|]. intros c js' env' (->&Hc&_) _. rewrite ll_zext in Hc.
    by eapply emits_store_reg.
Qed.

Lemma emits_src env : emits je js env (emitLoadALUSource inst)
  (if is_alu64 inst then post_val je js I64 (u64 alu_src) else post_val je js I32 (u32 alu_src)).
Proof.
  unfold emitLoadALUSource, alu_src. fold (is_alu64 inst).
  destruct (is_alu64 inst), (Z.eqb_spec (Z.land (i_opcode inst) 0x08) EBPF_SRC_IMM) as [|Hreg]; try specialize (Hws Hreg).
  - apply emits_ret. split; [done|]. split; [|done]. apply evals_const'. unfold u64. by rewrite Z.mod_mod by lia.
  - apply emits_load_reg. by apply jreg_lookup.
  - apply emits_ret. split; [done|]. split; [|done]. apply evals_const'. by rewrite u32_u64.
  - eapply emits_bind, emits_mono; [apply emits_load_reg; by apply jreg_lookup|]. intros v js' env' (->&Hv&Ht) _.
    eapply emits_mono; [by eapply (emits_cast _ _ _ _ _ I64)|]. intros c js' env'' (->&Hc&?). split; [done|]. split; [|done].
    rewrite ll_trunc in Hc. cbn [width] in Hc. fold (u64 s) in Hc. fold (u32 (u64 s)) in Hc. by rewrite u32_u64 in Hc.
Qed.

(** The code around an operation of 64 bits and of 32 bits. *)
Lemma emits_alu64 env func v : is_alu64 inst = true →
  (∀ env a b, evals je env a I64 d → evals je env b I64 (u64 alu_src) → ty_of a = I64 → ty_of b = I64 →
    emits je js env (func a b) (post_val je js I64 v)) →
  emits je js env (emitALUWithDstAndSrc inst func) (writes_dst v).
Proof.
  intros H64 Hf. unfold emitALUWithDstAndSrc, emitLoadALUDest. fold (is_alu64 inst). rewrite H64. cbn [orb].
  eapply emits_bind, emits_mono; [apply emits_load_reg; by apply jreg_lookup|]. intros a js' env' (->&Ha&Hta) _.
  cbn [width] in Ha. rewrite Z.mod_small in Ha by (by apply jreg_u64).
  eapply emits_bind, emits_mono; [apply emits_src|]. rewrite H64. intros b js' env'' (->&Hb&Htb) [x ->].
  eapply emits_bind, emits_mono; [apply Hf; eauto using evals_app|]. intros r js' env'' (->&Hr&Htr) _.
  apply emits_result; [auto|by rewrite H64].
Qed.
Lemma emits_alu32 env func v : is_alu64 inst = false →
  (∀ env a b, evals je env a I32 (u32 d) → evals je env b I32 (u32 alu_src) → ty_of a = I32 → ty_of b = I32 →
    emits je js env (func a b) (post_val je js I32 v)) →
  emits je js env (emitALUWithDstAndSrc inst func) (writes_dst v).
Proof.
  intros H64 Hf. unfold emitALUWithDstAndSrc, emitLoadALUDest. fold (is_alu64 inst). rewrite H64. cbn [orb].
  eapply emits_bind, emits_mono; [apply emits_load_reg; by apply jreg_lookup|]. intros a js' env' (->&Ha&Hta) _.
  eapply emits_bind, emits_mono; [apply emits_src|]. rewrite H64. intros b js' env'' (->&Hb&Htb) [x ->].
  eapply emits_bind, emits_mono; [apply Hf; eauto using evals_app|]. intros r js' env'' (->&Hr&Htr) _.
  apply emits_result; [auto|by rewrite H64].
Qed.

(** The type that an instruction works on. *)
Definition alu_ty : ity := if is_alu64 inst then I64 else I32.

Lemma evals_zero env : evals je env (emitZero inst) alu_ty 0.
Proof. unfold emitZero, alu_ty. by destruct (is_alu64 inst). Qed.
Lemma ty_of_zero : ty_of (emitZero inst) = alu_ty.
Proof. unfold emitZero, alu_ty. by destruct (is_alu64 inst). Qed.

(** The codes of the operations that are more than one instruction. *)
Lemma emits_div env a b x y : i_offset inst ≠ 1 → evals je env a alu_ty x → evals je env b alu_ty y → ty_of a = alu_ty → y ≠ 0 →
  emits je js env (emitDiv inst a b) (post_val je js alu_ty (x / y)).
Proof.
  intros Ho Ha Hb Ht Hy. unfold emitDiv. rewrite (proj2 (Z.eqb_neq _ _) Ho).
  eapply emits_bind, emits_mono; [apply emits_icmp; [exact Hb|apply evals_zero]|]. intros c js' env' (->&Hc&_) [e1 ->].
  rewrite ll_eq, (proj2 (Z.eqb_neq _ _) Hy) in Hc.
  eapply emits_bind, emits_mono; [eapply emits_binop; [eauto using evals_app..|by apply ll_udiv]|].
  intros q js' env' (->&Hq&Htq) [e2 ->].
  eapply emits_mono; [eapply (emits_select _ _ _ _ _ _ _ 0 _ false); [eauto using evals_app|apply evals_zero|done|apply ty_of_zero]|]. done.
Qed.
Lemma emits_mod env a b x y : i_offset inst ≠ 1 → evals je env a alu_ty x → evals je env b alu_ty y → ty_of a = alu_ty → y ≠ 0 →
  emits je js env (emitMod inst a b) (post_val je js alu_ty (x mod y)).
Proof.
  intros Ho Ha Hb Ht Hy. unfold emitMod. rewrite (proj2 (Z.eqb_neq _ _) Ho).
  eapply emits_bind, emits_mono; [apply emits_icmp; [exact Hb|apply evals_zero]|]. intros c js' env' (->&Hc&_) [e1 ->].
  rewrite ll_eq, (proj2 (Z.eqb_neq _ _) Hy) in Hc.
  eapply emits_bind, emits_mono; [eapply emits_binop; [eauto using evals_app..|by apply ll_urem]|].
  intros q js' env' (->&Hq&Htq) [e2 ->].
  eapply emits_mono; [eapply (emits_select _ _ _ _ _ _ _ x _ false); eauto using evals_app|]. done.
Qed.
Lemma emits_shift env op a b x y z : evals je env a alu_ty x → evals je env b alu_ty y → ty_of a = alu_ty → ty_of b = alu_ty →
  ll_binop op (width alu_ty) x (y mod width alu_ty) = Some z →
  emits je js env (emitShift op inst a b) (post_val je js alu_ty z).
Proof.
  intros Ha Hb Hta Htb Hz. unfold emitShift.
  eapply emits_bind, emits_mono.
  { eapply (emits_binop _ _ _ _ _ _ alu_ty y (width alu_ty)); [done| |done|apply ll_urem]; unfold alu_ty; by destruct (is_alu64 inst). }
  intros n js' env' (->&Hn&_) [e1 ->]. eapply emits_binop; eauto using evals_app.
Qed.

Lemma emits_neg env v : ll_binop Sub (width alu_ty) 0 (d mod 2 ^ width alu_ty) = Some v → emits je js env (emitNeg inst) (writes_dst v).
Proof.
  intros Hv. unfold emitNeg, emitLoadALUDest. fold (is_alu64 inst). rewrite orb_false_r.
  eapply emits_bind, (emits_mono _ _ _ _ (post_val je js alu_ty (d mod 2 ^ width alu_ty))).
  { unfold alu_ty. destruct (is_alu64 inst); apply emits_load_reg; by apply jreg_lookup. }
  intros a js' env' (->&Ha&Ht) _. rewrite Ht.
  eapply emits_bind, emits_mono; [eapply emits_binop; [apply evals_const|exact Ha|done|exact Hv]|]. intros r js' env'' (->&Hr&Htr) _.
  apply emits_result; [unfold alu_ty in *; by destruct (is_alu64 inst); auto|done].
Qed.

Lemma emits_mov env pc : i_offset inst = 0 →
  emits je js env (emitMov pc inst) (writes_dst (if is_alu64 inst then u64 alu_src else u32 alu_src)).
Proof.
  intros Ho. unfold emitMov. rewrite Ho. eapply emits_bind, emits_mono; [apply emits_src|]. cbn [Z.eqb negb].
  destruct (is_alu64 inst) eqn:E; intros b js' env' (->&Hb&Ht) _; apply emits_bind, emits_ret; intros _;
    apply emits_result; rewrite ?E; auto.
Qed.
End alu.

(** ** Byte swaps *)

Lemma le_load_app a b : le_load (a ++ b) = le_load a + 256 ^ zlen a * le_load b.
Proof.
  induction a as [|x a IH]; [cbn [app le_load]; unfold zlen; cbn [length]; lia|]. cbn [app le_load]. rewrite IH, zlen_cons, Z.pow_add_r, Z.pow_1_r by (pose proof (zlen_nonneg a); lia). ring.
Qed.

Definition merge_bytes (vals : list Z) (acc : Z) : Z := fold_left (λ acc v, acc * 256 + v) vals acc.

Lemma merge_bytes_rev vals acc : Forall (λ v, 0 ≤ v < 256) vals → merge_bytes vals acc = acc * 256 ^ zlen vals + le_load (rev vals).
Proof.
  unfold merge_bytes. revert acc. induction vals as [|v vals IH]; intros acc Hf; [unfold zlen; cbn; lia|].
  apply Forall_cons in Hf as [Hv Hf]. cbn [fold_left rev]. rewrite IH by done. rewrite zlen_cons, le_load_app, Z.pow_add_r, Z.pow_1_r by (pose proof (zlen_nonneg vals); lia).
  assert (zlen (rev vals) = zlen vals) as -> by (unfold zlen; by rewrite length_rev). cbn [le_load]. unfold u8.
  rewrite Z.mod_small by done. ring.
Qed.

(** The byte of [x] from bit [8 * i] on. *)
Definition byte_at (x i : Z) : Z := Z.land (Z.shiftr x i) 255.

Lemma byte_at_bound x i : 0 ≤ byte_at x i < 256.
Proof. unfold byte_at. change 255 with (Z.ones 8). rewrite Z.land_ones by lia. apply Z.mod_pos_bound. lia. Qed.

Lemma bytes_le_store n x : byte_at x <$> (Z.mul 8 <$> seqZ 0 (Z.of_nat n)) = le_store n x.
Proof.
  revert x. induction n as [|n IH]; intros x; [done|]. rewrite seqZ_cons by lia. cbn [fmap list_fmap le_store]. f_equal.
  - unfold byte_at. change 255 with (Z.ones 8). rewrite Z.land_ones, Z.shiftr_0_r by lia. done.
  - rewrite <- IH. rewrite <- (fmap_add_seqZ (Z.succ 0) 0), <- !list_fmap_compose.
    replace (Z.pred (Z.of_nat (S n))) with (Z.of_nat n) by lia. apply list_fmap_ext. intros i k Hi. unfold compose, byte_at. f_equal.
    apply lookup_seqZ in Hi. change (x / 256) with (x / 2 ^ 8). rewrite <- Z.shiftr_div_pow2, Z.shiftr_shiftr by lia. f_equal. lia.
Qed.

Section swap.
Context `{!Llvm} (je : jenv) (js : jstate).

Lemma emits_bytes a x pos : ∀ env, Forall (λ i, 0 ≤ i < 64) pos → evals je env a I64 x → ty_of a = I64 →
  emits je js env (emitBytes a pos) (λ bs js' env', js' = js ∧ Forall2 (λ b v, evals je env' b I64 v ∧ ty_of b = I64) bs (byte_at x <$> pos)).
Proof.
  induction pos as [|i pos IH]; intros env Hf Ha Ht; [by apply emits_ret|]. apply Forall_cons in Hf as [Hi Hf]. cbn [emitBytes].
  eapply emits_bind, (emits_mono _ _ _ _ (post_val je js I64 (byte_at x i))).
  { unfold emitByte. rewrite Ht.
    eapply emits_bind, emits_mono; [eapply emits_binop; [exact Ha|apply evals_const|done|by apply ll_lshr]|].
    intros v js' env' (->&Hv&Htv) _. eapply emits_binop; [exact Hv|apply evals_const|done|apply ll_and]. }
  intros b js' env' (->&Hb&Htb) [e1 ->]. eapply emits_bind, emits_mono; [apply IH; eauto using evals_app|].
  intros bs js' env' [-> Hbs] [e2 ->]. apply emits_ret. split; [done|]. cbn [fmap list_fmap]. constructor; [|done]. eauto using evals_app.
Qed.

Lemma merge_step acc v k : 0 ≤ acc < 256 ^ k → 0 ≤ v < 256 → 0 ≤ k < 8 →
  Z.lor (Z.shiftl acc 8 mod 2 ^ 64) v = acc * 256 + v ∧ 0 ≤ acc * 256 + v < 256 ^ (k + 1).
Proof.
  intros Ha Hv Hk. rewrite Z.pow_add_r, Z.pow_1_r by lia.
  assert (256 ^ k ≤ 256 ^ 7) by (apply Z.pow_le_mono_r; lia). split; [|lia].
  rewrite Z.shiftl_mul_pow2, Z.mod_small by lia. symmetry. apply Z.add_nocarry_lor. apply Z.bits_inj'. intros n Hn.
  rewrite Z.land_spec, Z.bits_0. destruct (Z.ltb_spec n 8); [by rewrite Z.mul_pow2_bits_low by lia|].
  rewrite <- (Z.mod_small v (2 ^ 8)), Z.mod_pow2_bits_high by lia. by rewrite andb_false_r.
Qed.

Lemma emits_merge bytes vals : ∀ env last acc k, Forall2 (λ b v, evals je env b I64 v ∧ ty_of b = I64) bytes vals →
  Forall (λ v, 0 ≤ v < 256) vals → evals je env last I64 acc → ty_of last = I64 → 0 ≤ acc < 256 ^ k → 0 ≤ k → k + zlen vals ≤ 8 →
  emits je js env (emitMerge last bytes) (post_val je js I64 (merge_bytes vals acc)).
Proof.
  revert vals. induction bytes as [|b bytes IH]; intros vals env last acc k Hf Hv Hl Ht Ha Hk Hn.
  { apply Forall2_nil_inv_l in Hf as ->. by apply emits_ret. }
  apply Forall2_cons_inv_l in Hf as (v&vals'&[Hb Htb]&Hf&->). apply Forall_cons in Hv as [Hv Hvs]. rewrite zlen_cons in Hn.
  pose proof (zlen_nonneg vals'). destruct (merge_step acc v k Ha Hv ltac:(lia)) as [Hstep Hacc]. cbn [emitMerge]. rewrite Ht.
  eapply emits_bind, emits_mono; [eapply emits_binop; [exact Hl|apply evals_const|done|apply ll_shl; cbn; lia]|].
  intros sh js' env' (->&Hsh&Hts) [e1 ->]. cbn [width] in Hsh.
  eapply emits_bind, emits_mono; [eapply emits_binop; [exact Hsh|by apply evals_app|done|apply ll_or]|].
  intros last' js' env' (->&Hl'&Htl') [e2 ->]. rewrite Hstep in Hl'. apply (IH vals' _ _ (acc * 256 + v) (k + 1)); try done; [|lia|lia].
  eapply Forall2_impl; [done|]. intros x y [? ?]. split; [|done]. by do 2 apply evals_app.
Qed.

Lemma emits_swap env a x n : evals je env a I64 x → ty_of a = I64 → (n = 2 ∨ n = 4 ∨ n = 8)%nat →
  emits je js env (bytes ← emitBytes a (Z.mul 8 <$> seqZ 0 (Z.of_nat n));
                   match bytes with [] => fail GenCrash | last :: bytes => emitMerge last bytes end) (post_val je js I64 (bswap n x)).
Proof.
  intros Ha Ht Hn. eapply emits_bind, emits_mono.
  { apply (emits_bytes _ x); [|done..]. apply Forall_fmap, Forall_forall. intros i Hi. apply elem_of_seqZ in Hi. cbn. lia. }
  rewrite bytes_le_store. intros bs js' env' [-> Hbs] _. pose proof (length_le_store n x) as Hl.
  assert (Hr : Forall (λ v, 0 ≤ v < 256) (le_store n x)).
  { rewrite <- bytes_le_store. apply Forall_fmap, Forall_forall. intros i _. apply byte_at_bound. }
  destruct (le_store n x) as [|v vals] eqn:E; [cbn in Hl; lia|]. apply Forall2_cons_inv_r in Hbs as (b&bs'&[Hb Htb]&Hbs&->).
  apply Forall_cons in Hr as [Hv Hvs]. eapply emits_mono; [apply (emits_merge _ vals _ _ v 1); try done; unfold zlen; cbn in Hl; lia|].
  intros r js' env'' Hr. replace (bswap n x) with (merge_bytes vals v); [done|].
  unfold bswap. rewrite E, (merge_bytes_rev vals v) by done. cbn [rev]. rewrite le_load_app. cbn [le_load]. unfold u8. rewrite Z.mod_small by done.
  unfold zlen. rewrite length_rev. ring.
Qed.
End swap.

(** ** All of the arithmetic *)

Section arith.
Context `{!Llvm} (je : jenv) (js : jstate) (inst : ebpf_inst).
Context (Hok : regs_ok js) (Hd : 0 ≤ i_dst inst ≤ 10) (Hs : 0 ≤ i_src inst ≤ 10).
Context (Hwd : written js (i_dst inst)) (Hws : Z.land (i_opcode inst) 0x08 ≠ EBPF_SRC_IMM → written js (i_src inst)).
#[local] Notation d := (jreg js (i_dst inst)).
#[local] Notation s := (jreg js (i_src inst)).

Lemma emits_zext_store env r t v : evals je env r t v → ty_of r = t → 
  emits je js env (x ← CreateCast ZExt r I64; CreateStore x (PReg (i_dst inst))) (writes_dst js inst v).
Proof.
  intros Hr Ht. eapply emits_bind, (emits_mono _ _ _ _ (post_val je js I64 v)).
  { destruct (decide (t = I64)) as [->|Hne]; [by apply emits_cast_same|].
    eapply emits_mono; [by eapply emits_cast|]. intros c js' env' Hp. by rewrite ll_zext in Hp. }
  intros x js' env' (->&Hx&Htx) _. by eapply emits_store_reg.
Qed.

Lemma emits_endian env o v : i_opcode inst = op_code o → o = EBPF_OP_LE ∨ o = EBPF_OP_BE → i_imm inst = 16 ∨ i_imm inst = 32 ∨ i_imm inst = 64 →
  alu32 o d s (i_imm inst) = Some (inl v) → emits je js env (emitEndian inst) (writes_dst js inst v).
Proof.
  intros Ho Hle Hi Hv. pose proof (jreg_u64 js (i_dst inst) Hok Hd) as Hu. unfold in_u64 in Hu.
  unfold emitEndian, emitLoadALUDest. rewrite orb_true_r.
  eapply emits_bind, emits_mono; [apply emits_load_reg; by apply jreg_lookup|]. cbn [width]. rewrite Z.mod_small by done.
  intros a js' env' (->&Ha&Ht) _.
  assert (Hc : opcode_class inst =? EBPF_CLS_ALU64 = false) by (unfold opcode_class; rewrite Ho; by destruct Hle as [-> | ->]).
  unfold emitALUEndianConversion, emitStoreALUResult, is_alu64. rewrite Hc. cbn [orb].
  assert (Hok3 : negb (i_imm inst =? 16) && negb (i_imm inst =? 32) && negb (i_imm inst =? 64) = false) by (destruct Hi as [-> |[-> | ->]]; done).
  rewrite Hok3. rewrite Ho. destruct Hle as [-> | ->]; cbn [alu32] in Hv.
  - change (Z.land (op_code EBPF_OP_LE) 0x08 =? 0x08) with false. cbn [orb]. destruct Hi as [Hi|[Hi|Hi]]; rewrite Hi in *; cbn [Z.eqb Pos.eqb] in *; injection Hv as <-.
    + eapply emits_bind, emits_mono; [by eapply emits_cast|]. intros r js' env'' (->&Hr&Htr) _. rewrite ll_trunc in Hr. by eapply emits_zext_store.
    + eapply emits_bind, emits_mono; [by eapply emits_cast|]. intros r js' env'' (->&Hr&Htr) _. rewrite ll_trunc in Hr. by eapply emits_zext_store.
    + apply emits_bind, emits_ret. intros _. rewrite u64_small by done. by eapply emits_zext_store.
  - change (Z.land (op_code EBPF_OP_BE) 0x08 =? 0x08) with true. cbn [orb].
    assert (∃ n : nat, (n = 2 ∨ n = 4 ∨ n = 8)%nat ∧ i_imm inst / 8 = Z.of_nat n ∧ v = bswap n d) as (n&Hn&Hn8&->).
    { destruct Hi as [Hi|[Hi|Hi]]; rewrite Hi in *; cbn [Z.eqb Pos.eqb] in Hv; injection Hv as <-;
        [exists 2%nat|exists 4%nat|exists 8%nat]; (split; [auto|by split]). }
    rewrite Hn8. eapply emits_bind, emits_mono; [by eapply emits_swap|]. intros r js' env'' (->&Hr&Htr) _. by eapply emits_zext_store.
Qed.

(** Where the compiler and the interpreter agree: not on signed divisions and moves, which the interpreter does
    not know, not on divisions by zero, and not on the comparisons that the interpreter makes with a sign lost. *)
Definition jit_agrees (o : ebpf_op) (s : Z) : bool :=
  match o with
  | EBPF_OP_DIV_IMM | EBPF_OP_DIV64_IMM | EBPF_OP_MOD_IMM | EBPF_OP_MOD64_IMM => negb (i_offset inst =? 1) && negb (i_imm inst =? 0)
  | EBPF_OP_DIV_REG | EBPF_OP_MOD_REG => negb (i_offset inst =? 1) && negb (u32 s =? 0)
  | EBPF_OP_DIV64_REG | EBPF_OP_MOD64_REG => negb (i_offset inst =? 1) && negb (s =? 0)
  | EBPF_OP_MOV_IMM | EBPF_OP_MOV_REG | EBPF_OP_MOV64_IMM | EBPF_OP_MOV64_REG => i_offset inst =? 0
  | EBPF_OP_JGT_IMM | EBPF_OP_JGE_IMM | EBPF_OP_JLT_IMM | EBPF_OP_JLE_IMM => 0 <=? i_imm inst
  | EBPF_OP_JEQ32_REG => s <? 2 ^ 32
  | EBPF_OP_CALL => (i_src inst =? 0) && negb (i_imm inst =? 12)
  | _ => true
  end.

(** One instruction between the loads and the store. *)
Lemma emits_bin64 env op v : is_alu64 inst = true → ll_binop op 64 d (u64 (alu_src js inst)) = Some v →
  emits je js env (emitALUWithDstAndSrc inst (CreateBinOp op)) (writes_dst js inst v).
Proof. intros H64 Hv. apply emits_alu64; try done. intros. by eapply emits_binop. Qed.
Lemma emits_bin32 env op v : is_alu64 inst = false → ll_binop op 32 (u32 d) (u32 (alu_src js inst)) = Some v →
  emits je js env (emitALUWithDstAndSrc inst (CreateBinOp op)) (writes_dst js inst v).
Proof. intros H64 Hv. apply emits_alu32; try done. intros. by eapply emits_binop. Qed.

Lemma emits_fun64 env func v : is_alu64 inst = true →
  (∀ env a b, evals je env a (alu_ty inst) d → evals je env b (alu_ty inst) (u64 (alu_src js inst)) → ty_of a = alu_ty inst → ty_of b = alu_ty inst →
    emits je js env (func a b) (post_val je js (alu_ty inst) v)) →
  emits je js env (emitALUWithDstAndSrc inst func) (writes_dst js inst v).
Proof. intros H64 Hf. apply emits_alu64; try done. unfold alu_ty in Hf. by rewrite H64 in Hf. Qed.
Lemma emits_fun32 env func v : is_alu64 inst = false →
  (∀ env a b, evals je env a (alu_ty inst) (u32 d) → evals je env b (alu_ty inst) (u32 (alu_src js inst)) → ty_of a = alu_ty inst → ty_of b = alu_ty inst →
    emits je js env (func a b) (post_val je js (alu_ty inst) v)) →
  emits je js env (emitALUWithDstAndSrc inst func) (writes_dst js inst v).
Proof. intros H64 Hf. apply emits_alu32; try done. unfold alu_ty in Hf. by rewrite H64 in Hf. Qed.

(** The second operand, for instructions with an immediate and with a register. *)
Lemma src_imm64 o : i_opcode inst = op_code o → Z.land (op_code o) 0x08 = 0 → u64 (alu_src js inst) = u64 (i_imm inst).
Proof. intros Ho Hl. unfold alu_src. rewrite Ho, Hl. cbn. unfold u64. by rewrite Z.mod_mod by lia. Qed.
Lemma src_reg64 o : i_opcode inst = op_code o → Z.land (op_code o) 0x08 = 8 → u64 (alu_src js inst) = s.
Proof. intros Ho Hl. unfold alu_src. rewrite Ho, Hl. cbn. apply u64_small. by apply jreg_u64. Qed.
Lemma src_imm32 o : i_opcode inst = op_code o → Z.land (op_code o) 0x08 = 0 → u32 (alu_src js inst) = u32 (i_imm inst).
Proof. intros Ho Hl. unfold alu_src. rewrite Ho, Hl. cbn. apply u32_u64. Qed.
Lemma src_reg32 o : i_opcode inst = op_code o → Z.land (op_code o) 0x08 = 8 → u32 (alu_src js inst) = u32 s.
Proof. intros Ho Hl. unfold alu_src. by rewrite Ho, Hl. Qed.

(** Divisions, remainders and shifts by a second operand [y]. *)
Lemma emits_divmod64 env y : is_alu64 inst = true → u64 (alu_src js inst) = y → i_offset inst ≠ 1 → y ≠ 0 →
  emits je js env (emitALUWithDstAndSrc inst (emitDiv inst)) (writes_dst js inst (d / y)) ∧
  emits je js env (emitALUWithDstAndSrc inst (emitMod inst)) (writes_dst js inst (d mod y)).
Proof. intros H64 <- Ho Hy. split; apply emits_fun64; try done; intros; [by apply emits_div|by apply emits_mod]. Qed.
Lemma emits_divmod32 env y : is_alu64 inst = false → u32 (alu_src js inst) = y → i_offset inst ≠ 1 → y ≠ 0 →
  emits je js env (emitALUWithDstAndSrc inst (emitDiv inst)) (writes_dst js inst (u32 d / y)) ∧
  emits je js env (emitALUWithDstAndSrc inst (emitMod inst)) (writes_dst js inst (u32 d mod y)).
Proof. intros H64 <- Ho Hy. split; apply emits_fun32; try done; intros; [by apply emits_div|by apply emits_mod]. Qed.
Lemma emits_shift64 env op y v : is_alu64 inst = true → u64 (alu_src js inst) = y → ll_binop op 64 d (y mod 64) = Some v →
  emits je js env (emitALUWithDstAndSrc inst (emitShift op inst)) (writes_dst js inst v).
Proof.
  intros H64 <- Hv. apply emits_fun64; try done. intros. eapply emits_shift; try done. unfold alu_ty. by rewrite H64.
Qed.
Lemma emits_shift32 env op y v : is_alu64 inst = false → u32 (alu_src js inst) = y → ll_binop op 32 (u32 d) (y mod 32) = Some v →
  emits je js env (emitALUWithDstAndSrc inst (emitShift op inst)) (writes_dst js inst v).
Proof.
  intros H64 <- Hv. apply emits_fun32; try done. intros. eapply emits_shift; try done. unfold alu_ty. by rewrite H64.
Qed.
Lemma emits_neg' env v : (if is_alu64 inst then u64 (- d) else u32 (- d)) = v → emits je js env (emitNeg inst) (writes_dst js inst v).
Proof.
  intros <-. apply emits_neg; try done. rewrite ll_sub. unfold alu_ty. destruct (is_alu64 inst); cbn [width]; f_equal.
  - unfold u64. rewrite Zminus_mod_idemp_r. f_equal.
  - unfold u32. rewrite Zminus_mod_idemp_r. f_equal.
Qed.
Lemma emits_mov' env pc v : i_offset inst = 0 → (if is_alu64 inst then u64 (alu_src js inst) else u32 (alu_src js inst)) = v →
  emits je js env (emitMov pc inst) (writes_dst js inst v).
Proof. intros Ho <-. by apply emits_mov. Qed.

End arith.

(** The registers whose values an instruction uses; helper [i] uses its first [arity i] arguments. *)
Definition reads (arity : Z → Z) (inst : ebpf_inst) (o : ebpf_op) : list Z :=
  match load_size o, store_size o with
  | Some _, _ => [i_src inst]
  | None, Some (_, src) => i_dst inst :: if src then [i_src inst] else []
  | None, None =>
      match o with
      | EBPF_OP_MOV_IMM | EBPF_OP_MOV64_IMM | EBPF_OP_LDDW | EBPF_OP_JA => []
      | EBPF_OP_MOV_REG | EBPF_OP_MOV64_REG => [i_src inst]
      | EBPF_OP_LE | EBPF_OP_BE => [i_dst inst]
      | EBPF_OP_EXIT => [0]
      | EBPF_OP_CALL => seqZ 1 (arity (i_imm inst))
      | _ => i_dst inst :: if Z.land (op_code o) 0x08 =? EBPF_SRC_IMM then [] else [i_src inst]
      end
  end.

Section arith_ok.
Context `{!Llvm} (je : jenv) (js : jstate) (inst : ebpf_inst).
Context (Hok : regs_ok js) (Hd : 0 ≤ i_dst inst ≤ 10) (Hs : 0 ≤ i_src inst ≤ 10).
#[local] Notation d := (jreg js (i_dst inst)).
#[local] Notation s := (jreg js (i_src inst)).

#[local] Ltac alu_operands o Ho :=
  first [assert (is_alu64 inst = true) as H64 by (unfold is_alu64, opcode_class; rewrite Ho; reflexivity)
        |assert (is_alu64 inst = false) as H64 by (unfold is_alu64, opcode_class; rewrite Ho; reflexivity)];
  first [pose proof (src_imm64 js inst o Ho eq_refl) as Hy; pose proof (src_imm32 js inst o Ho eq_refl) as Hy32
        |pose proof (src_reg64 js inst Hok Hs o Ho eq_refl) as Hy; pose proof (src_reg32 js inst o Ho eq_refl) as Hy32].

(** What is written when the instruction reads it. *)
#[local] Ltac alu_written Ho Hrd :=
  try assert (written js (i_dst inst)) as Hwd by (apply Hrd; left);
  assert (Z.land (i_opcode inst) 0x08 ≠ EBPF_SRC_IMM → written js (i_src inst)) as Hws
    by (rewrite Ho; first [intros H8; by destruct H8|intros _; apply Hrd; first [left|right; left]]).

Lemma emitALU64_ok env pc arity o e v : (∀ r, r ∈ reads arity inst o → written js r) →  i_opcode inst = op_code o → inst_wf inst → emitALU pc o inst = Some e →
  jit_agrees inst o s = true → alu64 o d s (i_imm inst) = Some (inl v) → emits je js env e (writes_dst js inst v).
Proof.
  intros Hrd Ho (_&_&_&_&Hi) He Hag Hv.
  pose proof (jreg_u64 js (i_dst inst) Hok Hd) as Hu. pose proof (jreg_u64 js (i_src inst) Hok Hs) as Hus. unfold in_u64 in *.
  destruct o; cbn [alu64] in Hv; try discriminate Hv; cbn [emitALU] in He; injection He as <-; try injection Hv as <-; cbn [jit_agrees] in Hag;
    match type of Ho with _ = op_code ?o => alu_operands o Ho end; cbn [reads load_size store_size] in Hrd; alu_written Ho Hrd.
  all: try (apply emits_bin64; [done..|]; rewrite Hy; first [apply ll_add|apply ll_sub|apply ll_mul|apply ll_or|apply ll_and|apply ll_xor]).
  - rewrite (proj2 (Z.eqb_neq (i_imm inst) 0)) by lia. apply (emits_divmod64 je js inst Hok Hd Hs Hwd Hws env); [done|done|lia|apply u64_neq_0; lia].
  - rewrite (proj2 (Z.eqb_neq s 0)) by lia. apply (emits_divmod64 je js inst Hok Hd Hs Hwd Hws env); [done|done|lia|lia].
  - rewrite shift_mask_64. eapply emits_shift64; [done..|exact Hy|]. apply ll_shl. apply Z.mod_pos_bound. lia.
  - rewrite shift_mask_64, (u64_small s) by done. eapply emits_shift64; [done..|exact Hy|]. apply ll_shl. apply Z.mod_pos_bound. lia.
  - rewrite shift_mask_64. eapply emits_shift64; [done..|exact Hy|]. apply ll_lshr. apply Z.mod_pos_bound. lia.
  - rewrite shift_mask_64, (u64_small s) by done. eapply emits_shift64; [done..|exact Hy|]. apply ll_lshr. apply Z.mod_pos_bound. lia.
  - apply emits_neg'; [done..|]. by rewrite H64.
  - rewrite (proj2 (Z.eqb_neq (i_imm inst) 0)) by lia. apply (emits_divmod64 je js inst Hok Hd Hs Hwd Hws env); [done|done|lia|apply u64_neq_0; lia].
  - rewrite (proj2 (Z.eqb_neq s 0)) by lia. apply (emits_divmod64 je js inst Hok Hd Hs Hwd Hws env); [done|done|lia|lia].
  - apply emits_mov'; [done..|lia|]. by rewrite H64.
  - apply emits_mov'; [done..|lia|]. by rewrite H64.
  - destruct ((i_imm inst <? 0) || (64 <=? i_imm inst)) eqn:E; [done|]. injection Hv as <-. bool_to_prop.
    eapply emits_shift64; [done..|exact Hy|]. rewrite (u64_small (i_imm inst)), Z.mod_small, ll_ashr by lia. by rewrite sgnw_64.
  - destruct (Z.leb_spec 64 s); [done|]. injection Hv as <-.
    eapply emits_shift64; [done..|exact Hy|]. rewrite Z.mod_small, ll_ashr by lia. by rewrite sgnw_64.
Qed.

Lemma emitALU32_ok env pc arity o e v : (∀ r, r ∈ reads arity inst o → written js r) → i_opcode inst = op_code o → inst_wf inst → emitALU pc o inst = Some e →
  (o = EBPF_OP_LE ∨ o = EBPF_OP_BE → i_imm inst = 16 ∨ i_imm inst = 32 ∨ i_imm inst = 64) →
  jit_agrees inst o s = true → alu32 o d s (i_imm inst) = Some (inl v) → emits je js env e (writes_dst js inst v).
Proof.
  intros Hrd Ho (_&_&_&_&Hi) He Hend Hag Hv. destruct (decide (o = EBPF_OP_LE ∨ o = EBPF_OP_BE)) as [Hle|Hle].
  { assert (e = emitEndian inst) as -> by (destruct Hle as [-> | ->]; by injection He). eapply emits_endian; eauto.
    destruct Hle as [-> | ->]; apply Hrd; left. }
  pose proof (jreg_u64 js (i_dst inst) Hok Hd) as Hu. pose proof (jreg_u64 js (i_src inst) Hok Hs) as Hus. unfold in_u64 in *.
  destruct o; cbn [alu32] in Hv; try discriminate Hv; try (destruct Hle; by auto); cbn [emitALU] in He; injection He as <-; try injection Hv as <-; cbn [jit_agrees] in Hag;
    match type of Ho with _ = op_code ?o => alu_operands o Ho end; cbn [reads load_size store_size] in Hrd; alu_written Ho Hrd; rewrite ?mask32_u32, ?u32_u64.
  all: try (apply emits_bin32; [done..|]; rewrite Hy32; rewrite ?ll_add, ?ll_sub, ?ll_mul, ?ll_or, ?ll_and, ?ll_xor, ?u32_add, ?u32_sub, ?u32_mul).
  all: try (by rewrite ?u32_lor, ?u32_land, ?u32_lxor, <- ?u32_add, <- ?u32_sub, <- ?u32_mul, ?u32_u64).
  - rewrite (proj2 (Z.eqb_neq (u32 (i_imm inst)) 0)), u32_div by (try apply u32_neq_0; lia).
    apply (emits_divmod32 je js inst Hok Hd Hs Hwd Hws env); [done|done|lia|apply u32_neq_0; lia].
  - rewrite (proj2 (Z.eqb_neq (u32 s) 0)), u32_div by lia. apply (emits_divmod32 je js inst Hok Hd Hs Hwd Hws env); [done|done|lia|lia].
  - rewrite shift_mask_32, u32_u32. eapply emits_shift32; [done..|exact Hy32|]. apply ll_shl. apply Z.mod_pos_bound. lia.
  - rewrite shift_mask_32, u32_u32. eapply emits_shift32; [done..|exact Hy32|]. apply ll_shl. apply Z.mod_pos_bound. lia.
  - rewrite shift_mask_32, u32_shiftr by (apply Z.mod_pos_bound; lia). eapply emits_shift32; [done..|exact Hy32|]. apply ll_lshr. apply Z.mod_pos_bound. lia.
  - rewrite shift_mask_32, u32_shiftr by (apply Z.mod_pos_bound; lia). eapply emits_shift32; [done..|exact Hy32|]. apply ll_lshr. apply Z.mod_pos_bound. lia.
  - destruct (s64 d =? - 2 ^ 63); [done|]. injection Hv as <-. apply emits_neg'; [done..|]. rewrite H64, mask32_u32, u32_u64.
    replace (- s64 d) with (0 - s64 d) by lia. rewrite <- u32_sub, <- (u32_u64 (s64 d)), u64_s64, u32_u64, u32_sub. f_equal.
  - rewrite (proj2 (Z.eqb_neq (u32 (i_imm inst)) 0)), u32_rem by (try apply u32_neq_0; lia).
    apply (emits_divmod32 je js inst Hok Hd Hs Hwd Hws env); [done|done|lia|apply u32_neq_0; lia].
  - rewrite (proj2 (Z.eqb_neq (u32 s) 0)) by lia. apply (emits_divmod32 je js inst Hok Hd Hs Hwd Hws env); [done|done|lia|lia].
  - apply emits_mov'; [done..|lia|]. by rewrite H64.
  - apply emits_mov'; [done..|lia|]. by rewrite H64.
  - destruct ((i_imm inst <? 0) || (32 <=? i_imm inst)) eqn:E; [done|]. injection Hv as <-. bool_to_prop. rewrite mask32_u32, u32_u64.
    eapply emits_shift32; [done..|exact Hy32|]. rewrite (u32_small (i_imm inst)), Z.mod_small, ll_ashr by lia. by rewrite sgnw_32, s32_u32.
  - destruct (Z.leb_spec 32 (u32 s)); [done|]. injection Hv as <-. rewrite mask32_u32, u32_u64. pose proof (u32_bound s).
    eapply emits_shift32; [done..|exact Hy32|]. rewrite Z.mod_small, ll_ashr by lia. by rewrite sgnw_32, s32_u32.
Qed.
End arith_ok.

(** ** Jumps *)

(** Code that was emitted, and its run. *)
Lemma emits_run `{!Llvm} {A} je js (e : emit A) a code Q : emits je js [] e Q → e [] = inr (a, code) →
  ∃ js' env, exec_instrs je js [] code = Some (js', env) ∧ Q a js' env.
Proof.
  intros He Hc. destruct (He [] eq_refl) as (a'&code'&js'&ext&E&_&X&HQ). rewrite E in Hc. injection Hc as -> <-. eauto.
Qed.

Lemma findBlock_inv bs pc id code r : findBlock bs pc id code = inr r → id ∈ bs ∧ findBlock bs pc id = mret (BInst id).
Proof. unfold findBlock. case_bool_decide; [by split|done]. Qed.

Lemma localJmp_inv bs pc inst code r : localJmpDstAndNextBlk pc inst bs code = inr r →
  u16 (pc + 1 + i_offset inst) ∈ bs ∧ u16 (pc + 1) ∈ bs ∧
  localJmpDstAndNextBlk pc inst bs = λ code, inr ((BInst (u16 (pc + 1 + i_offset inst)), BInst (u16 (pc + 1))), code).
Proof.
  unfold localJmpDstAndNextBlk, loadJmpDstBlock, loadJmpNextBlock. unfold mbind at 1, emit_bind at 1.
  destruct (findBlock bs pc _ code) as [|[b c]] eqn:E1; [done|]. unfold mbind at 1, emit_bind at 1.
  destruct (findBlock bs pc (u16 (pc + 1)) c) as [|[b' c']] eqn:E2; [done|]. intros _.
  apply findBlock_inv in E1 as [? ->]. apply findBlock_inv in E2 as [? ->]. done.
Qed.

Section jump.
Context `{!Llvm} (je : jenv) (js : jstate) (inst : ebpf_inst).
Context (Hok : regs_ok js) (Hd : 0 ≤ i_dst inst ≤ 10) (Hs : 0 ≤ i_src inst ≤ 10).
Context (Hwd : written js (i_dst inst)) (Hws : Z.land (i_opcode inst) 0x8 = 0x8 → written js (i_src inst)).
#[local] Notation d := (jreg js (i_dst inst)).
#[local] Notation s := (jreg js (i_src inst)).

Definition jmp32 : bool := opcode_class inst =? EBPF_CLS_JMP32.
Definition jmp_ty : ity := if jmp32 then I32 else I64.
Definition jmp_src : Z :=
  let regSrc := Z.land (i_opcode inst) 0x8 =? 0x8 in
  if jmp32 then u32 (if regSrc then s else i_imm inst) else u64 (if regSrc then s else i_imm inst).
Definition jmp_dst : Z := if jmp32 then u32 d else u64 d.

Lemma emits_jmp_operands env : emits je js env (emitJmpLoadSrcAndDstAndZero inst)
  (λ '(a, b, z) js' env', js' = js ∧ evals je env' a jmp_ty jmp_src ∧ evals je env' b jmp_ty jmp_dst ∧ ty_of b = jmp_ty ∧ evals je env' z jmp_ty 0).
Proof.
  unfold emitJmpLoadSrcAndDstAndZero, jmp_src, jmp_dst, jmp_ty. fold jmp32. destruct jmp32.
  - eapply emits_bind, (emits_mono _ _ _ _ (post_val je js I32 (u32 (if Z.land (i_opcode inst) 8 =? 8 then s else i_imm inst)))).
    { destruct (Z.eqb_spec (Z.land (i_opcode inst) 8) 8) as [H8|]; [apply emits_load_reg; by apply jreg_lookup, Hws|by apply emits_ret]. }
    intros a js' env' (->&Ha&_) _. eapply emits_bind, emits_mono; [apply emits_load_reg; by apply jreg_lookup|].
    intros b js' env'' (->&Hb&Htb) [x ->]. apply emits_ret. split_and!; [done|by apply evals_app|done..].
  - eapply emits_bind, (emits_mono _ _ _ _ (post_val je js I64 (u64 (if Z.land (i_opcode inst) 8 =? 8 then s else i_imm inst)))).
    { destruct (Z.eqb_spec (Z.land (i_opcode inst) 8) 8) as [H8|]; [apply emits_load_reg; by apply jreg_lookup, Hws|by apply emits_ret]. }
    intros a js' env' (->&Ha&_) _. eapply emits_bind, emits_mono; [apply emits_load_reg; by apply jreg_lookup|].
    intros b js' env'' (->&Hb&Htb) [x ->]. apply emits_ret. split_and!; [done|by apply evals_app|done..].
Qed.

(** The block that a jump at [pc] goes to. *)
Definition jmp_to (pc : Z) (b : bool) : option terminator → jstate → list rv → Prop :=
  λ t js' env', js' = js ∧ exec_term je env' t = Some (JGoto (BInst (u16 (if b then pc + 1 + i_offset inst else pc + 1)))).

Lemma emits_condbr env pc c (b : bool) : evals je env c I1 (Z.b2z b) →
  emits je js env (mret (Some (TCondBr c (BInst (u16 (pc + 1 + i_offset inst))) (BInst (u16 (pc + 1)))))) (jmp_to pc b).
Proof. intros Hc. apply emits_ret. split; [done|]. cbn [exec_term]. rewrite (evals_int _ _ _ _ _ Hc). by destruct b. Qed.

Lemma emitCondJmp_ok pc bs p t code : emitCondJmpWithDstAndSrc pc inst bs (CreateICmp p) [] = inr (t, code) →
  ∃ js' env, exec_instrs je js [] code = Some (js', env) ∧ jmp_to pc (ll_icmp p (width jmp_ty) jmp_dst jmp_src) t js' env.
Proof.
  intros He. revert He. unfold emitCondJmpWithDstAndSrc. intros He.
  assert (Hl := He). unfold mbind at 1, emit_bind at 1 in Hl. destruct (localJmpDstAndNextBlk pc inst bs []) eqn:El; [done|].
  apply localJmp_inv in El as (_&_&El). clear Hl. eapply emits_run; [|exact He]. rewrite El.
  apply emits_bind, emits_ret. intros _. eapply emits_bind, emits_mono; [apply emits_jmp_operands|].
  intros [[a b] z] js' env' (->&Ha&Hb&Htb&_) _. eapply emits_bind, emits_mono; [by apply emits_icmp|].
  intros c js' env'' (->&Hc&_) _. by apply emits_condbr.
Qed.

Lemma emitJSet_ok pc bs t code : emitJSet bs pc inst [] = inr (t, code) →
  ∃ js' env, exec_instrs je js [] code = Some (js', env) ∧ jmp_to pc (negb (Z.land jmp_dst jmp_src =? 0)) t js' env.
Proof.
  intros He. revert He. unfold emitJSet. intros He.
  assert (Hl := He). unfold mbind at 1, emit_bind at 1 in Hl. destruct (localJmpDstAndNextBlk pc inst bs []) eqn:El; [done|].
  apply localJmp_inv in El as (_&_&El). clear Hl. eapply emits_run; [|exact He]. rewrite El.
  apply emits_bind, emits_ret. intros _. eapply emits_bind, emits_mono; [apply emits_jmp_operands|].
  intros [[a b] z] js' env' (->&Ha&Hb&Htb&Hz) _. eapply emits_bind, emits_mono; [by eapply emits_binop; [..|apply ll_and]|].
  intros v js' env'' (->&Hv&_) [x ->]. eapply emits_bind, emits_mono; [apply emits_icmp; [exact Hv|by apply evals_app]|].
  intros c js' env'' (->&Hc&_) _. rewrite ll_ne in Hc. by apply emits_condbr.
Qed.
End jump.

(** The bits of the opcode of a jump. *)
#[local] Ltac jump_bits :=
  match goal with |- context [Z.land (op_code ?o) 7 =? EBPF_CLS_JMP32] =>
    let x := eval vm_compute in (Z.land (op_code o) 7 =? EBPF_CLS_JMP32) in change (Z.land (op_code o) 7 =? EBPF_CLS_JMP32) with x;
    let y := eval vm_compute in (Z.land (op_code o) 8 =? 8) in change (Z.land (op_code o) 8 =? 8) with y
  end; cbv iota.

(** The comparison that the interpreter makes, where both agree. *)
Lemma jump_agree `{!Llvm} js inst o p b : regs_ok js → 0 ≤ i_dst inst ≤ 10 → 0 ≤ i_src inst ≤ 10 → inst_wf inst → i_opcode inst = op_code o →
  let d := jreg js (i_dst inst) in let s := jreg js (i_src inst) in
  jit_agrees inst o s = true → jump_unsigned o d s (i_imm inst) = Some b ∨ jump_signed o d s (i_imm inst) = Some b →
  jmp_pred o = Some p → ll_icmp p (width (jmp_ty inst)) (jmp_dst js inst) (jmp_src js inst) = b.
Proof.
  intros Hok Hd Hs (_&_&_&_&Hi) Ho d s Hag Hb Hp. pose proof (jreg_u64 js _ Hok Hd) as Hu. pose proof (jreg_u64 js _ Hok Hs) as Hus.
  fold d in Hu. fold s in Hus. unfold in_u64 in *. unfold jmp_ty, jmp_dst, jmp_src, jmp32, opcode_class. rewrite Ho. fold d s.
  destruct o; cbn [jmp_pred] in Hp; try discriminate Hp; injection Hp as <-; cbn [jump_unsigned jump_signed jit_agrees] in Hb, Hag;
    destruct Hb as [Hb|Hb]; try discriminate Hb; injection Hb as <-.
  all: jump_bits; cbn [width].
  all: rewrite ?ll_eq, ?ll_ne, ?ll_ugt, ?ll_uge, ?ll_ult, ?ll_ule, ?ll_sgt, ?ll_sge, ?ll_slt, ?ll_sle, ?sgnw_32, ?sgnw_64, ?s32_u32, ?s64_u64.
  all: rewrite ?(u64_small d), ?(u64_small s), ?(s64_signed (i_imm inst)) by lia.
  all: try done.
  all: first [rewrite (u32_small s) by lia; done | rewrite (u32_small (i_imm inst)), (u64_small (i_imm inst)) by lia; done].
Qed.

Lemma jset_agree js inst o b : regs_ok js → 0 ≤ i_dst inst ≤ 10 → 0 ≤ i_src inst ≤ 10 → i_opcode inst = op_code o →
  let d := jreg js (i_dst inst) in let s := jreg js (i_src inst) in
  o = EBPF_OP_JSET_IMM ∨ o = EBPF_OP_JSET_REG ∨ o = EBPF_OP_JSET32_IMM ∨ o = EBPF_OP_JSET32_REG →
  jump_unsigned o d s (i_imm inst) = Some b → negb (Z.land (jmp_dst js inst) (jmp_src js inst) =? 0) = b.
Proof.
  intros Hok Hd Hs Ho d s Hc Hb. pose proof (jreg_u64 js _ Hok Hd) as Hu. pose proof (jreg_u64 js _ Hok Hs) as Hus.
  fold d in Hu. fold s in Hus. unfold in_u64 in *. unfold jmp_dst, jmp_src, jmp32, opcode_class. rewrite Ho. fold d s.
  destruct Hc as [-> |[-> |[-> | ->]]]; cbn [jump_unsigned] in Hb; injection Hb as <-; jump_bits; by rewrite ?(u64_small d), ?(u64_small s) by lia.
Qed.

(** ** Memory *)

Lemma le_store_mod n z : le_store n (z mod 256 ^ Z.of_nat n) = le_store n z.
Proof.
  revert z. induction n as [|n IH]; intros z; [done|]. cbn [le_store]. rewrite Nat2Z.inj_succ, Z.pow_succ_r by lia.
  pose proof (Z.pow_pos_nonneg 256 (Z.of_nat n) ltac:(lia) ltac:(lia)). f_equal.
  - unfold u8. change (2 ^ 8) with 256. symmetry. apply Znumtheory.Zmod_div_mod; [lia|nia|]. apply Z.divide_factor_l.
  - rewrite <- (IH (z / 256)). f_equal. rewrite Z.rem_mul_r by lia. rewrite Z.add_comm, (Z.mul_comm 256), Z.div_add_l by lia.
    rewrite (Z.div_small (z mod 256)) by (apply Z.mod_pos_bound; lia). lia.
Qed.

Lemma take_le_store n k z : (n ≤ k)%nat → take n (le_store k z) = le_store n z.
Proof.
  revert k z. induction n as [|n IH]; intros k z Hk; [done|]. destruct k as [|k]; [lia|]. cbn [le_store firstn]. f_equal. apply IH. lia.
Qed.

Lemma le_load_zeros bs n : le_load (bs ++ replicate n 0) = le_load bs.
Proof. rewrite le_load_app. assert (le_load (replicate n 0) = 0) as -> by (induction n as [|n IH]; cbn [replicate le_load]; [done|rewrite IH; done]). lia. Qed.

(** What the interpreter loads and stores, aligned or not. *)
Lemma ubpf_mem_load_bytes m a size v : ubpf_mem_load m a size = Some v → ∃ bs, mem_load m a (Z.to_nat size) = Some bs ∧ v = le_load bs.
Proof.
  unfold ubpf_mem_load. destruct (mem_load m a (Z.to_nat size)) as [bs|]; [|done]. cbn [mbind option_bind]. intros Hv. exists bs. split; [done|].
  destruct (negb _); [by rewrite le_load_zeros in Hv; injection Hv|]. destruct (_ || _); [by injection Hv|done].
Qed.
Lemma ubpf_mem_store_le m a v size m' : 0 ≤ size ≤ 8 → ubpf_mem_store m a v size = Some m' → mem_store m a (le_store (Z.to_nat size) v) = Some m'.
Proof.
  intros Hs. unfold ubpf_mem_store. destruct (negb _); [by rewrite take_le_store by lia|]. by destruct (_ || _).
Qed.

Section memory.
Context `{!Llvm} (je : jenv) (js : jstate) (inst : ebpf_inst).
Context (Hok : regs_ok js) (Hd : 0 ≤ i_dst inst ≤ 10) (Hs : 0 ≤ i_src inst ≤ 10).
#[local] Notation d := (jreg js (i_dst inst)).
#[local] Notation s := (jreg js (i_src inst)).

Lemma emits_ptr env r : 0 ≤ r ≤ 10 → written js r →
  emits je js env (base ← CreateLoad PtrTy (PReg r); CreateGEP base (i_offset inst)) (post_val je js PtrTy (u64 (jreg js r + i_offset inst))).
Proof.
  intros Hr Hw. eapply emits_bind, emits_mono; [apply emits_load_reg; by apply jreg_lookup|]. intros b js' env' (->&Hb&_) _.
  cbn [width] in Hb. rewrite Z.mod_small in Hb by (by apply jreg_u64). by eapply emits_gep.
Qed.

Lemma emits_loadx env t bs : written js (i_src inst) → aligned t (u64 (s + i_offset inst)) = true → mem_load (j_mem js) (u64 (s + i_offset inst)) (bytes t) = Some bs →
  emits je js env (emitLoadX inst t) (writes_dst js inst (le_load bs)).
Proof.
  intros Hws Hal Hbs. unfold emitLoadX. eapply emits_bind, emits_mono; [by apply emits_ptr|]. intros p js' env' (->&Hp&_) _.
  eapply emits_bind, emits_mono.
  { eapply (emits_create _ _ _ _ t js (le_load bs) (post_val je js t (le_load bs))); [|by intros; split].
    cbn [exec_instr load_place]. rewrite (evals_int _ _ _ _ _ Hp). cbn [mbind option_bind]. by rewrite Hal, Hbs. }
  intros v js' env'' (->&Hv&Htv) _. by eapply emits_zext_store.
Qed.

(** The value that a store writes. *)
Definition store_src : Z := if opcode_class inst =? EBPF_CLS_STX then s else u64 (i_imm inst).

Lemma emits_store env t m : width t = 8 * Z.of_nat (bytes t) → t ≠ PtrTy →
  written js (i_dst inst) → (opcode_class inst = EBPF_CLS_STX → written js (i_src inst)) → aligned t (u64 (d + i_offset inst)) = true →
  mem_store (j_mem js) (u64 (d + i_offset inst)) (le_store (bytes t) store_src) = Some m →
  emits je js env (emitStore inst t) (λ _ js' _, js' = j_set_mem js m).
Proof.
  intros Hw Hp Hwd Hws Hal Hm. unfold emitStore, emitStoreLoadingSrc. unfold store_src in Hm.
  eapply emits_bind, (emits_mono _ _ _ _ (post_val je js I64 store_src)).
  { unfold store_src. destruct (Z.eqb_spec (opcode_class inst) EBPF_CLS_STX) as [Hx|]; [|by apply emits_ret]. specialize (Hws Hx). eapply emits_mono; [apply emits_load_reg; by apply jreg_lookup|].
    cbn [width]. intros a js' env' Hv. rewrite Z.mod_small in Hv by (by apply jreg_u64). done. }
  intros a js' env' (->&Ha&Ht) _.
  eapply emits_bind, (emits_mono _ _ _ _ (post_val je js t (store_src mod 2 ^ width t))).
  { destruct (decide (t = I64)) as [->|Hne]; [|eapply emits_mono; [by eapply emits_cast|]; intros v js' env'' Hv; by rewrite ll_trunc in Hv].
    cbn [width]. rewrite Z.mod_small; [by apply emits_cast_same|]. unfold store_src. destruct (_ =? EBPF_CLS_STX); [by apply jreg_u64|apply u64_bound]. }
  intros v js' env'' (->&Hv&_) _. unfold emitStoreWritingResult.
  eapply emits_bind, emits_mono; [apply emits_load_reg; by apply jreg_lookup|]. intros b js' env3 (->&Hb&_) [x ->].
  cbn [width] in Hb. rewrite Z.mod_small in Hb by (by apply jreg_u64).
  eapply emits_bind, emits_mono; [by eapply emits_gep|]. intros ptr js' env4 (->&Hptr&_) [y ->].
  assert (Hv' : evals je ((env'' ++ x) ++ y) v t (store_src mod 2 ^ width t)) by (by do 2 apply evals_app). unfold evals in Hv'.
  eapply emits_create_; [|done]. cbn [exec_instr]. rewrite Hv'. cbn [mbind option_bind store_place].
  rewrite (evals_int _ _ _ _ _ Hptr). cbn [mbind option_bind]. rewrite Hal.
  assert (le_store (bytes t) (store_src mod 2 ^ width t) = le_store (bytes t) store_src) as ->.
  { rewrite Hw, Z.pow_mul_r by lia. apply le_store_mod. }
  unfold store_src. by rewrite Hm.
Qed.
End memory.
