(* ===== verification/LlvmSim.v ===== *)
(** * The compiled program does what the interpreter does

    A simulation: when the interpreter of uBPF runs a program to its end, the function that the compiler
    makes of the same program returns the same value and leaves the same memory, for every behaviour of LLVM
    that its reference allows, as long as the run does not come across an instruction on which the two differ
    ([jit_agrees]), an access that is not aligned, or a register that the function has not written. *)

From stdpp Require Import base numbers list strings pretty gmap.
From S2P Require Import Prelude.
From S2P Require Import EbpfIsa.
From S2P Require Import UbpfVm.
From S2P Require Import UbpfSafe.
From S2P Require Import UbpfCompat.
From S2P Require Import LlvmIr.
From S2P Require Import LlvmJit.
From S2P Require Import LlvmWp.

(** ** One instruction *)

(** The interpreter and the function have the same memory and the same registers, as far as the function has written
    them, and no local function is running. *)
Record related (s : exec_state) (js : jstate) : Prop := {
  rel_reg : ∀ r, 0 ≤ r ≤ 10 → written js r → jreg js r = reg s r;
  rel_ok : regs_ok js;
  rel_len : length (st_reg s) = 16%nat;
  rel_mem : j_mem js = st_mem s;
  rel_cnt : j_cnt js = 0;
  rel_frames : st_frames s = []
}.

Lemma jreg_set_same js r v : regs_ok js → 0 ≤ r < 11 → jreg (j_set_reg js r v) r = v.
Proof. intros [Hl _] Hr. unfold jreg. cbn [j_set_reg j_reg]. by rewrite list_lookup_total_insert_eq by lia. Qed.
Lemma jreg_set_other js r r' v : r ≠ r' → 0 ≤ r → 0 ≤ r' → jreg (j_set_reg js r v) r' = jreg js r'.
Proof. intros. unfold jreg. cbn [j_set_reg j_reg]. by rewrite list_lookup_total_insert_ne by lia. Qed.
Lemma written_set_same js r v : regs_ok js → 0 ≤ r < 11 → written (j_set_reg js r v) r.
Proof. intros [Hl _] Hr. unfold written. cbn [j_set_reg j_reg]. rewrite list_lookup_total_insert_eq by lia. by eexists. Qed.
Lemma written_set_other js r r' v : r ≠ r' → 0 ≤ r → 0 ≤ r' → written (j_set_reg js r v) r' ↔ written js r'.
Proof. intros. unfold written. cbn [j_set_reg j_reg]. by rewrite list_lookup_total_insert_ne by lia. Qed.
Lemma written_set js r r' v : regs_ok js → 0 ≤ r < 11 → 0 ≤ r' → written js r' → written (j_set_reg js r v) r'.
Proof. intros. destruct (decide (r = r')) as [->|]; [apply written_set_same; done || lia|apply written_set_other; done || lia]. Qed.
Lemma jset_reg_ok js r v : regs_ok js → in_u64 v → regs_ok (j_set_reg js r v).
Proof. intros [Hl Hf] Hv. split; cbn [j_set_reg j_reg]; [by rewrite length_insert|by apply Forall_insert]. Qed.

Lemma related_pc s js pc : related s js → related (set_pc s pc) js.
Proof. by intros []. Qed.
Lemma related_set_reg s js r v : related s js → 0 ≤ r ≤ 10 → in_u64 v → related (set_reg s r v) (j_set_reg js r v).
Proof.
  intros [Hr Hk Hl Hm Hc Hf] H Hv. split; cbn [j_set_reg set_reg st_reg j_mem st_mem j_cnt st_frames]; try done.
  - intros r' Hr' Hw. destruct (decide (r = r')) as [->|Hne].
    + rewrite jreg_set_same by (done || lia). unfold reg. cbn [set_reg st_reg]. by rewrite list_lookup_total_insert_eq by lia.
    + rewrite jreg_set_other by lia. apply written_set_other in Hw; [|lia..]. rewrite Hr by done. unfold reg. cbn [set_reg st_reg].
      by rewrite list_lookup_total_insert_ne by lia.
  - by apply jset_reg_ok.
  - by rewrite length_insert.
Qed.
Lemma related_set_mem s js m : related s js → related (set_mem s m) (j_set_mem js m).
Proof. by intros []. Qed.

(** ** What an instruction reads and writes *)

(** The register that an instruction writes. *)
Definition writes (inst : ebpf_inst) (o : ebpf_op) : list Z :=
  if is_jump_op o then []
  else match store_size o, o with Some _, _ | None, EBPF_OP_EXIT => [] | None, EBPF_OP_CALL => [0] | None, _ => [i_dst inst] end.

(** The access of a load or store is aligned; [r] has the registers. *)
Definition access_aligned (inst : ebpf_inst) (o : ebpf_op) (r : Z → Z) : bool :=
  match load_size o, store_size o with
  | Some size, _ => u64 (r (i_src inst) + i_offset inst) mod size =? 0
  | None, Some (size, _) => u64 (r (i_dst inst) + i_offset inst) mod size =? 0
  | None, None => true
  end.

(** The result of an instruction depends on the registers that it reads. *)
Lemma reads_enough arity inst o (f g : Z → Z) : 0 ≤ i_dst inst ≤ 10 → 0 ≤ i_src inst ≤ 10 →
  (∀ r, 0 ≤ r ≤ 10 → r ∈ reads arity inst o → f r = g r) →
  let d := i_dst inst in let s := i_src inst in let imm := i_imm inst in
  alu32 o (f d) (f s) imm = alu32 o (g d) (g s) imm ∧ alu64 o (f d) (f s) imm = alu64 o (g d) (g s) imm ∧
  jump_unsigned o (f d) (f s) imm = jump_unsigned o (g d) (g s) imm ∧ jump_signed o (f d) (f s) imm = jump_signed o (g d) (g s) imm ∧
  jit_agrees inst o (f s) = jit_agrees inst o (g s).
Proof.
  intros Hd Hs Hr. cbn zeta. destruct o; cbn [reads load_size store_size] in Hr;
    first [done
          |rewrite (Hr (i_dst inst) Hd) by (left); done
          |rewrite (Hr (i_src inst) Hs) by (left); done
          |rewrite (Hr (i_dst inst) Hd), (Hr (i_src inst) Hs) by (first [left|right; left]); done].
Qed.

(** A helper that uses its first [n] arguments only. *)
Definition uses_args (fn : ext_func) (n : Z) : Prop :=
  ∀ a a' m, length a = 5%nat → length a' = 5%nat → take (Z.to_nat n) a = take (Z.to_nat n) a' → fn a m = fn a' m.

Lemma take_args n (f g : Z → Z) : (∀ r, 1 ≤ r ≤ 5 → r ≤ n → f r = g r) →
  take (Z.to_nat n) [f 1; f 2; f 3; f 4; f 5] = take (Z.to_nat n) [g 1; g 2; g 3; g 4; g 5].
Proof.
  intros H. change [f 1; f 2; f 3; f 4; f 5] with (f <$> seqZ 1 5). change [g 1; g 2; g 3; g 4; g 5] with (g <$> seqZ 1 5).
  rewrite <- !fmap_take. apply list_fmap_ext. intros i r Hi. apply lookup_take_Some in Hi as [Hi Hn]. apply lookup_seqZ in Hi. apply H; lia.
Qed.

(** Where the interpreter goes on after the code of an instruction. *)
Definition goes_to (pc : Z) (inst : ebpf_inst) (nx : jnext) (pc' : Z) : Prop :=
  nx = JGoto (BInst pc') ∨ nx = JFall ∧ pc' = (if i_opcode inst =? op_code EBPF_OP_LDDW then pc + 2 else pc + 1).

Section inst.
Context `{!Llvm} (je : jenv) (uvm : ubpf_vm) (mem mem_len stack : Z) (jvm : llvmbpf_vm).
Context (ext lddw : list string) (bs : gset Z) (ret : list Z).
Context (s : exec_state) (js : jstate) (inst : ebpf_inst) (next : option ebpf_inst) (o : ebpf_op).
Context (Hrel : related s js) (Hpc : 0 ≤ st_pc s < 2 ^ 16 - 1) (Hwf : inst_wf inst) (Ho : i_opcode inst = op_code o).
Context (Hd : 0 ≤ i_dst inst ≤ 10) (Hs : 0 ≤ i_src inst ≤ 10).
Context (arity : Z → Z) (Hrd : ∀ r, r ∈ reads arity inst o → written js r).
#[local] Abbreviation pc := (st_pc s).

(** What is written stays written, and what the instruction writes is written. *)
Definition keeps (js' : jstate) : Prop := ∀ r, 0 ≤ r ≤ 10 → r ∈ writes inst o ∨ written js r → written js' r.

Lemma keeps_same js' : writes inst o = [] → j_reg js' = j_reg js → keeps js'.
Proof. intros Hw Hr r _. unfold written. rewrite Hw, Hr. intros [Hin|]; [by apply not_elem_of_nil in Hin|done]. Qed.
Lemma keeps_set js1 r v : writes inst o = [r] → 0 ≤ r ≤ 10 → j_reg js1 = j_reg js → keeps (j_set_reg js1 r v).
Proof.
  intros Hw Hr H1 r' Hr' Hin. rewrite Hw, list_elem_of_singleton in Hin.
  assert (Hok : regs_ok js1) by (unfold regs_ok; rewrite H1; apply (rel_ok _ _ Hrel)).
  destruct (decide (r' = r)) as [->|Hne]; [apply written_set_same; done || lia|]. destruct Hin as [?|Hin]; [done|].
  apply written_set; [done|lia|lia|]. unfold written. by rewrite H1.
Qed.

(** What the code of the instruction does, for each outcome of the interpreter. *)
Definition sim_outcome (g : group) (out : outcome) : Prop :=
  match out with
  | Next s' => ∃ js' nx, exec_group je js g = Some (js', nx) ∧ related s' js' ∧ keeps js' ∧ goes_to pc inst nx (st_pc s')
  | Return v s' => ∃ js', exec_group je js g = Some (js', JGoto BExit) ∧ written js' 0 ∧ jreg js' 0 = v ∧ related s' js'
  | _ => True
  end.

(** What the instruction computes from the registers of both. *)
Lemma same_reads : let d := i_dst inst in let r := i_src inst in let imm := i_imm inst in
  alu32 o (reg s d) (reg s r) imm = alu32 o (jreg js d) (jreg js r) imm ∧ alu64 o (reg s d) (reg s r) imm = alu64 o (jreg js d) (jreg js r) imm ∧
  jump_unsigned o (reg s d) (reg s r) imm = jump_unsigned o (jreg js d) (jreg js r) imm ∧
  jump_signed o (reg s d) (reg s r) imm = jump_signed o (jreg js d) (jreg js r) imm ∧
  jit_agrees inst o (reg s r) = jit_agrees inst o (jreg js r).
Proof. apply (reads_enough arity); [done..|]. intros r Hr Hin. symmetry. by apply (rel_reg _ _ Hrel), Hrd. Qed.

Lemma plain_group (e : emit unit) js' code t :
  emits je js [] e (λ _ js'' _, js'' = js') → (_ ← e; mret None : emit (option terminator)) [] = inr (t, code) →
  exec_group je js (code, t) = Some (js', JFall).
Proof.
  intros He Hc. unfold mbind, emit_bind in Hc. destruct (e []) as [|[[] c]] eqn:Ee; [done|]. injection Hc as <- ->.
  destruct (emits_run _ _ _ _ _ _ He Ee) as (js''&env&X&->). unfold exec_group. cbn [fst snd]. by rewrite X.
Qed.

Lemma sim_alu e v t code : is_alu_op o = true ∨ o = EBPF_OP_LE ∨ o = EBPF_OP_BE →
  emitALU pc o inst = Some e → (_ ← e; mret None : emit (option terminator)) [] = inr (t, code) →
  jit_agrees inst o (jreg js (i_src inst)) = true →
  (alu32 o (reg s (i_dst inst)) (reg s (i_src inst)) (i_imm inst) = Some (inl v) ∨
   alu64 o (reg s (i_dst inst)) (reg s (i_src inst)) (i_imm inst) = Some (inl v)) →
  sim_outcome (code, t) (Next (set_reg (set_pc s (pc + 1)) (i_dst inst) v)).
Proof.
  intros Hop He Hc Hag Hv. pose proof (rel_ok _ _ Hrel) as Hok.
  destruct same_reads as (E32&E64&_). rewrite E32, E64 in Hv.
  assert (Hem : emits je js [] e (writes_dst js inst v)).
  { destruct Hv as [Hv|Hv]; [|by eapply emitALU64_ok]. eapply emitALU32_ok; try done. intros Hle.
    destruct (decide (i_imm inst = 16 ∨ i_imm inst = 32 ∨ i_imm inst = 64)) as [|Hno]; [done|]. exfalso.
    assert (e = emitEndian inst) as -> by (destruct Hle as [-> | ->]; by injection He).
    unfold mbind, emit_bind, emitEndian, emitLoadALUDest, emitALUEndianConversion in Hc. rewrite orb_true_r in Hc.
    cbn in Hc. assert (negb (i_imm inst =? 16) && negb (i_imm inst =? 32) && negb (i_imm inst =? 64) = true) as Ht by lia. by rewrite Ht in Hc. }
  assert (Hu : in_u64 v).
  { pose proof (jreg_u64 js _ Hok Hd). pose proof (jreg_u64 js _ Hok Hs).
    destruct Hv as [Hv|Hv]; [by eapply alu32_typed in Hv|by eapply alu64_typed in Hv]. }
  eexists _, _. split; [by eapply plain_group|]. split; [by apply related_set_reg, Hu; [apply related_pc|]|].
  split; [apply keeps_set; [destruct Hop as [Hop|[-> | ->]]; [|done..]; by destruct o|done|done]|].
  right. split; [done|]. cbn [st_pc set_reg set_pc]. rewrite Ho. destruct Hop as [Hop|[-> | ->]]; [|done..]. by destruct o.
Qed.

Lemma sim_jump_to t code b js' env : exec_instrs je js [] code = Some (js', env) → jmp_to je js inst pc b t js' env →
  is_jump_op o = true →
  sim_outcome (code, t) (Next (if b then set_pc (set_pc s (pc + 1)) (u16 (pc + 1 + i_offset inst)) else set_pc s (pc + 1))).
Proof.
  intros Hx [-> Ht] Hj. assert (Hw : writes inst o = []) by (unfold writes; by rewrite Hj). eexists js, _. split; [unfold exec_group; cbn [fst snd]; rewrite Hx; cbn [mbind option_bind]; by rewrite Ht|].
  split; [destruct b; repeat apply related_pc; exact Hrel|]. split; [by apply keeps_same|]. left. destruct b; cbn [st_pc set_pc]; [done|]. by rewrite u16_small by lia.
Qed.

Lemma sim_load e size v t code : load_size o = Some size → emitMem o inst = Some e →
  (_ ← e; mret None : emit (option terminator)) [] = inr (t, code) →
  access_aligned inst o (reg s) = true → ubpf_mem_load (st_mem s) (u64 (reg s (i_src inst) + i_offset inst)) size = Some v →
  sim_outcome (code, t) (Next (set_reg (set_pc s (pc + 1)) (i_dst inst) v)).
Proof.
  intros Hz He Hc Hal Hv. unfold access_aligned in Hal. rewrite Hz in Hal. apply Z.eqb_eq in Hal.
  assert (Hws : written js (i_src inst)) by (apply Hrd; unfold reads; rewrite Hz; left). pose proof (rel_ok _ _ Hrel) as Hok. apply ubpf_mem_load_bytes in Hv as (bs'&Hbs&->).
  rewrite <- (rel_reg _ _ Hrel), <- (rel_mem _ _ Hrel) in Hbs by done. rewrite <- (rel_reg _ _ Hrel) in Hal by done.
  assert (Hem : emits je js [] e (writes_dst js inst (le_load bs'))).
  { destruct o; try discriminate Hz; injection Hz as <-; injection He as <-; apply emits_loadx; try done; by apply Z.eqb_eq. }
  assert (Hu : in_u64 (le_load bs')).
  { apply mem_load_length in Hbs. apply le_load_in_u64. rewrite Hbs. destruct o; try discriminate Hz; injection Hz as <-; lia. }
  eexists _, _. split; [by eapply plain_group|]. split; [by apply related_set_reg, Hu; [apply related_pc|]|].
  split; [apply keeps_set; [by destruct o|done|done]|]. right. split; [done|]. cbn [st_pc set_reg set_pc]. rewrite Ho. by destruct o.
Qed.

Lemma sim_store e size (b : bool) m t code : store_size o = Some (size, b) → emitMem o inst = Some e →
  (_ ← e; mret None : emit (option terminator)) [] = inr (t, code) →
  access_aligned inst o (reg s) = true → ubpf_mem_store (st_mem s) (u64 (reg s (i_dst inst) + i_offset inst)) (if b then reg s (i_src inst) else u64 (i_imm inst)) size = Some m →
  sim_outcome (code, t) (Next (set_mem (set_pc s (pc + 1)) m)).
Proof.
  intros Hz He Hc Hal Hm. assert (Hlz : load_size o = None) by (by destruct o).
  unfold access_aligned in Hal. rewrite Hlz, Hz in Hal. apply Z.eqb_eq in Hal. unfold reads in Hrd. rewrite Hlz, Hz in Hrd.
  assert (Hwd : written js (i_dst inst)) by (apply Hrd; left). assert (Hws : b = true → written js (i_src inst)) by (intros ->; apply Hrd; right; left). pose proof (rel_ok _ _ Hrel) as Hok.
  apply ubpf_mem_store_le in Hm; [|destruct o; try discriminate Hz; injection Hz as <- <-; lia].
  rewrite <- (rel_reg _ _ Hrel) in Hm, Hal by done. rewrite <- (rel_mem _ _ Hrel) in Hm.
  assert (Hv : (if b then reg s (i_src inst) else u64 (i_imm inst)) = if b then jreg js (i_src inst) else u64 (i_imm inst)).
  { destruct b; [|done]. by rewrite (rel_reg _ _ Hrel) by auto. }
  rewrite Hv in Hm.
  assert (Hem : emits je js [] e (λ _ js' _, js' = j_set_mem js m)).
  { destruct o; try discriminate Hz; injection Hz as <- <-; injection He as <-; apply emits_store; try done; try (by apply Z.eqb_eq);
      unfold store_src, opcode_class; rewrite Ho; first [exact Hm|intros Hx; by (apply Hws || discriminate Hx)]. }
  eexists _, _. split; [by eapply plain_group|]. split; [apply related_set_mem, related_pc, Hrel|].
  split; [apply keeps_same; [by destruct o|done]|]. right. split; [done|]. cbn [st_pc set_mem set_pc]. rewrite Ho. by destruct o.
Qed.

Lemma lddw_value imm imm2 : Z.lor (u32 imm) (u64 (Z.shiftl (u64 imm2) 32)) = u64 (Z.lor (u32 imm) (Z.shiftl (u32 imm2) 32)).
Proof.
  unfold u64 at 3. rewrite lor_mod_pow2 by lia. f_equal; [symmetry; apply Z.mod_small; pose proof (u32_bound imm); lia|].
  rewrite !Z.shiftl_mul_pow2 by lia. unfold u64, u32. rewrite Z.mul_mod_idemp_l by lia. change (2 ^ 64) with (2 ^ 32 * 2 ^ 32).
  rewrite !Z.mul_mod_distr_r by lia. by rewrite Z.mod_mod by lia.
Qed.

Lemma sim_lddw n t code : o = EBPF_OP_LDDW → i_src inst = 0 → pc + 2 < 2 ^ 16 → next = Some n →
  (_ ← emitLDDW jvm lddw true pc inst next; mret None : emit (option terminator)) [] = inr (t, code) →
  sim_outcome (code, t) (Next (set_reg (set_pc (set_pc s (pc + 1)) (u16 (pc + 1 + 1))) (i_dst inst)
    (Z.lor (u32 (i_imm inst)) (u64 (Z.shiftl (u64 (i_imm n)) 32))))).
Proof.
  intros Hop Hsrc Hpc2 -> Hc. pose proof (rel_ok _ _ Hrel) as Hok. rewrite lddw_value. set (v := u64 _).
  assert (Hem : emits je js [] (emitLDDW jvm lddw true pc inst (Some n)) (writes_dst js inst v)).
  { unfold mbind, emit_bind, emitLDDW in Hc. unfold emitLDDW. destruct (_ || _); [done|]. rewrite Hsrc. cbn [Z.eqb]. by eapply emits_store_reg. }
  eexists _, _. split; [by eapply plain_group|]. split; [by apply related_set_reg; [do 2 apply related_pc| |apply u64_bound]|].
  split; [apply keeps_set; [by rewrite Hop|done|done]|]. right. split; [done|]. cbn [st_pc set_reg set_pc]. rewrite Ho, Hop, Z.eqb_refl, u16_small by lia. lia.
Qed.

Lemma sim_exit t code : o = EBPF_OP_EXIT → emitExit [] = inr (t, code) → sim_outcome (code, t) (exec_exit (set_pc s (pc + 1))).
Proof.
  intros -> [= <- <-]. assert (Hw : written js 0) by (apply Hrd; left). unfold exec_exit. cbn [st_frames set_pc]. rewrite (rel_frames _ _ Hrel).
  exists js. unfold exec_group. cbn [fst snd exec_instrs exec_instr load_place mbind option_bind app eval_int eval lookup list_lookup].
  change (getInt64 0) with (Const I64 0). cbn [mbind option_bind eval_int eval]. rewrite decide_True by done. cbn [mbind option_bind exec_term eval_int eval lookup list_lookup]. rewrite (rel_cnt _ _ Hrel), ll_eq.
  cbn [Z.eqb Z.b2z]. split; [done|]. split; [done|]. rewrite (rel_reg _ _ Hrel) by (done || lia). split; [done|]. by apply related_pc.
Qed.

(** The argument of a call that register [i] is loaded for. *)
Definition call_arg (i : Z) : Z := if decide (written js i) then jreg js i else je_undef je js (Z.to_nat (i - 1)).

Lemma emits_load_arg env i : 1 ≤ i ≤ 5 → emits je js env (CreateLoad I64 (PReg i))
  (λ v js' env', js' = js ∧ ∀ x, eval_arg je js (env' ++ x) (Z.to_nat (i - 1)) v = Some (call_arg i)).
Proof.
  intros Hi. pose proof (rel_ok _ _ Hrel) as Hok. unfold call_arg. destruct (decide (written js i)) as [Hw|Hw].
  - eapply emits_mono; [apply emits_load_reg, jreg_lookup; [done|lia|done]|]. intros v js' env' (->&Hv&_). split; [done|].
    intros x. rewrite (eval_arg_defined _ _ _ _ _ I64 (jreg js i mod 2 ^ width I64)) by (by apply evals_app).
    f_equal. apply Z.mod_small, jreg_u64; [done|lia].
  - eapply emits_mono; [apply (emits_load_any _ _ _ _ None); [apply jreg_unwritten; done || lia|done]|]. intros v js' env' [-> Hv].
    split; [done|]. intros x. by apply eval_arg_undef, eval_app.
Qed.

Lemma sim_call f t code : o = EBPF_OP_CALL → i_src inst = 0 → i_imm inst ≠ 12 → i_imm inst ≠ vm_unwind_stack_extension_index uvm →
  uses_args f (arity (i_imm inst)) → dispatch uvm (u32 (i_imm inst)) = Some f → je_ext je (ext_func_sym (u32 (i_imm inst))) = Some f →
  emitExtFuncCall inst ext [] = inr (t, code) → sim_outcome (code, t) (exec_call uvm (set_pc s (pc + 1)) inst).
Proof.
  intros Hop Hsrc H12 Hun Har Hdi Hf Hc. pose proof (rel_ok _ _ Hrel) as Hok. unfold exec_call. rewrite Hsrc, Hdi. cbn [Z.eqb].
  change (reg (set_pc s (pc + 1)) ?i) with (reg s i). cbn [st_mem set_pc]. rewrite <- (rel_mem _ _ Hrel).
  assert (Hsame : f [reg s 1; reg s 2; reg s 3; reg s 4; reg s 5] (j_mem js) = f [call_arg 1; call_arg 2; call_arg 3; call_arg 4; call_arg 5] (j_mem js)).
  { apply Har; [done..|]. apply take_args. intros r Hr Hn. assert (Hw : written js r).
    { apply Hrd. rewrite Hop. cbn [reads load_size store_size]. apply elem_of_seqZ. lia. }
    unfold call_arg. rewrite decide_True by done. symmetry. apply (rel_reg _ _ Hrel); [lia|done]. }
  rewrite Hsame. destruct (f [call_arg 1; call_arg 2; call_arg 3; call_arg 4; call_arg 5] (j_mem js)) as [r m] eqn:Ef.
  rewrite (proj2 (Z.eqb_neq _ _) Hun). cbn [andb].
  assert (Hem : emits je js [] (emitExtFuncCall inst ext) (λ t js' _, t = None ∧ js' = j_set_reg (j_set_mem js m) 0 (u64 r))).
  { unfold emitExtFuncCall in *. case_bool_decide; [|done]. rewrite (proj2 (Z.eqb_neq _ _) H12).
    eapply emits_bind, emits_mono; [apply emits_load_arg; lia|]; intros a1 js' env (->&H1) [x1 ->].
    eapply emits_bind, emits_mono; [apply emits_load_arg; lia|]; intros a2 js' env (->&H2) [x2 ->].
    eapply emits_bind, emits_mono; [apply emits_load_arg; lia|]; intros a3 js' env (->&H3) [x3 ->].
    eapply emits_bind, emits_mono; [apply emits_load_arg; lia|]; intros a4 js' env (->&H4) [x4 ->].
    eapply emits_bind, emits_mono; [apply emits_load_arg; lia|]; intros a5 js' env (->&H5) [x5 ->].
    specialize (H1 (x2 ++ x3 ++ x4 ++ x5)). specialize (H2 (x3 ++ x4 ++ x5)). specialize (H3 (x4 ++ x5)). specialize (H4 x5). specialize (H5 []).
    change (Z.to_nat (1 - 1)) with 0%nat in H1. change (Z.to_nat (2 - 1)) with 1%nat in H2. change (Z.to_nat (3 - 1)) with 2%nat in H3.
    change (Z.to_nat (4 - 1)) with 3%nat in H4. change (Z.to_nat (5 - 1)) with 4%nat in H5.
    rewrite ?app_nil_r, <- ?app_assoc in *. cbn [app] in *.
    eapply emits_bind, emits_mono; [eapply emits_call; [|exact Hf|exact Ef]; cbn [imap fmap list_fmap compose]; by rewrite H1, H2, H3, H4, H5|].
    intros v js' env (->&Hv&_) _. eapply emits_bind, emits_mono; [by eapply emits_store_reg; [| |exact Hv|]; [by destruct Hok|lia|]|].
    intros [] js' env' -> _. by apply emits_ret. }
  destruct (emits_run _ _ _ _ _ _ Hem Hc) as (js'&env&X&->&->).
  eexists _, JFall. split; [unfold exec_group; cbn [fst snd]; by rewrite X|]. split.
  - apply related_set_reg; [apply related_set_mem, related_pc, Hrel|lia|apply u64_bound].
  - split; [apply keeps_set; [by rewrite Hop|lia|done]|]. right. split; [done|]. cbn [st_pc set_reg set_mem set_pc]. by rewrite Ho, Hop.
Qed.

Lemma alu_emits d r v : alu32 o d r (i_imm inst) = Some v ∨ alu64 o d r (i_imm inst) = Some v →
  (is_alu_op o = true ∨ o = EBPF_OP_LE ∨ o = EBPF_OP_BE) ∧ is_Some (emitALU pc o inst).
Proof. destruct o; intros [Hv|Hv]; try discriminate Hv; cbn; eauto. Qed.

(** The operands of a conditional jump are written. *)
Lemma jump_written : is_jump_op o = true → o ≠ EBPF_OP_JA →
  written js (i_dst inst) ∧ (Z.land (i_opcode inst) 0x8 = 0x8 → written js (i_src inst)).
Proof.
  intros Hj Hja. rewrite Ho. destruct o; try discriminate Hj; try done; (split; [apply Hrd; left|]);
    first [intros H8; discriminate H8|intros _; apply Hrd; right; left].
Qed.

(** The code that is emitted for an instruction does what the interpreter does with it. *)
Lemma emitInst_sim t code : o ∈ ubpf_ops → emitInst jvm ext lddw true bs ret pc inst next [] = inr (t, code) →
  jit_agrees inst o (reg s (i_src inst)) = true → access_aligned inst o (reg s) = true →
  (o = EBPF_OP_LDDW → i_src inst = 0 ∧ pc + 2 < 2 ^ 16 ∧ ubpf_fetch_instruction uvm (pc + 1) = next) →
  (o = EBPF_OP_CALL → i_imm inst ≠ vm_unwind_stack_extension_index uvm ∧
     ∀ f, dispatch uvm (u32 (i_imm inst)) = Some f → uses_args f (arity (i_imm inst)) ∧ je_ext je (ext_func_sym (u32 (i_imm inst))) = Some f) →
  sim_outcome (code, t) (exec_inst uvm mem mem_len stack (set_pc s (pc + 1)) o inst).
Proof.
  intros Hin He Hag Hal Hl Hc. destruct same_reads as (_&_&Eju&Ejs&Eag). pose proof (rel_ok _ _ Hrel) as Hok. unfold emitInst in He. rewrite Ho, find_op_code in He.
  rewrite Eag in Hag. apply exec_inst_cases.
  - intros v Hv. destruct (alu_emits _ _ _ Hv) as [Hop [e Hem]]. rewrite Hem in He. by eapply sim_alu.
  - done.
  - intros b Hj Hb. change (jump_taken o (reg s (i_dst inst)) (reg s (i_src inst)) (i_imm inst) b) in Hb.
    unfold jump_taken in Hb. rewrite Eju, Ejs in Hb.
    assert (emitALU pc o inst = None ∧ emitMem o inst = None) as [Ha Hm] by (by destruct o). rewrite Ha, Hm in He.
    assert (Hk : keeps js) by (apply keeps_same; [unfold writes; by rewrite Hj|done]).
    destruct (jmp_pred o) as [p|] eqn:Ep.
    + destruct (jump_written Hj) as [Hwd Hws]; [by intros -> |]. edestruct emitCondJmp_ok as (js'&env&X&Hto); [done..|exact He|]. rewrite (jump_agree js inst o p b) in Hto; try done; [by eapply sim_jump_to|].
      destruct Hb as [[-> _]|Hb]; [done|done].
    + destruct (decide (o = EBPF_OP_JA)) as [->|Hja].
      { destruct Hb as [[_ ->]|[?|?]]; [|done..]. unfold loadJmpDstBlock, mbind, emit_bind in He.
        destruct (findBlock bs pc _ []) as [|[bk c]] eqn:Ef; [done|]. pose proof Ef as Ef2. apply findBlock_inv in Ef2 as [_ Hfb].
        rewrite Hfb in Ef. injection Ef as <- <-. injection He as <- <-.
        exists js, (JGoto (BInst (u16 (pc + 1 + i_offset inst)))). split; [done|]. split; [by do 2 apply related_pc|].
        split; [exact Hk|by left]. }
      assert (Hset : o = EBPF_OP_JSET_IMM ∨ o = EBPF_OP_JSET_REG ∨ o = EBPF_OP_JSET32_IMM ∨ o = EBPF_OP_JSET32_REG) by (destruct o; auto; done).
      assert (emitJSet bs pc inst [] = inr (t, code)) as He' by (destruct Hset as [-> |[-> |[-> | ->]]]; exact He).
      destruct (jump_written Hj Hja) as [Hwd Hws]. edestruct emitJSet_ok as (js'&env&X&Hto); [done..|exact He'|]. rewrite (jset_agree js inst o b) in Hto; try done; [by eapply sim_jump_to|].
      destruct Hb as [[-> _]|[Hb|Hb]]; [done|done|by destruct Hset as [-> |[-> |[-> | ->]]]].
  - intros size Hz. cbn zeta. destruct (negb _); [done|]. change (st_mem (set_pc s (pc + 1))) with (st_mem s).
    change (reg (set_pc s (pc + 1)) (i_src inst)) with (reg s (i_src inst)). destruct (ubpf_mem_load _ _ _) as [v|] eqn:Ev; [|done].
    assert (emitALU pc o inst = None ∧ is_Some (emitMem o inst)) as [Ha [e Hm]] by (destruct o; try discriminate Hz; cbn; eauto).
    rewrite Ha, Hm in He. by eapply sim_load.
  - intros size b Hz. cbn zeta. destruct (negb _); [done|]. change (st_mem (set_pc s (pc + 1))) with (st_mem s).
    change (reg (set_pc s (pc + 1)) ?i) with (reg s i). destruct (ubpf_mem_store _ _ _ _) as [m|] eqn:Em; [|done].
    assert (emitALU pc o inst = None ∧ is_Some (emitMem o inst)) as [Ha [e Hm]] by (destruct o; try discriminate Hz; cbn; eauto).
    rewrite Ha, Hm in He. by eapply sim_store.
  - intros Hop. destruct (Hl Hop) as (Hsrc&Hpc2&Hf). cbn [st_pc set_pc]. destruct (ubpf_fetch_instruction uvm (pc + 1)) as [n|]; [|done].
    rewrite Hop in He. eapply sim_lddw; [done|done|done|by symmetry|exact He].
  - intros Hop. rewrite Hop in He. by apply sim_exit.
  - intros Hop. destruct (Hc Hop) as [Hun Hd']. rewrite Hop in He, Hag. cbn [jit_agrees] in Hag. bool_to_prop.
    cbn [emitALU emitMem jmp_pred] in He. unfold emitCall in He. destruct (Z.eqb_spec (i_src inst) 1); [lia|].
    destruct (dispatch uvm (u32 (i_imm inst))) as [f|] eqn:Ed; [destruct (Hd' f eq_refl) as [Hua Hx]; by eapply sim_call; eauto; lia|].
    unfold exec_call. destruct (Z.eqb_spec (i_src inst) 0); [|lia]. by rewrite Ed.
  - intros Hn. by destruct Hn.
Qed.
End inst.
