(* ===== verification/LlvmRefine.v ===== *)
(** * Blocks, and the simulation of whole runs

    What the loop of [generateModule] puts into the blocks, that the blocks are joined in the order of the
    instructions, and the theorem for whole runs. *)

From stdpp Require Import base numbers list strings pretty gmap.
From S2P Require Import Prelude.
From S2P Require Import EbpfIsa.
From S2P Require Import UbpfVm.
From S2P Require Import UbpfSafe.
From S2P Require Import UbpfCompat.
From S2P Require Import LlvmIr.
From S2P Require Import LlvmJit.
From S2P Require Import LlvmWp.
From S2P Require Import LlvmSim.

(** ** The contents of the blocks *)

Section blocks.
Context (vm : llvmbpf_vm) (ext lddw : list string) (patch : bool) (blockBegin : list bool) (ret : list Z).

Definition begins (pc : Z) : bool := blockBegin !!! Z.to_nat pc.
Definition emitted (pc : Z) (inst : ebpf_inst) (rest : list ebpf_inst) : gen_error + (option terminator * list instr) :=
  emitInst vm ext lddw patch (list_to_set (block_pcs blockBegin)) ret pc inst (head rest) [].
Definition group_of (pc : Z) (inst : ebpf_inst) (rest : list ebpf_inst) : list group :=
  match emitted pc inst rest with inr (None, []) | inl _ => [] | inr (t, code) => [(code, t)] end.

(** What the loop from [pc] on appends to block [b]. *)
Fixpoint contrib (b pc cur : Z) (insts : list ebpf_inst) : list group :=
  match insts with
  | [] => []
  | inst :: rest =>
      let cur := if begins pc then pc else cur in
      (if b =? cur then group_of pc inst rest else []) ++
      match rest with
      | [] => []
      | _ :: rest' => if i_opcode inst =? op_code EBPF_OP_LDDW then contrib b (pc + 2) cur rest' else contrib b (pc + 1) cur rest
      end
  end.

Definition extend (f : Z → list group) (blocks : list (Z * list group)) : list (Z * list group) :=
  (λ '(b, gs), (b, gs ++ f b)) <$> blocks.

Lemma extend_nil blocks : extend (λ _, []) blocks = blocks.
Proof. unfold extend. induction blocks as [|[b gs] bl IH]; cbn; [done|]. by rewrite app_nil_r, IH. Qed.
Lemma extend_extend f g blocks : extend g (extend f blocks) = extend (λ b, f b ++ g b) blocks.
Proof. unfold extend. induction blocks as [|[b gs] bl IH]; cbn; [done|]. by rewrite <- app_assoc, IH. Qed.
Lemma extend_ext f g blocks : (∀ b, f b = g b) → extend f blocks = extend g blocks.
Proof. intros Hf. unfold extend. apply list_fmap_ext. intros i [b gs] _. by rewrite Hf. Qed.

Lemma append_group_extend blocks cur pc inst rest t code : emitted pc inst rest = inr (t, code) →
  append_group blocks cur (code, t) = extend (λ b, if b =? cur then group_of pc inst rest else []) blocks.
Proof.
  intros He. unfold append_group, group_of. rewrite He. destruct code, t; cbn.
  2: { rewrite (extend_ext _ (λ _, [])); [by rewrite extend_nil|]. intros b. by destruct (b =? cur). }
  all: unfold extend; apply list_fmap_ext; intros ? [b gs] _; destruct (b =? cur); by rewrite ?app_nil_r.
Qed.

Lemma gen_loop_contrib insts : ∀ pc cur blocks blocks',
  gen_loop vm ext lddw patch blockBegin ret pc cur insts blocks = inr blocks' →
  blocks' = extend (λ b, contrib b pc cur insts) blocks ∧
  ∀ k inst, is_boundary insts k = true → insts !! k = Some inst →
    i_dst inst ≤ 10 ∧ i_src inst ≤ 10 ∧ ∃ r, emitted (pc + Z.of_nat k) inst (drop (S k) insts) = inr r.
Proof.
  induction insts as [|inst rest IH1 IH2] using insns_ind; intros pc cur blocks blocks'; cbn [gen_loop contrib].
  { intros [= <-]. by rewrite extend_nil. }
  fold (begins pc). fold (emitted pc inst rest). set (cur' := if begins pc then pc else cur).
  destruct ((10 <? i_dst inst) || (10 <? i_src inst)) eqn:Er; [done|]. bool_to_prop. destruct (emitted pc inst rest) as [|[t code]] eqn:Ee; [done|].
  rewrite (append_group_extend _ _ _ _ _ _ _ Ee). intros Hg.
  assert (Hfst : ∀ x : ebpf_inst, (inst :: rest) !! 0%nat = Some x → i_dst x ≤ 10 ∧ i_src x ≤ 10 ∧
    ∃ r, emitted (pc + Z.of_nat 0) x (drop 1 (inst :: rest)) = inr r).
  { intros x [= <-]. rewrite Z.add_0_r. cbn [drop]. split; [lia|]. split; [lia|by eexists]. }
  destruct rest as [|n rest'].
  { injection Hg as <-. split; [apply extend_ext; intros b; by rewrite app_nil_r|]. intros [|k] x Hb Hx; [by apply Hfst|done]. }
  destruct (i_opcode inst =? op_code EBPF_OP_LDDW) eqn:El.
  - apply (IH2 n rest' eq_refl) in Hg as [-> Hk]. split; [by rewrite extend_extend|]. intros [|[|k]] x Hb Hx; [by apply Hfst|..].
    + cbn [is_boundary] in Hb. by rewrite El in Hb.
    + cbn [is_boundary] in Hb. rewrite El in Hb. replace (pc + Z.of_nat (S (S k))) with (pc + 2 + Z.of_nat k) by lia. by apply Hk.
  - apply IH1 in Hg as [-> Hk]. split; [by rewrite extend_extend|]. intros [|k] x Hb Hx; [by apply Hfst|].
    cbn [is_boundary] in Hb. rewrite El in Hb. replace (pc + Z.of_nat (S k)) with (pc + 1 + Z.of_nat k) by lia. by apply Hk.
Qed.

(** Nothing is appended to a block that is behind. *)
Lemma contrib_behind b insts : ∀ pc cur, b < pc → b ≠ cur → contrib b pc cur insts = [].
Proof.
  induction insts as [|inst rest IH1 IH2] using insns_ind; intros pc cur Hb Hc; [done|]. cbn [contrib].
  assert (b ≠ (if begins pc then pc else cur)) as Hc' by (destruct (begins pc); lia). rewrite (proj2 (Z.eqb_neq _ _) Hc'). cbn [app].
  destruct rest as [|n rest']; [done|]. destruct (_ =? op_code EBPF_OP_LDDW); [apply (IH2 n); [done|lia..]|apply IH1; lia].
Qed.

(** A block ends where the next one begins. *)
Lemma contrib_new b pc insts : b < pc → begins pc = true → contrib b pc b insts = [].
Proof.
  intros Hb Hbeg. destruct insts as [|inst rest]; [done|]. cbn [contrib]. rewrite Hbeg, (proj2 (Z.eqb_neq b pc)) by lia. cbn [app].
  destruct rest as [|n rest']; [done|]. destruct (_ =? op_code EBPF_OP_LDDW); apply contrib_behind; lia.
Qed.

(** A block gets what is appended from its begin on. *)
Lemma contrib_skip b insts : ∀ k pc cur, is_boundary insts k = true → begins b = true → b = pc + Z.of_nat k → (cur < b ∨ k = O) →
  contrib b pc cur insts = contrib b b b (drop k insts).
Proof.
  induction insts as [|inst rest IH1 IH2] using insns_ind; intros k pc cur Hk Hb Hbk Hc; [by destruct k|]. destruct k as [|k].
  { replace pc with b by lia. cbn [drop contrib]. by rewrite Hb. }
  cbn [contrib]. assert (b ≠ (if begins pc then pc else cur)) as Hc' by (destruct (begins pc); lia).
  rewrite (proj2 (Z.eqb_neq _ _) Hc'). cbn [app]. cbn [is_boundary] in Hk. destruct rest as [|n rest']; [by destruct (_ =? _)|].
  destruct (i_opcode inst =? op_code EBPF_OP_LDDW).
  - destruct k as [|k]; [done|]. apply (IH2 n rest' eq_refl); [done|done|lia|]. left. destruct (begins pc); lia.
  - apply IH1; [done|done|lia|]. left. destruct (begins pc); lia.
Qed.
End blocks.

(** ** The order of the blocks *)

Lemma add_br_lookup (G : Z → list group) pcs b : NoDup pcs → b ∈ pcs →
  ∃ k tl, list_find (λ p, p.1 = b) (add_br ((λ b, (b, G b)) <$> pcs)) = Some (k, (b, G b ++ tl)) ∧
    ∀ l1 b' l2, pcs = l1 ++ b :: b' :: l2 → tl = if has_terminator (G b) then [] else [([], Some (TBr (BInst b')))].
Proof.
  induction pcs as [|x pcs IH]; intros Hnd Hb; [by apply elem_of_nil in Hb|]. apply NoDup_cons in Hnd as [Hx Hnd].
  assert (Hhd : ∃ tl, add_br ((λ b, (b, G b)) <$> (x :: pcs)) = (x, G x ++ tl) :: add_br ((λ b, (b, G b)) <$> pcs) ∧
    ∀ b' l2, pcs = b' :: l2 → tl = if has_terminator (G x) then [] else [([], Some (TBr (BInst b')))]).
  { destruct pcs as [|y pcs]; [exists []; cbn; rewrite app_nil_r; split; [done|by intros]|]. cbn [fmap list_fmap add_br]. destruct (has_terminator (G x)).
    - exists []. rewrite app_nil_r. done.
    - eexists. split; [done|]. by intros b' l2 [= -> ->]. }
  destruct Hhd as (tl&Hadd&Htl). rewrite Hadd. cbn [list_find]. destruct (decide ((x, G x ++ tl).1 = b)) as [Heq|Hne]; cbn in Heq || cbn in Hne.
  - subst x. exists 0%nat, tl. split; [done|]. intros [|z l1] b' l2 Heq; [injection Heq as ->; by eapply Htl|].
    injection Heq as -> ->. destruct Hx. set_solver.
  - apply elem_of_cons in Hb as [->|Hb]; [done|]. destruct (IH Hnd Hb) as (k&tl'&Hf&Ht). rewrite Hf. exists (S k), tl'. split; [done|].
    intros [|z l1] b' l2 Heq; [by injection Heq as -> ->|]. injection Heq as -> ->. by eapply Ht.
Qed.

Lemma elem_of_block_pcs bb b : b ∈ block_pcs bb ↔ 0 ≤ b < zlen bb ∧ begins bb b = true.
Proof. unfold block_pcs, begins. rewrite list_elem_of_In, filter_In, <- list_elem_of_In, elem_of_seqZ, Z.add_0_l. done. Qed.
Lemma NoDup_block_pcs bb : NoDup (block_pcs bb).
Proof. apply NoDup_ListNoDup, List.NoDup_filter, NoDup_ListNoDup, NoDup_seqZ. Qed.

(** Neighbours among the blocks. *)
Lemma block_pcs_next bb b b' : 0 ≤ b → b < b' < zlen bb → begins bb b = true → begins bb b' = true →
  (∀ x, b < x < b' → begins bb x = false) → ∃ l1 l2, block_pcs bb = l1 ++ b :: b' :: l2.
Proof.
  intros H0 Hlt Hb Hb' Hno. set (f := λ pc, (bb !!! Z.to_nat pc : bool)).
  assert (Hs : seqZ 0 (zlen bb) = seqZ 0 b ++ [b] ++ seqZ (b + 1) (b' - b - 1) ++ [b'] ++ seqZ (b' + 1) (zlen bb - b' - 1)).
  { replace (zlen bb) with (b + (1 + ((b' - b - 1) + (1 + (zlen bb - b' - 1))))) at 1 by lia.
    rewrite !seqZ_app by lia. replace (0 + b) with b by lia. replace (b + 1 + (b' - b - 1)) with b' by lia. done. }
  assert (Hmid : List.filter f (seqZ (b + 1) (b' - b - 1)) = []).
  { assert (Hall : ∀ x, x ∈ seqZ (b + 1) (b' - b - 1) → f x = false) by (intros x Hx; apply elem_of_seqZ in Hx; apply Hno; lia).
    clear Hs. induction (seqZ (b + 1) (b' - b - 1)) as [|x l IH]; [done|]. cbn [List.filter].
    rewrite (Hall x) by (by left). apply IH. intros y Hy. apply Hall. by right. }
  eexists (List.filter f (seqZ 0 b)), (List.filter f (seqZ (b' + 1) (zlen bb - b' - 1))). unfold block_pcs. fold f. rewrite Hs, !List.filter_app, Hmid.
  cbn [List.filter]. unfold begins in *. unfold f at 2. rewrite Hb. unfold f at 2. rewrite Hb'. done.
Qed.

(** ** Branch targets *)

(** A property of what calls of the builder return. *)
Definition returns {A} (e : emit A) (P : A → Prop) : Prop := ∀ code a code', e code = inr (a, code') → P a.

Lemma returns_ret {A} (a : A) (P : A → Prop) : P a → returns (mret a) P.
Proof. by intros Ha code b code' [= <- _]. Qed.
Lemma returns_bind {A B} (e : emit A) (f : A → emit B) P Q : returns e P → (∀ a, P a → returns (f a) Q) → returns (e ≫= f) Q.
Proof.
  intros He Hf code b code'. unfold mbind, emit_bind. destruct (e code) as [|[a c]] eqn:E; [done|]. intros Hb. eapply Hf; [by eapply He|done].
Qed.
Lemma returns_any {A} (e : emit A) : returns e (λ _, True).
Proof. done. Qed.
Lemma returns_seq {A B} (e : emit A) (f : A → emit B) Q : (∀ a, returns (f a) Q) → returns (e ≫= f) Q.
Proof. intros Hf. eapply returns_bind; [apply returns_any|]. auto. Qed.
Lemma returns_fail {A} e (P : A → Prop) : returns (fail e) P.
Proof. done. Qed.

(** A block that a branch goes to: one of an instruction in [bs]. *)
Definition target_ok (bs : gset Z) (b : block) : Prop := match b with BInst pc => pc ∈ bs | _ => True end.
Definition term_ok (bs : gset Z) (t : option terminator) : Prop :=
  match t with
  | Some (TBr b) => target_ok bs b
  | Some (TCondBr _ b1 b2) => target_ok bs b1 ∧ target_ok bs b2
  | Some (TIndirectBr _ _) => False
  | _ => True
  end.

Lemma returns_findBlock bs pc id : returns (findBlock bs pc id) (target_ok bs).
Proof. unfold findBlock. case_bool_decide; [by apply returns_ret|apply returns_fail]. Qed.
Lemma returns_localJmp bs pc inst : returns (localJmpDstAndNextBlk pc inst bs) (λ '(b1, b2), target_ok bs b1 ∧ target_ok bs b2).
Proof.
  unfold localJmpDstAndNextBlk. eapply returns_bind; [apply returns_findBlock|]. intros b1 H1.
  eapply returns_bind; [apply returns_findBlock|]. intros b2 H2. by apply returns_ret.
Qed.
Lemma returns_condjmp bs pc inst f : returns (emitCondJmpWithDstAndSrc pc inst bs f) (term_ok bs).
Proof.
  unfold emitCondJmpWithDstAndSrc. eapply returns_bind; [apply returns_localJmp|]. intros [b1 b2] Hb.
  apply returns_seq. intros [[a b] z]. apply returns_seq. intros c. by apply returns_ret.
Qed.
Lemma returns_jset bs pc inst : returns (emitJSet bs pc inst) (term_ok bs).
Proof.
  unfold emitJSet. eapply returns_bind; [apply returns_localJmp|]. intros [b1 b2] Hb.
  apply returns_seq. intros [[a b] z]. do 2 (apply returns_seq; intros ?). by apply returns_ret.
Qed.
(** Conditional jumps have a terminator. *)
Lemma returns_condjmp' bs pc inst f : returns (emitCondJmpWithDstAndSrc pc inst bs f) (λ t, t ≠ None).
Proof.
  unfold emitCondJmpWithDstAndSrc. apply returns_seq. intros [b1 b2]. apply returns_seq. intros [[a b] z]. apply returns_seq. intros c. by apply returns_ret.
Qed.
Lemma returns_jset' bs pc inst : returns (emitJSet bs pc inst) (λ t, t ≠ None).
Proof.
  unfold emitJSet. apply returns_seq. intros [b1 b2]. apply returns_seq. intros [[a b] z]. do 2 (apply returns_seq; intros ?). by apply returns_ret.
Qed.
Lemma returns_call bs pc inst ext ret : returns (emitCall ext bs ret pc inst) (term_ok bs).
Proof.
  unfold emitCall, emitLocalCall, emitExtFuncCall. destruct (_ =? 1).
  - do 3 (apply returns_seq; intros ?). destruct (negb _); [apply returns_fail|].
    do 9 (apply returns_seq; intros ?). eapply returns_bind; [apply returns_findBlock|]. intros b Hb. by apply returns_ret.
  - case_bool_decide; [|apply returns_fail]. do 7 (apply returns_seq; intros ?). apply returns_ret. by destruct (_ =? 12).
Qed.
Lemma returns_plain bs (e : emit unit) : returns (_ ← e; mret None) (term_ok bs).
Proof. apply returns_seq. intros []. by apply returns_ret. Qed.

Lemma emitInst_targets vm ext lddw patch bs ret pc inst next : returns (emitInst vm ext lddw patch bs ret pc inst next) (term_ok bs).
Proof.
  unfold emitInst. destruct (find_op jit_ops (i_opcode inst)) as [o|].
  2: { destruct (_ =? _); [apply returns_call|apply returns_fail]. }
  destruct (emitALU pc o inst) as [e|]; [apply returns_plain|]. destruct (emitMem o inst) as [e|]; [apply returns_plain|].
  destruct (jmp_pred o); [apply returns_condjmp|].
  destruct o; try apply returns_fail; try apply returns_plain; try apply returns_call; try apply returns_jset;
    try (eapply returns_bind; [apply returns_findBlock|]; intros b Hb; by apply returns_ret).
  do 2 (apply returns_seq; intros ?). by apply returns_ret.
Qed.

(** A run that leaves a block goes to one of the targets. *)
Lemma exec_group_target `{!Llvm} je js code t bs js' pc : term_ok bs t → exec_group je js (code, t) = Some (js', JGoto (BInst pc)) → pc ∈ bs.
Proof.
  intros Ht. unfold exec_group. cbn [fst snd]. destruct (exec_instrs je js [] code) as [[js1 env]|]; [|done]. cbn [mbind option_bind].
  destruct t as [[b|c b1 b2|v ds|v|]|]; cbn [exec_term term_ok] in *; try done.
  - by intros [= _ ->].
  - destruct (eval_int je env c) as [[? z]|]; [|done]. cbn [mbind option_bind]. intros [= _ Hb]. destruct (z =? 1); subst; apply Ht.
  - destruct (eval_int je env v) as [[? z]|]; [|done]. done.
Qed.
Lemma exec_group_fall `{!Llvm} je js code t js' : exec_group je js (code, t) = Some (js', JFall) → t = None.
Proof.
  unfold exec_group. cbn [fst snd]. destruct (exec_instrs je js [] code) as [[js1 env]|]; [|done]. cbn [mbind option_bind].
  destruct t as [[b|c b1 b2|v ds|v|]|]; cbn [exec_term]; try done.
  - destruct (eval_int je env c) as [[? z]|]; [|done]. done.
  - destruct (eval je env v) as [[? ?|?|]|]; [done| |done|done]. cbn [mbind option_bind]. by case_bool_decide.
  - destruct (eval_int je env v) as [[? z]|]; [|done]. done.
Qed.

(** Code that is not empty: the calls end with a store, or the code has a terminator. *)
Definition leaves {A} (e : emit A) : Prop := ∀ code a code', e code = inr (a, code') → code' ≠ [].

Lemma leaves_store v p : leaves (CreateStore v p).
Proof. intros code a code' [= _ <-]. by destruct code. Qed.
Lemma leaves_seq {A B} (e : emit A) (f : A → emit B) : (∀ a, leaves (f a)) → leaves (e ≫= f).
Proof. intros Hf code b code'. unfold mbind, emit_bind. destruct (e code) as [|[a c]]; [done|]. apply Hf. Qed.
Lemma leaves_then {A B} (e : emit A) (b : B) : leaves e → leaves (_ ← e; mret b).
Proof. intros He code a code'. unfold mbind, emit_bind. destruct (e code) as [|[x c]] eqn:E; [done|]. intros [= _ <-]. by eapply He. Qed.
Lemma leaves_result inst r : leaves (emitStoreALUResult inst r).
Proof. unfold emitStoreALUResult. destruct (_ =? _); [apply leaves_store|]. apply leaves_seq. intros. apply leaves_store. Qed.
Lemma leaves_alu inst f : leaves (emitALUWithDstAndSrc inst f).
Proof. do 3 (apply leaves_seq; intros ?). apply leaves_result. Qed.

Lemma emitALU_leaves pc o inst e : emitALU pc o inst = Some e → leaves e.
Proof.
  destruct o; intros [= <-]; first [apply leaves_alu|do 2 (apply leaves_seq; intros ?); apply leaves_result].
Qed.
Lemma emitMem_leaves o inst e : emitMem o inst = Some e → leaves e.
Proof.
  destruct o; intros [= <-]; first [unfold emitStore, emitStoreWritingResult; do 4 (apply leaves_seq; intros ?); apply leaves_store
                                   |unfold emitLoadX, emitLDXStoringResult; do 3 (apply leaves_seq; intros ?); apply leaves_store].
Qed.
Lemma emitExtFuncCall_leaves inst ext : leaves (emitExtFuncCall inst ext).
Proof.
  unfold emitExtFuncCall. case_bool_decide; [|done]. do 6 (apply leaves_seq; intros ?). apply leaves_then, leaves_store.
Qed.
Lemma emitLDDW_leaves vm lddw patch pc inst next : i_src inst = 0 → leaves (emitLDDW vm lddw patch pc inst next).
Proof. intros Hs. unfold emitLDDW. destruct next; [|done]. destruct (_ || _); [done|]. rewrite Hs. cbn [Z.eqb]. apply leaves_store. Qed.

Lemma emitInst_visible vm ext lddw patch bs ret pc inst next o t code : find_op ubpf_ops (i_opcode inst) = Some o →
  (o = EBPF_OP_LDDW ∨ o = EBPF_OP_CALL → i_src inst = 0) →
  emitInst vm ext lddw patch bs ret pc inst next [] = inr (t, code) → (code, t) ≠ ([], None).
Proof.
  intros Ho Hsrc He Heq. injection Heq as -> ->. unfold emitInst in He.
  rewrite <- (find_op_Some _ _ _ Ho), find_op_code in He.
  destruct (emitALU pc o inst) as [e|] eqn:Ea; [by apply (leaves_then e (@None terminator)) in He; [|by eapply emitALU_leaves]|].
  destruct (emitMem o inst) as [e|] eqn:Em; [by apply (leaves_then e (@None terminator)) in He; [|by eapply emitMem_leaves]|].
  destruct (jmp_pred o) as [p|].
  { apply (returns_condjmp' bs pc inst) in He. done. }
  destruct o; try discriminate He; try (by apply returns_jset' in He);
    try (pose proof (find_op_Some _ _ _ Ho) as Hoc; rewrite <- Hoc in Ho; by vm_compute in Ho).
  - apply (leaves_then _ (@None terminator)) in He; [done|]. apply emitLDDW_leaves. auto.
  - unfold loadJmpDstBlock, mbind, emit_bind in He. by destruct (findBlock _ _ _ _) as [|[? ?]].
  - unfold emitCall in He. rewrite Hsrc in He by auto. by apply emitExtFuncCall_leaves in He.
Qed.

Lemma emitInst_lddw_next vm ext lddw patch bs ret pc inst next r : i_opcode inst = op_code EBPF_OP_LDDW →
  emitInst vm ext lddw patch bs ret pc inst next [] = inr r → is_Some next.
Proof.
  intros Ho He. unfold emitInst in He. rewrite Ho, find_op_code in He. cbn [emitALU emitMem jmp_pred] in He. destruct next; [by eexists|done].
Qed.

(** ** Boundaries *)

Lemma boundary_next code : ∀ k c, is_boundary code k = true → code !! k = Some c →
  let k' := if i_opcode c =? op_code EBPF_OP_LDDW then S (S k) else S k in (k' < length code)%nat → is_boundary code k' = true.
Proof.
  induction code as [|inst rest IH1 IH2] using insns_ind; intros k c Hk Hc; [by destruct k|]. destruct k as [|k]; cbn zeta.
  - injection Hc as <-. destruct rest as [|n [|n' rest']]; cbn [length is_boundary]; destruct (_ =? _) eqn:El; rewrite ?El; try done; lia.
  - cbn [is_boundary] in Hk. destruct (i_opcode inst =? op_code EBPF_OP_LDDW) eqn:El.
    + destruct rest as [|n rest']; [done|]. destruct k as [|k]; [done|]. intros Hl.
      specialize (IH2 n rest' eq_refl k c Hk Hc). cbn zeta in IH2. destruct (i_opcode c =? _); cbn [is_boundary length] in *; rewrite El; apply IH2; lia.
    + intros Hl. specialize (IH1 k c Hk Hc). cbn zeta in IH1. destruct (i_opcode c =? _); cbn [is_boundary length] in *; rewrite El; apply IH1; lia.
Qed.

Lemma boundary_half code : ∀ k, (k < length code)%nat → is_boundary code k = true ∨
  ∃ k' c, k = S k' ∧ is_boundary code k' = true ∧ code !! k' = Some c ∧ i_opcode c = op_code EBPF_OP_LDDW.
Proof.
  induction code as [|inst rest IH1 IH2] using insns_ind; intros k Hk; [cbn in Hk; lia|]. destruct k as [|k]; [by left|].
  cbn [is_boundary length] in *. destruct (Z.eqb_spec (i_opcode inst) (op_code EBPF_OP_LDDW)) as [El|El].
  - destruct rest as [|n rest']; [cbn in Hk; lia|]. destruct k as [|k]; [right; by exists 0%nat, inst|].
    destruct (IH2 n rest' eq_refl k) as [?|(k'&c&->&Hb&Hc&Ho)]; [cbn in Hk; lia|by left|]. right. exists (S (S k')), c.
    split; [done|]. split; [cbn [is_boundary]; rewrite ?El, ?Z.eqb_refl; done|done].
  - destruct (IH1 k) as [?|(k'&c&->&Hb&Hc&Ho)]; [lia|by left|]. right. exists (S k'), c.
    split; [done|]. split; [cbn [is_boundary]; rewrite ?(proj2 (Z.eqb_neq _ _) El); done|done].
Qed.

(** ** Where blocks begin *)

Lemma begins_insert bb i x : begins (<[Z.to_nat i := true]> bb) x = true → 0 ≤ x → 0 ≤ i → begins bb x = true ∨ x = i.
Proof.
  intros Hb Hx Hi. unfold begins in *. destruct (decide (x = i)) as [->|Hne]; [by right|]. left.
  rewrite list_lookup_total_insert_ne in Hb; [done|lia].
Qed.

(** What a mark comes from. *)
Definition mark_source (prev : option ebpf_inst) (i : Z) (c : ebpf_inst) (x : Z) : Prop :=
  ((∃ p, prev = Some p ∧ is_jmp p = true) ∧ x = i) ∨ is_jmp c = true ∧ is_imm_jmp c = false ∧ x = i + i_offset c + 1 ∨ is_imm_jmp c = true.

Lemma mark_inst_begins prev i c bb bb' : 0 ≤ i → i + i_offset c + 1 < 2 ^ 64 → - 2 ^ 63 ≤ i_offset c → zlen bb < 2 ^ 63 →
  mark_inst prev i c bb = Some bb' →
  length bb' = length bb ∧ ∀ x, 0 ≤ x → begins bb' x = true → begins bb x = true ∨ mark_source prev i c x.
Proof.
  intros Hi Ho Ho' Hz. unfold mark_inst.
  set (bb1 := match prev with Some p => if is_jmp p then <[Z.to_nat i := true]> bb else bb | None => bb end).
  assert (H1 : length bb1 = length bb ∧ ∀ x, 0 ≤ x → begins bb1 x = true → begins bb x = true ∨ mark_source prev i c x).
  { unfold bb1. destruct prev as [p|]; [|by auto]. destruct (is_jmp p) eqn:Ep; [|by auto]. rewrite length_insert. split; [done|].
    intros x Hx Hb. apply begins_insert in Hb as [?| ->]; [by left| |done|done]. right. left. eauto. }
  destruct H1 as [Hl1 Hb1]. destruct (is_imm_jmp c) eqn:Eim.
  { destruct (_ && _); [|done]. intros [= <-]. rewrite length_insert. split; [done|]. intros x Hx Hb. right. by do 2 right. }
  destruct (is_jmp c) eqn:Ej; [|intros [= <-]; by auto]. intros [= <-].
  destruct (Z.ltb_spec (u64 (i + i_offset c + 1)) (zlen bb1)) as [Hlt|]; [|by auto]. rewrite length_insert. split; [done|]. intros x Hx Hb.
  assert (zlen bb1 = zlen bb) by (unfold zlen; lia).
  assert (u64 (i + i_offset c + 1) = i + i_offset c + 1) as Hu.
  { destruct (decide (0 ≤ i + i_offset c + 1)); [apply u64_small; lia|]. exfalso.
    assert (u64 (i + i_offset c + 1) = i + i_offset c + 1 + 2 ^ 64) by (unfold u64; symmetry; apply (Z.mod_unique_pos _ _ (-1)); lia). lia. }
  rewrite Hu in *. pose proof (u64_bound (i + i_offset c + 1)). apply begins_insert in Hb as [Hb| ->]; [by apply Hb1| |done|lia].
  right. right. left. auto.
Qed.

Lemma split_begins insts : ∀ prev i bb bb', Forall inst_wf insts → 0 ≤ i → i + zlen insts ≤ 2 ^ 16 → zlen bb ≤ 2 ^ 16 →
  split_from prev i insts bb = Some bb' →
  length bb' = length bb ∧ ∀ x, 0 ≤ x → begins bb' x = true → begins bb x = true ∨ ((∃ p, prev = Some p ∧ is_jmp p = true) ∧ x = i) ∨
    ∃ k c, insts !! k = Some c ∧ (is_jmp c = true ∧ (x = i + Z.of_nat k + 1 ∨ x = i + Z.of_nat k + i_offset c + 1) ∨ is_imm_jmp c = true).
Proof.
  induction insts as [|c insts IH]; intros prev i bb bb' Hwf Hi Hn Hz; cbn [split_from]; [intros [= <-]; auto|].
  apply Forall_cons in Hwf as [(_&_&_&Ho&_) Hwf]. rewrite zlen_cons in Hn. pose proof (zlen_nonneg insts).
  destruct (mark_inst prev i c bb) as [bb1|] eqn:Em; [|done]. cbn [mbind option_bind]. intros Hs.
  apply mark_inst_begins in Em as [Hl1 Hm]; [|lia..]. apply IH in Hs as [Hl2 Hb2]; [|done|lia|lia|unfold zlen in *; lia].
  split; [lia|]. intros x Hx Hb. destruct (Hb2 x Hx Hb) as [Hb1|[[(p&[= <-]&Hp) ->]|(k&c'&Hk&Hc)]].
  - destruct (Hm x Hx Hb1) as [?|[?|[(Hj&_&->)|Him]]]; [by left|by right; left|..].
    + right. right. exists 0%nat, c. split; [done|]. left. split; [done|]. right. lia.
    + right. right. exists 0%nat, c. auto.
  - right. right. exists 0%nat, c. split; [done|]. left. split; [done|]. left. lia.
  - right. right. exists (S k), c'. split; [done|]. destruct Hc as [[Hj [-> | ->]]|Him]; [left|left|by right]; (split; [done|]); [left|right]; lia.
Qed.

(** Marks are not taken away, and the first instruction has one. *)
Lemma begins_insert_mono bb (k : nat) x : begins bb x = true → begins (<[k := true]> bb) x = true.
Proof.
  unfold begins. intros Hb. destruct (decide (Z.to_nat x = k)) as [<-|Hne]; [|by rewrite list_lookup_total_insert_ne].
  destruct (decide (Z.to_nat x < length bb)%nat); [by rewrite list_lookup_total_insert_eq|by rewrite list_insert_ge by lia].
Qed.
Lemma split_from_mono insts : ∀ prev i bb bb' x, split_from prev i insts bb = Some bb' → begins bb x = true → begins bb' x = true.
Proof.
  induction insts as [|c insts IH]; intros prev i bb bb' x; cbn [split_from]; [by intros [= <-]|].
  destruct (mark_inst prev i c bb) as [bb1|] eqn:Em; [|done]. cbn [mbind option_bind]. intros Hs Hb. eapply IH; [done|].
  unfold mark_inst in Em. set (bb2 := match prev with Some p => _ | None => _ end) in Em.
  assert (begins bb2 x = true) by (unfold bb2; destruct prev as [p|]; [destruct (is_jmp p)|]; auto using begins_insert_mono).
  destruct (is_imm_jmp c); [destruct (_ && _); [|done]|destruct (is_jmp c); [destruct (_ <? _)|]]; injection Em as <-; auto using begins_insert_mono.
Qed.
Lemma begins_zero insts bb : split_blocks insts = Some bb → 0 < zlen insts → begins bb 0 = true.
Proof.
  intros Hs Hl. eapply split_from_mono; [exact Hs|]. unfold begins. apply list_lookup_total_insert_eq. rewrite length_replicate. unfold zlen in Hl. lia.
Qed.

(** Reserved offsets are zero. *)
Definition reserved_zero (c : ebpf_inst) : Prop :=
  i_opcode c = op_code EBPF_OP_CALL ∨ i_opcode c = op_code EBPF_OP_EXIT → i_offset c = 0.

(** No block begins with the second half of an LDDW. *)
Lemma half_not_begin uvm code bb k c : validate uvm code = VOk tt → Forall inst_wf code → Forall reserved_zero code →
  split_blocks code = Some bb → code !! k = Some c → i_opcode c = op_code EBPF_OP_LDDW → begins bb (Z.of_nat (S k)) = false.
Proof.
  intros Hv Hwf Hres Hsp Hk Ho. destruct (begins bb (Z.of_nat (S k))) eqn:Hb; [exfalso|done].
  pose proof (validate_slots _ _ Hv) as Hsl. assert (Hn : zlen code < 65536) by (unfold validate in Hv; destruct (Z.leb_spec UBPF_MAX_INSTS (zlen code)); [done|done]).
  assert (Hval : ∀ i x, code !! i = Some x → i_opcode x ≠ 0 → ∃ j o, validate_inst uvm code (Z.of_nat i) x = VOk j ∧
    find_op ubpf_ops (i_opcode x) = Some o).
  { intros i x Hi Hx. pose proof (lookup_lt_Some _ _ _ Hi). destruct (Hsl (Z.of_nat i)) as (x'&Hx'&Hval); [unfold zlen; lia|].
    rewrite Nat2Z.id, Hi in Hx'. injection Hx' as <-. destruct Hval as [[j Hj]|]; [|done]. exists j.
    destruct (find_op ubpf_ops (i_opcode x)) as [o|] eqn:Eo; [by exists o|].
    unfold validate_inst, validate_op in Hj. by rewrite Eo in Hj. }
  assert (Hz : ∃ n, code !! S k = Some n ∧ i_opcode n = 0).
  { destruct (Hval k c Hk) as (j&o&Hj&Hop); [rewrite Ho; by vm_compute|]. rewrite Ho in Hop. injection Hop as <-.
    destruct (valid_lddw code uvm (Z.of_nat k) c j EBPF_OP_LDDW) as (n&Hn'&?); [done|by rewrite Ho|done|].
    replace (Z.to_nat (Z.of_nat k + 1)) with (S k) in Hn' by lia. eauto. }
  destruct Hz as (n&Hn1&Hz). pose proof (lookup_lt_Some _ _ _ Hn1) as Hlt.
  apply split_begins in Hsp as [_ Hsrc]; [|done|lia|lia|unfold zlen in *; rewrite length_insert, length_replicate; lia].
  destruct (Hsrc (Z.of_nat (S k)) ltac:(lia) Hb) as [H0|[[(p&?&_) _]|(k'&c'&Hk'&Hc')]]; [|done|].
  { apply (begins_insert _ 0) in H0 as [H0|H0]; [|lia..]. unfold begins in H0.
    by rewrite list_lookup_total_alt, lookup_replicate_2 in H0 by lia. }
  assert (is_jmp c = false) as Hcj by (unfold is_jmp, opcode_class; by rewrite Ho).
  assert (i_opcode c' ≠ 0) as Hc0.
  { intros H0. destruct Hc' as [[Hj _]|Him]; [unfold is_jmp, opcode_class in Hj; by rewrite H0 in Hj|unfold is_imm_jmp in Him; by rewrite H0 in Him]. }
  destruct (Hval k' c' Hk' Hc0) as (j&o&Hj&Hop). pose proof (find_op_Some _ _ _ Hop) as Hoc.
  destruct Hc' as [[Hj' [Hx|Hx]]|Him].
  - assert (k' = k) as -> by lia. congruence.
  - destruct (is_jump_op o) eqn:Ejo.
    + destruct (valid_jump_target code uvm (Z.of_nat k') c' j o Hj Hop Ejo) as (t&Ht&Ht0).
      replace (Z.to_nat (Z.of_nat k' + 1 + i_offset c')) with (S k) in Ht by lia. congruence.
    + assert (i_offset c' = 0).
      { apply (Forall_lookup_1 _ _ _ _ Hres Hk'). rewrite <- Hoc. unfold is_jmp, opcode_class in Hj'. rewrite <- Hoc in Hj'.
        destruct o; try done; auto. rewrite <- Hoc in Hop. by vm_compute in Hop. }
      assert (k' = k) as -> by lia. congruence.
  - unfold is_imm_jmp in Him. rewrite <- Hoc in Him. apply Z.eqb_eq, (inj op_code) in Him as ->.
    assert (find_op ubpf_ops (op_code EBPF_OP_JA_IMM) = None) by (by vm_compute). congruence.
Qed.

(** ** Whole runs *)

(** The instruction at the state is one on which the compiler and the interpreter agree, its access is aligned, and what it
    reads is in [W]. *)
Definition agrees_at (code : list ebpf_inst) (arity : Z → Z) (W : list Z) (s : exec_state) : bool :=
  match code !! Z.to_nat (st_pc s) with
  | Some inst =>
      match find_op jit_ops (i_opcode inst) with
      | Some o => jit_agrees inst o (reg s (i_src inst)) && access_aligned inst o (reg s) && forallb (λ r, bool_decide (r ∈ W)) (reads arity inst o)
      | None => true
      end
  | None => true
  end.
(** The registers that are written after the instruction at the state. *)
Definition written_at (code : list ebpf_inst) (W : list Z) (s : exec_state) : list Z :=
  match code !! Z.to_nat (st_pc s) with
  | Some inst => match find_op jit_ops (i_opcode inst) with Some o => writes inst o ++ W | None => W end
  | None => W
  end.
(** All of a run that ends within [fuel] rounds. *)
Fixpoint agrees_run (uvm : ubpf_vm) (code : list ebpf_inst) (arity : Z → Z) (mem mem_len stack : Z) (fuel : nat) (W : list Z) (s : exec_state) : bool :=
  match fuel with
  | O => false
  | S fuel =>
      agrees_at code arity W s &&
      match exec_step uvm mem mem_len stack s with
      | Next s' => agrees_run uvm code arity mem mem_len stack fuel (written_at code W s) s'
      | _ => true
      end
  end.

Section run.
Context `{!Llvm} (uvm vm0 : ubpf_vm) (code : list ebpf_inst) (mem mem_len stack : Z).
Context (jvm : llvmbpf_vm) (ext lddw : list string) (je : jenv) (bb : list bool) (m : jmodule).
Context (Hld : loaded uvm code) (Hval : validate vm0 code = VOk tt) (Hwf : Forall inst_wf code) (Hres : Forall reserved_zero code).
Context (Hsp : split_blocks code = Some bb).

#[local] Abbreviation ret := (ret_pcs code (block_pcs bb)).
#[local] Abbreviation emitted := (emitted jvm ext lddw true bb ret).
#[local] Abbreviation contrib := (contrib jvm ext lddw true bb ret).
#[local] Abbreviation G := (λ b, contrib b 0 0 code).

Context (Hblocks : jm_blocks m = add_br ((λ b, (b, G b)) <$> block_pcs bb)) (Hexit : jm_exit m = [exitCode false]).
Context (Hemit : ∀ k inst, is_boundary code k = true → code !! k = Some inst →
  i_dst inst ≤ 10 ∧ i_src inst ≤ 10 ∧ ∃ r, emitted (Z.of_nat k) inst (drop (S k) code) = inr r).
Context (Hunwind : vm_unwind_stack_extension_index uvm = -1).
Context (arity : Z → Z).
Context (Hhelp : ∀ i f, 0 ≤ i < MAX_EXT_FUNCS → dispatch uvm i = Some f → uses_args f (arity i) ∧ je_ext je (ext_func_sym i) = Some f).

Lemma code_len : zlen code < 2 ^ 16.
Proof. exact (ld_len _ _ Hld). Qed.
Lemma bb_len : zlen bb = zlen code.
Proof.
  pose proof code_len. unfold zlen in *. apply split_begins in Hsp as [Hl _]; [|done|lia|unfold zlen; lia|].
  - rewrite Hl. by rewrite length_insert, length_replicate.
  - unfold zlen. rewrite length_insert, length_replicate. lia.
Qed.

(** A run is in block [b] before the code of instruction [pc]. *)
Definition at_pos (pc : Z) (gs : list group) : Prop :=
  0 ≤ pc < zlen code ∧ is_boundary code (Z.to_nat pc) = true ∧
  ∃ b pre tl, 0 ≤ b ≤ pc ∧ begins bb b = true ∧ (∀ x, b < x ≤ pc → begins bb x = false) ∧
    G b = pre ++ contrib b pc b (drop (Z.to_nat pc) code) ∧ gs = contrib b pc b (drop (Z.to_nat pc) code) ++ tl ∧
    ∀ l1 b' l2, block_pcs bb = l1 ++ b :: b' :: l2 → tl = if has_terminator (G b) then [] else [([], Some (TBr (BInst b')))].

Lemma enter_block pc : pc ∈ block_pcs bb → is_boundary code (Z.to_nat pc) = true →
  ∃ gs, block_code m (BInst pc) = Some gs ∧ at_pos pc gs.
Proof.
  intros Hin Hb. apply elem_of_block_pcs in Hin as Hin'. rewrite bb_len in Hin'. destruct Hin' as [Hr Hbeg].
  destruct (add_br_lookup G (block_pcs bb) pc (NoDup_block_pcs _) Hin) as (k&tl&Hf&Htl). exists (G pc ++ tl). split.
  { cbn [block_code]. by rewrite Hblocks, Hf. }
  assert (HG : G pc = contrib pc pc pc (drop (Z.to_nat pc) code)).
  { apply contrib_skip; [done|done|lia|]. destruct (decide (pc = 0)) as [->|]; [right; done|left; lia]. }
  split; [done|]. split; [done|]. exists pc, [], tl. split; [lia|]. split; [done|]. split; [lia|]. split; [done|].
  split; [by rewrite <- HG|done].
Qed.

(** A block that begins is a boundary. *)
Lemma begin_boundary pc : pc ∈ block_pcs bb → is_boundary code (Z.to_nat pc) = true.
Proof.
  intros Hin. apply elem_of_block_pcs in Hin as [Hr Hb]. rewrite bb_len in Hr.
  destruct (boundary_half code (Z.to_nat pc)) as [?|(k&c&Hk&_&Hc&Ho)]; [unfold zlen in Hr; lia|done|].
  rewrite (half_not_begin _ _ _ k c Hval Hwf Hres Hsp Hc Ho) in Hb || (replace pc with (Z.of_nat (S k)) in Hb by lia;
    by rewrite (half_not_begin _ _ _ k c Hval Hwf Hres Hsp Hc Ho) in Hb).
Qed.

(** The group of an instruction, and what comes behind it in its block. *)
Lemma pos_step pc gs inst t gcode : at_pos pc gs → code !! Z.to_nat pc = Some inst →
  emitted pc inst (drop (S (Z.to_nat pc)) code) = inr (t, gcode) → (gcode, t) ≠ ([], None) →
  let pc' := if i_opcode inst =? op_code EBPF_OP_LDDW then pc + 2 else pc + 1 in
  ∃ gs', gs = (gcode, t) :: gs' ∧
    (t = None → pc' < zlen code → at_pos pc' gs' ∨ gs' = [([], Some (TBr (BInst pc')))] ∧ pc' ∈ block_pcs bb).
Proof.
  intros (Hr&Hbd&b&pre&tl&Hbr&Hbeg&Hno&HG&->&Htl) Hi He Hne pc'.
  set (rest := drop (S (Z.to_nat pc)) code) in *. assert (Hdrop : drop (Z.to_nat pc) code = inst :: rest) by (by apply drop_S).
  set (rest2 := if i_opcode inst =? op_code EBPF_OP_LDDW then drop 1 rest else rest).
  assert (Hrest2 : rest2 = drop (Z.to_nat pc') code).
  { unfold rest2, rest, pc'. destruct (_ =? _); rewrite ?drop_drop; f_equal; lia. }
  assert (Hstep : contrib b pc b (inst :: rest) = (gcode, t) :: contrib b pc' b rest2).
  { cbn [LlvmRefine.contrib].
    assert ((if begins bb pc then pc else b) = b) as ->.
    { destruct (decide (pc = b)) as [->|]; [by destruct (begins bb b)|]. by rewrite (Hno pc) by lia. }
    assert (group_of jvm ext lddw true bb ret pc inst rest = [(gcode, t)]) as -> by (unfold group_of; rewrite He; by destruct t, gcode).
    rewrite Z.eqb_refl. cbn [app]. f_equal. unfold rest2, pc'. destruct rest as [|n rest']; [by destruct (_ =? _)|]. by destruct (_ =? _). }
  rewrite Hdrop, Hstep in *. exists (contrib b pc' b rest2 ++ tl). split; [done|]. intros -> Hpc'.
  assert (Hb2 : is_boundary code (Z.to_nat pc') = true).
  { pose proof (boundary_next code (Z.to_nat pc) inst Hbd Hi) as Hn. cbn zeta in Hn. unfold pc' in *.
    destruct (_ =? _); [replace (Z.to_nat (pc + 2)) with (S (S (Z.to_nat pc))) by lia|replace (Z.to_nat (pc + 1)) with (S (Z.to_nat pc)) by lia];
      apply Hn; unfold zlen in *; lia. }
  assert (Hno2 : ∀ x, b < x < pc' → begins bb x = false).
  { intros x Hx. destruct (decide (x ≤ pc)); [apply Hno; lia|]. unfold pc' in Hx. destruct (Z.eqb_spec (i_opcode inst) (op_code EBPF_OP_LDDW)) as [Ho|]; [|lia].
    replace x with (Z.of_nat (S (Z.to_nat pc))) by lia. by eapply half_not_begin. }
  assert (pc < pc') by (unfold pc'; destruct (_ =? _); lia).
  destruct (begins bb pc') eqn:Eb.
  - right. assert (contrib b pc' b rest2 = []) as Hnil by (apply contrib_new; [lia|done]). rewrite Hnil in *.
    destruct (block_pcs_next bb b pc') as (l1&l2&Hl); [lia|rewrite bb_len; lia|done..|]. split.
    + rewrite (Htl _ _ _ Hl). unfold has_terminator. by rewrite HG, last_snoc.
    + apply elem_of_block_pcs. rewrite bb_len. split; [lia|done].
  - left. split; [lia|]. split; [done|]. exists b, (pre ++ [(gcode, None)]), tl. rewrite <- Hrest2. split; [lia|]. split; [done|]. split.
    { intros x Hx. destruct (decide (x = pc')) as [->|]; [done|]. apply Hno2. lia. }
    split; [by rewrite <- app_assoc|]. split; [done|]. done.
Qed.

(** The instruction at a boundary is valid. *)
Lemma boundary_valid k inst : is_boundary code k = true → code !! k = Some inst →
  ∃ j o, validate_inst vm0 code (Z.of_nat k) inst = VOk j ∧ find_op ubpf_ops (i_opcode inst) = Some o.
Proof.
  intros Hb Hi. pose proof (lookup_lt_Some _ _ _ Hi). destruct (validate_slots _ _ Hval (Z.of_nat k)) as (x&Hx&Hv); [unfold zlen; lia|].
  rewrite Nat2Z.id, Hi in Hx. injection Hx as <-. destruct Hv as [[j Hj]|Hz0].
  - exists j. destruct (find_op ubpf_ops (i_opcode inst)) as [o|] eqn:Eo; [by exists o|].
    unfold validate_inst, validate_op in Hj. by rewrite Eo in Hj.
  - destruct (Hemit k inst Hb Hi) as (_&_&r&Hr). unfold LlvmRefine.emitted, emitInst in Hr. rewrite Hz0 in Hr.
    by vm_compute in Hr.
Qed.

(** A round of the interpreter at a position, and the group of the instruction. *)
Lemma jit_sim_step s js gs W : related s js → at_pos (st_pc s) gs → agrees_at code arity W s = true → Forall (written js) W →
  ∃ inst o t gcode, code !! Z.to_nat (st_pc s) = Some inst ∧ i_opcode inst = op_code o ∧ 0 ≤ i_dst inst ≤ 10 ∧
    emitted (st_pc s) inst (drop (S (Z.to_nat (st_pc s))) code) = inr (t, gcode) ∧ (gcode, t) ≠ ([], None) ∧
    sim_outcome je s js inst o (gcode, t) (exec_step uvm mem mem_len stack s).
Proof.
  intros Hrel Hpos Hag0 HW. destruct Hpos as (Hr&Hbd&_). pose proof code_len as Hlen.
  destruct (lookup_lt_is_Some_2 code (Z.to_nat (st_pc s))) as [inst Hi]; [unfold zlen in Hr; lia|].
  destruct (Hemit _ _ Hbd Hi) as (Hd&Hs&[t gcode]&He). rewrite Z2Nat.id in He by lia.
  destruct (boundary_valid _ _ Hbd Hi) as (j&o&Hv&Hop). rewrite Z2Nat.id in Hv by lia. pose proof (find_op_Some _ _ _ Hop) as Ho.
  unfold agrees_at in Hag0. rewrite Hi, <- Ho, find_op_code in Hag0. apply andb_true_iff in Hag0 as [[Hag Hal]%andb_true_iff Hrd].
  assert (Hrd' : ∀ r, r ∈ reads arity inst o → written js r).
  { intros r Hin. rewrite forallb_forall in Hrd. apply list_elem_of_In, Hrd in Hin. apply bool_decide_eq_true in Hin. by eapply Forall_forall in HW. }
  assert (Hiw : inst_wf inst) by (by eapply Forall_lookup_1).
  assert (Hlddw : o = EBPF_OP_LDDW → i_src inst = 0 ∧ st_pc s + 2 < 2 ^ 16 ∧
    ubpf_fetch_instruction uvm (st_pc s + 1) = head (drop (S (Z.to_nat (st_pc s))) code)).
  { intros Hl. split; [by eapply (valid_lddw_src code vm0 (st_pc s) inst j o)|].
    destruct (valid_lddw code vm0 (st_pc s) inst j o Hv Hop Hl) as (n&Hn&_). pose proof (lookup_lt_Some _ _ _ Hn). unfold zlen in *. split; [lia|].
    rewrite (ld_fetch _ _ Hld) by (unfold UBPF_MAX_INSTS; lia). rewrite Hn. symmetry. rewrite <- lookup_0_head || rewrite head_lookup.
    rewrite lookup_drop. replace (S (Z.to_nat (st_pc s)) + 0)%nat with (Z.to_nat (st_pc s + 1)) by lia. done. }
  assert (Hcall : o = EBPF_OP_CALL → i_src inst = 0 ∧ 0 ≤ i_imm inst < MAX_EXT_FUNCS).
  { intros Hc. assert (i_src inst = 0) as Hs0.
    { rewrite Hc in Hag. cbn [jit_agrees] in Hag. lia. }
    split; [done|]. destruct (valid_call code vm0 (st_pc s) inst j o Hv Hop Hc) as [u Hu]. unfold validate_call in Hu. rewrite Hs0 in Hu. cbn [Z.eqb] in Hu.
    destruct (_ || _) eqn:E; [done|]. bool_to_prop. lia. }
  exists inst, o, t, gcode. split; [done|]. split; [done|]. split; [destruct Hiw as (?&?&?&?); lia|]. split; [done|]. split.
  - eapply emitInst_visible; [exact Hop| |exact He]. intros [Hl|Hc]; [by apply Hlddw|by apply Hcall].
  - rewrite (loaded_step uvm code mem mem_len stack s inst o Hld) by (done || lia).
    destruct Hiw as (?&?&?&?). eapply (emitInst_sim je uvm mem mem_len stack jvm _ _ _ _ s js inst _ o); [done|lia|done|done|lia|lia|exact Hrd'|by eapply find_op_elem|exact He|done|done|done|].
    intros Hc. destruct (Hcall Hc) as [_ Himm]. unfold MAX_EXT_FUNCS in *. split; [rewrite Hunwind; lia|]. rewrite u32_small by lia. intros f Hf. by apply Hhelp.
Qed.

Lemma jit_loop_step fuel gs js gs' js' : jit_step je m gs js = JRun gs' js' → jit_loop je m (S fuel) gs js = jit_loop je m fuel gs' js'.
Proof. intros Hs. cbn [jit_loop]. by rewrite Hs. Qed.

Lemma exit_returns js : regs_ok js → written js 0 → jit_loop je m 1 (jm_exit m) js = JDone (jreg js 0) js.
Proof.
  intros Hok Hw. rewrite Hexit. cbn [jit_loop jit_step exitCode]. unfold exec_group.
  cbn [fst snd exec_instrs exec_instr load_place]. rewrite (jreg_lookup js 0 Hok) by (done || lia). cbn [mbind option_bind width].
  rewrite Z.mod_small by (apply jreg_u64; [done|lia]). done.
Qed.

(** Behind the code nothing is fetched. *)
Lemma fetch_outside s : zlen code ≤ st_pc s < 2 ^ 16 → ubpf_fetch_instruction uvm (st_pc s) = None.
Proof.
  intros Hp. pose proof (zlen_nonneg code). rewrite (ld_fetch _ _ Hld) by (unfold UBPF_MAX_INSTS; lia). apply lookup_ge_None_2. unfold zlen in *. lia.
Qed.

(** The registers that are written after an instruction. *)
Lemma writes_range inst o r : 0 ≤ i_dst inst ≤ 10 → r ∈ writes inst o → 0 ≤ r ≤ 10.
Proof.
  intros Hd. unfold writes. destruct (is_jump_op o); [by intros ?%not_elem_of_nil|].
  destruct o; cbn [store_size]; rewrite ?list_elem_of_singleton; first [by intros ->|by intros ?%not_elem_of_nil].
Qed.
Lemma written_at_ok s js js1 inst o W : code !! Z.to_nat (st_pc s) = Some inst → i_opcode inst = op_code o → 0 ≤ i_dst inst ≤ 10 →
  Forall (λ r, 0 ≤ r ≤ 10) W → Forall (written js) W → keeps js inst o js1 →
  Forall (λ r, 0 ≤ r ≤ 10) (written_at code W s) ∧ Forall (written js1) (written_at code W s).
Proof.
  intros Hi Ho Hd HR HW Hk. unfold written_at. rewrite Hi, Ho, find_op_code. rewrite !Forall_app, !Forall_forall in *.
  split; split; eauto using writes_range; intros r Hr; apply Hk; eauto using writes_range.
Qed.

(** The run of the function follows the run of the interpreter to its end. *)
Lemma sim_loop fuel : ∀ n W s js gs v s', related s js → at_pos (st_pc s) gs → Forall (λ r, 0 ≤ r ≤ 10) W → Forall (written js) W →
  agrees_run uvm code arity mem mem_len stack n W s = true →
  exec_loop uvm mem mem_len stack fuel s = Return v s' →
  ∃ fuel' js', jit_loop je m fuel' gs js = JDone v js' ∧ j_mem js' = st_mem s'.
Proof.
  induction fuel as [|fuel IH]; intros n W s js gs v s' Hrel Hpos HR HW Hag Hrun; [done|]. destruct n as [|n]; [done|].
  cbn [agrees_run] in Hag. apply andb_true_iff in Hag as [Hag Hag1].
  destruct (jit_sim_step s js gs W Hrel Hpos Hag HW) as (inst&o&t&gcode&Hi&Ho&Hd&He&Hne&Hsim).
  destruct (pos_step _ _ _ _ _ Hpos Hi He Hne) as (gs'&->&Hfall). cbn zeta in Hfall.
  cbn [exec_loop] in Hrun. destruct (exec_step uvm mem mem_len stack s) as [s1|v1 s1|s1|u] eqn:Est; cbn [sim_outcome] in Hsim; try done.
  - destruct Hsim as (js1&nx&Hx&Hrel1&Hkeep&Hto).
    destruct (written_at_ok _ _ _ _ _ _ Hi Ho Hd HR HW Hkeep) as [HR1 HW1].
    assert (Hgo : ∀ gs1 k, at_pos (st_pc s1) gs1 → (∀ f, jit_loop je m (k + f) ((gcode, t) :: gs') js = jit_loop je m f gs1 js1) →
      ∃ fuel' js', jit_loop je m fuel' ((gcode, t) :: gs') js = JDone v js' ∧ j_mem js' = st_mem s').
    { intros gs1 k Hp Hk. destruct (IH n _ s1 js1 gs1 v s' Hrel1 Hp HR1 HW1 Hag1 Hrun) as (f&js'&Hf&Hm). exists (k + f)%nat, js'. by rewrite Hk. }
    destruct Hto as [->|[-> Hpc1]].
    + pose proof (emitInst_targets _ _ _ _ _ _ _ _ _ _ _ _ He) as Ht. pose proof (exec_group_target _ _ _ _ _ _ _ Ht Hx) as Hin.
      apply elem_of_list_to_set in Hin. destruct (enter_block _ Hin (begin_boundary _ Hin)) as (gs1&Hb&Hp).
      apply (Hgo gs1 1%nat Hp). intros f. apply jit_loop_step. cbn [jit_step]. by rewrite Hx, Hb.
    + pose proof (exec_group_fall _ _ _ _ _ Hx) as ->. rewrite <- Hpc1 in Hfall.
      assert (Hlt : st_pc s1 < zlen code).
      { destruct (Z.lt_ge_cases (st_pc s1) (zlen code)); [done|]. exfalso. pose proof code_len.
        destruct Hpos as (Hr&_). assert (st_pc s1 < 2 ^ 16).
        { rewrite Hpc1. destruct (Z.eqb_spec (i_opcode inst) (op_code EBPF_OP_LDDW)) as [El|]; [|lia].
          destruct (emitInst_lddw_next _ _ _ _ _ _ _ _ _ _ El He) as [nx Hn]. rewrite head_lookup, lookup_drop in Hn.
          apply lookup_lt_Some in Hn. unfold zlen in *. lia. }
        destruct fuel as [|fuel]; [done|]. cbn [exec_loop] in Hrun. unfold exec_step in Hrun.
        rewrite (fetch_outside s1) in Hrun by lia. done. }
      destruct (Hfall eq_refl Hlt) as [Hp|[-> Hin]].
      * apply (Hgo gs' 1%nat Hp). intros f. apply jit_loop_step. cbn [jit_step]. by rewrite Hx.
      * destruct (enter_block _ Hin (begin_boundary _ Hin)) as (gs1&Hb&Hp). apply (Hgo gs1 2%nat Hp). intros f.
        rewrite (jit_loop_step (S f) _ _ [([], Some (TBr (BInst (st_pc s1))))] js1) by (cbn [jit_step]; by rewrite Hx).
        apply jit_loop_step. cbn [jit_step]. cbn [exec_group]. unfold exec_group. cbn [fst snd exec_instrs mbind option_bind exec_term]. by rewrite Hb.
  - destruct Hsim as (js1&Hx&Hw&Hv&Hrel1). injection Hrun as -> ->. exists 2%nat, js1. split; [|apply (rel_mem _ _ Hrel1)].
    rewrite (jit_loop_step 1 _ _ (jm_exit m) js1) by (cbn [jit_step]; by rewrite Hx). rewrite (exit_returns js1) by (done || by eapply rel_ok). by rewrite Hv.
Qed.
End run.
