(* ===== verification/LlvmEquiv.v ===== *)
(** * The compiler and the interpreter

    The theorem that compiled programs do what the interpreter does, from the loading of a program in both
    virtual machines to the value that a run returns; and what holds where the two are not the same. *)

From stdpp Require Import base numbers list strings pretty gmap.
From S2P Require Import Prelude.
From S2P Require Import EbpfIsa.
From S2P Require Import UbpfVm.
From S2P Require Import UbpfSafe.
From S2P Require Import UbpfCompat.
From S2P Require Import LlvmIr.
From S2P Require Import LlvmJit.
From S2P Require Import LlvmWp.
From S2P Require Import LlvmSim.
From S2P Require Import LlvmRefine.

(** ** The names of helpers *)

(** The number that a name ends with. *)
Fixpoint decimal (s : string) (acc : Z) : Z :=
  match s with EmptyString => acc | String c s => decimal s (acc * 10 + (Z.of_N (Ascii.N_of_ascii c) - 48)) end.

Lemma decimal_pad4 i : 0 ≤ i < LLVM_MAX_EXT_FUNCS → decimal (pad4 (pretty (Z.to_N i))) 0 = i.
Proof.
  assert (Hall : forallb (λ i, decimal (pad4 (pretty (Z.to_N i))) 0 =? i) (seqZ 0 LLVM_MAX_EXT_FUNCS) = true) by (by vm_compute).
  intros Hi. rewrite forallb_forall in Hall. apply Z.eqb_eq, Hall, list_elem_of_In, elem_of_seqZ. lia.
Qed.

Lemma ext_func_sym_inj i j : 0 ≤ i < LLVM_MAX_EXT_FUNCS → 0 ≤ j < LLVM_MAX_EXT_FUNCS → ext_func_sym i = ext_func_sym j → i = j.
Proof.
  intros Hi Hj H. unfold ext_func_sym in H. injection H as H. change (pad4 (pretty (Z.to_N i)) = pad4 (pretty (Z.to_N j))) in H. rewrite <- (decimal_pad4 i Hi), <- (decimal_pad4 j Hj). by rewrite H.
Qed.

Lemma link_ext_from fs rest : ∀ k i ef, 0 ≤ k → k + zlen fs ≤ LLVM_MAX_EXT_FUNCS → fs !! i = Some (Some ef) →
  link (omap (λ '(i, f), (λ f, (ext_func_sym i, ef_fn f)) <$> f) (zip (seqZ k (zlen fs)) fs) ++ rest) (ext_func_sym (k + Z.of_nat i)) = Some (ef_fn ef).
Proof.
  unfold link. induction fs as [|f fs IH]; intros k i ef Hk Hn Hi; [done|]. rewrite zlen_cons in *. pose proof (zlen_nonneg fs).
  rewrite seqZ_cons by lia. replace (Z.pred (zlen fs + 1)) with (zlen fs) by lia. cbn [zip_with omap list_omap].
  destruct i as [|i].
  - injection Hi as ->. cbn [fmap option_fmap option_map app list_find]. rewrite Z.add_0_r, decide_True by done. done.
  - assert (Hlt : Z.of_nat i < zlen fs) by (apply lookup_lt_Some in Hi; unfold zlen; cbn in Hi; lia).
    specialize (IH (Z.succ k) i ef ltac:(lia) ltac:(lia) Hi). replace (k + Z.of_nat (S i)) with (Z.succ k + Z.of_nat i) by lia.
    destruct f as [f|]; [|exact IH]. cbn [fmap option_fmap option_map app list_find]. rewrite decide_False.
    + destruct (list_find _ _) as [[n p]|]; [|done]. exact IH.
    + cbn. intros He. apply ext_func_sym_inj in He; lia.
Qed.

Lemma link_ext vm i ef : zlen (lv_ext_funcs vm) ≤ LLVM_MAX_EXT_FUNCS → 0 ≤ i → lv_ext_funcs vm !! Z.to_nat i = Some (Some ef) →
  link (ext_symbols vm ++ lddw_symbols vm) (ext_func_sym i) = Some (ef_fn ef).
Proof.
  intros Hn Hi Hf. pose proof (link_ext_from (lv_ext_funcs vm) (lddw_symbols vm) 0 (Z.to_nat i) ef ltac:(lia) ltac:(lia) Hf) as Hl.
  by rewrite Z.add_0_l, Z2Nat.id in Hl by lia.
Qed.

(** ** The module and its start *)

Lemma generateModule_inv `{!Llvm} vm ext lddw patch args cuda m : generateModule vm ext lddw patch args cuda = inr m →
  ∃ bb, let insts := lv_instructions vm in let ret := ret_pcs insts (block_pcs bb) in
    0 < zlen insts < 2 ^ 16 ∧ split_blocks insts = Some bb ∧
    jm_setup m = [(setupCode args, Some (TBr (BInst 0)))] ∧ jm_exit m = [exitCode cuda] ∧
    jm_blocks m = add_br ((λ b, (b, contrib vm ext lddw patch bb ret b 0 0 insts)) <$> block_pcs bb) ∧
    (∀ k inst, is_boundary insts k = true → insts !! k = Some inst →
       i_dst inst ≤ 10 ∧ i_src inst ≤ 10 ∧ ∃ r, emitted vm ext lddw patch bb ret (Z.of_nat k) inst (drop (S k) insts) = inr r).
Proof.
  unfold generateModule. destruct (Z.eqb_spec (zlen (lv_instructions vm)) 0); [done|].
  destruct (Z.leb_spec (2 ^ 16) (zlen (lv_instructions vm))); [done|]. destruct (split_blocks (lv_instructions vm)) as [bb|]; [|done].
  destruct (gen_loop _ _ _ _ _ _ _ _ _ _) as [|blocks] eqn:Eg; [done|]. destruct (emitLocalRet _ []) as [|[t c]]; [done|].
  destruct (_ && _); [done|]. intros [= <-]. exists bb. pose proof (zlen_nonneg (lv_instructions vm)). split; [lia|]. split; [done|].
  apply gen_loop_contrib in Eg as [-> Hk]. cbn [jm_setup jm_exit jm_blocks]. split; [done|]. split; [done|]. split.
  - unfold extend. by rewrite <- list_fmap_compose.
  - intros k inst Hb Hi. specialize (Hk k inst Hb Hi). by rewrite Z.add_0_l in Hk.
Qed.

Section start.
Context `{!Llvm} (je : jenv) (mem mem_len stack : Z) (regs : list Z) (m : memory).
Context (Hargs : je_args je = [mem; mem_len]) (Hmem : in_u64 mem) (Hlen : in_u64 mem_len).
Context (Hregs : length regs = 16%nat).
Context (Hstack : u64 (je_stack je + 8 * (STACK_SIZE * MAX_LOCAL_FUNC_DEPTH)) = u64 (stack + UBPF_STACK_SIZE)).

(** The setup block writes r1, r2 and r10 as the interpreter does at its start. *)
Lemma setup_start slots : ∃ js,
  exec_group je (JState (replicate 11 None) m 0 slots) (setupCode true, Some (TBr (BInst 0))) = Some (js, JGoto (BInst 0)) ∧
  related (exec_start mem mem_len stack regs m) js ∧ Forall (written js) [1; 2; 10].
Proof.
  set (sp := u64 (stack + UBPF_STACK_SIZE)).
  exists (JState [None; Some mem; Some mem_len; None; None; None; None; None; None; None; Some sp] m 0 slots). split_and!.
  - unfold exec_group, setupCode. change (getInt64 0) with (Const I64 0).
    cbn [fst snd app exec_instrs exec_instr eval_int eval mbind option_bind lookup list_lookup store_place width]. rewrite Hstack. fold sp.
    cbn -[sp]. by rewrite Hargs.
  - unfold exec_start. split; cbn [j_mem st_mem j_cnt st_frames st_reg]; try done.
    + intros r Hr Hw. unfold reg. cbn [st_reg]. assert (r = 1 ∨ r = 2 ∨ r = 10) as Hr'.
      { assert (r = 0 ∨ r = 1 ∨ r = 2 ∨ r = 3 ∨ r = 4 ∨ r = 5 ∨ r = 6 ∨ r = 7 ∨ r = 8 ∨ r = 9 ∨ r = 10) as Hc by lia.
        repeat destruct Hc as [-> | Hc]; subst; auto; by destruct Hw. }
      destruct Hr' as [-> |[-> | ->]]; unfold jreg; cbn [j_reg].
      * by rewrite !list_lookup_total_insert_ne, list_lookup_total_insert_eq by (rewrite ?length_insert; lia).
      * by rewrite !list_lookup_total_insert_ne, list_lookup_total_insert_eq by (rewrite ?length_insert; lia).
      * by rewrite list_lookup_total_insert_eq by (rewrite ?length_insert; lia).
    + split; [done|]. repeat constructor; try apply Hmem; try apply Hlen; apply u64_bound.
    + by rewrite !length_insert.
  - repeat constructor; by eexists.
Qed.
End start.

(** ** The theorem *)

(** Both machines have the same helpers. *)
Definition same_helpers (uvm : ubpf_vm) (jvm : llvmbpf_vm) : Prop :=
  ∀ i fn, 0 ≤ i < MAX_EXT_FUNCS → dispatch uvm i = Some fn → ∃ n, lv_ext_funcs jvm !! Z.to_nat i = Some (Some (ExternalFunction n fn)).

(** C1 (equivalence). The compiled function refines the interpreter. Let the same program, with the offsets of its
    calls and exits zero, be loaded into uBPF and compiled, with the same helpers, none of which may unwind the stack, and the same memory, stack
    included. Whenever the interpreter runs it to its end with value [v], and no instruction of the run is one on which
    the two differ ([jit_agrees]: local calls, helper 12, divisions by zero, ...), none loads or stores at an address
    that is not a multiple of the size, and none reads a register that has not been written (helper [i] reads its first
    [arity i] arguments), the compiled function returns [v] and leaves the same memory, for every LLVM that obeys the
    language reference, whatever undefined arguments of helpers are. *)
Theorem jit_refines_interpreter `{!Llvm} vm0 uvm code base fm e jvm arity mem mem_len stack jstack undef regs m n fuel v s :
  Forall inst_wf code → Forall reserved_zero code →
  ubpf_load vm0 code (8 * zlen code) (Some base) fm = (Ok tt, e, uvm) → vm_unwind_stack_extension_index vm0 = -1 →
  lv_instructions jvm = code → lv_jitted jvm = None → (lv_compile jvm).1 ≠ None →
  zlen (lv_ext_funcs jvm) ≤ LLVM_MAX_EXT_FUNCS → same_helpers uvm jvm →
  (∀ i fn, dispatch uvm i = Some fn → uses_args fn (arity i)) → length regs = 16%nat → in_u64 mem → in_u64 mem_len →
  u64 (jstack + 8 * (STACK_SIZE * MAX_LOCAL_FUNC_DEPTH)) = u64 (stack + UBPF_STACK_SIZE) →
  agrees_run uvm code arity mem mem_len stack n [1; 2; 10] (exec_start mem mem_len stack regs m) = true →
  ubpf_exec uvm mem mem_len stack fuel regs m = Return v s →
  ∃ fuel' js, (lv_exec jvm mem mem_len jstack undef fuel' m).1 = Some (JDone v js) ∧ j_mem js = st_mem s.
Proof.
  intros Hwf Hres Hload Hun Hcode Hj Hcomp Hext Hsame Harity Hregs Hmem Hlen Hstack Hag Hrun.
  pose proof (load_loaded _ _ _ _ _ _ Hwf Hload) as Hld. apply ubpf_load_inv in Hload as [Hval [fs Huvm]].
  unfold lv_compile, do_jit_compile in Hcomp. rewrite Hj in Hcomp.
  destruct (generateModule _ _ _ _ _ _) as [|jm] eqn:Eg; [done|]. clear Hcomp.
  pose proof (generateModule_inv _ _ _ _ _ _ _ Eg) as (bb&Hn&Hsp&Hset&Hex&Hbl&Hem). rewrite Hcode in *.
  set (je := JEnv [mem; mem_len] jstack (link (ext_symbols jvm ++ lddw_symbols jvm)) undef).
  destruct (setup_start je mem mem_len stack regs m eq_refl Hmem Hlen Hregs Hstack (replicate (64 * 5) None)) as (js0&Hx&Hrel&HW).
  assert (Hhelp : ∀ i fn, 0 ≤ i < MAX_EXT_FUNCS → dispatch uvm i = Some fn →
    uses_args fn (arity i) ∧ je_ext je (ext_func_sym i) = Some fn).
  { intros i fn Hi Hd. split; [by apply Harity|]. destruct (Hsame i fn Hi Hd) as [name Hf]. by apply (link_ext jvm i (ExternalFunction name fn) Hext); [lia|]. }
  assert (Hun' : vm_unwind_stack_extension_index uvm = -1) by (by rewrite Huvm).
  assert (Hbeg : 0 ∈ block_pcs bb).
  { apply elem_of_block_pcs. rewrite (bb_len uvm code bb Hld Hwf Hsp). split; [lia|]. eapply begins_zero; [done|lia]. }
  destruct (enter_block uvm code jvm _ _ bb jm Hld Hwf Hsp Hbl 0 Hbeg) as (gs&Hb&Hpos).
  { destruct code; [unfold zlen in Hn; cbn in Hn; lia|done]. }
  unfold ubpf_exec in Hrun. destruct (vm_insts uvm); [|done].
  destruct (sim_loop uvm vm0 code mem mem_len stack jvm _ _ je bb jm Hld Hval Hwf Hres Hsp Hbl Hex Hem Hun' arity Hhelp fuel
    n [1; 2; 10] _ js0 gs v s Hrel Hpos ltac:(repeat constructor; lia) HW Hag Hrun) as (f'&js'&Hf&Hm).
  exists (S f'), js'. split; [|done]. unfold lv_exec, lv_compile, do_jit_compile. rewrite Hj, Eg. cbn [fst]. f_equal.
  unfold jit_exec. rewrite Hset. fold je. cbn [jit_loop jit_step]. rewrite Hx. by rewrite Hb.
Qed.

(** A loop, a division, the stack and a helper. *)
Definition sum_code : list ebpf_inst :=
  [mk EBPF_OP_MOV64_IMM 3 0 0 10; mk EBPF_OP_MOV64_IMM 0 0 0 0; mk EBPF_OP_ADD64_REG 0 3 0 0; mk EBPF_OP_SUB64_IMM 3 0 0 1;
   mk EBPF_OP_JNE_IMM 3 0 (-3) 0; mk EBPF_OP_STXDW 10 0 (-8) 0; mk EBPF_OP_LDXDW 1 10 (-8) 0; mk EBPF_OP_DIV64_IMM 1 0 0 5;
   mk EBPF_OP_MOV64_IMM 2 0 0 31; mk EBPF_OP_CALL 0 0 0 1; mk EBPF_OP_EXIT 0 0 0 0].
Definition sum_uvm0 : ubpf_vm := (ubpf_register ubpf_create 1 None (Some sum_helper)).2.
Definition sum_uvm : ubpf_vm := (ubpf_load sum_uvm0 sum_code 88 (Some 4096) true).2.
(** A machine with two places for helpers. *)
Definition sum_jvm0 : llvmbpf_vm := lv_set lv_new None [] (replicate 2 None) None.
Definition sum_jvm : llvmbpf_vm := (lv_load_code (lv_register_external_function sum_jvm0 1 "sum" sum_helper).2 sum_code 88).2.
Definition sum_end : exec_state :=
  match ubpf_exec sum_uvm 0 0 65536 100 (replicate 16 7) (zeros 65536 512) with Return _ s => s | _ => start_state 0 end.

Lemma sum_dispatch i fn : dispatch sum_uvm i = Some fn → Z.to_nat i = 1%nat ∧ fn = sum_helper.
Proof.
  assert (Hf : vm_ext_funcs sum_uvm = <[1%nat := Some sum_helper]> (replicate 64 None)) by (by vm_compute).
  unfold dispatch, ubpf_default_external_dispatcher. change (vm_dispatcher sum_uvm) with (Some DefaultDispatcher). cbn iota.
  rewrite Hf. destruct (decide (Z.to_nat i = 1%nat)) as [->|Hne]; [by intros [= <-]|].
  rewrite list_lookup_insert_ne by lia. destruct (replicate 64 None !! Z.to_nat i) as [x|] eqn:E; [|done].
  apply lookup_replicate in E as [-> _]. done.
Qed.
Lemma sum_helpers : same_helpers sum_uvm sum_jvm.
Proof. intros i fn _ [Hi ->]%sum_dispatch. rewrite Hi. exists "sum"%string. by vm_compute. Qed.
Lemma sum_arity i fn : dispatch sum_uvm i = Some fn → uses_args fn 2.
Proof.
  intros [_ ->]%sum_dispatch [|x [|y l]] [|x' [|y' l']] m Hl Hl' H; try done. cbn in H. by injection H as -> ->.
Qed.

Lemma jit_refines_interpreter_witness :
  ∃ fuel' js, (@lv_exec ref_llvm sum_jvm 0 0 49664 (λ _ _, 99) fuel' (zeros 65536 512)).1 = Some (JDone 42 js) ∧
    j_mem js = st_mem sum_end.
Proof.
  apply (@jit_refines_interpreter ref_llvm sum_uvm0 sum_uvm sum_code 4096 true None sum_jvm (λ _, 2) 0 0 65536 49664
    (λ _ _, 99) (replicate 16 7) (zeros 65536 512) 100 100 42 sum_end).
  - by apply demo_wf.
  - repeat constructor; intros [?|?]; done.
  - by vm_compute.
  - done.
  - by vm_compute.
  - done.
  - by vm_compute.
  - by vm_compute.
  - exact sum_helpers.
  - exact sum_arity.
  - done.
  - done.
  - done.
  - done.
  - by vm_compute.
  - by vm_compute.
Defined.
