(* ===== verification/LlvmCalls.v ===== *)
(** * Local functions, divisions and reloads in compiled programs

    Calls and returns of local functions in the compiled code: what a call saves is what the return restores.
    And four places where compiled programs do not do what they should: nothing bounds the depth of calls, a
    division by zero is executed before its result is replaced, a load that is not aligned is undefined, and a
    program that is loaded after a run is not the one that runs next. *)

From stdpp Require Import base numbers list strings pretty gmap.
From S2P Require Import Prelude.
From S2P Require Import EbpfIsa.
From S2P Require Import UbpfVm.
From S2P Require Import UbpfSafe.
From S2P Require Import LlvmIr.
From S2P Require Import LlvmJit.
From S2P Require Import LlvmWp.
From S2P Require Import LlvmSim.

(** ** Slots of the call stack *)

Section slots.
Context `{!Llvm} (je : jenv).

Definition set_slot (js : jstate) (k : Z) (v : rv) : jstate :=
  JState (j_reg js) (j_mem js) (j_cnt js) (<[Z.to_nat k := Some v]> (j_slots js)).
Definition set_cnt (js : jstate) (c : Z) : jstate := JState (j_reg js) (j_mem js) c (j_slots js).

Lemma slots_set js k v : zlen (j_slots (set_slot js k v)) = zlen (j_slots js).
Proof. unfold zlen. cbn. by rewrite length_insert. Qed.

Lemma emits_load_cnt js env : emits je js env (CreateLoad I64 PCnt) (post_val je js I64 (j_cnt js)).
Proof. by eapply emits_create. Qed.
Lemma emits_store_cnt js env v z : evals je env v I64 z → emits je js env (CreateStore v PCnt) (λ _ js' _, js' = set_cnt js z).
Proof. intros Hv. eapply emits_create_; [|done]. cbn [exec_instr]. unfold evals in Hv. by rewrite Hv. Qed.
Lemma emits_store_slot js env v r pos k : eval je env v = Some r → evals je env pos I64 k → 0 ≤ k < zlen (j_slots js) →
  emits je js env (CreateStore v (PSlot pos)) (λ _ js' _, js' = set_slot js k r).
Proof.
  intros Hv Hp Hk. eapply emits_create_; [|done]. cbn [exec_instr]. rewrite Hv. cbn [mbind option_bind store_place].
  rewrite (evals_int _ _ _ _ _ Hp). cbn [mbind option_bind]. assert ((0 <=? k) && (k <? zlen (j_slots js)) = true) as -> by lia. by destruct r.
Qed.
Lemma emits_load_slot js env t pos k r : evals je env pos I64 k → j_slots js !! Z.to_nat k = Some (Some r) →
  emits je js env (CreateLoad t (PSlot pos)) (λ v js' env', js' = js ∧ eval je env' v = Some r).
Proof.
  intros Hp Hs. eapply emits_create_rv; [cbn [exec_instr load_place]; rewrite (evals_int _ _ _ _ _ Hp); cbn [mbind option_bind]; by rewrite Hs|].
  by intros.
Qed.

(** A register gets a value, defined or not. *)
Definition j_put (js : jstate) (r : Z) (z : option Z) : jstate := JState (<[Z.to_nat r := z]> (j_reg js)) (j_mem js) (j_cnt js) (j_slots js).

Lemma reg_lookup js r : regs_ok js → 0 ≤ r ≤ 10 → ∃ z, j_reg js !! Z.to_nat r = Some z ∧ from_option in_u64 True z.
Proof.
  intros Hok Hr. destruct (lookup_lt_is_Some_2 (j_reg js) (Z.to_nat r)) as [z Hz]; [destruct Hok; lia|]. exists z. split; [done|by eapply reg_u64].
Qed.
Lemma put_ok js r z : regs_ok js → from_option in_u64 True z → regs_ok (j_put js r z).
Proof. intros [Hl Hf] Hz. split; cbn [j_put j_reg]; [by rewrite length_insert|by apply Forall_insert]. Qed.
Lemma emits_store_any js env v r z : regs_ok js → 0 ≤ r ≤ 10 → eval je env v = Some (rv_of z) →
  emits je js env (CreateStore v (PReg r)) (λ _ js' _, js' = j_put js r z).
Proof.
  intros Hok Hr Hv. destruct (reg_lookup js r Hok Hr) as (old&Hold&_). eapply emits_create_; [|done]. cbn [exec_instr]. rewrite Hv.
  destruct z as [z|]; cbn [rv_of mbind option_bind store_place]; by rewrite Hold.
Qed.

(** An element below the top. *)
Lemma emits_pos js env top c n : evals je env top I64 c → ty_of top = I64 → 0 ≤ n ≤ c → c < 2 ^ 64 →
  emits je js env (CreateBinOp Sub top (getInt64 n)) (post_val je js I64 (c - n)).
Proof.
  intros Ht Hty Hn Hc. rewrite <- (Z.mod_small (c - n) (2 ^ 64)) by lia.
  eapply emits_binop; [exact Ht| |done|]; [apply evals_const'; by apply u64_small; lia|apply ll_sub].
Qed.

Lemma emits_save js env top c i z : regs_ok js → j_reg js !! Z.to_nat i = Some z → evals je env top I64 c → ty_of top = I64 →
  6 ≤ i ≤ 9 → 5 ≤ c ≤ zlen (j_slots js) → c < 2 ^ 64 →
  emits je js env (emitSaveReg top i) (λ _ js' _, js' = set_slot js (c - (i - 4)) (rv_of z)).
Proof.
  intros Hok Hz Ht Hty Hi Hc Hc2. unfold emitSaveReg.
  eapply emits_bind, emits_mono; [apply emits_load_any; [exact Hz|by eapply reg_u64]|]. intros v js' env' [-> Hv] [x ->].
  eapply emits_bind, emits_mono; [apply (emits_pos _ _ _ c); [by apply evals_app|done|lia|lia]|]. intros p js' env' (->&Hp&_) [y ->].
  eapply emits_store_slot; [exact (eval_app _ _ _ _ _ Hv)|exact Hp|lia].
Qed.

Lemma emits_restore js env top c i z : regs_ok js → evals je env top I64 c → ty_of top = I64 → 6 ≤ i ≤ 9 → 5 ≤ c → c < 2 ^ 64 →
  j_slots js !! Z.to_nat (c - (i - 4)) = Some (Some (rv_of z)) →
  emits je js env (emitRestoreReg top i) (λ _ js' _, js' = j_put js i z).
Proof.
  intros Hok Ht Hty Hi Hc Hc2 Hs. unfold emitRestoreReg.
  eapply emits_bind, emits_mono; [apply (emits_pos _ _ _ c); [done|done|lia|lia]|]. intros p js' env' (->&Hp&_) _.
  eapply emits_bind, emits_mono; [by eapply emits_load_slot|]. intros v js' env'' [-> Hv] _. eapply emits_store_any; [done|lia|done].
Qed.
End slots.

(** ** Calls and returns *)

(** Calls of the builder that do not succeed. *)
Definition fails {A} (e : emit A) : Prop := ∀ code, ∃ x, e code = inl x.
Lemma fails_seq {A B} (e : emit A) (f : A → emit B) : (∀ a, fails (f a)) → fails (e ≫= f).
Proof. intros Hf code. unfold mbind, emit_bind. destruct (e code) as [|[a c]]; [by eexists|apply Hf]. Qed.

Lemma local_call_inv bs ret pc inst r : emitLocalCall bs ret pc inst [] = inr r → u16 (pc + 1) ∈ ret ∧ u16 (pc + 1 + i_imm inst) ∈ bs.
Proof.
  intros He. split; apply dec_stable; intros Hn; assert (Hf : fails (emitLocalCall bs ret pc inst)); try (by destruct (Hf []) as [x Hx]; rewrite Hx in He).
  - unfold emitLocalCall. do 3 (apply fails_seq; intros ?). rewrite bool_decide_eq_false_2 by done. cbn [negb]. by eexists.
  - unfold emitLocalCall. do 3 (apply fails_seq; intros ?). destruct (negb _); [by eexists|]. do 9 (apply fails_seq; intros ?).
    unfold loadCallDstBlock, findBlock. rewrite bool_decide_eq_false_2 by done. by eexists.
Qed.

Section calls.
Context `{!Llvm} (je : jenv).

(** The content of a register. *)
Definition j_get (js : jstate) (r : Z) : option Z := j_reg js !!! Z.to_nat r.
Lemma j_get_lookup js r : regs_ok js → 0 ≤ r ≤ 10 → j_reg js !! Z.to_nat r = Some (j_get js r).
Proof. intros [Hl _] Hr. unfold j_get. apply list_lookup_lookup_total_lt. lia. Qed.
Lemma j_get_jreg js r z : j_get js r = Some z → jreg js r = z.
Proof. unfold j_get, jreg. by intros ->. Qed.
Lemma j_get_u64 js r : regs_ok js → 0 ≤ r ≤ 10 → from_option in_u64 True (j_get js r).
Proof. intros Hok Hr. by eapply reg_u64, j_get_lookup. Qed.

(** The state after a call at [pc] from [js]: the frame is the five elements above the count. *)
Definition after_call (js : jstate) (pc : Z) : jstate :=
  let c := j_cnt js + 5 in
  let js := set_slot (set_cnt js c) (c - 1) (RBlk (u16 (pc + 1))) in
  let js := set_slot (set_slot js (c - 2) (rv_of (j_get js 6))) (c - 3) (rv_of (j_get js 7)) in
  let js := set_slot (set_slot js (c - 4) (rv_of (j_get js 8))) (c - 5) (rv_of (j_get js 9)) in
  j_set_reg js 10 (u64 (jreg js 10 - STACK_SIZE)).

Lemma local_call_runs bs ret pc inst js t code : regs_ok js → written js 10 → 0 ≤ j_cnt js → j_cnt js + 5 ≤ zlen (j_slots js) → zlen (j_slots js) < 2 ^ 64 →
  emitLocalCall bs ret pc inst [] = inr (t, code) →
  exec_group je js (code, t) = Some (after_call js pc, JGoto (BInst (u16 (pc + 1 + i_imm inst)))).
Proof.
  intros Hok Hw10 Hc0 Hc Hc2 He. destruct (local_call_inv _ _ _ _ _ He) as [Hret Hbs]. set (b := BInst (u16 (pc + 1 + i_imm inst))). remember (j_cnt js + 5) as c eqn:Ec.
  assert (Hem : emits je js [] (emitLocalCall bs ret pc inst) (λ t js' _, t = Some (TBr b) ∧ js' = after_call js pc)).
  { unfold emitLocalCall in *. eapply emits_bind, emits_mono; [apply emits_load_cnt|]. intros cnt js' env (->&Hcnt&Hty) [x ->].
    eapply emits_bind, emits_mono.
    { eapply (emits_binop _ _ _ _ _ _ I64 _ 5 c); [exact Hcnt|done|done|]. rewrite ll_add. cbn [width]. f_equal. rewrite Ec. apply Z.mod_small. lia. }
    intros np js' env (->&Hnp&Htn) [x1 ->]. eapply emits_bind, emits_mono; [by apply emits_store_cnt|]. intros [] js' env -> [x2 ->].
    rewrite bool_decide_eq_true_2 by done. cbn [negb].
    eapply emits_bind, emits_mono; [apply (emits_pos _ _ _ _ c); [by apply evals_app|done|lia|lia]|]. intros p js' env (->&Hp&_) [x3 ->].
    eapply emits_bind, emits_mono; [eapply (emits_store_slot _ _ _ _ (RBlk (u16 (pc + 1)))); [done|exact Hp|cbn; lia]|]. intros [] js' env -> [x4 ->].
    assert (Hlen : 5 ≤ c ≤ zlen (j_slots js)) by lia.
    assert (Hev : ∀ x, evals je x np I64 c → ∀ y, evals je (x ++ y) np I64 c) by (intros; by apply evals_app).
    assert (Hnp' := Hev _ (Hev _ (Hev _ Hnp x2) x3) x4).
    eapply emits_bind, emits_mono; [apply (emits_save _ _ _ _ c 6 (j_get js 6)); try done; [exact (j_get_lookup js 6 Hok ltac:(lia))|by rewrite ?slots_set|lia]|].
    intros [] js' env -> [x5 ->]. apply (Hev _) with (y := x5) in Hnp'.
    eapply emits_bind, emits_mono; [apply (emits_save _ _ _ _ c 7 (j_get js 7)); try done; [exact (j_get_lookup js 7 Hok ltac:(lia))|by rewrite ?slots_set|lia]|].
    intros [] js' env -> [x6 ->]. apply (Hev _) with (y := x6) in Hnp'.
    eapply emits_bind, emits_mono; [apply (emits_save _ _ _ _ c 8 (j_get js 8)); try done; [exact (j_get_lookup js 8 Hok ltac:(lia))|by rewrite ?slots_set|lia]|].
    intros [] js' env -> [x7 ->]. apply (Hev _) with (y := x7) in Hnp'.
    eapply emits_bind, emits_mono; [apply (emits_save _ _ _ _ c 9 (j_get js 9)); try done; [exact (j_get_lookup js 9 Hok ltac:(lia))|by rewrite ?slots_set|lia]|].
    intros [] js' env -> [x8 ->].
    eapply emits_bind, emits_mono; [apply emits_load_reg, (jreg_lookup js); [done|lia|done]|]. intros r10 js' env (->&Hr&Htr) [x9 ->].
    cbn [width] in Hr. rewrite Z.mod_small in Hr by (apply jreg_u64; [done|lia]).
    eapply emits_bind, emits_mono; [eapply (emits_binop _ _ _ _ _ _ I64 _ STACK_SIZE); [exact Hr|done|done|apply ll_sub]|].
    intros sp js' env (->&Hsp&_) [x10 ->].
    eapply emits_bind, emits_mono; [eapply emits_store_reg; [done|lia|exact Hsp|done]|]. intros [] js' env -> _.
    unfold loadCallDstBlock, findBlock. rewrite bool_decide_eq_true_2 by done. apply emits_bind, emits_ret. intros _. apply emits_ret. split; [done|].
    unfold after_call. by rewrite <- Ec. }
  destruct (emits_run _ _ _ _ _ _ Hem He) as (js'&env&X&->&->). unfold exec_group. cbn [fst snd]. by rewrite X.
Qed.

(** The frame on top of the call stack. *)
Record frame_at (js : jstate) (pc : Z) (r6 r7 r8 r9 : option Z) : Prop := {
  fa_cnt : 5 ≤ j_cnt js < 2 ^ 64;
  fa_ret : j_slots js !! Z.to_nat (j_cnt js - 1) = Some (Some (RBlk pc));
  fa_r6 : j_slots js !! Z.to_nat (j_cnt js - 2) = Some (Some (rv_of r6));
  fa_r7 : j_slots js !! Z.to_nat (j_cnt js - 3) = Some (Some (rv_of r7));
  fa_r8 : j_slots js !! Z.to_nat (j_cnt js - 4) = Some (Some (rv_of r8));
  fa_r9 : j_slots js !! Z.to_nat (j_cnt js - 5) = Some (Some (rv_of r9))
}.

(** The state after a return. *)
Definition restored (js : jstate) (r6 r7 r8 r9 : option Z) : jstate := j_put (j_put (j_put (j_put js 6 r6) 7 r7) 8 r8) 9 r9.
Definition after_return (js : jstate) (r6 r7 r8 r9 : option Z) : jstate :=
  j_set_reg (set_cnt (restored js r6 r7 r8 r9) (j_cnt js - 5)) 10 (u64 (jreg js 10 + STACK_SIZE)).

Lemma jreg_put_other js r r' z : r ≠ r' → 0 ≤ r → 0 ≤ r' → j_get (j_put js r z) r' = j_get js r'.
Proof. intros. unfold j_get. cbn [j_put j_reg]. apply list_lookup_total_insert_ne. lia. Qed.
Lemma jreg_put_same js r z : regs_ok js → 0 ≤ r ≤ 10 → j_get (j_put js r z) r = z.
Proof. intros [Hl _] Hr. unfold j_get. cbn [j_put j_reg]. apply list_lookup_total_insert_eq. lia. Qed.

Lemma restored_ok js r6 r7 r8 r9 : regs_ok js → from_option in_u64 True r6 → from_option in_u64 True r7 → from_option in_u64 True r8 →
  from_option in_u64 True r9 → regs_ok (restored js r6 r7 r8 r9).
Proof. intros. unfold restored. by do 4 (apply put_ok; [|done]). Qed.

Lemma local_ret_runs js dests t code pc r6 r7 r8 r9 : regs_ok js → written js 10 → frame_at js pc r6 r7 r8 r9 → pc ∈ dests →
  from_option in_u64 True r6 → from_option in_u64 True r7 → from_option in_u64 True r8 → from_option in_u64 True r9 →
  emitLocalRet dests [] = inr (t, code) →
  exec_group je js (code, t) = Some (after_return js r6 r7 r8 r9, JGoto (BInst pc)).
Proof.
  intros Hok Hw10 [Hc Hret H6 H7 H8 H9] Hin U6 U7 U8 U9 He. remember (j_cnt js) as c eqn:Ec.
  assert (Hem : emits je js [] (emitLocalRet dests) (λ t js' env', js' = after_return js r6 r7 r8 r9 ∧ exec_term je env' t = Some (JGoto (BInst pc)))).
  { unfold emitLocalRet. eapply emits_bind, emits_mono; [apply emits_load_cnt|]. rewrite <- Ec. intros cnt js' env (->&Hcnt&Hty) [x ->].
    eapply emits_bind, emits_mono; [apply (emits_pos _ _ _ _ c); [done|done|lia|lia]|]. intros p js' env (->&Hp&_) [x1 ->].
    eapply emits_bind, emits_mono; [by eapply emits_load_slot|]. intros tgt js' env [-> Htgt] [x2 ->].
    assert (Hev : ∀ x, evals je x cnt I64 c → ∀ y, evals je (x ++ y) cnt I64 c) by (intros; by apply evals_app).
    assert (Hcnt' := Hev _ (Hev _ Hcnt x1) x2).
    pose proof (put_ok _ 6 _ Hok U6) as K6. pose proof (put_ok _ 7 _ K6 U7) as K7. pose proof (put_ok _ 8 _ K7 U8) as K8. pose proof (put_ok _ 9 _ K8 U9) as K9.
    eapply emits_bind, emits_mono; [by eapply (emits_restore _ _ _ _ c 6); try done; lia|].
    intros [] js' env -> [x3 ->]. apply (Hev _) with (y := x3) in Hcnt'. apply (eval_app _ _ x3) in Htgt.
    eapply emits_bind, emits_mono; [by eapply (emits_restore _ _ _ _ c 7); try done; lia|].
    intros [] js' env -> [x4 ->]. apply (Hev _) with (y := x4) in Hcnt'. apply (eval_app _ _ x4) in Htgt.
    eapply emits_bind, emits_mono; [by eapply (emits_restore _ _ _ _ c 8); try done; lia|].
    intros [] js' env -> [x5 ->]. apply (Hev _) with (y := x5) in Hcnt'. apply (eval_app _ _ x5) in Htgt.
    eapply emits_bind, emits_mono; [by eapply (emits_restore _ _ _ _ c 9); try done; lia|].
    intros [] js' env -> [x6 ->]. apply (Hev _) with (y := x6) in Hcnt'. apply (eval_app _ _ x6) in Htgt.
    eapply emits_bind, emits_mono; [apply (emits_pos _ _ _ _ c); [done|done|lia|lia]|]. intros n js' env (->&Hn&_) [x7 ->]. apply (eval_app _ _ x7) in Htgt.
    eapply emits_bind, emits_mono; [by apply emits_store_cnt|]. intros [] js' env -> [x8 ->]. apply (eval_app _ _ x8) in Htgt.
    assert (H10 : j_reg (set_cnt (restored js r6 r7 r8 r9) (c - 5)) !! Z.to_nat 10 = Some (Some (jreg js 10))).
    { unfold restored. cbn [set_cnt j_put j_reg]. rewrite !list_lookup_insert_ne by lia. by apply jreg_lookup. }
    eapply emits_bind, emits_mono; [apply emits_load_reg, H10|]. intros r10 js' env (->&Hr&Htr) [x9 ->]. apply (eval_app _ _ x9) in Htgt.
    cbn [width] in Hr. rewrite Z.mod_small in Hr by (apply jreg_u64; [done|lia]).
    eapply emits_bind, emits_mono; [eapply (emits_binop _ _ _ _ _ _ I64 _ STACK_SIZE); [exact Hr|done|done|apply ll_add]|].
    intros sp js' env (->&Hsp&_) [x10 ->]. apply (eval_app _ _ x10) in Htgt.
    eapply emits_bind, emits_mono; [eapply emits_store_reg; [exact K9|lia|exact Hsp|done]|]. intros [] js' env -> [x11 ->]. apply (eval_app _ _ x11) in Htgt.
    apply emits_ret. split; [unfold after_return; by rewrite <- Ec|]. cbn [exec_term]. rewrite Htgt. cbn [mbind option_bind].
    by rewrite bool_decide_eq_true_2. }
  destruct (emits_run _ _ _ _ _ _ Hem He) as (js'&env&X&->&Ht). unfold exec_group. cbn [fst snd]. rewrite X. cbn [mbind option_bind]. by rewrite Ht.
Qed.

(** An exit goes to the return of a local function when one is running. *)
Lemma exit_runs js t code : emitExit [] = inr (t, code) →
  exec_group je js (code, t) = Some (js, JGoto (if j_cnt js =? 0 then BExit else BLocalRet)).
Proof.
  intros He. assert (Hem : emits je js [] emitExit (λ t js' env', js' = js ∧ exec_term je env' t = Some (JGoto (if j_cnt js =? 0 then BExit else BLocalRet)))).
  { unfold emitExit. eapply emits_bind, emits_mono; [apply emits_load_cnt|]. intros cnt js' env (->&Hcnt&_) _.
    eapply emits_bind, emits_mono; [apply emits_icmp; [exact Hcnt|apply evals_const]|]. rewrite ll_eq. intros c js' env' (->&Hc&_) _.
    apply emits_ret. split; [done|]. cbn [exec_term]. rewrite (evals_int _ _ _ _ _ Hc). change (u64 0) with 0. by destruct (j_cnt js =? 0). }
  destruct (emits_run _ _ _ _ _ _ Hem He) as (js'&env&X&->&Ht). unfold exec_group. cbn [fst snd]. rewrite X. cbn [mbind option_bind]. by rewrite Ht.
Qed.

Lemma slots_same js k v : 0 ≤ k < zlen (j_slots js) → j_slots (set_slot js k v) !! Z.to_nat k = Some (Some v).
Proof. intros Hk. cbn [set_slot j_slots]. apply list_lookup_insert_eq. unfold zlen in Hk. lia. Qed.
Lemma slots_other js k k' v : k ≠ k' → 0 ≤ k → 0 ≤ k' → j_slots (set_slot js k v) !! Z.to_nat k' = j_slots js !! Z.to_nat k'.
Proof. intros. cbn [set_slot j_slots]. apply list_lookup_insert_ne. lia. Qed.

(** A call pushes the frame that a return takes. *)
Lemma call_frame js pc js2 : 0 ≤ j_cnt js → j_cnt js + 5 ≤ zlen (j_slots js) → zlen (j_slots js) < 2 ^ 64 →
  j_cnt js2 = j_cnt (after_call js pc) →
  (∀ k, j_cnt js ≤ k < j_cnt js + 5 → j_slots js2 !! Z.to_nat k = j_slots (after_call js pc) !! Z.to_nat k) →
  frame_at js2 (u16 (pc + 1)) (j_get js 6) (j_get js 7) (j_get js 8) (j_get js 9).
Proof.
  intros H0 Hlen Hmax Hcnt Hslots. assert (Hc : j_cnt (after_call js pc) = j_cnt js + 5) by done. rewrite Hc in Hcnt.
  split; rewrite ?Hcnt; [lia|..].
  all: rewrite Hslots by lia; unfold after_call; cbn [j_set_reg j_slots]; cbn zeta.
  all: repeat (rewrite slots_other by lia); rewrite slots_same; [done|]; rewrite ?slots_set; cbn [set_cnt j_slots]; lia.
Qed.

(** The registers after the return. *)
Lemma restored_get js r6 r7 r8 r9 : regs_ok js →
  j_get (restored js r6 r7 r8 r9) 6 = r6 ∧ j_get (restored js r6 r7 r8 r9) 7 = r7 ∧ j_get (restored js r6 r7 r8 r9) 8 = r8 ∧
  j_get (restored js r6 r7 r8 r9) 9 = r9 ∧ ∀ r, 0 ≤ r ≤ 5 → j_get (restored js r6 r7 r8 r9) r = j_get js r.
Proof.
  intros [Hl _]. unfold j_get, restored. cbn [j_put j_reg].
  split_and!; intros; rewrite ?list_lookup_total_insert_ne by lia; rewrite ?list_lookup_total_insert_eq by (rewrite ?length_insert; lia); done.
Qed.
End calls.

(** C36 (functional). Local functions of compiled programs. When the call stack has room for a frame, the code of a
    local call saves r6 to r9 and the return address in a frame, moves r10 down and branches to the function, with
    the other registers and memory as they were. Whatever the function does, if it leaves that frame, the count and
    r10 as it found them, the code of its exit branches to the return block, and that block to the instruction after
    the call, with the caller's r6 to r10 and count (registers not written yet included) and the function's r0 to r5,
    memory and call stack. An exit outside of any function branches to the exit block. *)
Theorem jit_local_call_return `{!Llvm} je js bs ret pc inst t code te exit_code tr ret_code :
  regs_ok js → written js 10 → 0 ≤ j_cnt js → j_cnt js + 5 ≤ zlen (j_slots js) → zlen (j_slots js) < 2 ^ 64 →
  emitLocalCall bs ret pc inst [] = inr (t, code) → emitExit [] = inr (te, exit_code) → emitLocalRet ret [] = inr (tr, ret_code) →
  ∃ js1, exec_group je js (code, t) = Some (js1, JGoto (BInst (u16 (pc + 1 + i_imm inst)))) ∧
    j_cnt js1 = j_cnt js + 5 ∧ j_mem js1 = j_mem js ∧ j_get js1 10 = Some (u64 (jreg js 10 - STACK_SIZE)) ∧
    (∀ r, 0 ≤ r < 10 → j_get js1 r = j_get js r) ∧
    (∀ js2, regs_ok js2 → j_cnt js2 = j_cnt js1 → j_get js2 10 = j_get js1 10 →
      (∀ k, j_cnt js ≤ k < j_cnt js + 5 → j_slots js2 !! Z.to_nat k = j_slots js1 !! Z.to_nat k) →
      exec_group je js2 (exit_code, te) = Some (js2, JGoto BLocalRet) ∧
      ∃ js3, exec_group je js2 (ret_code, tr) = Some (js3, JGoto (BInst (u16 (pc + 1)))) ∧
        j_cnt js3 = j_cnt js ∧ j_mem js3 = j_mem js2 ∧ j_slots js3 = j_slots js2 ∧
        (∀ r, 6 ≤ r ≤ 10 → j_get js3 r = j_get js r) ∧ (∀ r, 0 ≤ r ≤ 5 → j_get js3 r = j_get js2 r)) ∧
    (j_cnt js = 0 → exec_group je js (exit_code, te) = Some (js, JGoto BExit)).
Proof.
  intros Hok Hw H0 Hlen Hmax Hcall Hexit Hret. destruct (local_call_inv _ _ _ _ _ Hcall) as [Hin _].
  exists (after_call js pc). split; [by eapply local_call_runs|]. split; [done|]. split; [done|].
  assert (Hsp1 : j_get (after_call js pc) 10 = Some (u64 (jreg js 10 - STACK_SIZE))) by (apply (jreg_put_same js 10); [done|lia]).
  split; [exact Hsp1|]. split; [intros r Hr; by apply (jreg_put_other js 10); lia|].
  split; [|intros Hc; rewrite (exit_runs je js _ _ Hexit); by rewrite Hc].
  intros js2 Hok2 Hcnt Hsp Hslots. rewrite Hsp1 in Hsp. pose proof (call_frame _ _ _ H0 Hlen Hmax Hcnt Hslots) as Hf.
  assert (Hc2 : j_cnt js2 = j_cnt js + 5) by done.
  split. { rewrite (exit_runs je js2 _ _ Hexit). by rewrite (proj2 (Z.eqb_neq _ _)) by lia. }
  exists (after_return js2 (j_get js 6) (j_get js 7) (j_get js 8) (j_get js 9)).
  split; [eapply local_ret_runs; try done; first [by eexists|by apply j_get_u64]|].
  destruct (restored_get js2 (j_get js 6) (j_get js 7) (j_get js 8) (j_get js 9) Hok2) as (E6&E7&E8&E9&E5).
  split; [cbn; lia|]. split; [done|]. split; [done|]. split; intros r Hr.
  - assert (r = 10 ∨ r = 6 ∨ r = 7 ∨ r = 8 ∨ r = 9) as [-> | Hr'] by lia.
    + etrans; [apply (jreg_put_same (restored js2 _ _ _ _) 10); [apply restored_ok; try done; by apply j_get_u64|lia]|].
      destruct Hw as [z Hz]. fold (j_get js 10) in Hz. rewrite (j_get_jreg _ _ _ Hz) in Hsp. rewrite (j_get_jreg _ _ _ Hsp), Hz.
      f_equal. unfold u64. rewrite Zplus_mod_idemp_l. replace (z - STACK_SIZE + STACK_SIZE) with z by lia. apply Z.mod_small.
      pose proof (j_get_u64 js 10 Hok ltac:(lia)) as Hu. by rewrite Hz in Hu.
    + etrans; [apply (jreg_put_other (restored js2 _ _ _ _) 10); lia|]. by destruct Hr' as [-> | [-> | [-> | ->]]].
  - etrans; [apply (jreg_put_other (restored js2 _ _ _ _) 10); lia|]. by apply E5.
Qed.

(** A function at instruction 2, called with r6 to r8 in use and r9 not written yet. *)
Definition call_state : jstate :=
  JState [Some 1; Some 2; None; None; None; None; Some 7; Some 8; Some 9; None; Some 4096] ∅ 0 (replicate 320 None).
Definition call_inst : ebpf_inst := mk EBPF_OP_CALL 0 1 0 1.
Definition callee_state : jstate :=
  JState (Some 42 :: replicate 9 (Some 0) ++ [Some 4032]) ∅ 5 (j_slots (after_call call_state 0)).
Definition call_group : group := match emitLocalCall {[ 0; 1; 2 ]} [1] 0 call_inst [] with inr (t, code) => (code, t) | _ => ([], None) end.
Definition exit_group : group := match emitExit [] with inr (t, code) => (code, t) | _ => ([], None) end.
Definition ret_group : group := match emitLocalRet [1] [] with inr (t, code) => (code, t) | _ => ([], None) end.
(** A call without arguments or helpers. *)
Definition no_env : jenv := JEnv [] 0 (λ _, None) (λ _ _, 0).

Lemma call_state_ok : regs_ok call_state ∧ regs_ok callee_state.
Proof. split; (split; [done|]); repeat constructor; done. Qed.

Lemma jit_local_call_return_witness :
  @exec_group ref_llvm no_env callee_state exit_group = Some (callee_state, JGoto BLocalRet) ∧
  ∃ js3, @exec_group ref_llvm no_env callee_state ret_group = Some (js3, JGoto (BInst 1)) ∧
    j_cnt js3 = 0 ∧ j_get js3 0 = Some 42 ∧ j_get js3 6 = Some 7 ∧ j_get js3 9 = None ∧ j_get js3 10 = Some 4096.
Proof.
  destruct (@jit_local_call_return ref_llvm no_env call_state {[ 0; 1; 2 ]} [1] 0 call_inst call_group.2 call_group.1
    exit_group.2 exit_group.1 ret_group.2 ret_group.1) as (js1&Hx&H1&H2&H3&H4&Hr&_);
    [apply call_state_ok|by eexists|done|done|done|by vm_compute|by vm_compute|by vm_compute|].
  assert (js1 = after_call call_state 0) as -> by (vm_compute in Hx |- *; congruence).
  destruct (Hr callee_state) as (Hex&js3&Hx3&Hc&Hm&Hs&H6&H0); [apply call_state_ok|done|done|done|].
  split; [exact Hex|]. exists js3. split; [exact Hx3|]. split; [exact Hc|]. split; [by rewrite H0|]. by split_and!; rewrite H6.
Defined.

(** Nothing bounds the depth of local calls: when the call stack has no room for the five elements of a
    frame, the code of a call still raises the count and writes its frame outside of the array, which is undefined. The
    array has room for 64 calls; the interpreter ends a program that nests calls too deeply with an error. *)
Theorem jit_call_depth_unchecked `{!Llvm} je js bs ret pc inst t code :
  0 ≤ j_cnt js → j_cnt js + 5 < 2 ^ 64 → zlen (j_slots js) < j_cnt js + 5 →
  emitLocalCall bs ret pc inst [] = inr (t, code) → exec_group je js (code, t) = None.
Proof.
  intros H0 Hmax Hlen He. destruct (local_call_inv _ _ _ _ _ He) as [Hret Hbs].
  unfold emitLocalCall in He. rewrite bool_decide_eq_true_2 in He by done. unfold loadCallDstBlock, findBlock in He. rewrite bool_decide_eq_true_2 in He by done.
  cbn in He. injection He as <- <-. unfold exec_group. cbn [fst exec_instrs exec_instr load_place]. cbn [mbind option_bind].
  cbn -[ll_binop]. rewrite ll_add. cbn -[ll_binop].
  rewrite (Z.mod_small (j_cnt js + 5)) by lia. rewrite decide_True by done. cbn -[ll_binop zlen Z.leb Z.ltb]. rewrite decide_True by done.
  cbn -[ll_binop zlen Z.leb Z.ltb Z.modulo Z.sub Z.pow]. change (u64 1) with 1. rewrite (ll_sub 64 (j_cnt js + 5) 1). rewrite (Z.mod_small (j_cnt js + 5 - 1)) by lia. cbn -[ll_binop zlen Z.leb Z.ltb Z.sub Z.add].
  assert ((0 <=? j_cnt js + 5 - 1) && (j_cnt js + 5 - 1 <? zlen (j_slots js)) = false) as -> by lia. done.
Qed.

(** The call of a 65th function. *)
Lemma jit_call_depth_unchecked_witness :
  @exec_group ref_llvm no_env (set_cnt call_state (64 * 5)) call_group = None.
Proof. apply (@jit_call_depth_unchecked ref_llvm _ _ {[ 0; 1; 2 ]} [1] 0 call_inst); [done|done|done|by vm_compute]. Defined.

(** A division by zero is executed. The code of a 64-bit division or remainder by a register divides first
    and then selects the result for a zero divisor, but in LLVM the division itself is undefined when the divisor is
    zero: on an LLVM that obeys the language reference and traps there, the run does not get to the selection. The
    interpreter gives 0, or the dividend. *)
Theorem jit_division_by_zero_executed je js pc o inst e code :
  o = EBPF_OP_DIV64_REG ∨ o = EBPF_OP_MOD64_REG → i_opcode inst = op_code o → i_offset inst = 0 →
  regs_ok js → 0 ≤ i_dst inst ≤ 10 → 0 ≤ i_src inst ≤ 10 → written js (i_dst inst) → j_get js (i_src inst) = Some 0 →
  emitALU pc o inst = Some e → e [] = inr (tt, code) →
  @exec_instrs ref_llvm je js [] code = None ∧
  alu64 o (jreg js (i_dst inst)) 0 (i_imm inst) = Some (inl (if decide (o = EBPF_OP_DIV64_REG) then 0 else jreg js (i_dst inst))).
Proof.
  intros Ho Hop Hoff Hok Hd Hs Hw Hz He Hc. pose proof (j_get_lookup _ _ Hok Hs) as Hls. pose proof (jreg_lookup _ _ Hok Hd Hw) as Hld. rewrite Hz in Hls.
  split; [|by destruct Ho as [-> | ->]].
  destruct Ho as [-> | ->]; injection He as <-; revert Hc; unfold emitALUWithDstAndSrc, emitLoadALUDest, emitLoadALUSource, emitStoreALUResult,
    emitDiv, emitMod, emitZero, is_alu64, opcode_class; rewrite Hop, Hoff; cbn; intros [= <-]; cbn; rewrite Hld; cbn; by rewrite Hls.
Qed.

Definition div_inst : ebpf_inst := mk EBPF_OP_DIV64_REG 0 1 0 0.
Definition div_state : jstate := JState (Some 7 :: replicate 10 (Some 0)) ∅ 0 [].
Definition div_code : list instr :=
  match emitALUWithDstAndSrc div_inst (emitDiv div_inst) [] with inr (_, code) => code | _ => [] end.

Lemma jit_division_by_zero_executed_witness :
  @exec_instrs ref_llvm no_env div_state [] div_code = None ∧ alu64 EBPF_OP_DIV64_REG 7 0 0 = Some (inl 0).
Proof.
  apply (jit_division_by_zero_executed no_env div_state 0 EBPF_OP_DIV64_REG div_inst (emitALUWithDstAndSrc div_inst (emitDiv div_inst)));
    [by left|done|done|split; [done|]; repeat constructor; done|done|done|by eexists|done|done|by vm_compute].
Defined.

(** An access that is not aligned is not defined. The code of a load has the alignment of its type, so a load of a field
    that is not aligned is undefined in LLVM; the interpreter copies its bytes. *)
Theorem jit_misaligned_load_undefined `{!Llvm} je js inst t code bs :
  regs_ok js → 0 ≤ i_src inst ≤ 10 → written js (i_src inst) → aligned t (u64 (jreg js (i_src inst) + i_offset inst)) = false →
  (t = I16 ∨ t = I32 ∨ t = I64) → mem_load (j_mem js) (u64 (jreg js (i_src inst) + i_offset inst)) (bytes t) = Some bs →
  emitLoadX inst t [] = inr (tt, code) →
  exec_instrs je js [] code = None ∧ ubpf_mem_load (j_mem js) (u64 (jreg js (i_src inst) + i_offset inst)) (Z.of_nat (bytes t)) = Some (le_load bs).
Proof.
  intros Hok Hs Hw Hal Ht Hbs He. split.
  - unfold emitLoadX, emitLDXLoadingAddr, emitLDXStoringResult in He. cbn in He.
    assert (∃ rest, code = ILoad PtrTy (PReg (i_src inst)) :: IGep (Val PtrTy 0) (i_offset inst) :: ILoad t (PMem (Val PtrTy 1)) :: rest) as [rest ->].
    { destruct Ht as [-> |[-> | ->]]; cbn in He; injection He as <-; by eexists. }
    cbn [exec_instrs exec_instr load_place]. rewrite (jreg_lookup _ _ Hok Hs Hw). cbn [mbind option_bind].
    cbn [exec_instrs exec_instr load_place eval_int eval mbind option_bind app lookup list_lookup width].
    rewrite (Z.mod_small (jreg js (i_src inst))) by (by apply jreg_u64). by rewrite Hal.
  - unfold ubpf_mem_load. rewrite Nat2Z.id, Hbs. cbn [mbind option_bind]. destruct (negb _); [by rewrite le_load_zeros|].
    by destruct Ht as [-> |[-> | ->]].
Qed.

(** An address that is not a multiple of 8. *)
Definition misaligned_state : jstate := JState (replicate 11 (Some 65553)) (zeros 65536 64) 0 [].
Definition misaligned_inst : ebpf_inst := mk EBPF_OP_LDXDW 0 10 0 0.
Definition misaligned_code : list instr := match emitLoadX misaligned_inst I64 [] with inr (_, code) => code | _ => [] end.
Lemma jit_misaligned_load_undefined_witness :
  @exec_instrs ref_llvm no_env misaligned_state [] misaligned_code = None ∧ ubpf_mem_load (zeros 65536 64) 65553 8 = Some 0.
Proof.
  apply (@jit_misaligned_load_undefined ref_llvm no_env misaligned_state misaligned_inst I64 misaligned_code (replicate 8 0));
    [split; [done|]; repeat constructor; done|done|by eexists|done|auto|by vm_compute|by vm_compute].
Defined.

(** ** Reloads *)

(** A program that is loaded after a run, or unloaded, is not compiled: from the first run of a program on,
    every later run executes the function that was compiled for it, and [compile] returns that function and
    records the error that the program is already compiled. *)
Theorem jit_runs_first_program `{!Llvm} vm mem mem_len stack undef fuel m r vm1 code code_len vm2 :
  lv_jitted vm = None → lv_exec vm mem mem_len stack undef fuel m = (Some r, vm1) → lv_load_code vm1 code code_len = (Ok tt, vm2) →
  ∃ jm ext, do_jit_compile vm = inr (jm, ext) ∧
    ∀ vm', vm' = vm2 ∨ vm' = lv_unload_code vm1 →
      (lv_compile vm').1 = Some (jm, ext) ∧ lv_error (lv_compile vm').2 = Some AlreadyCompiled ∧
      ∀ mem mem_len stack undef fuel m, lv_exec vm' mem mem_len stack undef fuel m =
        (Some (jit_exec (JEnv [mem; mem_len] stack ext undef) jm fuel m), vm').
Proof.
  intros Hj Hrun Hload. unfold lv_exec, lv_compile in Hrun. rewrite Hj in Hrun. destruct (do_jit_compile vm) as [|[jm ext]]; [done|].
  injection Hrun as _ Hvm1. exists jm, ext. split; [done|]. intros vm' Hvm'.
  assert (Hj' : lv_jitted vm' = Some (jm, ext)).
  { destruct Hvm' as [-> | ->]; [|by rewrite <- Hvm1]. unfold lv_load_code in Hload.
    destruct (negb _); [done|]. destruct (_ <? _); [done|]. injection Hload as <-. by rewrite <- Hvm1. }
  unfold lv_compile, lv_exec. by rewrite Hj'.
Qed.

(** A program that returns 1, and one that returns 2 and is loaded after the first has run. *)
Definition ret_code (v : Z) : list ebpf_inst := [mk EBPF_OP_MOV64_IMM 0 0 0 v; mk EBPF_OP_EXIT 0 0 0 0].
Definition first_vm : llvmbpf_vm := (lv_load_code (lv_set lv_new None [] [] None) (ret_code 1) 16).2.
Definition run_vm (vm : llvmbpf_vm) : option jout * llvmbpf_vm := @lv_exec ref_llvm vm 0 0 4096 (λ _ _, 0) 10 ∅.
Definition second_vm : llvmbpf_vm := (lv_load_code (run_vm first_vm).2 (ret_code 2) 16).2.

Lemma jit_runs_first_program_witness :
  lv_instructions second_vm = ret_code 2 ∧ (∃ s, (run_vm second_vm).1 = Some (JDone 1 s)).
Proof.
  split; [by vm_compute|].
  destruct (@jit_runs_first_program ref_llvm first_vm 0 0 4096 (λ _ _, 0) 10 ∅
    (match (run_vm first_vm).1 with Some r => r | None => JUndef end) (run_vm first_vm).2 (ret_code 2) 16 second_vm)
    as (jm&ext&Hc&Hr); [done|by vm_compute|by vm_compute|].
  destruct (Hr second_vm) as (_&_&Hx); [by left|]. unfold run_vm. rewrite Hx.
  assert (jm = match @do_jit_compile ref_llvm first_vm with inr (jm, _) => jm | _ => JModule [] [] [] [] end) as -> by (by rewrite Hc).
  eexists. by vm_compute.
Defined.
