(* ===== verification/Shm.v ===== *)
(** * The shared memory of the runtime

    [bpftime_shm] (runtime/src/bpftime_shm_internal.cpp) and the functions of the C interface on top of
    it (runtime/src/bpftime_shm.cpp): the table of descriptors with the objects behind it, the sets of
    process ids and the configuration. Epoll instances hold weak pointers to ring buffers and software
    perf events: a pointer is the number that the object got when it was made, and it locks as long as
    that object is in the memory or in the table. The descriptors of the process, which stand for the
    entries of the table, come from the kernel. *)

From stdpp Require Import base numbers list gmap strings.
From S2P Require Import Prelude.
From S2P Require Import EbpfIsa.
From S2P Require Import ArrayMap.
From S2P Require Import FdArray.
From S2P Require Import RingBuf.
From S2P Require Import UnorderedMap.
From S2P Require Import LruHashMap.
From S2P Require Import PerfEvent.
From S2P Require Import MapHandler.
From S2P Require Import HandlerManager.

(** ** The descriptors of a process *)

(** [open] and [dup] of the kernel, on the descriptors of the process; -1 when they fail. *)
Class PosixFds (K : Type) := {
  fds_is_open : K → Z → bool;
  fds_open : K → Z * K;
  fds_dup : K → Z → Z * K
}.

(** A call gives a descriptor that was not open, or fails. *)
Definition opens {K} `{!PosixFds K} (k : K) (r : Z * K) : Prop :=
  r = (-1, k) ∨ 0 ≤ r.1 ∧ fds_is_open k r.1 = false ∧ ∀ fd, fds_is_open r.2 fd = (fd =? r.1) || fds_is_open k fd.
Class PosixFdsLaws (K : Type) `{!PosixFds K} := {
  open_opens k : opens k (fds_open k);
  dup_opens k fd : opens k (fds_dup k fd)
}.

Section fds.
Context {K : Type} `{!PosixFds K}.

(** while (fd <= 2 && fd >= 0 && --cnt > 0) fd = dup(fd) *)
Fixpoint dup_loop (cnt : nat) (fd : Z) (k : K) : Z * K :=
  match cnt with
  | O => (fd, k)
  | S cnt => if (fd <=? 2) && (0 <=? fd) then let '(fd, k) := fds_dup k fd in dup_loop cnt fd k else (fd, k)
  end.
Definition open_fake_fd (k : K) : Z * K := let '(fd, k) := fds_open k in dup_loop 4 fd k.
End fds.

(** ** Handlers *)

(** The constructor does not store the type of the program. *)
Record bpf_prog_handler := BpfProgHandler {
  pr_insns : list ebpf_inst;
  pr_aot_insns : list Z;
  pr_name : string
}.

(** [None] when the pointer has less than [insn_cnt] instructions. *)
Definition bpf_prog_handler_create (insn : list ebpf_inst) (insn_cnt : Z) (prog_name : string) : option bpf_prog_handler :=
  if zlen insn <? insn_cnt then None else Some (BpfProgHandler (take (Z.to_nat insn_cnt) insn) [] prog_name).

Record memfd_handler := MemfdHandler { mf_flags : Z; mf_name : string }.

(** Weak pointers: the number of the object, and for a ring buffer the name it was made under. *)
Inductive file_ptr_variant := FPerfEvent (p : positive) | FRingbuf (name : string) (p : positive).
Record epoll_file := EpollFile { ef_file : file_ptr_variant; ef_data : Z }.
Record epoll_handler := EpollHandler { ep_files : list epoll_file }.

Inductive shm_open_type := SHM_REMOVE_AND_CREATE | SHM_OPEN_ONLY | SHM_NO_CREATE | SHM_CREATE_OR_OPEN.

(** [bpf_link_create_args], as far as a link uses them. *)
Record bpf_link_create_args := BpfLinkCreateArgs { la_prog_fd : Z; la_target_fd : Z }.

(** The handlers of the runtime. *)
Abbreviation handler := (handler_variant (H := bpf_map_handler) (P := bpf_prog_handler) (E := bpf_perf_event_handler)
  (X := epoll_handler) (Y := memfd_handler)).

Section shm.
Context {U : Type} `{!UnorderedMap (list Z) U} {UL : Type} `{!UnorderedMap hash_map_value UL}.
Context `{Kernel} {F : Type} `{!KernelUserMaps F} (cpu : Z) (with_libbpf : bool) (table : ops_table) (mc : machine).
Context {K : Type} `{!PosixFds K} {C : Type}.

Abbreviation objects := (gmap string (map_impl (U := U) (UL := UL) (F := F))).
#[local] Instance shm_map_ops : MapHandlerOps bpf_map_handler objects := map_handler_ops cpu with_libbpf table mc.

Abbreviation manager := (handler_manager (H := bpf_map_handler) (W := objects) (P := bpf_prog_handler)
  (E := bpf_perf_event_handler) (X := epoll_handler) (Y := memfd_handler)).

(** Null pointers are [None]. [sh_perf] has the data of the software perf events, [sh_births] the numbers of the objects
    that are in the memory. *)
Record bpftime_shm := BpftimeShm {
  sh_open_type : shm_open_type;
  sh_manager : option manager;
  sh_syscall_installed_pids : option (gset Z);
  sh_agent_config : option C;
  sh_injected_pids : option (gset Z);
  sh_local_agent_config : option C;
  sh_perf : gmap positive software_perf_event_data;
  sh_births : gmap string positive;
  sh_next : positive;
  sh_fds : K
}.
Implicit Types s : bpftime_shm.

Definition sh_set_manager s (m : manager) : bpftime_shm :=
  BpftimeShm (sh_open_type s) (Some m) (sh_syscall_installed_pids s) (sh_agent_config s) (sh_injected_pids s)
    (sh_local_agent_config s) (sh_perf s) (sh_births s) (sh_next s) (sh_fds s).
Definition sh_set_fds s (k : K) : bpftime_shm :=
  BpftimeShm (sh_open_type s) (sh_manager s) (sh_syscall_installed_pids s) (sh_agent_config s) (sh_injected_pids s)
    (sh_local_agent_config s) (sh_perf s) (sh_births s) (sh_next s) k.
Definition sh_set_perf s (h : gmap positive software_perf_event_data) : bpftime_shm :=
  BpftimeShm (sh_open_type s) (sh_manager s) (sh_syscall_installed_pids s) (sh_agent_config s) (sh_injected_pids s)
    (sh_local_agent_config s) h (sh_births s) (sh_next s) (sh_fds s).
Definition sh_set_births s (b : gmap string positive) (n : positive) : bpftime_shm :=
  BpftimeShm (sh_open_type s) (sh_manager s) (sh_syscall_installed_pids s) (sh_agent_config s) (sh_injected_pids s)
    (sh_local_agent_config s) (sh_perf s) b n (sh_fds s).

(** ** Construction *)

(** What is in a segment that exists. *)
Record segment := Segment {
  sg_manager : option manager;
  sg_syscall_installed_pids : option (gset Z);
  sg_agent_config : option C;
  sg_injected_pids : option (gset Z);
  sg_perf : gmap positive software_perf_event_data;
  sg_births : gmap string positive;
  sg_next : positive
}.
Definition new_segment : segment := Segment None None None None ∅ ∅ 1.

(** [found] is the segment with the name, [config] the configuration of the environment. *)
Definition bpftime_shm_create (type : shm_open_type) (found : option segment) (config : C) (max_fd_count : Z) (k : K)
  : res bpftime_shm :=
  let make g m p c i := BpftimeShm type m p c i None (sg_perf g) (sg_births g) (sg_next g) k in
  let new := handler_manager_create max_fd_count ∅ in
  let or_new {A} (o : option A) (a : A) := Some (match o with Some x => x | None => a end) in
  match type with
  | SHM_OPEN_ONLY =>
      match found with
      | None => Throw
      | Some g => Ok (make g (sg_manager g) (sg_syscall_installed_pids g) (sg_agent_config g) (sg_injected_pids g))
      end
  | SHM_CREATE_OR_OPEN =>
      let g := match found with Some g => g | None => new_segment end in
      Ok (make g (or_new (sg_manager g) new) (or_new (sg_syscall_installed_pids g) ∅) (or_new (sg_agent_config g) config)
            (or_new (sg_injected_pids g) ∅))
  | SHM_REMOVE_AND_CREATE => Ok (make new_segment (Some new) (Some ∅) (Some config) (Some ∅))
  | SHM_NO_CREATE => Ok (make new_segment None None None None)
  end.

(** ** Process ids and configuration *)

Definition check_syscall_trace_setup s (pid : Z) : res bool :=
  match sh_syscall_installed_pids s with Some l => Ok (bool_decide (pid ∈ l)) | None => Fault end.
Definition set_syscall_trace_setup s (pid : Z) (whether : bool) : res unit * bpftime_shm :=
  match sh_syscall_installed_pids s with
  | Some l =>
      (Ok tt, BpftimeShm (sh_open_type s) (sh_manager s) (Some (if whether then {[pid]} ∪ l else l ∖ {[pid]})) (sh_agent_config s)
                (sh_injected_pids s) (sh_local_agent_config s) (sh_perf s) (sh_births s) (sh_next s) (sh_fds s))
  | None => (Fault, s)
  end.

Definition set_injected s (f : gset Z → gset Z) : res unit * bpftime_shm :=
  match sh_injected_pids s with
  | Some l =>
      (Ok tt, BpftimeShm (sh_open_type s) (sh_manager s) (sh_syscall_installed_pids s) (sh_agent_config s) (Some (f l))
                (sh_local_agent_config s) (sh_perf s) (sh_births s) (sh_next s) (sh_fds s))
  | None => (Fault, s)
  end.
Definition add_pid_into_alive_agent_set s (pid : Z) : res unit * bpftime_shm := set_injected s ({[pid]} ∪.).
Definition remove_pid_from_alive_agent_set s (pid : Z) : res unit * bpftime_shm := set_injected s (.∖ {[pid]}).
(** The ids that the callback is called with. *)
Definition iterate_all_pids_in_alive_agent_set s : res (gset Z) :=
  match sh_injected_pids s with Some l => Ok l | None => Fault end.

Definition set_agent_config s (config : C) : bpftime_shm :=
  let make c l := BpftimeShm (sh_open_type s) (sh_manager s) (sh_syscall_installed_pids s) c (sh_injected_pids s) l (sh_perf s)
                    (sh_births s) (sh_next s) (sh_fds s) in
  match sh_agent_config s with
  | None => make None (Some config)
  | Some _ => make (Some config) (sh_local_agent_config s)
  end.
Definition get_agent_config s : res C :=
  match sh_agent_config s, sh_local_agent_config s with
  | Some c, _ | None, Some c => Ok c
  | None, None => Fault
  end.

(** ** Descriptors *)

(** The handler at a descriptor that is in the table. *)
Definition handler_at s (fd : Z) : option handler :=
  m ← sh_manager s; if in_table m fd then handlers m !! Z.to_nat fd else None.

Definition is_epoll_fd s (fd : Z) : bool := match handler_at s fd with Some (HEpoll _) => true | _ => false end.
Definition is_map_fd s (fd : Z) : bool := match handler_at s fd with Some (HMap _) => true | _ => false end.
Definition is_prog_fd s (fd : Z) : bool := match handler_at s fd with Some (HProg _) => true | _ => false end.
Definition is_perf_fd s (fd : Z) : bool := match handler_at s fd with Some (HPerfEvent _) => true | _ => false end.
Definition is_perf_event_handler_fd s (fd : Z) : bool := is_perf_fd s fd.
Definition is_software_perf_event_handler_fd s (fd : Z) : bool :=
  match handler_at s fd with Some (HPerfEvent e) => pe_type e =? event_num PERF_TYPE_SOFTWARE | _ => false end.
Definition is_exist_fake_fd s (fd : Z) : bool := match sh_manager s with Some m => is_allocated m fd | None => false end.

Definition map_type_at s (fd : Z) : option bpf_map_type :=
  match handler_at s fd with Some (HMap h) => Some (mh_type h) | _ => None end.
Definition is_stack_trace_map_fd s (fd : Z) : bool := match map_type_at s fd with Some BPF_MAP_TYPE_STACK_TRACE => true | _ => false end.
Definition is_ringbuf_map_fd s (fd : Z) : bool := match map_type_at s fd with Some BPF_MAP_TYPE_RINGBUF => true | _ => false end.
Definition is_shared_perf_event_array_map_fd s (fd : Z) : bool :=
  match map_type_at s fd with Some BPF_MAP_TYPE_KERNEL_USER_PERF_EVENT_ARRAY => true | _ => false end.
Definition is_array_map_fd s (fd : Z) : bool := match map_type_at s fd with Some BPF_MAP_TYPE_ARRAY => true | _ => false end.
Definition is_prog_array_map_fd s (fd : Z) : bool := match map_type_at s fd with Some BPF_MAP_TYPE_PROG_ARRAY => true | _ => false end.

(** The implementation of a map of a type; the pointer itself can be null. *)
Definition try_get_impl (is_fd : bpftime_shm → Z → bool) (try_get : bpf_map_handler → option (option string)) s (fd : Z)
  : option (option string) :=
  match handler_at s fd with Some (HMap h) => if is_fd s fd then try_get h else None | _ => None end.
Definition try_get_stack_trace_impl s (fd : Z) : option (option string) := try_get_impl is_stack_trace_map_fd try_get_stack_trace_map_impl s fd.
Definition shm_try_get_ringbuf_map_impl s (fd : Z) : option (option string) := try_get_impl is_ringbuf_map_fd try_get_ringbuf_map_impl s fd.
Definition shm_try_get_array_map_impl s (fd : Z) : option (option string) := try_get_impl is_array_map_fd try_get_array_map_impl s fd.

Definition find_minimal_unused_fd s : Z := match sh_manager s with Some m => find_minimal_unused_idx m | None => -1 end.

(** ** Operations on maps *)

(** The operation of the handler at [fd]; other descriptors get the answer [none]. *)
Definition with_map {A} s (fd : Z) (none : res A) (f : bpf_map_handler → objects → res A * objects) : res A * bpftime_shm :=
  match sh_manager s, handler_at s fd with
  | Some m, Some (HMap h) => let '(r, w) := f h (memory m) in (r, sh_set_manager s (HandlerManager (handlers m) w))
  | _, _ => (none, s)
  end.

(** Without a map, 0 is returned with [errno] set. *)
Definition bpf_map_value_size s (fd : Z) : res Z :=
  match handler_at s fd with Some (HMap h) => Ok (get_userspace_value_size (mc_ncpu mc) h) | _ => Err ENOENT end.
Definition bpf_map_lookup_elem (fd : Z) (key : uptr) (from_syscall : bool) s : res mem_ptr * bpftime_shm :=
  with_map s fd (Err ENOENT) (λ h, map_lookup_elem cpu with_libbpf table h key from_syscall).
Definition bpf_map_update_elem (fd : Z) (key value : uptr) (flags : Z) (from_syscall : bool) s : res unit * bpftime_shm :=
  with_map s fd (Err ENOENT) (λ h, map_update_elem cpu with_libbpf table h key value flags from_syscall).
Definition bpf_delete_elem (fd : Z) (key : uptr) (from_syscall : bool) s : res unit * bpftime_shm :=
  with_map s fd (Err ENOENT) (λ h, map_delete_elem cpu with_libbpf table h key from_syscall).
Definition bpf_map_push_elem (fd : Z) (value : uptr) (flags : Z) (from_syscall : bool) s : res unit * bpftime_shm :=
  with_map s fd (Err ENOENT) (λ h, MapHandler.map_push_elem h value flags).
Definition bpf_map_pop_elem (fd : Z) (value : uptr) (from_syscall : bool) s : res (list Z) * bpftime_shm :=
  with_map s fd (Err ENOENT) (λ h, MapHandler.map_pop_elem h value).
Definition bpf_map_peek_elem (fd : Z) (value : uptr) (from_syscall : bool) s : res (list Z) * bpftime_shm :=
  with_map s fd (Err ENOENT) (λ h, MapHandler.map_peek_elem h value).
Definition shm_map_get_next_key (fd : Z) (key : uptr) (out from_syscall : bool) s : res (list Z) * bpftime_shm :=
  with_map s fd (Err ENOENT) (λ h, bpf_map_get_next_key cpu with_libbpf table h key out from_syscall).
(** ** Making and clearing handlers *)

(** [manager->set_handler]; an object that it makes gets the next number. *)
Definition set_handler_at (fd : Z) (h : handler) s : res Z * bpftime_shm :=
  match sh_manager s with
  | None => (Fault, s)
  | Some m =>
      let '(r, m') := set_handler fd h m in
      let s := sh_set_manager s m' in
      match h with
      | HMap mh =>
          let name := get_container_name mh in
          match memory m !! name, memory m' !! name with
          | None, Some _ => (r, sh_set_births s (<[name := sh_next s]> (sh_births s)) (Pos.succ (sh_next s)))
          | _, _ => (r, s)
          end
      | _ => (r, s)
      end
  end.

Definition close_fd (fd : Z) s : res unit * bpftime_shm :=
  match sh_manager s with
  | None => (Ok tt, s)
  | Some m => let '(r, m) := clear_id_at fd m in (r, sh_set_manager s m)
  end.

Definition new_fake_fd s : Z * bpftime_shm := let '(fd, k) := open_fake_fd (sh_fds s) in (fd, sh_set_fds s k).
(** A negative descriptor asks for a new one. *)
Definition fd_or_fake (fd : Z) s : Z * bpftime_shm := if fd <? 0 then new_fake_fd s else (fd, s).

Definition add_kprobe (fd : option Z) (func_name : string) (addr : Z) (retprobe : bool) (ref_ctr_off : Z) s : res Z * bpftime_shm :=
  let '(new_fd, s) := match fd with Some fd => (fd, s) | None => new_fake_fd s end in
  set_handler_at new_fd (HPerfEvent (kprobe_event retprobe addr func_name ref_ctr_off)) s.
Definition add_uprobe (fd pid : Z) (name : string) (offset : Z) (retprobe : bool) (ref_ctr_off : Z) s : res Z * bpftime_shm :=
  let '(fd, s) := fd_or_fake fd s in
  set_handler_at fd (HPerfEvent (uprobe_event retprobe offset pid name ref_ctr_off)) s.
Definition add_uprobe_override (fd pid : Z) (name : string) (offset : Z) (is_replace : bool) s : res Z * bpftime_shm :=
  let '(fd, s) := fd_or_fake fd s in
  set_handler_at fd
    (HPerfEvent (override_event (if is_replace then BPF_TYPE_UREPLACE else BPF_TYPE_UPROBE_OVERRIDE) offset pid name true)) s.
Definition add_tracepoint (fd pid tracepoint_id : Z) s : res Z * bpftime_shm :=
  let '(fd, s) := fd_or_fake fd s in set_handler_at fd (HPerfEvent (tracepoint_event pid tracepoint_id)) s.
(** The data of the event is made before the handler is set. *)
Definition add_software_perf_event_at (fd cpu sample_type config : Z) s : res Z * bpftime_shm :=
  let p := sh_next s in
  let s := sh_set_perf s (<[p := software_perf_event_create (mc_page_size mc) cpu config sample_type]> (sh_perf s)) in
  set_handler_at fd (HPerfEvent (software_event p)) (sh_set_births s (sh_births s) (Pos.succ p)).
Definition add_software_perf_event (cpu sample_type config : Z) s : res Z * bpftime_shm :=
  let '(fd, s) := new_fake_fd s in add_software_perf_event_at fd cpu sample_type config s.

(** The answer of [set_handler] is not looked at. *)
Definition ignoring (fd : Z) (x : res Z * bpftime_shm) : res Z * bpftime_shm :=
  match x with (Fault, s) => (Fault, s) | (Throw, s) => (Throw, s) | (_, s) => (Ok fd, s) end.

Definition add_custom_perf_event (type : Z) (attach_argument : string) s : res Z * bpftime_shm :=
  let '(fd, s) := new_fake_fd s in
  if fd <? 0 then (Raw fd, s) else ignoring fd (set_handler_at fd (HPerfEvent (custom_event type attach_argument)) s).

Definition add_bpf_prog_attach_target (perf_fd bpf_fd : Z) (cookie : option Z) s : res Z * bpftime_shm :=
  if negb (is_prog_fd s bpf_fd) then (Err ENOENT, s)
  else
    let '(next_id, s) := new_fake_fd s in
    if next_id <? 0 then (Raw (- errno_val ENOSPC), s)
    else ignoring next_id (set_handler_at next_id (HLink (BpfLinkHandler bpf_fd perf_fd cookie)) s).
Definition attach_perf_to_bpf (perf_fd bpf_fd : Z) (cookie : option Z) s : res Z * bpftime_shm :=
  if negb (is_perf_fd s perf_fd) then (Err ENOENT, s) else add_bpf_prog_attach_target perf_fd bpf_fd cookie s.

(** [insn] has the instructions at the pointer. *)
Definition add_bpf_prog (fd : Z) (insn : list ebpf_inst) (insn_cnt : Z) (prog_name : string) s : res Z * bpftime_shm :=
  let '(fd, s) := fd_or_fake fd s in
  match bpf_prog_handler_create insn insn_cnt prog_name with
  | None => (Fault, s)
  | Some p => set_handler_at fd (HProg p) s
  end.

(** The pointer is followed before it is compared with null. *)
Definition add_bpf_link (fd : Z) (args : option bpf_link_create_args) s : res Z * bpftime_shm :=
  let '(fd, s) := fd_or_fake fd s in
  match args with
  | None => (Fault, s)
  | Some a =>
      if negb (is_prog_fd s (s32 (la_prog_fd a))) then (Err EBADF, s)
      else set_handler_at fd (HLink (BpfLinkHandler (s32 (la_prog_fd a)) (s32 (la_target_fd a)) None)) s
  end.

(** [get_handler] on a descriptor that is not in the table reads outside of it. *)
Definition clear_for_new (fd : Z) s : res unit * bpftime_shm :=
  match handler_at s fd with
  | None => (Fault, s)
  | Some h => if unused h then (Ok tt, s) else close_fd fd s
  end.
Definition add_bpf_map (fd : Z) (name : string) (attr : bpf_map_attr) s : res Z * bpftime_shm :=
  let '(fd, s) := fd_or_fake fd s in
  match sh_manager s with
  | None => (Raw (-1), s)
  | Some _ =>
      match clear_for_new fd s with
      | (Ok _, s) => set_handler_at fd (HMap (bpf_map_handler_create fd name attr)) s
      | (Throw, s) => (Throw, s)
      | (_, s) => (Fault, s)
      end
  end.

(** The handler of [oldfd] is used after that of [newfd] is destroyed. *)
Definition dup_bpf_map (oldfd newfd : Z) s : res Z * bpftime_shm :=
  match handler_at s oldfd with
  | Some (HMap h) =>
      let '(newfd, s) := fd_or_fake newfd s in
      match clear_for_new newfd s with
      | (Ok _, s) =>
          if newfd =? oldfd then (Fault, s)
          else set_handler_at newfd (HMap (bpf_map_handler_create newfd ("dup_" +:+ mh_name h)%string (mh_attr h))) s
      | (Throw, s) => (Throw, s)
      | (_, s) => (Fault, s)
      end
  | _ => (Err EBADF, s)
  end.

Definition add_memfd_handler (name : string) (flags : Z) s : res Z * bpftime_shm :=
  let '(fd, s) := new_fake_fd s in set_handler_at fd (HMemfd (MemfdHandler flags name)) s.

(** [enable] and [disable] return 0. *)
Definition set_perf_event (f : bpf_perf_event_handler → bpf_perf_event_handler) (fd : Z) s : res unit * bpftime_shm :=
  match sh_manager s, handler_at s fd with
  | Some m, Some (HPerfEvent e) => (Ok tt, sh_set_manager s (put_handler m fd (HPerfEvent (f e))))
  | _, _ => (Err ENOENT, s)
  end.
Definition perf_event_enable (fd : Z) s : res unit * bpftime_shm := set_perf_event enable fd s.
Definition perf_event_disable (fd : Z) s : res unit * bpftime_shm := set_perf_event disable fd s.
(** ** Epoll *)

(** The object under a name; a null pointer, or one to another kind of object, is a fault. *)
Definition ringbuf_object s (name : string) : option ringbuf := m ← sh_manager s; o ← memory m !! name; prj o.
Definition lock_ringbuf s (name : string) (p : positive) : option ringbuf :=
  if bool_decide (sh_births s !! name = Some p) then ringbuf_object s name else None.
(** A handler of the table owns the event. *)
Definition owns (p : positive) (h : handler) : bool :=
  match h with HPerfEvent e => bool_decide (try_get_software_perf_data_weak_ptr e = Some p) | _ => false end.
Definition lock_perf_event s (p : positive) : option software_perf_event_data :=
  m ← sh_manager s; if existsb (owns p) (handlers m) then sh_perf s !! p else None.

Definition epoll_create s : res Z * bpftime_shm :=
  let '(fd, s) := new_fake_fd s in
  if is_exist_fake_fd s fd then (Raw (-1), s) else set_handler_at fd (HEpoll (EpollHandler [])) s.

Definition add_file (epoll_fd : Z) (f : epoll_file) s : res unit * bpftime_shm :=
  match sh_manager s, handler_at s epoll_fd with
  | Some m, Some (HEpoll e) => (Ok tt, sh_set_manager s (put_handler m epoll_fd (HEpoll (EpollHandler (ep_files e ++ [f])))))
  | _, _ => (Fault, s)
  end.

Definition add_software_perf_event_to_epoll (swpe_fd epoll_fd extra_data : Z) s : res unit * bpftime_shm :=
  if negb (is_epoll_fd s epoll_fd) then (Err EINVAL, s)
  else
    match handler_at s swpe_fd with
    | Some (HPerfEvent e) =>
        if negb (is_software_perf_event_handler_fd s swpe_fd) then (Err EINVAL, s)
        else
          match try_get_software_perf_data_weak_ptr e with
          | Some p => add_file epoll_fd (EpollFile (FPerfEvent p) extra_data) s
          | None => (Err EINVAL, s)
          end
    | _ => (Err EINVAL, s)
    end.

(** The value of the optional is taken whether or not there is one. *)
Definition add_ringbuf_to_epoll (ringbuf_fd epoll_fd extra_data : Z) s : res unit * bpftime_shm :=
  if negb (is_epoll_fd s epoll_fd) then (Err EINVAL, s)
  else
    match handler_at s ringbuf_fd with
    | Some (HMap h) =>
        match try_get_ringbuf_map_impl h with
        | None => (Throw, s)
        | Some None => (Err EINVAL, s)
        | Some (Some name) =>
            match ringbuf_object s name, sh_births s !! name with
            | Some _, Some p => add_file epoll_fd (EpollFile (FRingbuf name p) extra_data) s
            | _, _ => (Fault, s)
            end
        end
    | _ => (Err EINVAL, s)
    end.

Definition EPOLLIN : Z := 1.

(** Whether a file is to be reported: its object is alive and has data. *)
Definition file_ready s (f : epoll_file) : res bool :=
  match ef_file f with
  | FPerfEvent p => Ok (match lock_perf_event s p with Some e => PerfEvent.has_data e | None => false end)
  | FRingbuf name p => match lock_ringbuf s name p with Some rb => RingBuf.has_data rb | None => Ok false end
  end.

(** The loop over the files: [evts] are the events (with their data) that are in the array. *)
Fixpoint poll_files s (max_evt : Z) (files : list epoll_file) (evts : list (Z * Z)) : res (list (Z * Z)) :=
  match files with
  | [] => Ok evts
  | f :: files =>
      match file_ready s f with
      | Ok ready => poll_files s max_evt files (if ready && (zlen evts <? max_evt) then evts ++ [(EPOLLIN, ef_data f)] else evts)
      | _ => Fault
      end
  end.

(** What a round of the waiting loop sees: the milliseconds since the start, the shared memory, which other processes
    change, and whether a signal arrives while nothing has been received. *)
Record wait_round := WaitRound { wr_elapsed : Z; wr_shm : bpftime_shm; wr_signal : bool }.

(** A return with the events, -1 with [errno], or an access outside of memory; or the loop goes on. [blocked] tells
    whether SIGINT and SIGTERM are left blocked. *)
Inductive wait_result := WaitReturn (evts : list (Z * Z)) (blocked : bool) | WaitError (e : errno) | WaitFault | Waiting (evts : list (Z * Z)).

Fixpoint wait_loop (fd max_evt timeout : Z) (evts : list (Z * Z)) (rounds : list wait_round) : wait_result :=
  if negb (zlen evts <? max_evt) then WaitReturn evts false
  else
    match rounds with
    | [] => Waiting evts
    | r :: rounds =>
        if timeout =? 0 then WaitReturn [] true
        else if (0 <? timeout) && (timeout <? wr_elapsed r) then WaitReturn evts false
        else
          match handler_at (wr_shm r) fd with
          | Some (HEpoll e) =>
              match poll_files (wr_shm r) max_evt (ep_files e) evts with
              | Ok evts =>
                  if (0 <? zlen evts) || negb (wr_signal r) then wait_loop fd max_evt timeout evts rounds else WaitError EINTR
              | _ => WaitFault
              end
          | _ => WaitFault
          end
    end.

(** The array has [max_evt] elements; the first round finds the memory as it is at the call. *)
Definition bpftime_epoll_wait (fd max_evt timeout : Z) (rounds : list wait_round) s : wait_result :=
  if timeout <? -1 then WaitError EINVAL
  else if negb (is_epoll_fd s fd) then WaitError EINVAL
  else wait_loop fd max_evt timeout [] rounds.

(** ** Perf events and ring buffers *)

Definition get_software_perf_event_raw_buffer (fd buffer_sz : Z) s : res (option bool) * bpftime_shm :=
  match handler_at s fd with
  | Some (HPerfEvent e) =>
      if negb (is_software_perf_event_handler_fd s fd) then (Err EINVAL, s)
      else let '(b, heap) := try_get_software_perf_data_raw_buffer (sh_perf s) e buffer_sz in (Ok b, sh_set_perf s heap)
  | _ => (Err EINVAL, s)
  end.

Definition bpftime_perf_event_output (fd : Z) (buf : uptr) (sz : Z) s : res unit * bpftime_shm :=
  match handler_at s fd with
  | Some (HPerfEvent e) =>
      match try_get_software_perf_data_weak_ptr e with
      | Some p =>
          match sh_perf s !! p with
          | Some d => let '(r, d) := output_data d buf sz in (r, sh_set_perf s (<[p := d]> (sh_perf s)))
          | None => (Fault, s)
          end
      | None => (Err ENOTSUP, s)
      end
  | _ => (Err EINVAL, s)
  end.

(** An operation of the ring buffer of a map; other descriptors get the answer [none]. *)
Definition with_ringbuf {A} s (fd : Z) (none : res A) (f : ringbuf → res A * ringbuf) : res A * bpftime_shm :=
  match shm_try_get_ringbuf_map_impl s fd with
  | Some (Some name) =>
      match sh_manager s, ringbuf_object s name with
      | Some m, Some rb =>
          let '(r, rb) := f rb in (r, sh_set_manager s (HandlerManager (handlers m) (<[name := inj rb]> (memory m))))
      | _, _ => (Fault, s)
      end
  | Some None => (Fault, s)
  | None => (none, s)
  end.

Definition bpftime_ringbuf_reserve (fd size : Z) s : res Z * bpftime_shm := with_ringbuf s fd (Err EINVAL) (λ rb, reserve rb size fd).
(** [data] is a place in the buffer of the map at [fd]. *)
Definition bpftime_ringbuf_submit (fd data : Z) (discard : bool) s : res unit * bpftime_shm :=
  with_ringbuf s fd (Err EINVAL) (λ rb, submit rb data discard).
Definition bpftime_poll_from_ringbuf {X} (fd : Z) (cb : X → list Z → Z * X) (ctx : X) s : res (Z * X) * bpftime_shm :=
  with_ringbuf s fd (Raw (- errno_val EINVAL)) (λ rb, fetch_data cb rb ctx).

(** ** The C interface *)

(** [catch (std::exception &) { return v; }] *)
Definition catching {A} (v : Z) (x : res A * bpftime_shm) : res A * bpftime_shm :=
  match x with (Throw, s) => (Raw v, s) | _ => x end.
Definition bpftime_helper_map_get_next_key (fd : Z) (key : uptr) (out : bool) s : res (list Z) * bpftime_shm :=
  catching (-1) (shm_map_get_next_key fd key out false s).
Definition bpftime_map_lookup_elem (fd : Z) (key : uptr) s : res mem_ptr * bpftime_shm := catching 0 (bpf_map_lookup_elem fd key true s).
Definition bpftime_map_update_elem (fd : Z) (key value : uptr) (flags : Z) s : res unit * bpftime_shm :=
  catching (-1) (bpf_map_update_elem fd key value flags true s).
Definition bpftime_map_delete_elem (fd : Z) (key : uptr) s : res unit * bpftime_shm := catching (-1) (bpf_delete_elem fd key true s).
Definition bpftime_map_lookup_and_delete_elem (fd : Z) (value : uptr) s : res (list Z) * bpftime_shm :=
  catching (-1) (bpf_map_pop_elem fd value true s).
Definition bpftime_map_push_elem (fd : Z) (value : uptr) (flags : Z) s : res unit * bpftime_shm :=
  catching (-1) (bpf_map_push_elem fd value flags true s).
Definition bpftime_map_pop_elem (fd : Z) (value : uptr) s : res (list Z) * bpftime_shm := catching (-1) (bpf_map_pop_elem fd value true s).
Definition bpftime_map_peek_elem (fd : Z) (value : uptr) s : res (list Z) * bpftime_shm := catching (-1) (bpf_map_peek_elem fd value true s).
Definition bpftime_map_get_next_key (fd : Z) (key : uptr) (out : bool) s : res (list Z) * bpftime_shm :=
  catching (-1) (shm_map_get_next_key fd key out true s).

Definition bpftime_map_get_info (fd : Z) s : res (bpf_map_attr * string * bpf_map_type) :=
  match handler_at s fd with Some (HMap h) => Ok (mh_attr h, mh_name h, mh_type h) | _ => Err ENOENT end.
Definition bpftime_kprobe_create (fd : Z) (func_name : string) (addr : Z) (retprobe : bool) (ref_ctr_off : Z) s : res Z * bpftime_shm :=
  add_kprobe (if fd =? -1 then None else Some fd) func_name addr retprobe ref_ctr_off s.
(** The address of the data of an array. *)
Definition bpftime_get_array_map_raw_data (fd : Z) s : res mem_ptr :=
  match shm_try_get_array_map_impl s fd with
  | Some (Some name) =>
      match (m ← sh_manager s; o ← memory m !! name; prj (S := array_map_impl) o) with Some _ => Ok (InData 0) | None => Fault end
  | Some None => Fault
  | None => Err EINVAL
  end.

(** ** Map pointers of programs *)

Definition INVALID_MAP_PTR : Z := u64 (0 - 1).
Definition map_ptr_by_fd s (fd : Z) : Z := if is_map_fd s (s32 fd) then Z.lor (Z.shiftl fd 32) 0xffffffff else INVALID_MAP_PTR.
(** The value of the first key; 0 with [errno] when there is none. The key goes into a buffer of [key_size] bytes. *)
Definition map_val (map_ptr : Z) s : res mem_ptr * bpftime_shm :=
  let fd := s32 (Z.shiftr map_ptr 32) in
  match handler_at s fd with
  | Some (HMap h) =>
      let size := at_key_size (mh_attr h) in
      let lookup (key : list Z) s :=
        if size <? zlen key then (Fault, s)
        else with_map s fd (Err ENOENT) (λ h, map_lookup_elem cpu with_libbpf table h (Some (key ++ replicate (Z.to_nat (size - zlen key)) 0)) false) in
      match with_map s fd (Err ENOENT) (λ h, bpf_map_get_next_key cpu with_libbpf table h None true false) with
      | (Ok key, s) => lookup key s
      | (Raw c, s) => if c <? 0 then (Err ENOENT, s) else lookup [] s
      | (Err _, s) => (Err ENOENT, s)
      | (Throw, s) => (Throw, s)
      | (Fault, s) => (Fault, s)
      end
  | _ => (Err ENOENT, s)
  end.
End shm.
