(* ===== verification/ShmProps.v ===== *)
(** * What the shared memory promises

    Theorems on the operations of the shared memory, over the laws of the kernel's descriptors and the theorems on the
    handler manager and the map handler. *)

From stdpp Require Import base numbers list gmap strings.
From S2P Require Import Prelude.
From S2P Require Import EbpfIsa.
From S2P Require Import ArrayMap.
From S2P Require Import FdArray.
From S2P Require Import RingBuf.
From S2P Require Import UnorderedMap.
From S2P Require Import LruHashMap.
From S2P Require Import PerfEvent.
From S2P Require Import MapHandler.
From S2P Require Import HandlerManager.
From S2P Require Import Shm.

(** ** Descriptors *)

Section fds.
Context {K : Type} `{!PosixFds K} `{!PosixFdsLaws K}.
Implicit Types k : K.

(** The standard streams that are not open. *)
Definition free_stdio k : nat := length (List.filter (λ fd, negb (fds_is_open k fd)) [0; 1; 2]).

Lemma opens_free k r : opens k r → 0 ≤ r.1 ≤ 2 → (free_stdio r.2 < free_stdio k)%nat.
Proof.
  destruct r as [fd k']. intros [[= ->]|(_&Hc&Ho)] Hr; cbn [fst snd] in *; [lia|]. unfold free_stdio. cbn [List.filter]. rewrite !Ho.
  assert (fd = 0 ∨ fd = 1 ∨ fd = 2) as [-> | [-> | ->]] by lia; rewrite Hc; cbn [Z.eqb Pos.eqb orb negb];
    destruct (fds_is_open k 0), (fds_is_open k 1), (fds_is_open k 2); cbn; lia.
Qed.

Lemma opens_mono k r fd : opens k r → fds_is_open k fd = true → fds_is_open r.2 fd = true.
Proof. intros [-> | (_&_&Ho)] Hf; [done|]. rewrite Ho, Hf. apply orb_true_r. Qed.

Lemma dup_loop_above cnt : ∀ fd k, (free_stdio k < cnt)%nat ∨ ¬ (0 ≤ fd ≤ 2) →
  let r := dup_loop cnt fd k in
  (r.1 < 0 ∨ 2 < r.1) ∧ (∀ i, fds_is_open k i = true → fds_is_open r.2 i = true) ∧
  (r.1 = fd ∨ r.1 < 0 ∨ fds_is_open k r.1 = false ∧ fds_is_open r.2 r.1 = true).
Proof.
  induction cnt as [|cnt IH]; intros fd k Hc; cbn [dup_loop].
  { cbn. split; [lia|]. split; [done|by left]. }
  destruct ((fd <=? 2) && (0 <=? fd)) eqn:Eb; [|cbn; split; [lia|]; split; [done|by left]].
  pose proof (dup_opens k fd) as Hop. destruct (fds_dup k fd) as [fd1 k1] eqn:Ed.
  assert (Hc1 : (free_stdio k1 < cnt)%nat ∨ ¬ (0 ≤ fd1 ≤ 2)).
  { destruct (decide (0 ≤ fd1 ≤ 2)) as [Hin|]; [left|by right]. pose proof (opens_free k (fd1, k1) Hop Hin) as Hf. cbn [snd] in Hf. lia. }
  destruct (IH fd1 k1 Hc1) as (Hr&Hm&Hn). cbn zeta in *. split; [done|]. split; [intros i Hi; by apply Hm, (opens_mono k (fd1, k1))|].
  assert (Hk : ∀ i, fds_is_open k1 i = false → fds_is_open k i = false).
  { intros i Hi. destruct (fds_is_open k i) eqn:Ei; [|done]. pose proof (opens_mono k (fd1, k1) i Hop Ei) as Hc2. cbn [snd] in Hc2. congruence. }
  destruct Hn as [Hn|[Hn|[Hn1 Hn2]]]; [|by right; left|right; right; by auto].
  destruct Hop as [[= -> ->]|(Hge&Hcl&Ho)]; [right; left; lia|]. cbn [fst snd] in *. right; right. rewrite Hn. split; [done|].
  apply Hm. rewrite Ho, Z.eqb_refl. done.
Qed.

(** A fake descriptor never takes the place of a standard stream: [open_fake_fd] fails, or gives a
    descriptor above 2 that was not open before and is open now, also when some of the standard streams are closed; the
    descriptors that were open stay open. *)
Theorem fake_fd_above_stdio k : let r := open_fake_fd k in
  (∀ fd, fds_is_open k fd = true → fds_is_open r.2 fd = true) ∧
  (r.1 < 0 ∨ 2 < r.1 ∧ fds_is_open k r.1 = false ∧ fds_is_open r.2 r.1 = true).
Proof.
  unfold open_fake_fd. pose proof (open_opens k) as Hop. destruct (fds_open k) as [fd k1].
  assert (Hf : (free_stdio k1 < 4)%nat).
  { unfold free_stdio. cbn [List.filter]. destruct (fds_is_open k1 0), (fds_is_open k1 1), (fds_is_open k1 2); cbn; lia. }
  destruct (dup_loop_above 4 fd k1 (or_introl Hf)) as (Hr&Hm&Hn). cbn zeta in *.
  split; [intros i Hi; by apply Hm, (opens_mono k (fd, k1))|]. destruct Hr as [Hr|Hr]; [by left|right]. split; [done|].
  destruct Hop as [[= -> ->]|(Hge&Hcl&Ho)]; cbn [fst snd] in *.
  - destruct Hn as [Hn|[Hn|Hn]]; [lia|lia|done].
  - destruct Hn as [Hn|[Hn|[Hn1 Hn2]]]; [|lia|].
    + rewrite Hn. split; [done|]. apply Hm. by rewrite Ho, Z.eqb_refl.
    + rewrite Ho in Hn1. apply orb_false_iff in Hn1 as [_ Hn1]. done.
Qed.
End fds.

(** A process with a limit of 1024 descriptors, which takes the lowest one that is free. *)
Definition lowest_free (k : list Z) : Z * list Z :=
  match List.find (λ fd, negb (bool_decide (fd ∈ k))) (seqZ 0 1024) with Some fd => (fd, fd :: k) | None => (-1, k) end.
#[export] Instance table_fds : PosixFds (list Z) := {
  fds_is_open k fd := bool_decide (fd ∈ k); fds_open := lowest_free; fds_dup k _ := lowest_free k }.
Lemma lowest_free_opens k : opens k (lowest_free k).
Proof.
  unfold lowest_free. destruct (List.find _ _) as [fd|] eqn:Ef; [right|by left]. apply find_some in Ef as [Hin Hf].
  apply list_elem_of_In, elem_of_seqZ in Hin. cbn [fst snd fds_is_open table_fds]. split; [lia|]. split; [by apply negb_true_iff in Hf|].
  intros i. destruct (Z.eqb_spec i fd) as [->|Hne]; cbn [orb]; [by apply bool_decide_eq_true_2; left|].
  apply bool_decide_ext. rewrite elem_of_cons. naive_solver.
Qed.
#[export] Instance table_fds_laws : PosixFdsLaws (list Z).
Proof. split; intros; apply lowest_free_opens. Qed.

(** Standard input and error are closed: 0 and 2 are taken and left open on the way. *)
Lemma fake_fd_above_stdio_witness : open_fake_fd [1] = (3, [3; 2; 0; 1]) ∧ 2 < 3 ∧ fds_is_open [3; 2; 0; 1] 1 = true.
Proof.
  split; [done|]. destruct (fake_fd_above_stdio [1]) as [Hm [Hn|[Hr _]]]; [by vm_compute in Hn|]. split; [exact Hr|]. by apply (Hm 1).
Defined.

(** ** Links *)

Section links.
Context {U : Type} `{!UnorderedMap (list Z) U} {UL : Type} `{!UnorderedMap hash_map_value UL}.
Context `{Kernel} {F : Type} `{!KernelUserMaps F} (cpu : Z) (with_libbpf : bool) (table : ops_table) (mc : machine).
Context {K : Type} `{!PosixFds K} {C : Type}.

Abbreviation shm := (bpftime_shm (U := U) (UL := UL) (F := F) (K := K) (C := C)).
Implicit Types s : shm.

#[local] Hint Extern 0 (MapHandlerOps _ _) => exact (shm_map_ops cpu with_libbpf table mc) : typeclass_instances.

Definition shm_links_ok s : Prop := ∀ m, sh_manager s = Some m → links_ok m.

(** The descriptors that a link may name. *)
Definition link_ok s (h : handler) : Prop :=
  match h with HLink l => is_prog_fd s (lk_prog_id l) = true ∧ is_perf_fd s (lk_attach_target_id l) = true | _ => True end.

Lemma links_set_handler_at fd h s : shm_links_ok s → link_ok s h → shm_links_ok (set_handler_at cpu with_libbpf table mc fd h s).2.
Proof.
  intros Hl Hok. unfold set_handler_at. destruct (sh_manager s) as [m|] eqn:Em; [|done].
  assert (Hm : links_ok (set_handler fd h m).2).
  { apply links_ok_set; [by apply Hl|]. destruct h as [| |l| | | |]; try done. cbn in Hok. unfold is_prog_fd, is_perf_fd, handler_at in Hok.
    rewrite Em in Hok. cbn [mbind option_bind] in Hok. destruct Hok as [H1 H2].
    destruct (in_table m (lk_prog_id l)) eqn:E1; [|done]. destruct (in_table m (lk_attach_target_id l)) eqn:E2; [|done].
    apply in_table_lookup in E1 as [? _], E2 as [? _].
    split; (split; [done|]); [destruct (handlers m !! Z.to_nat (lk_prog_id l)) as [[]|]|destruct (handlers m !! Z.to_nat (lk_attach_target_id l)) as [[]|]];
      done || by eexists. }
  destruct (set_handler fd h m) as [r m']. cbn [snd] in Hm.
  assert (Hs : shm_links_ok (sh_set_manager s m')) by (intros m0 [= <-]; done).
  destruct h as [|h| | | | |]; try exact Hs. destruct (memory m !! get_container_name h), (memory m' !! get_container_name h); exact Hs.
Qed.

Lemma links_close_fd fd s : shm_links_ok s → shm_links_ok (close_fd cpu with_libbpf table mc fd s).2.
Proof.
  intros Hl. unfold close_fd. destruct (sh_manager s) as [m|] eqn:Em; [|done].
  pose proof (links_ok_clear fd m (Hl m Em)) as Hc. destruct (clear_id_at fd m) as [r m']. by intros m0 [= <-].
Qed.

Lemma links_new_fake_fd s : shm_links_ok s → shm_links_ok (new_fake_fd s).2.
Proof. unfold new_fake_fd. by destruct (open_fake_fd (sh_fds s)). Qed.
Lemma handler_at_fake s fd i : handler_at (fd_or_fake fd s).2 i = handler_at s i ∧ handler_at (new_fake_fd s).2 i = handler_at s i.
Proof. unfold fd_or_fake, new_fake_fd. destruct (open_fake_fd (sh_fds s)). by destruct (fd <? 0). Qed.
Lemma links_fd_or_fake fd s : shm_links_ok s → shm_links_ok (fd_or_fake fd s).2.
Proof. unfold fd_or_fake. destruct (fd <? 0); [apply links_new_fake_fd|done]. Qed.
Lemma link_ok_fake s fd h : link_ok s h → link_ok (fd_or_fake fd s).2 h ∧ link_ok (new_fake_fd s).2 h.
Proof. unfold link_ok, is_prog_fd, is_perf_fd. destruct h; try done. by rewrite !(proj1 (handler_at_fake s fd _)), !(proj2 (handler_at_fake s fd _)). Qed.
Lemma links_clear_for_new fd s : shm_links_ok s → shm_links_ok (clear_for_new cpu with_libbpf table mc fd s).2.
Proof. intros Hl. unfold clear_for_new. destruct (handler_at s fd) as [h|]; [|done]. destruct (unused h); [done|by apply links_close_fd]. Qed.

(** A perf event or an epoll instance takes the place of one of its kind. *)
Lemma links_put (m : handler_manager (H := bpf_map_handler) (W := gmap string (map_impl (U := U) (UL := UL) (F := F)))
    (P := bpf_prog_handler) (E := bpf_perf_event_handler) (X := epoll_handler) (Y := memfd_handler)) fd h h0 :
  links_ok m → handlers m !! Z.to_nat fd = Some h0 →
  match h0, h with HPerfEvent _, HPerfEvent _ | HEpoll _, HEpoll _ => True | _, _ => False end → links_ok (put_handler m fd h).
Proof.
  intros Hl H0 Hk i l Hi. unfold put_handler, is_prog, is_perf_event in *. cbn [handlers] in *.
  assert (Hne : i ≠ Z.to_nat fd).
  { intros ->. rewrite list_lookup_insert_eq in Hi by (by eapply lookup_lt_Some). injection Hi as ->. by destruct h0. }
  rewrite list_lookup_insert_ne in Hi by done. destruct (Hl i l Hi) as [[? [p Hp]] [? [e He]]].
  split; (split; [done|]).
  - exists p. rewrite list_lookup_insert_ne; [done|]. intros Heq. rewrite Heq, Hp in H0. injection H0 as <-. done.
  - destruct (decide (Z.to_nat fd = Z.to_nat (lk_attach_target_id l))) as [Heq|Hx]; [|exists e; by rewrite list_lookup_insert_ne].
    rewrite Heq, He in H0. injection H0 as <-. destruct h as [| | | |e'| |]; try done. exists e'. rewrite Heq.
    apply list_lookup_insert_eq. by eapply lookup_lt_Some.
Qed.

Lemma handler_at_manager s fd h : handler_at s fd = Some h → ∃ m, sh_manager s = Some m ∧ handlers m !! Z.to_nat fd = Some h.
Proof. unfold handler_at. destruct (sh_manager s) as [m|]; [|done]. cbn [mbind option_bind]. destruct (in_table m fd); [|done]. eauto. Qed.

Lemma links_set_perf_event f fd s : shm_links_ok s → shm_links_ok (set_perf_event f fd s).2.
Proof.
  intros Hl. unfold set_perf_event. destruct (sh_manager s) as [m|] eqn:Em; [|done]. destruct (handler_at s fd) as [h|] eqn:Eh; [|done].
  destruct (handler_at_manager _ _ _ Eh) as (m'&Hm&Hh). rewrite Em in Hm. injection Hm as <-.
  destruct h; try done. intros m0 [= <-]. eapply links_put; [by apply Hl|done|done].
Qed.
Lemma links_add_file fd f s : shm_links_ok s → shm_links_ok (add_file fd f s).2.
Proof.
  intros Hl. unfold add_file. destruct (sh_manager s) as [m|] eqn:Em; [|done]. destruct (handler_at s fd) as [h|] eqn:Eh; [|done].
  destruct (handler_at_manager _ _ _ Eh) as (m'&Hm&Hh). rewrite Em in Hm. injection Hm as <-.
  destruct h; try done. intros m0 [= <-]. eapply links_put; [by apply Hl|done|done].
Qed.
Lemma links_with_map {A} s fd (none : res A) f : shm_links_ok s → shm_links_ok (with_map s fd none f).2.
Proof.
  intros Hl. unfold with_map. destruct (sh_manager s) as [m|] eqn:Em; [|done]. destruct (handler_at s fd) as [[]|]; try done.
  destruct (f h (memory m)) as [r w]. intros m0 [= <-]. exact (Hl m Em).
Qed.
Lemma links_with_ringbuf {A} s fd (none : res A) f : shm_links_ok s → shm_links_ok (with_ringbuf s fd none f).2.
Proof.
  intros Hl. unfold with_ringbuf. destruct (shm_try_get_ringbuf_map_impl s fd) as [[name|]|]; try done.
  destruct (sh_manager s) as [m|] eqn:Em; [|done]. destruct (ringbuf_object s name); [|done]. destruct (f _) as [r' rb]. intros m0 [= <-]. exact (Hl m Em).
Qed.
Lemma links_ignoring fd x : shm_links_ok x.2 → shm_links_ok (ignoring fd x).2.
Proof. destruct x as [[] s]; done. Qed.

(** The operations of the runtime. A link is made with [bpf_link_create] for a target that is a perf event. *)
Inductive shm_step : shm → shm → Prop :=
| st_kprobe fd name addr ret off s : shm_step s (add_kprobe cpu with_libbpf table mc fd name addr ret off s).2
| st_uprobe fd pid name off ret ref s : shm_step s (add_uprobe cpu with_libbpf table mc fd pid name off ret ref s).2
| st_override fd pid name off rep s : shm_step s (add_uprobe_override cpu with_libbpf table mc fd pid name off rep s).2
| st_tracepoint fd pid id s : shm_step s (add_tracepoint cpu with_libbpf table mc fd pid id s).2
| st_software c t cfg s : shm_step s (add_software_perf_event cpu with_libbpf table mc c t cfg s).2
| st_custom t arg s : shm_step s (add_custom_perf_event cpu with_libbpf table mc t arg s).2
| st_attach perf bpf cookie s : shm_step s (attach_perf_to_bpf cpu with_libbpf table mc perf bpf cookie s).2
| st_prog fd insn n name s : shm_step s (add_bpf_prog cpu with_libbpf table mc fd insn n name s).2
| st_link fd a s : is_perf_fd s (s32 (la_target_fd a)) = true → shm_step s (add_bpf_link cpu with_libbpf table mc fd (Some a) s).2
| st_map fd name attr s : shm_step s (add_bpf_map cpu with_libbpf table mc fd name attr s).2
| st_dup old new s : shm_step s (dup_bpf_map cpu with_libbpf table mc old new s).2
| st_memfd name flags s : shm_step s (add_memfd_handler cpu with_libbpf table mc name flags s).2
| st_close fd s : shm_step s (close_fd cpu with_libbpf table mc fd s).2
| st_enable fd s : shm_step s (perf_event_enable fd s).2
| st_disable fd s : shm_step s (perf_event_disable fd s).2
| st_epoll_create s : shm_step s (epoll_create cpu with_libbpf table mc s).2
| st_epoll_perf swpe fd data s : shm_step s (add_software_perf_event_to_epoll swpe fd data s).2
| st_epoll_ringbuf rb fd data s : shm_step s (add_ringbuf_to_epoll rb fd data s).2
| st_lookup fd k fs s : shm_step s (bpf_map_lookup_elem cpu with_libbpf table fd k fs s).2
| st_update fd k v f fs s : shm_step s (bpf_map_update_elem cpu with_libbpf table fd k v f fs s).2
| st_delete fd k fs s : shm_step s (bpf_delete_elem cpu with_libbpf table fd k fs s).2
| st_next_key fd k out fs s : shm_step s (shm_map_get_next_key cpu with_libbpf table fd k out fs s).2
| st_push fd v f fs s : shm_step s (bpf_map_push_elem fd v f fs s).2
| st_pop fd v fs s : shm_step s (bpf_map_pop_elem fd v fs s).2
| st_peek fd v fs s : shm_step s (bpf_map_peek_elem fd v fs s).2
| st_reserve fd size s : shm_step s (bpftime_ringbuf_reserve fd size s).2
| st_submit fd data discard s : shm_step s (bpftime_ringbuf_submit fd data discard s).2
| st_poll X fd (cb : X → list Z → Z * X) ctx s : shm_step s (bpftime_poll_from_ringbuf fd cb ctx s).2
| st_output fd buf sz s : shm_step s (bpftime_perf_event_output fd buf sz s).2
| st_raw_buffer fd sz s : shm_step s (get_software_perf_event_raw_buffer fd sz s).2.

#[local] Hint Resolve links_set_handler_at links_close_fd links_clear_for_new links_set_perf_event links_add_file links_with_map
  links_with_ringbuf links_ignoring : core.

(** A handler that is not a link, at a given descriptor or a new one. *)
Lemma links_fresh fd h s : shm_links_ok s → match h with HLink _ => False | _ => True end →
  shm_links_ok (let '(fd, s) := fd_or_fake fd s in set_handler_at cpu with_libbpf table mc fd h s).2 ∧
  shm_links_ok (let '(fd, s) := new_fake_fd s in set_handler_at cpu with_libbpf table mc fd h s).2.
Proof.
  intros Hl Hh. pose proof (links_fd_or_fake fd s Hl) as H1. pose proof (links_new_fake_fd s Hl) as H2.
  destruct (fd_or_fake fd s) as [fd1 s1], (new_fake_fd s) as [fd2 s2]. split; apply links_set_handler_at; try done; by destruct h.
Qed.

Lemma links_attach perf bpf cookie s : shm_links_ok s → shm_links_ok (attach_perf_to_bpf cpu with_libbpf table mc perf bpf cookie s).2.
Proof.
  intros Hl. unfold attach_perf_to_bpf, add_bpf_prog_attach_target. destruct (is_perf_fd s perf) eqn:Ep; [|done].
  destruct (is_prog_fd s bpf) eqn:Eb; [|done]. cbn [negb]. pose proof (links_new_fake_fd s Hl) as H1.
  destruct (link_ok_fake s 0 (HLink (BpfLinkHandler bpf perf cookie)) (conj Eb Ep)) as [_ H2].
  destruct (new_fake_fd s) as [fd1 s1]. destruct (_ <? 0); [done|]. by apply links_ignoring, links_set_handler_at.
Qed.
Lemma links_link fd a s : is_perf_fd s (s32 (la_target_fd a)) = true → shm_links_ok s →
  shm_links_ok (add_bpf_link cpu with_libbpf table mc fd (Some a) s).2.
Proof.
  intros Ep Hl. unfold add_bpf_link. pose proof (links_fd_or_fake fd s Hl) as H1.
  assert (Hf : ∀ i, handler_at (fd_or_fake fd s).2 i = handler_at s i) by apply handler_at_fake.
  destruct (fd_or_fake fd s) as [fd1 s1]. cbn [snd] in *. destruct (is_prog_fd s1 _) eqn:Eb; [|done]. apply links_set_handler_at; [done|].
  split; [done|]. unfold is_perf_fd in *. by rewrite Hf.
Qed.
Lemma links_add_map fd name attr s : shm_links_ok s → shm_links_ok (add_bpf_map cpu with_libbpf table mc fd name attr s).2.
Proof.
  intros Hl. unfold add_bpf_map. pose proof (links_fd_or_fake fd s Hl) as H1. destruct (fd_or_fake fd s) as [fd1 s1].
  destruct (sh_manager s1); [|done]. pose proof (links_clear_for_new fd1 s1 H1) as H2.
  destruct (clear_for_new cpu with_libbpf table mc fd1 s1) as [[] s2]; try done. by apply links_set_handler_at.
Qed.
Lemma links_dup old new s : shm_links_ok s → shm_links_ok (dup_bpf_map cpu with_libbpf table mc old new s).2.
Proof.
  intros Hl. unfold dup_bpf_map. destruct (handler_at s old) as [[|h| | | | |]|]; try done.
  pose proof (links_fd_or_fake new s Hl) as H1. destruct (fd_or_fake new s) as [fd1 s1]. pose proof (links_clear_for_new fd1 s1 H1) as H2.
  destruct (clear_for_new cpu with_libbpf table mc fd1 s1) as [[] s2]; try done. destruct (_ =? _); [done|]. by apply links_set_handler_at.
Qed.

Lemma links_step s s' : shm_step s s' → shm_links_ok s → shm_links_ok s'.
Proof.
  intros Hs Hl. destruct Hs; auto using links_attach, links_link, links_add_map, links_dup; try by apply links_with_map.
  all: try by apply links_with_ringbuf.
  - unfold add_kprobe. destruct fd; [by apply links_set_handler_at|]. by apply (links_fresh 0).
  - by apply (links_fresh fd).
  - by apply (links_fresh fd).
  - by apply (links_fresh fd).
  - unfold add_software_perf_event, add_software_perf_event_at. pose proof (links_new_fake_fd s Hl) as H1. destruct (new_fake_fd s) as [fd1 s1].
    by apply links_set_handler_at.
  - unfold add_custom_perf_event. pose proof (links_new_fake_fd s Hl) as H1. destruct (new_fake_fd s) as [fd1 s1]. destruct (_ <? 0); [done|].
    by apply links_ignoring, links_set_handler_at.
  - unfold add_bpf_prog. pose proof (links_fresh fd) as H1. destruct (bpf_prog_handler_create insn n name) as [p|]; [by apply H1|].
    pose proof (links_fd_or_fake fd s Hl). by destruct (fd_or_fake fd s).
  - by apply (links_fresh 0).
  - by apply links_set_perf_event.
  - by apply links_set_perf_event.
  - unfold epoll_create. pose proof (links_new_fake_fd s Hl) as H1. destruct (new_fake_fd s) as [fd1 s1]. destruct (is_exist_fake_fd s1 fd1); [done|].
    by apply links_set_handler_at.
  - unfold add_software_perf_event_to_epoll. destruct (negb _); [done|]. destruct (handler_at s swpe) as [[]|]; try done.
    destruct (negb _); [done|]. destruct (try_get_software_perf_data_weak_ptr e); [|done]. by apply links_add_file.
  - unfold add_ringbuf_to_epoll. destruct (negb _); [done|]. destruct (handler_at s rb) as [[]|]; try done.
    destruct (try_get_ringbuf_map_impl h) as [[name|]|]; try done. destruct (ringbuf_object s name), (sh_births s !! name); try done. by apply links_add_file.
  - unfold bpftime_perf_event_output. destruct (handler_at s fd) as [[]|]; try done. destruct (try_get_software_perf_data_weak_ptr e) as [p|]; [|done].
    destruct (sh_perf s !! p) as [d|]; [|done]. by destruct (output_data d buf sz).
  - unfold get_software_perf_event_raw_buffer. destruct (handler_at s fd) as [[]|]; try done. destruct (negb _); [done|].
    by destruct (try_get_software_perf_data_raw_buffer (sh_perf s) e sz).
Qed.

(** C21 (invariant). Whatever the runtime does to a shared memory that it made, every link in the table is between a
    program and a perf event that are there, when the targets given to [bpf_link_create] are perf events. *)
Theorem shm_links_alive type config n k s0 s fd l :
  bpftime_shm_create type None config n k = Ok s0 → rtc shm_step s0 s → handler_at s fd = Some (HLink l) →
  is_prog_fd s (lk_prog_id l) = true ∧ is_perf_fd s (lk_attach_target_id l) = true.
Proof.
  intros Hc Hr Hh. assert (Hl : shm_links_ok s).
  { assert (H0 : shm_links_ok s0).
    { intros m Hm i l0 Hi. destruct type; try done; injection Hc as <-; try done; injection Hm as <-; apply lookup_replicate in Hi as [Hi _]; done. }
    clear Hc Hh. induction Hr as [|s s1 s2 Hs _ IH]; [done|]. apply IH. by eapply links_step. }
  destruct (handler_at_manager _ _ _ Hh) as (m&Hm&Hi). destruct (Hl m Hm _ _ Hi) as [[Hp [p Hpp]] [He [e Hee]]].
  unfold is_prog_fd, is_perf_fd, handler_at. rewrite Hm. cbn [mbind option_bind].
  by rewrite (proj2 (in_table_lookup m _) (conj Hp (mk_is_Some _ _ Hpp))), Hpp, (proj2 (in_table_lookup m _) (conj He (mk_is_Some _ _ Hee))), Hee.
Qed.

Lemma handler_at_in s m fd h : sh_manager s = Some m → handler_at s fd = Some h → in_table m fd = true ∧ handlers m !! Z.to_nat fd = Some h.
Proof. intros Hm. unfold handler_at. rewrite Hm. cbn [mbind option_bind]. by destruct (in_table m fd). Qed.

Lemma set_handler_at_free s m fd h : sh_manager s = Some m → handler_at s fd = Some unused_handler →
  match h with unused_handler | HMap _ => False | _ => True end →
  set_handler_at cpu with_libbpf table mc fd h s = (Ok fd, sh_set_manager s (put_handler m fd h)).
Proof.
  intros Hm Hh Hk. destruct (handler_at_in _ _ _ _ Hm Hh) as [Hin Hi]. unfold set_handler_at. rewrite Hm.
  unfold set_handler, is_allocated. rewrite out_of_table, Hin, Hi. cbn [negb unused]. by destruct h.
Qed.
Lemma set_handler_at_taken s m fd h h0 : sh_manager s = Some m → handler_at s fd = Some h0 → h0 ≠ unused_handler →
  match h with HMap _ => False | _ => True end → set_handler_at cpu with_libbpf table mc fd h s = (Raw (- errno_val EEXIST), sh_set_manager s m).
Proof.
  intros Hm Hh Hne Hk. destruct (handler_at_in _ _ _ _ Hm Hh) as [Hin Hi]. unfold set_handler_at. rewrite Hm.
  unfold set_handler, is_allocated. rewrite out_of_table, Hin, Hi. cbn [negb]. destruct h0; try done; by destruct h.
Qed.
Lemma handler_at_put s m fd h i : sh_manager s = Some m → is_Some (handler_at s fd) →
  handler_at (sh_set_manager s (put_handler m fd h)) i = if decide (i = fd) then Some h else handler_at s i.
Proof.
  intros Hm [h0 Hh]. destruct (handler_at_in _ _ _ _ Hm Hh) as [Hin Hi]. unfold handler_at. rewrite Hm. cbn [sh_manager sh_set_manager mbind option_bind].
  unfold in_table, size, put_handler. cbn [handlers]. unfold zlen. rewrite length_insert.
  destruct (in_table_lookup m fd) as [Hf _]. specialize (Hf Hin) as [Hfd _]. case_decide as Hc.
  - subst i. unfold in_table, size, zlen in Hin. rewrite Hin. apply list_lookup_insert_eq. by eapply lookup_lt_Some.
  - destruct (negb _) eqn:Eb; [|done]. apply negb_true_iff, orb_false_iff in Eb as [Eb _]. apply Z.ltb_ge in Eb.
    apply list_lookup_insert_ne. lia.
Qed.

Lemma sh_set_set s m m' : sh_set_manager (sh_set_manager s m) m' = sh_set_manager s m'.
Proof. done. Qed.

(** Closing a program or a perf event clears a link to it. *)
Lemma close_clears_link s fd n l : handler_at s n = Some (HLink l) →
  is_prog_fd s fd = true ∧ lk_prog_id l = fd ∨ is_perf_fd s fd = true ∧ lk_attach_target_id l = fd →
  (close_fd cpu with_libbpf table mc fd s).1 = Ok tt ∧ handler_at (close_fd cpu with_libbpf table mc fd s).2 n = Some unused_handler.
Proof.
  intros Hn Hfd. destruct (handler_at_manager _ _ _ Hn) as (m&Hm&Hi). destruct (handler_at_in _ _ _ _ Hm Hn) as [Hin _].
  assert (Hh : ∃ h, handler_at s fd = Some h ∧ match h with HMap _ => False | _ => True end ∧ refers m fd l = true).
  { unfold is_prog_fd, is_perf_fd in Hfd. unfold refers.
    destruct Hfd as [[Hf Hl]|[Hf Hl]]; destruct (handler_at s fd) as [h|] eqn:Eh; try done; destruct h; try done;
      destruct (handler_at_in _ _ _ _ Hm Eh) as [_ ->]; eexists; (split; [done|]); (split; [done|]); lia. }
  destruct Hh as (h&Hh&Hk&Hr). destruct (handler_at_in _ _ _ _ Hm Hh) as [Hinf Hif].
  destruct (clear_id_at_ok m fd Hinf) as (hs&Hc&Hlen&Hhs); [intros h' Hh'; rewrite Hif in Hh'; injection Hh' as ->; done|].
  unfold close_fd. rewrite Hm, Hc. cbn [fst snd]. split; [done|]. unfold handler_at. cbn [sh_manager sh_set_manager mbind option_bind].
  unfold in_table, size, zlen in *. cbn [handlers]. rewrite Hlen, Hin, Hhs. unfold cleared.
  case_decide as Hd; [done|]. rewrite Hi. cbn. by rewrite Hr.
Qed.

(** Attaching a program to a perf event makes a link under a new descriptor, when its entry in the table
    is free, and closing the program or the perf event later clears the link. *)
Theorem attach_close perf bpf cookie s n k : open_fake_fd (sh_fds s) = (n, k) →
  is_perf_fd s perf = true → is_prog_fd s bpf = true → handler_at s n = Some unused_handler →
  ∃ s', attach_perf_to_bpf cpu with_libbpf table mc perf bpf cookie s = (Ok n, s') ∧
    handler_at s' n = Some (HLink (BpfLinkHandler bpf perf cookie)) ∧ (∀ i, i ≠ n → handler_at s' i = handler_at s i) ∧
    ∀ fd, fd = bpf ∨ fd = perf →
      (close_fd cpu with_libbpf table mc fd s').1 = Ok tt ∧ handler_at (close_fd cpu with_libbpf table mc fd s').2 n = Some unused_handler.
Proof.
  intros Hk Hp Hb Hn. destruct (handler_at_manager _ _ _ Hn) as (m&Hm&_). set (l := BpfLinkHandler bpf perf cookie).
  assert (Hn0 : (n <? 0) = false).
  { destruct (handler_at_in _ _ _ _ Hm Hn) as [Hin _]. apply in_table_lookup in Hin as [? _]. by apply Z.ltb_ge. }
  exists (sh_set_manager (sh_set_fds s k) (put_handler m n (HLink l))).
  assert (Hat : ∀ i, handler_at (sh_set_manager (sh_set_fds s k) (put_handler m n (HLink l))) i = if decide (i = n) then Some (HLink l) else handler_at s i).
  { intros i. rewrite (handler_at_put (sh_set_fds s k) m n (HLink l) i Hm); [done|]. by eexists. }
  split; [|split; [by rewrite Hat, decide_True|split; [intros i Hi; by rewrite Hat, decide_False|]]].
  - unfold attach_perf_to_bpf, add_bpf_prog_attach_target, new_fake_fd. rewrite Hp, Hb, Hk. cbn [negb]. rewrite Hn0. fold l.
    by rewrite (set_handler_at_free (sh_set_fds s k) m n (HLink l) Hm Hn I).
  - assert (Hne : bpf ≠ n ∧ perf ≠ n). { unfold is_prog_fd, is_perf_fd in *. split; intros ->; by rewrite Hn in *. }
    intros fd Hfd. apply (close_clears_link _ fd n l); [by rewrite Hat, decide_True|]. unfold is_prog_fd, is_perf_fd.
    destruct Hfd as [-> | ->]; [left|right]; rewrite Hat, decide_False by apply Hne; done.
Qed.

(** The number of the new descriptor comes from the process, and the table is shared with other processes: when
    its entry is taken, attaching makes no link and still returns the descriptor, as if it had. *)
Theorem attach_taken_entry_lost perf bpf cookie s n k h : open_fake_fd (sh_fds s) = (n, k) →
  is_perf_fd s perf = true → is_prog_fd s bpf = true → handler_at s n = Some h → h ≠ unused_handler →
  ∃ s', attach_perf_to_bpf cpu with_libbpf table mc perf bpf cookie s = (Ok n, s') ∧ ∀ i, handler_at s' i = handler_at s i.
Proof.
  intros Hk Hp Hb Hn Hne. destruct (handler_at_manager _ _ _ Hn) as (m&Hm&_).
  assert (Hn0 : (n <? 0) = false).
  { destruct (handler_at_in _ _ _ _ Hm Hn) as [Hin _]. apply in_table_lookup in Hin as [? _]. by apply Z.ltb_ge. }
  exists (sh_set_manager (sh_set_fds s k) m). split; [|intros i; unfold handler_at; cbn; by rewrite Hm].
  unfold attach_perf_to_bpf, add_bpf_prog_attach_target, new_fake_fd. rewrite Hp, Hb, Hk. cbn [negb]. rewrite Hn0.
  by rewrite (set_handler_at_taken (sh_set_fds s k) m n (HLink (BpfLinkHandler bpf perf cookie)) h Hm Hn Hne I).
Qed.

(** [bpf_link_create] checks the program and not the target: it makes a link to a descriptor that is not a
    perf event. *)
Theorem link_target_unchecked fd a s : 0 ≤ fd → handler_at s fd = Some unused_handler →
  is_prog_fd s (s32 (la_prog_fd a)) = true → is_perf_fd s (s32 (la_target_fd a)) = false →
  ∃ s' l, add_bpf_link cpu with_libbpf table mc fd (Some a) s = (Ok fd, s') ∧ handler_at s' fd = Some (HLink l) ∧
    lk_attach_target_id l = s32 (la_target_fd a) ∧ is_perf_fd s' (lk_attach_target_id l) = false.
Proof.
  intros H0 Hn Hp Ht. destruct (handler_at_manager _ _ _ Hn) as (m&Hm&_). set (l := BpfLinkHandler (s32 (la_prog_fd a)) (s32 (la_target_fd a)) None).
  exists (sh_set_manager s (put_handler m fd (HLink l))), l.
  assert (Hat := handler_at_put s m fd (HLink l)). unfold add_bpf_link, fd_or_fake. rewrite (proj2 (Z.ltb_ge fd 0) H0), Hp. cbn [negb]. fold l.
  rewrite (set_handler_at_free s m fd (HLink l) Hm Hn I). split; [done|]. split; [rewrite Hat by (done || by eexists); by rewrite decide_True|].
  split; [done|]. unfold is_perf_fd in *. rewrite Hat by (done || by eexists). cbn [l lk_attach_target_id]. by case_decide.
Qed.
End links.

(** A process that made a shared memory with eight entries, a program (4) and a tracepoint (5). *)
Definition demo_runtime : Type :=
  bpftime_shm (U := gmap (list Z) (list Z)) (UL := gmap (list Z) hash_map_value) (F := unit) (K := list Z) (C := unit).
Definition demo_new : demo_runtime :=
  match bpftime_shm_create SHM_CREATE_OR_OPEN None tt 8 [2; 1; 0] with Ok s => s | _ => BpftimeShm SHM_NO_CREATE None None None None None ∅ ∅ 1 [] end.
Definition demo_prog (s : demo_runtime) : demo_runtime := (add_bpf_prog 0 true demo_table demo_machine 4 [] 0 "prog" s).2.
Definition demo_point (s : demo_runtime) : demo_runtime := (add_tracepoint 0 true demo_table demo_machine 5 (-1) 7 s).2.
Definition demo_attach (s : demo_runtime) : res Z * demo_runtime := attach_perf_to_bpf 0 true demo_table demo_machine 5 4 (Some 9) s.
Definition demo_ready : demo_runtime := demo_point (demo_prog demo_new).

Lemma shm_links_alive_witness :
  let s := (demo_attach demo_ready).2 in
  handler_at s 3 = Some (HLink (BpfLinkHandler 4 5 (Some 9))) ∧ is_prog_fd s 4 = true ∧ is_perf_fd s 5 = true.
Proof.
  cbn zeta. assert (Hl : handler_at (demo_attach demo_ready).2 3 = Some (HLink (BpfLinkHandler 4 5 (Some 9)))) by (vm_compute; done).
  split; [exact Hl|].
  apply (shm_links_alive 0 true demo_table demo_machine SHM_CREATE_OR_OPEN tt 8 [2; 1; 0] demo_new _ 3 (BpfLinkHandler 4 5 (Some 9)));
    [done| |exact Hl].
  eapply rtc_l; [apply (st_prog 0 true demo_table demo_machine 4 [] 0 "prog")|].
  eapply rtc_l; [apply (st_tracepoint 0 true demo_table demo_machine 5 (-1) 7)|].
  eapply rtc_l; [apply (st_attach 0 true demo_table demo_machine 5 4 (Some 9))|apply rtc_refl].
Defined.

Lemma attach_close_witness :
  let r := demo_attach demo_ready in
  r.1 = Ok 3 ∧ handler_at (close_fd 0 true demo_table demo_machine 4 r.2).2 3 = Some unused_handler ∧
  handler_at (close_fd 0 true demo_table demo_machine 5 r.2).2 3 = Some unused_handler.
Proof.
  cbn zeta. destruct (attach_close 0 true demo_table demo_machine 5 4 (Some 9) demo_ready 3 [3; 2; 1; 0]) as (s'&Hs&_&_&Hc);
    [vm_compute; done|vm_compute; done|vm_compute; done|vm_compute; done|].
  unfold demo_attach. rewrite Hs. split; [done|]. split; [apply (Hc 4); by left|apply (Hc 5); by right].
Defined.

(** Another process made a program at entry 3. *)
Lemma attach_taken_entry_lost_witness :
  let s := (add_bpf_prog 0 true demo_table demo_machine 3 [] 0 "other" demo_ready).2 in
  (demo_attach s).1 = Ok 3 ∧ handler_at (demo_attach s).2 3 = Some (HProg (BpfProgHandler [] [] "other")).
Proof.
  cbn zeta. set (s := (add_bpf_prog 0 true demo_table demo_machine 3 [] 0 "other" demo_ready).2).
  destruct (attach_taken_entry_lost 0 true demo_table demo_machine 5 4 (Some 9) s 3 [3; 2; 1; 0] (HProg (BpfProgHandler [] [] "other")))
    as (s'&Hs&Ha); [vm_compute; done|vm_compute; done|vm_compute; done|vm_compute; done|done|].
  unfold demo_attach. rewrite Hs. split; [done|]. cbn [snd]. rewrite Ha. vm_compute. done.
Defined.

(** A link to descriptor 6, which is not in use. *)
Lemma link_target_unchecked_witness : ∃ s', add_bpf_link 0 true demo_table demo_machine 7 (Some (BpfLinkCreateArgs 4 6)) demo_ready = (Ok 7, s') ∧
  ∃ l, handler_at s' 7 = Some (HLink l) ∧ lk_attach_target_id l = 6 ∧ is_perf_fd s' 6 = false.
Proof.
  destruct (link_target_unchecked 0 true demo_table demo_machine 7 (BpfLinkCreateArgs 4 6) demo_ready) as (s'&l&Ha&Hh&Ht&Hp);
    [lia|vm_compute; done|vm_compute; done|vm_compute; done|].
  exists s'. split; [exact Ha|]. exists l. split; [exact Hh|]. change (s32 (la_target_fd (BpfLinkCreateArgs 4 6))) with 6 in Ht.
  rewrite Ht in Hp. done.
Defined.
