(* ===== verification/ShmMaps.v ===== *)
(** * Maps behind descriptors

    Maps that are made, used and duplicated through the descriptors of the shared memory, and the map pointers of
    programs: the theorems on the implementations carry over to what a process sees. *)

From stdpp Require Import base numbers list gmap strings.
From S2P Require Import Prelude.
From S2P Require Import ArrayMap.
From S2P Require Import FdArray.
From S2P Require Import UnorderedMap.
From S2P Require Import LruHashMap.
From S2P Require Import MapHandler.
From S2P Require Import HandlerManager.
From S2P Require Import Shm.
From S2P Require Import ShmProps.

Section maps.
Context {U : Type} `{!UnorderedMap (list Z) U} {UL : Type} `{!UnorderedMap hash_map_value UL}.
Context `{Kernel} {F : Type} `{!KernelUserMaps F} (cpu : Z) (with_libbpf : bool) (table : ops_table) (mc : machine).
Context {K : Type} `{!PosixFds K} {C : Type}.

Abbreviation shm := (bpftime_shm (U := U) (UL := UL) (F := F) (K := K) (C := C)).
Implicit Types s : shm.
#[local] Hint Extern 0 (MapHandlerOps _ _) => exact (shm_map_ops cpu with_libbpf table mc) : typeclass_instances.

(** An operation on the map at a descriptor. *)
Definition shm_map_step (fd : Z) (fs : bool) s (op : map_op) : map_ans * shm :=
  match op with
  | OpLookup k => answer AnsPtr (bpf_map_lookup_elem cpu with_libbpf table fd k fs s)
  | OpUpdate k v f => answer AnsUnit (bpf_map_update_elem cpu with_libbpf table fd k v f fs s)
  | OpDelete k => answer AnsUnit (bpf_delete_elem cpu with_libbpf table fd k fs s)
  | OpNextKey k out => answer AnsBytes (shm_map_get_next_key cpu with_libbpf table fd k out fs s)
  | OpPush v f => answer AnsUnit (bpf_map_push_elem fd v f fs s)
  | OpPop v => answer AnsBytes (bpf_map_pop_elem fd v fs s)
  | OpPeek v => answer AnsBytes (bpf_map_peek_elem fd v fs s)
  end.

(** The shared memory with other objects. *)
Definition with_objects s (hs : list handler) w : shm := sh_set_manager s (HandlerManager hs w).

Lemma handler_at_objects s m w fd : sh_manager s = Some m → handler_at (with_objects s (handlers m) w) fd = handler_at s fd.
Proof. intros Hm. unfold handler_at, in_table, size. by rewrite Hm. Qed.

Lemma shm_map_step_ok s m fd fs h op : sh_manager s = Some m → handler_at s fd = Some (HMap h) →
  shm_map_step fd fs s op =
    ((handler_step cpu with_libbpf table h fs (memory m) op).1, with_objects s (handlers m) (handler_step cpu with_libbpf table h fs (memory m) op).2).
Proof.
  intros Hm Hh. destruct op; unfold shm_map_step, bpf_map_lookup_elem, bpf_map_update_elem, bpf_delete_elem, shm_map_get_next_key,
    bpf_map_push_elem, bpf_map_pop_elem, bpf_map_peek_elem, with_map, handler_step, answer; rewrite Hm, Hh; by case_match.
Qed.

Lemma shm_map_run_ok fd fs h ops : ∀ s m, sh_manager s = Some m → handler_at s fd = Some (HMap h) →
  run (shm_map_step fd fs) s ops =
    ((run (handler_step cpu with_libbpf table h fs) (memory m) ops).1,
     with_objects s (handlers m) (run (handler_step cpu with_libbpf table h fs) (memory m) ops).2).
Proof.
  induction ops as [|op ops IH]; intros s m Hm Hh; cbn [run].
  { cbn [fst snd]. f_equal. unfold with_objects, sh_set_manager. destruct s, m; cbn in *. by rewrite Hm. }
  rewrite (shm_map_step_ok s m fd fs h op Hm Hh). destruct (handler_step cpu with_libbpf table h fs (memory m) op) as [a w]. cbn [fst snd].
  rewrite (IH _ (HandlerManager (handlers m) w)) by (done || by rewrite handler_at_objects). cbn [handlers memory].
  by destruct (run _ w ops).
Qed.

(** Making a map on a free entry. *)
Lemma set_map_ok fd h s m h' w' : sh_manager s = Some m → handler_at s fd = Some unused_handler →
  map_init cpu with_libbpf table mc h (memory m) = (Ok tt, h', w') →
  ∃ s1, set_handler_at cpu with_libbpf table mc fd (HMap h) s = (Ok fd, s1) ∧
    sh_manager s1 = Some (HandlerManager (<[Z.to_nat fd := HMap h']> (handlers m)) w').
Proof.
  intros Hm Hh Hi. unfold set_handler_at. rewrite Hm. destruct (handler_at_in _ _ _ _ Hm Hh) as [Hin Hi0].
  unfold set_handler, is_allocated. rewrite out_of_table, Hin, Hi0. cbn [negb unused].
  change (mho_init h (memory (put_handler m fd (HMap h)))) with (map_init cpu with_libbpf table mc h (memory m)). rewrite Hi.
  cbn [put_handler handlers memory]. rewrite list_insert_insert_eq.
  destruct (memory m !! get_container_name h), (w' !! get_container_name h); by eexists.
Qed.

(** What the operations on a new map do. *)
Lemma new_map_runs fd h s m fs c h' w' s1 ops : sh_manager s = Some m → handler_at s fd = Some unused_handler →
  class_of cpu with_libbpf mc (mh_type h) fs = Some c → memory m !! get_container_name h = None →
  map_init cpu with_libbpf table mc h (memory m) = (Ok tt, h', w') →
  sh_manager s1 = Some (HandlerManager (<[Z.to_nat fd := HMap h']> (handlers m)) w') →
  ∃ s2 st, ic_create c h = Ok st ∧ run (shm_map_step fd fs) s1 ops = ((run (class_step c) st ops).1, s2) ∧
    (∀ i, i ≠ fd → handler_at s2 i = handler_at s i) ∧
    ∃ m2, sh_manager s2 = Some m2 ∧ memory m2 = <[get_container_name h := class_inj c (run (class_step c) st ops).2]> (memory m).
Proof.
  intros Hm Hh Hc Hw Hi Hm1. destruct (map_init_ok cpu with_libbpf table mc h (memory m) h' w' c fs Hc Hw Hi) as (st&Hst&->&->).
  destruct (handler_at_in _ _ _ _ Hm Hh) as [Hin Hi0]. set (h1 := with_ptr h (Some (get_container_name h))) in *.
  assert (Hat : ∀ w i, handler_at (with_objects s1 (<[Z.to_nat fd := HMap h1]> (handlers m)) w) i = if decide (i = fd) then Some (HMap h1) else handler_at s i).
  { intros w i. rewrite <- (handler_at_put s m fd (HMap h1) i Hm) by (by eexists). done. }
  assert (Hh1 : handler_at s1 fd = Some (HMap h1)).
  { pose proof (Hat (<[get_container_name h := class_inj c st]> (memory m)) fd) as Hx. rewrite decide_True in Hx by done.
    unfold handler_at in *. rewrite Hm1. exact Hx. }
  eexists _, st. split; [done|].
  rewrite (shm_map_run_ok fd fs h1 ops s1 _ Hm1 Hh1). cbn [memory handlers].
  rewrite (handler_run_ok cpu with_libbpf table mc h1 fs c (get_container_name h) ops st) by (done || apply lookup_insert_eq). cbn [fst snd].
  split; [done|]. split; [intros i Hne; by rewrite Hat, decide_False|].
  eexists. split; [done|]. cbn [memory]. apply insert_insert_eq.
Qed.

Lemma add_bpf_map_ok fd name attr s m h' w' : 0 ≤ fd → sh_manager s = Some m → handler_at s fd = Some unused_handler →
  map_init cpu with_libbpf table mc (bpf_map_handler_create fd name attr) (memory m) = (Ok tt, h', w') →
  ∃ s1, add_bpf_map cpu with_libbpf table mc fd name attr s = (Ok fd, s1) ∧
    sh_manager s1 = Some (HandlerManager (<[Z.to_nat fd := HMap h']> (handlers m)) w').
Proof.
  intros H0 Hm Hh Hi. unfold add_bpf_map, fd_or_fake. rewrite (proj2 (Z.ltb_ge fd 0) H0), Hm. unfold clear_for_new. rewrite Hh. cbn [unused].
  by apply (set_map_ok fd _ s m h' w').
Qed.

(** A map that is made on a free descriptor answers every sequence of operations on that descriptor as
    the implementation of its type does, from a new object on; the handlers at other descriptors and the objects of other
    maps stay as they are. *)
Theorem shm_map_transparent fd name attr s m fs c h' w' ops :
  let h := bpf_map_handler_create fd name attr in
  0 ≤ fd → sh_manager s = Some m → handler_at s fd = Some unused_handler →
  class_of cpu with_libbpf mc (at_type attr) fs = Some c → memory m !! get_container_name h = None →
  map_init cpu with_libbpf table mc h (memory m) = (Ok tt, h', w') →
  ∃ s1 s2 st, add_bpf_map cpu with_libbpf table mc fd name attr s = (Ok fd, s1) ∧ ic_create c h = Ok st ∧
    run (shm_map_step fd fs) s1 ops = ((run (class_step c) st ops).1, s2) ∧
    (∀ i, i ≠ fd → handler_at s2 i = handler_at s i) ∧
    ∃ m2, sh_manager s2 = Some m2 ∧ memory m2 = <[get_container_name h := class_inj c (run (class_step c) st ops).2]> (memory m).
Proof.
  intros h H0 Hm Hh Hc Hw Hi. destruct (add_bpf_map_ok fd name attr s m h' w' H0 Hm Hh Hi) as (s1&Ha&Hm1).
  destruct (new_map_runs fd h s m fs c h' w' s1 ops Hm Hh Hc Hw Hi Hm1) as (s2&st&Hst&Hr). by exists s1, s2, st.
Qed.

(** A duplicate of a map is not another name for it: it is a new map of the type of the first one and
    answers from an empty object on, whatever the first map has. *)
Theorem dup_is_new_map old new s m h fs c h' w' ops :
  let hd := bpf_map_handler_create new ("dup_" +:+ mh_name h)%string (mh_attr h) in
  0 ≤ new → new ≠ old → sh_manager s = Some m → handler_at s old = Some (HMap h) → handler_at s new = Some unused_handler →
  class_of cpu with_libbpf mc (at_type (mh_attr h)) fs = Some c → memory m !! get_container_name hd = None →
  map_init cpu with_libbpf table mc hd (memory m) = (Ok tt, h', w') →
  ∃ s1 st, dup_bpf_map cpu with_libbpf table mc old new s = (Ok new, s1) ∧ ic_create c hd = Ok st ∧
    (run (shm_map_step new fs) s1 ops).1 = (run (class_step c) st ops).1.
Proof.
  intros hd H0 Hne Hm Ho Hh Hc Hw Hi. destruct (set_map_ok new hd s m h' w' Hm Hh Hi) as (s1&Ha&Hm1).
  destruct (new_map_runs new hd s m fs c h' w' s1 ops Hm Hh Hc Hw Hi Hm1) as (s2&st&Hst&Hr&_). exists s1, st.
  split; [|split; [done|by rewrite Hr]]. unfold dup_bpf_map, fd_or_fake. rewrite Ho, (proj2 (Z.ltb_ge new 0) H0). unfold clear_for_new. rewrite Hh.
  cbn [unused]. by rewrite (proj2 (Z.eqb_neq new old) Hne).
Qed.

(** ** Maps of one name *)

(** A map whose name is taken is not made; the handler stays in the table. *)
Lemma map_init_taken h (w : gmap string (map_impl (U := U) (UL := UL) (F := F))) : is_Some (w !! get_container_name h) →
  ∃ r p, map_init cpu with_libbpf table mc h w = (r, with_ptr h p, w) ∨ map_init cpu with_libbpf table mc h w = (r, h, w).
Proof.
  intros [o Ho]. unfold map_init, construct. rewrite Ho. exists (map_init cpu with_libbpf table mc h w).1.1, None.
  unfold map_init, construct. rewrite Ho.
  destruct (mh_type h); repeat case_match; simplify_eq; auto.
Qed.
Lemma add_bpf_map_taken fd name attr s m : 0 ≤ fd → sh_manager s = Some m → handler_at s fd = Some unused_handler →
  is_Some (memory m !! get_container_name (bpf_map_handler_create fd name attr)) →
  ∃ p, sh_manager (add_bpf_map cpu with_libbpf table mc fd name attr s).2 =
         Some (HandlerManager (<[Z.to_nat fd := HMap (with_ptr (bpf_map_handler_create fd name attr) p)]> (handlers m)) (memory m)).
Proof.
  intros H0 Hm Hh Hw. set (h := bpf_map_handler_create fd name attr) in *. destruct (map_init_taken h (memory m) Hw) as (r&p&Hi).
  assert (Hi' : ∃ p, map_init cpu with_libbpf table mc h (memory m) = (r, with_ptr h p, memory m)).
  { destruct Hi as [Hi|Hi]; [by exists p|exists (mh_map_impl_ptr h)]. rewrite Hi. by destruct h. }
  clear Hi p. destruct Hi' as [p Hi]. exists p.
  unfold add_bpf_map, fd_or_fake. rewrite (proj2 (Z.ltb_ge fd 0) H0), Hm. unfold clear_for_new. rewrite Hh. cbn [unused]. fold h.
  unfold set_handler_at. rewrite Hm. destruct (handler_at_in _ _ _ _ Hm Hh) as [Hin Hi0].
  unfold set_handler, is_allocated. rewrite out_of_table, Hin, Hi0. cbn [negb unused].
  change (mho_init h (memory (put_handler m fd (HMap h)))) with (map_init cpu with_libbpf table mc h (memory m)). rewrite Hi.
  cbn [put_handler handlers memory]. rewrite list_insert_insert_eq. destruct Hw as [o Ho].
  by destruct r; cbn [memory]; rewrite Ho.
Qed.

Lemma lookup_dangling h key fs c p (w : gmap string (map_impl (U := U) (UL := UL) (F := F))) :
  class_of cpu with_libbpf mc (mh_type h) fs = Some c → mh_map_impl_ptr h = Some p → w !! p = None →
  (map_lookup_elem cpu with_libbpf table h key fs w).1 = Fault.
Proof.
  intros Hc Hp Hw. unfold map_lookup_elem, call_impl. rewrite Hp, Hw.
  destruct (mh_type h); cbn [class_of] in Hc; try destruct with_libbpf; try discriminate Hc; by destruct fs.
Qed.

(** Maps of one name share the name of their object. When a map is made that has the name of another one and
    is closed again, the object of the first map is destroyed: lookups on the first map follow a pointer to freed memory. *)
Theorem same_name_close_destroys fd1 fd2 attr s m h1 c fs key :
  sh_manager s = Some m → handler_at s fd1 = Some (HMap h1) → mh_map_impl_ptr h1 = Some (get_container_name h1) →
  is_Some (memory m !! get_container_name h1) → class_of cpu with_libbpf mc (mh_type h1) fs = Some c →
  0 ≤ fd2 → fd2 ≠ fd1 → handler_at s fd2 = Some unused_handler → freed_type with_libbpf (at_type attr) = true →
  let s1 := (add_bpf_map cpu with_libbpf table mc fd2 (mh_name h1) attr s).2 in
  let s2 := (close_fd cpu with_libbpf table mc fd2 s1).2 in
  handler_at s2 fd1 = Some (HMap h1) ∧ (bpf_map_lookup_elem cpu with_libbpf table fd1 key fs s2).1 = Fault.
Proof.
  intros Hm H1 Hp Hw Hc H0 Hne H2 Hf s1 s2. destruct (add_bpf_map_taken fd2 (mh_name h1) attr s m H0 Hm H2 Hw) as [p Hm1]. fold s1 in Hm1.
  set (h2 := with_ptr (bpf_map_handler_create fd2 (mh_name h1) attr) p) in *.
  destruct (handler_at_in _ _ _ _ Hm H1) as [Hin1 Hi1], (handler_at_in _ _ _ _ Hm H2) as [Hin2 Hi2].
  assert (Hd : Z.to_nat fd1 ≠ Z.to_nat fd2). { apply in_table_lookup in Hin1 as [? _]. lia. }
  set (m1 := HandlerManager (<[Z.to_nat fd2 := HMap h2]> (handlers m)) (memory m)) in *.
  assert (Hlen : length (handlers m1) = length (handlers m)) by apply length_insert.
  assert (Hfree : mho_free h2 (memory m1) = (Ok tt, with_ptr h2 None, delete (get_container_name h1) (memory m))).
  { change (map_free with_libbpf table h2 (memory m) = (Ok tt, with_ptr h2 None, delete (get_container_name h1) (memory m))).
    unfold map_free. cbn [h2 with_ptr mh_type bpf_map_handler_create]. unfold freed_type in Hf.
    destruct (at_type attr); try discriminate Hf; try rewrite Hf; done. }
  destruct (clear_id_at_ok m1 fd2) as (hs&Hcl&Hl&Hhs).
  { unfold in_table, size, zlen in *. by rewrite Hlen. }
  { intros h Hh. cbn [m1 handlers] in Hh. rewrite list_lookup_insert_eq in Hh by (by eapply lookup_lt_Some). injection Hh as <-. by rewrite Hfree. }
  assert (Hs2 : sh_manager s2 = Some (HandlerManager hs (delete (get_container_name h1) (memory m)))).
  { unfold s2, close_fd. rewrite Hm1. fold m1. rewrite Hcl. cbn [sh_manager sh_set_manager snd m1 handlers].
    rewrite list_lookup_insert_eq by (by eapply lookup_lt_Some). by rewrite Hfree. }
  assert (Hat : handler_at s2 fd1 = Some (HMap h1)).
  { unfold handler_at. rewrite Hs2. cbn [mbind option_bind]. unfold in_table, size, zlen in *. cbn [handlers]. rewrite Hl, Hlen, Hin1, Hhs. unfold cleared.
    rewrite decide_False by done. cbn [m1 handlers]. by rewrite list_lookup_insert_ne, Hi1 by done. }
  split; [done|]. unfold bpf_map_lookup_elem, with_map. rewrite Hs2, Hat. cbn [memory handlers].
  pose proof (lookup_dangling h1 key fs c _ (delete (get_container_name h1) (memory m)) Hc Hp (lookup_delete_eq _ _)) as Hl'.
  by destruct (map_lookup_elem _ _ _ h1 key fs _).
Qed.

(** ** Map pointers *)

(** The pointer to a map leads back to its descriptor. *)
Lemma map_ptr_fd s fd : 0 ≤ fd < 2 ^ 31 → is_map_fd s fd = true → s32 (Z.shiftr (map_ptr_by_fd s fd) 32) = fd.
Proof.
  intros Hfd Hm. unfold map_ptr_by_fd. rewrite (s32_small fd) by lia. rewrite Hm, Z.shiftr_lor, Z.shiftr_shiftl_l, Z.shiftl_0_r by lia.
  change (Z.shiftr 0xffffffff 32) with 0. rewrite Z.lor_0_r. by apply s32_small.
Qed.
End maps.

(** A map is made, used and compared with the implementation. *)
Lemma shm_map_transparent_witness :
  let attr := demo_attr BPF_MAP_TYPE_ARRAY 4 2 3 in
  ∃ s1 : demo_runtime, add_bpf_map 0 true demo_table demo_machine 4 "m" attr demo_new = (Ok 4, s1) ∧
    (run (shm_map_step 0 true demo_table 4 false) s1 demo_array_ops).1 =
      [AnsUnit (Ok tt); AnsPtr (Ok (InData 2)); AnsPtr (Err ENOENT); AnsBytes (Raw (-95)); AnsBytes (Ok [1; 0; 0; 0])].
Proof.
  cbn zeta. set (attr := demo_attr BPF_MAP_TYPE_ARRAY 4 2 3). set (m := match sh_manager demo_new with Some m => m | None => HandlerManager [] ∅ end).
  destruct (shm_map_transparent 0 true demo_table demo_machine 4 "m" attr demo_new m false
    (plain array_map_impl (λ h, Ok (array_map_create (mh_value_size h) (mh_max_entries h))))
    (map_init 0 true demo_table demo_machine (bpf_map_handler_create 4 "m" attr) (memory m)).1.2
    (map_init 0 true demo_table demo_machine (bpf_map_handler_create 4 "m" attr) (memory m)).2 demo_array_ops)
    as (s1&s2&st&Ha&Hst&Hr&_);
    [lia|reflexivity|vm_compute; reflexivity|reflexivity|reflexivity|reflexivity|].
  injection Hst as <-. exists s1. split; [exact Ha|]. rewrite Hr. vm_compute. done.
Defined.

(** A value is in the queue; its duplicate is empty. *)
Lemma dup_is_new_map_witness :
  let attr := demo_attr BPF_MAP_TYPE_QUEUE 0 2 3 in
  let s := (add_bpf_map 0 true demo_table demo_machine 4 "q" attr demo_new).2 in
  let s := (bpf_map_push_elem 4 (Some [7; 8]) 0 false s).2 in
  ∃ s1 : demo_runtime, dup_bpf_map 0 true demo_table demo_machine 4 5 s = (Ok 5, s1) ∧
    (run (shm_map_step 0 true demo_table 5 false) s1 [OpPop (Some [])]).1 = [AnsBytes (Err ENOENT)].
Proof.
  cbn zeta. set (attr := demo_attr BPF_MAP_TYPE_QUEUE 0 2 3). set (s := (bpf_map_push_elem 4 _ 0 false _).2).
  set (m := match sh_manager s with Some m => m | None => HandlerManager [] ∅ end).
  set (h := with_ptr (bpf_map_handler_create 4 "q" attr) (Some "ebpf_map_fd_q")).
  destruct (dup_is_new_map 0 true demo_table demo_machine 4 5 s m h false
    (match class_of 0 true demo_machine BPF_MAP_TYPE_QUEUE false with Some c => c | None => plain array_map_impl (λ h, Fault) end)
    (map_init 0 true demo_table demo_machine (bpf_map_handler_create 5 "dup_q" attr) (memory m)).1.2
    (map_init 0 true demo_table demo_machine (bpf_map_handler_create 5 "dup_q" attr) (memory m)).2 [OpPop (Some [])])
    as (s1&st&Ha&Hst&Hr);
    [lia|lia|vm_compute; reflexivity|vm_compute; reflexivity|vm_compute; reflexivity|reflexivity|vm_compute; reflexivity|vm_compute; reflexivity|].
  exists s1. split; [exact Ha|]. rewrite Hr. injection Hst as <-. vm_compute. done.
Defined.

(** Another map named "m" is made and closed. *)
Lemma same_name_close_destroys_witness :
  let attr := demo_attr BPF_MAP_TYPE_ARRAY 4 2 3 in
  let s := (add_bpf_map 0 true demo_table demo_machine 4 "m" attr demo_new).2 in
  let s1 := (add_bpf_map 0 true demo_table demo_machine 5 "m" attr s).2 in
  let s2 := (close_fd 0 true demo_table demo_machine 5 s1).2 in
  (bpf_map_lookup_elem 0 true demo_table 4 (key32 1) false s).1 = Ok (InData 2) ∧
  (bpf_map_lookup_elem 0 true demo_table 4 (key32 1) false (s2 : demo_runtime)).1 = Fault.
Proof.
  cbn zeta. split; [vm_compute; reflexivity|]. set (attr := demo_attr BPF_MAP_TYPE_ARRAY 4 2 3).
  set (s := (add_bpf_map 0 true demo_table demo_machine 4 "m" attr demo_new).2).
  set (m := match sh_manager s with Some m => m | None => HandlerManager [] ∅ end).
  set (h := with_ptr (bpf_map_handler_create 4 "m" attr) (Some "ebpf_map_fd_m")).
  apply (same_name_close_destroys 0 true demo_table demo_machine 4 5 attr s m h
    (plain array_map_impl (λ h, Ok (array_map_create (mh_value_size h) (mh_max_entries h)))) false (key32 1));
    [vm_compute; reflexivity|vm_compute; reflexivity|reflexivity|eexists; vm_compute; reflexivity|done|lia|lia|vm_compute; reflexivity|done].
Defined.
