(* ===== verification/ShmWeak.v ===== *)
(** * Weak pointers of epoll instances

    An epoll instance keeps weak pointers to ring buffers and software perf events. How the operations of the shared
    memory change the objects and the numbers they got, and that a pointer to an object that is gone stays expired. *)

From stdpp Require Import base numbers list gmap strings.
From S2P Require Import Prelude.
From S2P Require Import EbpfIsa.
From S2P Require Import ArrayMap.
From S2P Require Import FdArray.
From S2P Require Import RingBuf.
From S2P Require Import UnorderedMap.
From S2P Require Import LruHashMap.
From S2P Require Import PerfEvent.
From S2P Require Import MapHandler.
From S2P Require Import HandlerManager.
From S2P Require Import Shm.
From S2P Require Import ShmProps.

Section weak.
Context {U : Type} `{!UnorderedMap (list Z) U} {UL : Type} `{!UnorderedMap hash_map_value UL}.
Context `{Kernel} {F : Type} `{!KernelUserMaps F} (cpu : Z) (with_libbpf : bool) (table : ops_table) (mc : machine).
Context {K : Type} `{!PosixFds K} {C : Type}.

Abbreviation shm := (bpftime_shm (U := U) (UL := UL) (F := F) (K := K) (C := C)).
Abbreviation objects := (gmap string (map_impl (U := U) (UL := UL) (F := F))).
Abbreviation manager := (handler_manager (H := bpf_map_handler) (W := objects) (P := bpf_prog_handler)
  (E := bpf_perf_event_handler) (X := epoll_handler) (Y := memfd_handler)).
Implicit Types (s : shm) (m : manager) (w : objects).
#[local] Hint Extern 0 (MapHandlerOps _ _) => exact (shm_map_ops cpu with_libbpf table mc) : typeclass_instances.

(** ** Objects and owners *)

Definition present s (name : string) : Prop := ∃ m, sh_manager s = Some m ∧ is_Some (memory m !! name).
Definition owner s (i : nat) (p : positive) : Prop :=
  ∃ m h, sh_manager s = Some m ∧ handlers m !! i = Some h ∧ owns p h = true.
Definition map_at s (i : nat) (h : bpf_map_handler) : Prop := ∃ m, sh_manager s = Some m ∧ handlers m !! i = Some (HMap h).

(** A handler points to the object under its own name. *)
Definition ptr_ok (h : bpf_map_handler) : Prop := ∀ p, mh_map_impl_ptr h = Some p → p = get_container_name h.
(** A handler that owns no event. *)
Definition silent (h : handler) : Prop := (∀ p, owns p h = false) ∧ match h with HMap mh => ptr_ok mh | _ => True end.

(** Numbers are given once. *)
Record numbers_ok s : Prop := {
  ok_births name p : sh_births s !! name = Some p → (p < sh_next s)%positive;
  ok_owner i p : owner s i p → (p < sh_next s)%positive;
  ok_unique i j p : owner s i p → owner s j p → i = j;
  ok_ptr i h : map_at s i h → ptr_ok h
}.

(** What an operation may do: objects and owners that were not there have new numbers. *)
Record evolution s s' : Prop := {
  ev_next : (sh_next s ≤ sh_next s')%positive;
  ev_births name p : sh_births s' !! name = Some p → sh_births s !! name = Some p ∨ (sh_next s ≤ p < sh_next s')%positive;
  ev_present name : present s' name →
    present s name ∧ sh_births s' !! name = sh_births s !! name ∨ ∃ p, sh_births s' !! name = Some p ∧ (sh_next s ≤ p)%positive;
  ev_owner i p : owner s' i p → owner s i p ∨ (sh_next s ≤ p < sh_next s')%positive;
  ev_unique i j p : (sh_next s ≤ p)%positive → owner s' i p → owner s' j p → i = j;
  ev_ptr i h : map_at s' i h → map_at s i h ∨ ptr_ok h
}.
Definition evolves s s' : Prop := numbers_ok s → evolution s s'.

Lemma numbers_evolve s s' : numbers_ok s → evolution s s' → numbers_ok s'.
Proof.
  intros [Hb Ho Hu Hp0] [En Eb _ Eo Eu Ep]. split.
  - intros name p Hp. destruct (Eb name p Hp) as [Hx|Hx]; [apply Hb in Hx|]; lia.
  - intros i p Hp. destruct (Eo i p Hp) as [Hx|Hx]; [apply Ho in Hx|]; lia.
  - intros i j p Hi Hj. destruct (decide (sh_next s ≤ p)%positive) as [Hn|Hn]; [by apply (Eu i j p)|].
    destruct (Eo i p Hi) as [Hi'|]; [|lia]. destruct (Eo j p Hj) as [Hj'|]; [|lia]. by apply (Hu i j p).
  - intros i h Hi. destruct (Ep i h Hi) as [Hx|]; [by apply Hp0 in Hx|done].
Qed.

Lemma evolves_trans s1 s2 s3 : evolves s1 s2 → evolves s2 s3 → evolves s1 s3.
Proof.
  intros H12 H23 Hn. specialize (H12 Hn). specialize (H23 (numbers_evolve _ _ Hn H12)).
  destruct H12 as [En Eb Ep Eo Eu Er], H23 as [En' Eb' Ep' Eo' Eu' Er']. split.
  - lia.
  - intros name p Hp. destruct (Eb' name p Hp) as [Hx|Hx]; [destruct (Eb name p Hx)|]; auto; right; lia.
  - intros name Hp. destruct (Ep' name Hp) as [[Hx Hy]|(p&Hx&Hy)].
    + destruct (Ep name Hx) as [[Hz Ha]|(p&Hz&Ha)]; [left; split; [done|congruence]|]. right. exists p. split; [congruence|done].
    + right. exists p. split; [done|lia].
  - intros i p Hp. destruct (Eo' i p Hp) as [Hx|Hx]; [destruct (Eo i p Hx)|]; auto; right; lia.
  - intros i j p Hp Hi Hj. destruct (decide (sh_next s2 ≤ p)%positive) as [Hq|Hq]; [by apply (Eu' i j p)|].
    destruct (Eo' i p Hi) as [Hi'|]; [|lia]. destruct (Eo' j p Hj) as [Hj'|]; [|lia]. by apply (Eu i j p).
  - intros i h Hi. destruct (Er' i h Hi) as [Hx|]; [by apply Er|by right].
Qed.

(** A step that makes nothing. *)
Lemma evolves_shrink s s' : sh_next s' = sh_next s → sh_births s' = sh_births s →
  (∀ name, present s' name → present s name) → (∀ i p, owner s' i p → owner s i p) →
  (∀ i h, map_at s' i h → map_at s i h ∨ ptr_ok h) → evolves s s'.
Proof.
  intros Hn Hb Hp Ho Hr [Hb0 Ho0 Hu0 Hr0]. split.
  - rewrite Hn. lia.
  - rewrite Hb. auto.
  - intros name Hx. left. rewrite Hb. auto.
  - auto.
  - intros i j p Hle Hi. apply Ho, Ho0 in Hi. lia.
  - done.
Qed.

Lemma evolves_refl s : evolves s s.
Proof. apply evolves_shrink; auto. Qed.

(** ** The parts of the operations *)

Lemma evolves_objects s m hs w : sh_manager s = Some m → (∀ name, is_Some (w !! name) → is_Some (memory m !! name)) →
  (∀ i h, hs !! i = Some h → silent h ∨ handlers m !! i = Some h) → evolves s (sh_set_manager s (HandlerManager hs w)).
Proof.
  intros Hm Hw Hh. apply evolves_shrink; try done.
  - intros name (m'&[= <-]&Hx). exists m. auto.
  - intros i p (m'&h&[= <-]&Hi&Hp). destruct (Hh i h Hi) as [[Hn _]|Hx]; [by rewrite Hn in Hp|]. exists m, h. auto.
  - intros i h (m'&[= <-]&Hi). destruct (Hh i _ Hi) as [[_ Hn]|Hx]; [by right|left; by exists m].
Qed.

Lemma evolves_set_fds s k : evolves s (sh_set_fds s k).
Proof. apply evolves_shrink; auto. Qed.
Lemma evolves_set_perf s h : evolves s (sh_set_perf s h).
Proof. apply evolves_shrink; auto. Qed.
Lemma evolves_new_fake_fd s : evolves s (new_fake_fd s).2.
Proof. unfold new_fake_fd. destruct (open_fake_fd (sh_fds s)). apply evolves_set_fds. Qed.
Lemma evolves_fd_or_fake fd s : evolves s (fd_or_fake fd s).2.
Proof. unfold fd_or_fake. destruct (fd <? 0); [apply evolves_new_fake_fd|apply evolves_refl]. Qed.

Lemma map_init_objects h w : (map_init cpu with_libbpf table mc h w).2 = w ∨
  w !! get_container_name h = None ∧ ∃ o, (map_init cpu with_libbpf table mc h w).2 = <[get_container_name h := o]> w.
Proof.
  unfold map_init, construct. destruct (w !! get_container_name h) as [o|] eqn:Ew.
  - left. destruct (mh_type h); repeat case_match; simplify_eq; done.
  - destruct (mh_type h); repeat case_match; simplify_eq; eauto 6.
Qed.
Lemma map_init_ptr h w : ptr_ok h → ptr_ok (map_init cpu with_libbpf table mc h w).1.2.
Proof.
  intros Hp. assert (Hn : ptr_ok (with_ptr h None)) by (intros p; done).
  assert (Hs : ptr_ok (with_ptr h (Some (get_container_name h)))) by (by intros p [= <-]).
  unfold map_init, construct. destruct (mh_type h); repeat case_match; simplify_eq; done.
Qed.
Lemma map_free_ptr h w : ptr_ok h → ptr_ok (map_free with_libbpf table h w).1.2.
Proof.
  intros Hp. assert (Hn : ptr_ok (with_ptr h None)) by (intros p; done). unfold map_free. destruct (mh_type h); repeat case_match; done.
Qed.
Lemma map_free_objects h w name : is_Some ((map_free with_libbpf table h w).2 !! name) → is_Some (w !! name).
Proof.
  assert (Hd : is_Some (delete (get_container_name h) w !! name) → is_Some (w !! name)).
  { intros Hx. apply lookup_delete_is_Some in Hx. apply Hx. }
  unfold map_free, destroy. destruct (mh_type h); repeat case_match; done || exact Hd.
Qed.

(** The handler itself, or that of a map, goes into the table. *)
Lemma set_handler_effect fd h m : let m' := (set_handler fd h m).2 in
  (∀ i h', handlers m' !! i = Some h' → handlers m !! i = Some h' ∨ i = Z.to_nat fd ∧ (∀ p, owns p h' = owns p h) ∧
     match h', h with HMap x, HMap y => ptr_ok y → ptr_ok x | HMap _, _ => False | _, _ => True end) ∧
  (memory m' = memory m ∨ ∃ mh o, h = HMap mh ∧ memory m !! get_container_name mh = None ∧ memory m' = <[get_container_name mh := o]> (memory m)).
Proof.
  assert (Hput : ∀ h0 i h', handlers (put_handler m fd h0) !! i = Some h' → handlers m !! i = Some h' ∨ i = Z.to_nat fd ∧ h' = h0).
  { intros h0 i h'. cbn [put_handler handlers]. destruct (decide (i = Z.to_nat fd)) as [->|Hne]; [|rewrite list_lookup_insert_ne by done; auto].
    intros Hx. right. apply list_lookup_insert_Some in Hx as [(_&<-&_)|(?&_)]; done. }
  unfold set_handler. destruct (is_allocated m fd); [by split; [left|left]|]. destruct (unused h); [by split; [left|left]|].
  destruct (in_table m fd); cbn [negb]; [|by split; [left|left]].
  destruct h as [|mh| | | | |]; try by (split; [intros i h' Hi; destruct (Hput _ _ _ Hi) as [?|[-> ->]]; auto|left]).
  pose proof (map_init_objects mh (memory m)) as Hi. pose proof (map_init_ptr mh (memory m)) as Hptr.
  change (mho_init mh (memory (put_handler m fd (HMap mh)))) with (map_init cpu with_libbpf table mc mh (memory m)).
  destruct (map_init cpu with_libbpf table mc mh (memory m)) as [[r h'] w']. cbn [snd fst] in Hi, Hptr.
  cut ((∀ i x, handlers (put_handler (put_handler m fd (HMap mh)) fd (HMap h')) !! i = Some x →
         handlers m !! i = Some x ∨ i = Z.to_nat fd ∧ (∀ p, owns p x = owns p (HMap mh)) ∧
         match x with HMap x => ptr_ok mh → ptr_ok x | _ => True end) ∧
       (w' = memory m ∨ ∃ mh0 o, (HMap mh : handler) = HMap mh0 ∧ memory m !! get_container_name mh0 = None ∧ w' = <[get_container_name mh0 := o]> (memory m))).
  { intros Hc. by destruct r. }
  split; [|destruct Hi as [->|(Hn&o&->)]; [by left|right; by exists mh, o]].
  intros i x Hx. cbn [put_handler handlers] in Hx. rewrite list_insert_insert_eq in Hx. destruct (Hput (HMap h') i x Hx) as [?|[-> ->]]; auto.
Qed.

(** [s0] is the memory before the object that the handler owns got its number. *)
Lemma evolves_set_numbered fd h s0 s : sh_manager s = sh_manager s0 → sh_births s = sh_births s0 → (sh_next s0 ≤ sh_next s)%positive →
  (∀ p, owns p h = true → (sh_next s0 ≤ p < sh_next s)%positive) → match h with HMap mh => ptr_ok mh | _ => True end →
  evolves s0 (set_handler_at cpu with_libbpf table mc fd h s).2.
Proof.
  intros Hm Hb Hn Hown Hptr [Hb0 Ho0 Hu0 Hr0]. unfold set_handler_at. destruct (sh_manager s) as [m|] eqn:Em.
  2:{ split; cbn [snd].
      - done.
      - rewrite Hb. auto.
      - intros name (m'&Hx&_). congruence.
      - intros i p (m'&h'&Hx&_). congruence.
      - intros i j p _ (m'&h'&Hx&_). congruence.
      - intros i h' (m'&Hx&_). congruence. }
  destruct (set_handler_effect fd h m) as [Hh Hw]. destruct (set_handler fd h m) as [r m'] eqn:Es. cbn [snd] in *.
  assert (Hhs : ∀ s', sh_manager s' = Some m' → ∀ i p, owner s' i p → owner s0 i p ∨ i = Z.to_nat fd ∧ owns p h = true).
  { intros s' Hs' i p (m1&h1&H1&H2&H3). rewrite Hs' in H1. injection H1 as <-. destruct (Hh i h1 H2) as [Hx|(->&Hx&_)]; [left; by exists m, h1|].
    right. split; [done|]. by rewrite <- Hx. }
  assert (Hmaps : ∀ s', sh_manager s' = Some m' → ∀ i mh, map_at s' i mh → map_at s0 i mh ∨ ptr_ok mh).
  { intros s' Hs' i mh (m1&H1&H2). rewrite Hs' in H1. injection H1 as <-. destruct (Hh i _ H2) as [Hx|(_&_&Hx)]; [left; by exists m|].
    right. destruct h; try done. by apply Hx. }
  set (s1 := sh_set_manager s m').
  assert (Hsame : memory m' = memory m → evolution s0 s1).
  { intros Hmem. split; cbn [s1 sh_next sh_births sh_set_manager].
    - done.
    - rewrite Hb. auto.
    - intros name (m1&[= <-]&Hx). left. rewrite Hb, Hmem in *. split; [by exists m|done].
    - intros i p Hi. destruct (Hhs s1 eq_refl i p Hi) as [?|[_ Hx]]; auto.
    - intros i j p Hle Hi Hj. destruct (Hhs s1 eq_refl i p Hi) as [Hx|[-> _]]; [apply Ho0 in Hx; lia|].
      destruct (Hhs s1 eq_refl j p Hj) as [Hx|[-> _]]; [apply Ho0 in Hx; lia|done].
    - by apply Hmaps. }
  destruct h as [|mh| | | | |]; try (destruct Hw as [Hw|(?&?&?&_)]; [by apply Hsame|done]).
  destruct Hw as [Hw|(mh0&o&[= <-]&Hnone&Hw)].
  { rewrite Hw. destruct (memory m !! get_container_name mh); by apply Hsame. }
  pose proof (Hhs (sh_set_births s1 (<[get_container_name mh := sh_next s]> (sh_births s)) (Pos.succ (sh_next s))) eq_refl) as Hown'.
  rewrite Hnone, Hw, lookup_insert_eq. split; cbn [snd s1 sh_set_births sh_next sh_births sh_set_manager].
  - lia.
  - intros name p. rewrite Hb. destruct (decide (get_container_name mh = name)) as [->|Hne]; [rewrite lookup_insert_eq|rewrite lookup_insert_ne by done; auto].
    intros [= <-]. right. lia.
  - intros name (m1&[= <-]&Hx). rewrite Hw in Hx. destruct (decide (get_container_name mh = name)) as [->|Hne].
    + right. exists (sh_next s). rewrite lookup_insert_eq. done.
    + left. rewrite lookup_insert_ne in Hx by done. rewrite lookup_insert_ne, Hb by done. split; [by exists m|done].
  - intros i p Hi. destruct (Hown' i p Hi) as [?|[_ Hx]]; [by left|done].
  - intros i j p Hle Hi Hj. destruct (Hown' i p Hi) as [Hx|[-> _]]; [apply Ho0 in Hx; lia|].
    destruct (Hown' j p Hj) as [Hx|[-> _]]; [apply Ho0 in Hx; lia|done].
  - by apply Hmaps.
Qed.
Lemma evolves_set_handler_at fd h s : silent h → evolves s (set_handler_at cpu with_libbpf table mc fd h s).2.
Proof. intros [Hp Hq]. apply evolves_set_numbered; try done. intros p. by rewrite Hp. Qed.

Lemma evolves_close_fd fd s : evolves s (close_fd cpu with_libbpf table mc fd s).2.
Proof.
  unfold close_fd. destruct (sh_manager s) as [m|] eqn:Em; [|apply evolves_refl]. destruct (in_table m fd) eqn:Hin.
  2:{ unfold clear_id_at. cbn [clear_at]. rewrite out_of_table, Hin. cbn [negb snd]. destruct m. eapply evolves_objects; eauto. }
  assert (Hfree : ∀ h name, is_Some ((mho_free h (memory m)).2 !! name) → is_Some (memory m !! name)) by (intros h; apply map_free_objects).
  destruct (proj1 (in_table_lookup m fd) Hin) as [Hfd [h Hh]].
  assert (Hc : (∀ mh, h = HMap mh → (mho_free mh (memory m)).1.1 = Ok tt) ∨ ∃ mh, h = HMap mh ∧ (mho_free mh (memory m)).1.1 ≠ Ok tt).
  { destruct h as [|mh| | | | |]; try by left. destruct (decide ((mho_free mh (memory m)).1.1 = Ok tt)); [left; by intros ? [= <-]|right; by exists mh]. }
  destruct Hc as [Hok|(mh&->&Hno)].
  - destruct (clear_id_at_ok m fd Hin) as (hs&->&_&Hj); [intros mh Hx; rewrite Hh in Hx; injection Hx as ->; by apply Hok|].
    cbn [snd]. apply (evolves_objects s m); [done| |].
    + rewrite Hh. destruct h; try done. apply Hfree.
    + intros i x Hi. rewrite Hj in Hi. unfold cleared in Hi. case_decide; [injection Hi as <-; left; by split|].
      destruct (handlers m !! i) as [[]|]; cbn in Hi; try discriminate Hi; injection Hi as <-; auto.
      destruct (refers m fd l); [left; by split|auto].
  - unfold clear_id_at. cbn [clear_at]. rewrite out_of_table, Hin, Hh. cbn [negb].
    specialize (Hfree mh). destruct (mho_free mh (memory m)) as [[r h'] w'] eqn:Ef. cbn [snd fst] in *.
    assert (Hs : evolves s (sh_set_manager s (HandlerManager (handlers (put_handler m fd (HMap h'))) w'))).
    { intros Hn. refine (evolves_objects s m _ _ Em Hfree _ Hn). intros i x Hi. cbn [put_handler handlers] in Hi.
      apply list_lookup_insert_Some in Hi as [(_&<-&_)|[_ Hi]]; [left; split; [done|]|auto].
      pose proof (map_free_ptr mh (memory m)) as Hp. change (map_free with_libbpf table mh (memory m)) with (mho_free mh (memory m)) in Hp.
      rewrite Ef in Hp. apply Hp, (ok_ptr s Hn (Z.to_nat fd)). by exists m. }
    destruct r as [[]| | | |]; done.
Qed.

Lemma evolves_clear_for_new fd s : evolves s (clear_for_new cpu with_libbpf table mc fd s).2.
Proof.
  unfold clear_for_new. destruct (handler_at s fd) as [h|]; [|apply evolves_refl].
  destruct (unused h); [apply evolves_refl|apply evolves_close_fd].
Qed.

(** The operations on maps make no objects. *)
Definition keeps {A} (f : objects → res A * objects) : Prop := ∀ w name, is_Some ((f w).2 !! name) → is_Some (w !! name).

Lemma call_impl_keeps S `{!MapImpl S} {A} (f : S → res A * S) h : keeps (call_impl S f h).
Proof.
  intros w name. unfold call_impl. destruct (mh_map_impl_ptr h) as [p|]; [|done]. destruct (w !! p ≫= prj) as [o|] eqn:Eo; [|done].
  destruct (f o) as [r o']. cbn [snd]. intros Hx. apply lookup_insert_is_Some in Hx as [<-|[_ Hx]]; [|done].
  destruct (w !! p); [by eexists|done].
Qed.
Lemma default_case_keeps {O A} h (field : bpftime_map_ops → option O) (f : O → res A) none : keeps (default_case table h field f none).
Proof. intros w name. unfold default_case. destruct (table_ops table (mh_type h)); [|done]. by destruct (field _). Qed.

Lemma map_ops_keep h key value flags out fs :
  keeps (map_lookup_elem cpu with_libbpf table h key fs) ∧ keeps (map_update_elem cpu with_libbpf table h key value flags fs) ∧
  keeps (map_delete_elem cpu with_libbpf table h key fs) ∧ keeps (bpf_map_get_next_key cpu with_libbpf table h key out fs) ∧
  keeps (MapHandler.map_push_elem h value flags) ∧ keeps (MapHandler.map_pop_elem h value) ∧ keeps (MapHandler.map_peek_elem h value).
Proof.
  repeat split; intros w name; unfold map_lookup_elem, map_update_elem, map_delete_elem, bpf_map_get_next_key, MapHandler.map_push_elem,
    MapHandler.map_pop_elem, MapHandler.map_peek_elem; destruct (mh_type h); repeat case_match;
    done || apply call_impl_keeps || apply default_case_keeps.
Qed.

Lemma evolves_with_map {A} s fd (none : res A) f : (∀ h, keeps (f h)) → evolves s (with_map s fd none f).2.
Proof.
  intros Hf. unfold with_map. destruct (sh_manager s) as [m|] eqn:Em; [|apply evolves_refl].
  destruct (handler_at s fd) as [[]|]; try apply evolves_refl. specialize (Hf h (memory m)). destruct (f h (memory m)) as [r w].
  apply (evolves_objects s m); auto.
Qed.
Lemma evolves_with_ringbuf {A} s fd (none : res A) f : evolves s (with_ringbuf s fd none f).2.
Proof.
  unfold with_ringbuf. destruct (shm_try_get_ringbuf_map_impl s fd) as [[name|]|]; try apply evolves_refl.
  destruct (sh_manager s) as [m|] eqn:Em; [|apply evolves_refl]. destruct (ringbuf_object s name) as [rb|] eqn:Er; [|apply evolves_refl].
  destruct (f rb) as [r rb']. apply (evolves_objects s m); auto. intros n Hx. apply lookup_insert_is_Some in Hx as [<-|[_ Hx]]; [|done].
  unfold ringbuf_object in Er. rewrite Em in Er. cbn [mbind option_bind] in Er. destruct (memory m !! name); [by eexists|done].
Qed.

(** A handler takes the place of one that owns the same. *)
Lemma evolves_put s m fd h h0 : sh_manager s = Some m → handler_at s fd = Some h0 → (∀ p, owns p h = owns p h0) →
  match h with HMap _ => False | _ => True end → evolves s (sh_set_manager s (put_handler m fd h)).
Proof.
  intros Hm Hh Ho Hk. destruct (handler_at_in _ _ _ _ Hm Hh) as [_ Hi]. apply evolves_shrink; try done.
  - intros name (m'&[= <-]&Hx). by exists m.
  - intros i p (m'&h'&[= <-]&Hi'&Hp). cbn [put_handler handlers] in Hi'.
    apply list_lookup_insert_Some in Hi' as [(<-&<-&_)|[_ Hi']]; [|by exists m, h']. exists m, h0. by rewrite <- Ho.
  - intros i h' (m'&[= <-]&Hi'). cbn [put_handler handlers] in Hi'.
    apply list_lookup_insert_Some in Hi' as [(_&->&_)|[_ Hi']]; [done|left; by exists m].
Qed.
Lemma evolves_set_perf_event f fd s : (∀ e, pe_event (f e) = pe_event e) → evolves s (set_perf_event f fd s).2.
Proof.
  intros Hf. unfold set_perf_event. destruct (sh_manager s) as [m|] eqn:Em; [|apply evolves_refl].
  destruct (handler_at s fd) as [[]|] eqn:Eh; try apply evolves_refl. eapply evolves_put; [done|done| |done].
  intros p. unfold owns, try_get_software_perf_data_weak_ptr. by rewrite Hf.
Qed.
Lemma evolves_add_file fd f s : evolves s (add_file fd f s).2.
Proof.
  unfold add_file. destruct (sh_manager s) as [m|] eqn:Em; [|apply evolves_refl].
  destruct (handler_at s fd) as [[]|] eqn:Eh; try apply evolves_refl. by eapply evolves_put.
Qed.
Lemma evolves_ignoring s fd x : evolves s x.2 → evolves s (ignoring fd x).2.
Proof. by destruct x as [[] s']. Qed.

(** ** The operations *)

Lemma silent_simple h : match h with HMap mh => mh_map_impl_ptr mh = None | HPerfEvent e => try_get_software_perf_data_weak_ptr e = None | _ => True end →
  silent h.
Proof.
  intros Hh. split; destruct h; try done; cbn [owns].
  - intros p. by rewrite Hh.
  - intros p. by rewrite Hh.
Qed.

#[local] Hint Resolve evolves_refl evolves_set_handler_at evolves_close_fd evolves_clear_for_new evolves_set_perf_event evolves_add_file
  evolves_with_map evolves_with_ringbuf evolves_ignoring evolves_new_fake_fd evolves_fd_or_fake evolves_set_perf evolves_set_fds : core.

#[local] Hint Extern 1 (silent _) => by apply silent_simple : core.

(** A handler that owns nothing, at a given descriptor or a new one. *)
Lemma evolves_fresh fd h s : silent h →
  evolves s (let '(fd, s) := fd_or_fake fd s in set_handler_at cpu with_libbpf table mc fd h s).2 ∧
  evolves s (let '(fd, s) := new_fake_fd s in set_handler_at cpu with_libbpf table mc fd h s).2.
Proof.
  intros Hh. pose proof (evolves_fd_or_fake fd s) as H1. pose proof (evolves_new_fake_fd s) as H2.
  destruct (fd_or_fake fd s) as [fd1 s1], (new_fake_fd s) as [fd2 s2]. cbn [snd] in *. split; [apply (evolves_trans _ s1)|apply (evolves_trans _ s2)]; auto.
Qed.
Lemma evolves_attach perf bpf cookie s : evolves s (attach_perf_to_bpf cpu with_libbpf table mc perf bpf cookie s).2.
Proof.
  unfold attach_perf_to_bpf, add_bpf_prog_attach_target. destruct (negb _); [auto|]. destruct (negb _); [auto|].
  pose proof (evolves_new_fake_fd s) as H1. destruct (new_fake_fd s) as [fd1 s1]. cbn [snd] in H1. destruct (_ <? 0); [done|].
  eapply evolves_trans; [exact H1|]. auto.
Qed.
Lemma evolves_add_map fd name attr s : evolves s (add_bpf_map cpu with_libbpf table mc fd name attr s).2.
Proof.
  unfold add_bpf_map. pose proof (evolves_fd_or_fake fd s) as H1. destruct (fd_or_fake fd s) as [fd1 s1]. cbn [snd] in H1.
  destruct (sh_manager s1); [|done]. pose proof (evolves_clear_for_new fd1 s1) as H2.
  destruct (clear_for_new cpu with_libbpf table mc fd1 s1) as [r s2]. cbn [snd] in H2. pose proof (evolves_trans _ _ _ H1 H2) as H3.
  destruct r; try exact H3. eapply evolves_trans; [exact H3|]. auto.
Qed.
Lemma evolves_dup old new s : evolves s (dup_bpf_map cpu with_libbpf table mc old new s).2.
Proof.
  unfold dup_bpf_map. destruct (handler_at s old) as [[|h| | | | |]|]; auto.
  pose proof (evolves_fd_or_fake new s) as H1. destruct (fd_or_fake new s) as [fd1 s1]. cbn [snd] in H1.
  pose proof (evolves_clear_for_new fd1 s1) as H2.
  destruct (clear_for_new cpu with_libbpf table mc fd1 s1) as [r s2]. cbn [snd] in H2. pose proof (evolves_trans _ _ _ H1 H2) as H3.
  destruct r; try exact H3. destruct (_ =? _); [done|]. eapply evolves_trans; [exact H3|]. auto.
Qed.
Lemma evolves_software c t cfg s : evolves s (add_software_perf_event cpu with_libbpf table mc c t cfg s).2.
Proof.
  unfold add_software_perf_event, add_software_perf_event_at. pose proof (evolves_new_fake_fd s) as H1.
  destruct (new_fake_fd s) as [fd1 s1]. cbn [snd] in H1. eapply evolves_trans; [exact H1|]. apply evolves_set_numbered; cbn; try done; [lia|].
  intros p Hp. apply bool_decide_eq_true in Hp. injection Hp as ->. lia.
Qed.

Lemma evolves_step s s' : shm_step cpu with_libbpf table mc s s' → evolves s s'.
Proof.
  intros Hs. destruct Hs; auto using evolves_attach, evolves_add_map, evolves_dup, evolves_software;
    try (apply evolves_with_map; intros h; unshelve eapply map_ops_keep; exact None || exact 0 || exact false); try apply evolves_with_ringbuf.
  - unfold add_kprobe. destruct fd; [auto|]. by apply (evolves_fresh 0), silent_simple.
  - by apply (evolves_fresh fd), silent_simple.
  - by apply (evolves_fresh fd), silent_simple.
  - by apply (evolves_fresh fd), silent_simple.
  - unfold add_custom_perf_event. pose proof (evolves_new_fake_fd s) as H1. destruct (new_fake_fd s) as [fd1 s1]. cbn [snd] in H1. destruct (_ <? 0); [done|].
    eapply evolves_trans; [exact H1|]. auto.
  - unfold add_bpf_prog. pose proof (evolves_fresh fd) as H1. destruct (bpf_prog_handler_create insn n name) as [p|]; [by apply H1, silent_simple|].
    pose proof (evolves_fd_or_fake fd s). by destruct (fd_or_fake fd s).
  - unfold add_bpf_link. pose proof (evolves_fd_or_fake fd s) as H1. destruct (fd_or_fake fd s) as [fd1 s1]. cbn [snd] in H1. destruct (negb _); [done|].
    eapply evolves_trans; [exact H1|]. auto.
  - by apply (evolves_fresh 0), silent_simple.
  - by apply evolves_set_perf_event.
  - by apply evolves_set_perf_event.
  - unfold epoll_create. pose proof (evolves_new_fake_fd s) as H1. destruct (new_fake_fd s) as [fd1 s1]. cbn [snd] in H1. destruct (is_exist_fake_fd s1 fd1); [done|].
    eapply evolves_trans; [exact H1|]. auto.
  - unfold add_software_perf_event_to_epoll. repeat case_match; apply evolves_refl || apply evolves_add_file.
  - unfold add_ringbuf_to_epoll. repeat case_match; apply evolves_refl || apply evolves_add_file.
  - unfold bpftime_perf_event_output. repeat case_match; apply evolves_refl || apply evolves_set_perf.
  - unfold get_software_perf_event_raw_buffer. repeat case_match; apply evolves_refl || apply evolves_set_perf.
Qed.

(** ** Expired pointers *)

(** The pointer that [epoll_ctl] stores for a descriptor. *)
Definition file_at s (fd : Z) : option file_ptr_variant :=
  match handler_at s fd with
  | Some (HPerfEvent e) => FPerfEvent <$> try_get_software_perf_data_weak_ptr e
  | Some (HMap h) => match try_get_ringbuf_map_impl h with Some (Some name) => FRingbuf name <$> sh_births s !! name | _ => None end
  | _ => None
  end.

Definition expired s (f : file_ptr_variant) : Prop :=
  match f with
  | FPerfEvent p => (p < sh_next s)%positive ∧ ∀ i, ¬ owner s i p
  | FRingbuf name p => (p < sh_next s)%positive ∧ (sh_births s !! name = Some p → ¬ present s name)
  end.

Lemma expired_not_ready s f d : expired s f → file_ready s (EpollFile f d) = Ok false.
Proof.
  destruct f as [p|name p]; cbn [expired file_ready ef_file]; intros [_ Hx].
  - unfold lock_perf_event. destruct (sh_manager s) as [m|] eqn:Em; [|done]. cbn [mbind option_bind].
    destruct (existsb (owns p) (handlers m)) eqn:Eo; [|done]. apply existsb_exists in Eo as (h&Hin&Ho).
    apply list_elem_of_In, list_elem_of_lookup in Hin as [i Hi]. destruct (Hx i). by exists m, h.
  - unfold lock_ringbuf, ringbuf_object. case_bool_decide as Hb; [|done]. destruct (sh_manager s) as [m|] eqn:Em; [|done].
    cbn [mbind option_bind]. destruct (memory m !! name) as [o|] eqn:Eo; [|done]. destruct (Hx Hb). exists m. by rewrite Eo.
Qed.

Lemma expired_evolves s s' f : evolution s s' → expired s f → expired s' f.
Proof.
  intros [En Eb Ep Eo Eu Er]. destruct f as [p|name p]; cbn [expired]; intros [Hp Hx]; (split; [lia|]).
  - intros i Hi. destruct (Eo i p Hi) as [Ho|]; [by apply (Hx i)|lia].
  - intros Hb Hpr. destruct (Ep name Hpr) as [[H1 H2]|(q&H1&H2)]; [|rewrite Hb in H1; injection H1 as <-; lia].
    rewrite Hb in H2. by apply Hx.
Qed.

Lemma numbers_create type config n k s : bpftime_shm_create type None config n k = Ok s → numbers_ok s.
Proof.
  intros Hc. assert (Hb : sh_births s = ∅ ∧ ∀ m i h, sh_manager s = Some m → handlers m !! i = Some h → h = unused_handler).
  { destruct type; try done; injection Hc as <-; (split; [done|]); intros m i h [= <-] Hi; by apply lookup_replicate in Hi as [-> _]. }
  destruct Hb as [Hb Hh]. split.
  - intros name p. by rewrite Hb.
  - intros i p (m&h&Hm&Hi&Ho). by rewrite (Hh m i h Hm Hi) in Ho.
  - intros i j p (m&h&Hm&Hi&Ho). by rewrite (Hh m i h Hm Hi) in Ho.
  - intros i h (m&Hm&Hi). by specialize (Hh m i _ Hm Hi).
Qed.
Lemma evolves_run s s' : rtc (shm_step cpu with_libbpf table mc) s s' → evolves s s'.
Proof. induction 1 as [|s s1 s2 Hs _ IH]; [auto|]. eapply evolves_trans; [by apply evolves_step|done]. Qed.

Lemma close_expires s fd f : numbers_ok s → file_at s fd = Some f → expired (close_fd cpu with_libbpf table mc fd s).2 f.
Proof.
  intros Hn Hf. unfold file_at in Hf. destruct (handler_at s fd) as [h|] eqn:Eh; [|done].
  destruct (handler_at_manager _ _ _ Eh) as (m&Hm&Hi). destruct (handler_at_in _ _ _ _ Hm Eh) as [Hin _].
  assert (Hfree : ∀ mh, handlers m !! Z.to_nat fd = Some (HMap mh) → mho_free mh (memory m) = (Ok tt, with_ptr mh None, delete (get_container_name mh) (memory m))).
  { intros mh Hx. rewrite Hi in Hx. injection Hx as ->. unfold try_get_ringbuf_map_impl in Hf.
    destruct (mh_type mh) eqn:Et; try discriminate Hf. apply map_free_ok. by rewrite Et. }
  pose proof (evolves_close_fd fd s Hn) as [En _ _ Eo _ _].
  destruct (clear_id_at_ok m fd Hin) as (hs&Hc&_&Hhs); [intros mh Hx; by rewrite (Hfree mh Hx)|].
  assert (Hs : close_fd cpu with_libbpf table mc fd s = (Ok tt, sh_set_manager s (HandlerManager hs
    match handlers m !! Z.to_nat fd with Some (HMap h) => (mho_free h (memory m)).2 | _ => memory m end))).
  { unfold close_fd. by rewrite Hm, Hc. }
  rewrite Hs in *. cbn [snd] in *. destruct h as [|mh| | |e| |]; try discriminate Hf.
  - specialize (Hfree mh Hi). rewrite Hi, Hfree. cbn [snd]. destruct (try_get_ringbuf_map_impl mh) as [[name|]|] eqn:Et; try discriminate Hf.
    destruct (sh_births s !! name) as [p|] eqn:Ep; [|done]. injection Hf as <-. split; [by apply (ok_births s Hn) in Ep|].
    intros _ (m'&[= <-]&Hx). cbn [memory] in Hx.
    assert (Hname : name = get_container_name mh).
    { apply (ok_ptr s Hn (Z.to_nat fd)); [by exists m|]. unfold try_get_ringbuf_map_impl in Et. destruct (mh_type mh); try discriminate Et. by injection Et. }
    subst name. rewrite lookup_delete_eq in Hx. by destruct Hx.
  - destruct (try_get_software_perf_data_weak_ptr e) as [p|] eqn:Ep; [|done]. injection Hf as <-.
    assert (Hown : owner s (Z.to_nat fd) p). { exists m, (HPerfEvent e). cbn [owns]. rewrite Ep. repeat split; try done. by apply bool_decide_eq_true. }
    pose proof (ok_owner s Hn _ _ Hown) as Hlt. split; [done|]. intros i Hi'. destruct (Eo i p Hi') as [Hx|Hx]; [|cbn in Hx; lia].
    pose proof (ok_unique s Hn _ _ _ Hown Hx) as <-. destruct Hi' as (m'&h'&[= <-]&H2&H3). cbn [handlers] in H2. rewrite Hhs in H2.
    unfold cleared in H2. rewrite decide_True in H2 by done. by injection H2 as <-.
Qed.

(** C25 (safety). Once the ring buffer or the software perf event at a descriptor is closed, the pointer to it that an epoll
    instance has stored never locks again, whatever the runtime does then: a new map of the same name or a new event is not
    mistaken for the old one. *)
Theorem closed_file_never_ready type config n k s0 s fd f s' d :
  bpftime_shm_create type None config n k = Ok s0 → rtc (shm_step cpu with_libbpf table mc) s0 s → file_at s fd = Some f →
  rtc (shm_step cpu with_libbpf table mc) (close_fd cpu with_libbpf table mc fd s).2 s' → file_ready s' (EpollFile f d) = Ok false.
Proof.
  intros Hc Hr Hf Hr'. pose proof (numbers_create _ _ _ _ _ Hc) as H0. pose proof (evolves_run _ _ Hr H0) as He.
  pose proof (numbers_evolve _ _ H0 He) as Hn. apply expired_not_ready.
  apply (expired_evolves (close_fd cpu with_libbpf table mc fd s).2); [|by apply close_expires].
  apply (evolves_run _ _ Hr'), (numbers_evolve s); [done|]. by apply evolves_close_fd.
Qed.

(** What [epoll_ctl] stores is the pointer to the object at the descriptor. *)
Lemma registered_file swpe fd data s s' : 
  add_software_perf_event_to_epoll swpe fd data s = (Ok tt, s') ∨ add_ringbuf_to_epoll swpe fd data s = (Ok tt, s') →
  ∃ e f, handler_at s fd = Some (HEpoll e) ∧ file_at s swpe = Some f ∧ handler_at s' fd = Some (HEpoll (EpollHandler (ep_files e ++ [EpollFile f data]))).
Proof.
  assert (Hadd : ∀ f, add_file fd f s = (Ok tt, s') → ∃ e, handler_at s fd = Some (HEpoll e) ∧
    handler_at s' fd = Some (HEpoll (EpollHandler (ep_files e ++ [f])))).
  { intros f. unfold add_file. destruct (sh_manager s) as [m|] eqn:Em; [|done]. destruct (handler_at s fd) as [[]|] eqn:Eh; try done.
    intros [= <-]. eexists. split; [done|]. by rewrite (handler_at_put s m fd), decide_True by (done || by eexists). }
  unfold add_software_perf_event_to_epoll, add_ringbuf_to_epoll, file_at. destruct (negb _); [naive_solver|].
  intros [Ha|Ha].
  - destruct (handler_at s swpe) as [[]|]; try done. destruct (negb _); [done|]. destruct (try_get_software_perf_data_weak_ptr e); [|done].
    destruct (Hadd _ Ha) as (e'&?&?). by eexists e', _.
  - destruct (handler_at s swpe) as [[]|]; try done. destruct (try_get_ringbuf_map_impl h) as [[name|]|]; try done.
    destruct (ringbuf_object s name), (sh_births s !! name); try done. destruct (Hadd _ Ha) as (e'&?&?). by eexists e', _.
Qed.
End weak.

(** A ring buffer is made, closed and made again under the same name: the pointer to the first one is not ready, and the
    second one has another number. *)
Definition demo_ring (fd : Z) (s : demo_runtime) : demo_runtime :=
  (add_bpf_map 0 true demo_table demo_machine fd "rb" (demo_attr BPF_MAP_TYPE_RINGBUF 0 0 16) s).2.

Lemma closed_file_never_ready_witness :
  let s := demo_ring 4 demo_new in
  let s' := demo_ring 5 (close_fd 0 true demo_table demo_machine 4 s).2 in
  file_at s 4 = Some (FRingbuf "ebpf_map_fd_rb" 1) ∧ file_at s' 5 = Some (FRingbuf "ebpf_map_fd_rb" 2) ∧
  file_ready s' (EpollFile (FRingbuf "ebpf_map_fd_rb" 1) 0) = Ok false.
Proof.
  cbn zeta. assert (Hf : file_at (demo_ring 4 demo_new) 4 = Some (FRingbuf "ebpf_map_fd_rb" 1)) by (vm_compute; done).
  split; [exact Hf|]. split; [vm_compute; done|].
  apply (closed_file_never_ready 0 true demo_table demo_machine SHM_CREATE_OR_OPEN tt 8 [2; 1; 0] demo_new (demo_ring 4 demo_new) 4);
    [done|apply rtc_once, st_map|exact Hf|apply rtc_once, st_map].
Defined.
