(* ===== verification/ShmEpoll.v ===== *)
(** * Waiting on an epoll instance

    [bpftime_epoll_wait] (runtime/src/bpftime_shm.cpp) polls the files of the instance about every millisecond. What it
    reports, when it returns, and what it does not do as [epoll_wait] of the kernel does. *)

From stdpp Require Import base numbers list gmap strings.
From S2P Require Import Prelude.
From S2P Require Import EbpfIsa.
From S2P Require Import ArrayMap.
From S2P Require Import FdArray.
From S2P Require Import RingBuf.
From S2P Require Import UnorderedMap.
From S2P Require Import LruHashMap.
From S2P Require Import PerfEvent.
From S2P Require Import MapHandler.
From S2P Require Import HandlerManager.
From S2P Require Import Shm.
From S2P Require Import ShmProps.
From S2P Require Import ShmWeak.

Section wait.
Context {U : Type} `{!UnorderedMap (list Z) U} {UL : Type} `{!UnorderedMap hash_map_value UL}.
Context `{Kernel} {F : Type} `{!KernelUserMaps F} {K : Type} `{!PosixFds K} {C : Type}.

Abbreviation shm := (bpftime_shm (U := U) (UL := UL) (F := F) (K := K) (C := C)).
Abbreviation round := (wait_round (U := U) (UL := UL) (F := F) (K := K) (C := C)).
Implicit Types (s : shm) (r : round) (rounds : list round).

(** A file of the instance that is ready in the round. *)
Definition ready_in (fd : Z) r (f : epoll_file) : Prop :=
  ∃ e, handler_at (wr_shm r) fd = Some (HEpoll e) ∧ f ∈ ep_files e ∧ file_ready (wr_shm r) f = Ok true.

(** The instance is there and each of its files can be asked. *)
Definition can_poll (fd : Z) r : Prop :=
  ∃ e, handler_at (wr_shm r) fd = Some (HEpoll e) ∧ ∀ f, f ∈ ep_files e → ∃ b, file_ready (wr_shm r) f = Ok b.

(** ** A round *)

Lemma poll_files_app s max_evt files : ∀ evts evts', poll_files s max_evt files evts = Ok evts' →
  ∃ new, evts' = evts ++ new ∧ zlen evts' ≤ Z.max (zlen evts) max_evt ∧
    ∀ x, x ∈ new → ∃ f, f ∈ files ∧ x = (EPOLLIN, ef_data f) ∧ file_ready s f = Ok true.
Proof.
  induction files as [|f files IH]; intros evts evts'; cbn [poll_files].
  { intros [= <-]. exists []. rewrite app_nil_r. split; [done|]. split; [lia|]. by intros x ?%elem_of_nil. }
  destruct (file_ready s f) as [ready| | | |] eqn:Ef; try done. intros Hp. destruct (IH _ _ Hp) as (new&->&Hle&Hn).
  destruct (ready && (zlen evts <? max_evt)) eqn:Eb.
  - apply andb_true_iff in Eb as [-> Hb%Z.ltb_lt]. exists ((EPOLLIN, ef_data f) :: new). split; [by rewrite <- app_assoc|].
    split; [unfold zlen in *; rewrite !length_app in *; cbn in *; lia|].
    intros x [->|Hx]%elem_of_cons; [exists f; split; [left|done]|]. destruct (Hn x Hx) as (g&?&?). exists g. split; [by right|done].
  - exists new. split; [done|]. split; [done|]. intros x Hx. destruct (Hn x Hx) as (g&?&?). exists g. split; [by right|done].
Qed.

(** A ready file is reported while there is room. *)
Lemma poll_files_progress s max_evt files : ∀ evts evts' f, poll_files s max_evt files evts = Ok evts' →
  f ∈ files → file_ready s f = Ok true → zlen evts < max_evt → zlen evts < zlen evts'.
Proof.
  induction files as [|g files IH]; intros evts evts' f Hp Hin Hf Hlt; [by apply elem_of_nil in Hin|]. cbn [poll_files] in Hp.
  destruct (file_ready s g) as [ready| | | |] eqn:Eg; try done. destruct (ready && (zlen evts <? max_evt)) eqn:Eb.
  - destruct (poll_files_app _ _ _ _ _ Hp) as (new&->&_). unfold zlen. rewrite !length_app. cbn. lia.
  - apply elem_of_cons in Hin as [->|Hin]; [|by eapply IH]. rewrite Hf in Eg. injection Eg as <-. cbn in Eb. lia.
Qed.

Lemma poll_files_total s max_evt files : ∀ evts, (∀ f, f ∈ files → ∃ b, file_ready s f = Ok b) → ∃ evts', poll_files s max_evt files evts = Ok evts'.
Proof.
  induction files as [|f files IH]; intros evts Hf; [by eexists|]. cbn [poll_files].
  destruct (Hf f) as [b ->]; [left|]. apply IH. intros g Hg. apply Hf. by right.
Qed.

(** ** What is reported *)

Lemma wait_loop_sound fd max_evt timeout rounds : ∀ evts evts' b, wait_loop fd max_evt timeout evts rounds = WaitReturn evts' b →
  zlen evts' ≤ Z.max (zlen evts) max_evt ∧
  ∀ x, x ∈ evts' → x ∈ evts ∨ ∃ r f, r ∈ rounds ∧ ready_in fd r f ∧ x = (EPOLLIN, ef_data f).
Proof.
  induction rounds as [|r rounds IH]; intros evts evts' b; cbn [wait_loop]; destruct (negb _); try done;
    try (intros [= <- <-]; split; [lia|auto]; fail).
  destruct (timeout =? 0); [intros [= <- <-]; split; [unfold zlen; cbn; lia|by intros x ?%elem_of_nil]|].
  destruct (_ && _); [intros [= <- <-]; split; [lia|auto]|]. destruct (handler_at (wr_shm r) fd) as [[]|] eqn:Eh; try done.
  destruct (poll_files (wr_shm r) max_evt (ep_files x) evts) as [evts1| | | |] eqn:Ep; try done.
  destruct (_ || _); [|done]. intros Hw. destruct (poll_files_app _ _ _ _ _ Ep) as (new&->&Hle&Hnew).
  destruct (IH _ _ _ Hw) as [Hle' Hin]. split; [lia|]. intros y Hy. destruct (Hin y Hy) as [[Ho|Hn]%elem_of_app|(r'&f&Hr&Hf)]; [by left| |].
  - right. destruct (Hnew y Hn) as (f&Hff&->&Hrdy). exists r, f. split; [left|]. split; [by exists x|done].
  - right. exists r', f. split; [by right|done].
Qed.

(** A wait reports no more events than there is room for, and every event that it reports is of a file of
    the instance whose object was alive and had data in one of the rounds of the wait. *)
Theorem epoll_wait_sound fd max_evt timeout rounds s evts b : bpftime_epoll_wait fd max_evt timeout rounds s = WaitReturn evts b →
  zlen evts ≤ Z.max 0 max_evt ∧ ∀ x, x ∈ evts → ∃ r f, r ∈ rounds ∧ ready_in fd r f ∧ x = (EPOLLIN, ef_data f).
Proof.
  unfold bpftime_epoll_wait. destruct (timeout <? -1); [done|]. destruct (negb _); [done|]. intros Hw.
  destruct (wait_loop_sound _ _ _ _ _ _ _ Hw) as [Hle Hin]. split; [done|]. intros x Hx. by destruct (Hin x Hx) as [?%elem_of_nil|?].
Qed.

(** ** When it returns *)

(** The events that are still missing are no more than the rounds with a ready file, or the time is over in a round. *)
Lemma wait_loop_returns fd max_evt timeout rounds : ∀ evts busy, Forall (can_poll fd) rounds →
  busy `sublist_of` rounds → Forall (λ r, ∃ f, ready_in fd r f) busy →
  max_evt ≤ zlen evts + zlen busy ∨ 0 < timeout ∧ Exists (λ r, timeout < wr_elapsed r) rounds →
  (∃ evts' b, wait_loop fd max_evt timeout evts rounds = WaitReturn evts' b) ∨
  wait_loop fd max_evt timeout evts rounds = WaitError EINTR ∧ Exists (λ r, wr_signal r = true) rounds.
Proof.
  induction rounds as [|r rounds IH]; intros evts busy Hp Hsub Hb Hc; cbn [wait_loop]; destruct (zlen evts <? max_evt) eqn:El; cbn [negb];
    try (left; by eexists _, _); apply Z.ltb_lt in El.
  { exfalso. apply sublist_nil_r in Hsub as ->. destruct Hc as [Hc|[_ Hc]]; [unfold zlen in Hc; cbn in Hc; unfold zlen in El; lia|by inversion Hc]. }
  destruct (timeout =? 0); [left; by eexists _, _|]. destruct (_ && _) eqn:Et; [left; by eexists _, _|].
  apply Forall_cons in Hp as [(e&He&Hfs) Hp]. rewrite He. destruct (poll_files_total (wr_shm r) max_evt (ep_files e) evts Hfs) as [evts1 Hp1]. rewrite Hp1.
  destruct (poll_files_app _ _ _ _ _ Hp1) as (new&Hnew&_). assert (Hmono : zlen evts ≤ zlen evts1) by (subst; unfold zlen; rewrite length_app; lia).
  destruct ((0 <? zlen evts1) || negb (wr_signal r)) eqn:Eo.
  2:{ right. split; [done|]. left. apply orb_false_iff in Eo as [_ Eo]. by destruct (wr_signal r). }
  assert (Hrest : ∃ busy', busy' `sublist_of` rounds ∧ Forall (λ r, ∃ f, ready_in fd r f) busy' ∧ zlen evts + zlen busy ≤ zlen evts1 + zlen busy').
  { apply sublist_cons_r in Hsub as [Hsub|(busy'&->&Hsub)]; [exists busy; repeat split; try done; lia|].
    apply Forall_cons in Hb as [(f&e'&He'&Hin&Hrdy) Hb]. rewrite He in He'. injection He' as <-.
    pose proof (poll_files_progress _ _ _ _ _ f Hp1 Hin Hrdy El) as Hlt. exists busy'. repeat split; try done. unfold zlen in *. cbn. lia. }
  destruct Hrest as (busy'&Hs'&Hb'&Hle). destruct (IH evts1 busy' Hp Hs' Hb') as [?|[Hw Hs]]; [|by left|right; split; [done|by right]].
  destruct Hc as [Hc|[H0 Hc]]; [left; lia|right]. split; [done|]. apply Exists_cons in Hc as [Hc|Hc]; [|done]. lia.
Qed.

(** C24 (liveness). A wait comes to an end: when the instance stays there, each of its files can be asked, and the files
    are ready in as many rounds as there is room for events, or the timeout is positive and the time is over in a round,
    it returns events, or it is interrupted and a signal did arrive. *)
Theorem epoll_wait_returns fd max_evt timeout rounds busy s : -1 ≤ timeout → is_epoll_fd s fd = true → Forall (can_poll fd) rounds →
  busy `sublist_of` rounds → Forall (λ r, ∃ f, ready_in fd r f) busy →
  max_evt ≤ zlen busy ∨ 0 < timeout ∧ Exists (λ r, timeout < wr_elapsed r) rounds →
  (∃ evts b, bpftime_epoll_wait fd max_evt timeout rounds s = WaitReturn evts b) ∨
  bpftime_epoll_wait fd max_evt timeout rounds s = WaitError EINTR ∧ Exists (λ r, wr_signal r = true) rounds.
Proof.
  intros Ht He Hp Hs Hb Hc. unfold bpftime_epoll_wait. rewrite (proj2 (Z.ltb_ge timeout (-1)) Ht), He. cbn [negb].
  by apply (wait_loop_returns fd max_evt timeout rounds [] busy).
Qed.

(** ** Where it differs from the kernel *)

(** With the timeout 0 a wait returns no events, without asking a file, and leaves SIGINT and SIGTERM
    blocked. *)
Theorem epoll_wait_timeout_zero fd max_evt r rounds s : 0 < max_evt → is_epoll_fd s fd = true →
  bpftime_epoll_wait fd max_evt 0 (r :: rounds) s = WaitReturn [] true.
Proof.
  intros Hm He. unfold bpftime_epoll_wait. rewrite He. cbn [negb Z.ltb Z.compare wait_loop].
  by rewrite (proj2 (Z.ltb_lt (zlen []) max_evt) Hm).
Qed.

(** A round in which the only file of the instance is ready. *)
Definition one_ready (fd : Z) (f : epoll_file) r : Prop :=
  handler_at (wr_shm r) fd = Some (HEpoll (EpollHandler [f])) ∧ file_ready (wr_shm r) f = Ok true.

Lemma zlen_copies {A} k (x : A) : zlen (replicate k x) = Z.of_nat k.
Proof. unfold zlen. by rewrite length_replicate. Qed.
Lemma wait_loop_repeats fd max_evt f rounds : Forall (one_ready fd f) rounds → ∀ k, Z.of_nat k ≤ max_evt →
  wait_loop fd max_evt (-1) (replicate k (EPOLLIN, ef_data f)) rounds =
    if max_evt <=? Z.of_nat k + zlen rounds then WaitReturn (replicate (Z.to_nat max_evt) (EPOLLIN, ef_data f)) false
    else Waiting (replicate (k + length rounds) (EPOLLIN, ef_data f)).
Proof.
  induction 1 as [|r rounds [Hh Hf] _ IH]; intros k Hk; cbn [wait_loop]; rewrite zlen_copies;
    destruct (Z.ltb_spec (Z.of_nat k) max_evt) as [Hl|Hl]; cbn [negb].
  - rewrite (proj2 (Z.leb_gt _ _)) by (unfold zlen; cbn; lia). by rewrite Nat.add_0_r.
  - rewrite (proj2 (Z.leb_le _ _)) by (unfold zlen; cbn; lia). repeat f_equal. lia.
  - rewrite Hh. cbn [ep_files poll_files]. rewrite Hf. cbn [andb]. rewrite zlen_copies, (proj2 (Z.ltb_lt _ _) Hl).
    rewrite (eq_refl : [(EPOLLIN, ef_data f)] = replicate 1 (EPOLLIN, ef_data f)), <- replicate_add.
    rewrite zlen_copies, (proj2 (Z.ltb_lt 0 (Z.of_nat (k + 1)))) by lia. cbn [orb Z.eqb Z.ltb Z.compare andb].
    rewrite IH by lia. unfold zlen. cbn [length].
    replace (Z.of_nat (k + 1) + Z.of_nat (length rounds)) with (Z.of_nat k + Z.of_nat (S (length rounds))) by lia.
    by replace (k + 1 + length rounds)%nat with (k + S (length rounds))%nat by lia.
  - rewrite (proj2 (Z.leb_le _ _)) by (unfold zlen; cbn; lia). repeat f_equal. lia.
Qed.

(** Without a timeout a wait does not return when there is an event, but when the array is full: with one
    file, which stays ready, it goes on for as many rounds as the array has elements, and fills it with copies of the one
    event. *)
Theorem epoll_wait_repeats fd max_evt f rounds s : is_epoll_fd s fd = true → Forall (one_ready fd f) rounds → 0 ≤ max_evt →
  bpftime_epoll_wait fd max_evt (-1) rounds s =
    if max_evt <=? zlen rounds then WaitReturn (replicate (Z.to_nat max_evt) (EPOLLIN, ef_data f)) false
    else Waiting (replicate (length rounds) (EPOLLIN, ef_data f)).
Proof.
  intros He Hr Hm. unfold bpftime_epoll_wait. rewrite He. cbn [negb Z.ltb Z.compare]. 
  exact (wait_loop_repeats fd max_evt f rounds Hr 0%nat Hm).
Qed.
End wait.

(** A perf event (3) that an epoll instance (4) watches, with a sample of four bytes; the pages have 64 bytes. *)
Definition demo_watch : demo_runtime :=
  let s := (add_software_perf_event 0 true demo_table (Machine 64 2 1 0 false true) 0 0 0 demo_new).2 in
  let s := (epoll_create 0 true demo_table demo_machine s).2 in
  let s := (add_software_perf_event_to_epoll 3 4 99 s).2 in
  let s := (get_software_perf_event_raw_buffer 3 128 s).2 in
  (bpftime_perf_event_output 3 (Some [1; 2; 3; 4]) 4 s).2.
Definition demo_file : epoll_file := EpollFile (FPerfEvent 1) 99.

Lemma epoll_wait_sound_witness :
  let rounds := [WaitRound 1 demo_watch false; WaitRound 2 demo_watch false] in
  bpftime_epoll_wait 4 2 (-1) rounds demo_watch = WaitReturn [(1, 99); (1, 99)] false ∧
  ∃ r f, r ∈ rounds ∧ ready_in 4 r f ∧ (1, 99) = (EPOLLIN, ef_data f).
Proof.
  cbn zeta. set (rounds := [WaitRound 1 demo_watch false; WaitRound 2 demo_watch false]).
  assert (Hw : bpftime_epoll_wait 4 2 (-1) rounds demo_watch = WaitReturn [(1, 99); (1, 99)] false) by (vm_compute; done).
  split; [exact Hw|]. apply (epoll_wait_sound 4 2 (-1) rounds demo_watch _ _ Hw). left.
Defined.

Lemma two_rounds (s : demo_runtime) f : handler_at s 4 = Some (HEpoll (EpollHandler [f])) → file_ready s f = Ok true →
  Forall (can_poll 4) [WaitRound 1 s false; WaitRound 2 s false] ∧
  Forall (λ r, ∃ f, ready_in 4 r f) [WaitRound 1 s false; WaitRound 2 s false].
Proof.
  intros Hh Hf. split; apply Forall_forall; intros r Hr;
    assert (Hs : wr_shm r = s) by (by apply elem_of_cons in Hr as [->|[->|?%elem_of_nil]%elem_of_cons]).
  - exists (EpollHandler [f]). rewrite Hs. split; [done|]. intros g [->|?%elem_of_nil]%elem_of_cons; [by exists true|done].
  - exists f, (EpollHandler [f]). rewrite Hs. split; [done|]. split; [left|done].
Qed.

(** The two rounds in which the event has data fill an array of two. *)
Lemma epoll_wait_returns_witness :
  let rounds := [WaitRound 1 demo_watch false; WaitRound 2 demo_watch false] in
  (∃ evts b, bpftime_epoll_wait 4 2 (-1) rounds demo_watch = WaitReturn evts b) ∨
  bpftime_epoll_wait 4 2 (-1) rounds demo_watch = WaitError EINTR ∧ Exists (λ r, wr_signal r = true) rounds.
Proof.
  cbn zeta. set (rounds := [WaitRound 1 demo_watch false; WaitRound 2 demo_watch false]).
  destruct (two_rounds demo_watch demo_file) as [Hp Hr]; [vm_compute; reflexivity|vm_compute; reflexivity|].
  apply (epoll_wait_returns 4 2 (-1) rounds rounds demo_watch); [lia|vm_compute; reflexivity|exact Hp|reflexivity|exact Hr|left; vm_compute; congruence].
Defined.

Lemma epoll_wait_timeout_zero_witness :
  bpftime_epoll_wait 4 2 0 [WaitRound 0 demo_watch false] demo_watch = WaitReturn [] true ∧ file_ready demo_watch demo_file = Ok true.
Proof. split; [apply (epoll_wait_timeout_zero 4 2 _ [] demo_watch); [lia|vm_compute; done]|vm_compute; done]. Defined.

Lemma epoll_wait_repeats_witness :
  let round := WaitRound 0 demo_watch false in
  bpftime_epoll_wait 4 2 (-1) [round; round] demo_watch = WaitReturn [(EPOLLIN, 99); (EPOLLIN, 99)] false ∧
  bpftime_epoll_wait 4 2 (-1) [round] demo_watch = Waiting [(EPOLLIN, 99)].
Proof.
  cbn zeta. set (round := WaitRound 0 demo_watch false).
  assert (Hr : one_ready 4 demo_file round) by (split; vm_compute; done).
  split; [rewrite (epoll_wait_repeats 4 2 demo_file [round; round] demo_watch)|rewrite (epoll_wait_repeats 4 2 demo_file [round] demo_watch)];
    done || (vm_compute; done) || by repeat constructor.
Defined.
