(* ===== verification/Helpers.v ===== *)
(** * Helpers on the shared memory

    The helpers of runtime/src/bpf_helper.cpp that work on maps, ring buffers, perf events and stack traces. A program
    names a map by a pointer with the descriptor in its upper half. *)

From stdpp Require Import base numbers list gmap strings.
From S2P Require Import Prelude.
From S2P Require Import EbpfIsa.
From S2P Require Import ArrayMap.
From S2P Require Import FdArray.
From S2P Require Import RingBuf.
From S2P Require Import RingRefine.
From S2P Require Import RingRuns.
From S2P Require Import UnorderedMap.
From S2P Require Import LruHashMap.
From S2P Require Import StackTrace.
From S2P Require Import PerfEvent.
From S2P Require Import MapHandler.
From S2P Require Import HandlerManager.
From S2P Require Import Shm.
From S2P Require Import ShmProps.
From S2P Require Import ShmMaps.

(** [map >> 32], as an [int]. *)
Definition fd_of_map_ptr (map : Z) : Z := s32 (Z.shiftr map 32).

Definition BPF_F_SKIP_FIELD_MASK : Z := 255.
Definition BPF_F_USER_STACK : Z := 256.
Definition BPF_F_FAST_STACK_CMP : Z := 512.
Definition BPF_F_REUSE_STACKID : Z := 1024.
Definition BPF_F_USER_BUILD_ID : Z := 2048.
Definition flag (flags f : Z) : bool := negb (Z.land flags f =? 0).

Section helpers.
Context {U : Type} `{!UnorderedMap (list Z) U} {UL : Type} `{!UnorderedMap hash_map_value UL}.
Context `{Kernel} {F : Type} `{!KernelUserMaps F} (cpu : Z) (with_libbpf : bool) (table : ops_table) (mc : machine).
Context {K : Type} `{!PosixFds K} {C : Type}.

Abbreviation shm := (bpftime_shm (U := U) (UL := UL) (F := F) (K := K) (C := C)).
Implicit Types s : shm.
#[local] Hint Extern 0 (MapHandlerOps _ _) => exact (shm_map_ops cpu with_libbpf table mc) : typeclass_instances.

(** ** Maps *)

Definition bpftime_map_lookup_elem_helper (map : Z) (key : uptr) s : res mem_ptr * shm :=
  bpf_map_lookup_elem cpu with_libbpf table (fd_of_map_ptr map) key false s.
Definition bpftime_map_update_elem_helper (map : Z) (key value : uptr) (flags : Z) s : res unit * shm :=
  bpf_map_update_elem cpu with_libbpf table (fd_of_map_ptr map) key value flags false s.
Definition bpftime_map_delete_elem_helper (map : Z) (key : uptr) s : res unit * shm :=
  bpf_delete_elem cpu with_libbpf table (fd_of_map_ptr map) key false s.
Definition bpftime_map_push_elem_helper (map : Z) (value : uptr) (flags : Z) s : res unit * shm :=
  bpf_map_push_elem (fd_of_map_ptr map) value flags false s.
Definition bpftime_map_pop_elem_helper (map : Z) (value : uptr) s : res (list Z) * shm :=
  bpf_map_pop_elem (fd_of_map_ptr map) value false s.
Definition bpftime_map_peek_elem_helper (map : Z) (value : uptr) s : res (list Z) * shm :=
  bpf_map_peek_elem (fd_of_map_ptr map) value false s.

(** ** Ring buffers *)

(** The program's copy into the sample; [data] has the bytes at the pointer. *)
Definition copy_sample (fd buf : Z) (data : list Z) (size : Z) s : res unit * shm :=
  if zlen data <? size then (Fault, s)
  else with_ringbuf s fd Fault (λ rb, write_sample rb buf (take (Z.to_nat size) data)).

Definition bpf_ringbuf_output (rb : Z) (data : list Z) (size flags : Z) s : res Z * shm :=
  let fd := fd_of_map_ptr rb in
  match bpftime_ringbuf_reserve fd size s with
  | (Ok buf, s) =>
      match copy_sample fd buf data size s with
      | (Ok _, s) =>
          match bpftime_ringbuf_submit fd buf false s with
          | (Fault, s) => (Fault, s)
          | (_, s) => (Ok 0, s)
          end
      | (_, s) => (Fault, s)
      end
  | (Throw, s) => (Throw, s)
  | (Fault, s) => (Fault, s)
  | (_, s) => (Raw (u64 (-1)), s)
  end.

Definition bpf_ringbuf_reserve (rb size flags : Z) s : res Z * shm := bpftime_ringbuf_reserve (fd_of_map_ptr rb) size s.

(** [ptr[-1]] of a sample in the buffer of a map: the descriptor in the header. Before the start of the buffer it is the
    end of the page with the producer's position, which is never written. *)
Definition fd_of_sample (rb : ringbuf) (sample : Z) : option Z :=
  if sample =? 0 then Some 0 else w ← vread (rb_data rb) (sample - 4) 4; Some (s32 (le_load w)).

(** The sample is at an offset in the buffer of the map with the name. *)
Definition ringbuf_finish (name : string) (sample : Z) (discard : bool) s : res Z * shm :=
  match ringbuf_object s name ≫= λ rb, fd_of_sample rb sample with
  | None => (Fault, s)
  | Some fd =>
      match bpftime_ringbuf_submit fd sample discard s with
      | (Fault, s) => (Fault, s)
      | (_, s) => (Ok 0, s)
      end
  end.
Definition bpf_ringbuf_submit (name : string) (sample flags : Z) s : res Z * shm := ringbuf_finish name sample false s.
Definition bpf_ringbuf_discard (name : string) (sample flags : Z) s : res Z * shm := ringbuf_finish name sample true s.

(** ** Perf events *)

(** [getcpu] is the answer of [sched_getcpu], [bind_ok] tells whether the thread could be bound to it, [shared_output] is
    the map of the kernel. The second component tells whether the thread is left bound. *)
Definition bpf_perf_event_output (getcpu : Z) (bind_ok : bool) (shared_output : Z → uptr → Z → res unit) (map : Z) (data : uptr) (size : Z) s
  : res Z * bool * shm :=
  if getcpu =? -1 then (Raw (u64 (-1)), false, s)
  else if negb bind_ok then (Err EINVAL, false, s)
  else
    let fd := fd_of_map_ptr map in
    match bpftime_map_get_info fd s with
    | Ok (_, _, map_ty) =>
        match map_ty with
        | BPF_MAP_TYPE_PERF_EVENT_ARRAY =>
            match bpf_map_lookup_elem cpu with_libbpf table fd (key32 (u32 getcpu)) false s with
            | (Ok (Number perf_handler_fd), s) =>
                let '(r, s) := bpftime_perf_event_output perf_handler_fd data size s in (res_map (λ _, 0) r, false, s)
            | (Throw, s) => (Throw, true, s)
            | (Fault, s) | (Ok _, s) => (Fault, true, s)
            | (_, s) => (Err EINVAL, true, s)
            end
        | BPF_MAP_TYPE_KERNEL_USER_PERF_EVENT_ARRAY =>
            if with_libbpf then (res_map (λ _, 0) (shared_output fd data size), false, s) else (Raw (u64 (-1)), false, s)
        | _ => (Raw (u64 (-1)), false, s)
        end
    | _ => (Raw (u64 (-1)), true, s)
    end.

(** ** Stack traces *)

(** The frames that are left after the first ones. *)
Definition skip_frames (flags : Z) (stack : list Z) : list Z :=
  let frames_to_skip := Z.land flags BPF_F_SKIP_FIELD_MASK in
  if zlen stack <=? frames_to_skip then [] else drop (Z.to_nat frames_to_skip) stack.

(** [stack] is the answer of the attach implementation: [None] without one, [Some None] when it has no trace. *)
Definition collect_stack (stack : option (option (list Z))) : res (list Z) :=
  match stack with None => Raw (- errno_val ENOTSUP) | Some None => Raw (- errno_val ENOENT) | Some (Some l) => Ok l end.

Definition bpftime_get_stackid (hash_combine : Z → Z → Z) (stack : option (option (list Z))) (map_raw flags : Z) s : res Z * shm :=
  if negb (flag flags BPF_F_USER_STACK) then (Raw (- errno_val ENOTSUP), s)
  else
    match collect_stack stack with
    | Ok l =>
        let fd := fd_of_map_ptr map_raw in
        match sh_manager s, handler_at s fd with
        | Some m, Some (HMap _) =>
            match try_get_stack_trace_impl s fd with
            | Some (Some name) =>
                match (o ← memory m !! name; prj (S := stack_trace_map_impl (U := U)) o) with
                | Some st =>
                    let '(r, st) := fill_stack_trace hash_combine st (skip_frames flags l) (flag flags BPF_F_REUSE_STACKID) (flag flags BPF_F_FAST_STACK_CMP) in
                    (res_map u32 r, sh_set_manager s (HandlerManager (handlers m) (<[name := inj st]> (memory m))))
                | None => (Fault, s)
                end
            | _ => (Fault, s)
            end
        | Some _, Some _ => (Throw, s)
        | _, _ => (Fault, s)
        end
    | Raw c => (Raw c, s)
    | _ => (Fault, s)
    end.

(** The bytes that are written to the buffer. *)
Definition bpftime_get_stack (stack : option (option (list Z))) (size flags : Z) : res (list Z) :=
  if negb (flag flags BPF_F_USER_STACK) then Raw (- errno_val ENOTSUP)
  else if negb (flag flags BPF_F_USER_BUILD_ID) then Raw (- errno_val ENOTSUP)
  else
    match collect_stack stack with
    | Ok l =>
        let frames := skip_frames flags l in
        Ok (take (Z.to_nat (Z.min (zlen frames) size)) (concat (le_store 8 <$> frames)))
    | r => r
    end.
End helpers.
