(* ===== verification/HelperProps.v ===== *)
(** * What the helpers do

    The helpers of programs on the shared memory compose the pointer to a map, the descriptor table and the
    implementation of the map; what a program writes through them is what a process reads. *)

From stdpp Require Import base numbers list gmap strings.
From S2P Require Import Prelude.
From S2P Require Import EbpfIsa.
From S2P Require Import ArrayMap.
From S2P Require Import FdArray.
From S2P Require Import RingBuf.
From S2P Require Import RingRefine.
From S2P Require Import RingRuns.
From S2P Require Import UnorderedMap.
From S2P Require Import LruHashMap.
From S2P Require Import StackTrace.
From S2P Require Import PerfEvent.
From S2P Require Import MapHandler.
From S2P Require Import HandlerManager.
From S2P Require Import Shm.
From S2P Require Import ShmProps.
From S2P Require Import ShmMaps.
From S2P Require Import Helpers.

Section props.
Context {U : Type} `{!UnorderedMap (list Z) U} {UL : Type} `{!UnorderedMap hash_map_value UL}.
Context `{Kernel} {F : Type} `{!KernelUserMaps F} (cpu : Z) (with_libbpf : bool) (table : ops_table) (mc : machine).
Context {K : Type} `{!PosixFds K} {C : Type}.

Abbreviation shm := (bpftime_shm (U := U) (UL := UL) (F := F) (K := K) (C := C)).
Implicit Types s : shm.
#[local] Hint Extern 0 (MapHandlerOps _ _) => exact (shm_map_ops cpu with_libbpf table mc) : typeclass_instances.

(** ** Maps *)

(** Programs have no helper for the next key. *)
Definition has_helper (op : map_op) : bool := match op with OpNextKey _ _ => false | _ => true end.
Definition helper_step (map : Z) s (op : map_op) : map_ans * shm :=
  match op with
  | OpLookup k => answer AnsPtr (bpftime_map_lookup_elem_helper cpu with_libbpf table map k s)
  | OpUpdate k v f => answer AnsUnit (bpftime_map_update_elem_helper cpu with_libbpf table map k v f s)
  | OpDelete k => answer AnsUnit (bpftime_map_delete_elem_helper cpu with_libbpf table map k s)
  | OpPush v f => answer AnsUnit (bpftime_map_push_elem_helper map v f s)
  | OpPop v => answer AnsBytes (bpftime_map_pop_elem_helper map v s)
  | OpPeek v => answer AnsBytes (bpftime_map_peek_elem_helper map v s)
  | OpNextKey _ _ => (AnsBytes Fault, s)
  end.

Lemma helper_run_ok map fd ops : fd_of_map_ptr map = fd → Forall (λ op, has_helper op = true) ops →
  ∀ s, run (helper_step map) s ops = run (shm_map_step cpu with_libbpf table fd false) s ops.
Proof.
  intros <-. induction 1 as [|op ops Hop _ IH]; intros s; [done|]. cbn [run].
  assert (helper_step map s op = shm_map_step cpu with_libbpf table (fd_of_map_ptr map) false s op) as -> by (by destruct op).
  destruct (shm_map_step _ _ _ _ _ s op) as [a s1]. by rewrite IH.
Qed.

(** C5 (refinement). A program that has the pointer to a new map and calls the helpers on it gets the answers of the
    implementation of the map's type: the pointer leads to the descriptor, the descriptor to the handler, and the handler to
    the object. *)
Theorem helper_map_transparent fd name attr s m c h' w' ops :
  let h := bpf_map_handler_create fd name attr in
  0 ≤ fd < 2 ^ 31 → sh_manager s = Some m → handler_at s fd = Some unused_handler →
  class_of cpu with_libbpf mc (at_type attr) false = Some c → memory m !! get_container_name h = None →
  map_init cpu with_libbpf table mc h (memory m) = (Ok tt, h', w') → Forall (λ op, has_helper op = true) ops →
  ∃ s1 s2 st, add_bpf_map cpu with_libbpf table mc fd name attr s = (Ok fd, s1) ∧ ic_create c h = Ok st ∧
    run (helper_step (map_ptr_by_fd s1 fd)) s1 ops = ((run (class_step c) st ops).1, s2).
Proof.
  intros h Hfd Hm Hh Hc Hw Hi Hops. destruct (add_bpf_map_ok cpu with_libbpf table mc fd name attr s m h' w' ltac:(lia) Hm Hh Hi) as (s1&Ha&Hm1).
  destruct (new_map_runs cpu with_libbpf table mc fd h s m false c h' w' s1 ops Hm Hh Hc Hw Hi Hm1) as (s2&st&Hst&Hr&_).
  exists s1, s2, st. split; [done|]. split; [done|]. rewrite <- Hr. apply helper_run_ok; [|done]. apply map_ptr_fd; [done|].
  unfold is_map_fd, handler_at. rewrite Hm1. cbn [mbind option_bind]. destruct (handler_at_in _ _ _ _ Hm Hh) as [Hin Hi0].
  unfold in_table, size, zlen in *. cbn [handlers]. rewrite length_insert, Hin, list_lookup_insert_eq by (by eapply lookup_lt_Some). done.
Qed.

(** ** Ring buffers *)

(** The ring buffer of the map at a descriptor. *)
Definition ring_at s (fd : Z) (name : string) (rb : ringbuf) : Prop :=
  shm_try_get_ringbuf_map_impl s fd = Some (Some name) ∧ ringbuf_object s name = Some rb.

Lemma with_ringbuf_at {A} s fd name rb (none : res A) f : ring_at s fd name rb →
  ∃ s', with_ringbuf s fd none f = ((f rb).1, s') ∧ ring_at s' fd name (f rb).2 ∧
    (∀ i, shm_try_get_ringbuf_map_impl s' i = shm_try_get_ringbuf_map_impl s i).
Proof.
  intros [Hn Ho]. unfold with_ringbuf. rewrite Hn, Ho. pose proof Ho as Ho'. unfold ringbuf_object in Ho'.
  destruct (sh_manager s) as [m|] eqn:Em; [|done]. destruct (f rb) as [r rb'] eqn:Ef. eexists. split; [done|].
  assert (Hsame : ∀ i, shm_try_get_ringbuf_map_impl (sh_set_manager s (HandlerManager (handlers m) (<[name := inj rb']> (memory m)))) i =
    shm_try_get_ringbuf_map_impl s i).
  { intros i. unfold shm_try_get_ringbuf_map_impl, try_get_impl, is_ringbuf_map_fd, map_type_at, handler_at. cbn [sh_manager sh_set_manager]. by rewrite Em. }
  split; [|exact Hsame]. split; [by rewrite Hsame|]. unfold ringbuf_object. cbn [sh_manager sh_set_manager mbind option_bind memory].
  by rewrite lookup_insert_eq.
Qed.

Lemma ring_ptr s fd name rb : ring_at s fd name rb → 0 ≤ fd < 2 ^ 31 → fd_of_map_ptr (map_ptr_by_fd s fd) = fd.
Proof.
  intros [Hn _] Hfd. apply map_ptr_fd; [done|]. unfold shm_try_get_ringbuf_map_impl, try_get_impl in Hn. unfold is_map_fd.
  by destruct (handler_at s fd) as [[]|].
Qed.

Section ring.
Variable N : Z.
Hypothesis N_ok : ∃ e, 3 ≤ e ≤ 31 ∧ N = 2 ^ e.

(** What has to hold for a sample of [size] bytes to be taken; its header is not the last one of the buffer. *)
Record ring_ready s (fd : Z) (name : string) (rb : ringbuf) (L : list rec) (size : Z) : Prop := {
  ry_fd : 0 ≤ fd < 2 ^ 31;
  ry_at : ring_at s fd name rb;
  ry_rep : rb_rep N rb L;
  ry_size : 0 ≤ size < 2 ^ 30;
  ry_room : rb_producer_pos rb + tot size ≤ rb_consumer_pos rb + N;
  ry_pos : rb_producer_pos rb + N < 2 ^ 64
}.
Definition last_header (rb : ringbuf) : Prop := at_ N (rb_producer_pos rb) + 8 = N.

(** The sample that is reserved, with the descriptor in its header. *)
Lemma reserve_sample s fd name rb L size : ring_ready s fd name rb L size → ¬ last_header rb →
  ∃ d junk s1, bpftime_ringbuf_reserve fd size s = (Ok (at_ N (rb_producer_pos rb + 8)), s1) ∧
    let rb1 := with_producer (with_data rb d) (rb_producer_pos rb + tot size) in
    ring_at s1 fd name rb1 ∧ rb_rep N rb1 (L ++ [Rec (rb_producer_pos rb) size Busy junk]) ∧
    vread d (at_ N (rb_producer_pos rb) + 4) 4 = Some (le_store 4 fd) ∧ at_ N (rb_producer_pos rb + 8) = at_ N (rb_producer_pos rb) + 8.
Proof.
  intros [Hfd Hat Hr Hs Hroom Hpos] Hlast. destruct (reserve_ok N N_ok rb L size fd Hr Hs Hroom Hpos) as (d&junk&Hres&Hr1&_).
  destruct (with_ringbuf_at s fd name rb (Err EINVAL) (λ rb, reserve rb size fd) Hat) as (s1&Hw&Hat1&_). rewrite Hres in Hw, Hat1.
  exists d, junk, s1. split; [exact Hw|]. cbn zeta. split; [exact Hat1|]. split; [exact Hr1|].
  pose proof (rep_prod N N_ok rb L Hr) as (_&_&Hp8). unfold last_header in Hlast.
  destruct (at_hdr N N_ok (rb_producer_pos rb) Hp8) as [[_ He]|[He _]]; [|lia]. split; [|exact He].
  unfold reserve in Hres. destruct (negb _); [done|]. destruct (_ <? _); [done|]. destruct (_ <? _); [done|].
  rewrite !(land_at N N_ok _ _ (rr_max _ _ _ Hr)) in Hres.
  destruct (vwrite (rb_data rb) _ _) as [d1|]; [|done]. cbn [mbind option_bind] in Hres. destruct (vwrite d1 _ _) as [d2|] eqn:Ed; [|done].
  assert (Hd : rb_data (with_data rb d2) = rb_data (with_data rb d)) by (apply (f_equal (λ x, rb_data x.2)) in Hres; exact Hres).
  cbn [with_data rb_data] in Hd. subst d2. pose proof (vread_vwrite_same _ _ _ _ Ed) as Hv. by rewrite zlen_word in Hv.
Qed.

Lemma copy_sample_ok s fd name rb A p size dt data : ring_at s fd name rb → rb_rep N rb (A ++ [Rec p size Busy dt]) → zlen data = size →
  at_ N (p + 8) = at_ N p + 8 →
  ∃ d s1, copy_sample fd (at_ N (p + 8)) data size s = (Ok tt, s1) ∧ ring_at s1 fd name (with_data rb d) ∧
    rb_rep N (with_data rb d) (A ++ [Rec p size Busy data]) ∧ vread d (at_ N p + 4) 4 = vread (rb_data rb) (at_ N p + 4) 4.
Proof.
  intros Hat Hr Hz Hp. destruct (write_ok N N_ok rb A p size Busy dt [] data Hr Hz) as (d&Hw&Hr1).
  assert (Hwr : written N p data dt = data).
  { unfold written. destruct (Z.eqb_spec (at_ N p + 8) N) as [He|]; [|done]. exfalso. rewrite <- Hp in He.
    pose proof (Z.mod_pos_bound (p + 8) N). unfold at_ in *. pose proof (N_bounds N N_ok). lia. }
  rewrite Hwr in Hr1. destruct (with_ringbuf_at s fd name rb Fault (λ rb, write_sample rb (at_ N (p + 8)) data) Hat) as (s1&Hs&Hat1&_).
  rewrite Hw in Hs, Hat1. exists d, s1. split; [|split; [exact Hat1|split; [exact Hr1|]]].
  - unfold copy_sample. rewrite Hz, Z.ltb_irrefl, take_ge by (unfold zlen in Hz; lia). exact Hs.
  - unfold write_sample in Hw. destruct (vwrite (rb_data rb) _ data) as [d1|] eqn:Ed; [|done].
    apply (f_equal (λ x, rb_data x.2)) in Hw. cbn [snd with_data rb_data] in Hw. subst d1.
    apply (vread_vwrite_disjoint _ _ _ _ _ _ Ed). lia.
Qed.

Lemma submit_sample s fd name rb A p size dt (discard : bool) : ring_at s fd name rb → rb_rep N rb (A ++ [Rec p size Busy dt]) →
  ∃ d s1, bpftime_ringbuf_submit fd (at_ N (p + 8)) discard s = (Ok tt, s1) ∧ ring_at s1 fd name (with_data rb d) ∧
    rb_rep N (with_data rb d) (A ++ [Rec p size (if discard then Discarded else Committed) dt]).
Proof.
  intros Hat Hr. destruct (submit_ok N N_ok rb A p size dt [] discard Hr) as (d&Hs&Hr1).
  destruct (with_ringbuf_at s fd name rb (Err EINVAL) (λ rb, submit rb (at_ N (p + 8)) discard) Hat) as (s1&Hw&Hat1&_).
  rewrite Hs in Hw, Hat1. by exists d, s1.
Qed.

Lemma poll_ring {X} (cb : X → list Z → Z * X) ctx s fd name rb L : ring_at s fd name rb → rb_rep N rb L → rb_producer_pos rb < 2 ^ 64 →
  (bpftime_poll_from_ringbuf fd cb ctx s).1 = Ok (deliver cb L ctx 0).1.
Proof.
  intros Hat Hr Hp. destruct (fetch_data_ok N N_ok cb rb L ctx Hr Hp) as (rb'&Hf).
  destruct (with_ringbuf_at s fd name rb (Raw (- errno_val EINVAL)) (λ rb, fetch_data cb rb ctx) Hat) as (s1&Hw&_).
  unfold bpftime_poll_from_ringbuf. rewrite Hw. cbn [fst]. destruct (deliver cb L ctx 0) as [[a ctx'] L']. by destruct Hf as [-> _].
Qed.

(** What a program outputs through the pointer to a ring buffer, in one call or with a reservation that
    it fills and submits, comes out at the consumer's poll: after the samples before it, with the bytes of the program.
    The sample's header must not be the last one of the buffer. *)
Theorem ringbuf_helpers_deliver s fd name rb L data : ring_ready s fd name rb L (zlen data) → ¬ last_header rb →
  let map := map_ptr_by_fd s fd in
  let L' := L ++ [Rec (rb_producer_pos rb) (zlen data) Committed data] in
  (∃ s', bpf_ringbuf_output map data (zlen data) 0 s = (Ok 0, s') ∧
     ∀ X (cb : X → list Z → Z * X) ctx, (bpftime_poll_from_ringbuf fd cb ctx s').1 = Ok (deliver cb L' ctx 0).1) ∧
  (∃ sample s1 s2 s', bpf_ringbuf_reserve map (zlen data) 0 s = (Ok sample, s1) ∧ copy_sample fd sample data (zlen data) s1 = (Ok tt, s2) ∧
     bpf_ringbuf_submit name sample 0 s2 = (Ok 0, s') ∧
     ∀ X (cb : X → list Z → Z * X) ctx, (bpftime_poll_from_ringbuf fd cb ctx s').1 = Ok (deliver cb L' ctx 0).1).
Proof.
  intros Hry Hlast map L'. pose proof Hry as [Hfd Hat Hr Hs Hroom Hpos]. unfold map, bpf_ringbuf_output, bpf_ringbuf_reserve.
  rewrite (ring_ptr s fd name rb Hat Hfd). destruct (reserve_sample s fd name rb L (zlen data) Hry Hlast) as (d&junk&s1&Hres&Hat1&Hr1&Hfdw&Hp).
  destruct (copy_sample_ok s1 fd name _ L (rb_producer_pos rb) (zlen data) junk data Hat1 Hr1 eq_refl Hp) as (d2&s2&Hcopy&Hat2&Hr2&Hkeep).
  destruct (submit_sample s2 fd name _ L (rb_producer_pos rb) (zlen data) data false Hat2 Hr2) as (d3&s3&Hsub&Hat3&Hr3).
  cbn [with_data with_producer rb_data rb_producer_pos] in *. pose proof (N_bounds N N_ok) as [HN _].
  assert (Hprod : rb_producer_pos rb + tot (zlen data) < 2 ^ 64) by (pose proof (rep_prod N N_ok rb L Hr); lia).
  rewrite Hres. split.
  - exists s3. rewrite Hcopy, Hsub. split; [done|]. intros X cb ctx. by apply (poll_ring cb ctx s3 fd name _ L' Hat3 Hr3).
  - exists (at_ N (rb_producer_pos rb + 8)), s1, s2, s3. split; [done|]. split; [exact Hcopy|]. split; [|intros X cb ctx; by apply (poll_ring cb ctx s3 fd name _ L' Hat3 Hr3)].
    unfold bpf_ringbuf_submit, ringbuf_finish. rewrite (proj2 Hat2). cbn [mbind option_bind]. unfold fd_of_sample.
    destruct (at_bounds N N_ok (rb_producer_pos rb)) as (Ha&_); [by apply (rep_prod N N_ok rb L Hr)|].
    destruct (Z.eqb_spec (at_ N (rb_producer_pos rb + 8)) 0) as [He|_]; [lia|]. rewrite Hp.
    replace (at_ N (rb_producer_pos rb) + 8 - 4) with (at_ N (rb_producer_pos rb) + 4) by lia. cbn [rb_data with_data with_producer]. rewrite Hkeep, Hfdw. cbn [mbind option_bind].
    rewrite le_load_store, Z.mod_small, s32_small by lia. rewrite <- Hp, Hsub. done.
Qed.

(** When the header of a sample is the last one of the buffer, the sample starts at the beginning of the
    buffer, and the word before it is not the descriptor: submitting the sample returns 0 and does nothing when descriptor
    0 is not a ring buffer. The consumer finds a sample that is not finished and never gets past it. *)
Theorem ringbuf_last_header_blocks s fd name rb size : ring_ready s fd name rb [] size → last_header rb →
  shm_try_get_ringbuf_map_impl s 0 = None →
  ∃ s1, bpf_ringbuf_reserve (map_ptr_by_fd s fd) size 0 s = (Ok 0, s1) ∧ bpf_ringbuf_submit name 0 0 s1 = (Ok 0, s1) ∧
    ∀ X (cb : X → list Z → Z * X) ctx, (bpftime_poll_from_ringbuf fd cb ctx s1).1 = Ok (0, ctx).
Proof.
  intros [Hfd Hat Hr Hs Hroom Hpos] Hlast H0. unfold bpf_ringbuf_reserve. rewrite (ring_ptr s fd name rb Hat Hfd).
  destruct (reserve_ok N N_ok rb [] size fd Hr Hs Hroom Hpos) as (d&junk&Hres&Hr1&_).
  destruct (with_ringbuf_at s fd name rb (Err EINVAL) (λ rb, reserve rb size fd) Hat) as (s1&Hw&Hat1&Hsame). rewrite Hres in Hw, Hat1.
  pose proof (rep_prod N N_ok rb [] Hr) as (Hcp&Hc0&Hp8). unfold last_header in Hlast. pose proof (N_bounds N N_ok) as [HN _].
  destruct (at_hdr N N_ok (rb_producer_pos rb) Hp8) as [[? _]|[_ He]]; [lia|]. exists s1. split; [by rewrite <- He|]. split.
  - unfold bpf_ringbuf_submit, ringbuf_finish. rewrite (proj2 Hat1). cbn [mbind option_bind fd_of_sample Z.eqb].
    unfold bpftime_ringbuf_submit, with_ringbuf. by rewrite Hsame, H0.
  - intros X cb ctx. rewrite (poll_ring cb ctx s1 fd name _ _ Hat1 Hr1); [done|]. cbn [snd with_producer rb_producer_pos]. lia.
Qed.
End ring.

(** ** Perf events *)

(** Output to a perf event array appends the sample to the software event that is set for the current
    processor, and leaves the thread where it was. *)
Theorem perf_helper_output getcpu shared map data sz s m h name a pfd e p d : getcpu ≠ -1 →
  sh_manager s = Some m → handler_at s (fd_of_map_ptr map) = Some (HMap h) → mh_type h = BPF_MAP_TYPE_PERF_EVENT_ARRAY →
  mh_map_impl_ptr h = Some name → memory m !! name = Some (IPerfEventArray a) → perf_elem_lookup a (key32 (u32 getcpu)) = Ok pfd →
  handler_at s pfd = Some (HPerfEvent e) → try_get_software_perf_data_weak_ptr e = Some p → sh_perf s !! p = Some d →
  ∃ s', bpf_perf_event_output cpu with_libbpf table getcpu true shared map data sz s = (res_map (λ _, 0) (output_data d data sz).1, false, s') ∧
    sh_perf s' = <[p := (output_data d data sz).2]> (sh_perf s) ∧ ∀ i, handler_at s' i = handler_at s i.
Proof.
  intros Hcpu Hm Hh Ht Hp Ha Hl He Hw Hd. unfold bpf_perf_event_output. rewrite (proj2 (Z.eqb_neq getcpu (-1)) Hcpu). cbn [negb].
  unfold bpftime_map_get_info. rewrite Hh, Ht. unfold bpf_map_lookup_elem, with_map. rewrite Hm, Hh. unfold map_lookup_elem. rewrite Ht.
  unfold call_impl. rewrite Hp, Ha. cbn [mbind option_bind prj perf_event_array_impl impl_lookup]. rewrite Hl. cbn [lift_read res_map fst snd].
  unfold bpftime_perf_event_output.
  assert (Hat : ∀ w i, handler_at (sh_set_manager s (HandlerManager (handlers m) w)) i = handler_at s i).
  { intros w i. unfold handler_at. cbn [sh_manager sh_set_manager]. by rewrite Hm. }
  rewrite Hat, He, Hw. cbn [sh_perf sh_set_manager]. rewrite Hd. destruct (output_data d data sz) as [r d']. eexists. split; [done|].
  split; [done|]. intros i. unfold handler_at. cbn [sh_manager sh_set_perf sh_set_manager]. by rewrite Hm.
Qed.

(** A failed output leaves the thread bound to one processor: when the map is unknown or has no event for the
    processor, the helper returns before it gives the thread its processors back. *)
Theorem perf_helper_leaves_bound getcpu shared map data sz s : getcpu ≠ -1 → is_map_fd s (fd_of_map_ptr map) = false →
  bpf_perf_event_output cpu with_libbpf table getcpu true shared map data sz s = (Raw (u64 (-1)), true, s).
Proof.
  intros Hcpu Hm. unfold bpf_perf_event_output. rewrite (proj2 (Z.eqb_neq getcpu (-1)) Hcpu). cbn [negb].
  unfold bpftime_map_get_info, is_map_fd in *. by destruct (handler_at s (fd_of_map_ptr map)) as [[]|].
Qed.

(** ** Stack traces *)

(** [get_stack] takes the flag for build ids the wrong way round: it refuses every call without the flag. A
    call that it accepts copies as many bytes as there are frames, so that of more than 8 bytes of frames most are missing. *)
Theorem get_stack_refuses (stack : list Z) size flags : 0 ≤ size → flag flags BPF_F_USER_STACK = true →
  (flag flags BPF_F_USER_BUILD_ID = false → bpftime_get_stack (Some (Some stack)) size flags = Raw (- errno_val ENOTSUP)) ∧
  (flag flags BPF_F_USER_BUILD_ID = true → ∃ bs, bpftime_get_stack (Some (Some stack)) size flags = Ok bs ∧ zlen bs ≤ zlen (skip_frames flags stack)).
Proof.
  intros Hs Hu. unfold bpftime_get_stack. rewrite Hu. cbn [negb collect_stack]. split; intros ->; cbn [negb]; [done|]. eexists. split; [done|].
  unfold zlen. rewrite length_take. lia.
Qed.
End props.

Section traces.
Context {U : Type} `{UnorderedMapLaws (list Z) U} {UL : Type} `{!UnorderedMap hash_map_value UL}.
Context `{Kernel} {F : Type} `{!KernelUserMaps F} (cpu : Z) (with_libbpf : bool) (table : ops_table).
Context {K : Type} `{!PosixFds K} {C : Type}.

Abbreviation shm := (bpftime_shm (U := U) (UL := UL) (F := F) (K := K) (C := C)).
Implicit Types s : shm.

(** The number that [get_stackid] returns leads back to the frames: a lookup of the number in the map
    gives the frames after those that were to be skipped, or the trace that was there and is kept. *)
Theorem stackid_lookup hc stack map flags fs s m h name st : flag flags BPF_F_USER_STACK = true →
  sh_manager s = Some m → handler_at s (fd_of_map_ptr map) = Some (HMap h) → mh_type h = BPF_MAP_TYPE_STACK_TRACE →
  mh_map_impl_ptr h = Some name → memory m !! name = Some (IStackTrace st) → 0 < st_max_entries st ≤ 2 ^ 31 →
  let frames := skip_frames flags stack in
  ∃ s', bpftime_get_stackid hc (Some (Some stack)) map flags s = (Ok (trace_id hc st frames), s') ∧
    (bpf_map_lookup_elem cpu with_libbpf table (fd_of_map_ptr map) (key32 (trace_id hc st frames)) fs s').1 =
      Ok (Bytes (filed hc st frames (flag flags BPF_F_REUSE_STACKID) (flag flags BPF_F_FAST_STACK_CMP))).
Proof.
  intros Hu Hm Hh Ht Hp Ha Hn frames. unfold bpftime_get_stackid. rewrite Hu. cbn [negb collect_stack]. rewrite Hm, Hh.
  unfold try_get_stack_trace_impl, try_get_impl, is_stack_trace_map_fd, map_type_at, try_get_stack_trace_map_impl. rewrite Hh, Ht, Hp, Ha.
  cbn [mbind option_bind prj stack_trace_impl]. fold frames.
  pose proof (fill_find hc st frames (flag flags BPF_F_REUSE_STACKID) (flag flags BPF_F_FAST_STACK_CMP) ltac:(lia)) as Hf.
  destruct (fill_stack_trace hc st frames _ _) as [r st']. destruct Hf as (->&Hf&_). set (i := trace_id hc st frames) in *.
  assert (Hi : 0 ≤ i < 2 ^ 31) by (unfold i, trace_id; pose proof (Z.mod_pos_bound (hash_stack_trace hc frames) (st_max_entries st)); lia).
  eexists. split; [cbn [res_map]; rewrite s32_small, u32_small by lia; reflexivity|].
  unfold bpf_map_lookup_elem, with_map, handler_at. cbn [sh_manager sh_set_manager mbind option_bind].
  destruct (handler_at_in _ _ _ _ Hm Hh) as [Hin Hi0]. unfold in_table, size in *. cbn [handlers memory]. rewrite Hin, Hi0.
  unfold map_lookup_elem. rewrite Ht. unfold call_impl. rewrite Hp, lookup_insert_eq.
  cbn [mbind option_bind prj inj stack_trace_impl impl_lookup]. rewrite lookup_key32 by lia. rewrite Hf, decide_True by done. done.
Qed.
End traces.

(** ** Witnesses *)

Lemma helper_map_transparent_witness :
  let attr := demo_attr BPF_MAP_TYPE_ARRAY 4 2 3 in
  ∃ s1 : demo_runtime, add_bpf_map 0 true demo_table demo_machine 4 "m" attr demo_new = (Ok 4, s1) ∧
    (run (helper_step 0 true demo_table (map_ptr_by_fd s1 4)) s1 (take 4 demo_array_ops)).1 =
      [AnsUnit (Ok tt); AnsPtr (Ok (InData 2)); AnsPtr (Err ENOENT); AnsBytes (Raw (-95))].
Proof.
  cbn zeta. set (attr := demo_attr BPF_MAP_TYPE_ARRAY 4 2 3). set (m := match sh_manager demo_new with Some m => m | None => HandlerManager [] ∅ end).
  destruct (helper_map_transparent 0 true demo_table demo_machine 4 "m" attr demo_new m
    (plain array_map_impl (λ h, Ok (array_map_create (mh_value_size h) (mh_max_entries h))))
    (map_init 0 true demo_table demo_machine (bpf_map_handler_create 4 "m" attr) (memory m)).1.2
    (map_init 0 true demo_table demo_machine (bpf_map_handler_create 4 "m" attr) (memory m)).2 (take 4 demo_array_ops))
    as (s1&s2&st&Ha&Hst&Hr); [lia|done|vm_compute; done|done|done|reflexivity|by repeat constructor|].
  injection Hst as <-. exists s1. split; [exact Ha|]. rewrite Hr. vm_compute. done.
Defined.

(** A ring buffer of [n] bytes at descriptor 4. *)
Definition demo_ring_map (n : Z) : demo_runtime :=
  (add_bpf_map 0 true demo_table demo_machine 4 "rb" (demo_attr BPF_MAP_TYPE_RINGBUF 0 0 n) demo_new).2.
Definition ring_object (s : demo_runtime) : ringbuf := match ringbuf_object s "ebpf_map_fd_rb" with Some rb => rb | None => RingBuf 0 0 0 [] end.

Lemma demo_ring_ready : ring_ready 64 (demo_ring_map 64) 4 "ebpf_map_fd_rb" (ring_object (demo_ring_map 64)) [] 3.
Proof.
  split; [lia|split; vm_compute; done| |lia|vm_compute; congruence|vm_compute; done].
  split; [vm_compute; done|vm_compute; done|vm_compute; split; congruence|vm_compute; done|vm_compute; congruence|constructor].
Qed.

Lemma ringbuf_helpers_deliver_witness :
  ∃ s', bpf_ringbuf_output (map_ptr_by_fd (demo_ring_map 64) 4) [7; 8; 9] 3 0 (demo_ring_map 64) = (Ok 0, s') ∧
    (bpftime_poll_from_ringbuf 4 keep [] s').1 = Ok (1, [[7; 8; 9]]).
Proof.
  destruct (ringbuf_helpers_deliver 64 ltac:(by exists 6) (demo_ring_map 64) 4 "ebpf_map_fd_rb" (ring_object (demo_ring_map 64)) [] [7; 8; 9])
    as [(s'&Ho&Hp) _]; [exact demo_ring_ready|unfold last_header; vm_compute; congruence|].
  exists s'. split; [exact Ho|]. rewrite (Hp _ keep []). done.
Defined.

(** After an empty sample the header of the next one takes the last 8 of 16 bytes. *)
Definition demo_ring_end : demo_runtime :=
  let s := (bpf_ringbuf_output (map_ptr_by_fd (demo_ring_map 16) 4) [] 0 0 (demo_ring_map 16)).2 in (bpftime_poll_from_ringbuf 4 keep [] s).2.

Lemma ringbuf_last_header_blocks_witness :
  ∃ s1, bpf_ringbuf_reserve (map_ptr_by_fd demo_ring_end 4) 4 0 demo_ring_end = (Ok 0, s1) ∧
    bpf_ringbuf_submit "ebpf_map_fd_rb" 0 0 s1 = (Ok 0, s1) ∧ (bpftime_poll_from_ringbuf 4 keep [] s1).1 = Ok (0, []).
Proof.
  destruct (ringbuf_last_header_blocks 16 ltac:(by exists 4) demo_ring_end 4 "ebpf_map_fd_rb" (ring_object demo_ring_end) 4) as (s1&Hr&Hs&Hp).
  - split; [lia|split; vm_compute; done| |lia|vm_compute; congruence|vm_compute; done].
    split; [vm_compute; done|vm_compute; done|vm_compute; split; congruence|vm_compute; done|vm_compute; congruence|constructor].
  - vm_compute. done.
  - vm_compute. done.
  - exists s1. split; [exact Hr|]. split; [exact Hs|]. exact (Hp _ keep []).
Defined.

(** A perf event array (4) with the event at descriptor 3 for processor 0; the pages have 64 bytes. *)
Definition small_machine : machine := Machine 64 2 1 0 false true.
Definition demo_perf_map : demo_runtime :=
  let s := (add_software_perf_event 0 true demo_table small_machine 0 0 0 demo_new).2 in
  let s := (add_bpf_map 0 true demo_table small_machine 4 "pe" (demo_attr BPF_MAP_TYPE_PERF_EVENT_ARRAY 4 4 2) s).2 in
  let s := (get_software_perf_event_raw_buffer 3 128 s).2 in
  (bpf_map_update_elem 0 true demo_table 4 (key32 0) (key32 3) 0 true s).2.

Lemma perf_helper_output_witness :
  ∃ s', bpf_perf_event_output 0 true demo_table 0 true (λ _ _ _, Fault) (map_ptr_by_fd demo_perf_map 4) (Some [1; 2]) 2 demo_perf_map = (Ok 0, false, s').
Proof.
  set (m := match sh_manager demo_perf_map with Some m => m | None => HandlerManager [] ∅ end).
  set (h := match handler_at demo_perf_map 4 with Some (HMap h) => h | _ => demo_map BPF_MAP_TYPE_HASH 0 0 0 end).
  set (d := match sh_perf demo_perf_map !! 1%positive with Some d => d | None => software_perf_event_create 64 0 0 0 end).
  destruct (perf_helper_output 0 true demo_table 0 (λ _ _ _, Fault) (map_ptr_by_fd demo_perf_map 4) (Some [1; 2]) 2 demo_perf_map m h "ebpf_map_fd_pe"
    (PerfEventArrayMap [3; -1]) 3 (software_event 1) 1 d) as (s'&Ho&_);
    [lia|vm_compute; reflexivity|vm_compute; reflexivity|vm_compute; reflexivity|vm_compute; reflexivity|vm_compute; reflexivity|vm_compute; reflexivity|vm_compute; reflexivity|done|vm_compute; reflexivity|].
  exists s'. rewrite Ho. assert (Hr : (output_data d (Some [1; 2]) 2).1 = Ok tt) by (vm_compute; reflexivity). by rewrite Hr.
Defined.

Lemma perf_helper_leaves_bound_witness :
  bpf_perf_event_output 0 true demo_table 0 true (λ _ _ _, Fault) (map_ptr_by_fd demo_perf_map 6) (Some [1]) 1 demo_perf_map = (Raw (u64 (-1)), true, demo_perf_map).
Proof. apply perf_helper_leaves_bound; [lia|vm_compute; reflexivity]. Defined.

Lemma get_stack_refuses_witness :
  bpftime_get_stack (Some (Some [4096; 8192])) 100 256 = Raw (-95) ∧ ∃ bs, bpftime_get_stack (Some (Some [4096; 8192])) 100 2304 = Ok bs ∧ zlen bs ≤ 2.
Proof.
  split.
  - apply (get_stack_refuses [4096; 8192] 100 256); [lia|done|done].
  - destruct (get_stack_refuses [4096; 8192] 100 2304) as [_ Hx]; [lia|done|]. exact (Hx eq_refl).
Defined.

(** A stack trace map at descriptor 4. *)
Definition demo_trace_map : demo_runtime :=
  (add_bpf_map 0 true demo_table demo_machine 4 "st" (demo_attr BPF_MAP_TYPE_STACK_TRACE 4 32 8) demo_new).2.

Lemma stackid_lookup_witness :
  ∃ s', bpftime_get_stackid demo_hash (Some (Some [5; 6; 7])) (map_ptr_by_fd demo_trace_map 4) 257 demo_trace_map = (Ok 0, s') ∧
    (bpf_map_lookup_elem 0 true demo_table 4 (key32 0) true s').1 = Ok (Bytes [6; 7]).
Proof.
  set (m := match sh_manager demo_trace_map with Some m => m | None => HandlerManager [] ∅ end).
  set (h := match handler_at demo_trace_map 4 with Some (HMap h) => h | _ => demo_map BPF_MAP_TYPE_HASH 0 0 0 end).
  destruct (stackid_lookup 0 true demo_table demo_hash [5; 6; 7] (map_ptr_by_fd demo_trace_map 4) 257 true demo_trace_map m h "ebpf_map_fd_st"
    (StackTraceMap 4 8 ∅ [0; 0; 0; 0])) as (s'&Ho&Hl);
    [done|vm_compute; reflexivity|vm_compute; reflexivity|vm_compute; reflexivity|vm_compute; reflexivity|vm_compute; reflexivity|simpl; lia|].
  exists s'. split; [exact Ho|]. exact Hl.
Defined.
