(* ===== verification/HelperGroup.v ===== *)
(** * Helper groups and programs

    [bpftime_helper_group] (runtime/src/bpf_helper.cpp), the tables of helpers that programs are given, and
    [bpftime_prog] (runtime/src/bpftime_prog.cpp) on the uBPF machine. A function of the runtime is named by its symbol;
    [impl] gives what a symbol does. *)

From stdpp Require Import base numbers list gmap strings sorting.
From S2P Require Import Prelude.
From S2P Require Import EbpfIsa.
From S2P Require Import UbpfVm.
From S2P Require Import UbpfSafe.
From S2P Require Import UbpfCompat.

Record bpftime_helper_info := HelperInfo { hi_index : Z; hi_name : string; hi_fn : string }.
Definition bpftime_helper_group := gmap Z bpftime_helper_info.

Definition register_helper (g : bpftime_helper_group) (info : bpftime_helper_info) : Z * bpftime_helper_group :=
  if 999 <? hi_index info then (-1, g)
  else
    match g !! hi_index info with
    | None => (0, <[hi_index info := info]> g)
    | Some old => if String.eqb (hi_fn old) (hi_fn info) then (0, g) else (-1, g)
    end.

(** Nothing is added when a number is taken. *)
Definition append (g another : bpftime_helper_group) : Z * bpftime_helper_group :=
  if existsb (λ p : Z * bpftime_helper_info, bool_decide (is_Some (g !! p.1))) (map_to_list another) then (-1, g)
  else (0, g ∪ another).

(** The order of [std::map]. *)
Definition id_le (a b : Z * bpftime_helper_info) : Prop := a.1 ≤ b.1.
#[export] Instance id_le_dec : RelDecision id_le.
Proof. intros a b. apply Z.le_dec. Defined.
Definition in_order (g : bpftime_helper_group) : list (Z * bpftime_helper_info) := merge_sort id_le (map_to_list g).
Definition get_helper_ids (g : bpftime_helper_group) : list Z := s32 <$> (in_order g).*1.

(** The names of the helpers of the kernel. *)
Inductive bpf_func_id :=
  | BPF_FUNC_unspec | BPF_FUNC_map_lookup_elem | BPF_FUNC_map_update_elem | BPF_FUNC_map_delete_elem
  | BPF_FUNC_probe_read | BPF_FUNC_ktime_get_ns | BPF_FUNC_trace_printk | BPF_FUNC_get_prandom_u32
  | BPF_FUNC_get_smp_processor_id | BPF_FUNC_skb_store_bytes | BPF_FUNC_l3_csum_replace | BPF_FUNC_l4_csum_replace
  | BPF_FUNC_tail_call | BPF_FUNC_clone_redirect | BPF_FUNC_get_current_pid_tgid | BPF_FUNC_get_current_uid_gid
  | BPF_FUNC_get_current_comm | BPF_FUNC_get_cgroup_classid | BPF_FUNC_skb_vlan_push | BPF_FUNC_skb_vlan_pop
  | BPF_FUNC_skb_get_tunnel_key | BPF_FUNC_skb_set_tunnel_key | BPF_FUNC_perf_event_read | BPF_FUNC_redirect
  | BPF_FUNC_get_route_realm | BPF_FUNC_perf_event_output | BPF_FUNC_skb_load_bytes | BPF_FUNC_get_stackid
  | BPF_FUNC_csum_diff | BPF_FUNC_skb_get_tunnel_opt | BPF_FUNC_skb_set_tunnel_opt | BPF_FUNC_skb_change_proto
  | BPF_FUNC_skb_change_type | BPF_FUNC_skb_under_cgroup | BPF_FUNC_get_hash_recalc | BPF_FUNC_get_current_task
  | BPF_FUNC_probe_write_user | BPF_FUNC_current_task_under_cgroup | BPF_FUNC_skb_change_tail
  | BPF_FUNC_skb_pull_data | BPF_FUNC_csum_update | BPF_FUNC_set_hash_invalid | BPF_FUNC_get_numa_node_id
  | BPF_FUNC_skb_change_head | BPF_FUNC_xdp_adjust_head | BPF_FUNC_probe_read_str | BPF_FUNC_get_socket_cookie
  | BPF_FUNC_get_socket_uid | BPF_FUNC_set_hash | BPF_FUNC_setsockopt | BPF_FUNC_skb_adjust_room
  | BPF_FUNC_redirect_map | BPF_FUNC_sk_redirect_map | BPF_FUNC_sock_map_update | BPF_FUNC_xdp_adjust_meta
  | BPF_FUNC_perf_event_read_value | BPF_FUNC_perf_prog_read_value | BPF_FUNC_getsockopt | BPF_FUNC_override_return
  | BPF_FUNC_sock_ops_cb_flags_set | BPF_FUNC_msg_redirect_map | BPF_FUNC_msg_apply_bytes | BPF_FUNC_msg_cork_bytes
  | BPF_FUNC_msg_pull_data | BPF_FUNC_bind | BPF_FUNC_xdp_adjust_tail | BPF_FUNC_skb_get_xfrm_state
  | BPF_FUNC_get_stack | BPF_FUNC_skb_load_bytes_relative | BPF_FUNC_fib_lookup | BPF_FUNC_sock_hash_update
  | BPF_FUNC_msg_redirect_hash | BPF_FUNC_sk_redirect_hash | BPF_FUNC_lwt_push_encap | BPF_FUNC_lwt_seg6_store_bytes
  | BPF_FUNC_lwt_seg6_adjust_srh | BPF_FUNC_lwt_seg6_action | BPF_FUNC_rc_repeat | BPF_FUNC_rc_keydown
  | BPF_FUNC_skb_cgroup_id | BPF_FUNC_get_current_cgroup_id | BPF_FUNC_get_local_storage
  | BPF_FUNC_sk_select_reuseport | BPF_FUNC_skb_ancestor_cgroup_id | BPF_FUNC_sk_lookup_tcp | BPF_FUNC_sk_lookup_udp
  | BPF_FUNC_sk_release | BPF_FUNC_map_push_elem | BPF_FUNC_map_pop_elem | BPF_FUNC_map_peek_elem
  | BPF_FUNC_msg_push_data | BPF_FUNC_msg_pop_data | BPF_FUNC_rc_pointer_rel | BPF_FUNC_spin_lock
  | BPF_FUNC_spin_unlock | BPF_FUNC_sk_fullsock | BPF_FUNC_tcp_sock | BPF_FUNC_skb_ecn_set_ce
  | BPF_FUNC_get_listener_sock | BPF_FUNC_skc_lookup_tcp | BPF_FUNC_tcp_check_syncookie | BPF_FUNC_sysctl_get_name
  | BPF_FUNC_sysctl_get_current_value | BPF_FUNC_sysctl_get_new_value | BPF_FUNC_sysctl_set_new_value
  | BPF_FUNC_strtol | BPF_FUNC_strtoul | BPF_FUNC_sk_storage_get | BPF_FUNC_sk_storage_delete | BPF_FUNC_send_signal
  | BPF_FUNC_tcp_gen_syncookie | BPF_FUNC_skb_output | BPF_FUNC_probe_read_user | BPF_FUNC_probe_read_kernel
  | BPF_FUNC_probe_read_user_str | BPF_FUNC_probe_read_kernel_str | BPF_FUNC_tcp_send_ack
  | BPF_FUNC_send_signal_thread | BPF_FUNC_jiffies64 | BPF_FUNC_read_branch_records
  | BPF_FUNC_get_ns_current_pid_tgid | BPF_FUNC_xdp_output | BPF_FUNC_get_netns_cookie
  | BPF_FUNC_get_current_ancestor_cgroup_id | BPF_FUNC_sk_assign | BPF_FUNC_ktime_get_boot_ns | BPF_FUNC_seq_printf
  | BPF_FUNC_seq_write | BPF_FUNC_sk_cgroup_id | BPF_FUNC_sk_ancestor_cgroup_id | BPF_FUNC_ringbuf_output
  | BPF_FUNC_ringbuf_reserve | BPF_FUNC_ringbuf_submit | BPF_FUNC_ringbuf_discard | BPF_FUNC_ringbuf_query
  | BPF_FUNC_csum_level | BPF_FUNC_skc_to_tcp6_sock | BPF_FUNC_skc_to_tcp_sock | BPF_FUNC_skc_to_tcp_timewait_sock
  | BPF_FUNC_skc_to_tcp_request_sock | BPF_FUNC_skc_to_udp6_sock | BPF_FUNC_get_task_stack | BPF_FUNC_load_hdr_opt
  | BPF_FUNC_store_hdr_opt | BPF_FUNC_reserve_hdr_opt | BPF_FUNC_inode_storage_get | BPF_FUNC_inode_storage_delete
  | BPF_FUNC_d_path | BPF_FUNC_copy_from_user | BPF_FUNC_snprintf_btf | BPF_FUNC_seq_printf_btf
  | BPF_FUNC_skb_cgroup_classid | BPF_FUNC_redirect_neigh | BPF_FUNC_per_cpu_ptr | BPF_FUNC_this_cpu_ptr
  | BPF_FUNC_redirect_peer | BPF_FUNC_task_storage_get | BPF_FUNC_task_storage_delete | BPF_FUNC_get_current_task_btf
  | BPF_FUNC_bprm_opts_set | BPF_FUNC_ktime_get_coarse_ns | BPF_FUNC_ima_inode_hash | BPF_FUNC_sock_from_file
  | BPF_FUNC_check_mtu | BPF_FUNC_for_each_map_elem | BPF_FUNC_snprintf | BPF_FUNC_sys_bpf
  | BPF_FUNC_btf_find_by_name_kind | BPF_FUNC_sys_close | BPF_FUNC_timer_init | BPF_FUNC_timer_set_callback
  | BPF_FUNC_timer_start | BPF_FUNC_timer_cancel | BPF_FUNC_get_func_ip | BPF_FUNC_get_attach_cookie
  | BPF_FUNC_task_pt_regs | BPF_FUNC_get_branch_snapshot | BPF_FUNC_trace_vprintk | BPF_FUNC_skc_to_unix_sock
  | BPF_FUNC_kallsyms_lookup_name | BPF_FUNC_find_vma | BPF_FUNC_loop | BPF_FUNC_strncmp | BPF_FUNC_get_func_arg
  | BPF_FUNC_get_func_ret | BPF_FUNC_get_func_arg_cnt | BPF_FUNC_get_retval | BPF_FUNC_set_retval
  | BPF_FUNC_xdp_get_buff_len | BPF_FUNC_xdp_load_bytes | BPF_FUNC_xdp_store_bytes | BPF_FUNC_copy_from_user_task
  | BPF_FUNC_skb_set_tstamp | BPF_FUNC_ima_file_hash | BPF_FUNC_kptr_xchg | BPF_FUNC_map_lookup_percpu_elem
  | BPF_FUNC_skc_to_mptcp_sock | BPF_FUNC_dynptr_from_mem | BPF_FUNC_ringbuf_reserve_dynptr
  | BPF_FUNC_ringbuf_submit_dynptr | BPF_FUNC_ringbuf_discard_dynptr | BPF_FUNC_dynptr_read | BPF_FUNC_dynptr_write
  | BPF_FUNC_dynptr_data | BPF_FUNC_tcp_raw_gen_syncookie_ipv4 | BPF_FUNC_tcp_raw_gen_syncookie_ipv6
  | BPF_FUNC_tcp_raw_check_syncookie_ipv4 | BPF_FUNC_tcp_raw_check_syncookie_ipv6 | BPF_FUNC_ktime_get_tai_ns
  | BPF_FUNC_user_ringbuf_drain | BPF_FUNC_cgrp_storage_get | BPF_FUNC_cgrp_storage_delete | BPF_FUNC_MAX_ID.
Definition func_num (f : bpf_func_id) : Z :=
  match f with
  | BPF_FUNC_unspec => 0 | BPF_FUNC_map_lookup_elem => 1 | BPF_FUNC_map_update_elem => 2
  | BPF_FUNC_map_delete_elem => 3 | BPF_FUNC_probe_read => 4 | BPF_FUNC_ktime_get_ns => 5
  | BPF_FUNC_trace_printk => 6 | BPF_FUNC_get_prandom_u32 => 7 | BPF_FUNC_get_smp_processor_id => 8
  | BPF_FUNC_skb_store_bytes => 9 | BPF_FUNC_l3_csum_replace => 10 | BPF_FUNC_l4_csum_replace => 11
  | BPF_FUNC_tail_call => 12 | BPF_FUNC_clone_redirect => 13 | BPF_FUNC_get_current_pid_tgid => 14
  | BPF_FUNC_get_current_uid_gid => 15 | BPF_FUNC_get_current_comm => 16 | BPF_FUNC_get_cgroup_classid => 17
  | BPF_FUNC_skb_vlan_push => 18 | BPF_FUNC_skb_vlan_pop => 19 | BPF_FUNC_skb_get_tunnel_key => 20
  | BPF_FUNC_skb_set_tunnel_key => 21 | BPF_FUNC_perf_event_read => 22 | BPF_FUNC_redirect => 23
  | BPF_FUNC_get_route_realm => 24 | BPF_FUNC_perf_event_output => 25 | BPF_FUNC_skb_load_bytes => 26
  | BPF_FUNC_get_stackid => 27 | BPF_FUNC_csum_diff => 28 | BPF_FUNC_skb_get_tunnel_opt => 29
  | BPF_FUNC_skb_set_tunnel_opt => 30 | BPF_FUNC_skb_change_proto => 31 | BPF_FUNC_skb_change_type => 32
  | BPF_FUNC_skb_under_cgroup => 33 | BPF_FUNC_get_hash_recalc => 34 | BPF_FUNC_get_current_task => 35
  | BPF_FUNC_probe_write_user => 36 | BPF_FUNC_current_task_under_cgroup => 37 | BPF_FUNC_skb_change_tail => 38
  | BPF_FUNC_skb_pull_data => 39 | BPF_FUNC_csum_update => 40 | BPF_FUNC_set_hash_invalid => 41
  | BPF_FUNC_get_numa_node_id => 42 | BPF_FUNC_skb_change_head => 43 | BPF_FUNC_xdp_adjust_head => 44
  | BPF_FUNC_probe_read_str => 45 | BPF_FUNC_get_socket_cookie => 46 | BPF_FUNC_get_socket_uid => 47
  | BPF_FUNC_set_hash => 48 | BPF_FUNC_setsockopt => 49 | BPF_FUNC_skb_adjust_room => 50
  | BPF_FUNC_redirect_map => 51 | BPF_FUNC_sk_redirect_map => 52 | BPF_FUNC_sock_map_update => 53
  | BPF_FUNC_xdp_adjust_meta => 54 | BPF_FUNC_perf_event_read_value => 55 | BPF_FUNC_perf_prog_read_value => 56
  | BPF_FUNC_getsockopt => 57 | BPF_FUNC_override_return => 58 | BPF_FUNC_sock_ops_cb_flags_set => 59
  | BPF_FUNC_msg_redirect_map => 60 | BPF_FUNC_msg_apply_bytes => 61 | BPF_FUNC_msg_cork_bytes => 62
  | BPF_FUNC_msg_pull_data => 63 | BPF_FUNC_bind => 64 | BPF_FUNC_xdp_adjust_tail => 65
  | BPF_FUNC_skb_get_xfrm_state => 66 | BPF_FUNC_get_stack => 67 | BPF_FUNC_skb_load_bytes_relative => 68
  | BPF_FUNC_fib_lookup => 69 | BPF_FUNC_sock_hash_update => 70 | BPF_FUNC_msg_redirect_hash => 71
  | BPF_FUNC_sk_redirect_hash => 72 | BPF_FUNC_lwt_push_encap => 73 | BPF_FUNC_lwt_seg6_store_bytes => 74
  | BPF_FUNC_lwt_seg6_adjust_srh => 75 | BPF_FUNC_lwt_seg6_action => 76 | BPF_FUNC_rc_repeat => 77
  | BPF_FUNC_rc_keydown => 78 | BPF_FUNC_skb_cgroup_id => 79 | BPF_FUNC_get_current_cgroup_id => 80
  | BPF_FUNC_get_local_storage => 81 | BPF_FUNC_sk_select_reuseport => 82 | BPF_FUNC_skb_ancestor_cgroup_id => 83
  | BPF_FUNC_sk_lookup_tcp => 84 | BPF_FUNC_sk_lookup_udp => 85 | BPF_FUNC_sk_release => 86
  | BPF_FUNC_map_push_elem => 87 | BPF_FUNC_map_pop_elem => 88 | BPF_FUNC_map_peek_elem => 89
  | BPF_FUNC_msg_push_data => 90 | BPF_FUNC_msg_pop_data => 91 | BPF_FUNC_rc_pointer_rel => 92
  | BPF_FUNC_spin_lock => 93 | BPF_FUNC_spin_unlock => 94 | BPF_FUNC_sk_fullsock => 95 | BPF_FUNC_tcp_sock => 96
  | BPF_FUNC_skb_ecn_set_ce => 97 | BPF_FUNC_get_listener_sock => 98 | BPF_FUNC_skc_lookup_tcp => 99
  | BPF_FUNC_tcp_check_syncookie => 100 | BPF_FUNC_sysctl_get_name => 101 | BPF_FUNC_sysctl_get_current_value => 102
  | BPF_FUNC_sysctl_get_new_value => 103 | BPF_FUNC_sysctl_set_new_value => 104 | BPF_FUNC_strtol => 105
  | BPF_FUNC_strtoul => 106 | BPF_FUNC_sk_storage_get => 107 | BPF_FUNC_sk_storage_delete => 108
  | BPF_FUNC_send_signal => 109 | BPF_FUNC_tcp_gen_syncookie => 110 | BPF_FUNC_skb_output => 111
  | BPF_FUNC_probe_read_user => 112 | BPF_FUNC_probe_read_kernel => 113 | BPF_FUNC_probe_read_user_str => 114
  | BPF_FUNC_probe_read_kernel_str => 115 | BPF_FUNC_tcp_send_ack => 116 | BPF_FUNC_send_signal_thread => 117
  | BPF_FUNC_jiffies64 => 118 | BPF_FUNC_read_branch_records => 119 | BPF_FUNC_get_ns_current_pid_tgid => 120
  | BPF_FUNC_xdp_output => 121 | BPF_FUNC_get_netns_cookie => 122 | BPF_FUNC_get_current_ancestor_cgroup_id => 123
  | BPF_FUNC_sk_assign => 124 | BPF_FUNC_ktime_get_boot_ns => 125 | BPF_FUNC_seq_printf => 126
  | BPF_FUNC_seq_write => 127 | BPF_FUNC_sk_cgroup_id => 128 | BPF_FUNC_sk_ancestor_cgroup_id => 129
  | BPF_FUNC_ringbuf_output => 130 | BPF_FUNC_ringbuf_reserve => 131 | BPF_FUNC_ringbuf_submit => 132
  | BPF_FUNC_ringbuf_discard => 133 | BPF_FUNC_ringbuf_query => 134 | BPF_FUNC_csum_level => 135
  | BPF_FUNC_skc_to_tcp6_sock => 136 | BPF_FUNC_skc_to_tcp_sock => 137 | BPF_FUNC_skc_to_tcp_timewait_sock => 138
  | BPF_FUNC_skc_to_tcp_request_sock => 139 | BPF_FUNC_skc_to_udp6_sock => 140 | BPF_FUNC_get_task_stack => 141
  | BPF_FUNC_load_hdr_opt => 142 | BPF_FUNC_store_hdr_opt => 143 | BPF_FUNC_reserve_hdr_opt => 144
  | BPF_FUNC_inode_storage_get => 145 | BPF_FUNC_inode_storage_delete => 146 | BPF_FUNC_d_path => 147
  | BPF_FUNC_copy_from_user => 148 | BPF_FUNC_snprintf_btf => 149 | BPF_FUNC_seq_printf_btf => 150
  | BPF_FUNC_skb_cgroup_classid => 151 | BPF_FUNC_redirect_neigh => 152 | BPF_FUNC_per_cpu_ptr => 153
  | BPF_FUNC_this_cpu_ptr => 154 | BPF_FUNC_redirect_peer => 155 | BPF_FUNC_task_storage_get => 156
  | BPF_FUNC_task_storage_delete => 157 | BPF_FUNC_get_current_task_btf => 158 | BPF_FUNC_bprm_opts_set => 159
  | BPF_FUNC_ktime_get_coarse_ns => 160 | BPF_FUNC_ima_inode_hash => 161 | BPF_FUNC_sock_from_file => 162
  | BPF_FUNC_check_mtu => 163 | BPF_FUNC_for_each_map_elem => 164 | BPF_FUNC_snprintf => 165
  | BPF_FUNC_sys_bpf => 166 | BPF_FUNC_btf_find_by_name_kind => 167 | BPF_FUNC_sys_close => 168
  | BPF_FUNC_timer_init => 169 | BPF_FUNC_timer_set_callback => 170 | BPF_FUNC_timer_start => 171
  | BPF_FUNC_timer_cancel => 172 | BPF_FUNC_get_func_ip => 173 | BPF_FUNC_get_attach_cookie => 174
  | BPF_FUNC_task_pt_regs => 175 | BPF_FUNC_get_branch_snapshot => 176 | BPF_FUNC_trace_vprintk => 177
  | BPF_FUNC_skc_to_unix_sock => 178 | BPF_FUNC_kallsyms_lookup_name => 179 | BPF_FUNC_find_vma => 180
  | BPF_FUNC_loop => 181 | BPF_FUNC_strncmp => 182 | BPF_FUNC_get_func_arg => 183 | BPF_FUNC_get_func_ret => 184
  | BPF_FUNC_get_func_arg_cnt => 185 | BPF_FUNC_get_retval => 186 | BPF_FUNC_set_retval => 187
  | BPF_FUNC_xdp_get_buff_len => 188 | BPF_FUNC_xdp_load_bytes => 189 | BPF_FUNC_xdp_store_bytes => 190
  | BPF_FUNC_copy_from_user_task => 191 | BPF_FUNC_skb_set_tstamp => 192 | BPF_FUNC_ima_file_hash => 193
  | BPF_FUNC_kptr_xchg => 194 | BPF_FUNC_map_lookup_percpu_elem => 195 | BPF_FUNC_skc_to_mptcp_sock => 196
  | BPF_FUNC_dynptr_from_mem => 197 | BPF_FUNC_ringbuf_reserve_dynptr => 198 | BPF_FUNC_ringbuf_submit_dynptr => 199
  | BPF_FUNC_ringbuf_discard_dynptr => 200 | BPF_FUNC_dynptr_read => 201 | BPF_FUNC_dynptr_write => 202
  | BPF_FUNC_dynptr_data => 203 | BPF_FUNC_tcp_raw_gen_syncookie_ipv4 => 204
  | BPF_FUNC_tcp_raw_gen_syncookie_ipv6 => 205 | BPF_FUNC_tcp_raw_check_syncookie_ipv4 => 206
  | BPF_FUNC_tcp_raw_check_syncookie_ipv6 => 207 | BPF_FUNC_ktime_get_tai_ns => 208
  | BPF_FUNC_user_ringbuf_drain => 209 | BPF_FUNC_cgrp_storage_get => 210 | BPF_FUNC_cgrp_storage_delete => 211
  | BPF_FUNC_MAX_ID => 212
  end.

Definition get_kernel_utils_helper_group : bpftime_helper_group := list_to_map
  [(func_num BPF_FUNC_probe_read, HelperInfo (func_num BPF_FUNC_probe_read) "bpf_probe_read" "bpftime_probe_read");
   (func_num BPF_FUNC_get_smp_processor_id, HelperInfo (func_num BPF_FUNC_get_smp_processor_id) "bpf_get_smp_processor_id" "bpftime_get_smp_processor_id");
   (func_num BPF_FUNC_csum_diff, HelperInfo (func_num BPF_FUNC_csum_diff) "bpf_csum_diff" "bpftime_csum_diff");
   (func_num BPF_FUNC_xdp_adjust_head, HelperInfo (func_num BPF_FUNC_xdp_adjust_head) "bpf_xdp_adjust_head" "bpftime_xdp_adjust_head");
   (func_num BPF_FUNC_xdp_adjust_tail, HelperInfo (func_num BPF_FUNC_xdp_adjust_tail) "bpf_xdp_adjust_tail" "bpftime_xdp_adjust_tail");
   (func_num BPF_FUNC_probe_read_kernel, HelperInfo (func_num BPF_FUNC_probe_read_kernel) "bpf_probe_read_kernel" "bpftime_probe_read");
   (func_num BPF_FUNC_probe_read_user, HelperInfo (func_num BPF_FUNC_probe_read_user) "bpf_probe_read_user" "bpftime_probe_read");
   (func_num BPF_FUNC_ktime_get_ns, HelperInfo (func_num BPF_FUNC_ktime_get_ns) "bpf_ktime_get_ns" "bpftime_ktime_get_ns");
   (func_num BPF_FUNC_trace_printk, HelperInfo (func_num BPF_FUNC_trace_printk) "bpf_trace_printk" "bpftime_trace_printk");
   (func_num BPF_FUNC_get_prandom_u32, HelperInfo (func_num BPF_FUNC_get_prandom_u32) "bpf_get_prandom_u32" "bpftime_get_prandom_u32");
   (func_num BPF_FUNC_get_current_pid_tgid, HelperInfo (func_num BPF_FUNC_get_current_pid_tgid) "bpf_get_current_pid_tgid" "bpftime_get_current_pid_tgid");
   (func_num BPF_FUNC_get_current_uid_gid, HelperInfo (func_num BPF_FUNC_get_current_uid_gid) "bpf_get_current_uid_gid" "bpf_get_current_uid_gid");
   (func_num BPF_FUNC_get_current_comm, HelperInfo (func_num BPF_FUNC_get_current_comm) "bpf_get_current_comm" "bpftime_get_current_comm");
   (func_num BPF_FUNC_override_return, HelperInfo (func_num BPF_FUNC_override_return) "bpf_override_return" "bpftime_override_return");
   (func_num BPF_FUNC_strncmp, HelperInfo (func_num BPF_FUNC_strncmp) "bpf_strncmp" "bpftime_strncmp");
   (func_num BPF_FUNC_probe_write_user, HelperInfo (func_num BPF_FUNC_probe_write_user) "bpf_probe_write_user" "bpftime_probe_write_user");
   (func_num BPF_FUNC_set_retval, HelperInfo (func_num BPF_FUNC_set_retval) "bpf_set_retval" "bpftime_set_retval");
   (func_num BPF_FUNC_probe_read_user_str, HelperInfo (func_num BPF_FUNC_probe_read_user_str) "bpf_probe_read_str" "bpf_probe_read_str");
   (func_num BPF_FUNC_probe_read_str, HelperInfo (func_num BPF_FUNC_probe_read_str) "bpf_probe_str" "bpf_probe_read_str");
   (func_num BPF_FUNC_get_stack, HelperInfo (func_num BPF_FUNC_get_stack) "bpf_get_stack" "bpftime_get_stack");
   (func_num BPF_FUNC_get_stackid, HelperInfo (func_num BPF_FUNC_get_stackid) "bpf_get_stackid" "bpftime_get_stackid");
   (func_num BPF_FUNC_ktime_get_coarse_ns, HelperInfo (func_num BPF_FUNC_ktime_get_coarse_ns) "bpf_ktime_get_coarse_ns" "bpf_ktime_get_coarse_ns");
   (func_num BPF_FUNC_ringbuf_reserve, HelperInfo (func_num BPF_FUNC_ringbuf_reserve) "bpf_ringbuf_reserve" "bpf_ringbuf_reserve");
   (func_num BPF_FUNC_ringbuf_submit, HelperInfo (func_num BPF_FUNC_ringbuf_submit) "bpf_ringbuf_submit" "bpf_ringbuf_submit");
   (func_num BPF_FUNC_ringbuf_discard, HelperInfo (func_num BPF_FUNC_ringbuf_discard) "bpf_ringbuf_discard" "bpf_ringbuf_discard");
   (func_num BPF_FUNC_perf_event_output, HelperInfo (func_num BPF_FUNC_perf_event_output) "bpf_perf_event_output" "bpf_perf_event_output");
   (func_num BPF_FUNC_ringbuf_output, HelperInfo (func_num BPF_FUNC_ringbuf_output) "bpf_ringbuf_output" "bpf_ringbuf_output");
   (func_num BPF_FUNC_tail_call, HelperInfo (func_num BPF_FUNC_tail_call) "bpf_tail_call" "bpftime_tail_call");
   (func_num BPF_FUNC_get_attach_cookie, HelperInfo (func_num BPF_FUNC_get_attach_cookie) "bpf_get_attach_cookie" "bpftime_get_attach_cookie")].
Definition get_shm_maps_helper_group : bpftime_helper_group := list_to_map
  [(func_num BPF_FUNC_map_lookup_elem, HelperInfo (func_num BPF_FUNC_map_lookup_elem) "bpf_map_lookup_elem" "bpftime_map_lookup_elem_helper");
   (func_num BPF_FUNC_map_update_elem, HelperInfo (func_num BPF_FUNC_map_update_elem) "bpf_map_update_elem" "bpftime_map_update_elem_helper");
   (func_num BPF_FUNC_map_delete_elem, HelperInfo (func_num BPF_FUNC_map_delete_elem) "bpf_map_delete_elem" "bpftime_map_delete_elem_helper");
   (func_num BPF_FUNC_map_push_elem, HelperInfo (func_num BPF_FUNC_map_push_elem) "bpf_map_push_elem" "bpftime_map_push_elem_helper");
   (func_num BPF_FUNC_map_pop_elem, HelperInfo (func_num BPF_FUNC_map_pop_elem) "bpf_map_pop_elem" "bpftime_map_pop_elem_helper");
   (func_num BPF_FUNC_map_peek_elem, HelperInfo (func_num BPF_FUNC_map_peek_elem) "bpf_map_peek_elem" "bpftime_map_peek_elem_helper")].

(** ** Programs *)

Section prog.
(** What the functions of the runtime do, and the functions that give the addresses of maps and of their values. *)
Variables (impl : string → ext_func) (map_ptr_by_fd map_val : Z → Z).
(** The code that [ebpf_compile] makes, and a call of it. *)
Context {J : Type}.
Variables (ebpf_compile : bpftime_ubpf_vm → option J) (call_fn : J → Z → Z → memory → option (Z * memory)).

(** [jitted] and [fn] are not initialised by the constructor. *)
Record bpftime_prog := BpftimeProg {
  pg_name : string;
  pg_vm : bpftime_ubpf_vm;
  pg_jitted : option bool;
  pg_fn : option J;
  pg_insns : list ebpf_inst
}.

Definition bpftime_prog_create (insn : list ebpf_inst) (name : string) : bpftime_prog :=
  BpftimeProg name (set_lddw_helpers bpftime_ubpf_vm_new (Some map_ptr_by_fd) None (Some map_val) None None) None None insn.

Definition bpftime_prog_register_raw_helper (p : bpftime_prog) (info : bpftime_helper_info) : Z * bpftime_prog :=
  let '(r, vm) := register_external_function (pg_vm p) (hi_index info) (hi_name info) (Some (impl (hi_fn info))) in
  (r, BpftimeProg (pg_name p) vm (pg_jitted p) (pg_fn p) (pg_insns p)).

(** The answers of the registrations are not looked at. *)
Definition add_helper_group_to_prog (g : bpftime_helper_group) (p : bpftime_prog) : Z * bpftime_prog :=
  (0, foldl (λ p e, (bpftime_prog_register_raw_helper p e.2).2) p (in_order g)).

(** [insts_mem] and [funcs_mem] are what the allocator gives the machine. *)
Definition bpftime_prog_load (jit : bool) (insts_mem : option Z) (funcs_mem : bool) (p : bpftime_prog) : res unit * bpftime_prog :=
  let '(r, vm) := load_code (pg_vm p) (pg_insns p) (u32 (8 * zlen (pg_insns p))) insts_mem funcs_mem in
  match r with
  | Ok _ =>
      if jit then
        match ebpf_compile vm with
        | None => (Raw (-1), BpftimeProg (pg_name p) vm (Some true) (pg_fn p) (pg_insns p))
        | Some f => (Ok tt, BpftimeProg (pg_name p) vm (Some true) (Some f) (pg_insns p))
        end
      else (Ok tt, BpftimeProg (pg_name p) vm (Some false) (pg_fn p) (pg_insns p))
  | r => (r, BpftimeProg (pg_name p) vm (pg_jitted p) (pg_fn p) (pg_insns p))
  end.

Definition bpftime_prog_unload (p : bpftime_prog) : res unit * bpftime_prog :=
  match pg_jitted p with
  | None => (Fault, p)
  | Some true => (Ok tt, p)
  | Some false => (Ok tt, BpftimeProg (pg_name p) (unload_code (pg_vm p)) (pg_jitted p) (pg_fn p) (pg_insns p))
  end.

(** A run ends with a return code, a value and the memory, or with an access outside of memory, or goes on. *)
Inductive exec_result := ExecDone (ret val : Z) (m : memory) | ExecFault | ExecRunning.

Definition bpftime_prog_exec (p : bpftime_prog) (mem mem_len stack : Z) (fuel : nat) (regs : list Z) (m : memory) : exec_result :=
  match pg_jitted p with
  | None => ExecFault
  | Some true => match pg_fn p ≫= λ f, call_fn f mem mem_len m with Some (v, m) => ExecDone 0 v m | None => ExecFault end
  | Some false =>
      match exec (pg_vm p) mem mem_len stack fuel regs m with
      | Return v s => ExecDone 0 v (st_mem s)
      | Error s => ExecDone (-1) 0 (st_mem s)
      | Undefined _ => ExecFault
      | Next _ => ExecRunning
      end
  end.
End prog.

(** ** Groups *)

Lemma elem_in_order g id info : (id, info) ∈ in_order g ↔ g !! id = Some info.
Proof. unfold in_order. rewrite (merge_sort_Permutation id_le (map_to_list g)). apply elem_of_map_to_list. Qed.
Lemma NoDup_in_order g : NoDup (in_order g).*1.
Proof. unfold in_order. rewrite (merge_sort_Permutation id_le (map_to_list g)). apply NoDup_fst_map_to_list. Qed.

(** Appending a group adds all of it or nothing: it succeeds exactly when no number of the group is
    taken, every helper keeps its number then, and none is replaced. *)
Theorem append_all_or_nothing g another :
  (append g another).1 = 0 ∧ g ##ₘ another ∧
    (∀ id info, (append g another).2 !! id = Some info ↔ g !! id = Some info ∨ another !! id = Some info) ∨
  (append g another).1 = -1 ∧ (append g another).2 = g ∧ ∃ id, is_Some (g !! id) ∧ is_Some (another !! id).
Proof.
  unfold append. destruct (existsb _ _) eqn:Ee; [right|left].
  - split; [done|]. split; [done|]. apply existsb_exists in Ee as ([id info]&Hin&Hb). apply list_elem_of_In, elem_of_map_to_list in Hin.
    exists id. split; [by apply bool_decide_eq_true in Hb|by eexists].
  - assert (Hd : g ##ₘ another).
    { apply map_disjoint_spec. intros id x y Hx Hy. apply not_true_iff_false in Ee. apply Ee, existsb_exists. exists (id, y).
      split; [by apply list_elem_of_In, elem_of_map_to_list|]. apply bool_decide_eq_true. by eexists. }
    split; [done|]. split; [done|]. intros id info. cbn [snd]. by apply lookup_union_Some.
Qed.

(** Registering a helper never replaces one: what was there stays, and after an answer of 0 the number
    has the function that was asked for. *)
Theorem register_helper_keeps g info :
  (∀ id old, g !! id = Some old → (register_helper g info).2 !! id = Some old) ∧
  ((register_helper g info).1 = 0 → ∃ i, (register_helper g info).2 !! hi_index info = Some i ∧ hi_fn i = hi_fn info).
Proof.
  unfold register_helper. destruct (999 <? hi_index info); [done|]. destruct (g !! hi_index info) as [old|] eqn:Eo.
  - destruct (String.eqb_spec (hi_fn old) (hi_fn info)); split; try done. intros _. by exists old.
  - cbn [snd]. split; [|intros _; exists info; split; [apply lookup_insert_eq|done]]. intros id x Hx. transitivity (g !! id); [|done].
    apply lookup_insert_ne. intros Heq. congruence.
Qed.

Definition info_ok (e : Z * bpftime_helper_info) : bool := (e.1 =? hi_index e.2) && (0 <? e.1) && (e.1 <? func_num BPF_FUNC_MAX_ID).

(** The groups of the runtime together. *)
Definition runtime_helpers : bpftime_helper_group := (append get_kernel_utils_helper_group get_shm_maps_helper_group).2.

(** The groups of the runtime are tables by number: every helper stands under its own number, which is one of
    the kernel's; the two groups have no number in common, so that together they are the 35 helpers. *)
Lemma runtime_groups_wf :
  (append get_kernel_utils_helper_group get_shm_maps_helper_group).1 = 0 ∧ size runtime_helpers = 35%nat ∧
  map_Forall (λ id info, info_ok (id, info) = true) runtime_helpers ∧ Sorted Z.lt (get_helper_ids runtime_helpers).
Proof.
  split; [vm_compute; done|]. split; [vm_compute; done|]. split.
  - apply map_Forall_to_list. vm_compute. repeat constructor.
  - vm_compute. repeat (constructor; try done).
Qed.

(** ** Programs and their helpers *)

Section prog_props.
Variables (impl : string → ext_func) (map_ptr_by_fd map_val : Z → Z).
Context {J : Type}.
Variable ebpf_compile : bpftime_ubpf_vm → option J.

Abbreviation prog := (bpftime_prog (J := J)).

Definition prog_fns (g : bpftime_helper_group) : list (Z * string * ext_func) :=
  (λ e : Z * bpftime_helper_info, (hi_index e.2, hi_name e.2, impl (hi_fn e.2))) <$> in_order g.

Lemma add_group_fields g (p : prog) : let p' := (add_helper_group_to_prog impl g p).2 in
  pg_vm p' = register_all (pg_vm p) (prog_fns g) ∧ pg_insns p' = pg_insns p ∧ pg_fn p' = pg_fn p.
Proof.
  unfold add_helper_group_to_prog, prog_fns, register_all. cbn [snd]. revert p.
  induction (in_order g) as [|e l IH]; intros p; [done|]. cbn [foldl fmap list_fmap].
  destruct (IH (bpftime_prog_register_raw_helper impl p e.2).2) as (->&->&->). unfold bpftime_prog_register_raw_helper.
  by destruct (register_external_function _ _ _ _).
Qed.

Lemma registered_elem (fns : list (Z * string * ext_func)) : ∀ (m : gmap Z ext_func) i n f, NoDup (fns.*1).*1 → (i, n, f) ∈ fns →
  foldl (λ g '(index, _, fn), <[index := fn]> g) m fns !! i = Some f.
Proof.
  assert (Hnot : ∀ (l : list (Z * string * ext_func)) (m : gmap Z ext_func) i, i ∉ (l.*1).*1 →
    foldl (λ g '(index, _, fn), <[index := fn]> g) m l !! i = m !! i).
  { induction l as [|[[j n'] f'] l IH]; intros m i Hi; [done|]. cbn [foldl]. cbn in Hi. apply not_elem_of_cons in Hi as [Hne Hi].
    by rewrite IH, lookup_insert_ne by done. }
  induction fns as [|[[j n'] f'] fns IH]; intros m i n f Hnd Hin; [by apply elem_of_nil in Hin|]. cbn [foldl].
  cbn in Hnd. apply NoDup_cons in Hnd as [Hj Hnd]. apply elem_of_cons in Hin as [[= -> -> ->]|Hin].
  - by rewrite Hnot, lookup_insert_eq.
  - by eapply IH.
Qed.

(** Every helper stands under its own number. *)
Definition group_ok (g : bpftime_helper_group) : Prop := map_Forall (λ id info, id = hi_index info) g ∧ zlen (in_order g) < MAX_EXT_FUNCS.

Lemma prog_fns_ids g : group_ok g → ((prog_fns g).*1).*1 = (in_order g).*1.
Proof.
  intros [Hg _]. unfold prog_fns. rewrite <- !list_fmap_compose. apply list_fmap_ext. intros k [id info] Hk.
  apply list_elem_of_lookup_2, elem_in_order in Hk. symmetry. exact (Hg _ _ Hk).
Qed.

Lemma prog_helpers g code name : group_ok g →
  ∃ n, n < MAX_EXT_FUNCS ∧ helpers_ok (pg_vm (add_helper_group_to_prog impl g (bpftime_prog_create (J := J) map_ptr_by_fd map_val code name)).2) (registered (prog_fns g)) n ∧
    ∀ id info, g !! id = Some info → registered (prog_fns g) !! id = Some (impl (hi_fn info)).
Proof.
  intros Hg. exists (0 + zlen (prog_fns g)). assert (Hz : zlen (prog_fns g) = zlen (in_order g)) by (unfold prog_fns, zlen; by rewrite length_fmap).
  pose proof (zlen_nonneg (in_order g)). destruct Hg as [Hk Hl]. split; [lia|]. split.
  - destruct (add_group_fields g (bpftime_prog_create map_ptr_by_fd map_val code name)) as (->&_). apply register_all_ok; [by split|lia|lia].
  - intros id info Hid. apply (registered_elem _ _ _ (hi_name info)).
    + rewrite prog_fns_ids by done. apply NoDup_in_order.
    + apply list_elem_of_fmap. exists (id, info). cbn [fst snd]. rewrite <- (Hk id info Hid). split; [done|]. by apply elem_in_order.
Qed.

(** C26 (functional). A program that was given a group of helpers and loaded calls them by number: a call instruction with
    the number of a helper runs its function on the registers 1 to 5 and puts the result into register 0. *)
Theorem prog_calls_helper g code name base p' k c info mem mem_len stack s :
  group_ok g → Forall inst_wf code → 8 * zlen code < 2 ^ 32 →
  bpftime_prog_load ebpf_compile false (Some base) true
    (add_helper_group_to_prog impl g (bpftime_prog_create map_ptr_by_fd map_val code name)).2 = (Ok tt, p') →
  is_boundary code k = true → code !! k = Some c → i_opcode c = op_code EBPF_OP_CALL → i_src c = 0 →
  g !! u64 (i_imm c) = Some info → st_pc s = Z.of_nat k →
  let '(r, m) := impl (hi_fn info) [reg s 1; reg s 2; reg s 3; reg s 4; reg s 5] (st_mem s) in
  exec_step (bv_vm (pg_vm p')) mem mem_len stack s = Next (set_reg (set_mem (set_pc s (Z.of_nat k + 1)) m) 0 (u64 r)).
Proof.
  intros Hg Hwf Hlen Hl Hb Hc Ho Hs Hi Hpc. destruct (prog_helpers g code name Hg) as (n&Hn&Hok&Hfn).
  destruct (add_group_fields g (bpftime_prog_create map_ptr_by_fd map_val code name)) as (_&Hins&_).
  unfold bpftime_prog_load in Hl. rewrite Hins in Hl. cbn [bpftime_prog_create pg_insns] in Hl.
  pose proof (zlen_nonneg code). rewrite u32_small in Hl by lia.
  destruct (load_code _ code (8 * zlen code) (Some base) true) as [r vm] eqn:El. destruct r as [[]| | | |]; try discriminate Hl.
  injection Hl as <-. cbn [pg_vm].
  exact (helper_call_step _ _ n code base vm k c (impl (hi_fn info)) mem mem_len stack s Hok Hn Hwf El Hb Hc Ho Hs (Hfn _ _ Hi) Hpc).
Qed.

(** An LDDW instruction of a program that names a map by its descriptor puts the pointer to the map
    into its register. *)
Theorem prog_loads_map_ptr g code name base p' k c n mem mem_len stack s :
  Forall inst_wf code → 8 * zlen code < 2 ^ 32 →
  bpftime_prog_load ebpf_compile false (Some base) true
    (add_helper_group_to_prog impl g (bpftime_prog_create map_ptr_by_fd map_val code name)).2 = (Ok tt, p') →
  is_boundary code k = true → code !! k = Some c → code !! S k = Some n → i_opcode c = op_code EBPF_OP_LDDW → i_src c = 1 →
  st_pc s = Z.of_nat k →
  exec_step (bv_vm (pg_vm p')) mem mem_len stack s = Next (set_reg (set_pc s (Z.of_nat k + 2)) (i_dst c) (u64 (map_ptr_by_fd (u32 (i_imm c))))).
Proof.
  intros Hwf Hlen Hl Hb Hc Hn Ho Hs Hpc.
  destruct (add_group_fields g (bpftime_prog_create map_ptr_by_fd map_val code name)) as (Hvm&Hins&_).
  unfold bpftime_prog_load in Hl. rewrite Hins, Hvm in Hl. cbn [bpftime_prog_create pg_insns pg_vm] in Hl.
  pose proof (zlen_nonneg code). rewrite u32_small in Hl by lia.
  destruct (load_code _ code (8 * zlen code) (Some base) true) as [r vm] eqn:El. destruct r as [[]| | | |]; try discriminate Hl.
  injection Hl as <-. cbn [pg_vm]. eapply lddw_step; try eassumption. unfold lddw_imm. rewrite Hs. cbn [Z.eqb Pos.eqb].
  assert (Hmap : ∀ fns v, bv_map_by_fd (register_all v fns) = bv_map_by_fd v).
  { induction fns as [|[[i nm] f] fns IH]; intros v; [done|]. unfold register_all in *. cbn [foldl]. rewrite IH.
    unfold register_external_function. by destruct (ubpf_register _ _ _ _). }
  by rewrite Hmap.
Qed.

(** A program that could not be compiled is run all the same: the function that is called was never set. *)
Theorem failed_jit_exec_faults p base funcs_mem vm call_fn mem mem_len stack fuel regs m :
  load_code (pg_vm p) (pg_insns p) (u32 (8 * zlen (pg_insns p))) base funcs_mem = (Ok tt, vm) → ebpf_compile vm = None → pg_fn p = None →
  let r := bpftime_prog_load ebpf_compile true base funcs_mem p in
  r.1 = Raw (-1) ∧ bpftime_prog_exec call_fn r.2 mem mem_len stack fuel regs m = ExecFault.
Proof.
  intros Hl Hc Hf. unfold bpftime_prog_load. rewrite Hl, Hc. split; [done|]. unfold bpftime_prog_exec. cbn [snd pg_jitted pg_fn]. by rewrite Hf.
Qed.
End prog_props.

(** ** Witnesses *)

(** The helpers number their symbols. *)
Definition demo_impl (fn : string) : ext_func := λ args m, (Z.of_nat (String.length fn) + args !!! 0%nat, m).
Definition demo_load (code : list ebpf_inst) : res unit * bpftime_prog (J := unit) :=
  bpftime_prog_load (λ _, None) false (Some 4096) true
    (add_helper_group_to_prog demo_impl runtime_helpers (bpftime_prog_create (λ fd, 2 ^ 40 + fd) (λ p, p) code "demo")).2.
Definition demo_prog_code : list ebpf_inst :=
  [mk EBPF_OP_LDDW 1 1 0 5; EbpfInst 0 0 0 0 0; mk EBPF_OP_CALL 0 0 0 87; mk EBPF_OP_EXIT 0 0 0 0].

Lemma demo_loads : demo_load demo_prog_code = (Ok tt, (demo_load demo_prog_code).2).
Proof.
  assert (Hl : (demo_load demo_prog_code).1 = Ok tt) by (vm_compute; done). destruct (demo_load demo_prog_code) as [r p].
  cbn [fst snd] in *. by rewrite Hl.
Qed.
Lemma demo_prog_wf : Forall inst_wf demo_prog_code.
Proof. by apply demo_wf. Qed.

Lemma prog_calls_helper_witness :
  let s := set_reg (start_state 2) 1 5 in
  exec_step (bv_vm (pg_vm (demo_load demo_prog_code).2)) 0 0 65536 s = Next (set_reg (set_mem (set_pc s 3) ∅) 0 33).
Proof.
  cbn zeta.
  assert (Hg : group_ok runtime_helpers).
  { split; [|vm_compute; done]. apply map_Forall_to_list. vm_compute. repeat constructor. }
  pose proof (prog_calls_helper demo_impl (λ fd, 2 ^ 40 + fd) (λ p, p) (λ _, None) runtime_helpers demo_prog_code "demo" 4096
    (demo_load demo_prog_code).2 2 (mk EBPF_OP_CALL 0 0 0 87) (HelperInfo 87 "bpf_map_push_elem" "bpftime_map_push_elem_helper") 0 0 65536
    (set_reg (start_state 2) 1 5) Hg demo_prog_wf eq_refl demo_loads eq_refl eq_refl eq_refl eq_refl ltac:(vm_compute; reflexivity) eq_refl) as Hx.
  exact Hx.
Defined.

Lemma prog_loads_map_ptr_witness :
  exec_step (bv_vm (pg_vm (demo_load demo_prog_code).2)) 0 0 65536 (start_state 0) =
    Next (set_reg (set_pc (start_state 0) 2) 1 (2 ^ 40 + 5)).
Proof.
  exact (prog_loads_map_ptr demo_impl (λ fd, 2 ^ 40 + fd) (λ p, p) (λ _, None) runtime_helpers demo_prog_code "demo" 4096
    (demo_load demo_prog_code).2 0 (mk EBPF_OP_LDDW 1 1 0 5) (EbpfInst 0 0 0 0 0) 0 0 65536 (start_state 0)
    demo_prog_wf eq_refl demo_loads eq_refl eq_refl eq_refl eq_refl eq_refl eq_refl).
Defined.

Definition demo_unloaded : bpftime_prog (J := unit) :=
  (add_helper_group_to_prog demo_impl runtime_helpers (bpftime_prog_create (λ fd, fd) (λ p, p) demo_prog_code "demo")).2.
Definition demo_loaded : res unit * bpftime_ubpf_vm := load_code (pg_vm demo_unloaded) (pg_insns demo_unloaded) 32 (Some 4096) true.
Lemma demo_loaded_ok : load_code (pg_vm demo_unloaded) (pg_insns demo_unloaded) (u32 (8 * zlen (pg_insns demo_unloaded))) (Some 4096) true = (Ok tt, demo_loaded.2).
Proof.
  assert (Hz : u32 (8 * zlen (pg_insns demo_unloaded)) = 32) by (vm_compute; done). rewrite Hz. fold demo_loaded.
  assert (Hl : demo_loaded.1 = Ok tt) by (vm_compute; done). destruct demo_loaded as [r p]. cbn [fst snd] in *. by rewrite Hl.
Qed.
Lemma demo_unloaded_fn : pg_fn demo_unloaded = None.
Proof. vm_compute. done. Qed.

Lemma failed_jit_exec_faults_witness :
  let r := bpftime_prog_load (λ _, None) true (Some 4096) true demo_unloaded in
  r.1 = Raw (-1) ∧ bpftime_prog_exec (λ _ _ _ _, None) r.2 0 0 65536 10 [] ∅ = ExecFault.
Proof.
  exact (failed_jit_exec_faults (λ _, None) demo_unloaded (Some 4096) true demo_loaded.2 (λ _ _ _ _, None) 0 0 65536 10 [] ∅
    demo_loaded_ok eq_refl demo_unloaded_fn).
Defined.
