(* ===== verification/HelperMem.v ===== *)
(** * Helpers on memory

    The helpers of runtime/src/bpf_helper.cpp that read and write the memory of the process: strings, checked reads and
    writes, checksums and the packets of XDP programs. *)

From stdpp Require Import base numbers list gmap.
From S2P Require Import Prelude.
From S2P Require Import EbpfIsa.

(** ** Strings *)

(** [strncpy] copies up to the end of the string and fills the rest with zeros. *)
Fixpoint strncpy (m : memory) (dst src : Z) (n : nat) (ended : bool) : option memory :=
  match n with
  | O => Some m
  | S n =>
      b ← (if ended then Some 0 else m !! src);
      _ ← m !! dst;
      strncpy (<[dst := b]> m) (dst + 1) (src + 1) n (ended || (b =? 0))
  end.
Definition bpf_probe_read_str (m : memory) (buf bufsz ptr : Z) : res Z * memory :=
  match strncpy m buf ptr (Z.to_nat bufsz) false with Some m => (Ok 0, m) | None => (Fault, m) end.

(** The name of the executable without its directories; [None] when it cannot be read. *)
Definition bpftime_get_current_comm (m : memory) (filename : option (list Z)) (buf size : Z) : res Z * memory :=
  match filename with
  | None => (Raw 1, m)
  | Some name =>
      let text := take (Z.to_nat size) (name ++ replicate (Z.to_nat size) 0) in
      match mem_store m buf text with Some m => (Ok 0, m) | None => (Fault, m) end
  end.

(** The sign of [strncmp]. *)
Fixpoint strncmp (m : memory) (s1 s2 : Z) (n : nat) : option Z :=
  match n with
  | O => Some 0
  | S n =>
      a ← m !! s1; b ← m !! s2;
      if negb (a =? b) then Some (Z.sgn (a - b)) else if a =? 0 then Some 0 else strncmp m (s1 + 1) (s2 + 1) n
  end.
Definition bpftime_strncmp (m : memory) (s1 s1_sz s2 : Z) : option Z := strncmp m s1 s2 (Z.to_nat s1_sz).

(** ** Ids *)

Definition bpftime_get_current_pid_tgid (tgid tid : Z) : Z := Z.lor (u64 (Z.shiftl (u64 tgid) 32)) (u64 tid).
Definition bpf_get_current_uid_gid (gid : Z) : Z := Z.lor (u64 (Z.shiftl (u64 gid) 32)) (u64 gid).

(** ** Checked reads and writes *)

(** Who handles SIGSEGV: the default action, the application, or one of the helpers. *)
Inductive segv_handler := SegvDefault | SegvApp (n : Z) | SegvRead | SegvWrite.
Inductive probe_status := NOT_RUNNING | RUNNING_NO_ERROR | RUNNING_ERROR.
Inductive origin_flag := NOT_CHECKED | NOT_EXIST | EXIST.
#[export] Instance segv_handler_eq_dec : EqDecision segv_handler.
Proof. solve_decision. Defined.

(** The variables of one of the two helpers. *)
Record probe := Probe { pb_status : probe_status; pb_exist : origin_flag; pb_origin : segv_handler }.
(** A thread: the two helpers and the action that the process has for SIGSEGV. *)
Record segv_state := SegvState { sg_read : probe; sg_write : probe; sg_action : segv_handler }.
Definition segv_start (action : segv_handler) : segv_state :=
  SegvState (Probe NOT_RUNNING NOT_CHECKED SegvDefault) (Probe NOT_RUNNING NOT_CHECKED SegvDefault) action.

(** What SIGSEGV leads to: the end of the copy in a helper, or the end of the program, or the handler of the application. *)
Inductive segv_end := JumpRead | JumpWrite | Crash | App (n : Z) | NoProgress.

(** A handler of a helper that is not running calls the handler it found. The depth is that of the calls. *)
Fixpoint on_segv (depth : nat) (t : segv_state) (h : segv_handler) : segv_end :=
  match depth with
  | O => NoProgress
  | S depth =>
      let helper (p : probe) jump :=
        match pb_status p with
        | NOT_RUNNING => match pb_origin p with SegvDefault => Crash | h => on_segv depth t h end
        | RUNNING_NO_ERROR => jump
        | RUNNING_ERROR => NoProgress
        end in
      match h with
      | SegvDefault => Crash
      | SegvApp n => App n
      | SegvRead => helper (sg_read t) JumpRead
      | SegvWrite => helper (sg_write t) JumpWrite
      end
  end.

(** The part of a helper before the copy. [stale] is what the local variable [original_sa] has when it is not set. *)
Definition probe_prepare (own : segv_handler) (p : probe) (action stale : segv_handler) : probe * segv_handler :=
  let checked := match pb_exist p with NOT_CHECKED => true | _ => false end in
  let original_sa := if checked then action else stale in
  let p := if checked
           then (if decide (action = SegvDefault) then Probe RUNNING_NO_ERROR NOT_EXIST (pb_origin p) else Probe RUNNING_NO_ERROR EXIST action)
           else Probe RUNNING_NO_ERROR (pb_exist p) (pb_origin p) in
  (p, if decide (original_sa = own) then action else own).

(** [memcpy], which stops after [copied] bytes when it meets an address that is not mapped. *)
Definition copy_bytes (m : memory) (dst src : Z) (n copied : nat) : memory * bool :=
  match mem_load m src n ≫= mem_store m dst with
  | Some m' => (m', true)
  | None => (match mem_load m src copied ≫= mem_store m dst with Some m' => m' | None => m end, false)
  end.

Definition done_probe (p : probe) : probe := Probe NOT_RUNNING (pb_exist p) (pb_origin p).

(** A fault ends in the helper, or not. *)
Definition bpftime_probe_read (t : segv_state) (m : memory) (dst size ptr : Z) (stale : segv_handler) (copied : nat) : res Z * segv_state * memory :=
  if size <? 0 then (Raw (- errno_val EFAULT), t, m)
  else
    let '(p, action) := probe_prepare SegvRead (sg_read t) (sg_action t) stale in
    let t := SegvState p (sg_write t) action in
    match copy_bytes m dst ptr (Z.to_nat size) copied with
    | (m, true) => (Ok 0, SegvState (done_probe p) (sg_write t) action, m)
    | (m, false) =>
        match on_segv 3 t action with
        | JumpRead => (Raw (- errno_val EFAULT), SegvState (done_probe p) (sg_write t) action, m)
        | _ => (Fault, t, m)
        end
    end.
Definition bpftime_probe_write_user (t : segv_state) (m : memory) (dst src len : Z) (stale : segv_handler) (copied : nat) : res Z * segv_state * memory :=
  if len <? 0 then (Raw (- errno_val EFAULT), t, m)
  else
    let '(p, action) := probe_prepare SegvWrite (sg_write t) (sg_action t) stale in
    let t := SegvState (sg_read t) p action in
    match copy_bytes m dst src (Z.to_nat len) copied with
    | (m, true) => (Ok 0, SegvState (sg_read t) (done_probe p) action, m)
    | (m, false) =>
        match on_segv 3 t action with
        | JumpWrite => (Raw (- errno_val EFAULT), SegvState (sg_read t) (done_probe p) action, m)
        | _ => (Fault, t, m)
        end
    end.

(** ** Checksums *)

(** The loop over 16-bit words; [None] when a word is not mapped or the sum leaves the range of an [int]. *)
Fixpoint add_words (f : Z → Z) (m : memory) (a : Z) (n : nat) (acc : Z) : option Z :=
  match n with
  | O => Some acc
  | S n =>
      w ← mem_load m a 2;
      let acc := acc + f (le_load w) in
      if 2 ^ 31 <=? acc then None else add_words f m (a + 2) n acc
  end.

(** Null pointers are 0. *)
Definition bpftime_csum_diff (m : memory) (from from_size to to_size seed : Z) : res Z :=
  if negb (Z.rem from_size 4 =? 0) || negb (Z.rem to_size 4 =? 0) then Raw (- errno_val EINVAL)
  else
    match (acc ← (if to =? 0 then Some seed else add_words (λ w, w) m to (Z.to_nat (Z.quot to_size 2)) seed);
           if from =? 0 then Some acc else add_words (λ w, u16 (Z.lnot w)) m from (Z.to_nat (Z.quot from_size 2)) acc) with
    | None => Fault
    | Some csum_diff => if csum_diff <? 0 then Raw (- errno_val EINVAL) else Ok csum_diff
    end.

(** ** Packets *)

Record xdp_md_userspace := XdpMd {
  x_data : Z;
  x_data_end : Z;
  x_data_meta : Z;
  x_ingress_ifindex : Z;
  x_rx_queue_index : Z;
  x_egress_ifindex : Z;
  x_buffer_start : Z;
  x_buffer_end : Z
}.
Definition set_data (x : xdp_md_userspace) (data data_end : Z) : xdp_md_userspace :=
  XdpMd data data_end (x_data_meta x) (x_ingress_ifindex x) (x_rx_queue_index x) (x_egress_ifindex x) (x_buffer_start x) (x_buffer_end x).
Definition ETH_HLEN : Z := 14.

(** [memmove]. *)
Definition memmove (m : memory) (dst src n : Z) : option memory := mem_load m src (Z.to_nat n) ≫= mem_store m dst.

Definition bpftime_xdp_adjust_head (m : memory) (xdp : xdp_md_userspace) (offset : Z) : res Z * xdp_md_userspace * memory :=
  let data := u64 (x_data xdp + offset) in
  if (u64 (x_data_end xdp - ETH_HLEN) <? data) || (x_buffer_end xdp <? data) then (Raw (- errno_val EINVAL), xdp, m)
  else if data <? x_buffer_start xdp then
    match memmove m (u64 (x_buffer_start xdp + (x_buffer_start xdp - data))) (x_data xdp) (u64 (x_data_end xdp - x_data xdp)) with
    | Some m => (Ok 0, set_data xdp (x_buffer_start xdp) (x_data_end xdp), m)
    | None => (Fault, xdp, m)
    end
  else (Ok 0, set_data xdp data (x_data_end xdp), m).

Definition bpftime_xdp_adjust_tail (xdp_md : xdp_md_userspace) (delta : Z) : res Z * xdp_md_userspace :=
  let data := u64 (x_data_end xdp_md + delta) in
  if (data <? x_data xdp_md) || (data <? x_buffer_start xdp_md) || (x_buffer_end xdp_md <? data) then (Raw (- errno_val EINVAL), xdp_md)
  else (Ok 0, set_data xdp_md (x_data xdp_md) data).

Definition bpftime_xdp_load_bytes (m : memory) (xdp_md : xdp_md_userspace) (offset buf len : Z) : res Z * memory :=
  let data := u64 (x_data xdp_md + offset) in
  if x_data_end xdp_md <? u64 (data + len) then (Raw (- errno_val EINVAL), m)
  else match memmove m buf data len with Some m => (Ok 0, m) | None => (Fault, m) end.

(** ** Strings: what the helpers leave *)

Lemma mem_load_ext (m m' : memory) n : ∀ a, (∀ i, a ≤ i < a + Z.of_nat n → m !! i = m' !! i) → mem_load m a n = mem_load m' a n.
Proof.
  induction n as [|n IH]; intros a Hm; [done|]. cbn [mem_load]. rewrite (Hm a) by lia. rewrite (IH (a + 1)); [done|].
  intros i Hi. apply Hm. lia.
Qed.

Lemma strncpy_zeros n : ∀ m dst src, mapped m dst (Z.of_nat n) → strncpy m dst src n true = mem_store m dst (replicate n 0).
Proof.
  induction n as [|n IH]; intros m dst src Hm; [done|]. cbn [strncpy replicate mem_store orb]. destruct (Hm dst ltac:(lia)) as [b Hb].
  rewrite Hb. cbn [mbind option_bind]. apply IH. intros i Hi. rewrite lookup_insert_ne by lia. apply Hm. lia.
Qed.

(** The characters of a string at [src], without its end. *)
Definition string_at (m : memory) (src : Z) (cs : list Z) : Prop :=
  mem_load m src (length cs) = Some cs ∧ m !! (src + zlen cs) = Some 0 ∧ Forall (λ c, c ≠ 0) cs.

(** A copy into memory that does not overlap the string. *)
Lemma strncpy_string cs : ∀ m dst src n, mapped m dst (Z.of_nat n) → string_at m src cs →
  src + zlen cs < dst ∨ dst + Z.of_nat n ≤ src →
  strncpy m dst src n false = mem_store m dst (take n (cs ++ replicate n 0)).
Proof.
  induction cs as [|c cs IH]; intros m dst src n Hm (Hl&Hz&Hnz) Hd; (destruct n as [|n]; [done|]); pose proof (Hm dst ltac:(lia)) as [b Hb].
  - rewrite zlen_nil, Z.add_0_r in Hz. cbn [strncpy app replicate take]. rewrite Hz. cbn [mbind option_bind mem_store]. rewrite Hb. cbn [mbind option_bind orb Z.eqb].
    rewrite take_ge by (rewrite length_replicate; lia). apply strncpy_zeros. intros i Hi. rewrite lookup_insert_ne by lia. apply Hm. lia.
  - rewrite zlen_cons in *. apply Forall_cons in Hnz as [Hc Hnz]. cbn [mem_load length] in Hl. destruct (m !! src) as [c'|] eqn:Es; [|done].
    cbn [mbind option_bind] in Hl. destruct (mem_load m (src + 1) (length cs)) as [cs'|] eqn:El; [|done]. injection Hl as -> ->.
    pose proof (zlen_nonneg cs). cbn [strncpy app take]. rewrite Es. cbn [mbind option_bind mem_store]. rewrite Hb. cbn [mbind option_bind orb].
    rewrite (proj2 (Z.eqb_neq c 0) Hc). rewrite (IH (<[dst := c]> m) (dst + 1) (src + 1) n).
    + f_equal. rewrite !take_app. f_equal. rewrite !take_replicate. f_equal. lia.
    + intros i Hi. rewrite lookup_insert_ne by lia. apply Hm. lia.
    + split; [|split; [|done]].
      * rewrite <- El. apply mem_load_ext. intros i Hi. rewrite lookup_insert_ne by (unfold zlen in *; lia). done.
      * rewrite lookup_insert_ne by lia. by replace (src + 1 + zlen cs) with (src + (zlen cs + 1)) by lia.
    + lia.
Qed.

Lemma mem_load_nth (m : memory) n : ∀ a bs (k : nat), mem_load m a n = Some bs → (k < n)%nat → m !! (a + Z.of_nat k) = bs !! k.
Proof.
  induction n as [|n IH]; intros a bs k Hl Hk; [lia|]. cbn [mem_load] in Hl. destruct (m !! a) as [b|] eqn:Ea; [|done].
  cbn [mbind option_bind] in Hl. destruct (mem_load m (a + 1) n) as [bs'|] eqn:El; [|done]. injection Hl as <-.
  destruct k as [|k]; [by rewrite Z.add_0_r|]. change ((b :: bs') !! S k) with (bs' !! k). rewrite <- (IH (a + 1) bs' k El) by lia. f_equal. lia.
Qed.

(** Reading a string fills the buffer with the characters and zeros after them, and returns 0 in every case.
    The helper of the kernel ends the string in any case and returns its length: a string that does not fit is left without
    an end here. *)
Theorem probe_read_str_effect m buf bufsz ptr cs : 0 ≤ bufsz → mapped m buf bufsz → string_at m ptr cs →
  ptr + zlen cs < buf ∨ buf + bufsz ≤ ptr →
  ∃ m', bpf_probe_read_str m buf bufsz ptr = (Ok 0, m') ∧
    mem_load m' buf (Z.to_nat bufsz) = Some (take (Z.to_nat bufsz) (cs ++ replicate (Z.to_nat bufsz) 0)) ∧
    (bufsz ≤ zlen cs → ∀ i, buf ≤ i < buf + bufsz → m' !! i ≠ Some 0).
Proof.
  intros Hn Hm Hs Hd. unfold bpf_probe_read_str. rewrite (strncpy_string cs) by (rewrite ?Z2Nat.id by lia; done).
  set (text := take (Z.to_nat bufsz) (cs ++ replicate (Z.to_nat bufsz) 0)).
  assert (Hlen : length text = Z.to_nat bufsz) by (unfold text; rewrite length_take, length_app, length_replicate; lia).
  destruct (mem_store_is_Some m buf text) as [m' Hst]; [unfold zlen; rewrite Hlen; by rewrite Z2Nat.id|]. rewrite Hst. exists m'.
  split; [done|]. split; [rewrite <- Hlen; by apply (mem_load_store m)|]. intros Hle i Hi Hz.
  pose proof (mem_load_store m buf text m' Hst) as Hl. pose proof (mem_load_nth _ _ _ _ (Z.to_nat (i - buf)) Hl ltac:(lia)) as Hi'.
  rewrite Z2Nat.id in Hi' by lia. replace (buf + (i - buf)) with i in Hi' by lia. rewrite Hi' in Hz.
  assert (Ht : text = take (Z.to_nat bufsz) cs) by (unfold text; apply take_app_le; unfold zlen in Hle; lia).
  rewrite Ht in Hz. apply list_elem_of_lookup_2, elem_of_take in Hz as (k&Hk&_). destruct Hs as (_&_&Hnz).
  by apply (Forall_lookup_1 _ _ _ _ Hnz) in Hk.
Qed.

(** ** Checked reads and writes: what a thread sees *)

Inductive probe_op :=
| PRead (dst size ptr : Z) (stale : segv_handler) (copied : nat)
| PWrite (dst src len : Z) (stale : segv_handler) (copied : nat).
Definition probe_step (x : segv_state * memory) (op : probe_op) : res Z * (segv_state * memory) :=
  let '(t, m) := x in
  match op with
  | PRead dst size ptr stale copied => let '(r, t, m) := bpftime_probe_read t m dst size ptr stale copied in (r, (t, m))
  | PWrite dst src len stale copied => let '(r, t, m) := bpftime_probe_write_user t m dst src len stale copied in (r, (t, m))
  end.

(** The variable that is not set does not happen to hold the helper's own handler. *)
Definition stale_ok (op : probe_op) : Prop :=
  match op with PRead _ _ _ stale _ => stale ≠ SegvRead | PWrite _ _ _ stale _ => stale ≠ SegvWrite end.

(** What the answer must be. *)
Definition probe_answer (m : memory) (op : probe_op) : res Z :=
  let answer dst n src :=
    if n <? 0 then Raw (- errno_val EFAULT)
    else if bool_decide (is_Some (mem_load m src (Z.to_nat n) ≫= mem_store m dst)) then Ok 0 else Raw (- errno_val EFAULT) in
  match op with PRead dst size ptr _ _ => answer dst size ptr | PWrite dst src len _ _ => answer dst len src end.

(** Which handlers the helpers have found, in a process whose handler is the application's. *)
Definition idle (p : probe) : Prop := pb_status p = NOT_RUNNING.
Definition found (p : probe) (h : segv_handler) : Prop := pb_exist p = EXIST ∧ pb_origin p = h.
Definition fresh (p : probe) : Prop := pb_exist p = NOT_CHECKED.
Definition chain_ok (n : Z) (t : segv_state) : Prop :=
  idle (sg_read t) ∧ idle (sg_write t) ∧
  (fresh (sg_read t) ∧ fresh (sg_write t) ∧ sg_action t = SegvApp n ∨
   found (sg_read t) (SegvApp n) ∧ fresh (sg_write t) ∧ sg_action t = SegvRead ∨
   fresh (sg_read t) ∧ found (sg_write t) (SegvApp n) ∧ sg_action t = SegvWrite ∨
   found (sg_read t) (SegvApp n) ∧ found (sg_write t) SegvRead ∧ (sg_action t = SegvRead ∨ sg_action t = SegvWrite) ∨
   found (sg_read t) SegvWrite ∧ found (sg_write t) (SegvApp n) ∧ (sg_action t = SegvRead ∨ sg_action t = SegvWrite)).

Lemma prepare_spec own p action stale : (pb_exist p ≠ NOT_CHECKED → stale ≠ own) → (pb_exist p = NOT_CHECKED → action ≠ own ∧ action ≠ SegvDefault) →
  probe_prepare own p action stale =
    (match pb_exist p with NOT_CHECKED => Probe RUNNING_NO_ERROR EXIST action | _ => Probe RUNNING_NO_ERROR (pb_exist p) (pb_origin p) end, own).
Proof.
  intros Hs Ha. unfold probe_prepare. destruct (pb_exist p) eqn:Ee.
  - destruct (Ha eq_refl) as [H1 H2]. by rewrite !decide_False.
  - by rewrite decide_False by (by apply Hs).
  - by rewrite decide_False by (by apply Hs).
Qed.

Lemma copy_bytes_ok m dst src n copied : (copy_bytes m dst src n copied).2 = bool_decide (is_Some (mem_load m src n ≫= mem_store m dst)).
Proof. unfold copy_bytes. destruct (mem_load m src n ≫= mem_store m dst); [by rewrite bool_decide_eq_true_2|by rewrite bool_decide_eq_false_2 by (intros [? ?]; done)]. Qed.

Lemma probe_step_ok n t m op : chain_ok n t → stale_ok op → (probe_step (t, m) op).1 = probe_answer m op ∧ chain_ok n (probe_step (t, m) op).2.1.
Proof.
  intros Hc Hs. assert (Hfr : (fresh (sg_read t) → sg_action t ≠ SegvRead ∧ sg_action t ≠ SegvDefault) ∧
    (fresh (sg_write t) → sg_action t ≠ SegvWrite ∧ sg_action t ≠ SegvDefault)).
  { destruct Hc as (_&_&Hc). unfold fresh, found in *. split; intros Hf; destruct Hc as [(?&?&->)|[(?&?&->)|[(?&?&->)|[(?&?&[-> | ->])|(?&?&[-> | ->])]]]]; naive_solver congruence. }
  destruct op as [dst size ptr stale copied|dst src len stale copied]; cbn [stale_ok] in Hs; cbn [probe_step probe_answer];
    unfold bpftime_probe_read, bpftime_probe_write_user; destruct (_ <? 0); try done; rewrite prepare_spec by (done || apply Hfr);
    rewrite <- (copy_bytes_ok _ _ _ _ copied); destruct (copy_bytes _ _ _ _ copied) as [m' [|]]; cbn [snd];
    destruct t as [[rs re ro] [ws we wo] act]; unfold chain_ok, idle, fresh, found in *; cbn in Hc; destruct Hc as (->&->&Hc);
    destruct Hc as [(->&->&->)|[([-> ->]&->&->)|[(->&[-> ->]&->)|[([-> ->]&[-> ->]&Ha)|([-> ->]&[-> ->]&Ha)]]]]; cbn; split; try done; naive_solver.
Qed.

(** The operations of a thread, each with the memory it found and its answer. *)
Fixpoint probe_run (x : segv_state * memory) (ops : list probe_op) : list (probe_op * memory * res Z) * (segv_state * memory) :=
  match ops with
  | [] => ([], x)
  | op :: ops =>
      let '(r, x1) := probe_step x op in
      let '(rs, x2) := probe_run x1 ops in ((op, x.2, r) :: rs, x2)
  end.

Lemma probe_run_ok n ops : Forall stale_ok ops → ∀ t m, chain_ok n t →
  Forall (λ '(op, m, r), r = probe_answer m op) (probe_run (t, m) ops).1 ∧ chain_ok n (probe_run (t, m) ops).2.1.
Proof.
  induction 1 as [|op ops Hs _ IH]; intros t m Hc; [done|]. cbn [probe_run].
  destruct (probe_step_ok n t m op Hc Hs) as [Hr Hc1]. destruct (probe_step (t, m) op) as [r [t1 m1]]. cbn [fst snd] in *.
  destruct (IH t1 m1 Hc1) as [Hrs Hc2]. destruct (probe_run (t1, m1) ops) as [rs x2]. cbn [fst snd] in *. split; [|done].
  constructor; [done|done].
Qed.

Lemma chain_reaches_app n t : chain_ok n t → on_segv 3 t (sg_action t) = App n.
Proof.
  destruct t as [[rs re ro] [ws we wo] act]. unfold chain_ok, idle, fresh, found. cbn. intros (->&->&Hc).
  destruct Hc as [(->&->&->)|[([-> ->]&->&->)|[(->&[-> ->]&->)|[([-> ->]&[-> ->]&[-> | ->])|([-> ->]&[-> ->]&[-> | ->])]]]]; done.
Qed.

(** C32 (safety). In a thread of a process that has a handler of its own for SIGSEGV, every checked read and write
    returns: 0 after a copy between addresses that are mapped, and -EFAULT in every other case; and a fault outside of the
    helpers still reaches the handler of the process, whatever was read and written before. The helpers also read their
    variable original_sa where they have not set it; this holds as long as it does not happen to contain the helper's own
    handler. *)
Theorem probe_ops_safe n ops m : Forall stale_ok ops →
  let r := probe_run (segv_start (SegvApp n), m) ops in
  Forall (λ '(op, m, r), r = probe_answer m op) r.1 ∧ on_segv 3 r.2.1 (sg_action r.2.1) = App n.
Proof.
  intros Hs. destruct (probe_run_ok n ops Hs (segv_start (SegvApp n)) m) as [Hr Hc]; [|split; [done|by apply chain_reaches_app]].
  split; [done|]. split; [done|]. left. done.
Qed.

(** The handler is the process's and the variables are the thread's: in a thread that finds the helper's own
    handler installed by another thread, the helper takes its own handler for the one to go on to. A fault outside of the
    helpers then never gets to the application: the handler calls itself without end. *)
Theorem second_thread_segv_recurs m dst size ptr stale copied depth : 0 ≤ size →
  let '(r, t, _) := bpftime_probe_read (segv_start SegvRead) m dst size ptr stale copied in
  (r = Ok 0 ∨ r = Raw (- errno_val EFAULT)) ∧ on_segv depth t (sg_action t) = NoProgress.
Proof.
  intros Hs. unfold bpftime_probe_read. rewrite (proj2 (Z.ltb_ge size 0) Hs). cbn.
  assert (Hrec : ∀ w, on_segv depth (SegvState (Probe NOT_RUNNING EXIST SegvRead) w SegvRead) SegvRead = NoProgress).
  { intros w. induction depth as [|d IH]; [done|]. exact IH. }
  destruct (copy_bytes m dst ptr (Z.to_nat size) copied) as [m' [|]]; cbn; split; auto.
Qed.

(** ** Checksums *)

(** The words of a buffer. *)
Fixpoint words_at (m : memory) (a : Z) (n : nat) : option (list Z) :=
  match n with
  | O => Some []
  | S n => w ← mem_load m a 2; ws ← words_at m (a + 2) n; Some (le_load w :: ws)
  end.
Definition sum (ws : list Z) : Z := foldr Z.add 0 ws.

Lemma words_at_length m n : ∀ a ws, words_at m a n = Some ws → length ws = n.
Proof.
  induction n as [|n IH]; intros a ws; cbn [words_at]; [by intros [= <-]|]. destruct (mem_load m a 2); [|done]. cbn [mbind option_bind].
  destruct (words_at m (a + 2) n) eqn:E; [|done]. intros [= <-]. cbn [length]. f_equal. by eapply IH.
Qed.

(** Sums of words of 16 bits, while the sum fits. *)
Lemma add_words_sum f m n : ∀ a ws acc, words_at m a n = Some ws → Forall (λ w, 0 ≤ f w < 2 ^ 16) ws →
  acc + 65535 * Z.of_nat n < 2 ^ 31 → add_words f m a n acc = Some (acc + sum (f <$> ws)).
Proof.
  induction n as [|n IH]; intros a ws acc; cbn [words_at add_words].
  { intros [= <-] _ _. cbn. f_equal. lia. }
  destruct (mem_load m a 2) as [w|]; [|done]. cbn [mbind option_bind]. destruct (words_at m (a + 2) n) as [ws'|] eqn:Ew; [|done].
  intros [= <-] Hf Hb. apply Forall_cons in Hf as [Hw Hf]. destruct (Z.leb_spec (2 ^ 31) (acc + f (le_load w))); [lia|].
  rewrite (IH (a + 2) ws') by (done || lia). cbn [fmap list_fmap sum foldr]. f_equal. unfold sum. lia.
Qed.

Lemma sum_complement ws : Forall (λ w, 0 ≤ w < 2 ^ 16) ws → sum ((λ w, u16 (Z.lnot w)) <$> ws) = 65535 * zlen ws - sum ws.
Proof.
  induction 1 as [|w ws Hw _ IH]; [done|]. rewrite zlen_cons. cbn [fmap list_fmap sum foldr]. unfold sum in IH. rewrite IH.
  assert (u16 (Z.lnot w) = 65535 - w) as ->; [|lia]. unfold u16, Z.lnot. symmetry. apply (Z.mod_unique_pos _ _ (-1)); lia.
Qed.

Lemma sum_bound ws : Forall (λ w, 0 ≤ w < 2 ^ 16) ws → 0 ≤ sum ws ≤ 65535 * zlen ws.
Proof. induction 1 as [|w ws Hw _ IH]; [done|]. rewrite zlen_cons. cbn [sum foldr]. unfold sum in IH. lia. Qed.

(** C33 (equivalence). The difference of two checksums is the one's complement difference: for two buffers that are not
    null, with sizes that are multiples of 4 and together below 2^16 bytes, and a seed of 16 bits, the answer is the seed
    plus the words of the new buffer minus those of the old one, modulo 2^16 - 1; with these bounds the [int] does not
    overflow and the answer is not negative. *)
Theorem csum_diff_ones_complement m from from_size to to_size seed wf wt : from ≠ 0 → to ≠ 0 →
  0 ≤ from_size → 0 ≤ to_size → from_size mod 4 = 0 → to_size mod 4 = 0 → 0 ≤ seed < 2 ^ 16 → from_size + to_size < 2 ^ 16 →
  words_at m from (Z.to_nat (from_size / 2)) = Some wf → words_at m to (Z.to_nat (to_size / 2)) = Some wt →
  Forall (λ w, 0 ≤ w < 2 ^ 16) wf → Forall (λ w, 0 ≤ w < 2 ^ 16) wt →
  ∃ c, bpftime_csum_diff m from from_size to to_size seed = Ok c ∧ 0 ≤ c < 2 ^ 31 ∧ c mod 65535 = (seed + sum wt - sum wf) mod 65535.
Proof.
  intros Hf0 Ht0 Hf Ht Hf4 Ht4 Hs Hsz Hwf Hwt Hbf Hbt. unfold bpftime_csum_diff.
  rewrite !Z.rem_mod_nonneg, Hf4, Ht4, !Z.quot_div_nonneg by lia. cbn [Z.eqb negb orb].
  rewrite (proj2 (Z.eqb_neq to 0) Ht0), (proj2 (Z.eqb_neq from 0) Hf0).
  pose proof (words_at_length _ _ _ _ Hwf) as Hlf. pose proof (words_at_length _ _ _ _ Hwt) as Hlt.
  pose proof (sum_bound wt Hbt) as Hst. pose proof (sum_bound wf Hbf) as Hsf. unfold zlen in *. rewrite Hlf in *. rewrite Hlt in *.
  assert (0 ≤ from_size / 2 ∧ 0 ≤ to_size / 2 ∧ from_size / 2 + to_size / 2 ≤ 32766) as (H1&H2&H3)
    by (Z.to_euclidean_division_equations; lia).
  rewrite (add_words_sum _ m _ to wt) by (done || lia). cbn [mbind option_bind]. rewrite list_fmap_id.
  rewrite (add_words_sum _ m _ from wf).
  - rewrite sum_complement by done. unfold zlen. rewrite Hlf. eexists. destruct (Z.ltb_spec (seed + sum wt + (65535 * Z.of_nat (Z.to_nat (from_size / 2)) - sum wf)) 0); [lia|].
    split; [done|]. split; [lia|].
    replace (seed + sum wt + (65535 * Z.of_nat (Z.to_nat (from_size / 2)) - sum wf)) with (seed + sum wt - sum wf + Z.of_nat (Z.to_nat (from_size / 2)) * 65535) by lia.
    by rewrite Z.mod_add.
  - done.
  - apply Forall_impl with (P := λ w, 0 ≤ w < 2 ^ 16); [done|]. intros w _. unfold u16. apply Z.mod_pos_bound. lia.
  - lia.
Qed.

(** ** Packets *)

(** The packet lies in its buffer, which does not start at the very beginning of the address space. *)
Record xdp_ok (x : xdp_md_userspace) : Prop := {
  xo_start : ETH_HLEN ≤ x_buffer_start x;
  xo_data : x_buffer_start x ≤ x_data x ≤ x_data_end x;
  xo_end : x_data_end x ≤ x_buffer_end x < 2 ^ 63
}.

(** Whatever an XDP program asks for, the packet that it sees afterwards lies in its buffer: moving the
    head or the tail keeps the start of the data, its end and the buffer in order, and an answer other than 0 changes
    nothing. *)
Theorem xdp_adjust_keeps_ok m x delta : xdp_ok x → - 2 ^ 31 ≤ delta < 2 ^ 31 →
  (let '(r, x', _) := bpftime_xdp_adjust_head m x delta in xdp_ok x' ∧ (r ≠ Ok 0 → x' = x)) ∧
  (let '(r, x') := bpftime_xdp_adjust_tail x delta in xdp_ok x' ∧ (r ≠ Ok 0 → x' = x)).
Proof.
  intros [Hs Hd He] Hdl. unfold ETH_HLEN in *. split.
  - unfold bpftime_xdp_adjust_head, ETH_HLEN. rewrite (u64_small (x_data_end x - 14)) by lia.
    destruct (Z.ltb_spec (x_data_end x - 14) (u64 (x_data x + delta))); cbn [orb]; [done|].
    destruct (Z.ltb_spec (x_buffer_end x) (u64 (x_data x + delta))); [done|].
    destruct (Z.ltb_spec (u64 (x_data x + delta)) (x_buffer_start x)).
    + destruct (memmove _ _ _ _); [|done]. split; [|done]. split; cbn; unfold ETH_HLEN; lia.
    + split; [|done]. split; cbn; unfold ETH_HLEN; lia.
  - unfold bpftime_xdp_adjust_tail. destruct (Z.ltb_spec (u64 (x_data_end x + delta)) (x_data x)); cbn [orb]; [done|].
    destruct (Z.ltb_spec (u64 (x_data_end x + delta)) (x_buffer_start x)); cbn [orb]; [done|].
    destruct (Z.ltb_spec (x_buffer_end x) (u64 (x_data_end x + delta))); [done|]. split; [|done]. split; cbn; unfold ETH_HLEN; lia.
Qed.

(** A head that does not fit before the packet: the packet is moved to the right by what is missing, and the
    end of the data stays where it was. The program loses the last bytes of the packet; and when there is no room after the
    packet either, they are written behind the buffer. *)
Theorem xdp_adjust_head_cuts_packet m x k bs : xdp_ok x → x_data x = x_buffer_start x → 0 < k < 2 ^ 31 → k ≤ x_data x →
  ETH_HLEN ≤ x_data_end x - x_data x → mem_load m (x_data x) (Z.to_nat (x_data_end x - x_data x)) = Some bs →
  let r := bpftime_xdp_adjust_head m x (- k) in
  (mapped m (x_buffer_start x + k) (x_data_end x - x_data x) →
     r.1.1 = Ok 0 ∧ x_data r.1.2 = x_data x ∧ x_data_end r.1.2 = x_data_end x ∧
     mem_load r.2 (x_data x + k) (Z.to_nat (x_data_end x - x_data x)) = Some bs) ∧
  (x_buffer_end x < x_data_end x + k → m !! (x_data_end x + k - 1) = None → r.1.1 = Fault).
Proof.
  intros [Hs Hd He] Heq Hk Hkx Hl Hbs. unfold ETH_HLEN in *. cbn zeta. unfold bpftime_xdp_adjust_head, ETH_HLEN.
  rewrite (u64_small (x_data x + - k)), (u64_small (x_data_end x - 14)) by lia.
  destruct (Z.ltb_spec (x_data_end x - 14) (x_data x + - k)); [lia|]. destruct (Z.ltb_spec (x_buffer_end x) (x_data x + - k)); [lia|]. cbn [orb].
  destruct (Z.ltb_spec (x_data x + - k) (x_buffer_start x)); [|lia]. replace (x_buffer_start x + (x_buffer_start x - (x_data x + - k))) with (x_data x + k) by lia.
  rewrite (u64_small (x_data x + k)), (u64_small (x_data_end x - x_data x)) by lia. unfold memmove. rewrite Hbs. cbn [mbind option_bind].
  pose proof (mem_load_length _ _ _ _ Hbs) as Hlen. rewrite <- Heq. split.
  - intros Hm. destruct (mem_store_is_Some m (x_data x + k) bs) as [m' Hst]; [unfold zlen; rewrite Hlen, Z2Nat.id by lia; done|]. rewrite Hst.
    cbn. split; [done|]. split; [done|]. split; [done|]. rewrite <- Hlen. by apply (mem_load_store m).
  - intros Hb Hn. destruct (mem_store m (x_data x + k) bs) as [m'|] eqn:Est; [|done]. exfalso.
    destruct (mem_store_mapped _ _ _ _ Est (x_data_end x + k - 1)) as [b Hx]; [unfold zlen; rewrite Hlen; lia|]. congruence.
Qed.

(** Bytes are loaded from a packet exactly when they lie in it; the buffer then has them, and otherwise
    nothing is written. *)
Theorem xdp_load_bytes_spec m x offset buf len : xdp_ok x → 0 ≤ offset < 2 ^ 32 → 0 ≤ len < 2 ^ 32 →
  mapped m (x_data x) (x_data_end x - x_data x) → mapped m buf len →
  (x_data_end x - x_data x < offset + len → bpftime_xdp_load_bytes m x offset buf len = (Raw (- errno_val EINVAL), m)) ∧
  (offset + len ≤ x_data_end x - x_data x → ∃ bs m', bpftime_xdp_load_bytes m x offset buf len = (Ok 0, m') ∧
     mem_load m (x_data x + offset) (Z.to_nat len) = Some bs ∧ mem_load m' buf (Z.to_nat len) = Some bs).
Proof.
  intros [Hs Hd He] Ho Hl Hm Hb. unfold ETH_HLEN, bpftime_xdp_load_bytes in *. rewrite (u64_small (x_data x + offset)), u64_small by lia.
  destruct (Z.ltb_spec (x_data_end x) (x_data x + offset + len)); split; intros Hc; try lia; [done|].
  destruct (mem_load_is_Some m (x_data x + offset) (Z.to_nat len)) as [bs Hbs]; [intros i Hi; apply Hm; lia|].
  pose proof (mem_load_length _ _ _ _ Hbs) as Hlen.
  destruct (mem_store_is_Some m buf bs) as [m' Hst]; [unfold zlen; by rewrite Hlen, Z2Nat.id by lia|]. exists bs, m'.
  unfold memmove. rewrite Hbs. cbn [mbind option_bind]. rewrite Hst. split; [done|]. split; [done|]. rewrite <- Hlen. by apply (mem_load_store m).
Qed.

(** ** Witnesses *)

(** [bs] at address [a] and nothing else. *)
Definition bytes_at (a : Z) (bs : list Z) : memory := list_to_map (zip (seqZ a (zlen bs)) bs).

(** Three characters go into a buffer of three bytes, which has no end then. *)
Lemma probe_read_str_effect_witness :
  let m := bytes_at 100 [65; 66; 67; 0; 9; 9; 9] in
  ∃ m', bpf_probe_read_str m 104 3 100 = (Ok 0, m') ∧ mem_load m' 104 3 = Some [65; 66; 67] ∧ m' !! 106 ≠ Some 0.
Proof.
  cbn zeta. destruct (probe_read_str_effect (bytes_at 100 [65; 66; 67; 0; 9; 9; 9]) 104 3 100 [65; 66; 67]) as (m'&Hr&Hl&Hn).
  - lia.
  - intros i Hi. assert (i = 104 ∨ i = 105 ∨ i = 106) as [->|[->| ->]] by lia; vm_compute; eexists; reflexivity.
  - split; [vm_compute; done|]. split; [vm_compute; done|]. by repeat constructor.
  - left. vm_compute. done.
  - exists m'. split; [exact Hr|]. split; [exact Hl|]. apply Hn; [vm_compute; congruence|lia].
Defined.

(** A read from an address that is not mapped, and a write that is in order. *)
Lemma probe_ops_safe_witness :
  let ops := [PRead 100 2 500 SegvDefault 0; PWrite 102 100 2 SegvDefault 0] in
  let r := probe_run (segv_start (SegvApp 7), bytes_at 100 [1; 2; 3; 4]) ops in
  snd <$> r.1 = [Raw (-14); Ok 0] ∧ on_segv 3 r.2.1 (sg_action r.2.1) = App 7.
Proof.
  cbn zeta. split; [vm_compute; done|].
  apply (probe_ops_safe 7 [PRead 100 2 500 SegvDefault 0; PWrite 102 100 2 SegvDefault 0] (bytes_at 100 [1; 2; 3; 4])). by repeat constructor.
Defined.

Lemma second_thread_segv_recurs_witness :
  on_segv 1000 (bpftime_probe_read (segv_start SegvRead) ∅ 0 0 0 SegvDefault 0).1.2 SegvRead = NoProgress.
Proof. apply (second_thread_segv_recurs ∅ 0 0 0 SegvDefault 0 1000). lia. Defined.

(** The words 1, 2 take the place of 3, 4. *)
Lemma csum_diff_ones_complement_witness :
  ∃ c, bpftime_csum_diff (bytes_at 100 [1; 0; 2; 0; 3; 0; 4; 0]) 104 4 100 4 5 = Ok c ∧ 0 ≤ c < 2 ^ 31 ∧ c mod 65535 = (5 + sum [1; 2] - sum [3; 4]) mod 65535.
Proof.
  apply (csum_diff_ones_complement _ 104 4 100 4 5 [3; 4] [1; 2]); try lia; try (vm_compute; done); repeat constructor; lia.
Defined.

Definition demo_packet : xdp_md_userspace := XdpMd 100 116 0 0 0 0 100 120.
Lemma demo_packet_ok : xdp_ok demo_packet.
Proof. split; cbn; unfold ETH_HLEN; lia. Qed.

Lemma xdp_adjust_keeps_ok_witness : xdp_ok (bpftime_xdp_adjust_tail demo_packet 4).2 ∧ x_data_end (bpftime_xdp_adjust_tail demo_packet 4).2 = 120.
Proof.
  destruct (xdp_adjust_keeps_ok ∅ demo_packet 4 demo_packet_ok ltac:(lia)) as [_ Ht]. split; [apply Ht|vm_compute; done].
Defined.

(** A packet of 16 bytes in a buffer of 20 gets a header of 4: its end is not moved. With a header of 8 the copy runs past
    the buffer. *)
Lemma xdp_adjust_head_cuts_packet_witness :
  let m := bytes_at 100 (seqZ 1 20) in
  x_data_end (bpftime_xdp_adjust_head m demo_packet (-4)).1.2 = 116 ∧
  mem_load (bpftime_xdp_adjust_head m demo_packet (-4)).2 104 16 = Some (seqZ 1 16) ∧
  (bpftime_xdp_adjust_head m demo_packet (-8)).1.1 = Fault.
Proof.
  cbn zeta. set (m := bytes_at 100 (seqZ 1 20)).
  destruct (xdp_adjust_head_cuts_packet m demo_packet 4 (seqZ 1 16) demo_packet_ok) as [Hm _];
    [done|lia|cbn; lia|cbn; unfold ETH_HLEN; lia|vm_compute; done|].
  destruct Hm as (_&_&He&Hl).
  { intros i Hi. cbn in Hi. assert (Hx : bool_decide (Forall (λ i, is_Some (m !! i)) (seqZ 104 16)) = true) by (vm_compute; done).
    apply bool_decide_eq_true in Hx. rewrite Forall_forall in Hx. apply Hx, elem_of_seqZ. lia. }
  split; [exact He|]. split; [exact Hl|].
  apply (xdp_adjust_head_cuts_packet m demo_packet 8 (seqZ 1 16) demo_packet_ok); [done|lia|cbn; lia|cbn; unfold ETH_HLEN; lia|vm_compute; done|vm_compute; done|vm_compute; done].
Defined.

Lemma xdp_load_bytes_spec_witness :
  let m := bytes_at 100 (seqZ 1 20) in
  bpftime_xdp_load_bytes m demo_packet 15 116 2 = (Raw (-22), m) ∧
  ∃ bs m', bpftime_xdp_load_bytes m demo_packet 14 116 2 = (Ok 0, m') ∧ mem_load m 114 2 = Some bs ∧ mem_load m' 116 2 = Some bs.
Proof.
  cbn zeta. set (m := bytes_at 100 (seqZ 1 20)).
  assert (Hx : bool_decide (Forall (λ i, is_Some (m !! i)) (seqZ 100 20)) = true) by (vm_compute; done).
  apply bool_decide_eq_true in Hx. rewrite Forall_forall in Hx.
  split; [apply (xdp_load_bytes_spec m demo_packet 15 116 2)|apply (xdp_load_bytes_spec m demo_packet 14 116 2)];
    try exact demo_packet_ok; try (cbn; lia); intros i Hi; cbn in Hi; apply Hx, elem_of_seqZ; lia.
Defined.
