(* ===== verification/SyscallTrace.v ===== *)
(** * Attaching programs to system calls

    The interface of the attach implementations (attach/base_attach_impl) and the system call tracer
    (attach/syscall_trace_attach_impl): the tables of callbacks, the dispatch of a system call and the parsing of the
    tracer's arguments. Callbacks are run by a parameter: the attach context gives them programs. *)

From stdpp Require Import base numbers list gmap strings sorting.
From S2P Require Import Prelude.

(** The classes derived from [attach_private_data]. *)
Inductive attach_private_data :=
| SyscallData (sys_nr : Z) (is_enter : bool)
| FridaData (addr : Z) (module_name : string)
| SimpleData (data : string).
#[export] Instance attach_private_data_eq_dec : EqDecision attach_private_data.
Proof. solve_decision. Defined.

(** What a run of a callback does: its return code and the value it stores, the arguments of its calls of the function
    that overrides the return value, and the rest of the world. *)
Record cb_result (W : Type) := CbResult { cr_err : Z; cr_ret : Z; cr_overrides : list (Z * Z); cr_world : W }.
Arguments CbResult {W}.
Arguments cr_err {W}.
Arguments cr_ret {W}.
Arguments cr_overrides {W}.
Arguments cr_world {W}.

(** Each call of the function replaces the value that is there. *)
Definition override (o : option (Z * Z)) (calls : list (Z * Z)) : option (Z * Z) :=
  match last calls with Some x => Some x | None => o end.

(** A [std::set] of pointers is in the order of the addresses. *)
Definition by_address (X : gset Z) : list Z := merge_sort Z.le (elements X).

Lemma elem_by_address X p : p ∈ by_address X ↔ p ∈ X.
Proof. unfold by_address. rewrite (merge_sort_Permutation Z.le (elements X)). apply elem_of_elements. Qed.
Lemma NoDup_by_address X : NoDup (by_address X).
Proof. unfold by_address. rewrite (merge_sort_Permutation Z.le (elements X)). apply NoDup_elements. Qed.
Lemma Sorted_by_address X : StronglySorted Z.le (by_address X).
Proof. apply (StronglySorted_merge_sort Z.le). Qed.

Abbreviation ATTACH_SYSCALL_TRACE := 2 (only parsing).

Section tracer.
Context {CB W : Type}.

Record syscall_trace_attach_entry := SyscallTraceAttachEntry { se_cb : CB; se_sys_nr : Z; se_is_enter : bool }.

(** [sy_heap] has the entries at their addresses, [sy_attach_entries] the pointers that own them. *)
Record syscall_trace_attach_impl := SyscallTraceAttachImpl {
  sy_next_id : Z;
  sy_heap : gmap Z syscall_trace_attach_entry;
  sy_attach_entries : gmap Z Z;
  sy_global_enter_callbacks : gset Z;
  sy_global_exit_callbacks : gset Z;
  sy_sys_enter_callbacks : list (gset Z);
  sy_sys_exit_callbacks : list (gset Z)
}.
Implicit Types (i : syscall_trace_attach_impl) (e : syscall_trace_attach_entry) (w : W).

Definition syscall_trace_attach_impl_new : syscall_trace_attach_impl :=
  SyscallTraceAttachImpl 1 ∅ ∅ ∅ ∅ (replicate 512 ∅) (replicate 512 ∅).

(** ** Attaching and detaching *)

(** The change of the set that has the callbacks of a system call; -1 stands for all of them. *)
Definition change_callbacks (is_enter : bool) (sys_nr : Z) (f : gset Z → gset Z) i : syscall_trace_attach_impl :=
  let 'SyscallTraceAttachImpl n h a ge gx se sx := i in
  if is_enter then
    if sys_nr =? -1 then SyscallTraceAttachImpl n h a (f ge) gx se sx
    else SyscallTraceAttachImpl n h a ge gx (alter f (Z.to_nat sys_nr) se) sx
  else if sys_nr =? -1 then SyscallTraceAttachImpl n h a ge (f gx) se sx
  else SyscallTraceAttachImpl n h a ge gx se (alter f (Z.to_nat sys_nr) sx).

Definition set_entries i (n : Z) (h : gmap Z syscall_trace_attach_entry) (a : gmap Z Z) : syscall_trace_attach_impl :=
  SyscallTraceAttachImpl n h a (sy_global_enter_callbacks i) (sy_global_exit_callbacks i) (sy_sys_enter_callbacks i)
    (sy_sys_exit_callbacks i).

(** [ptr] is the address that the allocator gives to the entry. *)
Definition syscall_create_attach (ptr : Z) (cb : CB) (private_data : attach_private_data) (attach_type : Z) i
  : res Z * syscall_trace_attach_impl :=
  if negb (attach_type =? ATTACH_SYSCALL_TRACE) then (Raw (- errno_val ENOTSUP), i)
  else
    match private_data with
    | SyscallData sys_nr is_enter =>
        if (512 <=? sys_nr) || (sys_nr <? -1) then (Raw (- errno_val EINVAL), i)
        else
          let id := sy_next_id i in
          let e := SyscallTraceAttachEntry cb sys_nr is_enter in
          let i := set_entries i (id + 1) (<[ptr := e]> (sy_heap i)) (<[id := ptr]> (sy_attach_entries i)) in
          (Ok id, change_callbacks is_enter sys_nr ({[ptr]} ∪.) i)
    | _ => (Raw (- errno_val EINVAL), i)
    end.

Definition syscall_detach_by_id (id : Z) i : res unit * syscall_trace_attach_impl :=
  match sy_attach_entries i !! id with
  | None => (Raw (- errno_val ENOENT), i)
  | Some ptr =>
      match sy_heap i !! ptr with
      | None => (Fault, i)
      | Some e =>
          let i := change_callbacks (se_is_enter e) (se_sys_nr e) (.∖ {[ptr]}) i in
          (Ok tt, set_entries i (sy_next_id i) (delete ptr (sy_heap i)) (delete id (sy_attach_entries i)))
      end
  end.

(** ** Dispatch *)

Section dispatch.
(** A run of a callback on the bytes of its context, the original system call, and the numbers of exit and exit_group. *)
Variables (run : CB → list Z → W → cb_result W) (orig_syscall : Z → list Z → W → Z * W) (exit_nrs : list Z).

(** [struct trace_event_raw_sys_enter] and [struct trace_event_raw_sys_exit]: 8 bytes of a trace entry, the number, and
    the arguments or the result. *)
Definition trace_event_raw_sys_enter (sys_nr : Z) (args : list Z) : list Z :=
  le_store 8 0 ++ le_store 8 sys_nr ++ concat (map (le_store 8) args).
Definition trace_event_raw_sys_exit (sys_nr ret : Z) : list Z := le_store 8 0 ++ le_store 8 sys_nr ++ le_store 8 ret.

(** The loop over the pointers of a set. *)
Fixpoint run_callbacks i (ctx : list Z) (ptrs : list Z) (o : option (Z * Z)) w : res (option (Z * Z) * W) :=
  match ptrs with
  | [] => Ok (o, w)
  | p :: ptrs =>
      match sy_heap i !! p with
      | None => Fault
      | Some e => let r := run (se_cb e) ctx w in run_callbacks i ctx ptrs (override o (cr_overrides r)) (cr_world r)
      end
  end.

Definition dispatch_syscall i (sys_nr : Z) (args : list Z) w : res (Z * W) :=
  if bool_decide (sys_nr ∈ exit_nrs) then Ok (orig_syscall sys_nr args w)
  else if sys_nr <? 0 then Fault
  else
    match sy_sys_enter_callbacks i !! Z.to_nat sys_nr, sy_sys_exit_callbacks i !! Z.to_nat sys_nr with
    | Some enter, Some exit =>
        let ctx := trace_event_raw_sys_enter sys_nr args in
        match run_callbacks i ctx (by_address enter) None w with
        | Ok (o, w) =>
            match run_callbacks i ctx (by_address (sy_global_enter_callbacks i)) o w with
            | Ok (Some (_, user_ret), w) => Ok (s64 user_ret, w)
            | Ok (None, w) =>
                let '(ret, w) := orig_syscall sys_nr args w in
                let ctx := trace_event_raw_sys_exit sys_nr ret in
                match run_callbacks i ctx (by_address exit) None w with
                | Ok (o, w) =>
                    match run_callbacks i ctx (by_address (sy_global_exit_callbacks i)) o w with
                    | Ok (Some (_, user_ret), w) => Ok (s64 user_ret, w)
                    | Ok (None, w) => Ok (ret, w)
                    | _ => Fault
                    end
                | _ => Fault
                end
            | _ => Fault
            end
        | _ => Fault
        end
    | _, _ => Fault
    end.
End dispatch.

(** ** The tables agree with the entries *)

(** The set that [dispatch_syscall] walks over. *)
Definition callback_set i (is_enter : bool) (sys_nr : Z) : option (gset Z) :=
  if sys_nr =? -1 then Some (if is_enter then sy_global_enter_callbacks i else sy_global_exit_callbacks i)
  else (if is_enter then sy_sys_enter_callbacks i else sy_sys_exit_callbacks i) !! Z.to_nat sys_nr.

(** The pointers of the entries for a system call. *)
Definition pointers_of i (is_enter : bool) (sys_nr : Z) : gset Z :=
  dom (filter (λ x, se_is_enter x.2 = is_enter ∧ se_sys_nr x.2 = sys_nr) (sy_heap i)).
Definition attached i (is_enter : bool) (sys_nr : Z) : list CB :=
  omap (λ p, se_cb <$> sy_heap i !! p) (by_address (pointers_of i is_enter sys_nr)).

Record sy_wf i : Prop := {
  wf_sets is_enter sys_nr : -1 ≤ sys_nr < 512 → callback_set i is_enter sys_nr = Some (pointers_of i is_enter sys_nr);
  wf_owned id p : sy_attach_entries i !! id = Some p → is_Some (sy_heap i !! p);
  wf_inj id id' p : sy_attach_entries i !! id = Some p → sy_attach_entries i !! id' = Some p → id = id';
  wf_owner p e : sy_heap i !! p = Some e → -1 ≤ se_sys_nr e < 512 ∧ ∃ id, sy_attach_entries i !! id = Some p;
  wf_ids id p : sy_attach_entries i !! id = Some p → 0 < id < sy_next_id i
}.

Lemma elem_pointers i is_enter sys_nr p :
  p ∈ pointers_of i is_enter sys_nr ↔ ∃ e, sy_heap i !! p = Some e ∧ se_is_enter e = is_enter ∧ se_sys_nr e = sys_nr.
Proof.
  unfold pointers_of. rewrite elem_of_dom. unfold is_Some. setoid_rewrite map_lookup_filter_Some. done.
Qed.

Lemma change_callbacks_heap is_enter sys_nr f i : sy_heap (change_callbacks is_enter sys_nr f i) = sy_heap i.
Proof. destruct i. cbn. by destruct is_enter, (sys_nr =? -1). Qed.
Lemma change_callbacks_entries is_enter sys_nr f i :
  sy_attach_entries (change_callbacks is_enter sys_nr f i) = sy_attach_entries i ∧
  sy_next_id (change_callbacks is_enter sys_nr f i) = sy_next_id i.
Proof. destruct i. cbn. by destruct is_enter, (sys_nr =? -1). Qed.

Lemma change_callbacks_set is_enter sys_nr f i is_enter' sys_nr' :
  -1 ≤ sys_nr → -1 ≤ sys_nr' →
  callback_set (change_callbacks is_enter sys_nr f i) is_enter' sys_nr' =
    (if decide (is_enter' = is_enter ∧ sys_nr' = sys_nr) then f else id) <$> callback_set i is_enter' sys_nr'.
Proof.
  intros H1 H2. destruct i as [n h a ge gx se sx]. unfold callback_set, change_callbacks.
  assert (Hid : ∀ o : option (gset Z), id <$> o = o) by by intros [].
  destruct (Z.eqb_spec sys_nr (-1)) as [-> | Hn], (Z.eqb_spec sys_nr' (-1)) as [-> | Hn'].
  - destruct is_enter, is_enter'; case_decide; cbn; intuition congruence.
  - rewrite decide_False by intuition congruence. rewrite Hid. by destruct is_enter, is_enter'.
  - rewrite decide_False by intuition congruence. rewrite Hid. by destruct is_enter, is_enter'.
  - destruct (decide (sys_nr' = sys_nr)) as [-> | Hne].
    + destruct is_enter, is_enter'; case_decide; try (intuition congruence); cbn; rewrite ?list_lookup_alter_eq, ?Hid; done.
    + rewrite decide_False by intuition congruence. rewrite Hid. assert (Z.to_nat sys_nr ≠ Z.to_nat sys_nr') by lia.
      destruct is_enter, is_enter'; cbn; rewrite ?list_lookup_alter_ne by done; done.
Qed.

Lemma set_entries_callbacks i n h a is_enter sys_nr : callback_set (set_entries i n h a) is_enter sys_nr = callback_set i is_enter sys_nr.
Proof. done. Qed.
Lemma set_entries_change is_enter sys_nr f i n h a :
  set_entries (change_callbacks is_enter sys_nr f i) n h a = change_callbacks is_enter sys_nr f (set_entries i n h a).
Proof. destruct i. cbn. by destruct is_enter, (sys_nr =? -1). Qed.

Lemma new_wf : sy_wf syscall_trace_attach_impl_new.
Proof.
  split; try by intros; cbn in *; simplify_map_eq.
  intros is_enter sys_nr Hn. unfold callback_set, pointers_of. cbn [sy_heap syscall_trace_attach_impl_new sy_global_enter_callbacks
    sy_global_exit_callbacks sy_sys_enter_callbacks sy_sys_exit_callbacks]. rewrite map_filter_empty, dom_empty_L.
  destruct (Z.eqb_spec sys_nr (-1)); [by destruct is_enter|]. destruct is_enter; apply lookup_replicate_2; lia.
Qed.

(** Attaching an entry at an address that is free adds its pointer to the set of its system call, and detaching removes
    it; the other sets stay. *)
Definition pointers_after (add : bool) (ptr : Z) e i (is_enter : bool) (sys_nr : Z) : gset Z :=
  if decide (se_is_enter e = is_enter ∧ se_sys_nr e = sys_nr)
  then (if add then {[ptr]} ∪ pointers_of i is_enter sys_nr else pointers_of i is_enter sys_nr ∖ {[ptr]})
  else pointers_of i is_enter sys_nr.

Lemma pointers_insert i n a ptr e is_enter sys_nr :
  sy_heap i !! ptr = None →
  pointers_of (set_entries i n (<[ptr := e]> (sy_heap i)) a) is_enter sys_nr = pointers_after true ptr e i is_enter sys_nr.
Proof.
  intros Hp. unfold pointers_of, pointers_after. cbn [sy_heap set_entries]. case_decide as Hd.
  - rewrite map_filter_insert_True by done. by rewrite dom_insert_L.
  - rewrite map_filter_insert_False by done. by rewrite delete_id.
Qed.
Lemma pointers_delete i n a ptr e is_enter sys_nr :
  sy_heap i !! ptr = Some e →
  pointers_of (set_entries i n (delete ptr (sy_heap i)) a) is_enter sys_nr = pointers_after false ptr e i is_enter sys_nr.
Proof.
  intros Hp. unfold pointers_after. case_decide as Hd.
  - unfold pointers_of. cbn [sy_heap set_entries]. by rewrite map_filter_delete, dom_delete_L.
  - apply set_eq. intros q. rewrite !elem_pointers. cbn [sy_heap set_entries]. split; intros (e'&He&Hm); exists e'; split; try done.
    + by apply lookup_delete_Some in He as [_ ?].
    + apply lookup_delete_Some. split; [|done]. intros <-. apply Hd. congruence.
Qed.

Lemma create_Ok ptr cb d ty i id i' :
  syscall_create_attach ptr cb d ty i = (Ok id, i') →
  ∃ sys_nr is_enter, d = SyscallData sys_nr is_enter ∧ ty = ATTACH_SYSCALL_TRACE ∧ -1 ≤ sys_nr < 512 ∧ id = sy_next_id i ∧
    i' = change_callbacks is_enter sys_nr ({[ptr]} ∪.)
           (set_entries i (id + 1) (<[ptr := SyscallTraceAttachEntry cb sys_nr is_enter]> (sy_heap i)) (<[id := ptr]> (sy_attach_entries i))).
Proof.
  unfold syscall_create_attach. destruct (Z.eqb_spec ty ATTACH_SYSCALL_TRACE) as [-> |]; [|done]. destruct d as [nr b| |]; try done.
  cbn [negb]. destruct (_ || _) eqn:E; [done|]. apply orb_false_iff in E as [E1 E2]. apply Z.leb_gt in E1. apply Z.ltb_ge in E2.
  intros [= <- <-]. exists nr, b. repeat split; try done; lia.
Qed.

Lemma syscall_create_wf ptr cb d ty i :
  sy_wf i → sy_heap i !! ptr = None → 0 < sy_next_id i → sy_wf (syscall_create_attach ptr cb d ty i).2 ∧ 0 < sy_next_id (syscall_create_attach ptr cb d ty i).2.
Proof.
  intros Hw Hp Hn. destruct (syscall_create_attach ptr cb d ty i) as [r i'] eqn:E. destruct r as [id| | | |];
    try by unfold syscall_create_attach in E; repeat case_match; simplify_eq.
  destruct (create_Ok _ _ _ _ _ _ _ E) as (nr&b&->&->&Hnr&->&->). cbn [snd]. set (e := SyscallTraceAttachEntry cb nr b).
  set (i1 := set_entries i _ _ _). destruct (change_callbacks_entries b nr ({[ptr]} ∪.) i1) as [Ha Hx].
  pose proof (change_callbacks_heap b nr ({[ptr]} ∪.) i1) as Hh.
  assert (Hid : sy_attach_entries i !! sy_next_id i = None).
  { destruct (sy_attach_entries i !! sy_next_id i) eqn:El; [|done]. pose proof (wf_ids i Hw _ _ El). lia. }
  split; [|rewrite Hx; cbn; lia]. split.
  - intros b' nr' Hnr'. rewrite change_callbacks_set by lia. change (callback_set i1 b' nr') with (callback_set i b' nr'). rewrite (wf_sets i Hw) by done. cbn [fmap option_fmap option_map].
    f_equal. transitivity (pointers_of i1 b' nr'); [|unfold pointers_of; by rewrite Hh].
    unfold i1. rewrite pointers_insert by done. unfold pointers_after. cbn [se_is_enter se_sys_nr e].
    destruct (decide (b' = b ∧ nr' = nr)) as [[-> ->]|Hne]; [by rewrite decide_True|]. rewrite decide_False; [done|]. intros [? ?]; apply Hne; by split.
  - intros id p. rewrite Ha, Hh. unfold i1. cbn [sy_attach_entries sy_heap set_entries]. rewrite lookup_insert_Some. intros [[<- <-]|[_ Hl]].
    + exists e. apply lookup_insert_eq.
    + destruct (wf_owned i Hw _ _ Hl) as [x Hx']. exists x. apply lookup_insert_Some. right. split; [|done]. congruence.
  - intros id id' p. rewrite Ha. unfold i1. cbn [sy_attach_entries set_entries]. rewrite !lookup_insert_Some.
    intros [[<- <-]|[Hn1 H1]] [[<- Heq]|[Hn2 H2]]; try done.
    + destruct (wf_owned i Hw _ _ H2) as [x ?]. congruence.
    + subst. destruct (wf_owned i Hw _ _ H1) as [x ?]. congruence.
    + by eapply (wf_inj i Hw).
  - intros p e'. rewrite Ha, Hh. unfold i1. cbn [sy_attach_entries sy_heap set_entries]. rewrite lookup_insert_Some. intros [[<- <-]|[Hne Hl]].
    + split; [done|]. exists (sy_next_id i). apply lookup_insert_eq.
    + destruct (wf_owner i Hw _ _ Hl) as (Hr&id&Ho). split; [done|]. exists id. apply lookup_insert_Some. right. split; [|done]. congruence.
  - intros id p. rewrite Ha, Hx. unfold i1. cbn [sy_attach_entries sy_next_id set_entries]. rewrite lookup_insert_Some. intros [[<- <-]|[_ Hl]]; [lia|].
    pose proof (wf_ids i Hw _ _ Hl). lia.
Qed.

Lemma detach_Ok id i i' :
  syscall_detach_by_id id i = (Ok tt, i') →
  ∃ ptr e, sy_attach_entries i !! id = Some ptr ∧ sy_heap i !! ptr = Some e ∧
    i' = change_callbacks (se_is_enter e) (se_sys_nr e) (.∖ {[ptr]})
           (set_entries i (sy_next_id i) (delete ptr (sy_heap i)) (delete id (sy_attach_entries i))).
Proof.
  unfold syscall_detach_by_id. destruct (sy_attach_entries i !! id) as [ptr|]; [|done]. destruct (sy_heap i !! ptr) as [e|] eqn:He; [|done].
  intros [= <-]. exists ptr, e. split; [done|]. split; [done|]. rewrite set_entries_change.
  rewrite (proj2 (change_callbacks_entries _ _ _ _)), (proj1 (change_callbacks_entries _ _ _ _)), change_callbacks_heap. done.
Qed.

Lemma detach_safe id i : sy_wf i → (syscall_detach_by_id id i).1 = Ok tt ∨ syscall_detach_by_id id i = (Raw (- errno_val ENOENT), i).
Proof.
  intros Hw. unfold syscall_detach_by_id. destruct (sy_attach_entries i !! id) as [ptr|] eqn:Ha; [|by right].
  destruct (wf_owned i Hw _ _ Ha) as [e ->]. by left.
Qed.

Lemma detach_wf id i : sy_wf i → 0 < sy_next_id i → sy_wf (syscall_detach_by_id id i).2 ∧ 0 < sy_next_id (syscall_detach_by_id id i).2.
Proof.
  intros Hw Hn. destruct (detach_safe id i Hw) as [Hok | ->]; [|done]. destruct (syscall_detach_by_id id i) as [r i'] eqn:E. cbn in Hok. subst r.
  destruct (detach_Ok _ _ _ E) as (ptr&e&Hp&He&->). cbn [snd]. destruct (wf_owner i Hw _ _ He) as [Hnr _].
  set (i1 := set_entries i _ _ _). destruct (change_callbacks_entries (se_is_enter e) (se_sys_nr e) (.∖ {[ptr]}) i1) as [Ha Hx].
  pose proof (change_callbacks_heap (se_is_enter e) (se_sys_nr e) (.∖ {[ptr]}) i1) as Hh.
  assert (Hother : ∀ id' p, delete id (sy_attach_entries i) !! id' = Some p → sy_attach_entries i !! id' = Some p ∧ p ≠ ptr).
  { intros id' p [Hne Hl]%lookup_delete_Some. split; [done|]. intros ->. apply Hne. by eapply (wf_inj i Hw). }
  split; [|rewrite Hx; done]. split.
  - intros b' nr' Hnr'. rewrite change_callbacks_set by lia. change (callback_set i1 b' nr') with (callback_set i b' nr'). rewrite (wf_sets i Hw) by done.
    cbn [fmap option_fmap option_map]. f_equal. transitivity (pointers_of i1 b' nr'); [|unfold pointers_of; by rewrite Hh].
    unfold i1. rewrite (pointers_delete _ _ _ _ e) by done. unfold pointers_after.
    destruct (decide (b' = se_is_enter e ∧ nr' = se_sys_nr e)) as [[-> ->]|Hne]; [by rewrite decide_True|]. rewrite decide_False; [done|]. intros [? ?]; apply Hne; by split.
  - intros id' p. rewrite Ha, Hh. intros [Hl Hne]%Hother. destruct (wf_owned i Hw _ _ Hl) as [x Hx']. exists x. by apply lookup_delete_Some.
  - intros id1 id2 p. rewrite Ha. intros [H1 _]%Hother [H2 _]%Hother. by eapply (wf_inj i Hw).
  - intros p e'. rewrite Ha, Hh. unfold i1. cbn [sy_heap sy_attach_entries set_entries]. intros [Hne Hl]%lookup_delete_Some. destruct (wf_owner i Hw _ _ Hl) as (Hr&id'&Ho). split; [done|]. exists id'.
    apply lookup_delete_Some. split; [|done]. congruence.
  - intros id' p. rewrite Ha, Hx. intros [Hl _]%Hother. exact (wf_ids i Hw _ _ Hl).
Qed.

(** Every state the tracer reaches by attaching, at addresses that are free, and detaching. *)
Inductive sy_reachable : syscall_trace_attach_impl → Prop :=
| syr_new : sy_reachable syscall_trace_attach_impl_new
| syr_create i ptr cb d ty : sy_reachable i → sy_heap i !! ptr = None → sy_reachable (syscall_create_attach ptr cb d ty i).2
| syr_detach i id : sy_reachable i → sy_reachable (syscall_detach_by_id id i).2.

Lemma change_callbacks_tables is_enter sys_nr f i :
  length (sy_sys_enter_callbacks (change_callbacks is_enter sys_nr f i)) = length (sy_sys_enter_callbacks i).
Proof. destruct i; unfold change_callbacks; destruct is_enter, (sys_nr =? -1); cbn; by rewrite ?length_alter. Qed.
Lemma sy_reachable_tables i : sy_reachable i → length (sy_sys_enter_callbacks i) = 512%nat.
Proof.
  induction 1 as [|i ptr cb d ty _ IH Hp|i id _ IH]; [done|..].
  - unfold syscall_create_attach. destruct (negb _); [done|]. destruct d as [| |nr b]; try done. destruct (_ || _); [done|].
    cbn [snd]. by rewrite change_callbacks_tables.
  - unfold syscall_detach_by_id. destruct (sy_attach_entries i !! id) as [p|]; [|done]. destruct (sy_heap i !! p) as [e|]; [|done].
    cbn [snd set_entries sy_sys_enter_callbacks]. by rewrite change_callbacks_tables.
Qed.

Lemma sy_reachable_wf i : sy_reachable i → sy_wf i ∧ 0 < sy_next_id i.
Proof.
  induction 1 as [|i ptr cb d ty _ [IH Hn] Hp|i id _ [IH Hn]]; [split; [apply new_wf|done]|by apply syscall_create_wf|by apply detach_wf].
Qed.

(** ** Dispatch *)

Section dispatch_props.
Variables (run : CB → list Z → W → cb_result W) (orig_syscall : Z → list Z → W → Z * W) (exit_nrs : list Z).

(** A system call with the programs that are attached to its two sides: they run one after the other on the same
    context; the last value that one of them sets is the answer, and on the way in it replaces the call. *)
Definition run_list (ctx : list Z) (cbs : list CB) (ow : option (Z * Z) * W) : option (Z * Z) * W :=
  foldl (λ ow cb, let r := run cb ctx ow.2 in (override ow.1 (cr_overrides r), cr_world r)) ow cbs.
Definition traced_syscall (enter exit : list CB) (sys_nr : Z) (args : list Z) w : Z * W :=
  match run_list (trace_event_raw_sys_enter sys_nr args) enter (None, w) with
  | (Some (_, v), w) => (s64 v, w)
  | (None, w) =>
      let '(ret, w) := orig_syscall sys_nr args w in
      match run_list (trace_event_raw_sys_exit sys_nr ret) exit (None, w) with
      | (Some (_, v), w) => (s64 v, w)
      | (None, w) => (ret, w)
      end
  end.

Lemma run_list_app ctx l1 l2 ow : run_list ctx (l1 ++ l2) ow = run_list ctx l2 (run_list ctx l1 ow).
Proof. apply foldl_app. Qed.

Lemma run_callbacks_list i ctx ptrs o w :
  (∀ p, p ∈ ptrs → is_Some (sy_heap i !! p)) →
  run_callbacks run i ctx ptrs o w = Ok (run_list ctx (omap (λ p, se_cb <$> sy_heap i !! p) ptrs) (o, w)).
Proof.
  revert o w. induction ptrs as [|p ptrs IH]; intros o w Hp; [done|]. destruct (Hp p ltac:(left)) as [e He]. cbn. rewrite He. cbn.
  apply IH. intros q Hq. apply Hp. by right.
Qed.

Lemma run_set i ctx is_enter sys_nr o w :
  run_callbacks run i ctx (by_address (pointers_of i is_enter sys_nr)) o w = Ok (run_list ctx (attached i is_enter sys_nr) (o, w)).
Proof.
  apply run_callbacks_list. intros p Hp. apply elem_by_address, elem_pointers in Hp as (e&He&_). by exists e.
Qed.

(** C10 (refinement). What the tracer does with a system call, whatever was attached and detached before. Exit and
    exit_group are called with no program. A call with a number of the tables (0 to 511) runs the entry programs that
    are attached to this call and then those that are attached to all calls, each once; if one of them sets a return
    value, this is the answer, and neither the call nor an exit program runs; otherwise the call is made, and the exit
    programs run in the same way. A number outside of the tables is an access outside of an array. The sets of
    pointers that the code keeps stand for the attached entries, and none of them dangles. *)
Theorem dispatch_refines_traced i sys_nr args w :
  sy_reachable i →
  dispatch_syscall run orig_syscall exit_nrs i sys_nr args w =
    if bool_decide (sys_nr ∈ exit_nrs) then Ok (orig_syscall sys_nr args w)
    else if bool_decide (0 ≤ sys_nr < 512) then
      Ok (traced_syscall (attached i true sys_nr ++ attached i true (-1)) (attached i false sys_nr ++ attached i false (-1)) sys_nr args w)
    else Fault.
Proof.
  intros Hr. pose proof (sy_reachable_tables i Hr) as Ht. destruct (sy_reachable_wf i Hr) as [Hw _]. unfold dispatch_syscall.
  case_bool_decide as Hx; [done|]. case_bool_decide as Hn; cycle 1.
  { destruct (Z.ltb_spec sys_nr 0); [done|]. by rewrite (lookup_ge_None_2 (sy_sys_enter_callbacks i)) by lia. }
  rewrite (proj2 (Z.ltb_ge sys_nr 0)) by lia.
  pose proof (wf_sets i Hw true sys_nr ltac:(lia)) as He. pose proof (wf_sets i Hw false sys_nr ltac:(lia)) as Hxs.
  pose proof (wf_sets i Hw true (-1) ltac:(lia)) as Hge. pose proof (wf_sets i Hw false (-1) ltac:(lia)) as Hgx.
  unfold callback_set in *. rewrite (proj2 (Z.eqb_neq sys_nr (-1))) in He, Hxs by lia. cbn [Z.eqb Pos.eqb] in Hge, Hgx.
  rewrite He, Hxs. injection Hge as ->. injection Hgx as ->. unfold traced_syscall. rewrite run_set, run_list_app.
  destruct (run_list _ (attached i true sys_nr) _) as [o1 w1]. rewrite run_set.
  destruct (run_list _ (attached i true (-1)) _) as [[[c v]|] w2]; [done|]. destruct (orig_syscall sys_nr args w2) as [ret w3].
  rewrite run_set, run_list_app. destruct (run_list _ (attached i false sys_nr) _) as [o2 w4]. rewrite run_set.
  by destruct (run_list _ (attached i false (-1)) _) as [[[c v]|] w5].
Qed.
End dispatch_props.

Lemma change_callbacks_attached b nr f i is_enter sys_nr : attached (change_callbacks b nr f i) is_enter sys_nr = attached i is_enter sys_nr.
Proof. unfold attached, pointers_of. by rewrite change_callbacks_heap. Qed.

Lemma attached_elements i is_enter sys_nr :
  attached i is_enter sys_nr ≡ₚ omap (λ p, se_cb <$> sy_heap i !! p) (elements (pointers_of i is_enter sys_nr)).
Proof. unfold attached, by_address. by rewrite merge_sort_Permutation. Qed.

Lemma attached_insert i n a ptr e is_enter sys_nr :
  sy_heap i !! ptr = None →
  attached (set_entries i n (<[ptr := e]> (sy_heap i)) a) is_enter sys_nr ≡ₚ
    (if decide (se_is_enter e = is_enter ∧ se_sys_nr e = sys_nr) then [se_cb e] else []) ++ attached i is_enter sys_nr.
Proof.
  intros Hp. rewrite !attached_elements, pointers_insert by done. cbn [sy_heap set_entries]. unfold pointers_after.
  assert (Hn : ptr ∉ pointers_of i is_enter sys_nr) by (rewrite elem_pointers; intros (e'&He&_); congruence).
  assert (Hrest : omap (λ p, se_cb <$> <[ptr := e]> (sy_heap i) !! p) (elements (pointers_of i is_enter sys_nr)) =
                  omap (λ p, se_cb <$> sy_heap i !! p) (elements (pointers_of i is_enter sys_nr))).
  { apply list_omap_ext, Forall_Forall2_diag, Forall_forall. intros p Hin%elem_of_elements. rewrite lookup_insert_ne; [done|]. by intros ->. }
  case_decide; [|by rewrite Hrest]. rewrite elements_union_singleton by done. cbn. rewrite lookup_insert_eq. cbn. by rewrite Hrest.
Qed.

(** Attaching adds the program to the ones of its system call, and to no others; detaching by the id
    that was returned succeeds, and every system call has the programs it had before. *)
Theorem attach_detach_restores i ptr cb d ty id i1 :
  sy_heap i !! ptr = None → syscall_create_attach ptr cb d ty i = (Ok id, i1) →
  (∀ is_enter sys_nr, attached i1 is_enter sys_nr ≡ₚ
     (if decide (d = SyscallData sys_nr is_enter) then [cb] else []) ++ attached i is_enter sys_nr) ∧
  (syscall_detach_by_id id i1).1 = Ok tt ∧
  (∀ is_enter sys_nr, attached (syscall_detach_by_id id i1).2 is_enter sys_nr = attached i is_enter sys_nr).
Proof.
  intros Hp E. destruct (create_Ok _ _ _ _ _ _ _ E) as (nr&b&->&->&Hnr&->&->).
  set (e := SyscallTraceAttachEntry cb nr b). set (i1 := set_entries i _ _ _). split.
  - intros b' nr'. rewrite change_callbacks_attached. unfold i1. rewrite attached_insert by done. cbn [se_is_enter se_sys_nr se_cb e].
    destruct (decide (SyscallData nr b = SyscallData nr' b')) as [Heq|Hne]; [injection Heq as -> ->; by rewrite decide_True|].
    rewrite decide_False; [done|]. intros [-> ->]. done.
  - set (i2 := change_callbacks _ _ _ i1). assert (Ha : sy_attach_entries i2 !! sy_next_id i = Some ptr).
    { unfold i2. rewrite (proj1 (change_callbacks_entries _ _ _ _)). apply lookup_insert_eq. }
    assert (Hh : sy_heap i2 = <[ptr := e]> (sy_heap i)) by apply change_callbacks_heap.
    destruct (syscall_detach_by_id (sy_next_id i) i2) as [r i3] eqn:Ed. pose proof Ed as Er. unfold syscall_detach_by_id in Er.
    rewrite Ha, Hh, lookup_insert_eq in Er. apply (f_equal fst) in Er. cbn [fst] in Er. subst r. split; [done|].
    destruct (detach_Ok _ _ _ Ed) as (q&e'&Hq&He'&->). rewrite Ha in Hq. injection Hq as <-. intros b' nr'. cbn [snd]. rewrite change_callbacks_attached.
    unfold attached, pointers_of. cbn [sy_heap set_entries]. by rewrite Hh, delete_insert_id.
Qed.

End tracer.
Arguments syscall_trace_attach_entry CB : clear implicits.
Arguments syscall_trace_attach_impl CB : clear implicits.

(** A run of callbacks that are numbers and write themselves down; 7 sets the return value 42. *)
Definition demo_run (cb : Z) (ctx : list Z) (w : list Z) : cb_result (list Z) :=
  CbResult 0 0 (if cb =? 7 then [(0, 42)] else []) (w ++ [cb]).
Definition demo_tracer (d : attach_private_data) : syscall_trace_attach_impl Z :=
  (syscall_create_attach 100 7 d 2 (syscall_create_attach 200 5 (SyscallData 257 true) 2 syscall_trace_attach_impl_new).2).2.

Lemma demo_tracer_reachable d : sy_reachable (demo_tracer d).
Proof.
  apply syr_create; [apply syr_create; [apply syr_new|by vm_compute]|by vm_compute].
Qed.

Lemma dispatch_refines_traced_witness :
  dispatch_syscall demo_run (λ nr args w, (3, w ++ [-1])) [93; 94] (demo_tracer (SyscallData (-1) false)) 257 [1; 2; 3; 4; 5; 6] [] = Ok (42, [5; -1; 7]) ∧
  dispatch_syscall demo_run (λ nr args w, (3, w ++ [-1])) [93; 94] (demo_tracer (SyscallData 257 true)) 257 [1; 2; 3; 4; 5; 6] [] = Ok (42, [7; 5]).
Proof.
  split; (etransitivity; [apply dispatch_refines_traced, demo_tracer_reachable|vm_compute; reflexivity]).
Defined.

Lemma attach_detach_restores_witness :
  attached (demo_tracer (SyscallData 257 true)) true 257 ≡ₚ [7; 5] ∧
  attached (syscall_detach_by_id 2 (demo_tracer (SyscallData 257 true))).2 true 257 = [5].
Proof.
  pose proof (attach_detach_restores (syscall_create_attach 200 5 (SyscallData 257 true) 2 syscall_trace_attach_impl_new).2 100 7 (SyscallData 257 true) 2 2
    (demo_tracer (SyscallData 257 true)) ltac:(by vm_compute) ltac:(by vm_compute)) as (H1&_&H3).
  split; [etransitivity; [apply H1|by vm_compute]|etransitivity; [apply H3|by vm_compute]].
Defined.
