(* ===== verification/AttachArgs.v ===== *)
(** * Arguments of attach implementations

    The strings by which the attach context hands the target of a probe to an attach implementation, and how the
    implementations parse them: syscall_trace_attach_private_data.cpp, syscall_table.cpp and
    frida_attach_private_data.cpp. *)

From Stdlib Require Import Ascii.
From stdpp Require Import base numbers list gmap strings pretty.
From S2P Require Import Prelude.
From S2P Require Import SyscallTrace.

(** ** Numbers *)

(** [std::to_string]. *)
Definition to_string (z : Z) : string := pretty z.

Definition is_space (c : ascii) : bool := let n := Ascii.nat_of_ascii c in (n =? 32)%nat || ((9 <=? n)%nat && (n <=? 13)%nat).
Definition digit (c : ascii) : option Z :=
  let n := Z.of_nat (Ascii.nat_of_ascii c) in if (48 <=? n) && (n <=? 57) then Some (n - 48) else None.

(** The number that the digits at the front make, after [acc]. *)
Fixpoint digits (acc : Z) (s : string) : Z :=
  match s with
  | EmptyString => acc
  | String c s => match digit c with Some d => digits (10 * acc + d) s | None => acc end
  end.
Definition starts_with_digit (s : string) : bool := match s with String c _ => match digit c with Some _ => true | None => false end | EmptyString => false end.
Fixpoint skip_space (s : string) : string :=
  match s with String c r => if is_space c then skip_space r else s | EmptyString => s end.

(** The subject sequence of [strtol] and [strtoul] with base 10: its sign and its digits. *)
Definition strto (s : string) : option (bool * Z) :=
  let s := skip_space s in
  let '(neg, s) := match s with
                   | String c r => if Ascii.eqb c "-" then (true, r) else if Ascii.eqb c "+" then (false, r) else (false, s)
                   | EmptyString => (false, s)
                   end in
  if starts_with_digit s then Some (neg, digits 0 s) else None.

(** [std::stoi] and [std::stoul] throw when there is no number or it does not fit. *)
Definition stoi (s : string) : res Z :=
  match strto s with
  | None => Throw
  | Some (neg, n) => let v := if neg : bool then - n else n in if (- 2 ^ 31 <=? v) && (v <? 2 ^ 31) then Ok v else Throw
  end.
Definition stoul (s : string) : res Z :=
  match strto s with
  | None => Throw
  | Some (neg, n) => if 2 ^ 64 <=? n then Throw else Ok (u64 (if neg : bool then - n else n))
  end.

(** ** System calls *)

(** [rows] are the lines of the generated table. The last round of the loop finds the end of the text: its name is
    empty, and [stale] is what the variable [id] has. *)
Definition patch_name (name : string) : string := if decide (name = "umount2") then "umount" else name.
Definition generate_syscall_id_table (rows : list (string * Z)) (stale : Z) : gmap string Z * gmap Z string :=
  foldl (λ t r, (<[patch_name r.1 := r.2]> t.1, <[r.2 := patch_name r.1]> t.2)) (∅, ∅)
    (rows ++ [(EmptyString, stale)]).

Definition GLOBAL_SYS_ENTER_NAME : string := "*SYS_ENTER".
Definition GLOBAL_SYS_EXIT_NAME : string := "*SYS_EXIT".

Fixpoint strip_prefix (p s : string) : option string :=
  match p, s with
  | EmptyString, _ => Some s
  | String a p, String b s => if Ascii.eqb a b then strip_prefix p s else None
  | _, _ => None
  end.

(** [table] has the names of the tracepoints, [sys_nrs] the numbers of the system calls; [stale] is the local variable
    [is_enter], which a name without a prefix leaves as it is. *)
Definition syscall_initialize_from_string (table : gmap Z string) (sys_nrs : gmap string Z) (stale : bool) (sv : string)
  : res attach_private_data :=
  match stoi sv with
  | Ok tp_id =>
      match table !! tp_id with
      | None => Raw (- errno_val EEXIST)
      | Some name =>
          if decide (name = GLOBAL_SYS_ENTER_NAME) then Ok (SyscallData (-1) true)
          else if decide (name = GLOBAL_SYS_EXIT_NAME) then Ok (SyscallData (-1) false)
          else
            let '(syscall_name, is_enter) :=
              match strip_prefix "sys_enter_" name, strip_prefix "sys_exit_" name with
              | Some r, _ => (r, true)
              | None, Some r => (r, false)
              | None, None => (EmptyString, stale)
              end in
            match sys_nrs !! syscall_name with
            | Some nr => Ok (SyscallData nr is_enter)
            | None => Raw (- errno_val EEXIST)
            end
      end
  | _ => Throw
  end.

(** ** Functions *)

Fixpoint split_last (c : ascii) (s : string) : option (string * string) :=
  match s with
  | EmptyString => None
  | String a r =>
      match split_last c r with
      | Some (x, y) => Some (String a x, y)
      | None => if Ascii.eqb a c then Some (EmptyString, r) else None
      end
  end.

(** [module_base] is the address at which the loader has the module; 0 is a null pointer. *)
Definition resolve_function_addr_by_module_offset (module_base : string → res Z) (module_name : string) (func_offset : Z) : res Z :=
  match module_base module_name with
  | Ok base => Ok (if base =? 0 then 0 else u64 (base + func_offset))
  | _ => Throw
  end.

Definition frida_initialize_from_string (module_base : string → res Z) (sv : string) : res attach_private_data :=
  match split_last ":" sv with
  | None => match stoul sv with Ok addr => Ok (FridaData addr "") | _ => Throw end
  | Some (module_part, EmptyString) => Raw (- errno_val EINVAL)
  | Some (module_part, offset_part) =>
      match stoul offset_part with
      | Ok offset =>
          match resolve_function_addr_by_module_offset module_base module_part offset with
          | Ok addr => Ok (FridaData addr module_part)
          | _ => Throw
          end
      | _ => Throw
      end
  end.

(** ** Lemmas *)

Lemma digit_char d : (d < 10)%N → digit (pretty_N_char d) = Some (Z.of_N d).
Proof.
  intros Hd. assert (Hc : d = 0%N ∨ d = 1%N ∨ d = 2%N ∨ d = 3%N ∨ d = 4%N ∨ d = 5%N ∨ d = 6%N ∨ d = 7%N ∨ d = 8%N ∨ d = 9%N) by lia.
  repeat (destruct Hc as [-> | Hc]; [reflexivity|]). by subst.
Qed.

(** Induction along the digits of a number, from the last one to the first. *)
Lemma pretty_N_ind (P : string → string → Prop) :
  (∀ s, P s s) → (∀ d s t, (d < 10)%N → P (String (pretty_N_char d) s) t → P s t) → ∀ x s, P s (pretty_N_go x s).
Proof.
  intros H0 HS x. induction (N.lt_wf_0 x) as [x _ IH]. intros s. destruct (decide (0 < x)%N) as [Hx|Hx].
  - rewrite pretty_N_go_step by done. eapply HS; [apply (N.mod_lt x 10); lia|]. apply IH, N.div_lt; lia.
  - replace x with 0%N by lia. by rewrite pretty_N_go_0.
Qed.

Lemma digits_pretty_N x s : digits 0 (pretty_N_go x s) = digits (Z.of_N x) s.
Proof.
  revert s. induction (N.lt_wf_0 x) as [x _ IH]. intros s. destruct (decide (0 < x)%N) as [Hx|Hx].
  - rewrite pretty_N_go_step by done. rewrite IH by (apply N.div_lt; lia). cbn [digits].
    rewrite digit_char by (apply N.mod_lt; lia). f_equal. pose proof (N.div_mod x 10 ltac:(lia)). lia.
  - replace x with 0%N by lia. by rewrite pretty_N_go_0.
Qed.

Lemma starts_pretty_N x s : (0 < x)%N → starts_with_digit (pretty_N_go x s) = true.
Proof.
  intros Hx. rewrite pretty_N_go_step by done.
  apply (pretty_N_ind (λ s t, starts_with_digit s = true → starts_with_digit t = true)); [done| |].
  - intros d s' t Hd IH _. apply IH. cbn. by rewrite digit_char.
  - cbn. rewrite digit_char; [done|]. apply N.mod_lt. lia.
Qed.

Lemma digit_not_space c d : digit c = Some d → is_space c = false ∧ c ≠ "-"%char ∧ c ≠ "+"%char ∧ c ≠ ":"%char.
Proof.
  unfold digit, is_space. destruct (_ && _) eqn:E; [|done]. intros _. apply andb_true_iff in E as [E1 E2].
  apply Z.leb_le in E1, E2. split; [|split; [|split]; intros ->; revert E1 E2; vm_compute; intros; congruence].
  apply orb_false_iff. split; [apply Nat.eqb_neq; lia|]. apply andb_false_iff. right. apply Nat.leb_gt. lia.
Qed.

Lemma strto_digits s : starts_with_digit s = true → strto s = Some (false, digits 0 s) ∧ strto (String "-" s) = Some (true, digits 0 s).
Proof.
  destruct s as [|c s]; [done|]. cbn [starts_with_digit]. destruct (digit c) as [d|] eqn:Ed; [intros _|done].
  destruct (digit_not_space c d Ed) as (Hs&Hm&Hp&_). unfold strto. cbn [skip_space]. rewrite Hs.
  rewrite (proj2 (Ascii.eqb_neq c "-") Hm), (proj2 (Ascii.eqb_neq c "+") Hp). cbn [starts_with_digit]. rewrite Ed. split; [done|].
  replace (is_space "-") with false by done. cbn [Ascii.eqb Bool.eqb starts_with_digit]. by rewrite Ed.
Qed.

(** Printing a number and reading it. *)
Lemma strto_to_string z : strto (to_string z) = Some (z <? 0, Z.abs z).
Proof.
  unfold to_string, pretty, pretty_Z. destruct z as [|x|x]; [done| |].
  - unfold pretty_positive, pretty, pretty_N. rewrite decide_False by done.
    rewrite (proj1 (strto_digits _ (starts_pretty_N (N.pos x) "" ltac:(done)))). by rewrite digits_pretty_N.
  - unfold pretty_positive, pretty, pretty_N. rewrite decide_False by done.
    change ("-" +:+ pretty_N_go (N.pos x) "") with (String "-" (pretty_N_go (N.pos x) "")).
    rewrite (proj2 (strto_digits _ (starts_pretty_N (N.pos x) "" ltac:(done)))). by rewrite digits_pretty_N.
Qed.

Lemma stoi_to_string z : - 2 ^ 31 ≤ z < 2 ^ 31 → stoi (to_string z) = Ok z.
Proof.
  intros Hz. unfold stoi. rewrite strto_to_string. replace (if z <? 0 then - Z.abs z else Z.abs z) with z by (case_match eqn:E; [apply Z.ltb_lt in E|apply Z.ltb_ge in E]; lia).
  by rewrite (proj2 (Z.leb_le _ _) (proj1 Hz)), (proj2 (Z.ltb_lt _ _) (proj2 Hz)).
Qed.
Lemma stoul_to_string z : 0 ≤ z < 2 ^ 64 → stoul (to_string z) = Ok z.
Proof.
  intros Hz. unfold stoul. rewrite strto_to_string, Z.abs_eq by lia. rewrite (proj2 (Z.leb_gt _ _) (proj2 Hz)), (proj2 (Z.ltb_ge _ _) (proj1 Hz)).
  by rewrite u64_small.
Qed.

Lemma to_string_nonempty z : to_string z ≠ EmptyString.
Proof. intros H. pose proof (strto_to_string z) as Hs. rewrite H in Hs. done. Qed.

Lemma split_last_no_colon z : 0 ≤ z → split_last ":" (to_string z) = None.
Proof.
  intros Hz. unfold to_string, pretty, pretty_Z. destruct z as [|x|x]; [done| |lia]. unfold pretty_positive, pretty, pretty_N. rewrite decide_False by done.
  apply (pretty_N_ind (λ s t, split_last ":" s = None → split_last ":" t = None)); [done| |done].
  intros d s t Hd IH Hs. apply IH. cbn [split_last]. rewrite Hs.
  by rewrite (proj2 (Ascii.eqb_neq _ _) (proj2 (proj2 (proj2 (digit_not_space _ _ (digit_char d Hd)))))).
Qed.

Lemma split_last_app m t : split_last ":" t = None → split_last ":" (m +:+ String ":" t) = Some (m, t).
Proof.
  intros Ht. induction m as [|a m IH]; [|by change (String a m +:+ String ":" t) with (String a (m +:+ String ":" t)); cbn [split_last]; rewrite IH].
  change (EmptyString +:+ String ":" t) with (String ":" t). cbn [split_last]. by rewrite Ht, Ascii.eqb_refl.
Qed.

Lemma strip_prefix_app p s : strip_prefix p (p +:+ s) = Some s.
Proof.
  induction p as [|a p IH]; [by destruct s|]. change (String a p +:+ s) with (String a (p +:+ s)). cbn [strip_prefix].
  by rewrite Ascii.eqb_refl.
Qed.

(** ** Round trips *)

(** A module and an offset are read back from their text: the module, also one with colons in its name, and the address
    at the offset in it. *)
Lemma uprobe_argument_roundtrip module_base m offset base :
  0 ≤ offset < 2 ^ 64 → module_base m = Ok base → base ≠ 0 →
  frida_initialize_from_string module_base (m +:+ String ":" (to_string offset)) = Ok (FridaData (u64 (base + offset)) m).
Proof.
  intros Ho Hb Hn. unfold frida_initialize_from_string. rewrite split_last_app by (apply split_last_no_colon; lia).
  destruct (to_string offset) as [|c s] eqn:Es; [by apply to_string_nonempty in Es|].
  rewrite <- Es, stoul_to_string by done. unfold resolve_function_addr_by_module_offset. rewrite Hb.
  by rewrite (proj2 (Z.eqb_neq base 0) Hn).
Qed.

(** The number of a tracepoint is read back from its text: the number and the side of the system call that the
    tracepoint's name has. *)
Lemma tracepoint_argument_roundtrip table sys_nrs stale tp_id call nr :
  - 2 ^ 31 ≤ tp_id < 2 ^ 31 → sys_nrs !! call = Some nr →
  (table !! tp_id = Some ("sys_enter_" +:+ call) →
     syscall_initialize_from_string table sys_nrs stale (to_string tp_id) = Ok (SyscallData nr true)) ∧
  (table !! tp_id = Some ("sys_exit_" +:+ call) →
     syscall_initialize_from_string table sys_nrs stale (to_string tp_id) = Ok (SyscallData nr false)).
Proof.
  intros Ht Hn. unfold syscall_initialize_from_string. rewrite stoi_to_string by done.
  split; intros ->; (rewrite !decide_False by done).
  - by rewrite strip_prefix_app, Hn.
  - rewrite strip_prefix_app. change (strip_prefix "sys_enter_" ("sys_exit_" +:+ call)) with (@None string). cbv beta iota. by rewrite Hn.
Qed.

(** The last round of the loop that reads the table adds an empty name, and replaces the name of the number that the
    variable happens to have. *)
Lemma syscall_id_table_last_round rows stale :
  (generate_syscall_id_table rows stale).1 !! EmptyString = Some stale ∧ (generate_syscall_id_table rows stale).2 !! stale = Some EmptyString.
Proof. unfold generate_syscall_id_table. rewrite foldl_app. cbn. split; apply lookup_insert_eq. Qed.
