(* ===== verification/FridaAttach.v ===== *)
(** * Attaching programs to functions

    The implementation of function probes on top of the Gum library (attach/frida_uprobe_attach_impl): the tables of
    attached callbacks, and what the functions do that Gum calls when a hooked function is entered or left. Whether Gum
    accepts a hook is a parameter. *)

From stdpp Require Import base numbers list gmap strings sorting.
From S2P Require Import Prelude.
From S2P Require Import SyscallTrace.

Abbreviation ATTACH_UPROBE := 6 (only parsing).
Abbreviation ATTACH_URETPROBE := 7 (only parsing).
Abbreviation ATTACH_UPROBE_OVERRIDE := 1008 (only parsing).
Abbreviation ATTACH_UREPLACE := 1009 (only parsing).
Abbreviation ATTACH_UPROBE_INDEX := 0 (only parsing).
Abbreviation ATTACH_URETPROBE_INDEX := 1 (only parsing).
Abbreviation ATTACH_UPROBE_OVERRIDE_INDEX := 2 (only parsing).

Definition from_cb_idx_to_attach_type (idx : Z) : Z :=
  if idx =? ATTACH_UPROBE_INDEX then ATTACH_UPROBE
  else if idx =? ATTACH_UPROBE_OVERRIDE_INDEX then ATTACH_UPROBE_OVERRIDE
  else if idx =? ATTACH_URETPROBE_INDEX then ATTACH_URETPROBE
  else -1.

(** How Gum has hooked a function: with a listener, with a replacement, or not at all. *)
Inductive gum_hook := Listener | Replacement | NoHook.

Section frida.
Context {CB W : Type}.

(** A callback of the user, by its index in the variant, or a program with its attach type. [set_retval] marks the
    wrapper that hands the program's result to [bpftime_set_retval]. *)
Inductive frida_attach_entry_callback :=
| UserCallback (idx : Z) (cb : CB)
| EbpfCallback (cb : CB) (attach_type : Z) (set_retval : bool).

Record frida_attach_entry := FridaAttachEntry { fe_self_id : Z; fe_callback : frida_attach_entry_callback; fe_function : Z }.

Definition callback_type (cb : frida_attach_entry_callback) : Z :=
  match cb with UserCallback idx _ => from_cb_idx_to_attach_type idx | EbpfCallback _ ty _ => ty end.
Definition get_type (e : frida_attach_entry) : Z := callback_type (fe_callback e).

(** A pointer to an entry is the id of the entry. *)
Record frida_internal_attach_entry := FridaInternalAttachEntry { fi_function : Z; fi_user_attaches : list Z; fi_hook : gum_hook }.

(** The entry of a function is under its address. *)
Record frida_attach_impl := FridaAttachImpl {
  fr_next_id : Z;
  fr_attaches : gmap Z frida_attach_entry;
  fr_internal_attaches : gmap Z frida_internal_attach_entry
}.
Implicit Types (i : frida_attach_impl) (e : frida_attach_entry) (w : W).

Definition frida_attach_impl_new : frida_attach_impl := FridaAttachImpl 1 ∅ ∅.

Definition frida_internal_attach_entry_create (function basic_attach_type : Z) : frida_internal_attach_entry :=
  FridaInternalAttachEntry function []
    (if (basic_attach_type =? ATTACH_UPROBE) || (basic_attach_type =? ATTACH_URETPROBE) then Listener
     else if basic_attach_type =? ATTACH_UPROBE_OVERRIDE then Replacement else NoHook).

(** The loop of [has_override]; [None] is an access to an entry that was destroyed. *)
Fixpoint has_type i (ty : Z) (user_attaches : list Z) : option bool :=
  match user_attaches with
  | [] => Some false
  | p :: l => e ← fr_attaches i !! p; if get_type e =? ty then Some true else has_type i ty l
  end.
Definition has_override i (f : frida_internal_attach_entry) : option bool := has_type i ATTACH_UPROBE_OVERRIDE (fi_user_attaches f).

(** [gum_ok] tells whether Gum accepts the hook of a function; the constructor throws when it does not. *)
Definition attach_at (gum_ok : Z → bool) (func_addr : Z) (cb : frida_attach_entry_callback) i : res Z * frida_attach_impl :=
  if func_addr =? 0 then (Raw (- errno_val EINVAL), i)
  else
    let add f :=
      let used_id := fr_next_id i in
      (Ok used_id,
       FridaAttachImpl (used_id + 1) (<[used_id := FridaAttachEntry used_id cb func_addr]> (fr_attaches i))
         (<[func_addr := FridaInternalAttachEntry (fi_function f) (fi_user_attaches f ++ [used_id]) (fi_hook f)]> (fr_internal_attaches i))) in
    match fr_internal_attaches i !! func_addr with
    | None =>
        let f := frida_internal_attach_entry_create func_addr (callback_type cb) in
        match fi_hook f with NoHook => add f | _ => if gum_ok func_addr then add f else (Throw, i) end
    | Some f =>
        match has_override i f with
        | None => (Fault, i)
        | Some true => (Raw (- errno_val EEXIST), i)
        | Some false => add f
        end
    end.

Definition create_uprobe_at gum_ok (func_addr : Z) (cb : CB) i := attach_at gum_ok func_addr (UserCallback ATTACH_UPROBE_INDEX cb) i.
Definition create_uretprobe_at gum_ok (func_addr : Z) (cb : CB) i := attach_at gum_ok func_addr (UserCallback ATTACH_URETPROBE_INDEX cb) i.
Definition create_uprobe_override_at gum_ok (func_addr : Z) (cb : CB) i :=
  attach_at gum_ok func_addr (UserCallback ATTACH_UPROBE_OVERRIDE_INDEX cb) i.

(** [loaded] tells whether the module is in the memory map of the process. *)
Definition frida_create_attach (gum_ok : Z → bool) (loaded : string → bool) (cb : CB) (private_data : attach_private_data) (attach_type : Z) i
  : res Z * frida_attach_impl :=
  match private_data with
  | FridaData addr module_name =>
      if negb (bool_decide (module_name = EmptyString)) && negb (loaded module_name) then (Raw (- errno_val EINVAL), i)
      else if (attach_type =? ATTACH_UPROBE) || (attach_type =? ATTACH_URETPROBE) || (attach_type =? ATTACH_UPROBE_OVERRIDE)
      then attach_at gum_ok addr (EbpfCallback cb attach_type false) i
      else if attach_type =? ATTACH_UREPLACE then attach_at gum_ok addr (EbpfCallback cb ATTACH_UPROBE_OVERRIDE true) i
      else (Raw (- errno_val ENOTSUP), i)
  | _ => (Raw (- errno_val EINVAL), i)
  end.

(** An id that is not there only sets [errno]. *)
Definition frida_detach_by_id (id : Z) i : res unit * frida_attach_impl :=
  match fr_attaches i !! id with
  | None => (Ok tt, i)
  | Some e =>
      match fr_internal_attaches i !! fe_function e with
      | None => (Fault, i)
      | Some f =>
          let user_attaches := filter (λ p, p ≠ id) (fi_user_attaches f) in
          (Ok tt, FridaAttachImpl (fr_next_id i) (delete id (fr_attaches i))
                    (match user_attaches with
                     | [] => delete (fi_function f) (fr_internal_attaches i)
                     | _ => <[fe_function e := FridaInternalAttachEntry (fi_function f) user_attaches (fi_hook f)]> (fr_internal_attaches i)
                     end))
      end
  end.

Definition detach_by_func_addr (func : Z) i : res unit * frida_attach_impl :=
  match fr_internal_attaches i !! func with
  | None => (Raw (- errno_val ENOENT), i)
  | Some f =>
      (Ok tt, FridaAttachImpl (fr_next_id i) (foldl (λ a id, delete id a) (fr_attaches i) (fi_user_attaches f))
                (delete func (fr_internal_attaches i)))
  end.

(** ** Hooked functions *)

Section hooks.
Variables (run : CB → list Z → W → cb_result W).

(** [run_callback]: the wrapper of a replaced function sets the return value when the program succeeds. *)
Definition run_callback e (regs : list Z) w : cb_result W :=
  match fe_callback e with
  | UserCallback _ cb => run cb regs w
  | EbpfCallback cb _ set_retval =>
      let r := run cb regs w in
      if set_retval && (0 <=? cr_err r) then CbResult (cr_err r) (cr_ret r) (cr_overrides r ++ [(0, cr_ret r)]) (cr_world r) else r
  end.

(** The loop over the callbacks of one type. [thread] is the function whose hook the thread's override callback belongs
    to: a program that sets the return value without one throws, and one that is destroyed is used after its end. *)
Fixpoint iterate_callbacks i (ty : Z) (thread : option Z) (user_attaches : list Z) (regs : list Z) w : res W :=
  match user_attaches with
  | [] => Ok w
  | p :: l =>
      match fr_attaches i !! p with
      | None => Fault
      | Some e =>
          if get_type e =? ty then
            let r := run_callback e regs w in
            match cr_overrides r, thread with
            | _ :: _, None => Throw
            | _ :: _, Some f =>
                if bool_decide (is_Some (fr_internal_attaches i !! f)) then iterate_callbacks i ty thread l regs (cr_world r) else Fault
            | [], _ => iterate_callbacks i ty thread l regs (cr_world r)
            end
          else iterate_callbacks i ty thread l regs w
      end
  end.

Definition uprobe_listener_on_enter i (f : frida_internal_attach_entry) (thread : option Z) (regs : list Z) w : res W :=
  iterate_callbacks i ATTACH_UPROBE thread (fi_user_attaches f) regs w.
Definition uprobe_listener_on_leave i (f : frida_internal_attach_entry) (thread : option Z) (regs : list Z) w : res W :=
  iterate_callbacks i ATTACH_URETPROBE thread (fi_user_attaches f) regs w.

Fixpoint run_filter_callback i (user_attaches : list Z) (regs : list Z) w : res (cb_result W) :=
  match user_attaches with
  | [] => Throw
  | p :: l =>
      match fr_attaches i !! p with
      | None => Fault
      | Some e => if get_type e =? ATTACH_UPROBE_OVERRIDE then Ok (run_callback e regs w) else run_filter_callback i l regs w
      end
  end.

(** The replacement of a function: [func] is the original one, and the thread's callback stays that of the hook. *)
Definition override_handler i (f : frida_internal_attach_entry) (func : W → Z * W) (regs : list Z) w : res (Z * W) :=
  match run_filter_callback i (fi_user_attaches f) regs w with
  | Ok r =>
      match override None (cr_overrides r) with
      | Some (_, user_ret) => Ok (user_ret, cr_world r)
      | None => Ok (func (cr_world r))
      end
  | Throw => Throw
  | _ => Fault
  end.
End hooks.

(** ** The tables agree *)

(** The ids of the entries at a function, in the order in which they were attached. *)
Definition ids_at i (addr : Z) : list Z := by_address (dom (filter (λ x, fe_function x.2 = addr) (fr_attaches i))).

Lemma elem_ids_at i addr id : id ∈ ids_at i addr ↔ ∃ e, fr_attaches i !! id = Some e ∧ fe_function e = addr.
Proof. unfold ids_at. rewrite elem_by_address, elem_of_dom. unfold is_Some. setoid_rewrite map_lookup_filter_Some. done. Qed.

(** The hook of a function with its entries: one override alone, or probes and perhaps an override behind them. *)
Definition hook_ok i (f : frida_internal_attach_entry) : Prop :=
  match fi_hook f with
  | Listener => True
  | Replacement => ∃ id e, fi_user_attaches f = [id] ∧ fr_attaches i !! id = Some e ∧ get_type e = ATTACH_UPROBE_OVERRIDE
  | NoHook => False
  end.

Record fr_wf i : Prop := {
  frw_next : 0 < fr_next_id i;
  frw_entry id e : fr_attaches i !! id = Some e → 0 < id < fr_next_id i ∧ fe_self_id e = id ∧ is_Some (fr_internal_attaches i !! fe_function e);
  frw_internal addr f : fr_internal_attaches i !! addr = Some f →
    fi_function f = addr ∧ fi_user_attaches f = ids_at i addr ∧ ids_at i addr ≠ [] ∧ hook_ok i f
}.

Lemma has_type_spec i ty l : (∀ p, p ∈ l → is_Some (fr_attaches i !! p)) →
  ∃ b, has_type i ty l = Some b ∧ (b = true ↔ ∃ p e, p ∈ l ∧ fr_attaches i !! p = Some e ∧ get_type e = ty).
Proof.
  induction l as [|p l IH]; intros Hl.
  { exists false. split; [done|]. split; [done|]. by intros (p&e&Hp%elem_of_nil&_). }
  destruct (Hl p ltac:(left)) as [e He]. cbn. rewrite He. cbn. destruct (Z.eqb_spec (get_type e) ty) as [Ht|Ht].
  { exists true. split; [done|]. split; [|done]. intros _. exists p, e. split; [left|done]. }
  destruct IH as (b&->&Hb); [intros q Hq; apply Hl; by right|]. exists b. split; [done|]. rewrite Hb. split.
  - intros (q&e'&Hq&H). exists q, e'. split; [by right|done].
  - intros (q&e'&[-> | Hq]%elem_of_cons&H1&H2); [congruence|]. by exists q, e'.
Qed.

(** A sorted list of ids grows at its end by a new id, and shrinks by a filter. *)
Lemma sorted_by_address l X : StronglySorted Z.lt l → (∀ p, p ∈ l ↔ p ∈ X) → l = by_address X.
Proof.
  intros Hs He. apply (Sorted_unique Z.le).
  - apply StronglySorted_Sorted. clear He. induction Hs as [|x l Hs IH Hf]; constructor; [done|]. eapply Forall_impl; [exact Hf|]. intros; cbn in *; lia.
  - apply StronglySorted_Sorted, Sorted_by_address.
  - apply NoDup_Permutation.
    + clear He. induction Hs as [|x l Hs IH Hf]; constructor; [|done]. intros Hx. rewrite Forall_forall in Hf. specialize (Hf x Hx). lia.
    + unfold by_address. rewrite merge_sort_Permutation. apply NoDup_elements.
    + intros p. rewrite elem_by_address. apply He.
Qed.
Lemma by_address_sorted X : StronglySorted Z.lt (by_address X).
Proof.
  pose proof (Sorted_by_address X) as Hs. assert (Hn : NoDup (by_address X)) by (unfold by_address; rewrite merge_sort_Permutation; apply NoDup_elements).
  induction Hs as [|x l Hs IH Hf]; [constructor|]. apply NoDup_cons in Hn as [Hx Hn]. constructor; [by apply IH|].
  rewrite Forall_forall in Hf |- *. intros y Hy. specialize (Hf y Hy). cbn in *. assert (x ≠ y) by (by intros ->). lia.
Qed.
Lemma StronglySorted_snoc l x : StronglySorted Z.lt l → (∀ y, y ∈ l → y < x) → StronglySorted Z.lt (l ++ [x]).
Proof.
  induction 1 as [|y l Hs IH Hf]; intros Hx; cbn; [repeat constructor|]. constructor; [apply IH; intros z Hz; apply Hx; by right|].
  apply Forall_app. split; [done|]. constructor; [apply Hx; left|constructor].
Qed.
Lemma StronglySorted_filter (l : list Z) (P : Z → Prop) `{!∀ x, Decision (P x)} : StronglySorted Z.lt l → StronglySorted Z.lt (filter P l).
Proof.
  induction 1 as [|y l Hs IH Hf]; [constructor|]. rewrite filter_cons. case_decide; [|done]. constructor; [done|].
  rewrite Forall_forall in Hf |- *. intros z [_ Hz]%list_elem_of_filter. by apply Hf.
Qed.

Definition with_entry i (addr : Z) (cb : frida_attach_entry_callback) (f : frida_internal_attach_entry) : frida_attach_impl :=
  FridaAttachImpl (fr_next_id i + 1) (<[fr_next_id i := FridaAttachEntry (fr_next_id i) cb addr]> (fr_attaches i))
    (<[addr := FridaInternalAttachEntry (fi_function f) (fi_user_attaches f ++ [fr_next_id i]) (fi_hook f)]> (fr_internal_attaches i)).

(** An entry is added to the function's, unless there is an override; the first one makes the hook. *)
Lemma attach_at_cases gum_ok addr cb i :
  fr_wf i →
  (∃ r, attach_at gum_ok addr cb i = (r, i) ∧ (r = Raw (- errno_val EINVAL) ∨ r = Throw ∨ r = Raw (- errno_val EEXIST) ∧
     ∃ id e, fr_attaches i !! id = Some e ∧ fe_function e = addr ∧ get_type e = ATTACH_UPROBE_OVERRIDE)) ∨
  (addr ≠ 0 ∧ ∃ f, attach_at gum_ok addr cb i = (Ok (fr_next_id i), with_entry i addr cb f) ∧
    (fr_internal_attaches i !! addr = None ∧ f = frida_internal_attach_entry_create addr (callback_type cb) ∨
     fr_internal_attaches i !! addr = Some f ∧ ∀ id e, fr_attaches i !! id = Some e → fe_function e = addr → get_type e ≠ ATTACH_UPROBE_OVERRIDE)).
Proof.
  intros Hw. unfold attach_at. destruct (Z.eqb_spec addr 0) as [|Ha]; [left; eexists; split; [done|by left]|].
  destruct (fr_internal_attaches i !! addr) as [f|] eqn:Hf.
  - destruct (frw_internal i Hw _ _ Hf) as (_&Hu&_). unfold has_override.
    destruct (has_type_spec i ATTACH_UPROBE_OVERRIDE (fi_user_attaches f)) as (b&->&Hb).
    { intros p. rewrite Hu, elem_ids_at. intros (e&He&_). by exists e. }
    destruct b.
    + left. eexists. split; [done|]. right. right. split; [done|]. destruct (proj1 Hb eq_refl) as (p&e&Hp&He&Ht).
      rewrite Hu, elem_ids_at in Hp. destruct Hp as (e'&He'&Hfn). rewrite He in He'. injection He' as <-. by exists p, e.
    + right. split; [done|]. exists f. split; [done|]. right. split; [done|]. intros id e He Hfn Ht.
      assert (false = true); [|done]. apply Hb. exists id, e. rewrite Hu, elem_ids_at. split; [by exists e|done].
  - set (f := frida_internal_attach_entry_create addr (callback_type cb)).
    destruct (match fi_hook f with NoHook => true | _ => gum_ok addr end) eqn:Eg.
    + right. split; [done|]. exists f. split; [|by left]. unfold with_entry. by destruct (fi_hook f); rewrite ?Eg.
    + left. exists Throw. split; [|by right; left]. by destruct (fi_hook f); rewrite ?Eg.
Qed.

Lemma ids_at_with_entry i addr cb f b :
  fr_wf i → ids_at (with_entry i addr cb f) b = ids_at i b ++ (if decide (b = addr) then [fr_next_id i] else []).
Proof.
  intros Hw. symmetry. apply sorted_by_address.
  - case_decide; [|rewrite app_nil_r; apply by_address_sorted]. apply StronglySorted_snoc; [apply by_address_sorted|].
    intros y (e&He&_)%elem_ids_at. pose proof (frw_entry i Hw _ _ He). lia.
  - intros p. rewrite elem_of_app, elem_ids_at, elem_of_dom. unfold is_Some. setoid_rewrite map_lookup_filter_Some. cbn [fr_attaches with_entry].
    split.
    + intros [(e&He&Hfn)|Hp].
      * exists e. split; [|done]. apply lookup_insert_Some. right. split; [|done]. pose proof (frw_entry i Hw _ _ He). lia.
      * case_decide as Hd; [|by apply elem_of_nil in Hp]. apply list_elem_of_singleton in Hp as ->. eexists. split; [apply lookup_insert_eq|by subst].
    + intros (e&[[<- <-]|[Hne He]]%lookup_insert_Some&Hfn); [right|left; by exists e]. cbn in Hfn. rewrite decide_True by done. left.
Qed.

Definition usual_type (ty : Z) : Prop := ty = ATTACH_UPROBE ∨ ty = ATTACH_URETPROBE ∨ ty = ATTACH_UPROBE_OVERRIDE.

Lemma attach_at_wf gum_ok addr cb i : fr_wf i → usual_type (callback_type cb) → fr_wf (attach_at gum_ok addr cb i).2.
Proof.
  intros Hw Hty. destruct (attach_at_cases gum_ok addr cb i Hw) as [(r&->&_)|(Ha&f&->&Hf)]; [done|]. cbn [snd]. pose proof (frw_next i Hw) as Hn.
  assert (Hnew : ∀ id e, fr_attaches i !! id = Some e → id ≠ fr_next_id i) by (intros id e He; pose proof (frw_entry i Hw _ _ He); lia).
  assert (Hff : fi_function f = addr ∧ fi_user_attaches f = ids_at i addr ∧ (fi_hook f = Listener ∨
    fi_hook f = Replacement ∧ fi_user_attaches f = [] ∧ callback_type cb = ATTACH_UPROBE_OVERRIDE)).
  { destruct Hf as [[Hnone ->]|[Hsome Hno]].
    - split; [done|]. split.
      + destruct (ids_at i addr) as [|p l] eqn:E; [done|]. assert (Hp : p ∈ ids_at i addr) by (rewrite E; left). apply elem_ids_at in Hp as (e&He&Hfn).
        destruct (frw_entry i Hw _ _ He) as (_&_&[x Hx]). rewrite Hfn in Hx. congruence.
      + unfold frida_internal_attach_entry_create. cbn. destruct Hty as [-> | [-> | ->]]; cbn; auto.
    - destruct (frw_internal i Hw _ _ Hsome) as (H1&H2&H3&H4). split; [done|]. split; [done|]. left. unfold hook_ok in H4. destruct (fi_hook f); [done| |done].
      destruct H4 as (id&e&Hu&He&Ht). exfalso. apply (Hno id e He); [|done].
      assert (Hin : id ∈ ids_at i addr) by (rewrite <- H2, Hu; left). apply elem_ids_at in Hin as (e'&He'&?). congruence. }
  destruct Hff as (Hfn&Hu&Hh). split; [cbn; lia| |].
  - intros id e. cbn [with_entry fr_attaches fr_internal_attaches fr_next_id]. rewrite lookup_insert_Some. intros [[<- <-]|[Hne He]].
    + split; [lia|]. split; [done|]. cbn. rewrite lookup_insert_eq. by eexists.
    + destruct (frw_entry i Hw _ _ He) as (H1&H2&[x Hx]). split; [lia|]. split; [done|]. destruct (decide (addr = fe_function e)) as [<-|];
        [rewrite lookup_insert_eq; by eexists|rewrite lookup_insert_ne by done; by exists x].
  - intros b g. rewrite ids_at_with_entry by done. cbn [with_entry fr_internal_attaches]. rewrite lookup_insert_Some. intros [[<- <-]|[Hne Hg]].
    + cbn [fi_function fi_user_attaches]. rewrite decide_True by done. split; [done|]. split; [by rewrite Hu|]. split; [by destruct (ids_at i addr)|].
      unfold hook_ok. cbn [fi_hook fi_user_attaches]. destruct Hh as [-> | (->&->&Ht)]; [done|]. exists (fr_next_id i), (FridaAttachEntry (fr_next_id i) cb addr).
      split; [done|]. split; [apply lookup_insert_eq|done].
    + rewrite decide_False by done. rewrite app_nil_r. destruct (frw_internal i Hw _ _ Hg) as (H1&H2&H3&H4). split; [done|]. split; [done|]. split; [done|].
      unfold hook_ok in *. destruct (fi_hook g); [done| |done]. destruct H4 as (id&e&?&He&?). exists id, e. split; [done|]. split; [|done].
      cbn. rewrite lookup_insert_ne; [done|]. intros <-. by apply (Hnew _ _ He).
Qed.

Lemma filter_all (l : list Z) (P : Z → Prop) `{!∀ x, Decision (P x)} : (∀ x, x ∈ l → P x) → filter P l = l.
Proof.
  induction l as [|x l IH]; intros Hl; [done|]. rewrite filter_cons_True by (apply Hl; left). f_equal. apply IH. intros y Hy. apply Hl. by right.
Qed.

(** The state without some ids of one function, whose other ids keep the hook. *)
Definition without i (ids : gset Z) (addr : Z) (hook : gum_hook) : frida_attach_impl :=
  FridaAttachImpl (fr_next_id i) (filter (λ x, x.1 ∉ ids) (fr_attaches i))
    (match filter (.∉ ids) (ids_at i addr) with
     | [] => delete addr (fr_internal_attaches i)
     | l => <[addr := FridaInternalAttachEntry addr l hook]> (fr_internal_attaches i)
     end).

Lemma ids_at_without i ids addr hook b :
  (∀ id, id ∈ ids → id ∈ ids_at i addr) → ids_at (without i ids addr hook) b = if decide (b = addr) then filter (.∉ ids) (ids_at i addr) else ids_at i b.
Proof.
  intros Hids. symmetry. apply sorted_by_address.
  - case_decide; [apply StronglySorted_filter|]; apply by_address_sorted.
  - intros p. rewrite elem_of_dom. unfold is_Some. setoid_rewrite map_lookup_filter_Some. cbn [fr_attaches without]. setoid_rewrite map_lookup_filter_Some.
    cbn [fst snd]. case_decide as Hd.
    + subst b. rewrite list_elem_of_filter, elem_ids_at. naive_solver.
    + rewrite elem_ids_at. split; [|naive_solver]. intros (e&He&Hfn). exists e. split; [|done]. split; [done|]. intros Hin.
      apply Hids, elem_ids_at in Hin as (e'&He'&?). congruence.
Qed.

Lemma without_wf i ids addr f :
  fr_wf i → fr_internal_attaches i !! addr = Some f → (∀ id, id ∈ ids → id ∈ ids_at i addr) → ids ≠ ∅ → fr_wf (without i ids addr (fi_hook f)).
Proof.
  intros Hw Hf Hids Hne. destruct (frw_internal i Hw _ _ Hf) as (Hfn&Hu&Hnil&Hh). split; [apply (frw_next i Hw)| |].
  - intros id e. cbn [without fr_attaches fr_next_id fr_internal_attaches]. rewrite map_lookup_filter_Some. cbn. intros [He Hin].
    destruct (frw_entry i Hw _ _ He) as (H1&H2&H3). split; [done|]. split; [done|]. destruct (decide (fe_function e = addr)) as [Heq|Hneq].
    + assert (Hx : id ∈ filter (.∉ ids) (ids_at i addr)) by (apply list_elem_of_filter; split; [done|]; apply elem_ids_at; by exists e).
      destruct (filter _ _); [by apply elem_of_nil in Hx|]. rewrite Heq, lookup_insert_eq. by eexists.
    + destruct (filter _ _); [rewrite lookup_delete_ne|rewrite lookup_insert_ne]; congruence.
  - intros b g Hg. rewrite ids_at_without by done. cbn [without fr_internal_attaches] in Hg. destruct (decide (b = addr)) as [-> | Hb].
    + destruct (filter (.∉ ids) (ids_at i addr)) as [|x l] eqn:El; [by rewrite lookup_delete_eq in Hg|]. rewrite lookup_insert_eq in Hg. injection Hg as <-.
      split; [done|]. split; [done|]. split; [done|]. unfold hook_ok in *. cbn [fi_hook fi_user_attaches]. destruct (fi_hook f); [done| |done].
      exfalso. destruct Hh as (id&e&Hl&_). apply set_choose_L in Hne as [y Hy]. rewrite <- Hu, Hl in Hids, El. specialize (Hids y Hy).
      apply list_elem_of_singleton in Hids as ->. assert (Hx : x ∈ filter (.∉ ids) [id]) by (rewrite El; left).
      apply list_elem_of_filter in Hx as [Hx ->%list_elem_of_singleton]. done.
    + assert (Hg' : fr_internal_attaches i !! b = Some g).
      { destruct (filter _ _); [by rewrite lookup_delete_ne in Hg|by rewrite lookup_insert_ne in Hg]. }
      destruct (frw_internal i Hw _ _ Hg') as (H1&H2&H3&H4). split; [done|]. split; [done|]. split; [done|]. unfold hook_ok in *. destruct (fi_hook g); [done| |done].
      destruct H4 as (id&e&Hl&He&Ht). exists id, e. split; [done|]. split; [|done]. cbn. apply map_lookup_filter_Some. split; [done|]. cbn. intros Hin.
      apply Hids, elem_ids_at in Hin as (e'&He'&Hfe). assert (Hin : id ∈ ids_at i b) by (rewrite <- H2, Hl; left). apply elem_ids_at in Hin as (e''&?&?). congruence.
Qed.

Lemma detach_id_without id e i :
  fr_wf i → fr_attaches i !! id = Some e →
  ∃ f, fr_internal_attaches i !! fe_function e = Some f ∧ frida_detach_by_id id i = (Ok tt, without i {[id]} (fe_function e) (fi_hook f)).
Proof.
  intros Hw He. unfold frida_detach_by_id. rewrite He. destruct (frw_entry i Hw _ _ He) as (_&_&[f Hf]). rewrite Hf. exists f. split; [done|].
  destruct (frw_internal i Hw _ _ Hf) as (Hfn&Hu&_). rewrite Hfn, Hu. do 2 f_equal. unfold without.
  replace (filter (.∉ {[id]}) (ids_at i (fe_function e))) with (filter (λ p, p ≠ id) (ids_at i (fe_function e))) by (apply list_filter_iff; set_solver).
  f_equal; [|by destruct (filter _ _)]. apply map_eq. intros p. apply option_eq. intros x. rewrite lookup_delete_Some, map_lookup_filter_Some. cbn. set_solver.
Qed.

Lemma detach_addr_without addr f i :
  fr_wf i → fr_internal_attaches i !! addr = Some f →
  detach_by_func_addr addr i = (Ok tt, without i (list_to_set (ids_at i addr)) addr (fi_hook f)).
Proof.
  intros Hw Hf. unfold detach_by_func_addr. rewrite Hf. destruct (frw_internal i Hw _ _ Hf) as (Hfn&Hu&_). rewrite Hu. do 2 f_equal. unfold without.
  assert (Hnil : filter (.∉ (list_to_set (ids_at i addr) : gset Z)) (ids_at i addr) = []).
  { destruct (filter _ _) as [|p l] eqn:E; [done|]. assert (Hp : p ∈ filter (.∉ (list_to_set (ids_at i addr) : gset Z)) (ids_at i addr)) by (rewrite E; left).
    apply list_elem_of_filter in Hp as [Hn Hp]. destruct Hn. by apply elem_of_list_to_set. }
  rewrite Hnil. f_equal. apply map_eq. intros p. generalize (ids_at i addr). intros l. apply option_eq. intros x. rewrite map_lookup_filter_Some. cbn.
  rewrite elem_of_list_to_set. revert x. generalize (fr_attaches i). induction l as [|q l IH]; intros m x; cbn; [set_solver|].
  rewrite IH, lookup_delete_Some. set_solver.
Qed.

(** Every state that is reached by attaching and detaching. *)
Inductive fr_reachable : frida_attach_impl → Prop :=
| frr_new : fr_reachable frida_attach_impl_new
| frr_attach i gum_ok addr cb : fr_reachable i → usual_type (callback_type cb) → fr_reachable (attach_at gum_ok addr cb i).2
| frr_detach i id : fr_reachable i → fr_reachable (frida_detach_by_id id i).2
| frr_detach_addr i addr : fr_reachable i → fr_reachable (detach_by_func_addr addr i).2.

Lemma fr_reachable_wf i : fr_reachable i → fr_wf i.
Proof.
  induction 1 as [|i gum_ok addr cb _ IH Ht|i id _ IH|i addr _ IH].
  - split; [done| |]; intros; cbn in *; simplify_map_eq.
  - by apply attach_at_wf.
  - destruct (fr_attaches i !! id) as [e|] eqn:He; [|unfold frida_detach_by_id; by rewrite He].
    destruct (detach_id_without id e i IH He) as (f&Hf&->). apply without_wf; [done..| |set_solver].
    intros p ->%elem_of_singleton. apply elem_ids_at. by exists e.
  - destruct (fr_internal_attaches i !! addr) as [f|] eqn:Hf; [|unfold detach_by_func_addr; by rewrite Hf].
    rewrite (detach_addr_without addr f i IH Hf). destruct (frw_internal i IH _ _ Hf) as (_&_&Hnil&_). apply without_wf; [done..| |].
    + intros p. by rewrite elem_of_list_to_set.
    + destruct (ids_at i addr) as [|x l]; [done|]. set_solver.
Qed.

(** The attach types that the attach context uses keep to the types of the tables. *)
Lemma frida_create_reachable i gum_ok loaded cb d ty : fr_reachable i → fr_reachable (frida_create_attach gum_ok loaded cb d ty i).2.
Proof.
  intros Hr. unfold frida_create_attach. destruct d as [|addr m|]; try done. destruct (_ && _); [done|].
  destruct (_ || _) eqn:E.
  - apply frr_attach; [done|]. cbn. unfold usual_type. apply orb_true_iff in E as [E | ->%Z.eqb_eq]; [|by right; right].
    apply orb_true_iff in E as [->%Z.eqb_eq | ->%Z.eqb_eq]; [by left|by right; left].
  - destruct (ty =? ATTACH_UREPLACE); [|done]. apply frr_attach; [done|]. by right; right.
Qed.

(** ** Calls of hooked functions *)

Section hook_props.
Variables (run : CB → list Z → W → cb_result W).

(** The entries at a function, in the order in which they were attached, and those of one type. *)
Definition entries_at i (addr : Z) : list frida_attach_entry := omap (λ id, fr_attaches i !! id) (ids_at i addr).
Definition probes i (ty addr : Z) : list frida_attach_entry := filter (λ e, get_type e = ty) (entries_at i addr).

(** The run of probes one after the other, and a call that a program replaces. *)
Definition run_probes (es : list frida_attach_entry) (regs : list Z) w : W := foldl (λ w e, cr_world (run_callback run e regs w)) w es.
Definition replaced_call e (func : W → Z * W) (regs : list Z) w : Z * W :=
  let r := run_callback run e regs w in
  match override None (cr_overrides r) with Some (_, v) => (v, cr_world r) | None => func (cr_world r) end.

(** An entry that never sets the return value. *)
Definition only_probes e : Prop := ∀ regs w, cr_overrides (run_callback run e regs w) = [].

Lemma iterate_probes i ty thread l regs w :
  (∀ p, p ∈ l → ∃ e, fr_attaches i !! p = Some e ∧ (get_type e = ty → only_probes e)) →
  iterate_callbacks run i ty thread l regs w = Ok (run_probes (filter (λ e, get_type e = ty) (omap (λ id, fr_attaches i !! id) l)) regs w).
Proof.
  revert w. induction l as [|p l IH]; intros w Hl; [done|]. destruct (Hl p ltac:(left)) as (e&He&Ho). cbn [iterate_callbacks]. rewrite He.
  assert (Hl' : ∀ q, q ∈ l → ∃ e, fr_attaches i !! q = Some e ∧ (get_type e = ty → only_probes e)) by (intros q Hq; apply Hl; by right).
  cbn [omap list_omap]. rewrite He, filter_cons. destruct (Z.eqb_spec (get_type e) ty) as [Ht|Ht].
  - rewrite (Ho Ht), decide_True by done. cbn. by apply IH.
  - rewrite decide_False by done. by apply IH.
Qed.

(** The handlers of a listener run the probes at the function. *)
Lemma listener_runs i addr f thread regs w :
  fr_wf i → fr_internal_attaches i !! addr = Some f →
  (∀ e, e ∈ probes i ATTACH_UPROBE addr ++ probes i ATTACH_URETPROBE addr → only_probes e) →
  uprobe_listener_on_enter run i f thread regs w = Ok (run_probes (probes i ATTACH_UPROBE addr) regs w) ∧
  uprobe_listener_on_leave run i f thread regs w = Ok (run_probes (probes i ATTACH_URETPROBE addr) regs w).
Proof.
  intros Hw Hf Ho. destruct (frw_internal i Hw _ _ Hf) as (_&Hu&_).
  assert (Hall : ∀ ty, ty = ATTACH_UPROBE ∨ ty = ATTACH_URETPROBE → iterate_callbacks run i ty thread (fi_user_attaches f) regs w = Ok (run_probes (probes i ty addr) regs w)).
  { intros ty Hty. rewrite Hu. apply iterate_probes. intros p Hp. pose proof Hp as (e&He&_)%elem_ids_at. exists e. split; [done|]. intros Ht. apply Ho.
    assert (Hin : e ∈ probes i ty addr) by (apply list_elem_of_filter; split; [done|]; apply list_elem_of_omap; by exists p).
    apply elem_of_app. destruct Hty as [-> | ->]; [by left|by right]. }
  split; apply Hall; auto.
Qed.

(** C11 (refinement). The handlers of a hooked function run what is attached to it, whatever was attached and
    detached before. A function without a hook has no entries. A listener runs, when the function is entered, the entry
    probes at it in the order in which they were attached, and when it is left the return probes, each once and with the
    registers of that moment, as long as no probe sets a return value. A replaced function has one entry, which
    overrides: it runs first, and its value replaces the call if it sets one, otherwise the original is called. *)
Theorem hook_handlers_refine i addr :
  fr_reachable i → (∀ e, e ∈ probes i ATTACH_UPROBE addr ++ probes i ATTACH_URETPROBE addr → only_probes e) →
  match fr_internal_attaches i !! addr with
  | None => entries_at i addr = []
  | Some f =>
      match fi_hook f with
      | Listener => ∀ thread regs w,
          uprobe_listener_on_enter run i f thread regs w = Ok (run_probes (probes i ATTACH_UPROBE addr) regs w) ∧
          uprobe_listener_on_leave run i f thread regs w = Ok (run_probes (probes i ATTACH_URETPROBE addr) regs w)
      | Replacement => ∃ e, entries_at i addr = [e] ∧ get_type e = ATTACH_UPROBE_OVERRIDE ∧
          ∀ func regs w, override_handler run i f func regs w = Ok (replaced_call e func regs w)
      | NoHook => False
      end
  end.
Proof.
  intros Hw%fr_reachable_wf Ho. destruct (fr_internal_attaches i !! addr) as [f|] eqn:Hf.
  - destruct (frw_internal i Hw _ _ Hf) as (Hfn&Hu&_&Hh). unfold hook_ok in Hh. destruct (fi_hook f); [by intros; apply listener_runs| |done].
    destruct Hh as (id&e&Hl&He&Ht). exists e. unfold entries_at. rewrite <- Hu, Hl. cbn. rewrite He. split; [done|]. split; [done|]. intros func regs w.
    unfold override_handler, replaced_call. rewrite Hl. cbn [run_filter_callback]. rewrite He, Ht. cbn [Z.eqb Pos.eqb].
    by destruct (override None _) as [[c v]|].
  - unfold entries_at. destruct (ids_at i addr) as [|p l] eqn:E; [done|]. assert (Hp : p ∈ ids_at i addr) by (rewrite E; left).
    apply elem_ids_at in Hp as (e&He&Hfn). destruct (frw_entry i Hw _ _ He) as (_&_&[x Hx]). congruence.
Qed.

Lemma attach_at_Ok gum_ok addr cb i id i1 :
  fr_wf i → attach_at gum_ok addr cb i = (Ok id, i1) → id = fr_next_id i ∧ ∃ f, i1 = with_entry i addr cb f ∧
    (∀ g, fr_internal_attaches i !! addr = Some g → f = g ∧ ∀ id e, fr_attaches i !! id = Some e → fe_function e = addr → get_type e ≠ ATTACH_UPROBE_OVERRIDE).
Proof.
  intros Hw E. destruct (attach_at_cases gum_ok addr cb i Hw) as [(r&Hr&Hc)|(_&f&Hr&Hf)]; rewrite E in Hr.
  - injection Hr as <- ->. destruct Hc as [Hc | [Hc | [Hc _]]]; done.
  - injection Hr as -> ->. split; [done|]. exists f. split; [done|]. intros g Hg. destruct Hf as [[Hf _]|[Hf Ho]]; [congruence|]. rewrite Hf in Hg. by injection Hg as ->.
Qed.

Lemma entries_with_entry i addr cb f b :
  fr_wf i → entries_at (with_entry i addr cb f) b = entries_at i b ++ (if decide (b = addr) then [FridaAttachEntry (fr_next_id i) cb addr] else []).
Proof.
  intros Hw. unfold entries_at. rewrite ids_at_with_entry, omap_app by done. f_equal.
  - apply list_omap_ext, Forall_Forall2_diag, Forall_forall. intros p (e&He&_)%elem_ids_at. cbn [with_entry fr_attaches].
    rewrite lookup_insert_ne; [done|]. pose proof (frw_entry i Hw _ _ He). lia.
  - case_decide; [|done]. cbn [omap list_omap with_entry fr_attaches]. by rewrite lookup_insert_eq.
Qed.

(** Attaching adds one entry behind those of its function, and to no other function; detaching by the id
    that was returned restores the entries of every function. *)
Theorem frida_attach_detach i gum_ok addr cb id i1 :
  fr_reachable i → attach_at gum_ok addr cb i = (Ok id, i1) →
  (∀ b, entries_at i1 b = entries_at i b ++ (if decide (b = addr) then [FridaAttachEntry id cb addr] else [])) ∧
  (usual_type (callback_type cb) → (frida_detach_by_id id i1).1 = Ok tt ∧ ∀ b, entries_at (frida_detach_by_id id i1).2 b = entries_at i b).
Proof.
  intros Hw%fr_reachable_wf E. pose proof (attach_at_wf gum_ok addr cb i Hw) as Hw1. rewrite E in Hw1. cbn [snd] in Hw1.
  destruct (attach_at_Ok _ _ _ _ _ _ Hw E) as (->&f&->&_). split; [by intros b; apply entries_with_entry|]. intros Hty. specialize (Hw1 Hty).
  set (i1 := with_entry i addr cb f) in *. set (e := FridaAttachEntry (fr_next_id i) cb addr).
  assert (He : fr_attaches i1 !! fr_next_id i = Some e) by apply lookup_insert_eq.
  assert (Hold : ∀ p b, p ∈ ids_at i b → p ∉ ({[fr_next_id i]} : gset Z)).
  { intros p b (x&Hx&_)%elem_ids_at ->%elem_of_singleton. pose proof (frw_entry i Hw _ _ Hx). lia. }
  destruct (detach_id_without _ _ _ Hw1 He) as (g&Hg&->). cbn [fst snd]. split; [done|]. intros b.
  assert (Hids : ids_at (without i1 {[fr_next_id i]} addr (fi_hook g)) b = ids_at i b).
  { rewrite ids_at_without by (intros p ->%elem_of_singleton; apply elem_ids_at; by exists e). unfold i1. rewrite !ids_at_with_entry by done. case_decide as Hd.
    - subst b. rewrite decide_True, filter_app by done. rewrite (filter_cons_False _ (fr_next_id i)) by set_solver. rewrite filter_nil, app_nil_r.
      apply filter_all. intros p Hp. by eapply Hold.
    - by rewrite app_nil_r. }
  unfold entries_at. change (fe_function e) with addr. rewrite Hids. apply list_omap_ext, Forall_Forall2_diag, Forall_forall. intros p Hp.
  pose proof (Hold p b Hp) as Hn. apply elem_ids_at in Hp as (x&Hx&_). rewrite Hx. cbn [without fr_attaches i1 with_entry]. apply map_lookup_filter_Some. split; [|done].
  rewrite lookup_insert_ne; [done|]. set_solver.
Qed.

(** A program that overrides and is attached to a function that has probes is accepted, but never runs: the
    function keeps its listener, whose handlers do what they did. It only keeps everything else from being attached. *)
Theorem override_behind_probe_never_runs i gum_ok addr f cb id i1 :
  fr_reachable i → fr_internal_attaches i !! addr = Some f → fi_hook f = Listener → callback_type cb = ATTACH_UPROBE_OVERRIDE →
  attach_at gum_ok addr cb i = (Ok id, i1) →
  (∀ e, e ∈ probes i ATTACH_UPROBE addr ++ probes i ATTACH_URETPROBE addr → only_probes e) →
  (∃ f1, fr_internal_attaches i1 !! addr = Some f1 ∧ fi_hook f1 = Listener ∧ ∀ thread regs w,
     uprobe_listener_on_enter run i1 f1 thread regs w = uprobe_listener_on_enter run i f thread regs w ∧
     uprobe_listener_on_leave run i1 f1 thread regs w = uprobe_listener_on_leave run i f thread regs w) ∧
  (∀ cb', attach_at gum_ok addr cb' i1 = (Raw (- errno_val EEXIST), i1)).
Proof.
  intros Hr Hf Hl Ht E Ho. pose proof (fr_reachable_wf i Hr) as Hw. assert (Hr1 : fr_reachable i1).
  { replace i1 with (attach_at gum_ok addr cb i).2 by by rewrite E. apply frr_attach; [done|]. by right; right. }
  pose proof (fr_reachable_wf i1 Hr1) as Hw1. destruct (attach_at_Ok _ _ _ _ _ _ Hw E) as (->&g&->&Hg). destruct (Hg f Hf) as [-> _]. clear Hg.
  set (i1 := with_entry i addr cb f) in *. set (f1 := FridaInternalAttachEntry (fi_function f) (fi_user_attaches f ++ [fr_next_id i]) (fi_hook f)).
  assert (Hf1 : fr_internal_attaches i1 !! addr = Some f1) by apply lookup_insert_eq.
  assert (Hp : ∀ ty, ty ≠ ATTACH_UPROBE_OVERRIDE → probes i1 ty addr = probes i ty addr).
  { intros ty Hty. unfold probes, i1. rewrite entries_with_entry, decide_True, filter_app by done. rewrite filter_cons_False by (unfold get_type; cbn; congruence). apply app_nil_r. }
  split.
  - exists f1. split; [done|]. split; [done|]. intros thread regs w. destruct (listener_runs i addr f thread regs w Hw Hf Ho) as [-> ->].
    destruct (listener_runs i1 addr f1 thread regs w Hw1 Hf1) as [-> ->]; [by rewrite !Hp|]. by rewrite !Hp.
  - intros cb'. destruct (attach_at_cases gum_ok addr cb i Hw) as [(r&Hr'&Hc)|(Ha&_)];
      [rewrite E in Hr'; injection Hr' as <- _; by destruct Hc as [Hc | [Hc | [Hc _]]]|].
    unfold attach_at. rewrite (proj2 (Z.eqb_neq addr 0) Ha), Hf1. unfold has_override.
    destruct (frw_internal i1 Hw1 _ _ Hf1) as (_&Hu&_). destruct (has_type_spec i1 ATTACH_UPROBE_OVERRIDE (fi_user_attaches f1)) as (b&->&Hb).
    { intros p. rewrite Hu, elem_ids_at. intros (e&He&_). by exists e. }
    rewrite (proj2 Hb); [done|]. exists (fr_next_id i), (FridaAttachEntry (fr_next_id i) cb addr). split; [|split; [apply lookup_insert_eq|done]].
    cbn [fi_user_attaches f1]. apply elem_of_app. right. left.
Qed.

End hook_props.
End frida.
Arguments frida_attach_entry_callback CB : clear implicits.
Arguments frida_attach_entry CB : clear implicits.
Arguments frida_attach_impl CB : clear implicits.

(** ** Examples *)

(** Probes 5 and 6 at the two ends of the function at 4096, then the program 7, which overrides. *)
Definition demo_probed : frida_attach_impl Z :=
  (attach_at (λ _, true) 4096 (EbpfCallback 6 ATTACH_URETPROBE false)
    (attach_at (λ _, true) 4096 (EbpfCallback 5 ATTACH_UPROBE false) frida_attach_impl_new).2).2.

Lemma demo_probed_reachable : fr_reachable demo_probed.
Proof. apply frr_attach; [apply frr_attach; [apply frr_new|by left]|by right; left]. Qed.
Lemma demo_only_probes e : e ∈ probes demo_probed ATTACH_UPROBE 4096 ++ probes demo_probed ATTACH_URETPROBE 4096 → only_probes demo_run e.
Proof.
  change (probes demo_probed ATTACH_UPROBE 4096 ++ probes demo_probed ATTACH_URETPROBE 4096) with
    [FridaAttachEntry 1 (EbpfCallback 5 ATTACH_UPROBE false) 4096; FridaAttachEntry 2 (EbpfCallback 6 ATTACH_URETPROBE false) 4096].
  intros [-> | [-> | []%elem_of_nil]%elem_of_cons]%elem_of_cons; by intros regs w.
Qed.

Lemma hook_handlers_refine_witness :
  let f := FridaInternalAttachEntry 4096 [1; 2] Listener in
  fr_internal_attaches demo_probed !! 4096 = Some f ∧
  uprobe_listener_on_enter demo_run demo_probed f None [] [] = Ok [5] ∧ uprobe_listener_on_leave demo_run demo_probed f None [] [5; -1] = Ok [5; -1; 6].
Proof.
  pose proof (hook_handlers_refine demo_run demo_probed 4096 demo_probed_reachable demo_only_probes) as H.
  split; [done|]. split; [exact (proj1 (H None [] []))|exact (proj2 (H None [] [5; -1]))].
Defined.

Lemma frida_attach_detach_witness :
  entries_at (frida_detach_by_id 3 (attach_at (λ _, true) 8192 (EbpfCallback 7 ATTACH_UPROBE_OVERRIDE true) demo_probed).2).2 8192 = [].
Proof.
  etransitivity; [apply (frida_attach_detach demo_probed (λ _, true) 8192 (EbpfCallback 7 ATTACH_UPROBE_OVERRIDE true) 3 _ demo_probed_reachable eq_refl); by right; right|].
  vm_compute. reflexivity.
Defined.

Lemma override_behind_probe_never_runs_witness :
  attach_at (λ _, true) 4096 (EbpfCallback 8 ATTACH_UPROBE false) (attach_at (λ _, true) 4096 (EbpfCallback 7 ATTACH_UPROBE_OVERRIDE false) demo_probed).2 =
    (Raw (- errno_val EEXIST), (attach_at (λ _, true) 4096 (EbpfCallback 7 ATTACH_UPROBE_OVERRIDE false) demo_probed).2).
Proof.
  apply (override_behind_probe_never_runs demo_run demo_probed (λ _, true) 4096 (FridaInternalAttachEntry 4096 [1; 2] Listener)
    (EbpfCallback 7 ATTACH_UPROBE_OVERRIDE false) 3 _ demo_probed_reachable eq_refl eq_refl eq_refl eq_refl demo_only_probes).
Defined.

(** The override callback of a thread stays after the call: a program that sets the return value in a probe then uses
    that of the function before, also when this one is detached and its entry destroyed. *)
Lemma stale_override_callback :
  let i := (attach_at (λ _, true) 8192 (EbpfCallback 7 ATTACH_UPROBE false) demo_probed).2 in
  let f := FridaInternalAttachEntry 8192 [3] Listener in
  fr_internal_attaches i !! 8192 = Some f ∧
  uprobe_listener_on_enter demo_run i f None [] [] = Throw ∧
  uprobe_listener_on_enter demo_run i f (Some 4096) [] [] = Ok [7] ∧
  uprobe_listener_on_enter demo_run (detach_by_func_addr 4096 i).2 f (Some 4096) [] [] = Fault.
Proof. vm_compute. done. Qed.

(** Detaching an id that is not there answers 0. *)
Lemma frida_detach_unknown {CB} (i : frida_attach_impl CB) id : fr_attaches i !! id = None → frida_detach_by_id id i = (Ok tt, i).
Proof. intros H. unfold frida_detach_by_id. by rewrite H. Qed.
