(* ===== verification/AttachImpl.v ===== *)
(** * The interface of attach implementations

    What the attach context uses of an implementation (attach/base_attach_impl/base_attach_impl.hpp), as a class with its
    laws, and the implementations that keep them: the system call tracer, the function probes, and the simple
    implementation (attach/simple_attach_impl), which holds one attach at a time. *)

From stdpp Require Import base numbers list gmap strings sorting.
From S2P Require Import Prelude.
From S2P Require Import SyscallTrace.
From S2P Require Import FridaAttach.

(** [ai_attached] is what an implementation has attached, by the ids it has returned. *)
Class AttachImpl (I CB : Type) := {
  ai_create : CB → attach_private_data → Z → I → res Z * I;
  ai_detach : Z → I → res unit * I;
  ai_attached : I → gmap Z CB
}.

(** A new attach gets an id that is free, a detached one is gone, and a failure changes nothing. *)
Class AttachImplLaws (I CB : Type) `{!AttachImpl I CB} := {
  ai_inv : I → Prop;
  ai_create_law i cb d ty : ai_inv i →
    let '(r, i') := ai_create cb d ty i in
    ai_inv i' ∧ r ≠ Fault ∧
    match r with
    | Ok id => 0 < id ∧ ai_attached i !! id = None ∧ ai_attached i' = <[id := cb]> (ai_attached i)
    | _ => ai_attached i' = ai_attached i
    end;
  ai_detach_law i id : ai_inv i →
    let '(r, i') := ai_detach id i in
    ai_inv i' ∧ r ≠ Fault ∧ r ≠ Throw ∧ ai_attached i' = delete id (ai_attached i) ∧ (is_Some (ai_attached i !! id) → r = Ok tt)
}.

(** ** The simple implementation *)

Section simple.
Context {CB : Type}.

Record simple_attach_impl := SimpleAttachImpl {
  si_next_id : Z;
  si_predefined_attach_type : Z;
  si_ebpf_callback : option CB;
  si_usable_id : Z;
  si_argument : string
}.
Implicit Types i : simple_attach_impl.

Definition simple_attach_impl_new (attach_type : Z) : simple_attach_impl := SimpleAttachImpl 1 attach_type None (-1) "".

(** [dynamic_cast] of a reference throws when the data is of another class. *)
Definition simple_create_attach (cb : CB) (private_data : attach_private_data) (attach_type : Z) i : res Z * simple_attach_impl :=
  if negb (si_usable_id i =? -1) then (Raw (-1), i)
  else if negb (attach_type =? si_predefined_attach_type i) then (Raw (-1), i)
  else
    match private_data with
    | SimpleData data =>
        let id := si_next_id i in (Ok id, SimpleAttachImpl (id + 1) (si_predefined_attach_type i) (Some cb) id data)
    | _ => (Throw, i)
    end.

Definition simple_detach_by_id (id : Z) i : res unit * simple_attach_impl :=
  if si_usable_id i =? -1 then (Raw (-1), i)
  else if negb (si_usable_id i =? id) then (Raw (-1), i)
  else (Ok tt, SimpleAttachImpl (si_next_id i) (si_predefined_attach_type i) (si_ebpf_callback i) (-1) (si_argument i)).

(** [callback] is the function of the user, which gets both arguments and the program. *)
Definition trigger {A} (callback : string → string → CB → res A) (trigger_argument : string) i : res A :=
  if si_usable_id i =? -1 then Raw 1
  else match si_ebpf_callback i with Some cb => callback (si_argument i) trigger_argument cb | None => Fault end.
End simple.
Arguments simple_attach_impl CB : clear implicits.

(** ** The implementations of the runtime *)

Inductive attach_impl (CB : Type) :=
| ISyscall (i : syscall_trace_attach_impl CB)
| IFrida (i : frida_attach_impl CB)
| ISimple (i : simple_attach_impl CB).
Arguments ISyscall {CB}.
Arguments IFrida {CB}.
Arguments ISimple {CB}.

Definition entry_cb {CB} (e : frida_attach_entry CB) : CB := match fe_callback e with UserCallback _ cb => cb | EbpfCallback cb _ _ => cb end.

Section impls.
Context {CB : Type}.
(** The address that the allocator gives to an entry of the tracer, whether Gum accepts a hook, and whether a module is
    loaded. *)
Variables (alloc : gmap Z (syscall_trace_attach_entry CB) → Z) (gum_ok : Z → bool) (loaded : string → bool).

Definition wrap {A I J} (f : I → J) (x : res A * I) : res A * J := (x.1, f x.2).

Definition create_attach_with_ebpf_callback (cb : CB) (d : attach_private_data) (ty : Z) (i : attach_impl CB) : res Z * attach_impl CB :=
  match i with
  | ISyscall i => wrap ISyscall (syscall_create_attach (alloc (sy_heap i)) cb d ty i)
  | IFrida i => wrap IFrida (frida_create_attach gum_ok loaded cb d ty i)
  | ISimple i => wrap ISimple (simple_create_attach cb d ty i)
  end.
Definition detach_by_id (id : Z) (i : attach_impl CB) : res unit * attach_impl CB :=
  match i with
  | ISyscall i => wrap ISyscall (syscall_detach_by_id id i)
  | IFrida i => wrap IFrida (frida_detach_by_id id i)
  | ISimple i => wrap ISimple (simple_detach_by_id id i)
  end.

Definition attached_cbs (i : attach_impl CB) : gmap Z CB :=
  match i with
  | ISyscall i => omap (λ p, se_cb <$> sy_heap i !! p) (sy_attach_entries i)
  | IFrida i => entry_cb <$> fr_attaches i
  | ISimple i => if si_usable_id i =? -1 then ∅ else match si_ebpf_callback i with Some cb => {[si_usable_id i := cb]} | None => ∅ end
  end.

#[export] Instance runtime_attach_impl : AttachImpl (attach_impl CB) CB :=
  { ai_create := create_attach_with_ebpf_callback; ai_detach := detach_by_id; ai_attached := attached_cbs }.

Definition impl_inv (i : attach_impl CB) : Prop :=
  match i with
  | ISyscall i => sy_wf i ∧ 0 < sy_next_id i
  | IFrida i => fr_reachable i
  | ISimple i => 0 < si_next_id i ∧ (si_usable_id i = -1 ∨ 0 < si_usable_id i < si_next_id i ∧ is_Some (si_ebpf_callback i))
  end.

Hypothesis alloc_fresh : ∀ h, h !! alloc h = None.

Lemma syscall_create_law (i : syscall_trace_attach_impl CB) cb d ty :
  impl_inv (ISyscall i) →
  let '(r, i') := create_attach_with_ebpf_callback cb d ty (ISyscall i) in
  impl_inv i' ∧ r ≠ Fault ∧
  match r with
  | Ok id => 0 < id ∧ attached_cbs (ISyscall i) !! id = None ∧ attached_cbs i' = <[id := cb]> (attached_cbs (ISyscall i))
  | _ => attached_cbs i' = attached_cbs (ISyscall i)
  end.
Proof.
  intros [Hw Hn]. cbn [create_attach_with_ebpf_callback]. destruct (syscall_create_wf (alloc (sy_heap i)) cb d ty i Hw (alloc_fresh _) Hn) as [Hw' Hn'].
  destruct (syscall_create_attach (alloc (sy_heap i)) cb d ty i) as [r i'] eqn:E. unfold wrap. cbn [fst snd] in *. split; [done|].
  destruct r as [id| | | |]; try by (unfold syscall_create_attach in E; repeat case_match; simplify_eq).
  destruct (create_Ok _ _ _ _ _ _ _ E) as (nr&b&->&->&Hnr&->&->). set (p := alloc (sy_heap i)).
  assert (Hid : sy_attach_entries i !! sy_next_id i = None).
  { destruct (sy_attach_entries i !! sy_next_id i) eqn:El; [|done]. pose proof (wf_ids i Hw _ _ El). lia. }
  split; [done|]. split; [done|]. cbn [attached_cbs]. split; [rewrite lookup_omap, Hid; done|].
  rewrite change_callbacks_heap, (proj1 (change_callbacks_entries _ _ _ _)). cbn [sy_heap sy_attach_entries set_entries].
  apply map_eq. intros id. rewrite lookup_omap. destruct (decide (id = sy_next_id i)) as [-> | Hne].
  - rewrite !lookup_insert_eq. cbn. by rewrite lookup_insert_eq.
  - rewrite !lookup_insert_ne, lookup_omap by done. destruct (sy_attach_entries i !! id) as [q|] eqn:Eq; [|done]. cbn.
    destruct (wf_owned i Hw _ _ Eq) as [x Hx]. rewrite lookup_insert_ne; [done|]. intros <-. unfold p in Hx. by rewrite alloc_fresh in Hx.
Qed.

Lemma syscall_detach_law (i : syscall_trace_attach_impl CB) id :
  impl_inv (ISyscall i) →
  let '(r, i') := detach_by_id id (ISyscall i) in
  impl_inv i' ∧ r ≠ Fault ∧ r ≠ Throw ∧ attached_cbs i' = delete id (attached_cbs (ISyscall i)) ∧ (is_Some (attached_cbs (ISyscall i) !! id) → r = Ok tt).
Proof.
  intros [Hw Hn]. cbn [detach_by_id]. destruct (detach_wf id i Hw Hn) as [Hw' Hn']. destruct (detach_safe id i Hw) as [Hok|He].
  - destruct (syscall_detach_by_id id i) as [r i'] eqn:E. unfold wrap. cbn [fst snd] in *. subst r. destruct (detach_Ok _ _ _ E) as (p&e&Hp&Hh&->).
    split; [done|]. split; [done|]. split; [done|]. split; [|done]. cbn [attached_cbs].
    rewrite change_callbacks_heap, (proj1 (change_callbacks_entries _ _ _ _)). cbn [sy_heap sy_attach_entries set_entries].
    apply map_eq. intros id'. rewrite lookup_omap. destruct (decide (id' = id)) as [-> | Hne].
    + by rewrite !lookup_delete_eq.
    + rewrite !lookup_delete_ne, lookup_omap by done. destruct (sy_attach_entries i !! id') as [q|] eqn:Eq; [|done]. cbn.
      rewrite lookup_delete_ne; [done|]. intros <-. apply Hne. by eapply (wf_inj i Hw).
  - rewrite He in *. unfold wrap. cbn [fst snd] in *. split; [done|]. split; [done|]. split; [done|].
    assert (Hnone : attached_cbs (ISyscall i) !! id = None).
    { cbn [attached_cbs]. rewrite lookup_omap. unfold syscall_detach_by_id in He. destruct (sy_attach_entries i !! id) as [p|]; [|done]. by destruct (sy_heap i !! p). }
    split; [by rewrite delete_id|]. rewrite Hnone. by intros [].
Qed.

Lemma attached_with_entry (i : frida_attach_impl CB) addr cb f :
  attached_cbs (IFrida (with_entry i addr cb f)) = <[fr_next_id i := entry_cb (FridaAttachEntry (fr_next_id i) cb addr)]> (attached_cbs (IFrida i)).
Proof. cbn. by rewrite fmap_insert. Qed.

Lemma frida_create_law (i : frida_attach_impl CB) cb d ty :
  impl_inv (IFrida i) →
  let '(r, i') := create_attach_with_ebpf_callback cb d ty (IFrida i) in
  impl_inv i' ∧ r ≠ Fault ∧
  match r with
  | Ok id => 0 < id ∧ attached_cbs (IFrida i) !! id = None ∧ attached_cbs i' = <[id := cb]> (attached_cbs (IFrida i))
  | _ => attached_cbs i' = attached_cbs (IFrida i)
  end.
Proof.
  intros Hr. cbn [create_attach_with_ebpf_callback]. pose proof (frida_create_reachable i gum_ok loaded cb d ty Hr) as Hr'.
  pose proof (fr_reachable_wf i Hr) as Hw. unfold wrap. destruct (frida_create_attach gum_ok loaded cb d ty i) as [r i'] eqn:E. cbn [fst snd] in *. split; [done|].
  assert (Hat : (r ≠ Fault ∧ (∀ id, r ≠ Ok id) ∧ i' = i) ∨ ∃ addr ty' b f, r = Ok (fr_next_id i) ∧ i' = with_entry i addr (EbpfCallback cb ty' b) f).
  { unfold frida_create_attach in E. destruct d as [|addr mn|]; try (injection E as <- <-; by left). destruct (_ && _); [injection E as <- <-; by left|].
    assert (Hc : ∀ ty' b, attach_at gum_ok addr (EbpfCallback cb ty' b) i = (r, i') → (r ≠ Fault ∧ (∀ id, r ≠ Ok id) ∧ i' = i) ∨
      ∃ addr ty' b f, r = Ok (fr_next_id i) ∧ i' = with_entry i addr (EbpfCallback cb ty' b) f).
    { intros ty' b Ea. destruct (attach_at_cases gum_ok addr (EbpfCallback cb ty' b) i Hw) as [(r'&Hr1&Hc)|(_&f&Hr1&_)]; rewrite Ea in Hr1; injection Hr1 as -> ->.
      - left. destruct Hc as [-> | [-> | [-> _]]]; done.
      - right. by exists addr, ty', b, f. }
    destruct (_ || _); [by eapply Hc|]. destruct (_ =? _); [by eapply Hc|]. injection E as <- <-. by left. }
  destruct Hat as [(Hf&Ho&->)|(addr&ty'&b&f&->&->)].
  - split; [done|]. destruct r; try done. by destruct (Ho a).
  - split; [done|]. pose proof (frw_next i Hw). split; [done|]. split; [|apply attached_with_entry]. cbn. rewrite lookup_fmap.
    destruct (fr_attaches i !! fr_next_id i) as [e|] eqn:Ee; [|done]. pose proof (frw_entry i Hw _ _ Ee). lia.
Qed.

Lemma frida_detach_law (i : frida_attach_impl CB) id :
  impl_inv (IFrida i) →
  let '(r, i') := detach_by_id id (IFrida i) in
  impl_inv i' ∧ r ≠ Fault ∧ r ≠ Throw ∧ attached_cbs i' = delete id (attached_cbs (IFrida i)) ∧ (is_Some (attached_cbs (IFrida i) !! id) → r = Ok tt).
Proof.
  intros Hr. cbn [detach_by_id]. pose proof (frr_detach i id Hr) as Hr'. pose proof (fr_reachable_wf i Hr) as Hw. unfold wrap. cbn [attached_cbs].
  destruct (fr_attaches i !! id) as [e|] eqn:He.
  - destruct (detach_id_without id e i Hw He) as (f&Hf&E). rewrite E in *. cbn [fst snd] in *. split; [done|]. split; [done|]. split; [done|]. split; [|done].
    apply map_eq. intros p. cbn [without fr_attaches]. rewrite lookup_fmap. destruct (decide (p = id)) as [-> | Hne].
    + rewrite lookup_delete_eq. destruct (filter _ _ !! id) as [x|] eqn:Ex; [|done]. apply map_lookup_filter_Some in Ex as [_ Hn]. cbn in Hn. set_solver.
    + rewrite lookup_delete_ne, lookup_fmap by done. f_equal. apply option_eq. intros x. rewrite map_lookup_filter_Some. cbn. set_solver.
  - rewrite frida_detach_unknown in * by done. cbn [fst snd] in *. split; [done|]. split; [done|]. split; [done|]. split; [|done].
    rewrite delete_id; [done|]. by rewrite lookup_fmap, He.
Qed.

Lemma simple_create_law (i : simple_attach_impl CB) cb d ty :
  impl_inv (ISimple i) →
  let '(r, i') := create_attach_with_ebpf_callback cb d ty (ISimple i) in
  impl_inv i' ∧ r ≠ Fault ∧
  match r with
  | Ok id => 0 < id ∧ attached_cbs (ISimple i) !! id = None ∧ attached_cbs i' = <[id := cb]> (attached_cbs (ISimple i))
  | _ => attached_cbs i' = attached_cbs (ISimple i)
  end.
Proof.
  intros [Hn Hu]. cbn [create_attach_with_ebpf_callback]. unfold simple_create_attach, wrap. destruct (Z.eqb_spec (si_usable_id i) (-1)) as [E|]; [|done].
  cbn [negb]. destruct (negb _); [done|]. destruct d as [| |data]; try done. cbn [fst snd impl_inv si_next_id si_usable_id si_ebpf_callback attached_cbs].
  rewrite E, (proj2 (Z.eqb_neq (si_next_id i) (-1))) by lia. split; [|done]. split; [lia|]. right. split; [lia|by eexists].
Qed.

Lemma simple_detach_law (i : simple_attach_impl CB) id :
  impl_inv (ISimple i) →
  let '(r, i') := detach_by_id id (ISimple i) in
  impl_inv i' ∧ r ≠ Fault ∧ r ≠ Throw ∧ attached_cbs i' = delete id (attached_cbs (ISimple i)) ∧ (is_Some (attached_cbs (ISimple i) !! id) → r = Ok tt).
Proof.
  intros [Hn Hu]. cbn [detach_by_id attached_cbs]. unfold simple_detach_by_id, wrap. destruct (Z.eqb_spec (si_usable_id i) (-1)) as [E|E].
  { cbn [fst snd attached_cbs]. rewrite E, delete_empty, lookup_empty. split; [by split; [|left]|]. repeat split; try done. }
  destruct Hu as [|[Hu [cb Hcb]]]; [done|]. rewrite Hcb. destruct (Z.eqb_spec (si_usable_id i) id) as [<-|Hne]; cbn [negb fst snd attached_cbs].
  - cbn. rewrite delete_singleton_eq. repeat split; try done. by left.
  - rewrite (proj2 (Z.eqb_neq _ _) E), Hcb, delete_singleton_ne, lookup_singleton_ne by done. split; [split; [done|right; split; [done|by exists cb]]|].
    repeat split; try done.
Qed.

#[export] Instance runtime_attach_laws : AttachImplLaws (attach_impl CB) CB.
Proof.
  refine {| ai_inv := impl_inv |}.
  - intros [i|i|i] cb d ty; [apply syscall_create_law|apply frida_create_law|apply simple_create_law].
  - intros [i|i|i] id; [apply syscall_detach_law|apply frida_detach_law|apply simple_detach_law].
Defined.
End impls.
