(* ===== verification/AttachCtx.v ===== *)
(** * The attach context

    The part of the agent that turns the handlers of the shared memory into loaded programs that are attached
    (runtime/src/attach/bpf_attach_ctx.cpp), on top of the interface of the attach implementations. *)

From stdpp Require Import base numbers list gmap strings sorting.
From S2P Require Import Prelude.
From S2P Require Import EbpfIsa.
From S2P Require Import UbpfVm.
From S2P Require Import UbpfCompat.
From S2P Require Import PerfEvent.
From S2P Require Import HandlerManager.
From S2P Require Import Shm.
From S2P Require Import HelperGroup.
From S2P Require Import SyscallTrace.
From S2P Require Import AttachArgs.
From S2P Require Import AttachImpl.

(** [agent_config], as far as the context uses it. *)
Record agent_config := AgentConfig {
  cf_jit_enabled : bool;
  cf_enable_kernel_helper_group : bool;
  cf_enable_ufunc_helper_group : bool;
  cf_enable_shm_maps_helper_group : bool
}.

(** The function that an implementation calls: it sets the cookie of the thread and runs the program of a handler. *)
Record ebpf_callback := EbpfRun { ec_prog : Z; ec_cookie : option Z }.

(** The argument of a perf event, as a string; [std::get] throws for data of another kind. *)
Definition perf_argument (e : bpf_perf_event_handler) : res string :=
  let kind t := pe_type e =? event_num t in
  if kind BPF_TYPE_UPROBE_OVERRIDE || kind BPF_TYPE_UPROBE || kind BPF_TYPE_URETPROBE || kind BPF_TYPE_UREPLACE then
    match pe_event e with DUprobe offset _ _ module_name => Ok (module_name +:+ ":" +:+ to_string offset) | _ => Throw end
  else if kind PERF_TYPE_TRACEPOINT then match pe_event e with DTracepoint _ id => Ok (to_string id) | _ => Throw end
  else if kind BPF_TYPE_KPROBE || kind BPF_TYPE_KRETPROBE then match pe_event e with DKprobe name _ _ => Ok name | _ => Throw end
  else match pe_event e with DCustom attach_argument => Ok attach_argument | _ => Throw end.

Section ctx.
Context {I : Type} `{!AttachImpl I ebpf_callback} {H W X Y J : Type} `{!MapHandlerOps H W}.
(** The functions of the runtime and the compiler, and what the allocator gives to the machine of a program. *)
Variables (impl : string → ext_func) (map_ptr_by_fd map_val : Z → Z) (ebpf_compile : bpftime_ubpf_vm → option J) (insts_mem : Z → option Z)
  (get_ufunc_helper_group : bpftime_helper_group).

Abbreviation prog := (bpftime_prog (J := J)).
Abbreviation manager := (handler_manager (H := H) (W := W) (P := bpf_prog_handler) (E := bpf_perf_event_handler) (X := X) (Y := Y)).

(** Implementations are named by their number in [attach_impl_holders]. The data of a perf event is a pointer. *)
Record bpf_attach_ctx := BpfAttachCtx {
  ac_helpers : gmap Z bpftime_helper_info;
  ac_instantiated_progs : gmap Z prog;
  ac_instantiated_attach_links : gmap Z (Z * nat);
  ac_instantiated_perf_events : gmap Z (option attach_private_data * Z);
  ac_attach_impls : gmap Z (nat * (string → res attach_private_data));
  ac_attach_impl_holders : list I;
  ac_instantiated_handlers : gset Z
}.
Implicit Types (c : bpf_attach_ctx) (m : manager).

Definition bpf_attach_ctx_new : bpf_attach_ctx := BpfAttachCtx ∅ ∅ ∅ ∅ ∅ [] ∅.

Definition set_progs c (p : gmap Z prog) : bpf_attach_ctx :=
  BpfAttachCtx (ac_helpers c) p (ac_instantiated_attach_links c) (ac_instantiated_perf_events c) (ac_attach_impls c) (ac_attach_impl_holders c)
    (ac_instantiated_handlers c).
Definition set_perf_events c (p : gmap Z (option attach_private_data * Z)) : bpf_attach_ctx :=
  BpfAttachCtx (ac_helpers c) (ac_instantiated_progs c) (ac_instantiated_attach_links c) p (ac_attach_impls c) (ac_attach_impl_holders c)
    (ac_instantiated_handlers c).
Definition set_links c (l : gmap Z (Z * nat)) (h : list I) : bpf_attach_ctx :=
  BpfAttachCtx (ac_helpers c) (ac_instantiated_progs c) l (ac_instantiated_perf_events c) (ac_attach_impls c) h (ac_instantiated_handlers c).
Definition add_instantiated c (id : Z) : bpf_attach_ctx :=
  BpfAttachCtx (ac_helpers c) (ac_instantiated_progs c) (ac_instantiated_attach_links c) (ac_instantiated_perf_events c) (ac_attach_impls c)
    (ac_attach_impl_holders c) ({[id]} ∪ ac_instantiated_handlers c).

(** [helpers] are those that the implementation registers. *)
Definition register_attach_impl (attach_types : list Z) (i : I) (helpers : list bpftime_helper_info)
    (private_data_creator : string → res attach_private_data) c : bpf_attach_ctx :=
  let n := length (ac_attach_impl_holders c) in
  BpfAttachCtx (foldl (λ h x, <[hi_index x := x]> h) (ac_helpers c) helpers) (ac_instantiated_progs c) (ac_instantiated_attach_links c)
    (ac_instantiated_perf_events c) (foldl (λ a ty, <[ty := (n, private_data_creator)]> a) (ac_attach_impls c) attach_types)
    (ac_attach_impl_holders c ++ [i]) (ac_instantiated_handlers c).

Definition get_attach_impl_by_attach_type (attach_type : Z) c : option nat := fst <$> ac_attach_impls c !! attach_type.

(** ** Instantiation *)

Definition load_prog_and_helpers (config : agent_config) (mem : option Z) (p : prog) : res unit * prog :=
  let add (b : bool) g p := if b then (add_helper_group_to_prog impl g p).2 else p in
  let p := add (cf_enable_kernel_helper_group config) get_kernel_utils_helper_group p in
  let p := add (cf_enable_ufunc_helper_group config) get_ufunc_helper_group p in
  let p := add (cf_enable_shm_maps_helper_group config) get_shm_maps_helper_group p in
  bpftime_prog_load ebpf_compile (cf_jit_enabled config) mem true p.

Definition instantiate_prog_handler_at (config : agent_config) (id : Z) (h : bpf_prog_handler) c : res unit * bpf_attach_ctx :=
  match load_prog_and_helpers config (insts_mem id) (bpftime_prog_create map_ptr_by_fd map_val (pr_insns h) (pr_name h)) with
  | (Ok _, p) =>
      let p := foldl (λ p x, (bpftime_prog_register_raw_helper impl p x.2).2) p (in_order (ac_helpers c)) in
      (Ok tt, add_instantiated (set_progs c (<[id := p]> (ac_instantiated_progs c))) id)
  | (r, p) => (r, set_progs c (<[id := p]> (ac_instantiated_progs c)))
  end.

Definition instantiate_perf_event_handler_at (id : Z) (e : bpf_perf_event_handler) c : res unit * bpf_attach_ctx :=
  if pe_type e =? event_num PERF_TYPE_SOFTWARE then (Ok tt, c)
  else
    match ac_attach_impls c !! pe_type e with
    | None => (Raw (- errno_val ENOENT), c)
    | Some (_, private_data_gen) =>
        match perf_argument e with
        | Ok arg_str =>
            match private_data_gen arg_str with
            | Ok d => (Ok tt, set_perf_events (add_instantiated c id) (<[id := (Some d, pe_type e)]> (ac_instantiated_perf_events c)))
            | Raw err => (Raw err, c)
            | Err e => (Err e, c)
            | Throw => (Throw, c)
            | Fault => (Fault, c)
            end
        | _ => (Throw, c)
        end
    end.

(** [operator[]] adds a null pointer and the type 0 for a perf event that is not there, [at] throws for a program. *)
Definition instantiate_bpf_link_handler_at (id : Z) (l : bpf_link_handler) c : res unit * bpf_attach_ctx :=
  let t := lk_attach_target_id l in
  let '(priv_data, attach_type) := match ac_instantiated_perf_events c !! t with Some x => x | None => (None, 0) end in
  let c := set_perf_events c (<[t := (priv_data, attach_type)]> (ac_instantiated_perf_events c)) in
  match ac_attach_impls c !! attach_type with
  | None => (Raw (- errno_val ENOTSUP), c)
  | Some (n, _) =>
      match ac_instantiated_progs c !! lk_prog_id l with
      | None => (Throw, c)
      | Some _ =>
          match priv_data, ac_attach_impl_holders c !! n with
          | Some d, Some i =>
              let '(r, i) := ai_create (EbpfRun (lk_prog_id l) (lk_attach_cookie l)) d attach_type i in
              let c := set_links c (ac_instantiated_attach_links c) (<[n := i]> (ac_attach_impl_holders c)) in
              match r with
              | Ok attach_id =>
                  if attach_id <? 0 then (Raw attach_id, c)
                  else (Ok tt, add_instantiated (set_links c (<[id := (attach_id, n)]> (ac_instantiated_attach_links c)) (ac_attach_impl_holders c)) id)
              | Raw err => (Raw err, c)
              | Err e => (Err e, c)
              | Throw => (Throw, c)
              | Fault => (Fault, c)
              end
          | _, _ => (Fault, c)
          end
      end
  end.

(** The recursion along links; [stk] has the handlers that are being instantiated. [None] is a lack of fuel. *)
Fixpoint instantiate_handler_at (fuel : nat) (config : agent_config) m (id : Z) (stk : gset Z) c : option (res unit * gset Z * bpf_attach_ctx) :=
  match fuel with
  | O => None
  | S fuel =>
      if bool_decide (id ∈ ac_instantiated_handlers c) then Some (Ok tt, stk, c)
      else if bool_decide (id ∈ stk) then Some (Raw (-1), stk, c)
      else
        let stk := {[id]} ∪ stk in
        let finish (x : res unit * bpf_attach_ctx) stk :=
          match x with (Ok _, c) => Some (Ok tt, stk ∖ {[id]}, c) | (r, c) => Some (r, stk, c) end in
        match get_handler m id with
        | Ok (HProg h) => finish (instantiate_prog_handler_at config id h c) stk
        | Ok (HPerfEvent e) => finish (instantiate_perf_event_handler_at id e c) stk
        | Ok (HLink l) =>
            match instantiate_handler_at fuel config m (lk_prog_id l) stk c with
            | Some (Ok _, stk, c) =>
                match instantiate_handler_at fuel config m (lk_attach_target_id l) stk c with
                | Some (Ok _, stk, c) => finish (instantiate_bpf_link_handler_at id l c) stk
                | x => x
                end
            | x => x
            end
        | Ok _ => finish (Ok tt, c) stk
        | _ => Some (Fault, stk, c)
        end
  end.

(** One pass over the table; a failure of one handler is not one of the pass, but an exception ends it. *)
Fixpoint instantiate_pass (config : agent_config) m (ids : list Z) c : option (res unit * bpf_attach_ctx) :=
  match ids with
  | [] => Some (Ok tt, c)
  | id :: ids =>
      if is_allocated m id then
        match instantiate_handler_at (S (length (handlers m))) config m id ∅ c with
        | None => None
        | Some (Throw, _, c) => Some (Throw, c)
        | Some (Fault, _, c) => Some (Fault, c)
        | Some (_, _, c) => instantiate_pass config m ids c
        end
      else instantiate_pass config m ids c
  end.

(** The second pass is for the links of GPU programs, and tries again what has failed. *)
Definition init_attach_ctx_from_handlers (config : agent_config) m c : option (res unit * bpf_attach_ctx) :=
  let ids := seqZ 0 (HandlerManager.size m) in
  match instantiate_pass config m ids c with
  | Some (Ok _, c) => instantiate_pass config m ids c
  | x => x
  end.

(** ** Detaching *)

Definition destroy_instantiated_attach_link (link_id : Z) c : res unit * bpf_attach_ctx :=
  match ac_instantiated_attach_links c !! link_id with
  | None => (Raw (- errno_val ENOENT), c)
  | Some (attach_id, n) =>
      match ac_attach_impl_holders c !! n with
      | None => (Fault, c)
      | Some i =>
          let '(r, i) := ai_detach attach_id i in
          let c := set_links c (ac_instantiated_attach_links c) (<[n := i]> (ac_attach_impl_holders c)) in
          match r with
          | Ok _ => (Ok tt, set_links c (delete link_id (ac_instantiated_attach_links c)) (ac_attach_impl_holders c))
          | r => (r, c)
          end
      end
  end.

Fixpoint destroy_links (to_detach : list Z) c : res unit * bpf_attach_ctx :=
  match to_detach with
  | [] => (Ok tt, c)
  | k :: l => match destroy_instantiated_attach_link k c with (Ok _, c) => destroy_links l c | x => x end
  end.
Definition destroy_all_attach_links c : res unit * bpf_attach_ctx := destroy_links (by_address (dom (ac_instantiated_attach_links c))) c.
End ctx.

(** ** Arguments of perf events *)

(** C28 (roundtrip). The argument that the attach context prints for a perf event is read back by the implementation that
    it is for. For the four kinds of function probes, when the module is loaded: the module, also one with colons in its
    name, and the address at the 64-bit offset in it. For a tracepoint of a system call in the tables: the number and the
    side of that system call. *)
Theorem perf_argument_roundtrip (e : bpf_perf_event_handler) :
  (∀ module_base base offset pid ref_ctr module_name,
    pe_type e ∈ event_num <$> [BPF_TYPE_UPROBE_OVERRIDE; BPF_TYPE_UPROBE; BPF_TYPE_URETPROBE; BPF_TYPE_UREPLACE] →
    pe_event e = DUprobe offset pid ref_ctr module_name → 0 ≤ offset < 2 ^ 64 → module_base module_name = Ok base → base ≠ 0 →
    ∃ a, perf_argument e = Ok a ∧ frida_initialize_from_string module_base a = Ok (FridaData (u64 (base + offset)) module_name)) ∧
  (∀ table sys_nrs stale pid id call nr (enter : bool),
    pe_type e = event_num PERF_TYPE_TRACEPOINT → pe_event e = DTracepoint pid id → - 2 ^ 31 ≤ id < 2 ^ 31 →
    table !! id = Some ((if enter then "sys_enter_" else "sys_exit_") +:+ call) → sys_nrs !! call = Some nr →
    ∃ a, perf_argument e = Ok a ∧ syscall_initialize_from_string table sys_nrs stale a = Ok (SyscallData nr enter)).
Proof.
  unfold perf_argument. split.
  - intros module_base base offset pid ref_ctr module_name Ht He Ho Hb Hn. rewrite He. eexists. split.
    + cbn [fmap list_fmap] in Ht. rewrite !elem_of_cons in Ht. by destruct Ht as [-> |[-> |[-> |[-> |Ht%elem_of_nil]]]].
    + by apply uprobe_argument_roundtrip.
  - intros table sys_nrs stale pid id call nr enter Ht He Hi Htab Hnr. rewrite Ht, He. eexists. split; [done|].
    destruct (tracepoint_argument_roundtrip table sys_nrs stale id call nr Hi Hnr). destruct enter; auto.
Qed.

Lemma perf_argument_roundtrip_witness :
  (∃ a, perf_argument (BpfPerfEventHandler (event_num BPF_TYPE_UPROBE) true (DUprobe 4660 (-1) 0 "/a:b")) = Ok a ∧
     frida_initialize_from_string (λ m, if decide (m = "/a:b"%string) then Ok 65536 else Ok 0) a = Ok (FridaData 70196 "/a:b")) ∧
  (∃ a, perf_argument (BpfPerfEventHandler (event_num PERF_TYPE_TRACEPOINT) true (DTracepoint (-1) 613)) = Ok a ∧
     syscall_initialize_from_string {[ 613 := "sys_exit_openat"%string ]} {[ "openat"%string := 257 ]} false a = Ok (SyscallData 257 false)).
Proof.
  split.
  - apply (proj1 (perf_argument_roundtrip _) _ 65536 4660 (-1) 0 "/a:b"%string); [set_solver|done|lia|by rewrite decide_True|lia].
  - by apply (proj2 (perf_argument_roundtrip _) _ _ false (-1) 613 "openat"%string 257 false).
Defined.
