(* ===== verification/AttachLoad.v ===== *)
(** * Loading the programs of the attach context

    When the load of a program has a defined result, and which helpers a program of the attach context can call. *)

From stdpp Require Import base numbers list gmap strings sorting.
From S2P Require Import Prelude.
From S2P Require Import EbpfIsa.
From S2P Require Import UbpfVm.
From S2P Require Import UbpfSafe.
From S2P Require Import UbpfRuns.
From S2P Require Import UbpfCompat.
From S2P Require Import Shm.
From S2P Require Import HelperGroup.
From S2P Require Import SyscallTrace.
From S2P Require Import AttachImpl.
From S2P Require Import AttachCtx.

(** ** Loads without undefined behaviour *)

Definition no_local_calls (code : list ebpf_inst) : Prop := Forall (λ c, i_opcode c = op_code EBPF_OP_CALL → i_src c ≠ 1) code.

Lemma patch_no_local v code : ∀ i out, no_local_calls code → patch_insns v i code = inr out → no_local_calls out.
Proof.
  induction code as [|c rest IH1 IH2] using insns_ind; intros i out Hn; cbn [patch_insns]; [by intros [= <-]|].
  apply Forall_cons in Hn as [Hc Hr].
  destruct (i_opcode c =? op_code EBPF_OP_CALL); [|destruct (i_opcode c =? op_code EBPF_OP_LDDW)].
  - destruct (call_imm v i c) as [|id]; [done|]. destruct (patch_insns v (i + 1) rest) eqn:Ep; [done|]. intros [= <-]. constructor; [exact Hc|by eapply IH1].
  - destruct rest as [|n rest]; [done|]. destruct (lddw_imm v i c n); [done|]. destruct (patch_insns v (i + 2) rest) eqn:Ep; [done|]. intros [= <-].
    apply Forall_cons in Hr as [Hn Hr]. constructor; [done|]. constructor; [exact Hn|by eapply IH2].
  - destruct (patch_insns v (i + 1) rest) eqn:Ep; [done|]. intros [= <-]. constructor; [exact Hc|by eapply IH1].
Qed.

(** A machine with its own dispatcher and without code. *)
Record empty_vm (vm : ubpf_vm) : Prop := {
  ev_insts : vm_insts vm = None;
  ev_dispatcher : is_Some (vm_dispatcher vm);
  ev_validator : is_Some (vm_dispatcher_validate vm)
}.

Lemma lookup_in {A} (l : list A) i : 0 ≤ i < zlen l → is_Some (l !! Z.to_nat i).
Proof. unfold zlen. intros. apply lookup_lt_is_Some. lia. Qed.

Lemma validate_inst_defined vm insts i inst :
  empty_vm vm → 0 ≤ i → (i_opcode inst = op_code EBPF_OP_CALL → i_src inst ≠ 1) →
  validate_inst vm insts i inst ≠ VUndef ∧ ∀ j, validate_inst vm insts i inst = VOk j → 0 ≤ j.
Proof.
  intros [_ [d Hd] [dv Hv]] Hi Hc. unfold validate_inst.
  assert (Hop : validate_op vm insts i inst ≠ VUndef ∧ ∀ n, validate_op vm insts i inst = VOk n → 1 ≤ n).
  { unfold validate_op. destruct (find_op ubpf_ops (i_opcode inst)) as [o|] eqn:Eo; [|done]. apply find_op_Some in Eo.
    destruct (_ || _); [split; [done|by intros n [= <-]]|]. destruct (is_jump_op o) eqn:Ej.
    { unfold validate_jump. destruct (_ =? _); [done|]. cbn zeta. destruct (_ || _) eqn:Eb; [done|]. bool_to_prop.
      destruct (lookup_in insts (i + 1 + i_offset inst)) as [t ->]; [lia|]. destruct (_ =? _); [done|]. split; [done|by intros n [= <-]]. }
    destruct o; try (split; [done|by intros n [= <-]]); try done.
    - destruct (_ && _); [done|]. split; [done|by intros n [= <-]].
    - destruct (_ && _); [done|]. split; [done|by intros n [= <-]].
    - destruct (negb _); [done|]. destruct (Z.leb_spec (zlen insts) (i + 1)); [done|]. destruct (lookup_in insts (i + 1)) as [t ->]; [lia|].
      destruct (negb _); [done|]. split; [done|by intros n [= <-]].
    - unfold validate_call. rewrite Hd, Hv. destruct (i_src inst =? 0).
      + destruct (_ || _); [done|]. destruct (validator_call _ _ _); [|done]. split; [done|by intros n [= <-]].
      + destruct (Z.eqb_spec (i_src inst) 1); [by destruct Hc|]. by destruct (_ =? _). }
  destruct Hop as [Hu Hn]. destruct (validate_op vm insts i inst) as [n| |]; [|done|done]. specialize (Hn n eq_refl). cbn zeta.
  destruct (_ <? _); [done|]. destruct (_ && _); [done|]. split; [done|]. intros j [= <-]. lia.
Qed.

Lemma validate_defined vm code : empty_vm vm → no_local_calls code → validate vm code ≠ VUndef.
Proof.
  intros Hvm Hn. unfold validate. destruct (_ <=? _); [done|]. generalize (length code) as fuel.
  assert (Hgo : ∀ fuel i, 0 ≤ i → validate_from fuel vm code i ≠ VUndef).
  { induction fuel as [|fuel IH]; intros i Hi; cbn [validate_from]; destruct (code !! Z.to_nat i) as [inst|] eqn:Ei; try done.
    destruct (validate_inst_defined vm code i inst Hvm Hi) as [Hu Hj].
    { exact (proj1 (Forall_lookup _ _) Hn _ _ Ei). }
    destruct (validate_inst vm code i inst) as [j| |]; try done. apply IH. by apply Hj. }
  intros fuel. by apply Hgo.
Qed.

(** A program without local calls is accepted or rejected, the load never faults. *)
Lemma load_code_defined v code insts_mem funcs_mem :
  empty_vm (bv_vm v) → no_local_calls code → (load_code v code (u32 (8 * zlen code)) insts_mem funcs_mem).1 ≠ Fault.
Proof.
  intros Hvm Hn. pose proof (zlen_nonneg code) as Hz. unfold load_code. destruct (negb _) eqn:Em; [done|].
  assert (Hle : u32 (8 * zlen code) / 8 ≤ zlen code).
  { apply Z.div_le_upper_bound; [lia|]. unfold u32. apply Z.mod_le; lia. }
  rewrite (proj2 (Z.ltb_ge _ _) Hle). set (code' := take _ code).
  assert (Hn' : no_local_calls code') by by apply Forall_take.
  destruct (patch_insns v 0 code') as [|out] eqn:Ep; [done|]. apply (patch_no_local _ _ _ _ Hn') in Ep as Ho. clear Ep.
  unfold ubpf_load. rewrite (ev_insts _ Hvm), Z.mul_comm, Z.mod_mul, Z.div_mul by lia. cbn [Z.eqb negb]. rewrite Z.ltb_irrefl, !(take_ge out) by (unfold zlen; lia).
  pose proof (validate_defined _ _ Hvm Ho) as Hd. destruct (validate (bv_vm v) out) as [[]|e|] eqn:Ev; [|done|done].
  destruct insts_mem as [base|]; [|done]. destruct funcs_mem; cbn [negb]; [|done].
  pose proof (load_valid_result (bv_vm v) out base (ev_insts _ Hvm) Ev) as Hl. unfold ubpf_load in Hl.
  rewrite (ev_insts _ Hvm), Z.mul_comm, Z.mod_mul, Z.div_mul in Hl by lia. cbn [Z.eqb negb] in Hl. rewrite Z.ltb_irrefl, !(take_ge out), Ev in Hl by (unfold zlen; lia).
  destruct (load_insts _ _ _ _ _ _) as [[ws fs]|]; [done|]. destruct Hl as [Hl _]. intros _. cut (Fault = Ok tt); [done|]. apply Hl.
  intros k inst Hk Hop Hs. apply (proj1 (Forall_lookup _ _)) with (i := k) (x := inst) in Ho; [|done]. by destruct Ho.
Qed.

(** ** The programs of the context *)

Lemma register_all_empty fns : ∀ v, empty_vm (bv_vm v) → empty_vm (bv_vm (register_all v fns)).
Proof.
  induction fns as [|[[i nm] f] fns IH]; intros v Hv; [done|]. unfold register_all in *. cbn [foldl]. apply IH.
  unfold register_external_function, ubpf_register. destruct (_ <=? _); [exact Hv|]. cbn [snd bv_vm]. destruct Hv. by split.
Qed.
Lemma register_all_ids fns : ∀ v i, is_Some (bv_helper_id_map (register_all v fns) !! i) → is_Some (bv_helper_id_map v !! i) ∨ i ∈ (fns.*1).*1.
Proof.
  induction fns as [|[[j nm] f] fns IH]; intros v i Hi; [by left|]. unfold register_all in *. cbn [foldl] in Hi. cbn [fmap list_fmap fst].
  apply IH in Hi as [Hi|Hi]; [|right; by apply elem_of_cons; right]. unfold register_external_function in Hi.
  destruct (ubpf_register _ _ _ _) as [r vm]. cbn [snd bv_helper_id_map] in Hi. destruct (decide (i = j)) as [-> | Hne]; [right; by apply elem_of_cons; left|].
  rewrite lookup_insert_ne in Hi by done. by left.
Qed.

Section load.
Context {I : Type} `{!AttachImpl I ebpf_callback} {J : Type}.
Variables (impl : string → ext_func) (map_ptr_by_fd map_val : Z → Z) (ebpf_compile : bpftime_ubpf_vm → option J) (insts_mem : Z → option Z)
  (ufunc_group : bpftime_helper_group) (config : agent_config).

Abbreviation inst_prog := (instantiate_prog_handler_at (I := I) impl map_ptr_by_fd map_val ebpf_compile insts_mem ufunc_group config).

(** The groups of helpers that the configuration enables. *)
Definition config_groups : list bpftime_helper_group :=
  (if cf_enable_kernel_helper_group config then [get_kernel_utils_helper_group] else []) ++
  (if cf_enable_ufunc_helper_group config then [ufunc_group] else []) ++
  (if cf_enable_shm_maps_helper_group config then [get_shm_maps_helper_group] else []).

Lemma load_groups mem (p : bpftime_prog (J := J)) :
  ∃ p', load_prog_and_helpers impl ebpf_compile ufunc_group config mem p = bpftime_prog_load ebpf_compile (cf_jit_enabled config) mem true p' ∧
    pg_vm p' = register_all (pg_vm p) (config_groups ≫= prog_fns impl) ∧ pg_insns p' = pg_insns p.
Proof.
  unfold load_prog_and_helpers, config_groups. eexists. split; [done|].
  assert (Hadd : ∀ (b : bool) g (q : bpftime_prog (J := J)), let q' := if b then (add_helper_group_to_prog impl g q).2 else q in
    pg_vm q' = register_all (pg_vm q) ((if b then [g] else []) ≫= prog_fns impl) ∧ pg_insns q' = pg_insns q).
  { intros [] g q; [|done]. cbn zeta. destruct (add_group_fields impl g q) as (H1&H2&_). cbn zeta in H1, H2. rewrite H1, H2. cbn. by rewrite app_nil_r. }
  rewrite !bind_app. unfold register_all. rewrite !foldl_app. repeat (rewrite (proj1 (Hadd _ _ _)), (proj2 (Hadd _ _ _)) || rewrite (proj2 (Hadd _ _ _))). done.
Qed.

Lemma prog_load_result jit mem (p : bpftime_prog (J := J)) r :
  (∀ u, r ≠ Ok u) → (load_code (pg_vm p) (pg_insns p) (u32 (8 * zlen (pg_insns p))) mem true).1 = r →
  (bpftime_prog_load ebpf_compile jit mem true p).1 = r.
Proof.
  intros Hr. unfold bpftime_prog_load. destruct (load_code _ _ _ _ _) as [r' vm]. cbn [fst]. intros ->. destruct r as [u| | | |]; try done. by destruct (Hr u).
Qed.

Lemma inst_prog_defined id h c : no_local_calls (pr_insns h) → (inst_prog id h c).1 ≠ Fault.
Proof.
  intros Hn. unfold instantiate_prog_handler_at. destruct (load_groups (insts_mem id) (bpftime_prog_create map_ptr_by_fd map_val (pr_insns h) (pr_name h))) as (p'&->&Hvm&Hins).
  pose proof (load_code_defined (pg_vm p') (pg_insns p') (insts_mem id) true) as Hd. rewrite Hvm in Hd. rewrite Hins in Hd. cbn [bpftime_prog_create pg_insns] in Hd.
  specialize (Hd ltac:(apply register_all_empty; split; [done|by eexists|by eexists]) Hn). unfold bpftime_prog_load. rewrite Hvm, Hins. cbn [bpftime_prog_create pg_insns].
  destruct (load_code _ _ _ _ _) as [[] vm]; try done. destruct (cf_jit_enabled config); [|done]. by destruct (ebpf_compile vm).
Qed.

(** The helpers of attach implementations are registered with a program after it was loaded, and the load
    resolves every call: a program that calls a helper which is in no group of the configuration is rejected with EINVAL
    whatever helpers the implementations have brought to the context, and is not instantiated. *)
Theorem attach_helpers_too_late id h c k ci :
  8 * zlen (pr_insns h) < 2 ^ 32 → is_boundary (pr_insns h) k = true → pr_insns h !! k = Some ci → i_opcode ci = op_code EBPF_OP_CALL →
  Forall (λ g, Forall (λ e, hi_index e.2 ≠ u64 (i_imm ci)) (in_order g)) config_groups →
  let '(r, c') := inst_prog id h c in
  r = Raw (- errno_val EINVAL) ∧ ac_instantiated_handlers c' = ac_instantiated_handlers c.
Proof.
  intros Hlen Hb Hk Ho Hg. unfold instantiate_prog_handler_at.
  destruct (load_groups (insts_mem id) (bpftime_prog_create map_ptr_by_fd map_val (pr_insns h) (pr_name h))) as (p'&->&Hvm&Hins).
  set (code := pr_insns h) in *. pose proof (zlen_nonneg code) as Hz.
  assert (Hr : (bpftime_prog_load ebpf_compile (cf_jit_enabled config) (insts_mem id) true p').1 = Raw (- errno_val EINVAL)).
  { apply prog_load_result; [done|]. rewrite Hvm, Hins. cbn [bpftime_prog_create pg_insns]. fold code. rewrite u32_small by lia. unfold load_code.
    rewrite Z.mul_comm, Z.mod_mul, Z.div_mul, Z.ltb_irrefl, take_ge by (unfold zlen; lia). cbn [Z.eqb negb]. destruct (patch_insns _ 0 code) as [e|out] eqn:Ep; [done|].
    destruct (patch_insns_at _ _ _ _ Ep) as [_ Hat]. specialize (Hat k ci Hb Hk). unfold patched in Hat. rewrite Ho, Z.eqb_refl in Hat.
    destruct Hat as (x&Hid&_). unfold call_imm in Hid. destruct (bv_helper_id_map _ !! _) as [y|] eqn:Em; [|by destruct (64 <=? _)].
    destruct (register_all_ids (config_groups ≫= prog_fns impl) (pg_vm (bpftime_prog_create (J := J) map_ptr_by_fd map_val code (pr_name h))) (u64 (i_imm ci))) as [[? Hn]|Hin];
      [rewrite Em; by eexists|done|].
    rewrite !list_elem_of_fmap in Hin. destruct Hin as ([i nm]&Hi&Hin). apply list_elem_of_fmap in Hin as ([[i' nm'] f]&[= -> ->]&Hin). cbn in Hi. subst i'.
    apply list_elem_of_bind in Hin as (g&Hf&Hgin). apply list_elem_of_fmap in Hf as (e&[= Hi _ _]&He).
    rewrite Forall_forall in Hg. specialize (Hg g Hgin). rewrite Forall_forall in Hg. by destruct (Hg e He). }
  destruct (bpftime_prog_load _ _ _ _ p') as [r p'']. cbn [fst] in Hr. by subst r.
Qed.
End load.

(** The helpers of the probes of functions. *)
Definition register_custom_helpers : list bpftime_helper_info :=
  [HelperInfo 183 "bpf_get_func_arg" "bpftime_get_func_arg"; HelperInfo 184 "bpf_get_func_ret_id" "bpftime_get_func_ret";
   HelperInfo 186 "bpf_get_retval" "bpftime_get_retval"].

Definition demo_config : agent_config := AgentConfig false true true true.
Definition arg_handler : bpf_prog_handler := BpfProgHandler [mk EBPF_OP_CALL 0 0 0 183; mk EBPF_OP_EXIT 0 0 0 0] [] "arg".
Definition arg_ctx : bpf_attach_ctx (I := attach_impl ebpf_callback) (J := unit) :=
  register_attach_impl [6] (ISimple (simple_attach_impl_new 6)) register_custom_helpers (λ s, Ok (SimpleData s)) bpf_attach_ctx_new.

Lemma attach_helpers_too_late_witness :
  is_Some (ac_helpers arg_ctx !! 183) ∧
  let '(r, c') := instantiate_prog_handler_at (λ _ _ m, (0, m)) (λ fd, fd) (λ m, m) (λ _, None) (λ _, Some 4096) ∅ demo_config 3 arg_handler arg_ctx in
  r = Raw (- errno_val EINVAL) ∧ ac_instantiated_handlers c' = ac_instantiated_handlers arg_ctx.
Proof.
  split; [by eexists|]. apply (attach_helpers_too_late (λ _ _ m, (0, m)) (λ fd, fd) (λ m, m) (λ _, None) (λ _, Some 4096) ∅ demo_config 3 arg_handler arg_ctx 0 (mk EBPF_OP_CALL 0 0 0 183));
    [vm_compute; done|done|done|done|].
  unfold config_groups. cbn [demo_config cf_enable_kernel_helper_group cf_enable_ufunc_helper_group cf_enable_shm_maps_helper_group app].
  apply Forall_cons. split; [vm_compute; repeat (constructor; [done|]); constructor|].
  apply Forall_cons. split; [vm_compute; constructor|].
  apply Forall_cons. split; [vm_compute; repeat (constructor; [done|]); constructor|constructor].
Defined.
