(* ===== verification/AttachProps.v ===== *)
(** * Properties of the attach context

    Instantiating the handlers of a table ends, does not fault, and attaches every link whose ends can be instantiated;
    what is attached always runs a loaded program, and detaching leaves nothing behind. *)

From stdpp Require Import base numbers list gmap strings sorting.
From S2P Require Import Prelude.
From S2P Require Import EbpfIsa.
From S2P Require Import UbpfVm.
From S2P Require Import UbpfSafe.
From S2P Require Import UbpfCompat.
From S2P Require Import MapHandler.
From S2P Require Import PerfEvent.
From S2P Require Import HandlerManager.
From S2P Require Import Shm.
From S2P Require Import HelperGroup.
From S2P Require Import SyscallTrace.
From S2P Require Import AttachArgs.
From S2P Require Import FridaAttach.
From S2P Require Import AttachImpl.
From S2P Require Import AttachCtx.
From S2P Require Import AttachLoad.

(** The machine holds a program that was validated. *)
Definition holds_valid (vm : ubpf_vm) : Prop :=
  ∃ vm0 code base, validate vm0 code = VOk tt ∧ vm_insts vm = Some (base, encode vm0 base <$> code) ∧ vm_num_insts vm = zlen code.
(** A program that [bpftime_prog_exec] can run: the compiled function that it calls is set, or the machine of the
    interpreter holds a program that was validated. *)
Definition runnable {J} (p : bpftime_prog (J := J)) : Prop :=
  match pg_jitted p with Some true => is_Some (pg_fn p) | Some false => holds_valid (bv_vm (pg_vm p)) | None => False end.

Section props.
Context {I : Type} `{!AttachImpl I ebpf_callback, !AttachImplLaws I ebpf_callback} {H W X Y J : Type} `{!MapHandlerOps H W}.
Variables (impl : string → ext_func) (map_ptr_by_fd map_val : Z → Z) (ebpf_compile : bpftime_ubpf_vm → option J) (insts_mem : Z → option Z)
  (ufunc_group : bpftime_helper_group) (config : agent_config).

Abbreviation ctx := (bpf_attach_ctx (I := I) (J := J)).
Abbreviation manager := (handler_manager (H := H) (W := W) (P := bpf_prog_handler) (E := bpf_perf_event_handler) (X := X) (Y := Y)).
Abbreviation inst_prog := (instantiate_prog_handler_at (I := I) impl map_ptr_by_fd map_val ebpf_compile insts_mem ufunc_group config).
Abbreviation inst := (instantiate_handler_at (I := I) impl map_ptr_by_fd map_val ebpf_compile insts_mem ufunc_group).
Abbreviation pass := (instantiate_pass (I := I) impl map_ptr_by_fd map_val ebpf_compile insts_mem ufunc_group config).
Abbreviation init := (init_attach_ctx_from_handlers (I := I) impl map_ptr_by_fd map_val ebpf_compile insts_mem ufunc_group config).
Implicit Types (c : ctx) (m : manager).

(** ** The invariant *)

(** [cb] is attached under the id [aid] of the [n]th implementation. *)
Definition attached_at c (n : nat) (aid : Z) (cb : ebpf_callback) : Prop :=
  ∃ i, ac_attach_impl_holders c !! n = Some i ∧ ai_attached i !! aid = Some cb.

Record ctx_ok m c : Prop := {
  co_inv n i : ac_attach_impl_holders c !! n = Some i → ai_inv i;
  co_impl ty n g : ac_attach_impls c !! ty = Some (n, g) → is_Some (ac_attach_impl_holders c !! n);
  co_link l aid n : ac_instantiated_attach_links c !! l = Some (aid, n) → ∃ cb, attached_at c n aid cb;
  co_inj l l' x : ac_instantiated_attach_links c !! l = Some x → ac_instantiated_attach_links c !! l' = Some x → l = l';
  co_owner n aid cb : attached_at c n aid cb → (∃ l, ac_instantiated_attach_links c !! l = Some (aid, n)) ∧
    ec_prog cb ∈ ac_instantiated_handlers c ∧ is_Some (ac_instantiated_progs c !! ec_prog cb);
  co_prog id p : ac_instantiated_progs c !! id = Some p →
    (∃ h, get_handler m id = Ok (HProg h)) ∧ (id ∈ ac_instantiated_handlers c → runnable p);
  co_prog_done id h : id ∈ ac_instantiated_handlers c → get_handler m id = Ok (HProg h) → is_Some (ac_instantiated_progs c !! id);
  co_perf id e : id ∈ ac_instantiated_handlers c → get_handler m id = Ok (HPerfEvent e) →
    ∃ n g a d, ac_attach_impls c !! pe_type e = Some (n, g) ∧ perf_argument e = Ok a ∧ g a = Ok d ∧
      ac_instantiated_perf_events c !! id = Some (Some d, pe_type e);
  co_perf_some id d ty : ac_instantiated_perf_events c !! id = Some (Some d, ty) → ∃ e, get_handler m id = Ok (HPerfEvent e) ∧ ty = pe_type e;
  co_perf_null id d ty : ac_instantiated_perf_events c !! id = Some (d, ty) → d = None → ty = 0;
  co_link_unique l x : ac_instantiated_attach_links c !! l = Some x → l ∈ ac_instantiated_handlers c
}.

(** An attach changes the state of an implementation, also when it fails. *)
Definition create_step (i i' : I) : Prop := ∃ cb d ty, (ai_create cb d ty i).2 = i'.

(** What instantiation keeps. *)
Record ctx_le c c' : Prop := {
  le_impls : ac_attach_impls c' = ac_attach_impls c;
  le_helpers : ac_helpers c' = ac_helpers c;
  le_handlers : ac_instantiated_handlers c ⊆ ac_instantiated_handlers c';
  le_links l x : ac_instantiated_attach_links c !! l = Some x → ac_instantiated_attach_links c' !! l = Some x;
  le_attached n aid cb : attached_at c n aid cb → attached_at c' n aid cb;
  le_holders n i : ac_attach_impl_holders c !! n = Some i → ∃ i', ac_attach_impl_holders c' !! n = Some i' ∧ rtc create_step i i'
}.
Lemma same_holders c c' n i : ac_attach_impl_holders c' = ac_attach_impl_holders c → ac_attach_impl_holders c !! n = Some i →
  ∃ i', ac_attach_impl_holders c' !! n = Some i' ∧ rtc create_step i i'.
Proof. intros -> Hi. exists i. by split. Qed.
#[local] Instance ctx_le_preorder : PreOrder ctx_le.
Proof.
  split; [split; try done; intros; by eapply same_holders|]. intros c1 c2 c3 [H1 H2 H3 H4 H5 H6] [K1 K2 K3 K4 K5 K6].
  split; [by rewrite K1|by rewrite K2|by etransitivity|auto|auto|]. intros n i Hi. destruct (H6 n i Hi) as (i2&Hi2&R1). destruct (K6 n i2 Hi2) as (i3&Hi3&R2).
  exists i3. split; [done|]. by etransitivity.
Qed.

(** Every link that was instantiated is attached, with its program and its cookie, to the implementation of its target. *)
Definition link_attached m c (id : Z) (l : bpf_link_handler) : Prop :=
  ∃ aid n, ac_instantiated_attach_links c !! id = Some (aid, n) ∧ attached_at c n aid (EbpfRun (lk_prog_id l) (lk_attach_cookie l)) ∧
    ∀ e, get_handler m (lk_attach_target_id l) = Ok (HPerfEvent e) → ∃ g, ac_attach_impls c !! pe_type e = Some (n, g).
Definition linked m c : Prop := ∀ id l, id ∈ ac_instantiated_handlers c → get_handler m id = Ok (HLink l) → link_attached m c id l.

Lemma link_attached_le m c c' id l : ctx_le c c' → link_attached m c id l → link_attached m c' id l.
Proof.
  intros Hle (aid&n&H1&H2&H3). exists aid, n. split; [by apply (le_links c c' Hle)|]. split; [by apply (le_attached c c' Hle)|].
  intros e He. rewrite (le_impls c c' Hle). by apply H3.
Qed.

(** A step that only touches other parts of the context. *)
Lemma attached_at_same c c' n aid cb : ac_attach_impl_holders c' = ac_attach_impl_holders c → attached_at c' n aid cb ↔ attached_at c n aid cb.
Proof. unfold attached_at. by intros ->. Qed.

Lemma load_code_valid v insns len mem fm v' : load_code v insns len mem fm = (Ok tt, v') → holds_valid (bv_vm v').
Proof.
  unfold load_code. destruct (negb _); [done|]. destruct (_ <? _); [done|]. destruct (patch_insns _ _ _) as [|code]; [done|].
  destruct (ubpf_load _ _ _ _ _) as [[r e] vm] eqn:El. intros [= -> <-]. destruct mem as [base|].
  - apply ubpf_load_inv in El as [Hv [fs ->]]. by exists (bv_vm v), code, base.
  - exfalso. revert El. unfold ubpf_load. destruct (vm_insts _); [done|]. destruct (negb _); [done|]. destruct (_ <? _); [done|].
    by destruct (validate _ _) as [[]| |].
Qed.
Lemma load_runnable mem (p : bpftime_prog (J := J)) p' :
  load_prog_and_helpers impl ebpf_compile ufunc_group config mem p = (Ok tt, p') → runnable p'.
Proof.
  destruct (load_groups impl ebpf_compile ufunc_group config mem p) as (q&->&_). unfold bpftime_prog_load.
  destruct (load_code _ _ _ _ _) as [[[]| | | |] vm] eqn:El; try done.
  destruct (cf_jit_enabled config); [|intros [= <-]; by eapply load_code_valid]. destruct (ebpf_compile vm) as [f|]; [|done]. intros [= <-]. by exists f.
Qed.
Lemma register_runnable (l : list (Z * bpftime_helper_info)) (p : bpftime_prog (J := J)) :
  runnable p → runnable (foldl (λ p x, (bpftime_prog_register_raw_helper impl p x.2).2) p l).
Proof.
  revert p. induction l as [|x l IH]; intros p Hp; [done|]. cbn [foldl]. apply IH. unfold bpftime_prog_register_raw_helper.
  unfold register_external_function, ubpf_register. unfold runnable in *. by destruct (_ <=? _).
Qed.

(** ** Programs *)

Lemma inst_prog_cases id h c :
  ∃ p r c', inst_prog id h c = (r, c') ∧
    (r = Ok tt ∧ runnable p ∧ c' = add_instantiated (set_progs c (<[id := p]> (ac_instantiated_progs c))) id ∨
     (∀ u, r ≠ Ok u) ∧ c' = set_progs c (<[id := p]> (ac_instantiated_progs c))).
Proof.
  unfold instantiate_prog_handler_at. destruct (load_prog_and_helpers _ _ _ _ _ _) as [r p] eqn:E. destruct r as [[]| | | |].
  - eexists _, _, _. split; [done|]. left. split; [done|]. split; [|done]. by eapply register_runnable, load_runnable.
  - exists p. eexists _, _. split; [done|]. by right.
  - exists p. eexists _, _. split; [done|]. by right.
  - exists p. eexists _, _. split; [done|]. by right.
  - exists p. eexists _, _. split; [done|]. by right.
Qed.

(** The programs change at one handler that is not instantiated yet. *)
Lemma set_prog_ok m c id h p :
  ctx_ok m c → get_handler m id = Ok (HProg h) → id ∉ ac_instantiated_handlers c → ctx_ok m (set_progs c (<[id := p]> (ac_instantiated_progs c))).
Proof.
  intros Hc Hh Hn. split; try (cbn; apply Hc).
  - intros n aid cb Ha. destruct (co_owner m c Hc n aid cb Ha) as (H1&H2&H3). split; [done|]. split; [done|]. cbn.
    rewrite lookup_insert_ne; [done|]. by intros ->.
  - cbn. intros id' p'. rewrite lookup_insert_Some. intros [[<- <-]|[Hne Hp]]; [split; [by exists h|done]|by apply (co_prog m c Hc)].
  - cbn. intros id' h' Hin Hh'. destruct (co_prog_done m c Hc id' h' Hin Hh') as [p' Hp]. exists p'. rewrite lookup_insert_ne; [done|]. by intros ->.
Qed.

Lemma add_prog_ok m c id h p :
  ctx_ok m c → get_handler m id = Ok (HProg h) → ac_instantiated_progs c !! id = Some p → runnable p → ctx_ok m (add_instantiated c id).
Proof.
  intros Hc Hh Hp Hr. split; try (cbn; apply Hc).
  - intros n aid cb Ha. destruct (co_owner m c Hc n aid cb Ha) as (H1&H2&H3). split; [done|]. split; [cbn; set_solver|done].
  - cbn. intros id' p' Hp'. destruct (co_prog m c Hc _ _ Hp') as [H1 H2]. split; [done|]. intros [->%elem_of_singleton|Hin]%elem_of_union; [congruence|by apply H2].
  - cbn. intros id' h' [->%elem_of_singleton|Hin]%elem_of_union Hh'; [by exists p|by eapply (co_prog_done m c Hc)].
  - cbn. intros id' e [->%elem_of_singleton|Hin]%elem_of_union He; [congruence|by apply (co_perf m c Hc)].
  - cbn. intros l x Hl. apply elem_of_union. right. by eapply (co_link_unique m c Hc).
Qed.

Lemma add_instantiated_le c id : ctx_le c (add_instantiated c id).
Proof. split; try done; [cbn; set_solver|]. intros. by eapply same_holders. Qed.
Lemma set_progs_le c p : ctx_le c (set_progs c p).
Proof. split; try done. intros. by eapply same_holders. Qed.
Lemma set_perf_events_le c p : ctx_le c (set_perf_events c p).
Proof. split; try done. intros. by eapply same_holders. Qed.

(** A handler that is not a link becomes instantiated: the links stay attached. *)
Lemma linked_le m c c' :
  ctx_le c c' → (∀ id l, id ∈ ac_instantiated_handlers c' → id ∉ ac_instantiated_handlers c → get_handler m id = Ok (HLink l) → link_attached m c' id l) →
  linked m c → linked m c'.
Proof.
  intros Hle Hnew Hl id l Hin Hh. destruct (decide (id ∈ ac_instantiated_handlers c)) as [Hi|Hi]; [|by apply Hnew].
  eapply link_attached_le; [done|]. by apply Hl.
Qed.
Lemma linked_add m c id h : (∀ l, h ≠ HLink l) → get_handler m id = Ok h → linked m c → linked m (add_instantiated c id).
Proof.
  intros Hh Hg. apply linked_le; [apply add_instantiated_le|]. cbn. intros id' l [->%elem_of_singleton|]%elem_of_union Hn Hl; [|done].
  rewrite Hg in Hl. injection Hl as ->. by destruct (Hh l).
Qed.

(** What an instantiation of a handler that answers 0 has done. *)
Definition done_at m c (id : Z) : Prop :=
  match get_handler m id with
  | Ok (HProg _) | Ok (HLink _) => id ∈ ac_instantiated_handlers c
  | Ok (HPerfEvent e) => pe_type e = event_num PERF_TYPE_SOFTWARE ∨ id ∈ ac_instantiated_handlers c
  | _ => True
  end.
Lemma done_at_le m c c' id : ctx_le c c' → done_at m c id → done_at m c' id.
Proof.
  intros Hle. pose proof (le_handlers c c' Hle) as Hs. unfold done_at. destruct (get_handler m id) as [[]| | | |]; try done; try apply Hs.
  intros [|Hin]; [by left|right; by apply Hs].
Qed.

Definition good m c c' : Prop := ctx_ok m c' ∧ ctx_le c c' ∧ (linked m c → linked m c').
Lemma good_refl m c : ctx_ok m c → good m c c.
Proof. by intros Hc. Qed.
Lemma good_trans m c c' c'' : good m c c' → good m c' c'' → good m c c''.
Proof. intros (H1&H2&H3) (K1&K2&K3). split; [done|]. split; [by etransitivity|auto]. Qed.

Lemma inst_prog_good m id h c r c' :
  ctx_ok m c → get_handler m id = Ok (HProg h) → id ∉ ac_instantiated_handlers c → inst_prog id h c = (r, c') →
  good m c c' ∧ (r = Ok tt → done_at m c' id).
Proof.
  intros Hc Hh Hn E. destruct (inst_prog_cases id h c) as (p&r'&c1&E'&Hcase). rewrite E in E'. injection E' as <- <-.
  pose proof (set_prog_ok m c id h p Hc Hh Hn) as Hs. destruct Hcase as [(->&Hr&->)|(Hne&->)].
  - split; [split; [|split]|].
    + eapply add_prog_ok; [done|done|cbn; apply lookup_insert_eq|done].
    + etransitivity; [apply set_progs_le|apply add_instantiated_le].
    + intros Hl. eapply linked_add; [|done|exact Hl]. done.
    + intros _. unfold done_at. rewrite Hh. cbn. set_solver.
  - split; [split; [done|split; [apply set_progs_le|done]]|]. intros ->. by destruct (Hne tt).
Qed.

(** ** Perf events *)

Lemma inst_perf_good m id e c r c' :
  ctx_ok m c → get_handler m id = Ok (HPerfEvent e) → instantiate_perf_event_handler_at id e c = (r, c') →
  good m c c' ∧ (r = Ok tt → done_at m c' id).
Proof.
  intros Hc Hh. unfold instantiate_perf_event_handler_at, done_at. rewrite Hh. destruct (Z.eqb_spec (pe_type e) (event_num PERF_TYPE_SOFTWARE)) as [Hs|Hs].
  { intros [= <- <-]. split; [by apply good_refl|]. intros _. by left. }
  destruct (ac_attach_impls c !! pe_type e) as [[n g]|] eqn:Hi; [|intros [= <- <-]; split; [by apply good_refl|done]].
  destruct (perf_argument e) as [a| | | |] eqn:Ha; try (intros [= <- <-]; split; [by apply good_refl|done]).
  destruct (g a) as [d| | | |] eqn:Hd; intros [= <- <-]; try (split; [by apply good_refl|done]).
  split; [|intros _; right; cbn; set_solver]. split; [|split].
  - split; try (cbn; apply Hc).
    + intros n' aid cb Hat. destruct (co_owner m c Hc n' aid cb Hat) as (H1&H2&H3). split; [done|]. split; [cbn; set_solver|done].
    + cbn. intros id' p' Hp'. destruct (co_prog m c Hc _ _ Hp') as [[h' H1] H2]. split; [by exists h'|]. intros [->%elem_of_singleton|Hin]%elem_of_union; [congruence|by apply H2].
    + cbn. intros id' h' [->%elem_of_singleton|Hin]%elem_of_union Hh'; [congruence|by eapply (co_prog_done m c Hc)].
    + cbn. intros id' e' Hin He'. destruct (decide (id' = id)) as [-> | Hne].
      * rewrite Hh in He'. injection He' as <-. exists n, g, a, d. by rewrite lookup_insert_eq.
      * rewrite lookup_insert_ne by done. apply (co_perf m c Hc); [|done]. set_solver.
    + cbn. intros id' d' ty. rewrite lookup_insert_Some. intros [[<- [= <- <-]]|[_ Hp]]; [by exists e|by apply (co_perf_some m c Hc id' d')].
    + cbn. intros id' d' ty. rewrite lookup_insert_Some. intros [[<- [= <- <-]]|[_ Hp]]; [done|by apply (co_perf_null m c Hc id')].
    + cbn. intros l x Hl. apply elem_of_union. right. by eapply (co_link_unique m c Hc).
  - etransitivity; [apply add_instantiated_le|apply set_perf_events_le].
  - intros Hl. apply (linked_add m c id (HPerfEvent e)) in Hl; [exact Hl|done|done].
Qed.

(** ** Links *)

Lemma touch_perf_ok m c t x :
  ctx_ok m c → (match ac_instantiated_perf_events c !! t with Some x => x | None => (None, 0) end) = x →
  ctx_ok m (set_perf_events c (<[t := x]> (ac_instantiated_perf_events c))).
Proof.
  intros Hc Hx. split; try (cbn; apply Hc).
  - cbn. intros id e Hin He. destruct (co_perf m c Hc id e Hin He) as (n&g&a&d&H1&H2&H3&H4). exists n, g, a, d. split; [done|]. split; [done|]. split; [done|].
    destruct (decide (t = id)) as [<-|]; [|by rewrite lookup_insert_ne]. rewrite lookup_insert_eq, <- Hx. by rewrite H4.
  - cbn. intros id d ty. rewrite lookup_insert_Some. intros [[<- ->]|[_ Hp]]; [|by apply (co_perf_some m c Hc id d)].
    destruct (ac_instantiated_perf_events c !! t) as [y|] eqn:Ey; [subst y; by apply (co_perf_some m c Hc t d)|]. by injection Hx.
  - cbn. intros id d ty. rewrite lookup_insert_Some. intros [[<- ->]|[_ Hp]]; [|by apply (co_perf_null m c Hc id)].
    destruct (ac_instantiated_perf_events c !! t) as [y|] eqn:Ey; [subst y; by apply (co_perf_null m c Hc t)|]. by injection Hx as <- <-.
Qed.

Definition put_holder c (n : nat) (i : I) : ctx := set_links c (ac_instantiated_attach_links c) (<[n := i]> (ac_attach_impl_holders c)).

Lemma attached_at_put c n i n' aid cb :
  (n < length (ac_attach_impl_holders c))%nat →
  attached_at (put_holder c n i) n' aid cb ↔ if decide (n' = n) then ai_attached i !! aid = Some cb else attached_at c n' aid cb.
Proof.
  intros Hn. unfold attached_at. cbn. case_decide as Hd.
  - subst n'. rewrite list_lookup_insert_eq by done. split; [by intros (j&[= <-]&Ha)|by exists i].
  - by rewrite list_lookup_insert_ne.
Qed.

Lemma put_holder_steps c n i i' n' j :
  ac_attach_impl_holders c !! n = Some i → create_step i i' → ac_attach_impl_holders c !! n' = Some j →
  ∃ j', <[n := i']> (ac_attach_impl_holders c) !! n' = Some j' ∧ rtc create_step j j'.
Proof.
  intros Hn Hs Hj. destruct (decide (n' = n)) as [-> | Hne].
  - rewrite Hn in Hj. injection Hj as <-. exists i'. split; [|by apply rtc_once]. apply list_lookup_insert_eq. by eapply lookup_lt_Some.
  - exists j. by rewrite list_lookup_insert_ne.
Qed.

Lemma put_holder_same m c n i i' :
  ctx_ok m c → ac_attach_impl_holders c !! n = Some i → create_step i i' → ai_inv i' → ai_attached i' = ai_attached i → good m c (put_holder c n i').
Proof.
  intros Hc Hn Hst Hi Ha. pose proof (lookup_lt_Some _ _ _ Hn) as Hlt.
  assert (Hat : ∀ n' aid cb, attached_at (put_holder c n i') n' aid cb ↔ attached_at c n' aid cb).
  { intros n' aid cb. rewrite attached_at_put by done. case_decide as Hd; [|done]. subst n'. rewrite Ha. unfold attached_at. rewrite Hn. split; [by exists i|]. by intros (j&[= <-]&?). }
  split; [|split].
  - split; try (cbn; apply Hc).
    + cbn. intros n' j Hj. destruct (decide (n' = n)) as [-> |]; [rewrite list_lookup_insert_eq in Hj by done; by injection Hj as <-|].
      rewrite list_lookup_insert_ne in Hj by done. by apply (co_inv m c Hc n').
    + cbn. intros ty n' g Hg. destruct (co_impl m c Hc ty n' g Hg) as [j Hj]. apply lookup_lt_is_Some. rewrite length_insert. by apply lookup_lt_Some in Hj.
    + intros l aid n' Hl. destruct (co_link m c Hc l aid n' Hl) as [cb Hcb]. exists cb. by apply Hat.
    + intros n' aid cb. rewrite Hat. apply (co_owner m c Hc).
  - split; try done; [intros n' aid cb; by rewrite Hat|]. intros n' j Hj. by eapply put_holder_steps.
  - intros Hl id l Hin Hh. destruct (Hl id l Hin Hh) as (aid&n'&H1&H2&H3). exists aid, n'. split; [done|]. split; [by apply Hat|done].
Qed.

(** A new attach under an id that is free, for a link that is not instantiated yet. *)
Lemma put_holder_new m c n i i' id l aid :
  ctx_ok m c → ac_attach_impl_holders c !! n = Some i → create_step i i' → ai_inv i' → ai_attached i !! aid = None →
  ai_attached i' = <[aid := EbpfRun (lk_prog_id l) (lk_attach_cookie l)]> (ai_attached i) → id ∉ ac_instantiated_handlers c →
  get_handler m id = Ok (HLink l) → lk_prog_id l ∈ ac_instantiated_handlers c → is_Some (ac_instantiated_progs c !! lk_prog_id l) →
  (∀ e, get_handler m (lk_attach_target_id l) = Ok (HPerfEvent e) → ∃ g, ac_attach_impls c !! pe_type e = Some (n, g)) →
  let c1 := put_holder c n i' in
  good m c (add_instantiated (set_links c1 (<[id := (aid, n)]> (ac_instantiated_attach_links c1)) (ac_attach_impl_holders c1)) id).
Proof.
  intros Hc Hn Hst Hi Hfree Ha Hid Hh Hp Hpp Ht c1. pose proof (lookup_lt_Some _ _ _ Hn) as Hlt. set (c2 := add_instantiated _ id).
  set (cb := EbpfRun (lk_prog_id l) (lk_attach_cookie l)) in *.
  assert (Hat : ∀ n' aid' cb', attached_at c2 n' aid' cb' ↔ attached_at c n' aid' cb' ∨ (n' = n ∧ aid' = aid ∧ cb' = cb)).
  { intros n' aid' cb'. rewrite (attached_at_same c1 c2) by done. unfold c1. rewrite attached_at_put by done. case_decide as Hd; [|naive_solver]. subst n'.
    rewrite Ha, lookup_insert_Some. unfold attached_at. rewrite Hn. split; [|].
    - intros [[<- <-]|[Hne Hl]]; [by right|left; by exists i].
    - intros [(j&[= <-]&Hl)|(_&->&->)]; [|by left]. right. split; [|done]. intros <-. congruence. }
  assert (Hnew : ac_instantiated_attach_links c !! id = None).
  { destruct (ac_instantiated_attach_links c !! id) as [x|] eqn:Ex; [|done]. by apply (co_link_unique m c Hc) in Ex. }
  assert (Hle : ctx_le c c2).
  { split; try done; [cbn; set_solver| | |intros n' j Hj; by eapply put_holder_steps].
    - intros l' x Hl. cbn. rewrite lookup_insert_ne; [done|]. intros <-. congruence.
    - intros n' aid' cb' H1. apply Hat. by left. }
  split; [|split; [done|]].
  - split; try (cbn; apply Hc).
    + cbn. intros n' j Hj. destruct (decide (n' = n)) as [-> |]; [rewrite list_lookup_insert_eq in Hj by done; by injection Hj as <-|].
      rewrite list_lookup_insert_ne in Hj by done. by apply (co_inv m c Hc n').
    + cbn. intros ty n' g Hg. destruct (co_impl m c Hc ty n' g Hg) as [j Hj]. apply lookup_lt_is_Some. rewrite length_insert. by apply lookup_lt_Some in Hj.
    + intros l' aid' n'. cbn. rewrite lookup_insert_Some. intros [[<- [= <- <-]]|[Hne Hl]]; [exists cb; apply Hat; by right|].
      destruct (co_link m c Hc l' aid' n' Hl) as [cb' Hcb]. exists cb'. apply Hat. by left.
    + cbn. assert (Hno : ∀ l', ac_instantiated_attach_links c !! l' = Some (aid, n) → False).
      { intros l' Hl. destruct (co_link m c Hc l' aid n Hl) as (cb'&j&Hj&Hcb). congruence. }
      intros l1 l2 x. rewrite !lookup_insert_Some. intros [[<- <-]|[Hne1 H1]] [[<- Hx]|[Hne2 H2]]; try done; [by destruct (Hno l2)|subst x; by destruct (Hno l1)|].
      by eapply (co_inj m c Hc).
    + intros n' aid' cb'. rewrite Hat. intros [H1|(->&->&->)].
      * destruct (co_owner m c Hc n' aid' cb' H1) as ((l'&Hl)&H2&H3). split; [|split; [cbn; set_solver|done]]. exists l'. by apply (le_links c c2 Hle).
      * split; [exists id; cbn; apply lookup_insert_eq|]. split; [cbn; set_solver|done].
    + cbn. intros id' p' Hp'. destruct (co_prog m c Hc _ _ Hp') as [[h' H1] H2]. split; [by exists h'|]. intros [->%elem_of_singleton|Hin]%elem_of_union; [congruence|by apply H2].
    + cbn. intros id' h' [->%elem_of_singleton|Hin]%elem_of_union Hh'; [congruence|by eapply (co_prog_done m c Hc)].
    + cbn. intros id' e [->%elem_of_singleton|Hin]%elem_of_union He; [congruence|by apply (co_perf m c Hc)].
    + cbn. intros l' x. rewrite lookup_insert_Some. intros [[<- _]|[_ Hl]]; [set_solver|]. apply elem_of_union. right. by eapply (co_link_unique m c Hc).
  - apply linked_le; [done|]. cbn. intros id' l' [->%elem_of_singleton|]%elem_of_union Hni Hl'; [|done]. rewrite Hh in Hl'. injection Hl' as <-.
    exists aid, n. split; [cbn; apply lookup_insert_eq|]. split; [apply Hat; by right|done].
Qed.

Lemma inst_link_good m id l c r c' :
  ctx_ok m c → get_handler m id = Ok (HLink l) → id ∉ ac_instantiated_handlers c → done_at m c (lk_prog_id l) →
  instantiate_bpf_link_handler_at id l c = (r, c') →
  good m c c' ∧ (r = Ok tt → done_at m c' id) ∧ (r = Fault → is_Some (ac_attach_impls c !! 0)).
Proof.
  intros Hc Hh Hid Hpd. unfold instantiate_bpf_link_handler_at. set (t := lk_attach_target_id l).
  destruct (match ac_instantiated_perf_events c !! t with Some x => x | None => (None, 0) end) as [pd ty] eqn:Ex.
  pose proof (touch_perf_ok m c t _ Hc Ex) as Hc1. set (c1 := set_perf_events c _) in *.
  assert (Hg1 : good m c c1) by by split; [|split; [apply set_perf_events_le|]].
  assert (Ht : ac_instantiated_perf_events c1 !! t = Some (pd, ty)) by apply lookup_insert_eq.
  destruct (ac_attach_impls c1 !! ty) as [[n g]|] eqn:Ei; [|by intros [= <- <-]].
  destruct (ac_instantiated_progs c1 !! lk_prog_id l) as [p|] eqn:Ep; [|by intros [= <- <-]].
  destruct (co_prog m c1 Hc1 _ _ Ep) as [[h Hph] _]. unfold done_at in Hpd. rewrite Hph in Hpd.
  destruct (co_impl m c1 Hc1 ty n g Ei) as [i Hi]. rewrite Hi. destruct pd as [d|].
  2: { intros [= <- <-]. split; [done|]. split; [done|]. intros _. rewrite (co_perf_null m c1 Hc1 t None ty Ht eq_refl) in Ei. by exists (n, g). }
  pose proof (ai_create_law i (EbpfRun (lk_prog_id l) (lk_attach_cookie l)) d ty (co_inv m c1 Hc1 n i Hi)) as Hlaw.
  destruct (ai_create _ d ty i) as [r1 i'] eqn:Ecr. destruct Hlaw as (Hinv&Hnf&Hr).
  assert (Hst : create_step i i') by (eexists _, d, ty; by rewrite Ecr).
  assert (Hgn : ∀ e, get_handler m t = Ok (HPerfEvent e) → ∃ g, ac_attach_impls c1 !! pe_type e = Some (n, g)).
  { intros e He. destruct (co_perf_some m c1 Hc1 t d ty Ht) as (e'&He'&->). rewrite He in He'. injection He' as <-. by exists g. }
  assert (Hsame : ai_attached i' = ai_attached i → good m c (put_holder c1 n i')).
  { intros Ha. apply (good_trans m c c1); [done|]. by eapply put_holder_same. }
  destruct r1 as [aid| | | |]; try (intros [= <- <-]; split; [by apply Hsame|done]).
  destruct Hr as (Hpos&Hfree&Ha). rewrite (proj2 (Z.ltb_ge aid 0)) by lia. intros [= <- <-]. split.
  - apply (good_trans m c c1); [done|]. apply (put_holder_new m c1 n i i' id l aid); [done|exact Hi|done|done|done|done|done|done|exact Hpd|by exists p|done].
  - split; [|done]. intros _. unfold done_at. rewrite Hh. cbn. set_solver.
Qed.

(** ** Handlers *)

(** The ends of the links are in the table, and its programs have no local calls. *)
Definition table_ok m : Prop :=
  (∀ id l, get_handler m id = Ok (HLink l) → in_table m (lk_prog_id l) = true ∧ in_table m (lk_attach_target_id l) = true) ∧
  (∀ id h, get_handler m id = Ok (HProg h) → no_local_calls (pr_insns h)).
(** No implementation is registered for the type 0, which stands for a perf event that is not there. *)
Definition impls_ok c : Prop :=
  ac_attach_impls c !! 0 = None ∧ ∀ ty n g a, ac_attach_impls c !! ty = Some (n, g) → g a ≠ Fault.

Lemma in_table_handler m id : in_table m id = true → ∃ h, get_handler m id = Ok h.
Proof. intros Hi. pose proof (proj1 (in_table_lookup m id) Hi) as [_ [h Hh]]. exists h. unfold get_handler. by rewrite Hi, Hh. Qed.

Lemma impls_ok_le c c' : ctx_le c c' → impls_ok c → impls_ok c'.
Proof. intros Hle. unfold impls_ok. by rewrite (le_impls c c' Hle). Qed.

Lemma stack_back (id : Z) (stk : gset Z) : id ∉ stk → ({[id]} ∪ stk) ∖ {[id]} = stk.
Proof. set_solver. Qed.

(** What a call of [instantiate_handler_at] does; it leaves the handlers that are being instantiated to their own calls. *)
Definition inst_post m (id : Z) (stk : gset Z) c (r : res unit) (stk' : gset Z) c' : Prop :=
  good m c c' ∧ (r = Ok tt → stk' = stk ∧ done_at m c' id) ∧ (in_table m id = true → table_ok m → impls_ok c → r ≠ Fault) ∧
  (∀ j, j ∈ stk → j ∈ ac_instantiated_handlers c' → j ∈ ac_instantiated_handlers c).

(** A call of a handler that is not a link, or the last part of one of a link. *)
Lemma finish_post m id stk c r c' x :
  id ∉ stk → good m c c' → (r = Ok tt → done_at m c' id) → (in_table m id = true → table_ok m → impls_ok c → r ≠ Fault) →
  (∀ j, j ∈ stk → j ∈ ac_instantiated_handlers c' → j ∈ ac_instantiated_handlers c) →
  match r with Ok _ => Some (Ok tt, ({[id]} ∪ stk) ∖ {[id]}, c') | r => Some (r, {[id]} ∪ stk, c') end = Some x →
  inst_post m id stk c x.1.1 x.1.2 x.2.
Proof.
  intros Hid Hg Hd Hf Hs. unfold inst_post. destruct r as [[]| | | |]; intros [= <-]; cbn [fst snd]; split; try done. split; [|done].
  intros _. split; [by apply stack_back|by apply Hd].
Qed.

Lemma inst_prog_handlers id h c : ac_instantiated_handlers (inst_prog id h c).2 ⊆ {[id]} ∪ ac_instantiated_handlers c.
Proof. destruct (inst_prog_cases id h c) as (p&r&c'&->&[(_&_&->)|(_&->)]); cbn; set_solver. Qed.
Lemma inst_perf_handlers id e c : ac_instantiated_handlers (instantiate_perf_event_handler_at id e c).2 ⊆ {[id]} ∪ ac_instantiated_handlers c.
Proof.
  unfold instantiate_perf_event_handler_at. destruct (_ =? _); [set_solver|]. destruct (ac_attach_impls c !! pe_type e) as [[n g]|]; [|set_solver].
  destruct (perf_argument e) as [a| | | |]; try set_solver. destruct (g a); cbn; set_solver.
Qed.
Lemma inst_link_handlers id l c : ac_instantiated_handlers (instantiate_bpf_link_handler_at id l c).2 ⊆ {[id]} ∪ ac_instantiated_handlers c.
Proof.
  unfold instantiate_bpf_link_handler_at. destruct (match ac_instantiated_perf_events c !! _ with Some x => x | None => (None, 0) end) as [pd ty].
  destruct (ac_attach_impls _ !! ty) as [[n g]|]; [|cbn; set_solver]. destruct (ac_instantiated_progs _ !! _); [|cbn; set_solver].
  destruct pd as [d|]; [|cbn; set_solver]. destruct (ac_attach_impl_holders _ !! n) as [i|]; [|cbn; set_solver].
  destruct (ai_create _ d ty i) as [[a| | | |] i']; try (cbn; set_solver). destruct (a <? 0); cbn; set_solver.
Qed.

Lemma inst_prog_post m id p stk c x :
  ctx_ok m c → get_handler m id = Ok (HProg p) → id ∉ ac_instantiated_handlers c → id ∉ stk →
  (let '(r, c') := inst_prog id p c in
   match r with Ok _ => Some (Ok tt, ({[id]} ∪ stk) ∖ {[id]}, c') | r => Some (r, {[id]} ∪ stk, c') end) = Some x → inst_post m id stk c x.1.1 x.1.2 x.2.
Proof.
  intros Hc Hh Hin Hstk. pose proof (inst_prog_handlers id p c) as Hs. destruct (inst_prog id p c) as [r c'] eqn:E.
  destruct (inst_prog_good m id p c r c' Hc Hh Hin E) as [Hg Hd]. apply (finish_post m id stk c r c' x Hstk Hg Hd); [|cbn [snd] in Hs; set_solver].
  intros _ Ht _ ->. apply (inst_prog_defined impl map_ptr_by_fd map_val ebpf_compile insts_mem ufunc_group config id p c); [by eapply Ht|by rewrite E].
Qed.

Lemma inst_perf_post m id e stk c x :
  ctx_ok m c → get_handler m id = Ok (HPerfEvent e) → id ∉ stk →
  (let '(r, c') := instantiate_perf_event_handler_at id e c in
   match r with Ok _ => Some (Ok tt, ({[id]} ∪ stk) ∖ {[id]}, c') | r => Some (r, {[id]} ∪ stk, c') end) = Some x → inst_post m id stk c x.1.1 x.1.2 x.2.
Proof.
  intros Hc Hh Hstk. pose proof (inst_perf_handlers id e c) as Hs. destruct (instantiate_perf_event_handler_at id e c) as [r c'] eqn:E.
  destruct (inst_perf_good m id e c r c' Hc Hh E) as [Hg Hd]. apply (finish_post m id stk c r c' x Hstk Hg Hd); [|cbn [snd] in Hs; set_solver].
  intros _ _ Hi ->. unfold instantiate_perf_event_handler_at in E.
  destruct (_ =? _); [done|]. destruct (ac_attach_impls c !! pe_type e) as [[n g]|] eqn:Ei; [|done]. destruct (perf_argument e); try done.
  pose proof (proj2 Hi _ _ _ a Ei). by destruct (g a).
Qed.

Lemma inst_link_post m id l stk c c2 x :
  good m c c2 → get_handler m id = Ok (HLink l) → id ∉ ac_instantiated_handlers c2 → id ∉ stk → done_at m c2 (lk_prog_id l) →
  (∀ j, j ∈ stk → j ∈ ac_instantiated_handlers c2 → j ∈ ac_instantiated_handlers c) →
  (let '(r, c') := instantiate_bpf_link_handler_at id l c2 in
   match r with Ok _ => Some (Ok tt, ({[id]} ∪ stk) ∖ {[id]}, c') | r => Some (r, {[id]} ∪ stk, c') end) = Some x → inst_post m id stk c x.1.1 x.1.2 x.2.
Proof.
  intros Hg Hh Hin Hstk Hd Hj. pose proof (inst_link_handlers id l c2) as Hs. destruct (instantiate_bpf_link_handler_at id l c2) as [r c'] eqn:E.
  destruct (inst_link_good m id l c2 r c' (proj1 Hg) Hh Hin Hd E) as (Hg'&Hd'&Hf). cbn [snd] in Hs.
  apply (finish_post m id stk c r c' x Hstk (good_trans m c c2 c' Hg Hg') Hd'); [|intros j Hj1 Hj2; apply Hj; set_solver].
  intros _ _ [Hi _] ->. destruct (Hf eq_refl) as [y Hy]. rewrite (le_impls c c2 (proj1 (proj2 Hg))) in Hy. congruence.
Qed.

Lemma inst_handler_post fuel m : ∀ id stk c x, ctx_ok m c → inst fuel config m id stk c = Some x → inst_post m id stk c x.1.1 x.1.2 x.2.
Proof.
  induction fuel as [|fuel IH]; intros id stk c x Hc; cbn [instantiate_handler_at]; [done|].
  case_bool_decide as Hin.
  { intros [= <-]. split; [by apply good_refl|]. split; [|done]. intros _. split; [done|]. unfold done_at. destruct (get_handler m id) as [[]| | | |]; try done. by right. }
  case_bool_decide as Hstk; [intros [= <-]; split; [by apply good_refl|done]|].
  destruct (get_handler m id) as [h| | | |] eqn:Hh.
  2-5: intros [= <-]; split; [by apply good_refl|]; split; [done|]; split; [|done]; intros Ht; destruct (in_table_handler m id Ht); congruence.
  assert (Hother : (∀ u, h ≠ HProg u) → (∀ u, h ≠ HLink u) → (∀ u, h ≠ HPerfEvent u) → Some (Ok tt, ({[id]} ∪ stk) ∖ {[id]}, c) = Some x → inst_post m id stk c x.1.1 x.1.2 x.2).
  { intros N1 N2 N3 Hx. apply (finish_post m id stk c (Ok tt) c x Hstk (good_refl m c Hc)); [|done|done|done]. intros _. unfold done_at. rewrite Hh. destruct h; naive_solver. }
  destruct h as [| |l|p|e| |]; try (by apply Hother).
  - intros Hx. destruct (inst fuel config m (lk_prog_id l) _ c) as [[[r1 stk1] c1]|] eqn:E1; [|done]. destruct (IH _ _ _ _ Hc E1) as (G1&S1&F1&J1). cbn [fst snd] in *.
    destruct r1 as [[]| | | |];
      try (injection Hx as <-; split; [done|]; split; [done|]; split; [intros _ Ht Hi; destruct (proj1 Ht id l Hh); by apply F1|set_solver]).
    destruct (S1 eq_refl) as [-> D1]. destruct (inst fuel config m (lk_attach_target_id l) _ c1) as [[[r2 stk2] c2]|] eqn:E2; [|done].
    destruct (IH _ _ _ _ (proj1 G1) E2) as (G2&S2&F2&J2). cbn [fst snd] in *. pose proof (good_trans m c c1 c2 G1 G2) as G12.
    destruct r2 as [[]| | | |];
      try (injection Hx as <-; split; [done|]; split; [done|]; split; [|set_solver]; intros _ Ht Hi; destruct (proj1 Ht id l Hh); apply F2; [done|done|by eapply impls_ok_le; [apply G1|]]).
    destruct (S2 eq_refl) as [-> D2]. apply (inst_link_post m id l stk c c2 x G12 Hh); [set_solver|done|by eapply done_at_le; [apply G2|]|set_solver|].
    destruct (instantiate_bpf_link_handler_at id l c2) as [[] ?]; exact Hx.
  - intros Hx. apply (inst_prog_post m id p); [done|done|done|done|]. destruct (inst_prog id p c) as [[] ?]; exact Hx.
  - intros Hx. apply (inst_perf_post m id e); [done|done|done|]. destruct (instantiate_perf_event_handler_at id e c) as [[] ?]; exact Hx.
Qed.

(** ** Termination: one unit of fuel for each handler of the table and one for the call of a handler twice *)

Definition table_ids m : gset Z := list_to_set (seqZ 0 (HandlerManager.size m)).
Lemma elem_table_ids m id : id ∈ table_ids m ↔ 0 ≤ id < HandlerManager.size m.
Proof. unfold table_ids. rewrite elem_of_list_to_set, elem_of_seqZ. lia. Qed.
Lemma size_table_ids m : (base.size (table_ids m) ≤ length (handlers m))%nat.
Proof. unfold table_ids. rewrite size_list_to_set by apply NoDup_seqZ. rewrite length_seqZ. unfold HandlerManager.size, zlen. lia. Qed.
Lemma get_handler_table m id h : get_handler m id = Ok h → id ∈ table_ids m.
Proof.
  unfold get_handler. destruct (in_table m id) eqn:Ei; [|done]. intros _. rewrite elem_table_ids. pose proof (proj1 (in_table_lookup m id) Ei) as [H1 [h' H2]].
  apply lookup_lt_Some in H2. unfold HandlerManager.size, zlen. lia.
Qed.

Lemma inst_handler_total fuel m : ∀ id stk c,
  ctx_ok m c → stk ⊆ table_ids m → (length (handlers m) < fuel + base.size stk)%nat → is_Some (inst fuel config m id stk c).
Proof.
  induction fuel as [|fuel IH]; intros id stk c Hc Hs Hf.
  { apply subseteq_size in Hs. pose proof (size_table_ids m). lia. }
  cbn [instantiate_handler_at]. case_bool_decide; [by eexists|]. case_bool_decide as Hstk; [by eexists|].
  assert (Hfin : ∀ (r : res unit) s s' c', is_Some (match r with Ok _ => Some (Ok tt, s, c') | r => Some (r, s' : gset Z, c' : ctx) end)) by (intros [] ???; by eexists).
  destruct (get_handler m id) as [h| | | |] eqn:Hh; try by eexists. apply get_handler_table in Hh as Hid.
  assert (Hs' : {[id]} ∪ stk ⊆ table_ids m) by (apply union_subseteq; split; [by apply singleton_subseteq_l|done]).
  assert (Hsz : base.size ({[id]} ∪ stk) = S (base.size stk)) by (rewrite size_union, size_singleton by (by apply disjoint_singleton_l); lia).
  destruct h as [| |l|p|e| |]; try by eexists.
  - destruct (IH (lk_prog_id l) ({[id]} ∪ stk) c Hc Hs' ltac:(lia)) as [[[r1 s1] c1] E1]. rewrite E1. destruct (inst_handler_post _ _ _ _ _ _ Hc E1) as (G1&S1&_). cbn [fst snd] in *.
    destruct r1 as [[]| | | |]; try by eexists. destruct (S1 eq_refl) as [-> _].
    destruct (IH (lk_attach_target_id l) ({[id]} ∪ stk) c1 (proj1 G1) Hs' ltac:(lia)) as [[[r2 s2] c2] E2]. rewrite E2.
    destruct r2 as [[]| | | |]; try by eexists. destruct (instantiate_bpf_link_handler_at id l c2) as [[] ?]; by eexists.
  - destruct (inst_prog id p c) as [[] ?]; by eexists.
  - destruct (instantiate_perf_event_handler_at id e c) as [[] ?]; by eexists.
Qed.

Lemma allocated_in_table m id : is_allocated m id = true → in_table m id = true.
Proof. unfold is_allocated, in_table. destruct (_ || _); [done|]. done. Qed.

(** A pass: it ends, and keeps what [good] says. *)
Lemma pass_good m ids : ∀ c, ctx_ok m c →
  ∃ r c', pass m ids c = Some (r, c') ∧ good m c c' ∧ (table_ok m → impls_ok c → r ≠ Fault).
Proof.
  induction ids as [|id ids IH]; intros c Hc; cbn [instantiate_pass]; [by exists (Ok tt), c|].
  destruct (is_allocated m id) eqn:Ea; [|by apply IH].
  destruct (inst_handler_total (S (length (handlers m))) m id ∅ c Hc) as [[[r s] c1] E]; [apply empty_subseteq|rewrite size_empty; lia|]. rewrite E.
  destruct (inst_handler_post _ _ _ _ _ _ Hc E) as (G1&_&F1&_). cbn [fst snd] in *. specialize (F1 (allocated_in_table m id Ea)).
  destruct r; try (eexists _, _; split; [done|]; split; [done|]; try done; intros; by destruct F1).
  all: destruct (IH c1 (proj1 G1)) as (r'&c'&Hp&Hg&Hf); exists r', c'; split; [done|]; split; [by eapply good_trans|].
  all: intros Ht Hi; apply Hf; [done|]; by eapply impls_ok_le; [apply G1|].
Qed.

Lemma init_good m c : ctx_ok m c → ∃ r c', init m c = Some (r, c') ∧ good m c c' ∧ (table_ok m → impls_ok c → r ≠ Fault).
Proof.
  intros Hc. unfold init_attach_ctx_from_handlers. destruct (pass_good m (seqZ 0 (HandlerManager.size m)) c Hc) as (r&c1&->&G1&F1).
  destruct r; try (eexists _, _; split; [done|]; done). destruct (pass_good m (seqZ 0 (HandlerManager.size m)) c1 (proj1 G1)) as (r&c2&->&G2&F2).
  eexists _, _. split; [done|]. split; [by eapply good_trans|]. intros Ht Hi. apply F2; [done|]. by eapply impls_ok_le; [apply G1|].
Qed.

(** ** Detaching *)

Lemma destroy_link_ok m c link aid n :
  ctx_ok m c → ac_instantiated_attach_links c !! link = Some (aid, n) →
  ∃ c', destroy_instantiated_attach_link link c = (Ok tt, c') ∧ ctx_ok m c' ∧
    ac_instantiated_attach_links c' = delete link (ac_instantiated_attach_links c) ∧
    ∀ n' aid' cb, attached_at c' n' aid' cb ↔ attached_at c n' aid' cb ∧ (aid', n') ≠ (aid, n).
Proof.
  intros Hc Hl. destruct (co_link m c Hc link aid n Hl) as (cb&i&Hi&Hcb). unfold destroy_instantiated_attach_link. rewrite Hl, Hi.
  pose proof (ai_detach_law i aid (co_inv m c Hc n i Hi)) as Hlaw. destruct (ai_detach aid i) as [r i']. destruct Hlaw as (Hinv&_&_&Ha&Hr).
  rewrite (Hr ltac:(by eexists)). eexists. split; [done|]. pose proof (lookup_lt_Some _ _ _ Hi) as Hlt. set (c' := set_links _ _ _).
  assert (Hat : ∀ n' aid' cb', attached_at c' n' aid' cb' ↔ attached_at c n' aid' cb' ∧ (aid', n') ≠ (aid, n)).
  { intros n' aid' cb'. rewrite (attached_at_same (put_holder c n i') c') by done. rewrite attached_at_put by done. case_decide as Hd.
    - subst n'. rewrite Ha, lookup_delete_Some. unfold attached_at. rewrite Hi. split; [|].
      + intros [Hne Hx]. split; [by exists i|]. by intros [= ->].
      + intros [(j&[= <-]&Hx) Hne]. split; [|done]. intros <-. by destruct Hne.
    - split; [|by intros [? _]]. intros Hx. split; [done|]. by intros [= _ ->]. }
  split; [|done]. split; try (cbn; apply Hc).
  - cbn. intros n' j Hj. destruct (decide (n' = n)) as [-> |]; [rewrite list_lookup_insert_eq in Hj by done; by injection Hj as <-|].
    rewrite list_lookup_insert_ne in Hj by done. by apply (co_inv m c Hc n').
  - cbn. intros ty n' g Hg. destruct (co_impl m c Hc ty n' g Hg) as [j Hj]. apply lookup_lt_is_Some. rewrite length_insert. by apply lookup_lt_Some in Hj.
  - intros l' aid' n'. cbn. rewrite lookup_delete_Some. intros [Hne Hl']. destruct (co_link m c Hc l' aid' n' Hl') as [cb' Hcb']. exists cb'. apply Hat. split; [done|].
    intros [= -> ->]. apply Hne. by eapply (co_inj m c Hc).
  - cbn. intros l1 l2 x. rewrite !lookup_delete_Some. intros [_ H1] [_ H2]. by eapply (co_inj m c Hc).
  - intros n' aid' cb'. rewrite Hat. intros [Hx Hne]. destruct (co_owner m c Hc n' aid' cb' Hx) as ((l'&Hl')&H2&H3). split; [|done]. exists l'. cbn.
    rewrite lookup_delete_ne; [done|]. intros <-. congruence.
  - cbn. intros l' x. rewrite lookup_delete_Some. intros [_ Hl']. by eapply (co_link_unique m c Hc).
Qed.

Lemma destroy_links_ok m ls : ∀ c, ctx_ok m c → NoDup ls → (∀ l, l ∈ ls ↔ is_Some (ac_instantiated_attach_links c !! l)) →
  ∃ c', destroy_links ls c = (Ok tt, c') ∧ ctx_ok m c' ∧ ac_instantiated_attach_links c' = ∅.
Proof.
  induction ls as [|l ls IH]; intros c Hc Hnd Hls; cbn [destroy_links].
  { exists c. split; [done|]. split; [done|]. apply map_eq. intros l. rewrite lookup_empty. destruct (ac_instantiated_attach_links c !! l) eqn:E; [|done].
    exfalso. apply (not_elem_of_nil l), Hls. by rewrite E. }
  apply NoDup_cons in Hnd as [Hl Hnd]. destruct (proj1 (Hls l)) as [[aid n] E]; [by apply elem_of_cons; left|].
  destruct (destroy_link_ok m c l aid n Hc E) as (c'&->&Hc'&Hd&_). apply IH; [done|done|]. intros l'. rewrite Hd. split.
  - intros Hin. rewrite lookup_delete_ne by (by intros ->). apply Hls, elem_of_cons. by right.
  - intros [x Hx]. apply lookup_delete_Some in Hx as [Hne Hx]. assert (l' ∈ l :: ls) as [-> |]%elem_of_cons by (apply Hls; by eexists); done.
Qed.

Lemma destroy_all_ok m c : ctx_ok m c →
  ∃ c', destroy_all_attach_links c = (Ok tt, c') ∧ ctx_ok m c' ∧ ac_instantiated_attach_links c' = ∅.
Proof.
  intros Hc. unfold destroy_all_attach_links. apply destroy_links_ok; [done|apply NoDup_by_address|]. intros l. by rewrite elem_by_address, elem_of_dom.
Qed.

(** ** The life of a context over a table *)

Lemma new_ok m : ctx_ok m bpf_attach_ctx_new.
Proof.
  assert (Hno : ∀ n aid cb, ¬ attached_at bpf_attach_ctx_new n aid cb) by (intros n aid cb (i&Hi&_); cbn in Hi; by rewrite lookup_nil in Hi).
  split; cbn; intros; try set_solver; by simplify_map_eq.
Qed.

Lemma register_ok_ctx m c tys i hs g : ctx_ok m c → ai_inv i → ai_attached i = ∅ → ac_instantiated_handlers c = ∅ → ctx_ok m (register_attach_impl tys i hs g c).
Proof.
  intros Hc Hi Ha Hno. set (c' := register_attach_impl tys i hs g c).
  assert (Hat : ∀ n aid cb, attached_at c' n aid cb ↔ attached_at c n aid cb).
  { intros n aid cb. unfold attached_at. cbn. split; intros (j&Hj&Hx).
    - apply lookup_snoc_Some in Hj as [[_ Hj]|[-> ->]]; [by exists j|]. by rewrite Ha in Hx.
    - exists j. split; [|done]. by apply lookup_app_l_Some. }
  split; try (cbn; apply Hc).
  - cbn. intros n j Hj. apply lookup_snoc_Some in Hj as [[_ Hj]|[-> ->]]; [by apply (co_inv m c Hc n)|done].
  - cbn. intros ty n g'. set (N := length _).
    assert (Hfold : ∀ tys (a : gmap Z (nat * (string → res attach_private_data))), foldl (λ a ty, <[ty := (N, g)]> a) a tys !! ty = Some (n, g') → n = N ∨ a !! ty = Some (n, g')).
    { induction tys0 as [|ty' tys0 IH]; intros a; cbn [foldl]; [by right|]. intros [->|Hx]%IH; [by left|].
      apply lookup_insert_Some in Hx as [[_ [= <- _]]|[_ Hx]]; [by left|by right]. }
    intros [-> | Hx]%Hfold; [exists i; by apply list_lookup_middle|]. destruct (co_impl m c Hc ty n g' Hx) as [j Hj]. exists j. by apply lookup_app_l_Some.
  - intros l aid n Hl. destruct (co_link m c Hc l aid n Hl) as [cb Hcb]. exists cb. by apply Hat.
  - intros n aid cb. rewrite Hat. apply (co_owner m c Hc).
  - cbn. intros id e. rewrite Hno. set_solver.
Qed.

(** What is done with a context, in any order; implementations are registered before the handlers are instantiated. *)
Inductive ctx_reach m : ctx → Prop :=
| ReachNew : ctx_reach m bpf_attach_ctx_new
| ReachRegister c tys i hs g : ctx_reach m c → ac_instantiated_handlers c = ∅ → ai_inv i → ai_attached i = ∅ → ctx_reach m (register_attach_impl tys i hs g c)
| ReachInit c r c' : ctx_reach m c → init m c = Some (r, c') → ctx_reach m c'
| ReachDestroy c link : ctx_reach m c → ctx_reach m (destroy_instantiated_attach_link link c).2
| ReachDestroyAll c : ctx_reach m c → ctx_reach m (destroy_all_attach_links c).2.

Lemma reach_ok m c : ctx_reach m c → ctx_ok m c.
Proof.
  induction 1 as [|c tys i hs g _ IH Hno Hi Ha|c r c' _ IH E|c link _ IH|c _ IH].
  - apply new_ok.
  - by apply register_ok_ctx.
  - destruct (init_good m c IH) as (r'&c1&E'&G&_). rewrite E in E'. injection E' as -> ->. apply G.
  - destruct (ac_instantiated_attach_links c !! link) as [[aid n]|] eqn:El.
    + by destruct (destroy_link_ok m c link aid n IH El) as (c'&->&Hc'&_).
    + unfold destroy_instantiated_attach_link. by rewrite El.
  - by destruct (destroy_all_ok m c IH) as (c'&->&Hc'&_).
Qed.

(** ** Links that can be attached *)

Definition loads (id : Z) (h : bpf_prog_handler) : Prop :=
  ∃ p, load_prog_and_helpers impl ebpf_compile ufunc_group config (insts_mem id) (bpftime_prog_create map_ptr_by_fd map_val (pr_insns h) (pr_name h)) = (Ok tt, p).

(** The program of the link loads, its target is a perf event with an argument that can be read and whose implementation
    accepts it, whatever else is attached there. *)
Definition attachable m c (l : bpf_link_handler) : Prop :=
  ∃ h e n g i a d, get_handler m (lk_prog_id l) = Ok (HProg h) ∧ loads (lk_prog_id l) h ∧
    get_handler m (lk_attach_target_id l) = Ok (HPerfEvent e) ∧ pe_type e ≠ event_num PERF_TYPE_SOFTWARE ∧
    ac_attach_impls c !! pe_type e = Some (n, g) ∧ perf_argument e = Ok a ∧ g a = Ok d ∧ ac_attach_impl_holders c !! n = Some i ∧
    ∀ i' cb, rtc create_step i i' → ∃ aid i'', ai_create cb d (pe_type e) i' = (Ok aid, i'').

Lemma attachable_le m c c' l : ctx_le c c' → attachable m c l → attachable m c' l.
Proof.
  intros Hle (h&e&n&g&i&a&d&H1&H2&H3&H4&H5&H6&H7&H8&H9). destruct (le_holders c c' Hle n i H8) as (i'&Hi'&Hr).
  exists h, e, n, g, i', a, d. rewrite (le_impls c c' Hle). repeat (split; [done|]). intros i2 cb Hr2. apply H9. by etransitivity.
Qed.

Lemma inst_prog_loads id h c : loads id h → (inst_prog id h c).1 = Ok tt.
Proof. intros [p Hp]. unfold instantiate_prog_handler_at. by rewrite Hp. Qed.

(** The handler of a program and that of a perf event need one unit of fuel. *)
Lemma inst_prog_call fuel m id h stk c :
  get_handler m id = Ok (HProg h) → loads id h → id ∉ stk → ∃ stk' c', inst (S fuel) config m id stk c = Some (Ok tt, stk', c').
Proof.
  intros Hh Hl Hs. cbn [instantiate_handler_at]. case_bool_decide; [by eexists _, _|]. rewrite bool_decide_false by done. rewrite Hh.
  pose proof (inst_prog_loads id h c Hl) as Hr. destruct (inst_prog id h c) as [r c']. cbn [fst] in Hr. subst r. by eexists _, _.
Qed.
Lemma inst_perf_call fuel m id e n g a d stk c :
  get_handler m id = Ok (HPerfEvent e) → ac_attach_impls c !! pe_type e = Some (n, g) → perf_argument e = Ok a → g a = Ok d → id ∉ stk →
  ∃ stk' c', inst (S fuel) config m id stk c = Some (Ok tt, stk', c').
Proof.
  intros Hh Hi Ha Hd Hs. cbn [instantiate_handler_at]. case_bool_decide; [by eexists _, _|]. rewrite bool_decide_false by done. rewrite Hh.
  unfold instantiate_perf_event_handler_at. destruct (_ =? _); [by eexists _, _|]. rewrite Hi, Ha, Hd. by eexists _, _.
Qed.

Lemma inst_link_call m id l c :
  ctx_ok m c → done_at m c (lk_prog_id l) → done_at m c (lk_attach_target_id l) → attachable m c l →
  ∃ c', instantiate_bpf_link_handler_at id l c = (Ok tt, c').
Proof.
  intros Hc Dp Dt (h&e&n&g&i&a&d&H1&_&H3&H4&H5&H6&H7&H8&H9). unfold done_at in Dp, Dt. rewrite H1 in Dp. rewrite H3 in Dt. destruct Dt as [|Dt]; [done|].
  destruct (co_perf m c Hc _ _ Dt H3) as (n'&g'&a'&d'&K1&K2&K3&K4). assert (d' = d) as -> by congruence.
  destruct (co_prog_done m c Hc _ _ Dp H1) as [p Hp]. unfold instantiate_bpf_link_handler_at. rewrite K4. cbn [set_perf_events ac_attach_impls ac_instantiated_progs ac_attach_impl_holders].
  rewrite H5, Hp, H8. destruct (H9 i (EbpfRun (lk_prog_id l) (lk_attach_cookie l))) as (aid&i'&Hcr); [done|].
  pose proof (ai_create_law i (EbpfRun (lk_prog_id l) (lk_attach_cookie l)) d (pe_type e) (co_inv m c Hc n i H8)) as Hlaw. rewrite Hcr in *.
  destruct Hlaw as (_&_&Hpos&_). rewrite (proj2 (Z.ltb_ge aid 0)) by lia. by eexists.
Qed.

Lemma inst_handler_attaches fuel m id l c x :
  (2 ≤ fuel)%nat → ctx_ok m c → linked m c → get_handler m id = Ok (HLink l) → attachable m c l → inst fuel config m id ∅ c = Some x → link_attached m x.2 id l.
Proof.
  intros Hf Hc Hl Hh Ha Hx. destruct (inst_handler_post _ _ _ _ _ _ Hc Hx) as (G&S0&_). cut (x.1.1 = Ok tt).
  { intros Hr. destruct (S0 Hr) as [_ D]. unfold done_at in D. rewrite Hh in D. by apply (proj2 (proj2 G) Hl). }
  destruct fuel as [|[|fuel]]; [lia|lia|]. pose proof Ha as (h&e&n&g&i&a&d&H1&H2&H3&H4&H5&H6&H7&H8&H9). remember (S fuel) as f eqn:Ef. cbn [instantiate_handler_at] in Hx. subst f.
  case_bool_decide; [by injection Hx as <-|]. rewrite bool_decide_false in Hx by set_solver. rewrite Hh in Hx.
  assert (lk_prog_id l ≠ id ∧ lk_attach_target_id l ≠ id) as [N1 N2] by (split; intros He; rewrite He in *; congruence).
  destruct (inst_prog_call fuel m (lk_prog_id l) h ({[id]} ∪ ∅) c H1 H2 ltac:(set_solver)) as (s1&c1&E1). rewrite E1 in Hx.
  destruct (inst_handler_post _ _ _ _ _ _ Hc E1) as (G1&S1&_). cbn [fst snd] in *. destruct (S1 eq_refl) as [-> D1].
  destruct (inst_perf_call fuel m (lk_attach_target_id l) e n g a d ({[id]} ∪ ∅) c1 H3) as (s2&c2&E2); [by rewrite (le_impls c c1 (proj1 (proj2 G1)))|done|done|set_solver|].
  rewrite E2 in Hx. destruct (inst_handler_post _ _ _ _ _ _ (proj1 G1) E2) as (G2&S2&_). cbn [fst snd] in *. destruct (S2 eq_refl) as [-> D2].
  destruct (inst_link_call m id l c2) as [c3 E3]; [apply G2|by eapply done_at_le; [apply G2|]|done|by eapply attachable_le; [apply (good_trans m c c1 c2 G1 G2)|]|].
  rewrite E3 in Hx. by injection Hx as <-.
Qed.

Lemma pass_attaches m id l ids : ∀ c c', ctx_ok m c → linked m c → get_handler m id = Ok (HLink l) → id ∈ ids → attachable m c l →
  pass m ids c = Some (Ok tt, c') → link_attached m c' id l.
Proof.
  induction ids as [|j ids IH]; intros c c' Hc Hl Hh Hin Ha; [by apply elem_of_nil in Hin|]. cbn [instantiate_pass].
  assert (Hall : is_allocated m id = true).
  { unfold get_handler in Hh. destruct (in_table m id) eqn:Ei; [|done]. destruct (handlers m !! Z.to_nat id) as [hh|] eqn:El; [|done]. injection Hh as ->.
    unfold is_allocated. unfold in_table in Ei. apply negb_true_iff in Ei. by rewrite Ei, El. }
  destruct (decide (id = j)) as [<-|Hne].
  - rewrite Hall. destruct (inst (S (length (handlers m))) config m id ∅ c) as [[[r s] c1]|] eqn:E; [|done].
    assert (Hlen : (2 ≤ S (length (handlers m)))%nat).
    { apply get_handler_table, elem_table_ids in Hh. unfold HandlerManager.size, zlen in Hh. lia. }
    pose proof (inst_handler_attaches _ m id l c _ Hlen Hc Hl Hh Ha E) as Hat. cbn [snd] in Hat.
    destruct (inst_handler_post _ _ _ _ _ _ Hc E) as (G&_). cbn [snd] in G. destruct (pass_good m ids c1 (proj1 G)) as (r'&c2&Hp&G2&_).
    destruct r; try done; rewrite Hp; intros [= -> ->]; eapply link_attached_le; [apply G2|done|apply G2|done|apply G2|done].
  - apply elem_of_cons in Hin as [|Hin]; [done|]. destruct (is_allocated m j); [|by apply IH].
    destruct (inst (S (length (handlers m))) config m j ∅ c) as [[[r s] c1]|] eqn:E; [|done]. destruct (inst_handler_post _ _ _ _ _ _ Hc E) as (G&_). cbn [snd] in G.
    destruct r; try done; (apply IH; [apply G|by apply G|done|done|]); by eapply attachable_le; [apply G|].
Qed.

(** C14 (termination). Instantiating the handlers of a table always ends, with links that refer to each other in a circle
    as well; and it does not leave the table or use a null pointer when the ends of the links are in the table, the
    programs have no local calls and no implementation is registered for the type 0. *)
Theorem init_terminates m c :
  ctx_reach m c → ∃ r c', init m c = Some (r, c') ∧ (table_ok m → impls_ok c → r ≠ Fault).
Proof. intros Hc%reach_ok. destruct (init_good m c Hc) as (r&c'&H1&_&H2). by exists r, c'. Qed.

(** C13 (invariant). While a context works on one table, with its implementations registered before anything is
    instantiated, and handlers are instantiated and links destroyed in any order and any number of times: every callback
    that an implementation holds belongs to exactly one link of the context, and runs a program handler of the table
    whose program was loaded, that is, its compiled function is set, or the interpreter's machine holds a program that
    was validated. *)
Theorem attached_programs_run m c n aid cb :
  ctx_reach m c → attached_at c n aid cb →
  ∃ link p h, ac_instantiated_attach_links c !! link = Some (aid, n) ∧
    (∀ link', ac_instantiated_attach_links c !! link' = Some (aid, n) → link' = link) ∧
    ac_instantiated_progs c !! ec_prog cb = Some p ∧ runnable p ∧ get_handler m (ec_prog cb) = Ok (HProg h).
Proof.
  intros Hc%reach_ok Ha. destruct (co_owner m c Hc n aid cb Ha) as ((link&Hl)&Hin&[p Hp]). destruct (co_prog m c Hc _ _ Hp) as [[h Hh] Hr].
  exists link, p, h. split; [done|]. split; [intros link' Hl'; by eapply (co_inj m c Hc)|]. split; [done|]. by split; [apply Hr|].
Qed.

(** Destroying all links of a context succeeds and leaves no callback in any implementation. *)
Theorem destroy_all_detaches m c :
  ctx_reach m c → ∃ c', destroy_all_attach_links c = (Ok tt, c') ∧ ac_instantiated_attach_links c' = ∅ ∧ ∀ n aid cb, ¬ attached_at c' n aid cb.
Proof.
  intros Hc%reach_ok. destruct (destroy_all_ok m c Hc) as (c'&Hd&Hc'&Hl). exists c'. split; [done|]. split; [done|]. intros n aid cb Ha.
  destruct (co_owner m c' Hc' n aid cb Ha) as ((link&Hx)&_). by rewrite Hl in Hx.
Qed.

Lemma init_links m c c' id l :
  ctx_ok m c → ac_instantiated_handlers c = ∅ → init m c = Some (Ok tt, c') → get_handler m id = Ok (HLink l) → attachable m c l →
  link_attached m c' id l.
Proof.
  intros Hc Hno Hi Hh Ha. unfold init_attach_ctx_from_handlers in Hi. set (ids := seqZ 0 _) in *.
  assert (Hl : linked m c) by (intros id' l'; rewrite Hno; set_solver). destruct (pass m ids c) as [[[u| | | |] c1]|] eqn:E; try done. destruct u.
  assert (Hat : link_attached m c1 id l).
  { apply (pass_attaches m id l ids c c1); try done. apply elem_of_seqZ. apply get_handler_table, elem_table_ids in Hh. lia. }
  destruct (pass_good m ids c Hc) as (r1&c1'&E1&G1&_). rewrite E in E1. injection E1 as <- <-.
  destruct (pass_good m ids c1 (proj1 G1)) as (r2&c2&E2&G2&_). rewrite Hi in E2. injection E2 as <- <-. eapply link_attached_le; [apply G2|done].
Qed.

(** C12 (functional). A first initialisation that is not ended by an exception attaches every link of the table whose program
    loads and whose perf event has an implementation that accepts it: the implementation of that type of event holds a
    callback with the program and the cookie of the link. *)
Theorem init_attaches m c c' id l :
  ctx_reach m c → ac_instantiated_handlers c = ∅ → init m c = Some (Ok tt, c') → get_handler m id = Ok (HLink l) → attachable m c l →
  link_attached m c' id l.
Proof. intros Hc%reach_ok. by apply init_links. Qed.

End props.

(** ** A table with a traced system call *)

Definition demo_alloc (h : gmap Z (syscall_trace_attach_entry ebpf_callback)) : Z := 1 + foldr Z.max 0 (elements (dom h)).
Lemma demo_alloc_fresh h : h !! demo_alloc h = None.
Proof.
  apply not_elem_of_dom. rewrite <- elem_of_elements. unfold demo_alloc. generalize (elements (dom h)) as l. intros l.
  assert (Hle : ∀ x, x ∈ l → x ≤ foldr Z.max 0 l) by (induction l as [|y l IH]; cbn; [set_solver|]; intros x [->|Hx%IH]%elem_of_cons; lia).
  intros Hin%Hle. lia.
Qed.
#[local] Instance demo_impl : AttachImpl (attach_impl ebpf_callback) ebpf_callback := runtime_attach_impl demo_alloc (λ _, true) (λ _, true).
#[local] Instance demo_laws : AttachImplLaws (attach_impl ebpf_callback) ebpf_callback := runtime_attach_laws demo_alloc (λ _, true) (λ _, true) demo_alloc_fresh.

Definition demo_creator : string → res attach_private_data :=
  syscall_initialize_from_string {[7 := "sys_enter_read"%string]} {["read"%string := 0]} false.
(** Link 0 traces a system call, and the links 3 and 4 name each other as programs. *)
Definition traced_table : handler_manager (H := bpf_map_handler) (W := demo_shm) (P := bpf_prog_handler) (E := bpf_perf_event_handler) (X := unit) (Y := unit) :=
  HandlerManager [HLink (BpfLinkHandler 1 2 (Some 9)); HProg (BpfProgHandler [mk EBPF_OP_MOV64_IMM 0 0 0 0; mk EBPF_OP_EXIT 0 0 0 0] [] "trace");
    HPerfEvent (BpfPerfEventHandler (event_num PERF_TYPE_TRACEPOINT) true (DTracepoint (-1) 7)); HLink (BpfLinkHandler 4 2 None);
    HLink (BpfLinkHandler 3 2 None)] ∅.
Definition traced_ctx : bpf_attach_ctx (I := attach_impl ebpf_callback) (J := unit) :=
  register_attach_impl [event_num PERF_TYPE_TRACEPOINT] (ISyscall syscall_trace_attach_impl_new) [] demo_creator bpf_attach_ctx_new.
Definition traced_init (c : bpf_attach_ctx) : option (res unit * bpf_attach_ctx (I := attach_impl ebpf_callback) (J := unit)) :=
  init_attach_ctx_from_handlers (λ _ _ m, (0, m)) (λ fd, fd) (λ m, m) (λ _, None) (λ _, Some 4096) ∅ demo_config traced_table c.

Lemma traced_reach : ctx_reach (λ _ _ m, (0, m)) (λ fd, fd) (λ m, m) (λ _, None) (λ _, Some 4096) ∅ demo_config traced_table traced_ctx.
Proof. apply ReachRegister; [apply ReachNew|done| |done]. split; [apply new_wf|done]. Qed.
Lemma traced_init_seen :
  (λ x, (x.1, map_to_list ∘ ai_attached <$> ac_attach_impl_holders x.2)) <$> traced_init traced_ctx = Some (Ok tt, [[(1, EbpfRun 1 (Some 9))]]).
Proof. vm_compute. reflexivity. Qed.
Lemma traced_init_ok : ∃ c' i, traced_init traced_ctx = Some (Ok tt, c') ∧ ac_attach_impl_holders c' = [i] ∧ ai_attached i !! 1 = Some (EbpfRun 1 (Some 9)).
Proof.
  pose proof traced_init_seen as E. destruct (traced_init traced_ctx) as [[r c']|]; [|done]. cbn in E. injection E as -> Hh.
  destruct (ac_attach_impl_holders c') as [|i [|]] eqn:Eh; try done. cbn in Hh. injection Hh as Hm. exists c', i. split; [done|]. split; [done|].
  apply elem_of_map_to_list. unfold ai_attached, demo_impl, runtime_attach_impl. rewrite Hm. by apply list_elem_of_singleton.
Qed.

Lemma traced_handlers id h : get_handler traced_table id = Ok h →
  id = 0 ∧ h = HLink (BpfLinkHandler 1 2 (Some 9)) ∨ id = 1 ∧ h = HProg (BpfProgHandler [mk EBPF_OP_MOV64_IMM 0 0 0 0; mk EBPF_OP_EXIT 0 0 0 0] [] "trace") ∨
  id = 2 ∧ h = HPerfEvent (BpfPerfEventHandler (event_num PERF_TYPE_TRACEPOINT) true (DTracepoint (-1) 7)) ∨
  id = 3 ∧ h = HLink (BpfLinkHandler 4 2 None) ∨ id = 4 ∧ h = HLink (BpfLinkHandler 3 2 None).
Proof.
  intros Hh. pose proof (proj1 (elem_table_ids _ _) (get_handler_table _ _ _ Hh)) as Hid. change (HandlerManager.size traced_table) with 5 in Hid.
  assert (id = 0 ∨ id = 1 ∨ id = 2 ∨ id = 3 ∨ id = 4) as Hc by lia. destruct Hc as [->|[->|[->|[->| ->]]]]; injection Hh as <-; tauto.
Qed.

Lemma syscall_data_defined table nrs stale sv : syscall_initialize_from_string table nrs stale sv ≠ Fault.
Proof.
  unfold syscall_initialize_from_string. destruct (stoi sv) as [x| | | |]; try done. destruct (table !! x) as [name|]; [|done].
  destruct (decide _); [done|]. destruct (decide _); [done|]. destruct (match strip_prefix _ _ with Some r => _ | None => _ end) as [s b]. by destruct (nrs !! s).
Qed.
Lemma traced_table_ok : table_ok traced_table.
Proof.
  split.
  - intros id l Hl. apply traced_handlers in Hl as [[_ [= ->]]|[[_ ?]|[[_ ?]|[[_ [= ->]]|[_ [= ->]]]]]]; done.
  - intros id h Hh. apply traced_handlers in Hh as [[_ ?]|[[_ [= ->]]|[[_ ?]|[[_ ?]|[_ ?]]]]]; try done. constructor; [done|]. by constructor.
Qed.
Lemma traced_impls_ok : impls_ok traced_ctx.
Proof.
  split; [done|]. intros ty n g a Hg. unfold traced_ctx, register_attach_impl in Hg. cbn [ac_attach_impls bpf_attach_ctx_new foldl] in Hg.
  apply lookup_insert_Some in Hg as [[_ [= _ <-]]|[_ Hg]]; [apply syscall_data_defined|by rewrite lookup_empty in Hg].
Qed.

Lemma init_terminates_witness : ∃ r c', traced_init traced_ctx = Some (r, c') ∧ r ≠ Fault.
Proof.
  unfold traced_init.
  destruct (init_terminates (λ _ _ m, (0, m)) (λ fd, fd) (λ m, m) (λ _, None) (λ _, Some 4096) ∅ demo_config traced_table traced_ctx traced_reach) as (r&c'&Hi&Hf).
  exists r, c'. split; [assumption|]. apply Hf; [apply traced_table_ok|apply traced_impls_ok].
Defined.

Lemma traced_init_reach r c' : traced_init traced_ctx = Some (r, c') →
  ctx_reach (λ _ _ m, (0, m)) (λ fd, fd) (λ m, m) (λ _, None) (λ _, Some 4096) ∅ demo_config traced_table c'.
Proof. unfold traced_init. intros Hi. eapply ReachInit; [apply traced_reach|eassumption]. Qed.

Lemma attached_programs_run_witness : ∃ c' link p h, traced_init traced_ctx = Some (Ok tt, c') ∧ ac_instantiated_attach_links c' !! link = Some (1, 0%nat) ∧
  ac_instantiated_progs c' !! 1 = Some p ∧ runnable p ∧ get_handler traced_table 1 = Ok (HProg h).
Proof.
  destruct traced_init_ok as (c'&i&Hi&Hh&Ha).
  destruct (attached_programs_run (λ _ _ m, (0, m)) (λ fd, fd) (λ m, m) (λ _, None) (λ _, Some 4096) ∅ demo_config traced_table c' 0 1 (EbpfRun 1 (Some 9))) as (link&p&h&H1&_&H2&H3&H4).
  - apply (traced_init_reach _ _ Hi).
  - exists i. rewrite Hh. split; [reflexivity|assumption].
  - exists c', link, p, h. repeat (split; [assumption|]). assumption.
Defined.

Lemma destroy_all_detaches_witness : ∃ c1 c2, traced_init traced_ctx = Some (Ok tt, c1) ∧ destroy_all_attach_links c1 = (Ok tt, c2) ∧
  attached_at c1 0 1 (EbpfRun 1 (Some 9)) ∧ ¬ attached_at c2 0 1 (EbpfRun 1 (Some 9)).
Proof.
  destruct traced_init_ok as (c1&i&Hi&Hh&Ha). exists c1.
  destruct (destroy_all_detaches (λ _ _ m, (0, m)) (λ fd, fd) (λ m, m) (λ _, None) (λ _, Some 4096) ∅ demo_config traced_table c1) as (c2&Hd&_&Hn).
  - apply (traced_init_reach _ _ Hi).
  - exists c2. split; [assumption|]. split; [assumption|]. split; [|apply Hn]. exists i. rewrite Hh. split; [reflexivity|assumption].
Defined.

(** The tracer accepts the events of its system calls at any time. *)
Lemma tracer_accepts (i i' : attach_impl ebpf_callback) cb nr b : rtc create_step i i' → (∃ s, i = ISyscall s) → -1 ≤ nr < 512 →
  ∃ aid i'', ai_create cb (SyscallData nr b) (event_num PERF_TYPE_TRACEPOINT) i' = (Ok aid, i'').
Proof.
  intros Hr Hs Hn. assert (∃ s, i' = ISyscall s) as [s ->].
  { induction Hr as [|i i1 i2 (cb'&d&ty&<-) _ IH]; [done|]. apply IH. destruct Hs as [s ->]. by eexists. }
  cbn. unfold syscall_create_attach.
  destruct (Z.leb_spec 512 nr); [lia|]. destruct (Z.ltb_spec nr (-1)); [lia|]. by eexists _, _.
Qed.

Lemma init_attaches_witness : ∃ c', traced_init traced_ctx = Some (Ok tt, c') ∧ link_attached traced_table c' 0 (BpfLinkHandler 1 2 (Some 9)).
Proof.
  destruct traced_init_ok as (c'&i&Hi&_). exists c'. split; [assumption|]. unfold traced_init in Hi.
  apply (init_attaches (λ _ _ m, (0, m)) (λ fd, fd) (λ m, m) (λ _, None) (λ _, Some 4096) ∅ demo_config traced_table traced_ctx c' 0 (BpfLinkHandler 1 2 (Some 9)));
    [apply traced_reach|reflexivity|assumption|reflexivity|].
  eexists _, _, 0%nat, demo_creator, _, _, (SyscallData 0 true). split; [reflexivity|]. split.
  { unfold loads. set (x := load_prog_and_helpers _ _ _ _ _ _). assert (Hx : x.1 = Ok tt) by (vm_compute; reflexivity). destruct x as [r p]. cbn [fst] in Hx. subst r. by exists p. }
  split; [reflexivity|]. split; [done|]. split; [reflexivity|]. split; [reflexivity|]. split; [vm_compute; reflexivity|]. split; [reflexivity|]. intros i' cb Hr.
  apply (tracer_accepts _ _ _ 0 true Hr); [by eexists|lia].
Defined.
