(* ===== verification/SyscallServer.v ===== *)
(** * The system call server

    [syscall_context] (runtime/syscall-server/syscall_context.cpp): the functions of the C library that the server replaces
    in the process of a loader, so that its maps, programs, perf events and links are made in the shared memory and not in
    the kernel. A call that is not for the runtime is passed on; what the kernel does with it is a parameter. *)

From Stdlib Require Import Ascii.
From stdpp Require Import base numbers list gmap strings.
From S2P Require Import Prelude.
From S2P Require Import EbpfIsa.
From S2P Require Import UnorderedMap.
From S2P Require Import LruHashMap.
From S2P Require Import FdArray.
From S2P Require Import RingBuf.
From S2P Require Import PerfEvent.
From S2P Require Import MapHandler.
From S2P Require Import HandlerManager.
From S2P Require Import Shm.
From S2P Require Import AttachArgs.

(** ** Calls *)

(** The commands of the bpf system call, with the fields of [bpf_attr] that the server reads. *)
Inductive bpf_cmd :=
| BPF_MAP_CREATE (name : string) (attr : bpf_map_attr)
| BPF_MAP_LOOKUP_ELEM (map_fd : Z) (key : uptr)
| BPF_MAP_UPDATE_ELEM (map_fd : Z) (key value : uptr) (flags : Z)
| BPF_MAP_DELETE_ELEM (map_fd : Z) (key : uptr)
| BPF_MAP_LOOKUP_AND_DELETE_ELEM (map_fd : Z) (value : uptr)
| BPF_MAP_GET_NEXT_KEY (map_fd : Z) (key : uptr) (next_key : bool)
| BPF_PROG_LOAD (insns : list ebpf_inst) (insn_cnt : Z) (prog_name : string) (prog_type : Z)
| BPF_LINK_CREATE (prog_fd target_fd attach_type bpf_cookie : Z)
| BPF_MAP_FREEZE
| BPF_OBJ_GET_INFO_BY_FD (bpf_fd : Z)
| BPF_PROG_ATTACH (attach_bpf_fd target_fd : Z)
| BPF_OTHER_CMD (cmd : Z).

(** [config1] points to a name. *)
Record perf_event_attr := PerfEventAttr {
  pa_type : Z;
  pa_config : Z;
  pa_config1 : string;
  pa_config2 : Z;
  pa_sample_type : Z
}.

(** The functions that are replaced, with their arguments. [SysDup3Name] is a dup3 system call that gets a name and flags. *)
Inductive syscall :=
| SysClose (fd : Z)
| SysOpenat (fd : Z) (file : string) (oflag mode : Z)
| SysOpen (file : string) (oflag mode : Z)
| SysRead (fd count : Z)
| SysWrite (fd : Z) (buf : list Z)
| SysFopen (pathname flags : string)
| SysBpf (cmd : bpf_cmd)
| SysPerfEventOpen (attr : perf_event_attr) (pid cpu group_fd flags : Z)
| SysMmap (addr length prot flags fd offset : Z)
| SysMunmap (addr size : Z)
| SysIoctl (fd req data : Z)
| SysEpollCreate1 (flags : Z)
| SysEpollCtl (epfd op fd data : Z)
| SysEpollWait (epfd maxevents timeout : Z)
| SysDup3 (oldfd newfd flags : Z)
| SysDup3Name (name : string) (flags : Z)
| SysMemfdCreate (name : string) (flags : Z).

(** What a call returns: a number, -1 with [errno], 0 with bytes that were written for the caller, bytes that were read, a
    pointer; or it ends the process. [RCopied p n] is 0 with a copy of the [n] bytes at [p]. *)
Inductive reply :=
| RInt (v : Z) | RErrno (e : Z) | RCopied (p : mem_ptr) (size : Z) | RWritten (bs : list Z) | RRead (bs : list Z)
| RMapInfo (id : Z) (attr : bpf_map_attr) (name : string) (type : bpf_map_type) | RProgInfo (id : Z)
| RPtr (addr : Z) | RWait (w : wait_result) | RThrow | RFault.

Definition reply_of (r : res Z) : reply :=
  match r with Ok v | Raw v => RInt v | Err e => RErrno (errno_val e) | Throw => RThrow | Fault => RFault end.
Definition reply_of_unit (r : res unit) : reply :=
  match r with Ok _ => RInt 0 | Raw v => RInt v | Err e => RErrno (errno_val e) | Throw => RThrow | Fault => RFault end.
Definition reply_of_bytes (r : res (list Z)) : reply :=
  match r with Ok bs => RWritten bs | Raw v => RInt v | Err e => RErrno (errno_val e) | Throw => RThrow | Fault => RFault end.

(** The number that the C function returns; [None] when it does not return. *)
Definition code {A} (f : A → Z) (r : res A) : option Z :=
  match r with Ok a => Some (f a) | Raw v => Some v | Err _ => Some (-1) | Throw | Fault => None end.
Definition zero_of (r : res unit) : res Z := match r with Ok _ => Ok 0 | Err e => Err e | Raw v => Raw v | Throw => Throw | Fault => Fault end.
Definition not_returned {A} (r : res A) : reply := match r with Throw => RThrow | _ => RFault end.

(** ** Mocked files *)

Definition string_bytes (s : string) : list Z := (λ a, Z.of_N (Ascii.N_of_ascii a)) <$> String.list_ascii_of_string s.

Record mocked_file_provider := MockedFile { mk_cursor : Z; mk_buf : list Z }.

Abbreviation MOCKED_UPROBE_TYPE_VALUE := 9 (only parsing).
Abbreviation MOCKED_URETPROBE_BIT := 0 (only parsing).
Abbreviation MOCKED_KPROBE_TYPE_VALUE := 8 (only parsing).
Abbreviation MOCKED_KRETPROBE_BIT := 0 (only parsing).
Abbreviation UPROBE_TYPE_FILE_NAME := "/sys/bus/event_source/devices/uprobe/type"%string (only parsing).
Abbreviation URETPROBE_BIT_FILE_NAME := "/sys/bus/event_source/devices/uprobe/format/retprobe"%string (only parsing).
Abbreviation KPROBE_TYPE_FILE_NAME := "/sys/bus/event_source/devices/kprobe/type"%string (only parsing).
Abbreviation KRETPROBE_BIT_FILE_NAME := "/sys/bus/event_source/devices/kprobe/format/retprobe"%string (only parsing).

(** The elements of a path: what is between slashes, several of which count as one; a path can start with the root and end
    with an empty element. *)
Fixpoint path_parts (s : string) (part : string) : list string :=
  match s with
  | EmptyString => [part]
  | String a s => if Ascii.eqb a "/"%char then part :: path_parts s EmptyString else path_parts s (part +:+ String a EmptyString)
  end%string.
Definition path_elements (s : string) : bool * list string * bool :=
  let l := path_parts s EmptyString in
  (bool_decide (head l = Some EmptyString ∧ (1 < length l)%nat), filter (.≠ EmptyString) l, bool_decide (last l = Some EmptyString)).

Definition create_mocked_file_based_on_full_path (path : string) : option mocked_file_provider :=
  if decide (path_elements path = path_elements UPROBE_TYPE_FILE_NAME) then Some (MockedFile 0 (string_bytes (to_string MOCKED_UPROBE_TYPE_VALUE)))
  else if decide (path_elements path = path_elements URETPROBE_BIT_FILE_NAME) then
    Some (MockedFile 0 (string_bytes ("config:" +:+ to_string MOCKED_URETPROBE_BIT)))
  else None.

(** [sysfs] has the number in a file, or the negative error of reading it; [None] for a file that does not exist. *)
Definition determine_uprobe_perf_type (sysfs : string → option Z) : Z := default MOCKED_UPROBE_TYPE_VALUE (sysfs UPROBE_TYPE_FILE_NAME).
Definition determine_uprobe_retprobe_bit (sysfs : string → option Z) : Z := default MOCKED_URETPROBE_BIT (sysfs URETPROBE_BIT_FILE_NAME).
Definition determine_kprobe_perf_type (sysfs : string → option Z) : Z := default MOCKED_KPROBE_TYPE_VALUE (sysfs KPROBE_TYPE_FILE_NAME).
Definition determine_kprobe_retprobe_bit (sysfs : string → option Z) : Z := default MOCKED_KRETPROBE_BIT (sysfs KRETPROBE_BIT_FILE_NAME).

(** ** Types of maps by number *)

Definition map_types : list bpf_map_type :=
  [BPF_MAP_TYPE_HASH; BPF_MAP_TYPE_ARRAY; BPF_MAP_TYPE_PROG_ARRAY; BPF_MAP_TYPE_PERF_EVENT_ARRAY; BPF_MAP_TYPE_PERCPU_HASH;
   BPF_MAP_TYPE_PERCPU_ARRAY; BPF_MAP_TYPE_STACK_TRACE; BPF_MAP_TYPE_LRU_HASH; BPF_MAP_TYPE_LPM_TRIE; BPF_MAP_TYPE_ARRAY_OF_MAPS;
   BPF_MAP_TYPE_QUEUE; BPF_MAP_TYPE_STACK; BPF_MAP_TYPE_RINGBUF; BPF_MAP_TYPE_BLOOM_FILTER; BPF_MAP_TYPE_KERNEL_USER_HASH;
   BPF_MAP_TYPE_KERNEL_USER_ARRAY; BPF_MAP_TYPE_KERNEL_USER_PERCPU_ARRAY; BPF_MAP_TYPE_KERNEL_USER_PERF_EVENT_ARRAY].
Definition type_of_num (n : Z) : bpf_map_type :=
  match find (λ t, type_num t =? n) map_types with Some t => t | None => BPF_MAP_TYPE_OTHER n end.

(** What the kernel tells about a map of its own. *)
Record bpf_map_info := BpfMapInfo { mi_id : Z; mi_name : string; mi_type : Z; mi_key_size : Z; mi_value_size : Z; mi_max_entries : Z; mi_map_flags : Z }.

(** What is mapped into the process by the server: pages of a ring buffer, the data of an array, the ring of a perf event. *)
Inductive mapped_obj := ConsumerPage (name : string) | ProducerPage (name : string) | ArrayData (name : string) | PerfBuffer (p : positive).

Abbreviation BPF_PROG_TYPE_SOCKET_FILTER := 1 (only parsing).
Abbreviation BPF_PROG_TYPE_TRACEPOINT := 5 (only parsing).
Abbreviation BPF_PERF_EVENT := 41 (only parsing).
Abbreviation PERF_EVENT_IOC_ENABLE := 0x2400 (only parsing).
Abbreviation PERF_EVENT_IOC_DISABLE := 0x2401 (only parsing).
Abbreviation PERF_EVENT_IOC_SET_BPF := 0x40042408 (only parsing).
Abbreviation EPOLL_CTL_ADD := 1 (only parsing).
Abbreviation PROT_READ := 1 (only parsing).
Abbreviation PROT_WRITE := 2 (only parsing).
Abbreviation MAP_ANONYMOUS := 0x20 (only parsing).
Abbreviation PERF_UPROBE_REF_CTR_OFFSET_SHIFT := 32 (only parsing).

Section server.
Context {U : Type} `{!UnorderedMap (list Z) U} {UL : Type} `{!UnorderedMap hash_map_value UL}.
Context `{Kernel} {F : Type} `{!KernelUserMaps F} (cpu : Z) (with_libbpf : bool) (table : ops_table) (mc : machine).
Context {K : Type} `{!PosixFds K} {C : Type}.

(** The calls of the kernel, [mkstemp] with the name of its file, and the libraries: [bpf_obj_get_info_by_fd], the pattern of
    a regular expression, the verifier when it is built in. *)
Variables (orig : syscall → K → reply * K) (mkstemp : K → Z * string * K) (obj_info : Z → K → option bpf_map_info)
  (regex : string → option (string → bool)) (verify : option (list ebpf_inst → Z → string → bool)).
(** The files of the kernel on probes, the path of an open descriptor of a directory, the configuration of the environment,
    the addresses of objects. *)
Variables (sysfs : string → option Z) (dir_path : Z → option string) (config : C) (max_fd_count : Z) (addr_of : mapped_obj → Z).

Abbreviation shm := (bpftime_shm (U := U) (UL := UL) (F := F) (K := K) (C := C)).

Record syscall_context := SyscallContext {
  sc_enable_mock : bool;
  sc_initializing_cuda : bool;
  sc_enable_mock_after_initialized : bool;
  sc_run_with_kernel : bool;
  sc_by_pass_kernel_verifier_pattern : string;
  sc_mocked_files : gmap Z mocked_file_provider;
  sc_mocked_mmap_values : gset Z;
  sc_already_setup : bool;
  sc_shm : shm
}.
Implicit Types c : syscall_context.

Definition sc_set_mock c (b : bool) : syscall_context :=
  SyscallContext b (sc_initializing_cuda c) (sc_enable_mock_after_initialized c) (sc_run_with_kernel c) (sc_by_pass_kernel_verifier_pattern c)
    (sc_mocked_files c) (sc_mocked_mmap_values c) (sc_already_setup c) (sc_shm c).
Definition sc_set_shm c (s : shm) : syscall_context :=
  SyscallContext (sc_enable_mock c) (sc_initializing_cuda c) (sc_enable_mock_after_initialized c) (sc_run_with_kernel c)
    (sc_by_pass_kernel_verifier_pattern c) (sc_mocked_files c) (sc_mocked_mmap_values c) (sc_already_setup c) s.
Definition sc_set_files c (f : gmap Z mocked_file_provider) : syscall_context :=
  SyscallContext (sc_enable_mock c) (sc_initializing_cuda c) (sc_enable_mock_after_initialized c) (sc_run_with_kernel c)
    (sc_by_pass_kernel_verifier_pattern c) f (sc_mocked_mmap_values c) (sc_already_setup c) (sc_shm c).
Definition sc_set_mmaps c (l : gset Z) : syscall_context :=
  SyscallContext (sc_enable_mock c) (sc_initializing_cuda c) (sc_enable_mock_after_initialized c) (sc_run_with_kernel c)
    (sc_by_pass_kernel_verifier_pattern c) (sc_mocked_files c) l (sc_already_setup c) (sc_shm c).

(** [BPFTIME_RUN_WITH_KERNEL] and [BPFTIME_NOT_LOAD_PATTERN] of the environment. The global shared memory is not made yet. *)
Definition syscall_context_create (run_with_kernel : option string) (not_load_pattern : option string) (k : K) : syscall_context :=
  SyscallContext true false true (bool_decide (is_Some run_with_kernel)) (default EmptyString not_load_pattern) ∅ ∅ false
    (BpftimeShm SHM_NO_CREATE None None None None None ∅ ∅ 1 k).

(** [start_up] without a verifier to set up: a new shared memory with the configuration. *)
Definition start_up c : res syscall_context :=
  if sc_already_setup c then Ok c
  else
    match bpftime_shm_create SHM_REMOVE_AND_CREATE None config max_fd_count (sh_fds (sc_shm c)) with
    | Ok s =>
        Ok (SyscallContext (sc_enable_mock c) (sc_initializing_cuda c) (sc_enable_mock_after_initialized c) (sc_run_with_kernel c)
              (sc_by_pass_kernel_verifier_pattern c) (sc_mocked_files c) (sc_mocked_mmap_values c) true (set_agent_config s config))
    | _ => Throw
    end.
Definition try_startup c : res syscall_context :=
  match start_up (sc_set_mock c false) with Ok c => Ok (sc_set_mock c true) | r => r end.

(** A call that is passed on. *)
Definition call_orig (call : syscall) c : reply * syscall_context :=
  let '(r, k) := orig call (sh_fds (sc_shm c)) in (r, sc_set_shm c (sh_set_fds (sc_shm c) k)).

(** The guard at the start of most handlers. *)
Definition unmocked c : bool := negb (sc_enable_mock c) || sc_initializing_cuda c || negb (sc_enable_mock_after_initialized c).
Definition unmocked_or_kernel c : bool := unmocked c || sc_run_with_kernel c.

(** [f] runs after the start of the server. *)
Definition started c (f : syscall_context → reply * syscall_context) : reply * syscall_context :=
  match try_startup c with Ok c => f c | _ => (RThrow, c) end.
Definition made c (x : res Z * shm) : reply * syscall_context := (reply_of x.1, sc_set_shm c x.2).

(** ** Files *)

Definition handle_close (fd : Z) c : reply * syscall_context :=
  if unmocked c then call_orig (SysClose fd) c
  else started c (λ c,
    match sc_mocked_files c !! fd with
    | Some _ => (RInt 0, sc_set_files c (delete fd (sc_mocked_files c)))
    | None =>
        match close_fd cpu with_libbpf table mc fd (sc_shm c) with
        | (Throw, s) => (RThrow, sc_set_shm c s)
        | (Fault, s) => (RFault, sc_set_shm c s)
        | (_, s) => call_orig (SysClose fd) (sc_set_shm c s)
        end
    end).

(** A temporary file stands for the mocked one; [fail] is what is done without one. *)
Definition open_mocked (m : mocked_file_provider) (fail : syscall_context → reply * syscall_context) c : reply * syscall_context :=
  let '(fake_fd, _, k) := mkstemp (sh_fds (sc_shm c)) in
  let c := sc_set_shm c (sh_set_fds (sc_shm c) k) in
  if fake_fd <? 0 then fail c
  else (RInt fake_fd, sc_set_files c (match sc_mocked_files c !! fake_fd with Some _ => sc_mocked_files c | None => <[fake_fd := m]> (sc_mocked_files c) end)).

(** The path of a descriptor and a file; an absolute file replaces the directory. *)
Definition resolve_filename_and_fd_to_full_path (fd : Z) (file : string) : option string :=
  match dir_path fd with
  | None => None
  | Some d => Some (match file with String a _ => if Ascii.eqb a "/"%char then file else (d +:+ "/" +:+ file)%string | EmptyString => (d +:+ "/")%string end)
  end.

Definition handle_openat (fd : Z) (file : string) (oflag mode : Z) c : reply * syscall_context :=
  if unmocked c then call_orig (SysOpenat fd file oflag mode) c
  else started c (λ c,
    match resolve_filename_and_fd_to_full_path fd file with
    | None => call_orig (SysOpenat fd file oflag mode) c
    | Some path =>
        match create_mocked_file_based_on_full_path path with
        | Some m => open_mocked m (call_orig (SysOpen file oflag mode)) c
        | None => call_orig (SysOpenat fd file oflag mode) c
        end
    end).

Definition handle_open (file : string) (oflag mode : Z) c : reply * syscall_context :=
  if unmocked c then call_orig (SysOpen file oflag mode) c
  else started c (λ c,
    match create_mocked_file_based_on_full_path file with
    | Some m => open_mocked m (call_orig (SysOpen file oflag mode)) c
    | None => call_orig (SysOpen file oflag mode) c
    end).

(** The size of the buffer minus the cursor is a [size_t]. *)
Definition handle_read (fd count : Z) c : reply * syscall_context :=
  if unmocked c then call_orig (SysRead fd count) c
  else started c (λ c,
    match sc_mocked_files c !! fd with
    | Some m =>
        let can_read_bytes := Z.min count (u64 (zlen (mk_buf m) - mk_cursor m)) in
        let bs := take (Z.to_nat can_read_bytes) (drop (Z.to_nat (mk_cursor m)) (mk_buf m)) in
        if can_read_bytes =? 0 then (RRead [], c)
        else (RRead bs, sc_set_files c (<[fd := MockedFile (s32 (mk_cursor m + can_read_bytes)) (mk_buf m)]> (sc_mocked_files c)))
    | None => call_orig (SysRead fd count) c
    end).

(** The temporary file gets the bytes, and is opened by its name. *)
Definition handle_fopen (pathname flags : string) c : reply * syscall_context :=
  if unmocked c then call_orig (SysFopen pathname flags) c
  else started c (λ c,
    match create_mocked_file_based_on_full_path pathname with
    | Some m =>
        let '(fake_fd, filename, k) := mkstemp (sh_fds (sc_shm c)) in
        let c := sc_set_shm c (sh_set_fds (sc_shm c) k) in
        if fake_fd <? 0 then call_orig (SysFopen pathname flags) c
        else
          let c := sc_set_files c (match sc_mocked_files c !! fake_fd with Some _ => sc_mocked_files c | None => <[fake_fd := m]> (sc_mocked_files c) end) in
          let '(fp, c) := call_orig (SysFopen filename "r") c in
          let '(_, c) := call_orig (SysWrite fake_fd (mk_buf (default m (sc_mocked_files c !! fake_fd)))) c in
          (fp, c)
    | None => call_orig (SysFopen pathname flags) c
    end).

(** ** The bpf system call *)

(** [map_extra] is not copied. *)
Definition create_kernel_bpf_map (map_fd : Z) c : reply * syscall_context :=
  match obj_info map_fd (sh_fds (sc_shm c)) with
  | None => (RInt (-1), c)
  | Some i =>
      let attr := MapAttr (type_of_num (mi_type i + KERNEL_USER_MAP_OFFSET)) (mi_key_size i) (mi_value_size i) (mi_max_entries i) (mi_map_flags i)
                    0 (mi_id i) in
      if is_map_fd (sc_shm c) (s32 (mi_id i)) then (RInt 0, c)
      else
        let '(r, s) := add_bpf_map cpu with_libbpf table mc (s32 (mi_id i)) (mi_name i) attr (sc_shm c) in
        match code id r with
        | Some v => (RInt (if v <? 0 then -1 else map_fd), sc_set_shm c s)
        | None => (not_returned r, sc_set_shm c s)
        end
  end.

(** The descriptors of LDDW instructions become the ids of the kernel's maps. *)
Fixpoint relocate_insns (k : K) (insns : list ebpf_inst) : option (list ebpf_inst) :=
  match insns with
  | [] => Some []
  | inst :: rest =>
      inst' ← (if (i_opcode inst =? op_code EBPF_OP_LDDW) && ((i_src inst =? 1) || (i_src inst =? 2)) then
                 i ← obj_info (i_imm inst) k; Some (EbpfInst (i_opcode inst) (i_dst inst) (i_src inst) (i_offset inst) (s32 (mi_id i)))
               else Some inst);
      rest' ← relocate_insns k rest;
      Some (inst' :: rest')
  end.

Definition trival_prog_insns : list ebpf_inst :=
  [EbpfInst (op_code EBPF_OP_MOV64_IMM) 0 0 0 0; EbpfInst (op_code EBPF_OP_EXIT) 0 0 0 0].

Definition create_kernel_bpf_prog_in_userspace (insns : list ebpf_inst) (insn_cnt : Z) (prog_name : string) (prog_type : Z) c : reply * syscall_context :=
  match regex (sc_by_pass_kernel_verifier_pattern c) with
  | None => (RThrow, c)
  | Some matches =>
      let by_pass := bool_decide (sc_by_pass_kernel_verifier_pattern c ≠ EmptyString) && matches prog_name in
      let '(r, c) := call_orig (SysBpf (if by_pass then BPF_PROG_LOAD trival_prog_insns 2 prog_name prog_type else BPF_PROG_LOAD insns insn_cnt prog_name prog_type)) c in
      match r with
      | RInt id =>
          if id <? 0 then (RInt id, c)
          else if zlen insns <? insn_cnt then (RFault, c)
          else
            match relocate_insns (sh_fds (sc_shm c)) (take (Z.to_nat insn_cnt) insns) with
            | None => (RInt (-1), c)
            | Some insns => made c (add_bpf_prog cpu with_libbpf table mc id insns insn_cnt prog_name (sc_shm c))
            end
      | r => (r, c)
      end
  end.

(** The name of a section for the programs that are verified. *)
Definition simple_section_name (prog_type : Z) : option string :=
  if prog_type =? BPF_PROG_TYPE_TRACEPOINT then Some "tracepoint"%string
  else if prog_type =? BPF_PROG_TYPE_SOCKET_FILTER then Some "uprobe"%string
  else None.

Definition prog_load (insns : list ebpf_inst) (insn_cnt : Z) (prog_name : string) (prog_type : Z) c : reply * syscall_context :=
  let rejected := match verify, simple_section_name prog_type with Some v, Some sec => v insns insn_cnt sec | _, _ => false end in
  if rejected then (RErrno (errno_val EINVAL), c)
  else made c (add_bpf_prog cpu with_libbpf table mc (-1) insns insn_cnt prog_name (sc_shm c)).

(** The answer of the second attach is not looked at. *)
Definition link_create (prog_fd target_fd attach_type bpf_cookie : Z) c : reply * syscall_context :=
  let '(r, s) := add_bpf_link cpu with_libbpf table mc (-1) (Some (BpfLinkCreateArgs prog_fd target_fd)) (sc_shm c) in
  match code id r with
  | None => (not_returned r, sc_set_shm c s)
  | Some id =>
      if is_prog_fd s (s32 prog_fd) && is_perf_event_handler_fd s (s32 target_fd) && (attach_type =? BPF_PERF_EVENT) then
        match attach_perf_to_bpf cpu with_libbpf table mc (s32 target_fd) (s32 prog_fd) (Some bpf_cookie) s with
        | (Throw, s) => (RThrow, sc_set_shm c s)
        | (Fault, s) => (RFault, sc_set_shm c s)
        | (_, s) => (reply_of r, sc_set_shm c s)
        end
      else (reply_of r, sc_set_shm c s)
  end.

Definition lookup_elem (map_fd : Z) (key : uptr) c : reply * syscall_context :=
  let '(r, s) := bpftime_map_lookup_elem cpu with_libbpf table map_fd key (sc_shm c) in
  let c := sc_set_shm c s in
  match r with
  | Ok p => match bpf_map_value_size mc s map_fd with Ok n => (RCopied p n, c) | _ => (RCopied p 0, c) end
  | Err _ | Raw _ => (RErrno (errno_val ENOENT), c)
  | Throw => (RThrow, c)
  | Fault => (RFault, c)
  end.

(** A field of the info structure has 16 bytes for the name. *)
Definition obj_get_info (bpf_fd : Z) c : reply * syscall_context :=
  if is_map_fd (sc_shm c) bpf_fd then
    match bpftime_map_get_info bpf_fd (sc_shm c) with
    | Ok (attr, name, type) => (RMapInfo bpf_fd attr (String.substring 0 15 name) type, c)
    | _ => (RErrno (-1), c)
    end
  else if is_prog_fd (sc_shm c) bpf_fd then (RProgInfo bpf_fd, c)
  else (RInt 0, c).

Definition handle_sysbpf (cmd : bpf_cmd) c : reply * syscall_context :=
  let pass := call_orig (SysBpf cmd) in
  let user f c := if sc_run_with_kernel c then pass c else f c in
  if unmocked c then pass c
  else started c (λ c,
    match cmd with
    | BPF_MAP_CREATE name attr =>
        if sc_run_with_kernel c then
          let '(r, c) := pass c in
          match r with RInt fd => create_kernel_bpf_map fd c | RErrno _ => create_kernel_bpf_map (-1) c | r => (r, c) end
        else made c (add_bpf_map cpu with_libbpf table mc (-1) name attr (sc_shm c))
    | BPF_MAP_LOOKUP_ELEM map_fd key => user (lookup_elem (s32 map_fd) key) c
    | BPF_MAP_UPDATE_ELEM map_fd key value flags =>
        user (λ c, let '(r, s) := bpftime_map_update_elem cpu with_libbpf table (s32 map_fd) key value flags (sc_shm c) in (reply_of_unit r, sc_set_shm c s)) c
    | BPF_MAP_DELETE_ELEM map_fd key =>
        user (λ c, let '(r, s) := bpftime_map_delete_elem cpu with_libbpf table (s32 map_fd) key (sc_shm c) in (reply_of_unit r, sc_set_shm c s)) c
    | BPF_MAP_LOOKUP_AND_DELETE_ELEM map_fd value =>
        user (λ c, let '(r, s) := bpftime_map_lookup_and_delete_elem (s32 map_fd) value (sc_shm c) in (reply_of_bytes r, sc_set_shm c s)) c
    | BPF_MAP_GET_NEXT_KEY map_fd key next_key =>
        user (λ c, let '(r, s) := bpftime_map_get_next_key cpu with_libbpf table (s32 map_fd) key next_key (sc_shm c) in (reply_of_bytes r, sc_set_shm c s)) c
    | BPF_PROG_LOAD insns insn_cnt prog_name prog_type =>
        if sc_run_with_kernel c then create_kernel_bpf_prog_in_userspace insns insn_cnt prog_name prog_type c
        else prog_load insns insn_cnt prog_name prog_type c
    | BPF_LINK_CREATE prog_fd target_fd attach_type bpf_cookie =>
        if sc_run_with_kernel c && negb (is_perf_event_handler_fd (sc_shm c) (s32 target_fd)) then pass c
        else link_create prog_fd target_fd attach_type bpf_cookie c
    | BPF_MAP_FREEZE => user (λ c, (RInt 0, c)) c
    | BPF_OBJ_GET_INFO_BY_FD bpf_fd => user (obj_get_info (s32 bpf_fd)) c
    | BPF_PROG_ATTACH attach_bpf_fd target_fd =>
        if sc_run_with_kernel c && negb (is_perf_event_handler_fd (sc_shm c) (s32 target_fd)) then pass c
        else made c (attach_perf_to_bpf cpu with_libbpf table mc (s32 target_fd) (s32 attach_bpf_fd) None (sc_shm c))
    | BPF_OTHER_CMD _ => pass c
    end).

(** ** Perf events *)

(** The bit of [config] that tells a probe of the return; the shift is one of an [int]. *)
Definition config_bit (config bit : Z) : bool := negb (Z.land config (u64 (s32 (Z.shiftl 1 bit))) =? 0).

Definition handle_perfevent (attr : perf_event_attr) (pid cpu_arg group_fd flags : Z) c : reply * syscall_context :=
  let pass := call_orig (SysPerfEventOpen attr pid cpu_arg group_fd flags) in
  let ty := s32 (pa_type attr) in
  let kind t := ty =? event_num t in
  let ref_ctr_off := Z.shiftr (pa_config attr) PERF_UPROBE_REF_CTR_OFFSET_SHIFT in
  if unmocked c then pass c
  else started c (λ c,
    if ty =? determine_uprobe_perf_type sysfs then
      made c (add_uprobe cpu with_libbpf table mc (-1) pid (pa_config1 attr) (pa_config2 attr)
        (config_bit (pa_config attr) (determine_uprobe_retprobe_bit sysfs)) ref_ctr_off (sc_shm c))
    else if ty =? determine_kprobe_perf_type sysfs then
      made c (bpftime_kprobe_create cpu with_libbpf table mc (-1) (pa_config1 attr) (pa_config2 attr)
        (config_bit (pa_config attr) (determine_kprobe_retprobe_bit sysfs)) ref_ctr_off (sc_shm c))
    else if kind PERF_TYPE_TRACEPOINT then made c (add_tracepoint cpu with_libbpf table mc (-1) pid (s32 (pa_config attr)) (sc_shm c))
    else if kind PERF_TYPE_SOFTWARE then
      made c (add_software_perf_event cpu with_libbpf table mc cpu_arg (s32 (pa_sample_type attr)) (s64 (pa_config attr)) (sc_shm c))
    else if kind BPF_TYPE_UREPLACE then made c (add_uprobe_override cpu with_libbpf table mc (-1) pid (pa_config1 attr) (pa_config2 attr) true (sc_shm c))
    else if kind BPF_TYPE_UPROBE_OVERRIDE then
      made c (add_uprobe_override cpu with_libbpf table mc (-1) pid (pa_config1 attr) (pa_config2 attr) false (sc_shm c))
    else pass c).

(** The calls on a perf event that fail are passed on. *)
Definition handle_ioctl (fd req data : Z) c : reply * syscall_context :=
  let pass := call_orig (SysIoctl fd req data) in
  let event f c :=
    if sc_run_with_kernel c && negb (is_perf_event_handler_fd (sc_shm c) fd) then pass c
    else
      let '(r, s) := f (sc_shm c) in
      match code id r with
      | None => (not_returned r, sc_set_shm c s)
      | Some v => if 0 <=? v then (RInt v, sc_set_shm c s) else pass (sc_set_shm c s)
      end in
  if unmocked c then pass c
  else started c (λ c,
    if req =? PERF_EVENT_IOC_ENABLE then event (λ s, let '(r, s) := perf_event_enable fd s in (zero_of r, s)) c
    else if req =? PERF_EVENT_IOC_DISABLE then event (λ s, let '(r, s) := perf_event_disable fd s in (zero_of r, s)) c
    else if req =? PERF_EVENT_IOC_SET_BPF then
      event (attach_perf_to_bpf cpu with_libbpf table mc fd (s32 data) None) c
    else pass c).

(** ** Memory *)

(** An object that is mapped; its address is remembered. *)
Definition map_object (o : mapped_obj) c : reply * syscall_context := (RPtr (addr_of o), sc_set_mmaps c ({[addr_of o]} ∪ sc_mocked_mmap_values c)).

(** Before the call that is passed on, anonymous memory is mapped at the same place and left. *)
Definition handle_mmap64 (addr length prot flags fd offset : Z) c : reply * syscall_context :=
  let pass c :=
    let '(_, c) := call_orig (SysMmap addr length (Z.lor prot PROT_WRITE) (Z.lor flags MAP_ANONYMOUS) (-1) 0) c in
    call_orig (SysMmap addr length prot flags fd offset) c in
  if negb (sc_enable_mock c) || sc_run_with_kernel c || sc_initializing_cuda c then call_orig (SysMmap addr length prot flags fd offset) c
  else started c (λ c,
    let s := sc_shm c in
    if negb (fd =? -1) && is_ringbuf_map_fd s fd then
      match shm_try_get_ringbuf_map_impl s fd with
      | Some (Some name) =>
          if prot =? Z.lor PROT_WRITE PROT_READ then map_object (ConsumerPage name) c
          else if prot =? PROT_READ then map_object (ProducerPage name) c
          else pass c
      | Some None => if (prot =? Z.lor PROT_WRITE PROT_READ) || (prot =? PROT_READ) then (RFault, c) else pass c
      | None => pass c
      end
    else if negb (fd =? -1) && is_array_map_fd s fd then
      match shm_try_get_array_map_impl s fd with
      | Some (Some name) => map_object (ArrayData name) c
      | Some None => (RFault, c)
      | None => pass c
      end
    else if negb (fd =? -1) && is_software_perf_event_handler_fd s fd then
      let '(r, s) := get_software_perf_event_raw_buffer fd length s in
      let c := sc_set_shm c s in
      match r, handler_at s fd with
      | Ok (Some true), Some (HPerfEvent e) =>
          match try_get_software_perf_data_weak_ptr e with Some p => map_object (PerfBuffer p) c | None => pass c end
      | Throw, _ => (RThrow, c)
      | Fault, _ => (RFault, c)
      | _, _ => pass c
      end
    else pass c).

Definition handle_mmap (addr length prot flags fd offset : Z) c : reply * syscall_context :=
  if unmocked_or_kernel c then call_orig (SysMmap addr length prot flags fd offset) c
  else started c (handle_mmap64 addr length prot flags fd offset).

(** The guard has no [return]: the call goes on after the original one, whose answer is dropped. *)
Definition handle_munmap (addr size : Z) c : reply * syscall_context :=
  let c := if unmocked_or_kernel c then (call_orig (SysMunmap addr size) c).2 else c in
  started c (λ c,
    if bool_decide (addr ∈ sc_mocked_mmap_values c) then (RInt 0, sc_set_mmaps c (sc_mocked_mmap_values c ∖ {[addr]}))
    else call_orig (SysMunmap addr size) c).

(** ** Epoll *)

Definition handle_epoll_create1 (flags : Z) c : reply * syscall_context :=
  if unmocked_or_kernel c then call_orig (SysEpollCreate1 flags) c
  else started c (λ c, made c (epoll_create cpu with_libbpf table mc (sc_shm c))).

(** The guard does not look at [initializing_cuda]. *)
Definition handle_epoll_ctl (epfd op fd data : Z) c : reply * syscall_context :=
  let pass := call_orig (SysEpollCtl epfd op fd data) in
  let added x c :=
    match x with
    | (Ok _, s) => (RInt 0, sc_set_shm c s)
    | (Throw, s) => (RThrow, sc_set_shm c s)
    | (Fault, s) => (RFault, sc_set_shm c s)
    | (_, s) => pass (sc_set_shm c s)
    end in
  if negb (sc_enable_mock c) || sc_run_with_kernel c || negb (sc_enable_mock_after_initialized c) then pass c
  else started c (λ c,
    if negb (op =? EPOLL_CTL_ADD) then pass c
    else if is_ringbuf_map_fd (sc_shm c) fd then added (add_ringbuf_to_epoll fd epfd data (sc_shm c)) c
    else if is_software_perf_event_handler_fd (sc_shm c) fd then added (add_software_perf_event_to_epoll fd epfd data (sc_shm c)) c
    else pass c).

(** The same guard as that of [munmap]. [rounds] is what the waiting loop sees. *)
Definition handle_epoll_wait (epfd maxevents timeout : Z) (rounds : list wait_round) c : reply * syscall_context :=
  let c := if unmocked_or_kernel c then (call_orig (SysEpollWait epfd maxevents timeout) c).2 else c in
  started c (λ c,
    if is_epoll_fd (sc_shm c) epfd then (RWait (bpftime_epoll_wait epfd maxevents timeout rounds (sc_shm c)), c)
    else call_orig (SysEpollWait epfd maxevents timeout) c).

(** ** Descriptors *)

Definition handle_dup3 (oldfd newfd flags : Z) c : reply * syscall_context :=
  if unmocked_or_kernel c then call_orig (SysDup3 oldfd newfd flags) c
  else started c (λ c,
    if is_map_fd (sc_shm c) oldfd then made c (dup_bpf_map cpu with_libbpf table mc oldfd newfd (sc_shm c)) else call_orig (SysDup3 oldfd newfd flags) c).

(** The number of another system call is passed on. *)
Definition handle_memfd_create (name : string) (flags : Z) c : reply * syscall_context :=
  if unmocked_or_kernel c then call_orig (SysDup3Name name flags) c
  else started c (λ c, made c (add_memfd_handler cpu with_libbpf table mc name flags (sc_shm c))).
(** ** The functions that the process calls *)

(** The exported functions and [syscall], by their arguments; a call that is not one of them is passed on. [rounds] is for
    the loop of epoll_wait. *)
Definition handle (call : syscall) (rounds : list wait_round) c : reply * syscall_context :=
  match call with
  | SysClose fd => handle_close fd c
  | SysOpenat fd file oflag mode => handle_openat fd file oflag (u16 mode) c
  | SysOpen file oflag mode => handle_open file oflag (u16 mode) c
  | SysRead fd count => handle_read fd count c
  | SysFopen pathname flags => handle_fopen pathname flags c
  | SysBpf cmd => handle_sysbpf cmd c
  | SysPerfEventOpen attr pid cpu_arg group_fd flags => handle_perfevent attr pid cpu_arg group_fd flags c
  | SysMmap addr length prot flags fd offset => handle_mmap addr length prot flags fd offset c
  | SysMunmap addr size => handle_munmap addr size c
  | SysIoctl fd req data => handle_ioctl fd req data c
  | SysEpollCreate1 flags => handle_epoll_create1 flags c
  | SysEpollCtl epfd op fd data => handle_epoll_ctl epfd op fd data c
  | SysEpollWait epfd maxevents timeout => handle_epoll_wait epfd maxevents timeout rounds c
  | SysDup3 oldfd newfd flags => handle_dup3 oldfd newfd flags c
  | SysMemfdCreate name flags => handle_memfd_create name flags c
  | SysWrite _ _ | SysDup3Name _ _ => call_orig call c
  end.
End server.
