(* ===== verification/SyscallProps.v ===== *)
(** * Properties of the system call server

    The maps of a loader behave as their implementations; mocked files are read from start to end; a link to a perf event is
    made twice, and so the attach context attaches its program twice; and what the two handlers without a return do. *)

From Stdlib Require Import Ascii.
From stdpp Require Import base numbers list gmap strings.
From S2P Require Import Prelude.
From S2P Require Import EbpfIsa.
From S2P Require Import UnorderedMap.
From S2P Require Import LruHashMap.
From S2P Require Import FdArray.
From S2P Require Import ArrayMap.
From S2P Require Import RingBuf.
From S2P Require Import PerfEvent.
From S2P Require Import MapHandler.
From S2P Require Import HandlerManager.
From S2P Require Import Shm.
From S2P Require Import ShmProps.
From S2P Require Import ShmMaps.
From S2P Require Import HelperGroup.
From S2P Require Import SyscallTrace.
From S2P Require Import AttachArgs.
From S2P Require Import AttachImpl.
From S2P Require Import AttachCtx.
From S2P Require Import AttachLoad.
From S2P Require Import AttachProps.
From S2P Require Import SyscallServer.

Section props.
Context {U : Type} `{!UnorderedMap (list Z) U} {UL : Type} `{!UnorderedMap hash_map_value UL}.
Context `{Kernel} {F : Type} `{!KernelUserMaps F} (cpu : Z) (with_libbpf : bool) (table : ops_table) (mc : machine).
Context {K : Type} `{!PosixFds K} {C : Type}.
Variables (orig : syscall → K → reply * K) (mkstemp : K → Z * string * K) (obj_info : Z → K → option bpf_map_info)
  (regex : string → option (string → bool)) (verify : option (list ebpf_inst → Z → string → bool)).
Variables (sysfs : string → option Z) (dir_path : Z → option string) (config : C) (max_fd_count : Z) (addr_of : mapped_obj → Z).

Abbreviation ctx := (syscall_context (U := U) (UL := UL) (F := F) (K := K) (C := C)).
Abbreviation sysbpf := (handle_sysbpf cpu with_libbpf table mc orig obj_info regex verify config max_fd_count).
Abbreviation starts := (started config max_fd_count).
Abbreviation shm := (bpftime_shm (U := U) (UL := UL) (F := F) (K := K) (C := C)).
Implicit Types (c : ctx) (s : shm).
#[local] Hint Extern 0 (MapHandlerOps _ _) => exact (map_handler_ops cpu with_libbpf table mc) : typeclass_instances.

(** A server that has started, takes calls for itself and does not use the kernel. *)
Definition ready c : Prop := unmocked c = false ∧ sc_already_setup c = true ∧ sc_run_with_kernel c = false.

Lemma started_ready c f : unmocked c = false → sc_already_setup c = true → starts c f = f c.
Proof.
  intros Hu Hs. unfold started, try_startup, start_up. cbn [sc_set_mock sc_already_setup]. rewrite Hs. f_equal.
  unfold unmocked in Hu. destruct (sc_enable_mock c) eqn:E; [|done]. destruct c. cbn in *. by subst.
Qed.
Lemma ready_set_shm c s : ready c → ready (sc_set_shm c s).
Proof. done. Qed.
Lemma set_shm_id c : sc_set_shm c (sc_shm c) = c.
Proof. by destruct c. Qed.

(** ** Maps *)

(** The bpf command of an operation; pushing and peeking have none. *)
Definition cmd_of (fd : Z) (op : map_op) : option bpf_cmd :=
  match op with
  | OpLookup k => Some (BPF_MAP_LOOKUP_ELEM fd k)
  | OpUpdate k v f => Some (BPF_MAP_UPDATE_ELEM fd k v f)
  | OpDelete k => Some (BPF_MAP_DELETE_ELEM fd k)
  | OpNextKey k out => Some (BPF_MAP_GET_NEXT_KEY fd k out)
  | OpPop v => Some (BPF_MAP_LOOKUP_AND_DELETE_ELEM fd v)
  | OpPush _ _ | OpPeek _ => None
  end.
(** How the answer of a map of [size] bytes per value reaches the caller. *)
Definition caught {A} (v : Z) (r : res A) : res A := match r with Throw => Raw v | _ => r end.
Definition reply_of_ans (size : Z) (a : map_ans) : reply :=
  match a with
  | AnsPtr (Ok p) => RCopied p size
  | AnsPtr Fault => RFault
  | AnsPtr _ => RErrno (errno_val ENOENT)
  | AnsUnit r => reply_of_unit (caught (-1) r)
  | AnsBytes r => reply_of_bytes (caught (-1) r)
  end.

Fixpoint run_cmds (cmds : list bpf_cmd) c : list reply * ctx :=
  match cmds with
  | [] => ([], c)
  | cmd :: cmds => let '(r, c) := sysbpf cmd c in let '(rs, c) := run_cmds cmds c in (r :: rs, c)
  end.

Lemma with_map_handlers {A} s fd i (none : res A) f : handler_at (with_map s fd none f).2 i = handler_at s i.
Proof.
  unfold with_map. destruct (sh_manager s) as [m|] eqn:Em; [|done]. destruct (handler_at s fd) as [[| h| | | | |]|] eqn:Eh; try done.
  destruct (f h (memory m)) as [r w]. unfold handler_at. cbn [snd sh_set_manager sh_manager mbind option_bind]. by rewrite Em.
Qed.
Lemma shm_step_handlers fd fs s op i : handler_at (shm_map_step cpu with_libbpf table fd fs s op).2 i = handler_at s i.
Proof. destruct op; apply with_map_handlers. Qed.

Lemma catching_caught {A} v (x : res A * shm) : catching v x = (caught v x.1, x.2).
Proof. by destruct x as [[] ?]. Qed.

Lemma server_step fd op cmd h c :
  ready c → 0 ≤ fd < 2 ^ 31 → handler_at (sc_shm c) fd = Some (HMap h) → cmd_of fd op = Some cmd →
  sysbpf cmd c = (let '(a, s) := shm_map_step cpu with_libbpf table fd true (sc_shm c) op in
                  (reply_of_ans (get_userspace_value_size (mc_ncpu mc) h) a, sc_set_shm c s)).
Proof.
  intros (Hu&Hs&Hk) Hfd Hh Hc. assert (Hf : s32 fd = fd) by (apply s32_small; lia).
  pose proof (shm_step_handlers fd true (sc_shm c) op fd) as Hhs. rewrite Hh in Hhs.
  destruct op as [k|k v f|k|k out|v f|v|v]; cbn [cmd_of] in Hc; try discriminate Hc; injection Hc as <-; unfold handle_sysbpf; rewrite Hu;
    rewrite started_ready by done; cbn beta; rewrite Hk, Hf; cbn [shm_map_step] in *.
  - unfold lookup_elem, bpftime_map_lookup_elem. rewrite catching_caught. unfold answer in *. cbn [fst snd] in *.
    destruct (bpf_map_lookup_elem cpu with_libbpf table fd k true (sc_shm c)) as [r s]. cbn [fst snd] in *. unfold bpf_map_value_size. rewrite Hhs.
    by destruct r.
  - unfold bpftime_map_update_elem. rewrite catching_caught. by destruct (bpf_map_update_elem _ _ _ _ _ _ _ _ _).
  - unfold bpftime_map_delete_elem. rewrite catching_caught. by destruct (bpf_delete_elem _ _ _ _ _ _ _).
  - unfold bpftime_map_get_next_key. rewrite catching_caught. by destruct (shm_map_get_next_key _ _ _ _ _ _ _ _).
  - unfold bpftime_map_lookup_and_delete_elem. rewrite catching_caught. by destruct (bpf_map_pop_elem _ _ _ _).
Qed.

Lemma server_run fd h ops cmds : 0 ≤ fd < 2 ^ 31 → mapM (cmd_of fd) ops = Some cmds → ∀ c, ready c → handler_at (sc_shm c) fd = Some (HMap h) →
  run_cmds cmds c = (let '(l, s) := run (shm_map_step cpu with_libbpf table fd true) (sc_shm c) ops in
                     (reply_of_ans (get_userspace_value_size (mc_ncpu mc) h) <$> l, sc_set_shm c s)).
Proof.
  intros Hfd. revert cmds. induction ops as [|op ops IH]; intros cmds Hc c Hr Hh; cbn [mapM] in Hc.
  { injection Hc as <-. cbn. by rewrite set_shm_id. }
  destruct (cmd_of fd op) as [cmd|] eqn:Eo; [|done]. cbn [mbind option_bind] in Hc. destruct (mapM (cmd_of fd) ops) as [cmds'|] eqn:Ec; [|done]. injection Hc as <-.
  cbn [run_cmds run]. rewrite (server_step fd op cmd h c Hr Hfd Hh Eo). pose proof (shm_step_handlers fd true (sc_shm c) op fd) as Hhs. rewrite Hh in Hhs.
  destruct (shm_map_step _ _ _ _ _ _ op) as [a s]. cbn [snd] in Hhs. rewrite (IH cmds' eq_refl (sc_set_shm c s)); [|done|done]. cbn [sc_shm sc_set_shm].
  by destruct (run _ s ops).
Qed.

(** C4 (refinement). A loader that makes a map and works on it with bpf commands gets the answers of the implementation of
    its type, on the side of system calls: the new descriptor leads to the handler and the handler to the object, and the
    value of a lookup is copied in the size that system calls use. *)
Theorem server_map_transparent name attr c m cl fd k h' w' ops cmds :
  let h := bpf_map_handler_create fd name attr in
  ready c → sh_manager (sc_shm c) = Some m → open_fake_fd (sh_fds (sc_shm c)) = (fd, k) → 0 ≤ fd < 2 ^ 31 →
  handler_at (sc_shm c) fd = Some unused_handler → class_of cpu with_libbpf mc (at_type attr) true = Some cl →
  memory m !! get_container_name h = None → map_init cpu with_libbpf table mc h (memory m) = (Ok tt, h', w') →
  mapM (cmd_of fd) ops = Some cmds →
  ∃ c1 c2 st, sysbpf (BPF_MAP_CREATE name attr) c = (RInt fd, c1) ∧ ic_create cl h = Ok st ∧
    run_cmds cmds c1 = (reply_of_ans (get_userspace_value_size (mc_ncpu mc) h') <$> (run (class_step cl) st ops).1, c2).
Proof.
  intros h Hr Hm Hfk Hfd Hh Hcl Hw Hi Hcmds. destruct Hr as (Hu&Hs&Hk).
  set (s0 := sh_set_fds (sc_shm c) k). assert (Hm0 : sh_manager s0 = Some m) by done. assert (Hh0 : handler_at s0 fd = Some unused_handler) by done.
  destruct (add_bpf_map_ok cpu with_libbpf table mc fd name attr s0 m h' w' ltac:(lia) Hm0 Hh0 Hi) as (s1&Ha&Hm1).
  assert (Ha' : add_bpf_map cpu with_libbpf table mc (-1) name attr (sc_shm c) = (Ok fd, s1)).
  { rewrite <- Ha. unfold add_bpf_map, fd_or_fake, new_fake_fd. cbn [Z.ltb Z.compare]. rewrite Hfk. by rewrite (proj2 (Z.ltb_ge fd 0)) by lia. }
  destruct (new_map_runs cpu with_libbpf table mc fd h s0 m true cl h' w' s1 ops Hm0 Hh0 Hcl Hw Hi Hm1) as (s2&st&Hst&Hrun&_).
  exists (sc_set_shm c s1), (sc_set_shm c s2), st. split; [|split; [done|]].
  - unfold handle_sysbpf. rewrite Hu, started_ready by done. cbn beta. rewrite Hk. unfold made. by rewrite Ha'.
  - rewrite (server_run fd h' ops cmds Hfd Hcmds (sc_set_shm c s1)); [|done|].
    + cbn [sc_shm sc_set_shm]. by rewrite Hrun.
    + cbn [sc_shm sc_set_shm]. destruct (handler_at_in _ _ _ _ Hm0 Hh0) as [Hin Hi0]. unfold handler_at. rewrite Hm1. cbn [mbind option_bind].
      unfold in_table, size, zlen in *. cbn [handlers]. rewrite length_insert, Hin, list_lookup_insert_eq by (by eapply lookup_lt_Some). done.
Qed.

(** ** Mocked files *)

Abbreviation sread := (handle_read orig config max_fd_count).





(** ** Calls that are not for the server *)

Abbreviation handler_of := (handle cpu with_libbpf table mc orig mkstemp obj_info regex verify sysfs dir_path config max_fd_count addr_of).

(** The handlers that pass a call on when mocking is off; the guard of two of them has no [return]. *)
Definition twice (call : syscall) c : reply * ctx :=
  let '(_, k1) := orig call (sh_fds (sc_shm c)) in
  let '(r, k2) := orig call k1 in
  (r, sc_set_mock (sc_set_shm c (sh_set_fds (sc_shm c) k2)) true).

(** While the server starts up and calls the C library itself, its handlers do what the replaced functions
    do, with a mode of 16 bits, and change nothing else, but for three of them: memfd_create calls another function, and munmap and epoll_wait call
    the function twice, answer with the second reply, and turn mocking on in the middle of the start. *)
Theorem calls_of_start_up call rounds c :
  sc_enable_mock c = false → sc_already_setup c = true →
  match call with
  | SysOpenat fd file oflag mode => handler_of call rounds c = call_orig orig (SysOpenat fd file oflag (u16 mode)) c
  | SysOpen file oflag mode => handler_of call rounds c = call_orig orig (SysOpen file oflag (u16 mode)) c
  | SysMemfdCreate name flags => handler_of call rounds c = call_orig orig (SysDup3Name name flags) c
  | SysMunmap addr _ => addr ∉ sc_mocked_mmap_values c → handler_of call rounds c = twice call c
  | SysEpollWait epfd _ _ => is_epoll_fd (sc_shm c) epfd = false → handler_of call rounds c = twice call c
  | _ => handler_of call rounds c = call_orig orig call c
  end.
Proof.
  intros He Hs. assert (Hu : unmocked c = true) by (unfold unmocked; by rewrite He).
  assert (Huk : unmocked_or_kernel c = true) by (unfold unmocked_or_kernel; by rewrite Hu).
  destruct call; cbn [handle]; try reflexivity;
    try (unfold handle_close, handle_openat, handle_open, handle_read, handle_fopen, handle_sysbpf, handle_perfevent, handle_mmap, handle_ioctl,
           handle_epoll_create1, handle_epoll_ctl, handle_dup3, handle_memfd_create; rewrite ?Hu, ?Huk, ?He; reflexivity).
  - intros Ha. unfold handle_munmap, twice. rewrite Huk. unfold started, try_startup, start_up, call_orig.
    destruct (orig _ (sh_fds (sc_shm c))) as [r1 k1]. cbn. rewrite Hs. cbn. rewrite bool_decide_eq_false_2 by done. by destruct (orig _ k1).
  - intros Ha. unfold handle_epoll_wait, twice. rewrite Huk. unfold started, try_startup, start_up, call_orig.
    destruct (orig _ (sh_fds (sc_shm c))) as [r1 k1]. cbn. rewrite Hs. cbn. change (is_epoll_fd _ epfd) with (is_epoll_fd (sc_shm c) epfd). rewrite Ha.
    cbn. by destruct (orig _ k1).
Qed.

(** ** Links *)

Lemma link_create_links p t cookie c n1 k1 n2 k2 :
  ready c → 0 ≤ p < 2 ^ 31 → 0 ≤ t < 2 ^ 31 → is_prog_fd (sc_shm c) p = true → is_perf_fd (sc_shm c) t = true →
  open_fake_fd (sh_fds (sc_shm c)) = (n1, k1) → open_fake_fd k1 = (n2, k2) → n1 ≠ n2 →
  handler_at (sc_shm c) n1 = Some unused_handler → handler_at (sc_shm c) n2 = Some unused_handler →
  ∃ c' m, sysbpf (BPF_LINK_CREATE p t BPF_PERF_EVENT cookie) c = (RInt n1, c') ∧ sh_manager (sc_shm c') = Some m ∧
    get_handler m n1 = Ok (HLink (BpfLinkHandler p t None)) ∧ get_handler m n2 = Ok (HLink (BpfLinkHandler p t (Some cookie))).
Proof.
  intros (Hu&Hs&Hk) Hp Ht Hpf Htf Ho1 Ho2 Hne Hn1 Hn2. destruct (handler_at_manager _ _ _ Hn1) as (m&Hm&_).
  set (l := BpfLinkHandler p t None). set (s1 := sh_set_manager (sh_set_fds (sc_shm c) k1) (put_handler m n1 (HLink l))).
  assert (Hat : ∀ i, handler_at s1 i = if decide (i = n1) then Some (HLink l) else handler_at (sc_shm c) i).
  { intros i. unfold s1. rewrite (handler_at_put (sh_set_fds (sc_shm c) k1) m n1 (HLink l) i Hm); [done|]. by eexists. }
  assert (Hpn : p ≠ n1 ∧ t ≠ n1) by (unfold is_prog_fd, is_perf_fd in *; split; intros ->; by rewrite Hn1 in * ).
  assert (Hpf1 : is_prog_fd s1 p = true) by (unfold is_prog_fd; rewrite Hat, decide_False by apply Hpn; done).
  assert (Htf1 : is_perf_fd s1 t = true) by (unfold is_perf_fd; rewrite Hat, decide_False by apply Hpn; done).
  assert (Ha : add_bpf_link cpu with_libbpf table mc (-1) (Some (BpfLinkCreateArgs p t)) (sc_shm c) = (Ok n1, s1)).
  { unfold add_bpf_link, fd_or_fake, new_fake_fd. cbn [Z.ltb Z.compare]. rewrite Ho1. cbn [la_prog_fd la_target_fd]. rewrite !s32_small by lia.
    change (is_prog_fd (sh_set_fds (sc_shm c) k1) p) with (is_prog_fd (sc_shm c) p). rewrite Hpf. cbn [negb].
    by rewrite (set_handler_at_free cpu with_libbpf table mc (sh_set_fds (sc_shm c) k1) m n1 (HLink l) Hm Hn1 I). }
  destruct (attach_close cpu with_libbpf table mc t p (Some cookie) s1 n2 k2) as (s2&Hs2&H2&H2o&_); [done|done|done|by rewrite Hat, decide_False|].
  destruct (handler_at_manager _ _ _ H2) as (m2&Hm2&_). exists (sc_set_shm c s2), m2.
  split; [|split; [done|split]].
  - unfold handle_sysbpf. rewrite Hu, started_ready by done. cbn beta. rewrite Hk. cbn [andb]. unfold link_create. rewrite Ha. cbn [code id].
    rewrite !s32_small by lia. rewrite Hpf1. change (is_perf_event_handler_fd s1 t) with (is_perf_fd s1 t). rewrite Htf1. cbn [andb Z.eqb Pos.eqb]. by rewrite Hs2.
  - specialize (H2o n1 Hne). rewrite Hat, decide_True in H2o by done. destruct (handler_at_in _ _ _ _ Hm2 H2o) as [Hin Hi].
    unfold get_handler. by rewrite Hin, Hi.
  - destruct (handler_at_in _ _ _ _ Hm2 H2) as [Hin Hi]. unfold get_handler. by rewrite Hin, Hi.
Qed.

(** C15 (error). A loader that links its program to a perf event once, with a cookie, has it attached twice: the server makes
    two links, and the agent that instantiates the table of the server attaches the program under two different ids of the
    same implementation, once without the cookie. *)
Theorem linked_once_attached_twice {I J : Type} `{!AttachImpl I ebpf_callback, !AttachImplLaws I ebpf_callback}
    p t cookie c n1 k1 n2 k2 impl map_ptr_by_fd map_val compile insts_mem ufuncs cfg :
  ready c → 0 ≤ p < 2 ^ 31 → 0 ≤ t < 2 ^ 31 → is_prog_fd (sc_shm c) p = true → is_perf_fd (sc_shm c) t = true →
  open_fake_fd (sh_fds (sc_shm c)) = (n1, k1) → open_fake_fd k1 = (n2, k2) → n1 ≠ n2 →
  handler_at (sc_shm c) n1 = Some unused_handler → handler_at (sc_shm c) n2 = Some unused_handler →
  ∃ c' m, sysbpf (BPF_LINK_CREATE p t BPF_PERF_EVENT cookie) c = (RInt n1, c') ∧ sh_manager (sc_shm c') = Some m ∧
    ∀ (a a' : bpf_attach_ctx (I := I) (J := J)),
      ctx_reach impl map_ptr_by_fd map_val compile insts_mem ufuncs cfg m a → ac_instantiated_handlers a = ∅ →
      attachable impl map_ptr_by_fd map_val compile insts_mem ufuncs cfg m a (BpfLinkHandler p t None) →
      init_attach_ctx_from_handlers impl map_ptr_by_fd map_val compile insts_mem ufuncs cfg m a = Some (Ok tt, a') →
      ∃ n id1 id2, id1 ≠ id2 ∧ attached_at a' n id1 (EbpfRun p None) ∧ attached_at a' n id2 (EbpfRun p (Some cookie)).
Proof.
  intros Hr Hp Ht Hpf Htf Ho1 Ho2 Hne Hn1 Hn2.
  destruct (link_create_links p t cookie c n1 k1 n2 k2 Hr Hp Ht Hpf Htf Ho1 Ho2 Hne Hn1 Hn2) as (c'&m&Hs&Hm&H1&H2).
  exists c', m. split; [done|]. split; [done|]. intros a a' Hc Hno Hat Hi. pose proof (ReachInit _ _ _ _ _ _ _ _ _ _ _ Hc Hi) as Hok%reach_ok.
  apply reach_ok in Hc. destruct Hat as (h&e&g0&g&i&arg&d&Hprog&Hl&Hev&Hat).
  assert (Hat' : ∀ ck, attachable impl map_ptr_by_fd map_val compile insts_mem ufuncs cfg m a (BpfLinkHandler p t ck)) by (intros ck; by exists h, e, g0, g, i, arg, d).
  destruct (init_links _ _ _ _ _ _ _ _ _ _ _ _ Hc Hno Hi H1 (Hat' _)) as (id1&n&L1&A1&T1).
  destruct (init_links _ _ _ _ _ _ _ _ _ _ _ _ Hc Hno Hi H2 (Hat' _)) as (id2&n'&L2&A2&T2).
  destruct (T1 e Hev) as [g1 G1]. destruct (T2 e Hev) as [g2 G2]. rewrite G1 in G2. injection G2 as <- _.
  exists n, id1, id2. split; [|done]. intros <-. apply Hne. by eapply (co_inj _ _ Hok).
Qed.
End props.

(** ** A loader of a tracepoint program *)

(** The kernel answers 0. *)
Abbreviation demo_orig := (λ (_ : syscall) (k : list Z), (RInt 0, k)).
Abbreviation demo_sysbpf := (handle_sysbpf 0 true demo_table demo_machine demo_orig (λ _ _, None) (λ _, Some (λ _, true)) None tt 8).
Definition demo_server : syscall_context (U := gmap (list Z) (list Z)) (UL := gmap (list Z) hash_map_value) (F := unit) (K := list Z) (C := unit) :=
  let c := syscall_context_create None None [2; 1; 0] in
  let c := (demo_sysbpf (BPF_PROG_LOAD [EbpfInst (op_code EBPF_OP_MOV64_IMM) 0 0 0 0; EbpfInst (op_code EBPF_OP_EXIT) 0 0 0 0] 2 "trace" BPF_PROG_TYPE_TRACEPOINT) c).2 in
  (handle_perfevent 0 true demo_table demo_machine demo_orig (λ _, None) tt 8 (PerfEventAttr (event_num PERF_TYPE_TRACEPOINT) 7 "" 0 0) (-1) 0 (-1) 0 c).2.

Lemma demo_server_ready : ready demo_server.
Proof. repeat split; vm_compute; reflexivity. Qed.

Definition array_cmds : list bpf_cmd :=
  [BPF_MAP_UPDATE_ELEM 5 (key32 1) (Some [5; 6]) 0; BPF_MAP_LOOKUP_ELEM 5 (key32 1); BPF_MAP_LOOKUP_ELEM 5 (key32 4);
   BPF_MAP_LOOKUP_AND_DELETE_ELEM 5 None; BPF_MAP_GET_NEXT_KEY 5 (key32 0) true].
Lemma server_map_transparent_witness :
  let attr := demo_attr BPF_MAP_TYPE_ARRAY 4 2 3 in
  ∃ c1, demo_sysbpf (BPF_MAP_CREATE "m" attr) demo_server = (RInt 5, c1) ∧
  (run_cmds 0 true demo_table demo_machine demo_orig (λ _ _, None) (λ _, Some (λ _, true)) None tt 8 array_cmds c1).1 =
    [RInt 0; RCopied (InData 2) 2; RErrno 2; RInt (-95); RWritten [1; 0; 0; 0]].
Proof.
  cbn zeta. set (attr := demo_attr BPF_MAP_TYPE_ARRAY 4 2 3). set (m := match sh_manager (sc_shm demo_server) with Some m => m | None => HandlerManager [] ∅ end).
  destruct (server_map_transparent 0 true demo_table demo_machine demo_orig (λ _ _, None) (λ _, Some (λ _, true)) None tt 8 "m" attr demo_server m
    (plain array_map_impl (λ h, Ok (array_map_create (mh_value_size h) (mh_max_entries h)))) 5 [5; 4; 3; 2; 1; 0]
    (map_init 0 true demo_table demo_machine (bpf_map_handler_create 5 "m" attr) (memory m)).1.2
    (map_init 0 true demo_table demo_machine (bpf_map_handler_create 5 "m" attr) (memory m)).2 demo_array_ops array_cmds)
    as (c1&c2&st&Ha&Hst&Hr);
    [apply demo_server_ready|vm_compute; reflexivity|vm_compute; reflexivity|lia|vm_compute; reflexivity|reflexivity|vm_compute; reflexivity|reflexivity|reflexivity|].
  injection Hst as <-. exists c1. split; [exact Ha|]. rewrite Hr. vm_compute. reflexivity.
Defined.


Lemma calls_of_start_up_witness :
  let c := sc_set_mock demo_server false in
  handle 0 true demo_table demo_machine demo_orig (λ k, (7, EmptyString, k)) (λ _ _, None) (λ _, Some (λ _, true)) None (λ _, None) (λ _, None) tt 8 (λ _, 4096)
    (SysMunmap 0 4096) [] c = twice demo_orig (SysMunmap 0 4096) c ∧ sc_enable_mock (twice demo_orig (SysMunmap 0 4096) c).2 = true.
Proof.
  cbn zeta. split; [|reflexivity].
  apply (calls_of_start_up 0 true demo_table demo_machine demo_orig (λ k, (7, EmptyString, k)) (λ _ _, None) (λ _, Some (λ _, true)) None (λ _, None) (λ _, None) tt 8
    (λ _, 4096) (SysMunmap 0 4096) [] (sc_set_mock demo_server false)); [reflexivity|vm_compute; reflexivity|].
  assert (H : sc_mocked_mmap_values (sc_set_mock demo_server false) = ∅) by (vm_compute; reflexivity). rewrite H. set_solver.
Defined.

#[local] Existing Instances demo_impl demo_laws.

(** The table after the loader linked its program to its tracepoint, and the agent that instantiates it. *)
Abbreviation demo_link := (demo_sysbpf (BPF_LINK_CREATE 3 4 BPF_PERF_EVENT 9) demo_server).
Abbreviation agent_init := (init_attach_ctx_from_handlers (λ _ _ m, (0, m)) (λ fd, fd) (λ m, m) (λ _, None) (λ _, Some 4096) ∅ demo_config).
Lemma demo_link_seen :
  (λ m, (get_handler m 3, get_handler m 4, fst <$> agent_init m traced_ctx)) <$> sh_manager (sc_shm demo_link.2) =
  Some (Ok (HProg (BpfProgHandler trival_prog_insns [] "trace")), Ok (HPerfEvent (tracepoint_event (-1) 7)), Some (Ok tt)).
Proof. vm_compute. reflexivity. Qed.

Lemma demo_attachable m :
  get_handler m 3 = Ok (HProg (BpfProgHandler trival_prog_insns [] "trace")) → get_handler m 4 = Ok (HPerfEvent (tracepoint_event (-1) 7)) →
  attachable (λ _ _ m, (0, m)) (λ fd, fd) (λ m, m) (λ _, None) (λ _, Some 4096) ∅ demo_config (H := bpf_map_handler) (W := demo_shm) (X := epoll_handler) (Y := memfd_handler) m traced_ctx (BpfLinkHandler 3 4 None).
Proof.
  intros Hp He. eexists _, _, 0%nat, demo_creator, _, _, (SyscallData 0 true). split; [exact Hp|]. split.
  { unfold loads. set (x := load_prog_and_helpers _ _ _ _ _ _). assert (Hx : x.1 = Ok tt) by (vm_compute; reflexivity). destruct x as [r p]. cbn [fst] in Hx. subst r. by exists p. }
  split; [exact He|]. split; [done|]. split; [reflexivity|]. split; [reflexivity|]. split; [vm_compute; reflexivity|]. split; [reflexivity|]. intros i' cb Hr.
  apply (tracer_accepts _ _ _ 0 true Hr); [by eexists|lia].
Qed.
Lemma demo_reach m : ctx_reach (λ _ _ m, (0, m)) (λ fd, fd) (λ m, m) (λ _, None) (λ _, Some 4096) ∅ demo_config (H := bpf_map_handler) (W := demo_shm) (X := epoll_handler) (Y := memfd_handler) m traced_ctx.
Proof. apply ReachRegister; [apply ReachNew|done| |done]. split; [apply new_wf|done]. Qed.

Lemma linked_once_attached_twice_witness : ∃ m a' n id1 id2,
  demo_link.1 = RInt 5 ∧ sh_manager (sc_shm demo_link.2) = Some m ∧ agent_init m traced_ctx = Some (Ok tt, a') ∧
  id1 ≠ id2 ∧ attached_at a' n id1 (EbpfRun 3 None) ∧ attached_at a' n id2 (EbpfRun 3 (Some 9)).
Proof.
  destruct (linked_once_attached_twice (I := attach_impl ebpf_callback) (J := unit) 0 true demo_table demo_machine demo_orig (λ _ _, None) (λ _, Some (λ _, true)) None tt 8
    3 4 9 demo_server 5 [5; 4; 3; 2; 1; 0] 6 [6; 5; 4; 3; 2; 1; 0] (λ _ _ m, (0, m)) (λ fd, fd) (λ m, m) (λ _, None) (λ _, Some 4096) ∅ demo_config)
    as (c'&m&Hs&Hm&Ha); [apply demo_server_ready|lia|lia|vm_compute; reflexivity..|lia|vm_compute; reflexivity|vm_compute; reflexivity|].
  pose proof demo_link_seen as E. rewrite Hs in *. cbn [fst snd] in *. rewrite Hm in *. cbn [fmap option_fmap option_map] in E.
  injection E as Hp He Hi. destruct (agent_init m traced_ctx) as [[r a']|] eqn:Ei; [|done]. cbn [fmap option_fmap option_map fst] in Hi. injection Hi as ->.
  destruct (Ha traced_ctx a') as (n&id1&id2&H1&H2&H3); [|reflexivity| |exact Ei|].
  - apply demo_reach.
  - apply demo_attachable; assumption.
  - exists m, a', n, id1, id2. split; [reflexivity|]. split; [reflexivity|]. split; [exact Ei|]. split; [exact H1|]. split; [exact H2|exact H3].
Defined.
