(* ===== verification/JsonValue.v ===== *)
(** * JSON values and hexadecimal text

    What runtime/src/bpftime_shm_json.cpp uses of the values of third_party/json.hpp, and the two functions of
    bpftime_shm_json.hpp that turn the bytes of instructions into text and back. *)

From Stdlib Require Import Ascii.
From stdpp Require Import base numbers list gmap strings.
From S2P Require Import Prelude.
From S2P Require Import EbpfIsa.
From S2P Require Import AttachArgs.

(** ** Values *)

(** The members of an object are sorted by their keys. Numbers are integers. *)
Inductive json := JNull | JBool (b : bool) | JNumber (n : Z) | JString (s : string) | JArray (l : list json) | JObject (o : list (string * json)).

(** [std::map<std::string, A>] as the list of its pairs in order. *)
Fixpoint obj_insert {A} (k : string) (v : A) (o : list (string * A)) : list (string * A) :=
  match o with
  | [] => [(k, v)]
  | (k', v') :: o' =>
      match String.compare k k' with
      | Lt => (k, v) :: o
      | Eq => (k, v) :: o'
      | Gt => (k', v') :: obj_insert k v o'
      end
  end.
Fixpoint obj_find {A} (k : string) (o : list (string * A)) : option A :=
  match o with [] => None | (k', v) :: o => if decide (k = k') then Some v else obj_find k o end.
Definition obj_of {A} (l : list (string * A)) : list (string * A) := foldl (λ o x, obj_insert x.1 x.2 o) [] l.

(** [j[k]] on a value that can be changed: a missing member is made, as null, and null becomes an object. *)
Definition jget (j : json) (k : string) : res json :=
  match j with JNull => Ok JNull | JObject o => Ok (default JNull (obj_find k o)) | _ => Throw end.
(** [j[k]] on a constant: the member has to be there. *)
Definition jat (j : json) (k : string) : res json :=
  match j with JObject o => match obj_find k o with Some v => Ok v | None => Fault end | _ => Throw end.

(** Conversions; a number is cut to the width of the type by [w]. *)
Definition jnum (w : Z → Z) (j : json) : res Z := match j with JNumber n => Ok (w n) | JBool b => Ok (if b then 1 else 0) | _ => Throw end.
Definition jstring (j : json) : res string := match j with JString s => Ok s | _ => Throw end.
Definition jbool (j : json) : res bool := match j with JBool b => Ok b | _ => Throw end.
(** What a loop over a value visits. *)
Definition jitems (j : json) : list json := match j with JNull => [] | JArray l => l | JObject o => o.*2 | j => [j] end.

(** ** Hexadecimal text *)

Definition hex_char (n : Z) : ascii := Ascii.ascii_of_nat (Z.to_nat (if n <? 10 then 48 + n else 87 + n)).
Fixpoint buffer_to_hex_string (buffer : list Z) : string :=
  match buffer with
  | [] => EmptyString
  | b :: buffer => String (hex_char (b / 16)) (String (hex_char (b mod 16)) (buffer_to_hex_string buffer))
  end.

Definition hex_digit (c : ascii) : option Z :=
  let n := Z.of_nat (Ascii.nat_of_ascii c) in
  if (48 <=? n) && (n <=? 57) then Some (n - 48)
  else if (97 <=? n) && (n <=? 102) then Some (n - 87)
  else if (65 <=? n) && (n <=? 70) then Some (n - 55)
  else None.
Fixpoint hex_digits (acc : Z) (s : string) : Z :=
  match s with
  | EmptyString => acc
  | String c s => match hex_digit c with Some d => hex_digits (16 * acc + d) s | None => acc end
  end.
Definition starts_with_hex (s : string) : bool := match s with String c _ => bool_decide (is_Some (hex_digit c)) | EmptyString => false end.
(** [std::stoi] with base 16; the digits can have 0x in front. *)
Definition stoi16 (s : string) : res Z :=
  let s := skip_space s in
  let '(neg, s) := match s with
                   | String c r => if Ascii.eqb c "-" then (true, r) else if Ascii.eqb c "+" then (false, r) else (false, s)
                   | EmptyString => (false, s)
                   end in
  let s := match s with
           | String z (String x r) => if Ascii.eqb z "0" && (Ascii.eqb x "x" || Ascii.eqb x "X") && starts_with_hex r then r else s
           | _ => s
           end in
  if starts_with_hex s then
    let v := if neg : bool then - hex_digits 0 s else hex_digits 0 s in
    if (- 2 ^ 31 <=? v) && (v <? 2 ^ 31) then Ok v else Throw
  else Throw.

(** Two characters for each byte. *)
Fixpoint hex_bytes (s : string) : res (list Z) :=
  match s with
  | String a (String b r) => v ← stoi16 (String a (String b EmptyString)); bs ← hex_bytes r; Ok (u8 v :: bs)
  | _ => Ok []
  end.
Definition hex_string_to_buffer (hexString : string) (bufferSize : Z) : res (list Z) :=
  if negb (Z.of_nat (String.length hexString) =? bufferSize * 2) then Raw (-1) else hex_bytes hexString.

(** The bytes of an array of instructions. *)
Definition insns_to_bytes (insns : list ebpf_inst) : list Z := concat ((λ i, le_store 8 (inst_value i)) <$> insns).
Fixpoint bytes_to_insns (cnt : nat) (bs : list Z) : list ebpf_inst :=
  match cnt with O => [] | S cnt => inst_of_value (le_load (take 8 bs)) :: bytes_to_insns cnt (drop 8 bs) end.

(** ** Lemmas *)

Lemma obj_insert_fmap {A B} (f : A → B) k v (o : list (string * A)) :
  obj_insert k (f v) (prod_map id f <$> o) = prod_map id f <$> obj_insert k v o.
Proof. induction o as [|[k' v'] o IH]; [done|]. cbn. destruct (String.compare k k'); cbn; [done|done|]. by f_equal. Qed.

Lemma hex_char_digit n : 0 ≤ n < 16 → hex_digit (hex_char n) = Some n ∧ is_space (hex_char n) = false ∧
  Ascii.eqb (hex_char n) "-" = false ∧ Ascii.eqb (hex_char n) "+" = false ∧ Ascii.eqb (hex_char n) "x" = false ∧ Ascii.eqb (hex_char n) "X" = false.
Proof.
  set (ok n := bool_decide (hex_digit (hex_char n) = Some n) && negb (is_space (hex_char n)) && negb (Ascii.eqb (hex_char n) "-") &&
    negb (Ascii.eqb (hex_char n) "+") && negb (Ascii.eqb (hex_char n) "x") && negb (Ascii.eqb (hex_char n) "X")).
  intros Hn. assert (Hall : forallb ok (seqZ 0 16) = true) by (vm_compute; reflexivity).
  rewrite forallb_forall in Hall. specialize (Hall n). unfold ok in Hall. rewrite !andb_true_iff, !negb_true_iff, bool_decide_eq_true in Hall.
  destruct Hall as (((((?&?)&?)&?)&?)&?); [|done]. apply list_elem_of_In, elem_of_seqZ. lia.
Qed.
Lemma hex_byte b : 0 ≤ b < 256 → stoi16 (String (hex_char (b / 16)) (String (hex_char (b mod 16)) EmptyString)) = Ok b.
Proof.
  intros Hb. assert (Hq : 0 ≤ b / 16 < 16) by (split; [apply Z.div_pos; lia|apply Z.div_lt_upper_bound; lia]).
  assert (Hr : 0 ≤ b mod 16 < 16) by (apply Z.mod_pos_bound; lia).
  destruct (hex_char_digit _ Hq) as (Q1&Q2&Q3&Q4&_). destruct (hex_char_digit _ Hr) as (R1&_&_&_&R5&R6).
  unfold stoi16. cbn [skip_space]. rewrite Q2, Q3, Q4, R5, R6. rewrite andb_false_r. cbn [andb]. unfold starts_with_hex. rewrite Q1. cbn [bool_decide].
  cbn [hex_digits]. rewrite Q1, R1. replace (16 * (16 * 0 + b / 16) + b mod 16) with b by (pose proof (Z.div_mod b 16); lia).
  rewrite bool_decide_eq_true_2 by done. by rewrite (proj2 (Z.leb_le _ _)), (proj2 (Z.ltb_lt _ _)) by lia.
Qed.

Lemma hex_length bs : Z.of_nat (String.length (buffer_to_hex_string bs)) = 2 * zlen bs.
Proof. induction bs as [|b bs IH]; [done|]. cbn [buffer_to_hex_string String.length]. rewrite zlen_cons. lia. Qed.
Lemma hex_buffer_roundtrip bs : Forall (λ b, 0 ≤ b < 256) bs → hex_string_to_buffer (buffer_to_hex_string bs) (zlen bs) = Ok bs.
Proof.
  intros Hbs. unfold hex_string_to_buffer. rewrite hex_length, (Z.mul_comm 2), Z.eqb_refl. cbn [negb].
  induction Hbs as [|b bs Hb _ IH]; [done|]. cbn [buffer_to_hex_string hex_bytes]. rewrite hex_byte by done. cbn [mbind res_bind]. rewrite IH.
  cbn [mbind res_bind]. unfold u8. by rewrite Z.mod_small by lia.
Qed.

Lemma insns_to_bytes_range insns : Forall (λ b, 0 ≤ b < 256) (insns_to_bytes insns).
Proof.
  unfold insns_to_bytes. induction insns as [|i insns IH]; [constructor|]. cbn [fmap list_fmap concat]. apply Forall_app. split; [|done].
  generalize (inst_value i). generalize 8%nat as n. induction n as [|n IHn]; intros z; cbn; constructor; [|done]. apply Z.mod_pos_bound. lia.
Qed.
Lemma insns_bytes_length insns : zlen (insns_to_bytes insns) = 8 * zlen insns.
Proof.
  unfold insns_to_bytes. induction insns as [|i insns IH]; [done|]. cbn [fmap list_fmap concat]. rewrite zlen_app, zlen_cons, IH. unfold zlen. rewrite length_le_store. lia.
Qed.
Lemma insns_roundtrip insns : Forall inst_wf insns → bytes_to_insns (length insns) (insns_to_bytes insns) = insns.
Proof.
  unfold insns_to_bytes. induction 1 as [|i insns Hi _ IH]; [done|]. cbn [length fmap list_fmap concat bytes_to_insns].
  rewrite take_app_length', drop_app_length', IH by (by rewrite length_le_store). f_equal.
  rewrite le_load_store, Z.mod_small by apply inst_value_bound. by apply inst_of_value_value.
Qed.
