(* ===== verification/ShmJson.v ===== *)
(** * Export and import of the shared memory

    runtime/src/bpftime_shm_json.cpp: the handlers of a shared memory are written to a file as JSON, and another shared
    memory gets them from the file. The members of the JSON object are the descriptors, as text: an import makes the handlers
    in the order of that text. *)

From Stdlib Require Import Ascii.
From stdpp Require Import base numbers list gmap strings.
From S2P Require Import Prelude.
From S2P Require Import EbpfIsa.
From S2P Require Import UnorderedMap.
From S2P Require Import LruHashMap.
From S2P Require Import FdArray.
From S2P Require Import PerfEvent.
From S2P Require Import ArrayMap.
From S2P Require Import MapHandler.
From S2P Require Import HandlerManager.
From S2P Require Import Shm.
From S2P Require Import ShmProps.
From S2P Require Import ShmMaps.
From S2P Require Import AttachArgs.
From S2P Require Import SyscallServer.
From S2P Require Import JsonValue.

(** The text of a file: what the library writes for a value it reads as the same value. A table without handlers is the
    value null, which has no members. *)
Class JsonText (T : Type) := { dump : list (string * json) → res T; parse : T → res (list (string * json)) }.
Class JsonTextLaws (T : Type) `{!JsonText T} := { parse_dump o t : dump o = Ok t → parse t = Ok o }.

(** ** Attributes of maps *)

(** The members that no map of the runtime uses are left out. *)
Definition bpf_map_attr_to_json (attr : bpf_map_attr) : json :=
  JObject (obj_of [("map_type", JNumber (type_num (at_type attr))); ("key_size", JNumber (at_key_size attr)); ("value_size", JNumber (at_value_size attr));
    ("max_entries", JNumber (at_max_ents attr)); ("flags", JNumber (at_flags attr)); ("map_extra", JNumber (at_map_extra attr));
    ("kernel_bpf_map_id", JNumber (at_kernel_bpf_map_id attr))]%string).
Definition json_to_bpf_map_attr (j : json) : res bpf_map_attr :=
  type ← jat j "map_type" ≫= jnum s32;
  key_size ← jat j "key_size" ≫= jnum u32;
  value_size ← jat j "value_size" ≫= jnum u32;
  max_ents ← jat j "max_entries" ≫= jnum u32;
  flags ← jat j "flags" ≫= jnum u64;
  map_extra ← jat j "map_extra" ≫= jnum u64;
  kernel_bpf_map_id ← jat j "kernel_bpf_map_id" ≫= jnum u32;
  Ok (MapAttr (type_of_num type) key_size value_size max_ents flags map_extra kernel_bpf_map_id).

Section json.
Context {U : Type} `{!UnorderedMap (list Z) U} {UL : Type} `{!UnorderedMap hash_map_value UL}.
Context `{Kernel} {F : Type} `{!KernelUserMaps F} (cpu : Z) (with_libbpf : bool) (table : ops_table) (mc : machine).
Context {K : Type} `{!PosixFds K} {C : Type} {T : Type} `{!JsonText T}.
(** The member [type] of a program is not set by its constructor: what is found there. *)
Variable stale : Z → Z.

Abbreviation shm := (bpftime_shm (U := U) (UL := UL) (F := F) (K := K) (C := C)).
Implicit Types s : shm.

(** ** Export *)

Definition bpf_perf_event_handler_attr_to_json s (e : bpf_perf_event_handler) : res json :=
  match pe_event e with
  | DUprobe offset pid ref_ctr_off module_name =>
      Ok (JObject (obj_of [("type", JNumber (pe_type e)); ("data_type", JString "uprobe_perf_event_data"); ("offset", JNumber offset); ("pid", JNumber pid);
        ("ref_ctr_off", JNumber ref_ctr_off); ("_module_name", JString module_name)]))
  | DTracepoint pid tracepoint_id =>
      Ok (JObject (obj_of [("type", JNumber (pe_type e)); ("data_type", JString "tracepoint_perf_event_data"); ("pid", JNumber pid);
        ("tracepoint_id", JNumber tracepoint_id)]))
  | DSoftware p =>
      match sh_perf s !! p with
      | Some d => Ok (JObject (obj_of [("type", JNumber (pe_type e)); ("data_type", JString "software_perf_event_shared_ptr"); ("cpu", JNumber (sp_cpu d));
          ("config", JNumber (sp_config d)); ("sample_type", JNumber (sp_sample_type d))]))
      | None => Fault
      end
  | DCustom _ | DKprobe _ _ _ => Ok (JObject [("type", JNumber (pe_type e))])
  end%string.

Definition handler_to_json s (i : Z) (h : handler) : res json :=
  match h with
  | HProg p =>
      let attr := JObject (obj_of [("type", JNumber (stale i)); ("insns", JString (buffer_to_hex_string (insns_to_bytes (pr_insns p)))); ("cnt", JNumber (zlen (pr_insns p)))]) in
      Ok (JObject (obj_of [("type", JString "bpf_prog_handler"); ("attr", attr); ("name", JString (pr_name p))]))
  | HMap h => Ok (JObject (obj_of [("type", JString "bpf_map_handler"); ("name", JString (mh_name h)); ("attr", bpf_map_attr_to_json (mh_attr h))]))
  | HPerfEvent e =>
      attr ← bpf_perf_event_handler_attr_to_json s e;
      Ok (JObject (obj_of [("type", JString "bpf_perf_event_handler"); ("attr", attr); ("enabled", JBool (pe_enabled e))]))
  | HEpoll _ => Ok (JObject [("type", JString "epoll_handler")])
  | HLink l =>
      Ok (JObject (obj_of [("type", JString "bpf_link_handler");
        ("attr", JObject (obj_of [("prog_fd", JNumber (lk_prog_id l)); ("target_fd", JNumber (lk_attach_target_id l))]))]))
  | _ => Raw (-1)
  end%string.

Fixpoint export_loop s (l : list (nat * handler)) (j : list (string * json)) : res (list (string * json)) :=
  match l with
  | [] => Ok j
  | (i, h) :: l =>
      if unused h then export_loop s l j
      else v ← handler_to_json s (Z.of_nat i) h; export_loop s l (obj_insert (to_string (Z.of_nat i)) v j)
  end.
Definition bpftime_export_shm_to_json s : res T :=
  match sh_manager s with
  | None => Raw (-1)
  | Some m => j ← export_loop s (imap pair (handlers m)) []; dump j
  end.

(** ** Import *)

(** An action of the shared memory, whose result is not looked at. *)
Definition act (x : res Z * shm) : res Z * shm := ignoring 0 x.
(** Reading from a value does not change the shared memory; what it throws ends the import. *)
Definition reading {A} (r : res A) s (f : A → res Z * shm) : res Z * shm :=
  match r with Ok a => f a | Err e => (Err e, s) | Raw c => (Raw c, s) | Throw => (Throw, s) | Fault => (Fault, s) end.

Fixpoint attach_targets (fds : list json) (fd : Z) s : res Z * shm :=
  match fds with
  | [] => (Ok 0, s)
  | j :: fds =>
      reading (jnum s32 j) s (λ perf_fd,
        match act (add_bpf_prog_attach_target cpu with_libbpf table mc perf_fd fd None s) with
        | (Ok _, s) => attach_targets fds fd s
        | r => r
        end)
  end.

Definition import_prog (value : json) (fd : Z) s : res Z * shm :=
  reading (attr ← jget value "attr"; insns_str ← jget attr "insns" ≫= jstring; name ← jget value "name" ≫= jstring;
           _ ← jget attr "type" ≫= jnum s32; cnt ← jget attr "cnt" ≫= jnum s32;
           bytes ← (if cnt <? 0 then Throw else hex_string_to_buffer insns_str (cnt * 8));
           fds ← jget attr "attach_fds";
           Ok (bytes_to_insns (Z.to_nat cnt) bytes, cnt, name, jitems fds)) s
    (λ '(insns, cnt, name, fds),
       match act (add_bpf_prog cpu with_libbpf table mc fd insns cnt name s) with
       | (Ok _, s) => attach_targets fds fd s
       | r => r
       end).

Definition import_map (value : json) (fd : Z) s : res Z * shm :=
  reading (name ← jget value "name" ≫= jstring; attr ← jget value "attr" ≫= json_to_bpf_map_attr; Ok (name, attr)) s
    (λ '(name, attr), act (add_bpf_map cpu with_libbpf table mc fd name attr s)).

(** [pid] and [tracepoint_id] are read for all kinds of events. *)
Definition import_perf_event (value : json) (fd : Z) s : res Z * shm :=
  reading (attr ← jget value "attr"; type ← jget attr "type" ≫= jnum s32; pid ← jget attr "pid" ≫= jnum s32;
           tracepoint_id ← jget attr "tracepoint_id" ≫= jnum s32; Ok (attr, type, pid, tracepoint_id)) s
    (λ '(attr, type, pid, tracepoint_id),
       let kind t := type =? event_num t in
       let probe retprobe :=
         reading (ref_ctr_off ← jget attr "ref_ctr_off" ≫= jnum s32; offset ← jget attr "offset" ≫= jnum s32;
                  name ← jget attr "_module_name" ≫= jstring; Ok (ref_ctr_off, offset, name)) s
           (λ '(ref_ctr_off, offset, name), act (add_uprobe cpu with_libbpf table mc fd pid name (u64 offset) retprobe (u64 ref_ctr_off) s)) in
       let made :=
         if kind BPF_TYPE_UPROBE then probe false
         else if kind BPF_TYPE_URETPROBE then probe true
         else if kind PERF_TYPE_TRACEPOINT then act (add_tracepoint cpu with_libbpf table mc fd pid tracepoint_id s)
         else if kind BPF_TYPE_UPROBE_OVERRIDE then
           reading (offset ← jget attr "offset" ≫= jnum s32; name ← jget attr "_module_name" ≫= jstring; Ok (offset, name)) s
             (λ '(offset, name), act (add_uprobe_override cpu with_libbpf table mc fd pid name (u64 offset) false s))
         else if kind PERF_TYPE_SOFTWARE then
           reading (cpu_arg ← jget attr "cpu" ≫= jnum s32; sample_type ← jget attr "sample_type" ≫= jnum s32; config ← jget attr "config" ≫= jnum s64;
                    Ok (cpu_arg, sample_type, config)) s
             (λ '(cpu_arg, sample_type, config), act (add_software_perf_event_at cpu with_libbpf table mc fd cpu_arg sample_type config s))
         else (Raw (-1), s) in
       match made with
       | (Ok _, s) => reading (jget value "enabled" ≫= jbool) s (λ b, if b : bool then act (let '(r, s) := perf_event_enable fd s in (zero_of r, s)) else (Ok 0, s))
       | r => r
       end).

Definition import_link (value : json) (fd : Z) s : res Z * shm :=
  reading (attr ← jget value "attr"; prog_fd ← jget attr "prog_fd" ≫= jnum u32; target_fd ← jget attr "target_fd" ≫= jnum u32; Ok (prog_fd, target_fd)) s
    (λ '(prog_fd, target_fd), act (add_bpf_link cpu with_libbpf table mc fd (Some (BpfLinkCreateArgs prog_fd target_fd)) s)).

Definition import_shm_handler_from_json (value : json) (fd : Z) s : res Z * shm :=
  reading (jget value "type" ≫= jstring) s (λ handler_type,
    if decide (handler_type = "bpf_prog_handler") then import_prog value fd s
    else if decide (handler_type = "bpf_map_handler") then import_map value fd s
    else if decide (handler_type = "bpf_perf_event_handler") then import_perf_event value fd s
    else if decide (handler_type = "bpf_link_handler") then import_link value fd s
    else (Raw (-1), s))%string.

Fixpoint import_loop (j : list (string * json)) s : res Z * shm :=
  match j with
  | [] => (Ok 0, s)
  | (key, value) :: j =>
      reading (stoi key) s (λ fd,
        match import_shm_handler_from_json value fd s with
        | (Ok _, s) => import_loop j s
        | (Raw _, s) | (Err _, s) => (Raw (-1), s)
        | r => r
        end)
  end.
Definition bpftime_import_shm_from_json (file : T) s : res Z * shm := reading (parse file) s (λ j, import_loop j s).

(** The descriptor is passed as the value, and the value as the descriptor: it is converted to an int. *)
Definition bpftime_import_shm_handler_from_json (fd : Z) (json_string : json) s : res Z * shm :=
  reading (jnum s32 json_string) s (λ n, import_shm_handler_from_json (JNumber fd) n s).
End json.
