(* ===== verification/ShmJsonProps.v ===== *)
(** * Properties of export and import

    A shared memory that is exported and imported into a new one gets its handlers back, without the cookies of links; which
    kinds of handlers, and which links, are lost. *)

From Stdlib Require Import Ascii OrderedTypeEx.
From stdpp Require Import base numbers list gmap strings sorting.
From S2P Require Import Prelude.
From S2P Require Import EbpfIsa.
From S2P Require Import UnorderedMap.
From S2P Require Import LruHashMap.
From S2P Require Import FdArray.
From S2P Require Import PerfEvent.
From S2P Require Import ArrayMap.
From S2P Require Import MapHandler.
From S2P Require Import HandlerManager.
From S2P Require Import Shm.
From S2P Require Import ShmProps.
From S2P Require Import ShmMaps.
From S2P Require Import AttachArgs.
From S2P Require Import SyscallServer.
From S2P Require Import JsonValue.
From S2P Require Import ShmJson.

(** ** Objects *)

Lemma obj_insert_new {A} k (v : A) o : k ∉ o.*1 → obj_insert k v o ≡ₚ (k, v) :: o.
Proof.
  induction o as [|[k' v'] o IH]; [done|]. cbn [fmap list_fmap fst obj_insert]. intros Hk. apply not_elem_of_cons in Hk as [Hne Hk].
  destruct (String.compare k k') eqn:E; [|done|].
  - by apply String.compare_eq_iff in E.
  - rewrite IH by done. apply Permutation_swap.
Qed.

Lemma to_string_inj i j : to_string i = to_string j → i = j.
Proof. intros E. pose proof (strto_to_string i) as Hi. rewrite E, strto_to_string in Hi. injection Hi as Hs Ha. lia. Qed.

(** ** Attributes *)

Definition attr_ok (a : bpf_map_attr) : Prop :=
  type_of_num (type_num (at_type a)) = at_type a ∧ - 2 ^ 31 ≤ type_num (at_type a) < 2 ^ 31 ∧ 0 ≤ at_key_size a < 2 ^ 32 ∧ 0 ≤ at_value_size a < 2 ^ 32 ∧
  0 ≤ at_max_ents a < 2 ^ 32 ∧ 0 ≤ at_flags a < 2 ^ 64 ∧ 0 ≤ at_map_extra a < 2 ^ 64 ∧ 0 ≤ at_kernel_bpf_map_id a < 2 ^ 32.
Lemma attr_roundtrip a : attr_ok a → json_to_bpf_map_attr (bpf_map_attr_to_json a) = Ok a.
Proof.
  destruct a as [ty k v m f x i]. intros (Ht&H0&H1&H2&H3&H4&H5&H6). cbn [at_type at_key_size at_value_size at_max_ents at_flags at_map_extra at_kernel_bpf_map_id] in *.
  unfold json_to_bpf_map_attr. set (j := bpf_map_attr_to_json _).
  change (jat j "map_type") with (Ok (JNumber (type_num ty))). change (jat j "key_size") with (Ok (JNumber k)). change (jat j "value_size") with (Ok (JNumber v)).
  change (jat j "max_entries") with (Ok (JNumber m)). change (jat j "flags") with (Ok (JNumber f)). change (jat j "map_extra") with (Ok (JNumber x)).
  change (jat j "kernel_bpf_map_id") with (Ok (JNumber i)). cbn [mbind res_bind jnum]. by rewrite s32_signed, !u32_small, !u64_small, Ht by done.
Qed.

Section props.
Context {U : Type} `{!UnorderedMap (list Z) U} {UL : Type} `{!UnorderedMap hash_map_value UL}.
Context `{Kernel} {F : Type} `{!KernelUserMaps F} (cpu : Z) (with_libbpf : bool) (table : ops_table) (mc : machine).
Context {K : Type} `{!PosixFds K} {C : Type} {T : Type} `{!JsonText T, !JsonTextLaws T}.
Variable stale : Z → Z.

Abbreviation shm := (bpftime_shm (U := U) (UL := UL) (F := F) (K := K) (C := C)).
Abbreviation objects := (gmap string (map_impl (U := U) (UL := UL) (F := F))).
Abbreviation manager := (handler_manager (H := bpf_map_handler) (W := objects) (P := bpf_prog_handler)
  (E := bpf_perf_event_handler) (X := epoll_handler) (Y := memfd_handler)).
Abbreviation import_handler := (import_shm_handler_from_json cpu with_libbpf table mc).
Implicit Types (s : shm) (m : manager) (h : handler).
#[local] Hint Extern 0 (MapHandlerOps _ _) => exact (map_handler_ops cpu with_libbpf table mc) : typeclass_instances.

(** ** One handler *)

(** The handler of a map that its constructor and [map_init] made, with a new object for any memory without its name. *)
Definition map_made (h : bpf_map_handler) : Prop :=
  with_ptr h None = bpf_map_handler_create 0 (mh_name h) (mh_attr h) ∧
  ∃ o, ∀ w : objects, w !! get_container_name h = None →
    map_init cpu with_libbpf table mc (with_ptr h None) w = (Ok tt, h, <[get_container_name h := o]> w).

(** What can be imported when maps with the names in the given set are there. *)
Definition entry_ok (names : gset string) h : Prop :=
  match h with
  | HProg p => Forall inst_wf (pr_insns p) ∧ pr_aot_insns p = [] ∧ zlen (pr_insns p) < 2 ^ 31
  | HMap h => attr_ok (mh_attr h) ∧ map_made h ∧ get_container_name h ∉ names
  | HPerfEvent e => ∃ b pid id, e = BpfPerfEventHandler (event_num PERF_TYPE_TRACEPOINT) b (DTracepoint pid id) ∧ - 2 ^ 31 ≤ pid < 2 ^ 31 ∧ - 2 ^ 31 ≤ id < 2 ^ 31
  | HLink l => - 2 ^ 31 ≤ lk_prog_id l < 2 ^ 31 ∧ - 2 ^ 31 ≤ lk_attach_target_id l < 2 ^ 31
  | _ => False
  end.
(** What comes back: a link has no cookie. *)
Definition restored h : handler := match h with HLink l => HLink (BpfLinkHandler (lk_prog_id l) (lk_attach_target_id l) None) | _ => h end.
(** A link is made when its program is there, and is dropped without an error when it is not. *)
Definition after (progs : gset Z) h : handler := match h with HLink l => if decide (lk_prog_id l ∈ progs) then restored h else unused_handler | _ => h end.
Definition progs_with (progs : gset Z) (fd : Z) h : gset Z := match h with HProg _ => {[fd]} ∪ progs | _ => progs end.
Definition names_with (names : gset string) h : gset string := match h with HMap h => {[get_container_name h]} ∪ names | _ => names end.

(** [s'] is [s] with [h] at [fd]. *)
Definition added (names : gset string) fd h s s' : Prop :=
  (∀ i, handler_at s' i = if decide (i = fd) then Some h else handler_at s i) ∧
  ∃ m', sh_manager s' = Some m' ∧ ∀ n, is_Some (memory m' !! n) → n ∈ names.

Lemma added_put names fd h s m : sh_manager s = Some m → is_Some (handler_at s fd) → (∀ n, is_Some (memory m !! n) → n ∈ names) →
  added names fd h s (sh_set_manager s (put_handler m fd h)).
Proof. intros Hm Hf Hn. split; [intros i; by rewrite handler_at_put|]. by eexists. Qed.

Lemma import_prog_entry v p fd s m names : handler_to_json stale s fd (HProg p) = Ok v → entry_ok ∅ (HProg p) → ∀ s1, 0 ≤ fd →
  sh_manager s1 = Some m → handler_at s1 fd = Some unused_handler → (∀ n, is_Some (memory m !! n) → n ∈ names) →
  ∃ s', import_handler v fd s1 = (Ok 0, s') ∧ added names fd (HProg p) s1 s'.
Proof.
  intros Hv (Hw&Ha&Hz) s1 H0 Hm Hf Hn. injection Hv as <-. exists (sh_set_manager s1 (put_handler m fd (HProg p))). split; [|apply added_put; [done|by eexists|done]].
  set (insns := pr_insns p) in *. unfold import_shm_handler_from_json. set (v := JObject _).
  change (jget v "type" ≫= jstring) with (Ok "bpf_prog_handler"%string). cbn [reading]. rewrite decide_True by done. unfold import_prog.
  change (jget v "name" ≫= jstring) with (Ok (pr_name p)).
  change (jget v "attr") with (Ok (JObject (obj_of [("type", JNumber (stale fd)); ("insns", JString (buffer_to_hex_string (insns_to_bytes insns))); ("cnt", JNumber (zlen insns))]%string))).
  cbn [mbind res_bind]. set (a := JObject _).
  change (jget a "insns" ≫= jstring) with (Ok (buffer_to_hex_string (insns_to_bytes insns))). change (jget a "type" ≫= jnum s32) with (Ok (s32 (stale fd))).
  change (jget a "cnt" ≫= jnum s32) with (Ok (s32 (zlen insns))). change (jget a "attach_fds") with (Ok JNull). cbn [mbind res_bind].
  pose proof (zlen_nonneg insns). rewrite s32_small by lia. rewrite (proj2 (Z.ltb_ge _ _)) by lia.
  replace (zlen insns * 8) with (zlen (insns_to_bytes insns)) by (rewrite insns_bytes_length; lia).
  rewrite hex_buffer_roundtrip by apply insns_to_bytes_range. cbn [mbind res_bind reading jitems]. replace (Z.to_nat (zlen insns)) with (length insns) by (unfold zlen; lia). rewrite insns_roundtrip by done.
  unfold add_bpf_prog, fd_or_fake. rewrite (proj2 (Z.ltb_ge fd 0)) by lia. unfold bpf_prog_handler_create. rewrite (proj2 (Z.ltb_ge _ _)) by lia.
  rewrite take_ge by (unfold zlen; lia). replace (BpfProgHandler insns [] (pr_name p)) with p by (destruct p; cbn in *; by subst).
  by rewrite (set_handler_at_free cpu with_libbpf table mc s1 m fd (HProg p) Hm Hf I).
Qed.

Lemma import_map_entry v (h : bpf_map_handler) fd s m names : handler_to_json stale s fd (HMap h) = Ok v → entry_ok names (HMap h) → ∀ s1, 0 ≤ fd →
  sh_manager s1 = Some m → handler_at s1 fd = Some unused_handler → (∀ n, is_Some (memory m !! n) → n ∈ names) →
  ∃ s', import_handler v fd s1 = (Ok 0, s') ∧ added (names_with names (HMap h)) fd (HMap h) s1 s'.
Proof.
  intros Hv (Ha&[Hh [o Hi]]&Hn) s1 H0 Hm Hf Hns. injection Hv as <-.
  assert (Hw : memory m !! get_container_name h = None) by (apply eq_None_not_Some; by intros ?%Hns).
  specialize (Hi (memory m) Hw). rewrite Hh in Hi. destruct (add_bpf_map_ok cpu with_libbpf table mc fd (mh_name h) (mh_attr h) s1 m _ _ H0 Hm Hf Hi) as (s'&Hs'&Hm').
  exists s'. split.
  - unfold import_shm_handler_from_json. set (v := JObject _). change (jget v "type" ≫= jstring) with (Ok "bpf_map_handler"%string). cbn [reading].
    rewrite decide_False, decide_True by done. unfold import_map. change (jget v "name" ≫= jstring) with (Ok (mh_name h)).
    change (jget v "attr") with (Ok (bpf_map_attr_to_json (mh_attr h))). cbn [mbind res_bind]. rewrite attr_roundtrip by done. cbn [mbind res_bind reading].
    by rewrite Hs'.
  - split.
    + intros i. rewrite <- (handler_at_put s1 m fd (HMap h) i Hm) by (by eexists). unfold handler_at. by rewrite Hm'.
    + eexists. split; [done|]. cbn [memory names_with]. intros n [x Hx]. apply lookup_insert_Some in Hx as [[<- _]|[_ Hx]]; [set_solver|].
      apply elem_of_union_r, Hns. by eexists.
Qed.

Lemma import_event_entry v e fd s m names : handler_to_json stale s fd (HPerfEvent e) = Ok v → entry_ok ∅ (HPerfEvent e) → ∀ s1, 0 ≤ fd →
  sh_manager s1 = Some m → handler_at s1 fd = Some unused_handler → (∀ n, is_Some (memory m !! n) → n ∈ names) →
  ∃ s', import_handler v fd s1 = (Ok 0, s') ∧ added names fd (HPerfEvent e) s1 s'.
Proof.
  intros Hv (b&pid&id&->&Hp&Hid) s1 H0 Hm Hf Hn. injection Hv as <-.
  set (s2 := sh_set_manager s1 (put_handler m fd (HPerfEvent (tracepoint_event pid id)))).
  assert (Ha : add_tracepoint cpu with_libbpf table mc fd pid id s1 = (Ok fd, s2)).
  { unfold add_tracepoint, fd_or_fake. rewrite (proj2 (Z.ltb_ge fd 0)) by lia. apply set_handler_at_free; done. }
  set (s3 := sh_set_manager s2 (put_handler (put_handler m fd (HPerfEvent (tracepoint_event pid id))) fd (HPerfEvent (enable (tracepoint_event pid id))))).
  destruct (added_put names fd (HPerfEvent (tracepoint_event pid id)) s1 m Hm ltac:(by eexists) Hn) as [Hat2 _]. fold s2 in Hat2.
  assert (Hf2 : handler_at s2 fd = Some (HPerfEvent (tracepoint_event pid id))) by (by rewrite Hat2, decide_True).
  destruct (added_put names fd (HPerfEvent (enable (tracepoint_event pid id))) s2 _ eq_refl ltac:(by eexists) Hn) as [Hat3 _]. fold s3 in Hat3.
  assert (He : perf_event_enable fd s2 = (Ok tt, s3)) by (unfold perf_event_enable, set_perf_event; rewrite Hf2; done).
  assert (Hi : import_handler (JObject (obj_of [("type", JString "bpf_perf_event_handler"); ("attr", JObject (obj_of [("type", JNumber 2);
    ("data_type", JString "tracepoint_perf_event_data"); ("pid", JNumber pid); ("tracepoint_id", JNumber id)])); ("enabled", JBool b)]%string)) fd s1 =
    (Ok 0, if b then s3 else s2)).
  { unfold import_shm_handler_from_json. set (v := JObject _). change (jget v "type" ≫= jstring) with (Ok "bpf_perf_event_handler"%string). cbn [reading].
    rewrite !decide_False, decide_True by done. unfold import_perf_event. change (jget v "enabled" ≫= jbool) with (Ok b).
    change (jget v "attr") with (Ok (JObject (obj_of [("type", JNumber 2); ("data_type", JString "tracepoint_perf_event_data"); ("pid", JNumber pid); ("tracepoint_id", JNumber id)]%string))).
    cbn [mbind res_bind]. set (a := JObject _). change (jget a "type" ≫= jnum s32) with (Ok 2). change (jget a "pid" ≫= jnum s32) with (Ok (s32 pid)).
    change (jget a "tracepoint_id" ≫= jnum s32) with (Ok (s32 id)). cbn [mbind res_bind reading event_num Z.eqb Pos.eqb]. rewrite !s32_signed by done. rewrite Ha. cbn [act ignoring].
    by destruct b; [rewrite He|]. }
  destruct b; (eexists; split; [exact Hi|]).
  - split.
    + intros i. rewrite Hat3. case_decide; [done|]. by rewrite Hat2, decide_False.
    + eexists. split; [done|]. exact Hn.
  - split; [exact Hat2|]. eexists. split; [done|]. exact Hn.
Qed.

Lemma import_link_json v l fd s s1 : handler_to_json stale s fd (HLink l) = Ok v → - 2 ^ 31 ≤ lk_prog_id l < 2 ^ 31 → - 2 ^ 31 ≤ lk_attach_target_id l < 2 ^ 31 → 0 ≤ fd →
  import_handler v fd s1 = if is_prog_fd s1 (lk_prog_id l) then act (set_handler_at cpu with_libbpf table mc fd (restored (HLink l)) s1) else (Ok 0, s1).
Proof.
  intros Hv Hp Ht H0. injection Hv as <-. unfold import_shm_handler_from_json. set (v := JObject _).
  change (jget v "type" ≫= jstring) with (Ok "bpf_link_handler"%string). cbn [reading]. rewrite !decide_False, decide_True by done. unfold import_link.
  change (jget v "attr") with (Ok (JObject (obj_of [("prog_fd", JNumber (lk_prog_id l)); ("target_fd", JNumber (lk_attach_target_id l))]%string))).
  cbn [mbind res_bind]. set (a := JObject _). change (jget a "prog_fd" ≫= jnum u32) with (Ok (u32 (lk_prog_id l))).
  change (jget a "target_fd" ≫= jnum u32) with (Ok (u32 (lk_attach_target_id l))). cbn [mbind res_bind reading].
  unfold add_bpf_link, fd_or_fake. rewrite (proj2 (Z.ltb_ge fd 0)) by lia. cbn [la_prog_fd la_target_fd]. rewrite !s32_u32, !s32_signed by done.
  by destruct (is_prog_fd s1 (lk_prog_id l)).
Qed.

(** Each kind of handler comes back. *)
Lemma import_entry v h fd s progs names m : handler_to_json stale s fd h = Ok v → entry_ok names h → ∀ s1, 0 ≤ fd →
  sh_manager s1 = Some m → handler_at s1 fd = Some unused_handler → (∀ p, p ∈ progs ↔ is_prog_fd s1 p = true) → (∀ n, is_Some (memory m !! n) → n ∈ names) →
  ∃ s', import_handler v fd s1 = (Ok 0, s') ∧ added (names_with names h) fd (after progs h) s1 s'.
Proof.
  intros Hv Hok s1 H0 Hm Hf Hp Hn. destruct h as [|h|l|p|e|x|x]; try done.
  - by eapply import_map_entry.
  - destruct Hok as (Hpr&Htr). rewrite (import_link_json v l fd s s1 Hv Hpr Htr H0). cbn [after]. case_decide as Hin.
    + rewrite (proj1 (Hp _) Hin), (set_handler_at_free cpu with_libbpf table mc s1 m fd (restored (HLink l)) Hm Hf I). eexists. split; [done|].
      apply added_put; [done|by eexists|done].
    + destruct (is_prog_fd s1 (lk_prog_id l)) eqn:E; [by apply Hp in E|]. exists s1. split; [done|]. split; [intros i; by case_decide; subst|by exists m].
  - by eapply import_prog_entry.
  - by eapply import_event_entry.
Qed.

(** ** The table *)

(** The handlers of a table in the order of the text of their descriptors. *)
Definition key_step (o : list (string * (Z * handler))) (x : nat * handler) : list (string * (Z * handler)) :=
  if unused x.2 then o else obj_insert (to_string (Z.of_nat x.1)) (Z.of_nat x.1, x.2) o.
Definition key_order m : list (Z * handler) := (foldl key_step [] (imap pair (handlers m))).*2.
(** Each handler can be imported after those before it: the names of maps are not used twice. *)
Fixpoint importable (names : gset string) (es : list (Z * handler)) : Prop :=
  match es with [] => True | (_, h) :: es => entry_ok names h ∧ importable (names_with names h) es end.
Fixpoint after_import (progs : gset Z) (es : list (Z * handler)) : list (Z * handler) :=
  match es with [] => [] | (fd, h) :: es => (fd, after progs h) :: after_import (progs_with progs fd h) es end.

Definition json_entry s (x : Z * handler) : string * json :=
  (to_string x.1, match handler_to_json stale s x.1 x.2 with Ok v => v | _ => JNull end).

Lemma progs_after progs names fd h s1 s2 : handler_at s1 fd = Some unused_handler → (∀ p, p ∈ progs ↔ is_prog_fd s1 p = true) →
  added names fd (after progs h) s1 s2 → ∀ p, p ∈ progs_with progs fd h ↔ is_prog_fd s2 p = true.
Proof.
  intros Hf Hp [Hat _] p. assert (Hnf : fd ∉ progs) by (rewrite Hp; unfold is_prog_fd; by rewrite Hf). unfold is_prog_fd. rewrite Hat. case_decide as Hc.
  - subst p. destruct h as [|h|l|p|e|x|x]; cbn [progs_with after restored]; try (split; [done|discriminate]).
    + case_decide; (split; [done|discriminate]).
    + split; [done|]. set_solver.
  - fold (is_prog_fd s1 p). rewrite <- Hp. destruct h; cbn [progs_with]; set_solver.
Qed.

Lemma import_entries s es : ∀ progs names m s1, importable names es → NoDup es.*1 → Forall (λ x, 0 ≤ x.1 < 2 ^ 31 ∧ ∃ v, handler_to_json stale s x.1 x.2 = Ok v) es →
  sh_manager s1 = Some m → (∀ x, x ∈ es → handler_at s1 x.1 = Some unused_handler) → (∀ p, p ∈ progs ↔ is_prog_fd s1 p = true) →
  (∀ n, is_Some (memory m !! n) → n ∈ names) →
  ∃ s', import_loop cpu with_libbpf table mc (json_entry s <$> es) s1 = (Ok 0, s') ∧
    (∀ fd h, (fd, h) ∈ after_import progs es → handler_at s' fd = Some h) ∧ ∀ i, i ∉ es.*1 → handler_at s' i = handler_at s1 i.
Proof.
  induction es as [|[fd h] es IH]; intros progs names m s1 Hi Hnd Hall Hm Hun Hp Hn; [exists s1; split; [done|]; split; [set_solver|done]|].
  destruct Hi as [Hok Hi]. apply NoDup_cons in Hnd as [Hnin Hnd]. apply Forall_cons in Hall as [[Hfd [v Hv]] Hall]. cbn [fst snd] in *.
  assert (Hf0 : handler_at s1 fd = Some unused_handler) by (apply (Hun (fd, h)), elem_of_cons; by left).
  destruct (import_entry v h fd s progs names m Hv Hok s1 ltac:(lia) Hm Hf0 Hp Hn) as (s2&Himp&Hadd).
  pose proof (progs_after _ _ _ _ _ _ Hf0 Hp Hadd) as Hp2. destruct Hadd as (Hat&m2&Hm2&Hn2).
  destruct (IH (progs_with progs fd h) _ m2 s2 Hi Hnd Hall Hm2) as (s'&Hl&H1&H2); [|exact Hp2|done|].
  - intros [fd' h'] Hx. rewrite Hat, decide_False; [apply Hun; set_solver|]. cbn. intros ->. apply Hnin. apply list_elem_of_fmap. by exists (fd, h').
  - exists s'. split.
    + cbn [fmap list_fmap import_loop json_entry fst snd]. rewrite stoi_to_string, Hv by lia. cbn [reading]. by rewrite Himp.
    + split.
      * intros fd' h' [[= -> ->]|Hx]%elem_of_cons; [|by apply H1]. rewrite H2 by done. by rewrite Hat, decide_True.
      * intros i [Hne Hni]%not_elem_of_cons. rewrite H2 by done. by rewrite Hat, decide_False.
Qed.

Lemma imap_pair_fst {A} (l : list A) : (imap pair l).*1 = seq 0 (length l).
Proof.
  apply list_eq. intros i. rewrite list_lookup_fmap, list_lookup_imap. destruct (l !! i) as [x|] eqn:E; cbn.
  - symmetry. apply lookup_seq. apply lookup_lt_Some in E. lia.
  - symmetry. apply lookup_seq_ge. by apply lookup_ge_None.
Qed.

Definition entries_of (l : list (nat * handler)) : list (string * (Z * handler)) :=
  omap (λ x, if unused x.2 then None else Some (to_string (Z.of_nat x.1), (Z.of_nat x.1, x.2))) l.
Lemma key_steps l : ∀ o, NoDup l.*1 → (∀ i, i ∈ l.*1 → to_string (Z.of_nat i) ∉ o.*1) → foldl key_step o l ≡ₚ entries_of l ++ o.
Proof.
  induction l as [|[i h] l IH]; intros o Hnd Ho; [done|]. apply NoDup_cons in Hnd as [Hi Hnd]. cbn [foldl]. unfold key_step at 2. cbn [fst snd].
  unfold entries_of. cbn [omap list_omap fst snd]. fold (entries_of l). assert (Hio : to_string (Z.of_nat i) ∉ o.*1) by (apply Ho; set_solver).
  destruct (unused h); [apply IH; [done|set_solver]|].
  rewrite IH; [|done|].
  - rewrite (obj_insert_new _ _ _ Hio). symmetry. apply Permutation_middle.
  - intros j Hj. rewrite (obj_insert_new _ _ _ Hio). cbn [fmap list_fmap fst]. apply not_elem_of_cons. split; [|apply Ho; set_solver].
    intros E%to_string_inj. assert (i = j) as -> by lia. done.
Qed.

Lemma key_order_perm m : foldl key_step [] (imap pair (handlers m)) ≡ₚ entries_of (imap pair (handlers m)).
Proof. rewrite key_steps, app_nil_r; [done| |set_solver]. rewrite imap_pair_fst. apply NoDup_seq. Qed.
Lemma elem_entries m k fd h : (k, (fd, h)) ∈ entries_of (imap pair (handlers m)) ↔ 0 ≤ fd ∧ k = to_string fd ∧ handlers m !! Z.to_nat fd = Some h ∧ unused h = false.
Proof.
  unfold entries_of. rewrite list_elem_of_omap. split.
  - intros ([i h']&Hin&E). cbn [fst snd] in E. destruct (unused h') eqn:Eu; [done|]. injection E as <- <- <-.
    apply elem_of_lookup_imap in Hin as (i'&x&[= -> ->]&Hl). rewrite Nat2Z.id. split; [lia|done].
  - intros (H0&->&Hl&Hu). exists (Z.to_nat fd, h). cbn [fst snd]. rewrite Hu, Z2Nat.id by done. split; [|done]. apply elem_of_lookup_imap. by exists (Z.to_nat fd), h.
Qed.
Lemma elem_key_order m fd h : (fd, h) ∈ key_order m ↔ 0 ≤ fd ∧ handlers m !! Z.to_nat fd = Some h ∧ unused h = false.
Proof.
  unfold key_order. rewrite key_order_perm, list_elem_of_fmap. split.
  - intros ([k [fd' h']]&[= <- <-]&Hin). apply elem_entries in Hin. naive_solver.
  - intros (H0&Hl&Hu). exists (to_string fd, (fd, h)). split; [done|]. by apply elem_entries.
Qed.
Lemma key_order_NoDup m : NoDup (key_order m).*1.
Proof.
  unfold key_order. rewrite key_order_perm. unfold entries_of. assert (Hnd : NoDup (imap pair (handlers m)).*1) by (rewrite imap_pair_fst; apply NoDup_seq).
  induction (imap pair (handlers m)) as [|[i h] l IH]; [constructor|]. apply NoDup_cons in Hnd as [Hi Hnd]. cbn [omap list_omap fst snd].
  destruct (unused h); [by apply IH|]. cbn [fmap list_fmap snd fst]. constructor; [|by apply IH].
  intros (x&Ex&Hx)%list_elem_of_fmap. apply list_elem_of_fmap in Hx as (y&->&Hy). apply list_elem_of_omap in Hy as ([j h']&Hin&E). cbn [fst snd] in E.
  destruct (unused h'); [done|]. injection E as <-. cbn in Ex. apply Hi, list_elem_of_fmap. exists (j, h'). split; [cbn; lia|done].
Qed.

Lemma export_loop_order s l : ∀ (o : list (string * (Z * handler))) j, (∀ x, x ∈ o → x.1 = to_string x.2.1) →
  export_loop stale s l (json_entry s <$> o.*2) = Ok j →
  j = json_entry s <$> (foldl key_step o l).*2 ∧ ∀ i h, (i, h) ∈ l → unused h = false → ∃ v, handler_to_json stale s (Z.of_nat i) h = Ok v.
Proof.
  induction l as [|[i h] l IH]; intros o j Ho; cbn [export_loop foldl]; [intros [= <-]; split; [done|set_solver]|].
  unfold key_step at 2. cbn [fst snd]. destruct (unused h) eqn:Eu; [intros Hx; destruct (IH o j Ho Hx) as [-> H2]; split; [done|]; intros i' h' [[= -> ->]|Hin]%elem_of_cons; [congruence|by eapply H2]|].
  destruct (handler_to_json stale s (Z.of_nat i) h) as [v| | | |] eqn:Ev; try done. cbn [mbind res_bind].
  assert (Hins : obj_insert (to_string (Z.of_nat i)) v (json_entry s <$> o.*2) = json_entry s <$> (obj_insert (to_string (Z.of_nat i)) (Z.of_nat i, h) o).*2).
  { clear -Ho Ev. induction o as [|[k' [fd' h']] o IHo]; cbn [obj_insert fmap list_fmap snd]; [unfold json_entry; cbn [fst snd]; by rewrite Ev|].
    pose proof (Ho (k', (fd', h')) ltac:(set_solver)) as Hk. cbn [fst snd] in Hk. subst k'. unfold json_entry at 1. cbn [fst snd].
    destruct (String.compare _ _); cbn [fmap list_fmap snd]; [unfold json_entry at 2|unfold json_entry at 3|]; cbn [fst snd]; rewrite ?Ev; try done.
    f_equal. apply IHo. intros x Hx. apply Ho. set_solver. }
  rewrite Hins. intros Hx. apply IH in Hx as [-> H2].
  - split; [done|]. intros i' h' [[= -> ->]|Hin]%elem_of_cons Hu; [by eexists|by eapply H2].
  - clear -Ho. induction o as [|[k' [fd' h']] o IHo]; cbn [obj_insert]; [set_solver|].
    destruct (String.compare _ _); intros x; rewrite elem_of_cons; [set_solver|set_solver|]. intros [->|Hx]; [apply Ho; set_solver|]. apply IHo; [set_solver|done].
Qed.

(** ** The order of the keys *)

Abbreviation key_lt := (λ x y : string * (Z * handler), String.compare x.1 y.1 = Lt).
Lemma compare_trans a b c : String.compare a b = Lt → String.compare b c = Lt → String.compare a c = Lt.
Proof. intros H1%String_as_OT.cmp_lt H2%String_as_OT.cmp_lt. apply String_as_OT.cmp_lt. by eapply String_as_OT.lt_trans. Qed.
Lemma compare_refl a : String.compare a a = Eq.
Proof. pose proof (String.compare_antisym a a) as E. destruct (String.compare a a); [done|discriminate E|discriminate E]. Qed.

Lemma obj_insert_sorted k v (o : list (string * (Z * handler))) : StronglySorted key_lt o → StronglySorted key_lt (obj_insert k v o) ∧
  ∀ k0, String.compare k0 k = Lt → Forall (λ x, String.compare k0 x.1 = Lt) o → Forall (λ x, String.compare k0 x.1 = Lt) (obj_insert k v o).
Proof.
  induction 1 as [|[k' v'] o Hs [IH1 IH2] Hf]; cbn [obj_insert]; [split; [by repeat constructor|by intros; constructor]|].
  destruct (String.compare k k') eqn:E.
  - apply String.compare_eq_iff in E as ->. split; [by constructor|]. intros k0 Hk [_ Ho]%Forall_cons. by constructor.
  - split; [|intros k0 Hk Ho; by constructor]. constructor; [by constructor|]. constructor; [done|]. eapply Forall_impl; [exact Hf|]. intros x Hx. cbn in *. by eapply compare_trans.
  - assert (Hk' : String.compare k' k = Lt) by (rewrite String.compare_antisym, E; done). split.
    + constructor; [done|]. by apply IH2.
    + intros k0 Hk [H1 Ho]%Forall_cons. constructor; [done|]. by apply IH2.
Qed.
Lemma key_steps_sorted l : ∀ o, StronglySorted key_lt o → StronglySorted key_lt (foldl key_step o l).
Proof. induction l as [|[i h] l IH]; intros o Ho; [done|]. cbn [foldl]. apply IH. unfold key_step. destruct (unused _); [done|]. by apply obj_insert_sorted. Qed.

Lemma key_order_split m es1 fd h es2 p q : key_order m = es1 ++ (fd, h) :: es2 →
  (p, q) ∈ es1 ↔ (p, q) ∈ key_order m ∧ String.compare (to_string p) (to_string fd) = Lt.
Proof.
  intros He. pose proof (key_steps_sorted (imap pair (handlers m)) [] ltac:(constructor)) as Hs. pose proof He as He'. unfold key_order in He'.
  assert (Hk : ∀ x, x ∈ foldl key_step [] (imap pair (handlers m)) → x.1 = to_string x.2.1).
  { intros [k [fd' h']]. rewrite key_order_perm. intros Hx%elem_entries. naive_solver. }
  apply fmap_app_inv in He' as (r1&r2&->&Hr2&Er). destruct r2 as [|[k [fd' h']] r2]; [done|]. cbn in Hr2. injection Hr2 as <- <- ->. rewrite Er in Hs, Hk.
  pose proof (Hk (k, (fd, h)) ltac:(set_solver)) as Hkf. cbn in Hkf. subst k.
  assert (Hb : ∀ x, x ∈ r1 → String.compare x.1 (to_string fd) = Lt).
  { intros x Hx. apply list_elem_of_split in Hx as (a&b&->). rewrite <- app_assoc in Hs. apply StronglySorted_app_1_r in Hs. cbn [app] in Hs.
    apply StronglySorted_inv in Hs as [_ Hf]. rewrite Forall_forall in Hf. apply (Hf (to_string fd, (fd, h))). set_solver. }
  assert (Ha : ∀ x, x ∈ r2 → String.compare (to_string fd) x.1 = Lt).
  { apply StronglySorted_app_1_r in Hs. apply StronglySorted_inv in Hs as [_ Hf]. by rewrite Forall_forall in Hf. }
  rewrite He, elem_of_app, elem_of_cons, !list_elem_of_fmap. split.
  - intros (x&Ex&Hx). split; [left; by exists x|]. specialize (Hb x Hx). rewrite (Hk x) in Hb by set_solver. by rewrite <- Ex in Hb.
  - intros [[Hx|[[= -> ->]|(x&Ex&Hx)]] Hc]; [done|by rewrite compare_refl in Hc|]. specialize (Ha x Hx). rewrite (Hk x) in Ha by set_solver. rewrite <- Ex in Ha.
    cbn [fst] in Ha. by rewrite String.compare_antisym, Ha in Hc.
Qed.

Lemma after_import_split es1 : ∀ progs fd h es2, ∃ progs', (fd, after progs' h) ∈ after_import progs (es1 ++ (fd, h) :: es2) ∧
  ∀ p, p ∈ progs' ↔ p ∈ progs ∨ ∃ q, (p, HProg q) ∈ es1.
Proof.
  induction es1 as [|[fd1 h1] es1 IH]; intros progs fd h es2; cbn [app after_import].
  - exists progs. split; [set_solver|]. intros p. split; [by left|]. intros [?|[q Hq]]; [done|set_solver].
  - destruct (IH (progs_with progs fd1 h1) fd h es2) as (progs'&Hin&Hp). exists progs'. split; [set_solver|]. intros p. rewrite Hp.
    destruct h1; cbn [progs_with]; set_solver.
Qed.

(** ** Files *)

Lemma handler_at_table s m fd h : sh_manager s = Some m → handler_at s fd = Some h ↔ 0 ≤ fd ∧ handlers m !! Z.to_nat fd = Some h.
Proof.
  intros Hm. split.
  - intros Hh. destruct (handler_at_in _ _ _ _ Hm Hh) as [Hin Hl]. apply in_table_lookup in Hin as [H0 _]. done.
  - intros [H0 Hl]. unfold handler_at. rewrite Hm. cbn [mbind option_bind]. by rewrite (proj2 (in_table_lookup m fd)) by (by split; [|eexists]).
Qed.

Lemma export_entries s m file : sh_manager s = Some m → bpftime_export_shm_to_json stale s = Ok file → zlen (handlers m) ≤ 2 ^ 31 →
  parse file = Ok (json_entry s <$> key_order m) ∧ Forall (λ x, 0 ≤ x.1 < 2 ^ 31 ∧ ∃ v, handler_to_json stale s x.1 x.2 = Ok v) (key_order m).
Proof.
  intros Hm Hx Hz. unfold bpftime_export_shm_to_json in Hx. rewrite Hm in Hx. destruct (export_loop stale s (imap pair (handlers m)) []) as [j| | | |] eqn:Ej; try done.
  cbn [mbind res_bind] in Hx. apply parse_dump in Hx. destruct (export_loop_order s (imap pair (handlers m)) [] j ltac:(set_solver) Ej) as [-> Hj].
  split; [done|]. apply Forall_forall. intros [fd h] (H0&Hl&Hu)%elem_key_order. cbn [fst snd]. apply lookup_lt_Some in Hl as Hlt. unfold zlen in Hz. split; [lia|].
  destruct (Hj (Z.to_nat fd) h) as [v Hv]; [|done|rewrite Z2Nat.id in Hv by done; by exists v]. apply elem_of_lookup_imap. by exists (Z.to_nat fd), h.
Qed.

(** A new shared memory with a table of [n] entries. *)
Definition fresh_table (n : nat) s : Prop := ∃ m, sh_manager s = Some m ∧ handlers m = replicate n unused_handler ∧ memory m = ∅.
Lemma fresh_unused n s fd : fresh_table n s → 0 ≤ fd < Z.of_nat n → handler_at s fd = Some unused_handler.
Proof. intros (m&Hm&Hl&_) Hfd. apply (handler_at_table s m); [done|]. split; [lia|]. rewrite Hl. apply lookup_replicate. split; [done|lia]. Qed.
Lemma fresh_entries n s m : fresh_table n s → n = length (handlers m) → ∀ x, x ∈ key_order m → handler_at s x.1 = Some unused_handler.
Proof. intros Hs -> [fd h] (H0&Hl&_)%elem_key_order. apply (fresh_unused _ _ _ Hs). apply lookup_lt_Some in Hl. cbn. lia. Qed.
Lemma fresh_progs n s p : fresh_table n s → p ∈ (∅ : gset Z) ↔ is_prog_fd s p = true.
Proof.
  intros (m&Hm&Hl&_). split; [set_solver|]. unfold is_prog_fd. destruct (handler_at s p) as [h|] eqn:E; [|done].
  apply (handler_at_table s m) in E as [_ E]; [|done]. rewrite Hl in E. by apply lookup_replicate in E as [-> _].
Qed.

(** What a handler of [s] is after the import. *)
Definition reimported s (fd : Z) h : handler :=
  match h with
  | HLink l => if is_prog_fd s (lk_prog_id l) && String.ltb (to_string (lk_prog_id l)) (to_string fd) then restored h else unused_handler
  | _ => h
  end.

Lemma link_program_before s m es1 fd h es2 p : sh_manager s = Some m → key_order m = es1 ++ (fd, h) :: es2 →
  (∃ q, (p, HProg q) ∈ es1) ↔ is_prog_fd s p && String.ltb (to_string p) (to_string fd) = true.
Proof.
  intros Hm He. setoid_rewrite (key_order_split m es1 fd h es2 _ _ He). setoid_rewrite elem_key_order. rewrite andb_true_iff. unfold String.ltb, is_prog_fd. split.
  - intros (q&(Hq0&Hq&_)&->). by rewrite (proj2 (handler_at_table s m _ _ Hm) (conj Hq0 Hq)).
  - intros [Hq Hc]. destruct (handler_at s p) as [[]|] eqn:Eq; try done. apply (handler_at_table s m _ _ Hm) in Eq as [? Eq].
    eexists. split; [by split|]. by destruct (String.compare _ _).
Qed.

(** C16 (roundtrip). A shared memory with programs that have no AOT code, maps of different names, tracepoints and
    links is exported and imported into a new one: every handler of a program, map or tracepoint is there again under its
    descriptor, with the same name, instructions and attributes; the values in a map are not exported, and nothing is said
    about them. A link is there, without its cookie, when its program is in the table and the text of the program's descriptor
    is smaller than the text of its own; other links are dropped without an error. *)
Theorem json_roundtrip s m file s0 :
  sh_manager s = Some m → bpftime_export_shm_to_json stale s = Ok file → importable ∅ (key_order m) → zlen (handlers m) ≤ 2 ^ 31 →
  fresh_table (length (handlers m)) s0 →
  ∃ s', bpftime_import_shm_from_json cpu with_libbpf table mc file s0 = (Ok 0, s') ∧ ∀ fd, handler_at s' fd = reimported s fd <$> handler_at s fd.
Proof.
  intros Hm Hx Hi Hz Hs0. destruct (export_entries s m file Hm Hx Hz) as [Hp Hall]. pose proof Hs0 as (m0&Hm0&Hl0&Hw0).
  destruct (import_entries s (key_order m) ∅ ∅ m0 s0 Hi (key_order_NoDup m) Hall Hm0 (fresh_entries _ _ m Hs0 eq_refl) (λ p, fresh_progs _ _ p Hs0)) as (s'&Hl&H1&H2).
  { rewrite Hw0. intros n [x Hn]. by rewrite lookup_empty in Hn. }
  exists s'. unfold bpftime_import_shm_from_json. rewrite Hp. split; [done|]. intros fd. destruct (handler_at s fd) as [h|] eqn:Eh; cbn [fmap option_fmap option_map].
  - apply (handler_at_table s m fd h Hm) in Eh as [H0 El]. destruct (unused h) eqn:Eu.
    { destruct h; try done. rewrite H2; [apply (fresh_unused _ _ _ Hs0); apply lookup_lt_Some in El; lia|]. intros ([fd' h']&->&Hin)%list_elem_of_fmap. cbn in El. apply elem_key_order in Hin as (_&Hin&Hu).
      rewrite El in Hin. by injection Hin as <-. }
    assert (Hin : (fd, h) ∈ key_order m) by (by apply elem_key_order). apply list_elem_of_split in Hin as (es1&es2&He).
    destruct (after_import_split es1 ∅ fd h es2) as (progs&Hin&Hpr). rewrite <- He in Hin. rewrite (H1 _ _ Hin). f_equal. destruct h as [|h|l|p|e|x|x]; try done.
    cbn [after reimported]. assert (Hiff := link_program_before s m es1 fd (HLink l) es2 (lk_prog_id l) Hm He).
    assert (Hin' : lk_prog_id l ∈ progs ↔ ∃ q, (lk_prog_id l, HProg q) ∈ es1) by (rewrite Hpr; set_solver). rewrite Hiff in Hin'.
    case_decide as Hd; [by rewrite (proj1 Hin' Hd)|]. destruct (_ && _); [|done]. exfalso. by apply Hd, Hin'.
  - rewrite H2.
    + destruct (handler_at s0 fd) as [h|] eqn:E; [|done]. apply (handler_at_table s0 m0 fd h Hm0) in E as [H0 E]. rewrite Hl0 in E. apply lookup_replicate in E as [_ Hlt].
      apply lookup_lt_is_Some in Hlt as [h' Hh']. by rewrite (proj2 (handler_at_table s m fd h' Hm) (conj H0 Hh')) in Eh.
    + intros ([fd' h']&->&Hin)%list_elem_of_fmap. apply elem_key_order in Hin as (H0&Hin&_). cbn in Eh. by rewrite (proj2 (handler_at_table s m fd' h' Hm) (conj H0 Hin)) in Eh.
Qed.

(** ** What is not imported *)

Lemma import_loop_app j1 j2 s : import_loop cpu with_libbpf table mc (j1 ++ j2) s =
  match import_loop cpu with_libbpf table mc j1 s with (Ok _, s) => import_loop cpu with_libbpf table mc j2 s | r => r end.
Proof.
  revert s. induction j1 as [|[k v] j1 IH]; intros s; [done|]. cbn [app import_loop]. destruct (stoi k); try done. cbn [reading].
  destruct (import_handler v a s) as [[] s1]; try done.
Qed.
Lemma import_other_event v e fd s s1 : handler_to_json stale s fd (HPerfEvent e) = Ok v → (∀ pid id, pe_event e ≠ DTracepoint pid id) →
  import_handler v fd s1 = (Throw, s1).
Proof.
  intros Hv Hne. cbn [handler_to_json] in Hv. unfold bpf_perf_event_handler_attr_to_json in Hv.
  destruct (pe_event e) as [o pid r n|pid id|p|a|f a r]; [| by edestruct Hne| destruct (sh_perf s !! p); [|done]| |]; injection Hv as <-; reflexivity.
Qed.

(** A shared memory with a perf event that is not a tracepoint, such as a uprobe, is exported without an error,
    but the import of the file ends with an exception at that event. *)
Theorem other_event_import_throws s m file s0 es1 fd e es2 :
  sh_manager s = Some m → bpftime_export_shm_to_json stale s = Ok file → zlen (handlers m) ≤ 2 ^ 31 → fresh_table (length (handlers m)) s0 →
  key_order m = es1 ++ (fd, HPerfEvent e) :: es2 → importable ∅ es1 → (∀ pid id, pe_event e ≠ DTracepoint pid id) →
  (bpftime_import_shm_from_json cpu with_libbpf table mc file s0).1 = Throw.
Proof.
  intros Hm Hx Hz Hs0 He Hi Hne. destruct (export_entries s m file Hm Hx Hz) as [Hp Hall]. pose proof Hs0 as (m0&Hm0&Hl0&Hw0).
  pose proof (key_order_NoDup m) as Hnd. pose proof (fresh_entries _ _ m Hs0 eq_refl) as Hun. unfold bpftime_import_shm_from_json. rewrite Hp. cbn [reading].
  rewrite He in *. rewrite !fmap_app in *. apply NoDup_app in Hnd as (Hnd&_&_). apply Forall_app in Hall as [Hall1 Hall2]. apply Forall_cons in Hall2 as [[Hfd [v Hv]] _].
  destruct (import_entries s es1 ∅ ∅ m0 s0 Hi Hnd Hall1 Hm0 ltac:(set_solver) (λ p, fresh_progs _ _ p Hs0)) as (s'&Hl&_&_).
  { rewrite Hw0. intros n [x Hn]. by rewrite lookup_empty in Hn. }
  rewrite import_loop_app, Hl. cbn [fmap list_fmap import_loop json_entry fst snd] in *. rewrite stoi_to_string, Hv by lia. cbn [reading].
  by rewrite (import_other_event v e fd s s' Hv Hne).
Qed.

(** The import of one handler never succeeds, since its arguments are swapped. *)
Lemma import_one_throws fd j s : bpftime_import_shm_handler_from_json cpu with_libbpf table mc fd j s = (Throw, s).
Proof. by destruct j. Qed.
End props.

(** ** A table with a link that is lost *)

#[local] Instance value_text : JsonText (list (string * json)) := {| dump := Ok; parse := Ok |}.
#[local] Instance value_text_laws : JsonTextLaws (list (string * json)).
Proof. split. by intros o t [= ->]. Qed.

Definition with_table (l : list handler) : demo_runtime := BpftimeShm SHM_CREATE_OR_OPEN (Some (HandlerManager l ∅)) (Some ∅) (Some tt) (Some ∅) None ∅ ∅ 1 [2; 1; 0].
Definition json_map : bpf_map_handler := with_ptr (bpf_map_handler_create 0 "m" (demo_attr BPF_MAP_TYPE_ARRAY 4 2 3)) (Some "ebpf_map_fd_m"%string).
Definition json_prog : bpf_prog_handler := BpfProgHandler [EbpfInst 183 0 0 0 (-1); EbpfInst 149 0 0 0 0] [] "prog".
(** A program (4), a tracepoint (5), a link with a cookie (7), a map (8), and a link (10). *)
Definition json_handlers : list handler :=
  replicate 4 unused_handler ++ [HProg json_prog; HPerfEvent (enable (tracepoint_event 1 6)); unused_handler; HLink (BpfLinkHandler 4 5 (Some 9)); HMap json_map;
    unused_handler; HLink (BpfLinkHandler 4 5 None)].
Definition json_file : list (string * json) := match bpftime_export_shm_to_json (λ _, 0) (with_table json_handlers) with Ok f => f | _ => [] end.

Lemma json_map_made : map_made (U := gmap (list Z) (list Z)) (UL := gmap (list Z) hash_map_value) (F := unit) 0 true demo_table demo_machine json_map.
Proof. split; [reflexivity|]. eexists. intros w Hw. unfold map_init, construct. change (get_container_name (with_ptr json_map None)) with (get_container_name json_map). rewrite Hw. reflexivity. Qed.

Lemma json_roundtrip_witness : ∃ s', bpftime_import_shm_from_json 0 true demo_table demo_machine json_file (with_table (replicate 11 unused_handler)) = (Ok 0, s') ∧
  handler_at s' 4 = Some (HProg json_prog) ∧ handler_at s' 7 = Some (HLink (BpfLinkHandler 4 5 None)) ∧ handler_at s' 8 = Some (HMap json_map) ∧
  handler_at s' 10 = Some unused_handler.
Proof.
  destruct (json_roundtrip 0 true demo_table demo_machine (λ _, 0) (with_table json_handlers) (HandlerManager json_handlers ∅) json_file (with_table (replicate 11 unused_handler)))
    as (s'&Hi&Hs'); [reflexivity|vm_compute; reflexivity| |vm_compute; congruence|by eexists|].
  - set (es := key_order _). assert (He : es = [(10, HLink (BpfLinkHandler 4 5 None)); (4, HProg json_prog); (5, HPerfEvent (enable (tracepoint_event 1 6)));
      (7, HLink (BpfLinkHandler 4 5 (Some 9))); (8, HMap json_map)]) by (vm_compute; reflexivity).
    rewrite He. split; [cbn; lia|]. split; [split; [repeat constructor; cbn; lia|by split]|]. split; [by eexists true, 1, 6|]. split; [cbn; lia|]. split; [|done].
    split; [repeat split; vm_compute; congruence|]. split; [apply json_map_made|set_solver].
  - exists s'. split; [exact Hi|]. rewrite !Hs'. split; [vm_compute; reflexivity|]. split; [vm_compute; reflexivity|]. split; vm_compute; reflexivity.
Defined.

Lemma other_event_import_throws_witness :
  let h := HPerfEvent (uprobe_event false 64 (-1) "libc.so" 0) in
  ∃ file, bpftime_export_shm_to_json (λ _, 0) (with_table [HProg json_prog; h]) = Ok file ∧
    (bpftime_import_shm_from_json 0 true demo_table demo_machine file (with_table (replicate 2 unused_handler))).1 = Throw.
Proof.
  cbn zeta. eexists. split; [reflexivity|].
  apply (other_event_import_throws 0 true demo_table demo_machine (λ _, 0) (with_table [HProg json_prog; HPerfEvent (uprobe_event false 64 (-1) "libc.so" 0)])
    (HandlerManager [HProg json_prog; HPerfEvent (uprobe_event false 64 (-1) "libc.so" 0)] ∅) _ (with_table (replicate 2 unused_handler))
    [(0, HProg json_prog)] 1 (uprobe_event false 64 (-1) "libc.so" 0) []);
    [reflexivity|reflexivity|vm_compute; congruence|by eexists|vm_compute; reflexivity| |done].
  split; [|done]. split; [repeat constructor; cbn; lia|by split].
Defined.
