(* ===== verification/RuntimeConfig.v ===== *)
(** * The configuration of the runtime

    [construct_agent_config_from_env] (runtime/src/bpftime_config.cpp) and the structure that it fills
    (runtime/include/bpftime_config.hpp). *)

From Stdlib Require Import Ascii.
From stdpp Require Import base numbers list gmap strings.
From S2P Require Import Prelude.
From S2P Require Import AttachArgs.
From S2P Require Import AttachCtx.

Abbreviation LOG_PATH_MAX_LEN := 1024 (only parsing).
Abbreviation VM_NAME_MAX_LEN := 128 (only parsing).
Abbreviation DEFAULT_MAX_FD_COUNT := (1024 * 6) (only parsing).
Abbreviation MIN_MAX_FD_COUNT := 128 (only parsing).
Abbreviation MAX_MAX_FD_COUNT := (1024 * 1024) (only parsing).

(** The strings of the structure are in buffers of fixed sizes. [rc_agent] has the fields that the attach context uses. *)
Record runtime_config := RuntimeConfig {
  rc_debug : bool;
  rc_agent : agent_config;
  rc_allow_non_buildin_map_types : bool;
  rc_shm_memory_size : Z;
  rc_max_fd_count : Z;
  rc_logger_output_path : string;
  rc_vm_name : string
}.
Definition runtime_config_default : runtime_config :=
  RuntimeConfig false (AgentConfig true true false true) false 20 DEFAULT_MAX_FD_COUNT "~/.bpftime/runtime.log" "llvm".

Definition set_groups (kernel ufunc shm_maps : bool) (a : agent_config) : agent_config := AgentConfig (cf_jit_enabled a) kernel ufunc shm_maps.
Definition rc_set_agent (c : runtime_config) (a : agent_config) : runtime_config :=
  RuntimeConfig (rc_debug c) a (rc_allow_non_buildin_map_types c) (rc_shm_memory_size c) (rc_max_fd_count c) (rc_logger_output_path c) (rc_vm_name c).
Definition rc_allow_maps (c : runtime_config) : runtime_config :=
  RuntimeConfig (rc_debug c) (rc_agent c) true (rc_shm_memory_size c) (rc_max_fd_count c) (rc_logger_output_path c) (rc_vm_name c).
Definition rc_set_shm_size (c : runtime_config) (n : Z) : runtime_config :=
  RuntimeConfig (rc_debug c) (rc_agent c) (rc_allow_non_buildin_map_types c) n (rc_max_fd_count c) (rc_logger_output_path c) (rc_vm_name c).
Definition rc_set_max_fd (c : runtime_config) (n : Z) : runtime_config :=
  RuntimeConfig (rc_debug c) (rc_agent c) (rc_allow_non_buildin_map_types c) (rc_shm_memory_size c) n (rc_logger_output_path c) (rc_vm_name c).

(** [strcpy] writes the string and its end; outside of the buffer that is undefined. *)
Definition strcpy (size : Z) (s : string) : res string := if Z.of_nat (String.length s) + 1 <=? size then Ok s else Fault.
Definition set_logger_output_path (path : string) (c : runtime_config) : res runtime_config :=
  match strcpy LOG_PATH_MAX_LEN path with
  | Ok p => Ok (RuntimeConfig (rc_debug c) (rc_agent c) (rc_allow_non_buildin_map_types c) (rc_shm_memory_size c) (rc_max_fd_count c) p (rc_vm_name c))
  | _ => Fault
  end.
Definition set_vm_name (name : string) (c : runtime_config) : res runtime_config :=
  match strcpy VM_NAME_MAX_LEN name with
  | Ok p => Ok (RuntimeConfig (rc_debug c) (rc_agent c) (rc_allow_non_buildin_map_types c) (rc_shm_memory_size c) (rc_max_fd_count c) (rc_logger_output_path c) p)
  | _ => Fault
  end.

(** ** Numbers *)

(** [parse] is [std::stoi] for an int and [std::stoul] for a size; what it throws is caught. *)
Definition parse_numeric_env (parse : string → res Z) (env_str : option string) (min_value max_value : Z) : option Z :=
  s ← env_str;
  match parse s with
  | Ok value => Some (if value <? min_value then min_value else if max_value <? value then max_value else value)
  | _ => None
  end.

(** ** Helper groups *)

Definition process_token (token : list ascii) (a : agent_config) : agent_config :=
  if decide (token = String.list_ascii_of_string "ufunc") then set_groups (cf_enable_kernel_helper_group a) true (cf_enable_shm_maps_helper_group a) a
  else if decide (token = String.list_ascii_of_string "kernel") then set_groups true (cf_enable_ufunc_helper_group a) (cf_enable_shm_maps_helper_group a) a
  else if decide (token = String.list_ascii_of_string "shm_map") then set_groups (cf_enable_kernel_helper_group a) (cf_enable_ufunc_helper_group a) true a
  else a.

(** [str.find(c, start)] and [str.substr(start, n)]. *)
Definition sv_find (str : list ascii) (c : ascii) (start : nat) : option nat := (λ x, (start + x.1)%nat) <$> list_find (eq c) (drop start str).
Definition sv_substr (str : list ascii) (start n : nat) : list ascii := take n (drop start str).

(** The loop of [process_helper_sv]; [None] without enough fuel. *)
Fixpoint helper_loop (fuel : nat) (str : list ascii) (delimiter : ascii) (start : nat) (end_ : option nat) (a : agent_config) : option agent_config :=
  match end_ with
  | None => Some (if decide (start < length str)%nat then process_token (drop start str) a else a)
  | Some e =>
      match fuel with
      | O => None
      | S fuel => helper_loop fuel str delimiter (e + 1) (sv_find str delimiter (e + 1)) (process_token (sv_substr str start (e - start)) a)
      end
  end.
(** Each round starts behind another delimiter, so that the length is enough. *)
Definition process_helper_sv (str : list ascii) (delimiter : ascii) (a : agent_config) : option agent_config :=
  helper_loop (length str) str delimiter 0 (sv_find str delimiter 0) a.

(** ** The environment *)

Definition construct_agent_config_from_env (getenv : string → option string) : res runtime_config :=
  let c := runtime_config_default in
  match match getenv "BPFTIME_HELPER_GROUPS" with
        | Some groups => process_helper_sv (String.list_ascii_of_string groups) ","%char (set_groups false false false (rc_agent c))
        | None => Some (set_groups true true true (rc_agent c))
        end with
  | None => Fault
  | Some a =>
      let a := match getenv "BPFTIME_DISABLE_JIT" with
               | Some _ => AgentConfig false (cf_enable_kernel_helper_group a) (cf_enable_ufunc_helper_group a) (cf_enable_shm_maps_helper_group a)
               | None => a
               end in
      let c := rc_set_agent c a in
      let c := match getenv "BPFTIME_ALLOW_EXTERNAL_MAPS" with Some _ => rc_allow_maps c | None => c end in
      let c := match parse_numeric_env stoi (getenv "BPFTIME_SHM_MEMORY_MB") 1 10240 with Some n => rc_set_shm_size c n | None => c end in
      let c := match parse_numeric_env stoul (getenv "BPFTIME_MAX_FD_COUNT") MIN_MAX_FD_COUNT MAX_MAX_FD_COUNT with
               | Some n => rc_set_max_fd c n | None => c end in
      match match getenv "BPFTIME_VM_NAME" with Some v => set_vm_name v c | None => Ok c end with
      | Ok c => match getenv "BPFTIME_LOG_OUTPUT" with Some p => set_logger_output_path p c | None => Ok c end
      | r => r
      end
  end%string.

(** ** Properties *)

(** What is between delimiters. *)
Fixpoint split_on (c : ascii) (l : list ascii) : list (list ascii) :=
  match l with
  | [] => [[]]
  | a :: l => if decide (c = a) then [] :: split_on c l else match split_on c l with [] => [[a]] | t :: ts => (a :: t) :: ts end
  end.
Lemma split_on_nonempty c l : ∃ t ts, split_on c l = t :: ts.
Proof. destruct l as [|a l]; cbn; [by eexists _, _|]. case_decide; [by eexists _, _|]. destruct (split_on c l); by eexists _, _. Qed.
Lemma split_on_first c l : match list_find (eq c) l with
  | Some (n, _) => split_on c l = take n l :: split_on c (drop (S n) l) ∧ (n < length l)%nat
  | None => split_on c l = [l]
  end.
Proof.
  induction l as [|a l IH]; [done|]. cbn [list_find split_on]. case_decide as Hc; [split; [done|cbn; lia]|].
  destruct (list_find (eq c) l) as [[n x]|]; cbn; [|by rewrite IH]. destruct IH as [-> ?]. split; [done|lia].
Qed.

Lemma empty_token a : process_token [] a = a.
Proof. done. Qed.
Lemma helper_loop_split fuel str d : ∀ start a, (length str - start ≤ fuel)%nat →
  helper_loop fuel str d start (sv_find str d start) a = Some (foldl (flip process_token) a (split_on d (drop start str))).
Proof.
  induction fuel as [|fuel IH]; intros start a Hf; pose proof (split_on_first d (drop start str)) as Hs; unfold sv_find;
    destruct (list_find (eq d) (drop start str)) as [[n x]|]; cbn [fmap option_fmap option_map fst helper_loop].
  - destruct Hs as [_ Hn]. rewrite length_drop in Hn. lia.
  - rewrite Hs. cbn [foldl flip]. case_decide; [done|]. by rewrite drop_ge, empty_token by lia.
  - destruct Hs as [-> Hn]. rewrite length_drop in Hn. rewrite IH by lia. cbn [foldl]. do 2 f_equal.
    + unfold flip, sv_substr. do 2 f_equal. lia.
    + rewrite drop_drop. do 2 f_equal. lia.
  - rewrite Hs. cbn [foldl flip]. case_decide; [done|]. by rewrite drop_ge, empty_token by lia.
Qed.

Definition has_token (str name : string) : bool := bool_decide (String.list_ascii_of_string name ∈ split_on ","%char (String.list_ascii_of_string str)).

Lemma tokens_groups ts : ∀ a, foldl (flip process_token) a ts =
  set_groups (cf_enable_kernel_helper_group a || bool_decide (String.list_ascii_of_string "kernel" ∈ ts))
    (cf_enable_ufunc_helper_group a || bool_decide (String.list_ascii_of_string "ufunc" ∈ ts))
    (cf_enable_shm_maps_helper_group a || bool_decide (String.list_ascii_of_string "shm_map" ∈ ts)) a.
Proof.
  induction ts as [|t ts IH]; intros a; [destruct a as [j k u s]; unfold set_groups; cbn; by rewrite !orb_false_r|].
  cbn [foldl flip]. rewrite IH. unfold flip, process_token.
  assert (Hc : ∀ x : list ascii, bool_decide (x ∈ t :: ts) = bool_decide (x = t) || bool_decide (x ∈ ts)).
  { intros x. rewrite (bool_decide_ext _ (x = t ∨ x ∈ ts)) by apply elem_of_cons. apply bool_decide_or. }
  rewrite !Hc. assert (Hd : String.list_ascii_of_string "kernel" ≠ String.list_ascii_of_string "ufunc" ∧
    String.list_ascii_of_string "kernel" ≠ String.list_ascii_of_string "shm_map" ∧ String.list_ascii_of_string "ufunc" ≠ String.list_ascii_of_string "shm_map") by done.
  revert Hd. generalize (String.list_ascii_of_string "kernel"), (String.list_ascii_of_string "ufunc"), (String.list_ascii_of_string "shm_map").
  clear. intros x y z (H1&H2&H3). destruct (decide (t = y)) as [->|Ny]; [|destruct (decide (t = x)) as [->|Nx]; [|destruct (decide (t = z)) as [->|Nz]]].
  - rewrite (bool_decide_eq_true_2 (y = y)), (bool_decide_eq_false_2 (x = y)), (bool_decide_eq_false_2 (z = y)) by congruence. destruct a. cbn. by rewrite orb_true_r.
  - rewrite (bool_decide_eq_true_2 (x = x)), (bool_decide_eq_false_2 (y = x)), (bool_decide_eq_false_2 (z = x)) by congruence. destruct a. cbn. by rewrite orb_true_r.
  - rewrite (bool_decide_eq_true_2 (z = z)), (bool_decide_eq_false_2 (y = z)), (bool_decide_eq_false_2 (x = z)) by congruence. destruct a. cbn. by rewrite orb_true_r.
  - rewrite (bool_decide_eq_false_2 (x = t)), (bool_decide_eq_false_2 (y = t)), (bool_decide_eq_false_2 (z = t)) by congruence. done.
Qed.
Lemma process_helper_sv_spec str a : process_helper_sv (String.list_ascii_of_string str) ","%char a =
  Some (set_groups (cf_enable_kernel_helper_group a || has_token str "kernel") (cf_enable_ufunc_helper_group a || has_token str "ufunc")
    (cf_enable_shm_maps_helper_group a || has_token str "shm_map") a).
Proof. unfold process_helper_sv. rewrite helper_loop_split by lia. rewrite drop_0. by rewrite tokens_groups. Qed.

Lemma parse_numeric_bounds parse env lo hi v : lo ≤ hi → parse_numeric_env parse env lo hi = Some v → lo ≤ v ≤ hi.
Proof.
  intros Hlh. unfold parse_numeric_env. destruct env as [s|]; [|done]. cbn [mbind option_bind]. destruct (parse s); try done. intros [= <-].
  repeat case_match; lia.
Qed.
Lemma parse_count_text n : 0 ≤ n < 2 ^ 64 →
  parse_numeric_env stoul (Some (to_string n)) MIN_MAX_FD_COUNT MAX_MAX_FD_COUNT = Some (Z.max MIN_MAX_FD_COUNT (Z.min n MAX_MAX_FD_COUNT)).
Proof. intros Hn. unfold parse_numeric_env. cbn [mbind option_bind]. rewrite stoul_to_string by done. f_equal. repeat case_match; lia. Qed.
(** A negative number is read as a big one. *)
Lemma parse_negative_count n : - 2 ^ 63 ≤ n < 0 →
  parse_numeric_env stoul (Some (to_string n)) MIN_MAX_FD_COUNT MAX_MAX_FD_COUNT = Some MAX_MAX_FD_COUNT.
Proof.
  intros Hn. unfold parse_numeric_env, stoul. cbn [mbind option_bind]. rewrite strto_to_string, (proj2 (Z.ltb_lt n 0)), Z.abs_neq, Z.opp_involutive by lia.
  rewrite (proj2 (Z.leb_gt _ _)) by lia. assert (Hu : u64 n = n + 2 ^ 64) by (rewrite <- (u64_small (n + 2 ^ 64)) by lia; unfold u64; rewrite <- (Z_mod_plus_full n 1 (2 ^ 64)); f_equal; lia).
  rewrite Hu. f_equal. repeat case_match; lia.
Qed.

Definition group_of (getenv : string → option string) (name : string) : bool :=
  match getenv "BPFTIME_HELPER_GROUPS"%string with Some s => has_token s name | None => true end.

(** C34 (bounds). When the two names of the environment fit their buffers, a configuration is made from any environment: the
    size of the shared memory and the number of descriptors are within their limits, also for text that is no number; a
    number of descriptors is used as it is within the limits and else as the nearest limit, but a negative one as the
    largest; and a helper group is enabled exactly when its name is one of those between the commas. *)
Theorem config_from_env getenv :
  Z.of_nat (String.length (default EmptyString (getenv "BPFTIME_VM_NAME"%string))) < VM_NAME_MAX_LEN →
  Z.of_nat (String.length (default EmptyString (getenv "BPFTIME_LOG_OUTPUT"%string))) < LOG_PATH_MAX_LEN →
  ∃ c, construct_agent_config_from_env getenv = Ok c ∧ 1 ≤ rc_shm_memory_size c ≤ 10240 ∧ MIN_MAX_FD_COUNT ≤ rc_max_fd_count c ≤ MAX_MAX_FD_COUNT ∧
    (∀ n, getenv "BPFTIME_MAX_FD_COUNT"%string = Some (to_string n) →
      (0 ≤ n < 2 ^ 64 → rc_max_fd_count c = Z.max MIN_MAX_FD_COUNT (Z.min n MAX_MAX_FD_COUNT)) ∧ (- 2 ^ 63 ≤ n < 0 → rc_max_fd_count c = MAX_MAX_FD_COUNT)) ∧
    rc_agent c = AgentConfig (bool_decide (getenv "BPFTIME_DISABLE_JIT"%string = None)) (group_of getenv "kernel") (group_of getenv "ufunc") (group_of getenv "shm_map").
Proof.
  intros Hv Hl. unfold construct_agent_config_from_env.
  assert (Hg : match getenv "BPFTIME_HELPER_GROUPS"%string with
    | Some groups => process_helper_sv (String.list_ascii_of_string groups) ","%char (set_groups false false false (rc_agent runtime_config_default))
    | None => Some (set_groups true true true (rc_agent runtime_config_default)) end =
    Some (AgentConfig true (group_of getenv "kernel") (group_of getenv "ufunc") (group_of getenv "shm_map"))).
  { unfold group_of. destruct (getenv "BPFTIME_HELPER_GROUPS"%string) as [g|]; [|done]. by rewrite process_helper_sv_spec. }
  rewrite Hg. clear Hg. cbn [cf_enable_kernel_helper_group cf_enable_ufunc_helper_group cf_enable_shm_maps_helper_group].
  set (a := match getenv "BPFTIME_DISABLE_JIT"%string with Some _ => _ | None => _ end).
  assert (Ha : a = AgentConfig (bool_decide (getenv "BPFTIME_DISABLE_JIT"%string = None)) (group_of getenv "kernel") (group_of getenv "ufunc") (group_of getenv "shm_map"))
    by (unfold a; by destruct (getenv "BPFTIME_DISABLE_JIT"%string)).
  set (c1 := match getenv "BPFTIME_ALLOW_EXTERNAL_MAPS"%string with Some _ => _ | None => _ end).
  assert (H1 : rc_agent c1 = a ∧ rc_shm_memory_size c1 = 20 ∧ rc_max_fd_count c1 = DEFAULT_MAX_FD_COUNT) by (unfold c1; by destruct (getenv "BPFTIME_ALLOW_EXTERNAL_MAPS"%string)).
  clearbody c1. destruct H1 as (H1a&H1s&H1m).
  set (c2 := match parse_numeric_env stoi _ _ _ with Some _ => _ | None => _ end).
  assert (H2 : rc_agent c2 = a ∧ 1 ≤ rc_shm_memory_size c2 ≤ 10240 ∧ rc_max_fd_count c2 = DEFAULT_MAX_FD_COUNT).
  { unfold c2. destruct (parse_numeric_env stoi _ _ _) as [n|] eqn:E; [apply parse_numeric_bounds in E; [done|lia]|]. rewrite H1s. split; [done|]. split; [lia|done]. }
  clearbody c2. destruct H2 as (H2a&H2s&H2m).
  set (c3 := match parse_numeric_env stoul _ _ _ with Some _ => _ | None => _ end).
  assert (H3 : rc_agent c3 = a ∧ rc_shm_memory_size c3 = rc_shm_memory_size c2 ∧
    rc_max_fd_count c3 = default DEFAULT_MAX_FD_COUNT (parse_numeric_env stoul (getenv "BPFTIME_MAX_FD_COUNT"%string) MIN_MAX_FD_COUNT MAX_MAX_FD_COUNT))
    by (unfold c3; by destruct (parse_numeric_env stoul _ _ _)).
  clearbody c3. destruct H3 as (H3a&H3s&H3m).
  assert (Hend : ∃ c, (match match getenv "BPFTIME_VM_NAME"%string with Some v => set_vm_name v c3 | None => Ok c3 end with
      | Ok c => match getenv "BPFTIME_LOG_OUTPUT"%string with Some p => set_logger_output_path p c | None => Ok c end
      | r => r end) = Ok c ∧ rc_agent c = rc_agent c3 ∧ rc_shm_memory_size c = rc_shm_memory_size c3 ∧ rc_max_fd_count c = rc_max_fd_count c3).
  { destruct (getenv "BPFTIME_VM_NAME"%string) as [v|]; cbn [from_option id] in Hv; [unfold set_vm_name, strcpy; rewrite (proj2 (Z.leb_le _ _)) by lia|];
    (destruct (getenv "BPFTIME_LOG_OUTPUT"%string) as [p|]; cbn [from_option id] in Hl; [unfold set_logger_output_path, strcpy; rewrite (proj2 (Z.leb_le _ _)) by lia|]); by eexists. }
  destruct Hend as (c&Hc&Hca&Hcs&Hcm). exists c. rewrite Hca, Hcs, Hcm, H3a, H3s, H3m. split; [done|]. split; [done|]. split; [|split; [|done]].
  - destruct (parse_numeric_env stoul _ _ _) as [n|] eqn:E; cbn [from_option id]; [apply parse_numeric_bounds in E; lia|lia].
  - intros n ->. split; intros Hn; [by rewrite parse_count_text|by rewrite parse_negative_count].
Qed.

Lemma config_from_env_witness : ∃ c,
  construct_agent_config_from_env (λ v, if decide (v = "BPFTIME_MAX_FD_COUNT"%string) then Some (to_string (-1)) else if decide (v = "BPFTIME_HELPER_GROUPS"%string) then Some "kernel,ufunc"%string else None) = Ok c ∧
  rc_max_fd_count c = 1024 * 1024 ∧ rc_agent c = AgentConfig true true true false.
Proof.
  destruct (config_from_env (λ v, if decide (v = "BPFTIME_MAX_FD_COUNT"%string) then Some (to_string (-1)) else if decide (v = "BPFTIME_HELPER_GROUPS"%string) then Some "kernel,ufunc"%string else None))
    as (c&Hc&_&_&Hn&Ha); [vm_compute; reflexivity|vm_compute; reflexivity|].
  exists c. split; [exact Hc|]. split; [apply (Hn (-1)); [reflexivity|lia]|]. rewrite Ha. vm_compute. reflexivity.
Defined.

(** A name of 128 bytes or more in the environment is copied over the end of its buffer. *)
Lemma long_vm_name_overflows getenv v :
  getenv "BPFTIME_VM_NAME"%string = Some v → VM_NAME_MAX_LEN ≤ Z.of_nat (String.length v) → construct_agent_config_from_env getenv = Fault.
Proof.
  intros Hv Hl. unfold construct_agent_config_from_env. rewrite Hv. destruct (match getenv "BPFTIME_HELPER_GROUPS"%string with Some _ => _ | None => _ end); [|done].
  unfold set_vm_name at 1, strcpy. by rewrite (proj2 (Z.leb_gt _ _)) by lia.
Qed.
