(* ===== verification/Interval.v ===== *)
(** * The interval domain of the verifier

    bound_t and interval_t (bpftime-verifier/ebpf-verifier/src/crab/interval.hpp, interval.cpp) with the casts of numbers
    that they use (crab_utils/bignums.hpp). Numbers are unbounded; CRAB_ERROR is an exception and a failed assertion a
    fault. *)

From stdpp Require Import base numbers list.
From S2P Require Import Prelude.

(** ** Numbers *)

Abbreviation INT32_MIN := (- 2 ^ 31) (only parsing).
Abbreviation INT32_MAX := (2 ^ 31 - 1) (only parsing).
Abbreviation UINT32_MAX := (2 ^ 32 - 1) (only parsing).
Abbreviation INT64_MIN := (- 2 ^ 63) (only parsing).
Abbreviation INT64_MAX := (2 ^ 63 - 1) (only parsing).
Abbreviation UINT64_MAX := (2 ^ 64 - 1) (only parsing).

Definition fits_sint32 (n : Z) : bool := (INT32_MIN <=? n) && (n <=? INT32_MAX).
Definition fits_uint32 (n : Z) : bool := (0 <=? n) && (n <=? UINT32_MAX).
Definition fits_sint64 (n : Z) : bool := (INT64_MIN <=? n) && (n <=? INT64_MAX).
Definition fits_uint64 (n : Z) : bool := (0 <=? n) && (n <=? UINT64_MAX).
Definition fits_cast_to_int64 (n : Z) : bool := fits_uint64 n || fits_sint64 n.

Definition cast_to_uint64 (n : Z) : res Z := if fits_uint64 n then Ok n else if fits_sint64 n then Ok (u64 n) else Throw.
Definition cast_to_uint32 (n : Z) : res Z := if fits_uint32 n then Ok n else if fits_sint32 n then Ok (u32 n) else Throw.
Definition cast_to_sint64 (n : Z) : res Z := if fits_sint64 n then Ok n else if fits_uint64 n then Ok (s64 n) else Throw.
Definition cast_to_sint32 (n : Z) : res Z := res_map s32 (cast_to_sint64 n).

(** The conversion of a number to an [uint64_t] is modulo. *)
Definition truncate_to_uint64 (n : Z) : Z := if fits_sint64 n then u64 (s64 n) else u64 n.
Definition truncate_to_sint64 (n : Z) : Z := if fits_sint64 n then n else s64 (u64 n).
Definition truncate_to_uint32 (n : Z) : Z := u32 (truncate_to_uint64 n).
Definition truncate_to_sint32 (n : Z) : Z := s32 (truncate_to_sint64 n).
Definition cast_to_signed_finite_width (finite_width n : Z) : res Z :=
  if finite_width =? 0 then Ok n else if finite_width =? 32 then cast_to_sint32 n else if finite_width =? 64 then cast_to_sint64 n else Throw.
Definition cast_to_unsigned_finite_width (finite_width n : Z) : res Z :=
  if finite_width =? 0 then Ok n else if finite_width =? 32 then cast_to_uint32 n else if finite_width =? 64 then cast_to_uint64 n else Throw.
Definition truncate_to_unsigned_finite_width (finite_width n : Z) : res Z :=
  if finite_width =? 0 then Ok n else if finite_width =? 32 then Ok (truncate_to_uint32 n) else if finite_width =? 64 then Ok (truncate_to_uint64 n) else Throw.
Definition truncate_to_signed_finite_width (finite_width n : Z) : res Z :=
  if finite_width =? 0 then Ok n else if finite_width =? 32 then Ok (truncate_to_sint32 n) else if finite_width =? 64 then Ok (truncate_to_sint64 n) else Throw.

(** for (result = 1; result < n; result = result * 2 + 1); the number of bits is enough fuel. *)
Fixpoint fill_loop (fuel : nat) (n result : Z) : Z :=
  match fuel with O => result | S fuel => if result <? n then fill_loop fuel n (result * 2 + 1) else result end.
Definition fill_ones (n : Z) : Z := if n =? 0 then 0 else fill_loop (S (Z.to_nat (Z.log2 n))) n 1.

(** ** Bounds *)

Record bound_t := Bound { b_is_infinite : bool; b_n : Z }.
Implicit Types b x y : bound_t.

(** The constructor with two arguments. *)
Definition mk_bound (is_infinite : bool) (n : Z) : bound_t := Bound is_infinite (if is_infinite then if 0 <? n then 1 else -1 else n).
Definition finite (n : Z) : bound_t := Bound false n.
Definition plus_infinity : bound_t := mk_bound true 1.
Definition minus_infinity : bound_t := mk_bound true (-1).

Definition bound_le x y : bool :=
  if xorb (b_is_infinite x) (b_is_infinite y) then if b_is_infinite x then b_n x <? 0 else 0 <? b_n y else b_n x <=? b_n y.
Definition bound_ge x y : bool :=
  if xorb (b_is_infinite x) (b_is_infinite y) then if b_is_infinite x then 0 <? b_n x else b_n y <? 0 else b_n y <=? b_n x.
Definition bound_lt x y : bool := negb (bound_ge x y).
Definition bound_gt x y : bool := negb (bound_le x y).
Definition bound_eqb x y : bool := Bool.eqb (b_is_infinite x) (b_is_infinite y) && (b_n x =? b_n y).
Definition number b : option Z := if b_is_infinite b then None else Some (b_n b).

Definition bound_min x y : bound_t := if bound_le x y then x else y.
Definition bound_min3 x y z : bound_t := bound_min x (bound_min y z).
Definition bound_min4 x y z t : bound_t := bound_min x (bound_min3 t y z).
Definition bound_max x y : bound_t := if bound_le x y then y else x.
Definition bound_max3 x y z : bound_t := bound_max x (bound_max y z).
Definition bound_max4 x y z t : bound_t := bound_max x (bound_max3 t y z).

Definition bound_opp b : bound_t := mk_bound (b_is_infinite b) (- b_n b).
Definition bound_add x y : res bound_t :=
  match b_is_infinite x, b_is_infinite y with
  | false, false => Ok (finite (b_n x + b_n y))
  | false, true => Ok y
  | true, false => Ok x
  | true, true => if b_n x =? b_n y then Ok x else Throw
  end.
Definition bound_sub x y : res bound_t := bound_add x (bound_opp y).
Definition bound_mul x y : bound_t :=
  if b_n y =? 0 then y else if b_n x =? 0 then x else mk_bound (b_is_infinite x || b_is_infinite y) (b_n x * b_n y).
Definition bound_div x y : res bound_t :=
  if b_n y =? 0 then Throw
  else
    match b_is_infinite x, b_is_infinite y with
    | false, false => Ok (mk_bound false (Z.quot (b_n x) (b_n y)))
    | false, true => Ok (if 0 <? b_n x then y else if b_n x =? 0 then x else bound_opp y)
    | true, false => Ok (if 0 <? b_n y then x else bound_opp x)
    | true, true => Ok (mk_bound true (b_n x * b_n y))
    end.

(** A number as an unsigned one of 64 bits, when it is negative. *)
Definition as_unsigned (n : Z) : res Z := if 0 <=? n then Ok n else cast_to_uint64 n.
Definition bound_udiv x y : res bound_t :=
  if b_n y =? 0 then Throw
  else if negb (b_is_infinite x) && negb (b_is_infinite y) then
    dividend ← as_unsigned (b_n x); divisor ← as_unsigned (b_n y); Ok (mk_bound false (Z.quot dividend divisor))
  else if negb (b_is_infinite x) then Ok (finite 0)
  else Ok plus_infinity.
Definition bound_umod x y : res bound_t :=
  if b_n y =? 0 then Throw
  else if negb (b_is_infinite x) && negb (b_is_infinite y) then
    dividend ← as_unsigned (b_n x); divisor ← as_unsigned (b_n y); Ok (mk_bound false (Z.rem dividend divisor))
  else if negb (b_is_infinite x) then Ok x
  else Ok plus_infinity.

(** ** Intervals *)

Record interval_t := Interval { i_lb : bound_t; i_ub : bound_t }.
Implicit Types i j : interval_t.

Definition bottom : interval_t := Interval (finite 0) (finite (-1)).
Definition mk_interval (lb ub : bound_t) : interval_t := if bound_gt lb ub then bottom else Interval lb ub.
Definition of_number (n : Z) : interval_t := Interval (finite n) (finite n).
Definition range (lo hi : Z) : interval_t := mk_interval (finite lo) (finite hi).
Definition top : interval_t := mk_interval minus_infinity plus_infinity.

Definition is_bottom i : bool := bound_gt (i_lb i) (i_ub i).
Definition is_top i : bool := b_is_infinite (i_lb i) && b_is_infinite (i_ub i).
Definition finite_size i : res (option Z) := res_map number (bound_sub (i_ub i) (i_lb i)).
Definition singleton i : option Z := if negb (is_bottom i) && bound_eqb (i_lb i) (i_ub i) then number (i_lb i) else None.
(** operator[] *)
Definition contains i (n : Z) : bool := if is_bottom i then false else bound_le (i_lb i) (finite n) && bound_le (finite n) (i_ub i).

Definition interval_eqb i j : bool := if is_bottom i then is_bottom j else bound_eqb (i_lb i) (i_lb j) && bound_eqb (i_ub i) (i_ub j).
Definition interval_le i j : bool :=
  if is_bottom i then true else if is_bottom j then false else bound_le (i_lb j) (i_lb i) && bound_le (i_ub i) (i_ub j).
Definition join i j : interval_t :=
  if is_bottom i then j else if is_bottom j then i else mk_interval (bound_min (i_lb i) (i_lb j)) (bound_max (i_ub i) (i_ub j)).
Definition meet i j : interval_t :=
  if is_bottom i || is_bottom j then bottom else mk_interval (bound_max (i_lb i) (i_lb j)) (bound_min (i_ub i) (i_ub j)).
Definition widen i j : interval_t :=
  if is_bottom i then j else if is_bottom j then i
  else mk_interval (if bound_lt (i_lb j) (i_lb i) then minus_infinity else i_lb i) (if bound_lt (i_ub i) (i_ub j) then plus_infinity else i_ub i).
Definition narrow i j : interval_t :=
  if is_bottom i || is_bottom j then bottom
  else mk_interval (if b_is_infinite (i_lb i) && negb (b_is_infinite (i_lb j)) then i_lb j else i_lb i)
    (if b_is_infinite (i_ub i) && negb (b_is_infinite (i_ub j)) then i_ub j else i_ub i).

(** ** Arithmetic *)

Definition interval_add i j : res interval_t :=
  if is_bottom i || is_bottom j then Ok bottom
  else lb ← bound_add (i_lb i) (i_lb j); ub ← bound_add (i_ub i) (i_ub j); Ok (mk_interval lb ub).
Definition interval_opp i : interval_t := if is_bottom i then bottom else mk_interval (bound_opp (i_ub i)) (bound_opp (i_lb i)).
Definition interval_sub i j : res interval_t :=
  if is_bottom i || is_bottom j then Ok bottom
  else lb ← bound_sub (i_lb i) (i_ub j); ub ← bound_sub (i_ub i) (i_lb j); Ok (mk_interval lb ub).
(** The hull of the four results on the bounds. *)
Definition hull (ll lu ul uu : bound_t) : interval_t := mk_interval (bound_min4 ll lu ul uu) (bound_max4 ll lu ul uu).
Definition interval_mul i j : interval_t :=
  if is_bottom i || is_bottom j then bottom
  else hull (bound_mul (i_lb i) (i_lb j)) (bound_mul (i_lb i) (i_ub j)) (bound_mul (i_ub i) (i_lb j)) (bound_mul (i_ub i) (i_ub j)).

(** The parts of an interval below and above zero. *)
Definition below i : interval_t := mk_interval (i_lb i) (finite (-1)).
Definition above i : interval_t := mk_interval (finite 1) (i_ub i).
(** The dividend that the last case of the divisions uses. *)
Definition shifted_dividend i j : res interval_t :=
  if bound_lt (i_ub i) (finite 0) then
    d ← (if bound_lt (i_ub j) (finite 0) then interval_add j (of_number 1) else interval_sub (of_number 1) j);
    interval_add i d
  else Ok i.

(** Splitting the divisor and then the dividend at zero: three levels of recursion. *)
Fixpoint interval_div (fuel : nat) i j : res interval_t :=
  if is_bottom i || is_bottom j then Ok bottom
  else
    match singleton j with
    | Some c =>
        if c =? 1 then Ok i
        else if 0 <? c then lb ← bound_div (i_lb i) (finite c); ub ← bound_div (i_ub i) (finite c); Ok (mk_interval lb ub)
        else if c <? 0 then lb ← bound_div (i_ub i) (finite c); ub ← bound_div (i_lb i) (finite c); Ok (mk_interval lb ub)
        else Ok (of_number 0)
    | None =>
        match fuel with
        | O => Fault
        | S fuel =>
            if contains j 0 then l ← interval_div fuel i (below j); u ← interval_div fuel i (above j); Ok (join (join l u) (of_number 0))
            else if contains i 0 then l ← interval_div fuel (below i) j; u ← interval_div fuel (above i) j; Ok (join (join l u) (of_number 0))
            else
              a ← shifted_dividend i j;
              ll ← bound_div (i_lb a) (i_lb j); lu ← bound_div (i_lb a) (i_ub j); ul ← bound_div (i_ub a) (i_lb j); uu ← bound_div (i_ub a) (i_ub j);
              Ok (hull ll lu ul uu)
        end
    end.
Definition Div i j : res interval_t := interval_div 3 i j.

Fixpoint interval_udiv (fuel : nat) i j : res interval_t :=
  if is_bottom i || is_bottom j then Ok bottom
  else
    match (match singleton j with Some n => if fits_cast_to_int64 n then Some n else None | None => None end) with
    | Some n =>
        c ← cast_to_uint64 n;
        if c =? 1 then Ok i
        else if 0 <? c then lb ← bound_udiv (i_lb i) (finite c); ub ← bound_udiv (i_ub i) (finite c); Ok (mk_interval lb ub)
        else Ok (of_number 0)
    | None =>
        match fuel with
        | O => Fault
        | S fuel =>
            if contains j 0 then l ← interval_udiv fuel i (below j); u ← interval_udiv fuel i (above j); Ok (join (join l u) (of_number 0))
            else if contains i 0 then l ← interval_udiv fuel (below i) j; u ← interval_udiv fuel (above i) j; Ok (join (join l u) (of_number 0))
            else
              a ← shifted_dividend i j;
              ll ← bound_udiv (i_lb a) (i_lb j); lu ← bound_udiv (i_lb a) (i_ub j); ul ← bound_udiv (i_ub a) (i_lb j); uu ← bound_udiv (i_ub a) (i_ub j);
              Ok (hull ll lu ul uu)
        end
    end.
Definition UDiv i j : res interval_t := interval_udiv 3 i j.

(** ** Remainders *)

Definition srem_finite i (lo hi : Z) : interval_t :=
  let min_divisor := if Z.abs lo <? Z.abs hi then Z.abs lo else Z.abs hi in
  let max_divisor := if Z.abs lo <=? Z.abs hi then Z.abs hi else Z.abs lo in
  if bound_lt (i_ub i) (finite min_divisor) && bound_lt (bound_opp (i_lb i)) (finite min_divisor) then i
  else if bound_lt (i_lb i) (finite 0) then
    if bound_gt (i_ub i) (finite 0) then range (- (max_divisor - 1)) (max_divisor - 1) else range (- (max_divisor - 1)) 0
  else range 0 (max_divisor - 1).
(** Splitting the divisor at zero: two levels of recursion. *)
Fixpoint interval_srem (fuel : nat) i j : res interval_t :=
  if is_bottom i || is_bottom j then Ok bottom
  else
    match singleton i, singleton j with
    | Some dividend, Some divisor => Ok (of_number (if divisor =? 0 then dividend else Z.rem dividend divisor))
    | _, _ =>
        if contains j 0 then
          match fuel with
          | O => Fault
          | S fuel => l ← interval_srem fuel i (below j); u ← interval_srem fuel i (above j); Ok (join (join l u) i)
          end
        else
          match number (i_ub j), number (i_lb j) with
          | Some hi, Some lo => Ok (srem_finite i lo hi)
          | _, _ => Ok (join i (of_number 0))
          end
    end.
Definition SRem i j : res interval_t := interval_srem 1 i j.

(** The last case of URem: neither the dividend nor the divisor contains zero. *)
Definition urem_nonzero i j : res interval_t :=
  match number (i_lb j), number (i_ub j) with
  | Some lo, Some hi =>
      below_divisor ← match number (i_ub i) with
                      | Some u => u ← cast_to_uint64 u; l ← cast_to_uint64 lo; Ok (u <? l)
                      | None => Ok false
                      end;
      if below_divisor : bool then Ok i else max_divisor ← cast_to_uint64 hi; Ok (range 0 (max_divisor - 1))
  | _, _ => if bound_lt (i_ub i) (finite 0) then Ok top else d ← interval_sub i (of_number 1); Ok (join d (of_number 0))
  end.
Fixpoint interval_urem (fuel : nat) i j : res interval_t :=
  if is_bottom i || is_bottom j then Ok bottom
  else
    match singleton j with
    | Some c => if 0 <? c then lb ← bound_umod (i_lb i) (finite c); ub ← bound_umod (i_ub i) (finite c); Ok (mk_interval lb ub) else Ok i
    | None =>
        match fuel with
        | O => Fault
        | S fuel =>
            if contains j 0 then l ← interval_urem fuel i (below j); u ← interval_urem fuel i (above j); Ok (join (join l u) i)
            else if contains i 0 then l ← interval_urem fuel (below i) j; u ← interval_urem fuel (above i) j; Ok (join (join l u) i)
            else urem_nonzero i j
        end
    end.
Definition URem i j : res interval_t := interval_urem 3 i j.

(** ** Bitwise operations *)

(** The conjunction with UINT32_MAX, of an interval that may be unbounded. *)
Definition and_uint32_max i : res interval_t :=
  width ← finite_size i;
  match width, number (i_lb i), number (i_ub i) with
  | Some width, Some lb, Some ub =>
      lb ← cast_to_uint64 lb; ub ← cast_to_uint64 ub; width ← cast_to_uint64 width;
      Ok (if (width <=? UINT32_MAX) && (u32 lb <? u32 ub) && (u32 lb + u32 width =? u32 ub) then range (u32 lb) (u32 ub) else range 0 UINT32_MAX)
  | _, _, _ => Ok (range 0 UINT32_MAX)
  end.
Definition And i j : res interval_t :=
  if is_bottom i || is_bottom j then Ok bottom
  else if negb (is_top i || bound_ge (i_lb i) (finite 0)) || negb (is_top j || bound_ge (i_lb j) (finite 0)) then Fault
  else
    match singleton i, singleton j with
    | Some l, Some r => Ok (of_number (Z.land l r))
    | _, right_op =>
        if match right_op with Some r => fits_uint32 r && (r =? UINT32_MAX) | None => false end then and_uint32_max i
        else if negb (is_top i) && negb (is_top j) then Ok (mk_interval (finite 0) (bound_min (i_ub i) (i_ub j)))
        else if negb (is_top j) then Ok (mk_interval (finite 0) (i_ub j))
        else if negb (is_top i) then Ok (mk_interval (finite 0) (i_ub i))
        else Ok top
    end.
(** The disjunction of intervals that are not both singletons. *)
Definition or_bounds i j : interval_t :=
  if bound_ge (i_lb i) (finite 0) && bound_ge (i_lb j) (finite 0) then
    match number (i_ub i), number (i_ub j) with
    | Some l, Some r => range 0 (fill_ones (if r <? l then l else r))
    | _, _ => mk_interval (finite 0) plus_infinity
    end
  else top.
Definition Or i j : interval_t :=
  if is_bottom i || is_bottom j then bottom
  else match singleton i, singleton j with Some l, Some r => of_number (Z.lor l r) | _, _ => or_bounds i j end.
Definition Xor i j : interval_t :=
  if is_bottom i || is_bottom j then bottom
  else match singleton i, singleton j with Some l, Some r => of_number (Z.lxor l r) | _, _ => Or i j end.

(** for (int i = 0; k > i; i++) factor *= 2 *)
Definition factor (k : Z) : Z := Nat.iter (Z.to_nat k) (λ f, f * 2) 1.
Definition Shl i j : interval_t :=
  if is_bottom i || is_bottom j then bottom
  else match singleton j with Some k => if k <? 0 then top else if k <=? 128 then interval_mul i (of_number (factor k)) else top | None => top end.
Definition AShr i j : res interval_t :=
  if is_bottom i || is_bottom j then Ok bottom
  else match singleton j with Some k => if k <? 0 then Ok top else if k <=? 128 then Div i (of_number (factor k)) else Ok top | None => Ok top end.
Definition LShr i j : interval_t :=
  if is_bottom i || is_bottom j then bottom
  else
    match singleton j with
    | Some k =>
        if k <? 0 then top
        else if k <=? 128 then
          match number (i_lb i), number (i_ub i) with
          | Some lb, Some ub => if bound_ge (i_lb i) (finite 0) then range (Z.shiftr lb k) (Z.shiftr ub k) else top
          | _, _ => top
          end
        else top
    | None => top
    end.

(** ** Machine widths *)

Definition nonnegative_int (is64 : bool) : interval_t := if is64 then range 0 INT64_MAX else range 0 INT32_MAX.
Definition negative_int (is64 : bool) : interval_t := if is64 then range INT64_MIN (-1) else range INT32_MIN (-1).
Definition signed_int (is64 : bool) : interval_t := if is64 then range INT64_MIN INT64_MAX else range INT32_MIN INT32_MAX.
Definition unsigned_int (is64 : bool) : interval_t := if is64 then range 0 UINT64_MAX else range 0 UINT32_MAX.
Definition unsigned_high (is64 : bool) : interval_t := if is64 then range (INT64_MAX + 1) UINT64_MAX else range (INT32_MAX + 1) UINT32_MAX.

Definition truncate_to_sint (is64 : bool) i : res interval_t :=
  if interval_le i (signed_int is64) then Ok i
  else
    size ← finite_size i;
    match size, number (i_lb i), number (i_ub i) with
    | Some size, Some lb, Some ub =>
        llb ← truncate_to_signed_finite_width (if is64 then 64 else 32) lb; lub ← truncate_to_signed_finite_width (if is64 then 64 else 32) ub;
        Ok (if (llb <=? lub) && (if is64 then fits_sint64 size else fits_sint32 size) then range llb lub else signed_int is64)
    | _, _, _ => Ok (signed_int is64)
    end.
Definition truncate_to_uint (is64 : bool) i : res interval_t :=
  if interval_le i (unsigned_int is64) then Ok i
  else
    size ← finite_size i;
    match size, number (i_lb i), number (i_ub i) with
    | Some size, Some lb, Some ub =>
        llb ← truncate_to_unsigned_finite_width (if is64 then 64 else 32) lb; lub ← truncate_to_unsigned_finite_width (if is64 then 64 else 32) ub;
        Ok (if (llb <=? lub) && (if is64 then fits_uint64 size else fits_uint32 size) then range llb lub else unsigned_int is64)
    | _, _, _ => Ok (unsigned_int is64)
    end.

Definition trim_interval i j : interval_t :=
  match singleton j with
  | Some c =>
      if bound_eqb (i_lb i) (finite c) then mk_interval (finite (c + 1)) (i_ub i)
      else if bound_eqb (i_ub i) (finite c) then mk_interval (i_lb i) (finite (c - 1))
      else if is_top i && (c =? 0) then range 1 UINT64_MAX
      else i
  | None => i
  end.
