(* ===== verification/IntervalProps.v ===== *)
(** * The interval domain is sound

    What an interval stands for, the order and the lattice operations, and for each operation the result of the machine on
    numbers of the operands is in the interval computed. *)

From Stdlib Require Import ZifyBool.
From stdpp Require Import base numbers list.
From S2P Require Import Prelude.
From S2P Require Import Interval.

Implicit Types b x y : bound_t.
Implicit Types i j : interval_t.

(** ** Well-formed bounds and what they bound *)

(** The value of an infinite bound is its sign. *)
Definition bound_wf b : bool := negb (b_is_infinite b) || (b_n b =? 1) || (b_n b =? -1).
Definition lo_of b (z : Z) : Prop := bound_le b (finite z) = true.
Definition hi_of b (z : Z) : Prop := bound_le (finite z) b = true.
(** The constructors make one bottom. *)
Record interval_wf i : Prop := { lb_wf : bound_wf (i_lb i) = true; ub_wf : bound_wf (i_ub i) = true; bottom_wf : is_bottom i = true → i = bottom }.
(** [z ∈ i] of the comments below. *)
Definition member (z : Z) i : Prop := contains i z = true.

(** Case analysis on bounds and decisions, then arithmetic. *)
Ltac bcases :=
  repeat match goal with
         | b : bound_t |- _ => destruct b as [[] ?]
         | i : interval_t |- _ => destruct i as [? ?]
         end;
  unfold member, lo_of, hi_of, contains, is_bottom, mk_interval, bound_min, bound_max, bound_lt, bound_gt, bound_wf, mk_bound, finite, plus_infinity, minus_infinity in *;
  cbn [bound_le bound_ge bound_eqb b_is_infinite b_n i_lb i_ub xorb negb andb orb Bool.eqb] in *.
Ltac bsplit := repeat (case_match; cbn [bound_le bound_ge b_is_infinite b_n i_lb i_ub xorb negb andb orb] in * ); try done; try lia.
Ltac bound_solve := bcases; bsplit.

Lemma bound_le_trans x y (z : bound_t) : bound_wf x = true → bound_wf y = true → bound_wf z = true →
  bound_le x y = true → bound_le y z = true → bound_le x z = true.
Proof. bound_solve. Qed.
Lemma bound_le_total x y : bound_wf x = true → bound_wf y = true → bound_le x y = false → bound_le y x = true.
Proof. bound_solve. Qed.
Lemma bound_lt_le x y : bound_wf x = true → bound_wf y = true → bound_lt x y = negb (bound_le y x).
Proof. bound_solve. Qed.
Lemma bound_min_wf x y : bound_wf x = true → bound_wf y = true → bound_wf (bound_min x y) = true.
Proof. intros Hx Hy. unfold bound_min. by destruct (bound_le x y). Qed.
Lemma bound_max_wf x y : bound_wf x = true → bound_wf y = true → bound_wf (bound_max x y) = true.
Proof. intros Hx Hy. unfold bound_max. by destruct (bound_le x y). Qed.
Lemma mk_bound_wf is_infinite n : bound_wf (mk_bound is_infinite n) = true.
Proof. unfold mk_bound, bound_wf. destruct is_infinite; [by case (0 <? n) | done]. Qed.
Lemma finite_wf n : bound_wf (finite n) = true.
Proof. done. Qed.
Lemma bound_opp_wf x : bound_wf (bound_opp x) = true.
Proof. apply mk_bound_wf. Qed.
#[export] Hint Resolve bound_min_wf bound_max_wf mk_bound_wf finite_wf bound_opp_wf lb_wf ub_wf : interval.

Lemma contains_spec i z : contains i z = true ↔ lo_of (i_lb i) z ∧ hi_of (i_ub i) z.
Proof. split; bound_solve. Qed.
Lemma contains_mk l u z : contains (mk_interval l u) z = true ↔ lo_of l z ∧ hi_of u z.
Proof.
  unfold mk_interval. destruct (bound_gt l u) eqn:Hgt; [|by rewrite contains_spec].
  split; [done|]. intros [Hl Hu]. exfalso. revert Hgt Hl Hu. bound_solve.
Qed.
Lemma member_mk l u z : member z (mk_interval l u) ↔ lo_of l z ∧ hi_of u z.
Proof. apply contains_mk. Qed.
Lemma member_spec i z : member z i ↔ lo_of (i_lb i) z ∧ hi_of (i_ub i) z.
Proof. apply contains_spec. Qed.
Lemma member_range z lo hi : member z (range lo hi) ↔ lo ≤ z ≤ hi.
Proof. unfold range. rewrite member_mk. unfold lo_of, hi_of. cbn. lia. Qed.
Lemma member_number z n : member z (of_number n) ↔ z = n.
Proof. rewrite member_spec. unfold lo_of, hi_of. cbn. lia. Qed.
Lemma member_top z : member z top.
Proof. done. Qed.
Lemma member_not_bottom z i : member z i → is_bottom i = false.
Proof. unfold member, contains. by destruct (is_bottom i). Qed.
Lemma not_member_bottom z : ¬ member z bottom.
Proof. done. Qed.

Lemma mk_interval_wf l u : bound_wf l = true → bound_wf u = true → interval_wf (mk_interval l u).
Proof. intros Hl Hu. unfold mk_interval. destruct (bound_gt l u) eqn:E; [done|]. split; [done..|]. unfold is_bottom. cbn. by rewrite E. Qed.
Lemma of_number_wf n : interval_wf (of_number n).
Proof. split; [done..|]. unfold is_bottom, bound_gt. cbn. rewrite Z.leb_refl. done. Qed.
Lemma range_wf lo hi : interval_wf (range lo hi).
Proof. by apply mk_interval_wf. Qed.
Lemma bottom_is_wf : interval_wf bottom.
Proof. done. Qed.
Lemma top_wf : interval_wf top.
Proof. by apply mk_interval_wf. Qed.
#[export] Hint Resolve mk_interval_wf of_number_wf range_wf bottom_is_wf top_wf : interval.

(** ** The lattice *)

Lemma lo_of_min x y z : bound_wf x = true → bound_wf y = true → lo_of (bound_min x y) z ↔ lo_of x z ∨ lo_of y z.
Proof. intros Hx Hy. split; revert Hx Hy; bound_solve. Qed.
Lemma hi_of_min x y z : bound_wf x = true → bound_wf y = true → hi_of (bound_min x y) z ↔ hi_of x z ∧ hi_of y z.
Proof. intros Hx Hy. split; revert Hx Hy; bound_solve. Qed.
Lemma lo_of_max x y z : bound_wf x = true → bound_wf y = true → lo_of (bound_max x y) z ↔ lo_of x z ∧ lo_of y z.
Proof. intros Hx Hy. split; revert Hx Hy; bound_solve. Qed.
Lemma hi_of_max x y z : bound_wf x = true → bound_wf y = true → hi_of (bound_max x y) z ↔ hi_of x z ∨ hi_of y z.
Proof. intros Hx Hy. split; revert Hx Hy; bound_solve. Qed.

Lemma interval_le_spec i j : interval_le i j = true ↔ is_bottom i = true ∨ is_bottom j = false ∧ bound_le (i_lb j) (i_lb i) = true ∧ bound_le (i_ub i) (i_ub j) = true.
Proof. unfold interval_le. destruct (is_bottom i), (is_bottom j); rewrite ?andb_true_iff; naive_solver. Qed.

Lemma interval_le_member i j z : interval_wf i → interval_wf j → interval_le i j = true → member z i → member z j.
Proof.
  intros [Hil Hiu _] [Hjl Hju _] [Hb|(_ & Hl & Hu)]%interval_le_spec Hz; [by rewrite (member_not_bottom _ _ Hz) in Hb|].
  apply member_spec in Hz as [Hzl Hzu]. apply member_spec. unfold lo_of, hi_of in *.
  split; [apply (bound_le_trans _ (i_lb i)) | apply (bound_le_trans _ (i_ub i))]; done.
Qed.

(** The order is inclusion, for an interval that has a number. *)
Lemma interval_le_complete i j z0 : interval_wf i → interval_wf j → member z0 i → (∀ z, member z i → member z j) → interval_le i j = true.
Proof.
  intros [Hil Hiu _] [Hjl Hju _] H0 Hsub. apply interval_le_spec. right. pose proof (Hsub _ H0) as H0j.
  split; [by eapply member_not_bottom|]. apply member_spec in H0 as [H0l H0u]. apply member_spec in H0j as [Hjl0 Hju0].
  assert (Hm : ∀ z, lo_of (i_lb i) z → hi_of (i_ub i) z → lo_of (i_lb j) z ∧ hi_of (i_ub j) z).
  { intros z ??. apply member_spec, Hsub. by apply member_spec. }
  clear Hsub. destruct i as [[[] il] [[] iu]], j as [[[] jl] [[] ju]]; cbn [i_lb i_ub] in *;
    unfold lo_of, hi_of, bound_wf in *; cbn [bound_le finite b_is_infinite b_n xorb negb orb] in *;
    split;
    first [ lia | specialize (Hm (Z.min z0 (jl - 1))); lia | specialize (Hm (Z.max z0 (ju + 1))); lia | specialize (Hm il); lia | specialize (Hm iu); lia ].
Qed.

Lemma bound_min_glb x y (z : bound_t) : bound_wf x = true → bound_wf y = true → bound_wf z = true →
  bound_le z (bound_min x y) = bound_le z x && bound_le z y.
Proof. intros Hx Hy Hz. unfold bound_min. destruct (bound_le x y) eqn:E; revert Hx Hy Hz E; bound_solve. Qed.
Lemma bound_max_lub x y (z : bound_t) : bound_wf x = true → bound_wf y = true → bound_wf z = true →
  bound_le (bound_max x y) z = bound_le x z && bound_le y z.
Proof. intros Hx Hy Hz. unfold bound_max. destruct (bound_le x y) eqn:E; revert Hx Hy Hz E; bound_solve. Qed.
Lemma bound_min_l x y : bound_wf x = true → bound_wf y = true → bound_le (bound_min x y) x = true ∧ bound_le (bound_min x y) y = true.
Proof. intros Hx Hy. unfold bound_min. destruct (bound_le x y) eqn:E; revert Hx Hy E; bound_solve. Qed.
Lemma bound_max_l x y : bound_wf x = true → bound_wf y = true → bound_le x (bound_max x y) = true ∧ bound_le y (bound_max x y) = true.
Proof. intros Hx Hy. unfold bound_max. destruct (bound_le x y) eqn:E; revert Hx Hy E; bound_solve. Qed.

Lemma join_wf i j : interval_wf i → interval_wf j → interval_wf (join i j).
Proof. intros Hi Hj. unfold join. destruct (is_bottom i); [done|]. destruct (is_bottom j); auto with interval. Qed.
Lemma meet_wf i j : interval_wf i → interval_wf j → interval_wf (meet i j).
Proof. intros Hi Hj. unfold meet. destruct (is_bottom i || is_bottom j); auto with interval. Qed.
Lemma widen_wf i j : interval_wf i → interval_wf j → interval_wf (widen i j).
Proof.
  intros Hi Hj. unfold widen. destruct (is_bottom i); [done|]. destruct (is_bottom j); [done|].
  apply mk_interval_wf; [destruct (bound_lt (i_lb j) (i_lb i)) | destruct (bound_lt (i_ub i) (i_ub j))]; auto with interval.
Qed.
Lemma narrow_wf i j : interval_wf i → interval_wf j → interval_wf (narrow i j).
Proof. intros Hi Hj. unfold narrow. destruct (is_bottom i || is_bottom j); [done|]. apply mk_interval_wf; case_match; auto with interval. Qed.
#[export] Hint Resolve join_wf meet_wf widen_wf narrow_wf : interval.

Lemma minus_infinity_le x : bound_wf x = true → bound_le minus_infinity x = true.
Proof. destruct x as [[] n]; unfold bound_wf; cbn; lia. Qed.
Lemma plus_infinity_ge x : bound_wf x = true → bound_le x plus_infinity = true.
Proof. destruct x as [[] n]; unfold bound_wf; cbn; lia. Qed.
Lemma bound_le_refl x : bound_le x x = true.
Proof. destruct x as [[] n]; cbn; lia. Qed.
Lemma interval_le_refl i : interval_le i i = true.
Proof. apply interval_le_spec. rewrite !bound_le_refl. destruct (is_bottom i); auto. Qed.
(** Bounds that enclose an interval. *)
Lemma enclosing i l u : bound_wf l = true → bound_wf u = true → interval_wf i → is_bottom i = false → bound_le l (i_lb i) = true → bound_le (i_ub i) u = true →
  bound_gt l u = false.
Proof.
  intros Hl Hu [Hil Hiu _] E%negb_false_iff Hll Huu. apply negb_false_iff. apply (bound_le_trans _ (i_lb i)); [done..|]. by apply (bound_le_trans _ (i_ub i)).
Qed.
Lemma le_mk i l u : bound_wf l = true → bound_wf u = true → interval_wf i → bound_le l (i_lb i) = true → bound_le (i_ub i) u = true → interval_le i (mk_interval l u) = true.
Proof.
  intros Hl Hu Hi Hll Huu. apply interval_le_spec. destruct (is_bottom i) eqn:E; [by left|right].
  pose proof (enclosing i l u Hl Hu Hi E Hll Huu) as Hlu. unfold mk_interval. by rewrite Hlu.
Qed.
Lemma interval_le_trans j i k : interval_wf i → interval_wf j → interval_wf k → interval_le i j = true → interval_le j k = true → interval_le i k = true.
Proof.
  intros Hi Hj Hk Hij Hjk. apply interval_le_spec. apply interval_le_spec in Hij as [?|(Hjb & Hl & Hu)]; [by left|right].
  apply interval_le_spec in Hjk as [?|(Hkb & Hl' & Hu')]; [congruence|]. split; [done|].
  split; [apply (bound_le_trans _ (i_lb j)) | apply (bound_le_trans _ (i_ub j))]; auto with interval.
Qed.
Lemma bottom_le i : interval_le bottom i = true.
Proof. done. Qed.
Lemma is_bottom_le i j : is_bottom i = true → interval_le i j = true.
Proof. intros H. unfold interval_le. by rewrite H. Qed.

Lemma join_upper i j : interval_wf i → interval_wf j → interval_le i (join i j) = true ∧ interval_le j (join i j) = true.
Proof.
  intros Hi Hj. unfold join. destruct (is_bottom i) eqn:Ei; [by rewrite interval_le_refl, is_bottom_le|].
  destruct (is_bottom j) eqn:Ej; [by rewrite interval_le_refl, is_bottom_le|].
  destruct (bound_min_l (i_lb i) (i_lb j)), (bound_max_l (i_ub i) (i_ub j)); auto with interval.
  split; apply le_mk; auto with interval.
Qed.
Lemma join_least i j k : interval_wf i → interval_wf j → interval_wf k → interval_le i k = true → interval_le j k = true → interval_le (join i j) k = true.
Proof.
  intros Hi Hj Hk Hik Hjk. unfold join. destruct (is_bottom i) eqn:Ei; [done|]. destruct (is_bottom j) eqn:Ej; [done|].
  apply interval_le_spec in Hik as [?|(Hkb & Hil & Hiu)]; [congruence|]. apply interval_le_spec in Hjk as [?|(_ & Hjl & Hju)]; [congruence|].
  apply interval_le_spec. rewrite Hkb. unfold mk_interval. destruct (bound_gt _ _) eqn:E; [by left|right]. cbn [i_lb i_ub].
  rewrite bound_min_glb, bound_max_lub, Hil, Hiu, Hjl, Hju by auto with interval. done.
Qed.
Lemma join_member i j z : interval_wf i → interval_wf j → member z i ∨ member z j → member z (join i j).
Proof. intros Hi Hj. destruct (join_upper i j Hi Hj) as [H1 H2]. intros [H|H]; [apply (interval_le_member i) | apply (interval_le_member j)]; auto with interval. Qed.
Lemma meet_member i j z : interval_wf i → interval_wf j → member z (meet i j) ↔ member z i ∧ member z j.
Proof.
  intros Hi Hj. unfold meet. destruct (is_bottom i || is_bottom j) eqn:E.
  - split; [done|]. intros [H1%member_not_bottom H2%member_not_bottom]. by rewrite H1, H2 in E.
  - rewrite member_mk, lo_of_max, hi_of_min, !member_spec by auto with interval. tauto.
Qed.
Lemma widen_upper i j : interval_wf i → interval_wf j → interval_le i (widen i j) = true ∧ interval_le j (widen i j) = true.
Proof.
  intros Hi Hj. unfold widen. destruct (is_bottom i) eqn:Ei; [by rewrite interval_le_refl, is_bottom_le|].
  destruct (is_bottom j) eqn:Ej; [by rewrite interval_le_refl, is_bottom_le|].
  rewrite !bound_lt_le by auto with interval.
  destruct (bound_le (i_lb i) (i_lb j)) eqn:El, (bound_le (i_ub j) (i_ub i)) eqn:Eu; cbn [negb];
    split; apply le_mk; auto using bound_le_refl, minus_infinity_le, plus_infinity_ge with interval.
Qed.

Lemma narrow_between i j : interval_wf i → interval_wf j → interval_le j i = true → interval_le j (narrow i j) = true ∧ interval_le (narrow i j) i = true.
Proof.
  intros Hi Hj Hle. unfold narrow. apply interval_le_spec in Hle as [Ej|(Ei & Hl & Hu)].
  - rewrite Ej, orb_true_r, bottom_le. auto using is_bottom_le.
  - rewrite Ei. cbn [orb]. destruct (is_bottom j) eqn:Ej; [by rewrite bottom_le, is_bottom_le|].
    split; [apply le_mk; auto with interval; case_match; auto using bound_le_refl with interval|].
    apply interval_le_spec. unfold mk_interval. destruct (bound_gt _ _); [by left|right]. cbn [i_lb i_ub].
    split; [done|]. split; case_match; auto using bound_le_refl.
Qed.

(** The bounds that a widening has not given up, and bottom. *)
Definition rank_lb b : nat := if b_is_infinite b && (b_n b <? 0) then 0 else 1.
Definition rank_ub b : nat := if b_is_infinite b && (0 <? b_n b) then 0 else 1.
Definition rank i : nat := if is_bottom i then 3 else rank_lb (i_lb i) + rank_ub (i_ub i).
Lemma widen_lb x y : bound_wf x = true → bound_wf y = true → let l := if bound_lt y x then minus_infinity else x in
  bound_wf l = true ∧ bound_le l x = true ∧ (rank_lb l + (if bound_le x y then 0 else 1) = rank_lb x)%nat.
Proof.
  intros Hx Hy l. subst l. rewrite bound_lt_le by done. destruct (bound_le x y) eqn:E; cbn [negb].
  - by rewrite bound_le_refl, Nat.add_0_r.
  - rewrite minus_infinity_le by done. split; [done|split; [done|]]. revert E Hx Hy. unfold rank_lb. bound_solve.
Qed.
Lemma widen_ub x y : bound_wf x = true → bound_wf y = true → let u := if bound_lt x y then plus_infinity else x in
  bound_wf u = true ∧ bound_le x u = true ∧ (rank_ub u + (if bound_le y x then 0 else 1) = rank_ub x)%nat.
Proof.
  intros Hx Hy u. subst u. rewrite bound_lt_le by done. destruct (bound_le y x) eqn:E; cbn [negb].
  - by rewrite bound_le_refl, Nat.add_0_r.
  - rewrite plus_infinity_ge by done. split; [done|split; [done|]]. revert E Hx Hy. unfold rank_ub. bound_solve.
Qed.
Lemma rank_le i : is_bottom i = false → (rank i < 3)%nat.
Proof. intros E. unfold rank, rank_lb, rank_ub. rewrite E. repeat case_match; lia. Qed.
Lemma widen_rank i j : interval_wf i → interval_wf j → interval_le j i = false → (rank (widen i j) < rank i)%nat.
Proof.
  intros Hi Hj Hle. assert (Ej : is_bottom j = false) by (unfold interval_le in Hle; by destruct (is_bottom j)).
  unfold widen. destruct (is_bottom i) eqn:Ei; [unfold rank at 2; rewrite Ei; by apply rank_le|].
  unfold interval_le in Hle. rewrite Ei, Ej in Hle. rewrite Ej.
  destruct (widen_lb (i_lb i) (i_lb j)) as (Hl1 & Hl2 & Hl3); [auto with interval..|].
  destruct (widen_ub (i_ub i) (i_ub j)) as (Hu1 & Hu2 & Hu3); [auto with interval..|].
  set (l := if bound_lt _ _ then minus_infinity else _) in *. set (u := if bound_lt _ _ then plus_infinity else _) in *.
  pose proof (enclosing i l u Hl1 Hu1 Hi Ei Hl2 Hu2) as Hlu.
  unfold mk_interval. rewrite Hlu. unfold rank at 1. unfold is_bottom at 1. cbn [i_lb i_ub]. rewrite Hlu.
  unfold rank. rewrite Ei. destruct (bound_le (i_lb i) (i_lb j)), (bound_le (i_ub j) (i_ub i)); [done|lia..].
Qed.

(** The iteration that the widening serves: the interval grows by the widening until what the loop adds is in it. *)
Fixpoint iterate (fuel : nat) (f : interval_t → interval_t) i : option interval_t :=
  if interval_le (f i) i then Some i else match fuel with O => None | S fuel => iterate fuel f (widen i (f i)) end.

(** The lattice of the domain. *)
Theorem interval_lattice i j :
  interval_wf i → interval_wf j →
  (∀ z0, member z0 i → interval_le i j = true ↔ ∀ z, member z i → member z j) ∧
  (interval_le i (join i j) = true ∧ interval_le j (join i j) = true ∧
   ∀ k, interval_wf k → interval_le i k = true → interval_le j k = true → interval_le (join i j) k = true) ∧
  (∀ z, member z (meet i j) ↔ member z i ∧ member z j) ∧
  (interval_le j i = true → interval_le j (narrow i j) = true ∧ interval_le (narrow i j) i = true) ∧
  (interval_le i (widen i j) = true ∧ interval_le j (widen i j) = true).
Proof.
  intros Hi Hj. split_and!.
  - intros z0 H0. split; [eauto using interval_le_member | eauto using interval_le_complete].
  - by apply join_upper.
  - by apply join_upper.
  - eauto using join_least.
  - intros z. by apply meet_member.
  - by apply narrow_between.
  - by apply widen_upper.
  - by apply widen_upper.
Qed.

Lemma iterate_rank fuel f i : interval_wf i → (∀ k, interval_wf k → interval_wf (f k)) → (rank i ≤ fuel)%nat →
  ∃ k, iterate fuel f i = Some k ∧ interval_wf k ∧ interval_le (f k) k = true ∧ interval_le i k = true.
Proof.
  revert i. induction fuel as [|fuel IH]; intros i Hi Hf Hr; cbn [iterate]; destruct (interval_le (f i) i) eqn:E;
    try (exists i; by rewrite interval_le_refl); pose proof (widen_rank i (f i) Hi (Hf _ Hi) E) as Hlt; [lia|].
  destruct (IH (widen i (f i))) as (k & Hk1 & Hk2 & Hk3 & Hk4); [auto with interval..|lia|]. exists k. split_and!; [done..|].
  apply interval_le_trans with (widen i (f i)); auto with interval. by apply widen_upper; auto.
Qed.

(** The iteration of a loop with the widening ends after three steps at most, in an interval that the loop keeps. *)
Theorem widening_terminates f i :
  interval_wf i → (∀ k, interval_wf k → interval_wf (f k)) →
  ∃ k, iterate 3 f i = Some k ∧ interval_wf k ∧ interval_le (f k) k = true ∧ interval_le i k = true.
Proof. intros Hi Hf. apply iterate_rank; [done..|]. destruct (is_bottom i) eqn:E; [unfold rank; by rewrite E|]. by apply Nat.lt_le_incl, rank_le. Qed.
Lemma widening_terminates_witness : ∃ k, iterate 3 (λ i, join i (range 0 7)) (range 0 0) = Some k ∧ interval_wf k ∧ interval_le (join k (range 0 7)) k = true ∧ interval_le (range 0 0) k = true.
Proof. apply (widening_terminates (λ i, join i (range 0 7)) (range 0 0)); [apply range_wf|]. intros k Hk. apply join_wf; [done|apply range_wf]. Defined.

(** ** Addition, subtraction and multiplication *)

Lemma bound_add_lo x y z w : bound_wf x = true → bound_wf y = true → lo_of x z → lo_of y w → ∃ l, bound_add x y = Ok l ∧ bound_wf l = true ∧ lo_of l (z + w).
Proof.
  intros Hx Hy Hz Hw. destruct x as [[] xn], y as [[] yn]; unfold lo_of, bound_wf in *; cbn in *.
  - assert (xn =? yn = true) as -> by lia. eexists; split; [done|]. cbn. lia.
  - eexists; split; [done|]. cbn. lia.
  - eexists; split; [done|]. cbn. lia.
  - eexists; split; [done|]. cbn. lia.
Qed.
Lemma bound_opp_lo x z : bound_wf x = true → lo_of (bound_opp x) (- z) ↔ hi_of x z.
Proof. destruct x as [[] n]; unfold bound_wf, lo_of, hi_of, bound_opp; cbn; [destruct (0 <? - n) eqn:?|]; lia. Qed.
Lemma bound_opp_hi x z : bound_wf x = true → hi_of (bound_opp x) (- z) ↔ lo_of x z.
Proof. destruct x as [[] n]; unfold bound_wf, lo_of, hi_of, bound_opp; cbn; [destruct (0 <? - n) eqn:?|]; lia. Qed.
Lemma bound_add_hi x y z w : bound_wf x = true → bound_wf y = true → hi_of x z → hi_of y w → ∃ u, bound_add x y = Ok u ∧ bound_wf u = true ∧ hi_of u (z + w).
Proof.
  intros Hx Hy Hz Hw. destruct x as [[] xn], y as [[] yn]; unfold hi_of, bound_wf in *; cbn in *.
  - assert (xn =? yn = true) as -> by lia. eexists; split; [done|]. cbn. lia.
  - eexists; split; [done|]. cbn. lia.
  - eexists; split; [done|]. cbn. lia.
  - eexists; split; [done|]. cbn. lia.
Qed.

Lemma interval_opp_sound i z : interval_wf i → member z i → interval_wf (interval_opp i) ∧ member (- z) (interval_opp i).
Proof.
  intros Hi Hz. unfold interval_opp. rewrite (member_not_bottom _ _ Hz). split; [auto with interval|].
  apply member_mk. rewrite bound_opp_lo, bound_opp_hi by auto with interval. apply member_spec in Hz. tauto.
Qed.
Lemma interval_add_sound i j z w : interval_wf i → interval_wf j → member z i → member w j →
  ∃ k, interval_add i j = Ok k ∧ interval_wf k ∧ member (z + w) k.
Proof.
  intros Hi Hj Hz Hw. unfold interval_add. rewrite (member_not_bottom _ _ Hz), (member_not_bottom _ _ Hw). cbn [orb].
  apply member_spec in Hz as [Hz1 Hz2]. apply member_spec in Hw as [Hw1 Hw2].
  destruct (bound_add_lo _ _ _ _ (lb_wf _ Hi) (lb_wf _ Hj) Hz1 Hw1) as (l & Hl1 & Hl2 & Hl3). rewrite Hl1.
  destruct (bound_add_hi _ _ _ _ (ub_wf _ Hi) (ub_wf _ Hj) Hz2 Hw2) as (u & Hu1 & Hu2 & Hu3). rewrite Hu1.
  eexists; split; [done|]. split; [auto with interval|]. by apply member_mk.
Qed.
(** The code subtracts bounds as it adds opposites. *)
Lemma interval_sub_add i j : is_bottom j = false → interval_wf j → interval_sub i j = interval_add i (interval_opp j).
Proof.
  intros Ej Hj. unfold interval_sub, interval_add, interval_opp. rewrite Ej, orb_false_r. destruct (is_bottom i); [done|]. cbn [orb].
  assert (Hgt : bound_gt (bound_opp (i_ub j)) (bound_opp (i_lb j)) = false).
  { destruct Hj as [Hl Hu _]. revert Ej Hl Hu. unfold is_bottom. generalize (i_lb j) (i_ub j). intros [[] l] [[] u]; unfold bound_gt, bound_opp, mk_bound, bound_wf; cbn;
      repeat case_match; lia. }
  assert (mk_interval (bound_opp (i_ub j)) (bound_opp (i_lb j)) = Interval (bound_opp (i_ub j)) (bound_opp (i_lb j))) as -> by (unfold mk_interval; by rewrite Hgt).
  unfold is_bottom. cbn [i_lb i_ub]. by rewrite Hgt.
Qed.
Lemma interval_sub_sound i j z w : interval_wf i → interval_wf j → member z i → member w j →
  ∃ k, interval_sub i j = Ok k ∧ interval_wf k ∧ member (z - w) k.
Proof.
  intros Hi Hj Hz Hw. rewrite interval_sub_add by (try done; by eapply member_not_bottom).
  destruct (interval_opp_sound j w) as [H1 H2]; [done..|]. by apply interval_add_sound.
Qed.

(** The product of a bound with a number of an interval is between its products with the bounds. *)
Lemma bound_mul_wf x y : bound_wf x = true → bound_wf y = true → bound_wf (bound_mul x y) = true.
Proof. intros Hx Hy. unfold bound_mul. destruct (b_n y =? 0), (b_n x =? 0); auto using mk_bound_wf. Qed.
#[export] Hint Resolve bound_mul_wf : interval.
Lemma bound_mul_lo x c d w : bound_wf x = true → bound_wf c = true → bound_wf d = true → lo_of c w → hi_of d w →
  bound_le (bound_min (bound_mul x c) (bound_mul x d)) (bound_mul x (finite w)) = true ∧
  bound_le (bound_mul x (finite w)) (bound_max (bound_mul x c) (bound_mul x d)) = true.
Proof.
  intros Hx Hc Hd Hw1 Hw2. destruct x as [[] xn], c as [[] cn], d as [[] dn]; unfold bound_wf, lo_of, hi_of, bound_mul, bound_min, bound_max, mk_bound in *;
    cbn in *; repeat case_match; cbn in *; try done; split; try nia.
Qed.
Lemma bound_mul_comm x y : bound_wf x = true → bound_wf y = true → bound_mul x y = bound_mul y x.
Proof.
  destruct x as [[] xn], y as [[] yn]; unfold bound_wf, bound_mul, mk_bound; cbn; intros Hx Hy; rewrite ?(Z.mul_comm yn xn); repeat case_match; cbn; try done; f_equal; lia.
Qed.
Lemma bound_mul_finite z w : bound_mul (finite z) (finite w) = finite (z * w).
Proof. unfold bound_mul, mk_bound, finite. cbn. repeat case_match; f_equal; nia. Qed.

(** The hull holds what is between two of its bounds, each between two of the four. *)
Lemma hull_wf ll lu ul uu : bound_wf ll = true → bound_wf lu = true → bound_wf ul = true → bound_wf uu = true → interval_wf (hull ll lu ul uu).
Proof. intros. unfold hull, bound_min4, bound_max4, bound_min3, bound_max3. auto 10 with interval. Qed.
Lemma hull_member ll lu ul uu l u v : bound_wf ll = true → bound_wf lu = true → bound_wf ul = true → bound_wf uu = true → bound_wf l = true → bound_wf u = true →
  bound_le (bound_min ll lu) l = true → bound_le l (bound_max ll lu) = true → bound_le (bound_min ul uu) u = true → bound_le u (bound_max ul uu) = true →
  lo_of (bound_min l u) v → hi_of (bound_max l u) v → member v (hull ll lu ul uu).
Proof.
  intros Hll Hlu Hul Huu Hwl Hwu H1 H2 H3 H4 Hv1 Hv2. unfold hull, bound_min4, bound_max4, bound_min3, bound_max3. apply member_mk.
  rewrite !lo_of_min, !hi_of_max by auto with interval. apply lo_of_min in Hv1; [|done..]. apply hi_of_max in Hv2; [|done..].
  split.
  - destruct Hv1 as [Hv|Hv]; [assert (Hm : lo_of (bound_min ll lu) v) | assert (Hm : lo_of (bound_min ul uu) v)];
      try (unfold lo_of in *; eapply bound_le_trans; [..|eassumption]; eauto with interval; fail); apply lo_of_min in Hm; tauto.
  - destruct Hv2 as [Hv|Hv]; [assert (Hm : hi_of (bound_max ll lu) v) | assert (Hm : hi_of (bound_max ul uu) v)];
      try (unfold hi_of in *; eapply bound_le_trans; [..|eassumption]; eauto with interval; fail); apply hi_of_max in Hm; tauto.
Qed.

Lemma interval_mul_sound i j z w : interval_wf i → interval_wf j → member z i → member w j → interval_wf (interval_mul i j) ∧ member (z * w) (interval_mul i j).
Proof.
  intros Hi Hj Hz Hw. unfold interval_mul. rewrite (member_not_bottom _ _ Hz), (member_not_bottom _ _ Hw). cbn [orb].
  apply member_spec in Hz as [Hz1 Hz2]. apply member_spec in Hw as [Hw1 Hw2]. destruct Hi as [Hil Hiu _], Hj as [Hjl Hju _].
  split; [apply hull_wf; auto with interval|].
  destruct (bound_mul_lo (i_lb i) (i_lb j) (i_ub j) w) as [H1 H2]; [done..|]. destruct (bound_mul_lo (i_ub i) (i_lb j) (i_ub j) w) as [H3 H4]; [done..|].
  destruct (bound_mul_lo (finite w) (i_lb i) (i_ub i) z) as [H5 H6]; [done..|].
  rewrite !(bound_mul_comm (finite w)), bound_mul_finite in H5, H6 by done.
  apply (hull_member _ _ _ _ (bound_mul (i_lb i) (finite w)) (bound_mul (i_ub i) (finite w))); auto with interval.
Qed.

(** ** Unsigned division *)

(** What an operation promises: no exception, and the results on all numbers of the operands. *)
Definition sound2 (f : Z → Z → Z) i j (r : res interval_t) : Prop := ∃ k, r = Ok k ∧ interval_wf k ∧ ∀ z w, member z i → member w j → member (f z w) k.
(** An interval of unsigned numbers. *)
Definition nonneg i : Prop := b_is_infinite (i_lb i) = false ∧ 0 ≤ b_n (i_lb i).
Definition positive i : Prop := b_is_infinite (i_lb i) = false ∧ 0 < b_n (i_lb i).
Definition unsigned_div (z w : Z) : Z := if w =? 0 then 0 else z / w.
Definition unsigned_mod (z w : Z) : Z := if w =? 0 then z else z mod w.

Lemma sound2_bottom f i j : is_bottom i || is_bottom j = true → sound2 f i j (Ok bottom).
Proof.
  intros Hb. exists bottom. split; [done|split; [done|]]. intros z w Hz%member_not_bottom Hw%member_not_bottom. by rewrite Hz, Hw in Hb.
Qed.
Lemma sound2_ok f i j k : interval_wf k → (∀ z w, member z i → member w j → member (f z w) k) → sound2 f i j (Ok k).
Proof. intros. by exists k. Qed.
Lemma nonneg_member i z : nonneg i → member z i → 0 ≤ z ∧ b_n (i_lb i) ≤ z.
Proof. intros [H1 H2] [Hl _]%member_spec. destruct (i_lb i) as [[] l]; [done|]. unfold lo_of in Hl. cbn in *. lia. Qed.
Lemma positive_nonneg i : positive i → nonneg i.
Proof. intros [? ?]. split; [done|lia]. Qed.

(** An upper bound of an unsigned interval that is not empty. *)
Lemma nonneg_ub i : interval_wf i → nonneg i → is_bottom i = false → b_n (i_lb i) ≤ b_n (i_ub i) ∨ i_ub i = plus_infinity.
Proof.
  intros [Hl Hu _] [H1 H2] E. destruct i as [[[] l] [[] u]]; try done; unfold is_bottom, bound_gt, bound_wf in *; cbn in *; [right | left; lia].
  unfold plus_infinity, mk_bound. cbn. f_equal. lia.
Qed.

Definition quot_bound x y : bound_t := if b_is_infinite x then plus_infinity else if b_is_infinite y then finite 0 else finite (b_n x / b_n y).
Lemma bound_udiv_quot x y : 0 ≤ b_n x → 0 < b_n y → bound_udiv x y = Ok (quot_bound x y).
Proof.
  intros Hx Hy. unfold bound_udiv, quot_bound, as_unsigned. rewrite (proj2 (Z.eqb_neq _ _)) by lia.
  destruct (b_is_infinite x), (b_is_infinite y); cbn [negb andb]; try done.
  rewrite !(proj2 (Z.leb_le _ _)) by lia. cbn. unfold mk_bound, finite. by rewrite Z.quot_div_nonneg by lia.
Qed.
Lemma quot_bound_wf x y : bound_wf (quot_bound x y) = true.
Proof. unfold quot_bound. by destruct (b_is_infinite x), (b_is_infinite y). Qed.
#[export] Hint Resolve quot_bound_wf : interval.
Lemma quot_bound_right x c d w : bound_wf d = true → 0 ≤ b_n x → 0 < b_n c → b_is_infinite c = false → lo_of c w → hi_of d w →
  bound_le (bound_min (quot_bound x c) (quot_bound x d)) (quot_bound x (finite w)) = true ∧
  bound_le (quot_bound x (finite w)) (bound_max (quot_bound x c) (quot_bound x d)) = true.
Proof.
  intros Hd Hx Hc Hci Hw1 Hw2.
  destruct x as [[] xn], c as [[] cn], d as [[] dn]; try done; unfold bound_wf, lo_of, hi_of in *; cbn in *; try done.
  - assert (0 ≤ xn / w ≤ xn / cn) by (split; [apply Z.div_pos | apply Z.div_le_compat_l]; lia).
    unfold quot_bound, bound_min, bound_max. cbn. repeat case_match; cbn in *; lia.
  - assert (xn / dn ≤ xn / w ≤ xn / cn) by (split; apply Z.div_le_compat_l; lia).
    unfold quot_bound, bound_min, bound_max. cbn. repeat case_match; cbn in *; lia.
Qed.
Lemma quot_bound_left a b z w : bound_wf b = true → b_is_infinite a = false → lo_of a z → hi_of b z → 0 < w →
  lo_of (bound_min (quot_bound a (finite w)) (quot_bound b (finite w))) (z / w) ∧ hi_of (bound_max (quot_bound a (finite w)) (quot_bound b (finite w))) (z / w).
Proof.
  intros Hb Ha Hz1 Hz2 Hw. destruct a as [[] an]; [done|]. rewrite lo_of_min, hi_of_max by auto with interval.
  unfold lo_of, hi_of, bound_wf in *; destruct b as [[] bn]; cbn in *.
  - split; [left; apply Z.leb_le, Z.div_le_mono; lia | by right].
  - split; [left | right]; apply Z.leb_le, Z.div_le_mono; lia.
Qed.

Lemma singleton_spec j c : singleton j = Some c → i_lb j = finite c ∧ i_ub j = finite c.
Proof.
  unfold singleton. destruct (negb (is_bottom j) && bound_eqb (i_lb j) (i_ub j)) eqn:E; [|done]. apply andb_true_iff in E as [_ E].
  destruct j as [[[] l] [[] u]]; unfold number, bound_eqb in *; cbn in *; try done. intros [= ->]. unfold finite. split; f_equal; lia.
Qed.
Lemma singleton_member j c w : singleton j = Some c → member w j ↔ w = c.
Proof. intros [H1 H2]%singleton_spec. rewrite member_spec, H1, H2. unfold lo_of, hi_of. cbn. lia. Qed.
Lemma above_member i z : member z i → 0 < z → member z (above i).
Proof. intros [_ Hu]%member_spec Hz. apply member_mk. split; [unfold lo_of; cbn; lia | done]. Qed.
Lemma below_member i z : member z i → z < 0 → member z (below i).
Proof. intros [Hl _]%member_spec Hz. apply member_mk. split; [done | unfold hi_of; cbn; lia]. Qed.
Lemma above_wf i : interval_wf i → interval_wf (above i).
Proof. intros Hi. unfold above. auto with interval. Qed.
Lemma below_wf i : interval_wf i → interval_wf (below i).
Proof. intros Hi. unfold below. auto with interval. Qed.
Lemma below_nonneg i : nonneg i → below i = bottom.
Proof. intros [H1 H2]. unfold below, mk_interval. destruct (i_lb i) as [[] l]; [done|]. unfold bound_gt. cbn in *. destruct (l <=? -1) eqn:E; [lia | done]. Qed.
Lemma above_nonneg i : nonneg (above i).
Proof. unfold above, mk_interval. destruct (bound_gt _ _); by split. Qed.
Lemma above_not_zero i : contains (above i) 0 = false.
Proof. apply not_true_iff_false. intros [H _]%contains_mk. done. Qed.
Lemma positive_not_zero i : nonneg i → is_bottom i = false → contains i 0 = false → interval_wf i → positive i.
Proof.
  intros [H1 H2] E Hc Hi. split; [done|]. assert (b_n (i_lb i) ≠ 0); [|lia]. intros H0. apply not_true_iff_false in Hc. apply Hc, contains_spec.
  destruct i as [[[] l] u]; [done|]. cbn in *. subst l. split; [done|]. unfold is_bottom, bound_gt in E. cbn in E. by apply negb_false_iff in E.
Qed.
#[export] Hint Resolve above_wf below_wf above_nonneg : interval.

(** Neither operand has zero. *)
Lemma udiv_hull i j : interval_wf i → interval_wf j → positive i → positive j → is_bottom i = false → is_bottom j = false →
  sound2 unsigned_div i j (a ← shifted_dividend i j;
    ll ← bound_udiv (i_lb a) (i_lb j); lu ← bound_udiv (i_lb a) (i_ub j); ul ← bound_udiv (i_ub a) (i_lb j); uu ← bound_udiv (i_ub a) (i_ub j);
    Ok (hull ll lu ul uu)).
Proof.
  intros Hi Hj Pi Pj Ei Ej.
  pose proof (nonneg_ub i Hi (positive_nonneg _ Pi) Ei) as Ui. pose proof (nonneg_ub j Hj (positive_nonneg _ Pj) Ej) as Uj. destruct Pi as [Pi1 Pi2], Pj as [Pj1 Pj2].
  assert (Hu1 : 0 < b_n (i_ub i)) by (destruct Ui as [?| ->]; cbn; lia). assert (Hu2 : 0 < b_n (i_ub j)) by (destruct Uj as [?| ->]; cbn; lia).
  unfold shifted_dividend. assert (bound_lt (i_ub i) (finite 0) = false) as ->.
  { destruct (i_ub i) as [[] u]; unfold bound_lt; cbn in *; lia. }
  change (mbind ?f (Ok i)) with (f i). cbv beta. rewrite !bound_udiv_quot by lia.
  apply sound2_ok; [apply hull_wf; auto with interval|]. intros z w Hz Hw.
  apply member_spec in Hz as [Hz1 Hz2]. apply member_spec in Hw as [Hw1 Hw2].
  assert (0 < w) by (destruct (i_lb j) as [[] l]; [done|]; unfold lo_of in Hw1; cbn in *; lia).
  unfold unsigned_div. rewrite (proj2 (Z.eqb_neq _ _)) by lia. destruct Hi as [Hil Hiu _], Hj as [Hjl Hju _].
  destruct (quot_bound_right (i_lb i) (i_lb j) (i_ub j) w) as [H1 H2]; [done || lia..|].
  destruct (quot_bound_right (i_ub i) (i_lb j) (i_ub j) w) as [H3 H4]; [done || lia..|].
  destruct (quot_bound_left (i_lb i) (i_ub i) z w) as [H5 H6]; [done..|].
  apply (hull_member _ _ _ _ (quot_bound (i_lb i) (finite w)) (quot_bound (i_ub i) (finite w))); auto with interval.
Qed.

Lemma cast_to_uint64_nonneg n : 0 ≤ n → fits_cast_to_int64 n = true → cast_to_uint64 n = Ok n.
Proof. intros Hn Hf. unfold cast_to_uint64. assert (fits_uint64 n = true) as ->; [|done]. unfold fits_cast_to_int64, fits_uint64, fits_sint64 in *. lia. Qed.
Lemma singleton_nonneg j c : nonneg j → singleton j = Some c → 0 ≤ c.
Proof. intros [_ H] [E _]%singleton_spec. by rewrite E in H. Qed.

Lemma udiv_singleton i j c : interval_wf i → nonneg i → is_bottom i = false → singleton j = Some c → 0 < c →
  sound2 unsigned_div i j (lb ← bound_udiv (i_lb i) (finite c); ub ← bound_udiv (i_ub i) (finite c); Ok (mk_interval lb ub)).
Proof.
  intros Hi Ni Ei Hs Hc. pose proof (nonneg_ub i Hi Ni Ei) as Hu. pose proof Ni as [Ni1 Ni2].
  rewrite !bound_udiv_quot by (try done; destruct Hu as [?| ->]; cbn; lia).
  apply sound2_ok; [auto with interval|]. intros z w [Hz1 Hz2]%member_spec ->%(singleton_member _ _ _ Hs).
  unfold unsigned_div. rewrite (proj2 (Z.eqb_neq _ _)) by lia. apply member_mk. destruct Hi as [_ Hiu _].
  unfold lo_of, hi_of, quot_bound, bound_wf in *. destruct (i_lb i) as [[] l], (i_ub i) as [[] u]; try done; cbn in *;
    rewrite !Z.leb_le in *; auto using Z.div_le_mono.
Qed.

(** Both parts of an operand split at zero, joined with a third interval. *)
Lemma split_divisor f i j (r : interval_t → res interval_t) k0 : interval_wf k0 → nonneg j →
  r (below j) = Ok bottom → sound2 f i (above j) (r (above j)) → (∀ z, member z i → member (f z 0) k0) →
  sound2 f i j (l ← r (below j); u ← r (above j); Ok (join (join l u) k0)).
Proof.
  intros Hk0 Nj -> (k & -> & Hk & Hs) H0. apply sound2_ok; [auto 10 with interval|]. intros z w Hz Hw.
  apply join_member; [auto with interval..|]. destruct (nonneg_member _ _ Nj Hw) as [Hw0 _].
  destruct (decide (w = 0)) as [-> |]; [by right; apply H0|]. left. apply join_member; [auto with interval..|]. right. apply Hs; [done|]. apply above_member; [done|lia].
Qed.
Lemma split_dividend f i j (r : interval_t → res interval_t) k0 : interval_wf k0 → nonneg i →
  r (below i) = Ok bottom → sound2 f (above i) j (r (above i)) → (∀ w, member 0 i → member w j → member (f 0 w) k0) →
  sound2 f i j (l ← r (below i); u ← r (above i); Ok (join (join l u) k0)).
Proof.
  intros Hk0 Ni -> (k & -> & Hk & Hs) H0. apply sound2_ok; [auto 10 with interval|]. intros z w Hz Hw.
  apply join_member; [auto with interval..|]. destruct (nonneg_member _ _ Ni Hz) as [Hz0 _].
  destruct (decide (z = 0)) as [-> |]; [by right; apply H0|]. left. apply join_member; [auto with interval..|]. right. apply Hs; [|done]. apply above_member; [done|lia].
Qed.

Lemma interval_udiv_sound fuel i j : interval_wf i → interval_wf j → nonneg i → nonneg j →
  ((if contains j 0 then 1 else 0) + (if contains i 0 then 1 else 0) < fuel)%nat → sound2 unsigned_div i j (interval_udiv fuel i j).
Proof.
  revert i j. induction fuel as [|fuel IH]; intros i j Hi Hj Ni Nj Hfuel; [lia|]. cbn [interval_udiv].
  destruct (is_bottom i || is_bottom j) eqn:Eb; [by apply sound2_bottom|]. apply orb_false_iff in Eb as [Ei Ej].
  destruct (match singleton j with Some n => _ | None => None end) as [c|] eqn:Es.
  - destruct (singleton j) as [n|] eqn:Hs; [|done]. destruct (fits_cast_to_int64 n) eqn:Hf; [|done]. injection Es as ->.
    pose proof (singleton_nonneg _ _ Nj Hs) as Hc. rewrite cast_to_uint64_nonneg by done. change (mbind ?f (Ok c)) with (f c). cbv beta.
    destruct (c =? 1) eqn:E1; [|destruct (0 <? c) eqn:E2].
    + apply sound2_ok; [done|]. intros z w Hz ->%(singleton_member _ _ _ Hs). assert (c = 1) as -> by lia. unfold unsigned_div. cbn. by rewrite Z.div_1_r.
    + apply udiv_singleton; [done..|lia].
    + apply sound2_ok; [auto with interval|]. intros z w Hz ->%(singleton_member _ _ _ Hs). assert (c = 0) as -> by lia. by apply member_number.
  - destruct (contains j 0) eqn:Cj; [|destruct (contains i 0) eqn:Ci].
    + apply split_divisor; auto with interval.
      * rewrite (below_nonneg j) by done. destruct fuel; cbn; by rewrite orb_true_r.
      * apply IH; auto with interval. rewrite above_not_zero. lia.
      * intros z _. by apply member_number.
    + apply (split_dividend _ _ _ (λ i, interval_udiv fuel i j)); auto with interval.
      * rewrite (below_nonneg i) by done. by destruct fuel.
      * apply IH; auto with interval. rewrite above_not_zero, Cj. lia.
      * intros w _ _. apply member_number. unfold unsigned_div. by destruct (w =? 0).
    + apply udiv_hull; auto using positive_not_zero.
Qed.

(** C29 (functional). Addition, subtraction, opposite and multiplication of intervals never fail and hold the exact results, as
    numbers without a width. Unsigned division does so when neither operand has negative numbers, with the quotient 0 for the
    divisor 0; with negative bounds it is not sound, and fails below -2^63. *)
Theorem arithmetic_sound i j :
  interval_wf i → interval_wf j →
  (∀ z w, member z i → member w j → ∃ k, interval_add i j = Ok k ∧ interval_wf k ∧ member (z + w) k) ∧
  (∀ z w, member z i → member w j → ∃ k, interval_sub i j = Ok k ∧ interval_wf k ∧ member (z - w) k) ∧
  (∀ z, member z i → interval_wf (interval_opp i) ∧ member (- z) (interval_opp i)) ∧
  (∀ z w, member z i → member w j → interval_wf (interval_mul i j) ∧ member (z * w) (interval_mul i j)) ∧
  (nonneg i → nonneg j → ∃ k, UDiv i j = Ok k ∧ interval_wf k ∧ ∀ z w, member z i → member w j → member (unsigned_div z w) k).
Proof.
  intros Hi Hj. split_and!; intros.
  - by apply interval_add_sound.
  - by apply interval_sub_sound.
  - by apply interval_opp_sound.
  - by apply interval_mul_sound.
  - apply interval_udiv_sound; auto. destruct (contains i 0), (contains j 0); lia.
Qed.

Lemma arithmetic_sound_witness :
  ∃ k, UDiv (range 10 20) (range 0 3) = Ok k ∧ interval_wf k ∧ ∀ z w, member z (range 10 20) → member w (range 0 3) → member (unsigned_div z w) k.
Proof. apply (arithmetic_sound (range 10 20) (range 0 3)); [apply range_wf..|done|done]. Defined.

(** With negative bounds, the numbers are read as unsigned ones one by one: of [-4, -2] by [2, 3], the quotient of the largest
    number is left out; and a bound below -2^63 has no unsigned reading. *)
Lemma udiv_negative_unsound : UDiv (range (-4) (-2)) (range 2 3) = Ok (range 6148914691236517203 (2 ^ 63 - 2)) ∧ u64 (-2) / 2 = 2 ^ 63 - 1.
Proof. split; vm_compute; reflexivity. Qed.
Lemma udiv_below_fails : UDiv (range (- 2 ^ 63 - 1) (-2)) (range 2 3) = Throw.
Proof. vm_compute. reflexivity. Qed.

(** ** Unsigned remainder *)

Lemma is_bottom_range lo hi : is_bottom (range lo hi) = (hi <? lo).
Proof. unfold range, mk_interval, is_bottom, bound_gt. cbn. destruct (lo <=? hi) eqn:E; cbn; lia. Qed.
Lemma range_bounds lo hi : lo ≤ hi → range lo hi = Interval (finite lo) (finite hi).
Proof. intros H. unfold range, mk_interval, bound_gt. cbn. by rewrite (proj2 (Z.leb_le _ _) H). Qed.
Lemma singleton_number c : singleton (of_number c) = Some c.
Proof. unfold singleton, is_bottom, bound_gt, bound_eqb. cbn. by rewrite Z.leb_refl, Z.eqb_refl. Qed.
Lemma umod_finite n c : 0 ≤ n → 0 < c → bound_umod (finite n) (finite c) = Ok (finite (n mod c)).
Proof.
  intros Hx Hc. unfold bound_umod, as_unsigned. cbn. rewrite (proj2 (Z.eqb_neq _ _)), !(proj2 (Z.leb_le _ _)) by lia. cbn.
  unfold mk_bound, finite. by rewrite Z.rem_mod_nonneg by lia.
Qed.

(** All remainders of a range are between those of its ends. *)
Lemma mod_between_ends lo hi c : 0 ≤ lo ≤ hi → 0 < c →
  (∀ z, lo ≤ z ≤ hi → lo mod c ≤ z mod c ≤ hi mod c) ↔ lo / c = hi / c ∨ lo mod c = 0 ∧ hi mod c = c - 1.
Proof.
  intros Hr Hc. pose proof (Z.div_mod lo c ltac:(lia)) as El. pose proof (Z.div_mod hi c ltac:(lia)) as Eh.
  pose proof (Z.mod_pos_bound lo c Hc). pose proof (Z.mod_pos_bound hi c Hc). assert (lo / c ≤ hi / c) by (apply Z.div_le_mono; lia). split.
  - intros Hall. destruct (decide (lo / c = hi / c)) as [|Hne]; [by left|right].
    assert (c * (lo / c) + c ≤ c * (hi / c)) by nia.
    pose proof (Hall (c * (hi / c)) ltac:(lia)) as Hs. rewrite (Z.mul_comm c), Z.mod_mul in Hs by lia.
    pose proof (Hall (lo / c * c + (c - 1)) ltac:(lia)) as He. rewrite Z.add_comm, Z.mod_add, (Z.mod_small (c - 1)) in He by lia. lia.
  - intros [Heq|[Hs He]] z Hz; pose proof (Z.mod_pos_bound z c Hc); [|lia].
    assert (z / c = lo / c) as Hq. { assert (lo / c ≤ z / c) by (apply Z.div_le_mono; lia). assert (z / c ≤ hi / c) by (apply Z.div_le_mono; lia). lia. }
    pose proof (Z.div_mod z c ltac:(lia)). rewrite Hq in *. rewrite <-Heq in Eh. lia.
Qed.

(** C38 (safety). The remainder by a constant is the range of the remainders of the two ends: it holds all the remainders exactly
    when the range is inside one period of the constant or runs from a start to an end of periods. *)
Theorem urem_by_constant lo hi c :
  0 ≤ lo ≤ hi → 0 < c →
  URem (range lo hi) (of_number c) = Ok (range (lo mod c) (hi mod c)) ∧
  ((∀ z, lo ≤ z ≤ hi → member (z mod c) (range (lo mod c) (hi mod c))) ↔ lo / c = hi / c ∨ lo mod c = 0 ∧ hi mod c = c - 1).
Proof.
  intros Hr Hc. split.
  - unfold URem. cbn [interval_urem]. rewrite is_bottom_range, (proj2 (Z.ltb_ge _ _)), range_bounds by lia.
    rewrite (member_not_bottom c (of_number c)) by by apply member_number. cbn [orb]. rewrite singleton_number, (proj2 (Z.ltb_lt _ _)) by lia. cbn [i_lb i_ub].
    rewrite !umod_finite by lia. done.
  - rewrite <-mod_between_ends by done. setoid_rewrite member_range. done.
Qed.
Lemma urem_by_constant_witness :
  URem (range 20 29) (of_number 10) = Ok (range 0 9) ∧
  ((∀ z, 20 ≤ z ≤ 29 → member (z mod 10) (range (20 mod 10) (29 mod 10))) ↔ 20 / 10 = 29 / 10 ∨ 20 mod 10 = 0 ∧ 29 mod 10 = 10 - 1).
Proof. apply (urem_by_constant 20 29 10); lia. Defined.
(** So the remainder by ten of a number below twelve is taken to be below two. *)
Lemma urem_unsound : URem (range 0 11) (of_number 10) = Ok (range 0 1) ∧ member 5 (range 0 11) ∧ ¬ member (5 mod 10) (range 0 1).
Proof. split; [vm_compute; reflexivity|]. split; [by apply member_range|]. rewrite member_range. change (5 mod 10) with 5. lia. Qed.
(** A range that crosses a multiple is taken to be unreachable. *)
Lemma urem_unreachable : URem (range 9 11) (of_number 10) = Ok bottom.
Proof. vm_compute. reflexivity. Qed.
(** The remainder by a divisor with no upper bound leaves out the dividend. *)
Lemma urem_unbounded : URem (of_number 5) (mk_interval (finite 1) plus_infinity) = Ok (range 0 4) ∧ member 6 (mk_interval (finite 1) plus_infinity) ∧ ¬ member (5 mod 6) (range 0 4).
Proof. split; [vm_compute; reflexivity|]. split; [done|]. rewrite member_range. change (5 mod 6) with 5. lia. Qed.
