(* ===== verification/IntervalBits.v ===== *)
(** * The interval domain: remainders, bitwise operations and machine widths

    The unsigned remainder by a divisor that is not constant, the bitwise operations on unsigned intervals, and the
    truncations of an interval to 32 or 64 bits. *)

From Stdlib Require Import ZifyBool.
From stdpp Require Import base numbers list.
From S2P Require Import Prelude.
From S2P Require Import Interval.
From S2P Require Import IntervalProps.

Implicit Types b x y : bound_t.
Implicit Types i j : interval_t.

(** An unsigned interval of 64 bits. *)
Definition uint64_interval i : Prop := nonneg i ∧ b_is_infinite (i_ub i) = false ∧ b_n (i_ub i) ≤ UINT64_MAX.

Lemma uint64_member i z : uint64_interval i → member z i → b_n (i_lb i) ≤ z ≤ b_n (i_ub i).
Proof. intros (Hn & H1 & H2) Hz. destruct (nonneg_member _ _ Hn Hz). apply member_spec in Hz as [_ Hu]. destruct (i_ub i) as [[] u]; [done|]. unfold hi_of in Hu. cbn in *. lia. Qed.
Lemma number_finite b : b_is_infinite b = false → number b = Some (b_n b).
Proof. unfold number. by intros ->. Qed.
Lemma finite_eq b : b_is_infinite b = false → b = finite (b_n b).
Proof. by destruct b as [[] n]. Qed.
Lemma cast_uint64 n : 0 ≤ n ≤ UINT64_MAX → cast_to_uint64 n = Ok n.
Proof. intros H. apply cast_to_uint64_nonneg; [lia|]. unfold fits_cast_to_int64, fits_uint64. lia. Qed.
Lemma uint64_nonempty i : uint64_interval i → is_bottom i = false → interval_wf i → b_n (i_lb i) ≤ b_n (i_ub i).
Proof. intros (Hn & H1 & H2) E Hi. destruct (nonneg_ub i Hi Hn E) as [?|E']; [done|]. by rewrite E' in H1. Qed.
Lemma above_uint64 i : uint64_interval i → uint64_interval (above i).
Proof. intros (Hn & H1 & H2). split; [apply above_nonneg|]. unfold above, mk_interval. by destruct (bound_gt _ _). Qed.

Lemma urem_nonzero_sound i j : interval_wf i → interval_wf j → uint64_interval i → uint64_interval j → positive j → is_bottom i = false → is_bottom j = false →
  sound2 unsigned_mod i j (urem_nonzero i j).
Proof.
  intros Hi Hj Ui Uj [P1 P2] Ei Ej. pose proof (uint64_nonempty _ Ui Ei Hi) as Bi. pose proof (uint64_nonempty _ Uj Ej Hj) as Bj.
  pose proof Ui as ([N1 N2] & U1 & U2). pose proof Uj as (_ & U3 & U4). unfold urem_nonzero. rewrite !number_finite by done.
  rewrite (cast_uint64 (b_n (i_ub i))), (cast_uint64 (b_n (i_lb j))), (cast_uint64 (b_n (i_ub j))) by lia. cbn [mbind res_bind].
  destruct (b_n (i_ub i) <? b_n (i_lb j)) eqn:E; (apply sound2_ok; [auto with interval|]); intros z w Hz Hw;
    pose proof (uint64_member _ _ Ui Hz); pose proof (uint64_member _ _ Uj Hw); unfold unsigned_mod; rewrite (proj2 (Z.eqb_neq _ _)) by lia.
  - rewrite Z.mod_small by lia. done.
  - apply member_range. pose proof (Z.mod_pos_bound z w). lia.
Qed.

Lemma interval_urem_sound fuel i j : interval_wf i → interval_wf j → uint64_interval i → uint64_interval j → (∀ c, singleton j = Some c → c ≤ 1) →
  ((if contains j 0 then 1 else 0) + (if contains i 0 then 1 else 0) < fuel)%nat → sound2 unsigned_mod i j (interval_urem fuel i j).
Proof.
  revert i j. induction fuel as [|fuel IH]; intros i j Hi Hj Ui Uj Hs Hfuel; [lia|]. cbn [interval_urem]. pose proof Ui as (Ni & U1 & U2). pose proof Uj as (Nj & U3 & U4).
  destruct (is_bottom i || is_bottom j) eqn:Eb; [by apply sound2_bottom|]. apply orb_false_iff in Eb as [Ei Ej].
  destruct (singleton j) as [c|] eqn:Es.
  - specialize (Hs c eq_refl). pose proof (singleton_nonneg _ _ Nj Es). pose proof (uint64_nonempty _ Ui Ei Hi). destruct (0 <? c) eqn:Ec.
    + assert (c = 1) as -> by lia. destruct Ni as [N1 N2]. rewrite (finite_eq (i_lb i)), (finite_eq (i_ub i)) by done.
      rewrite !umod_finite, !Z.mod_1_r by lia. apply sound2_ok; [auto with interval|]. intros z w _ ->%(singleton_member _ _ _ Es).
      unfold unsigned_mod. cbn. rewrite Z.mod_1_r. done.
    + apply sound2_ok; [done|]. intros z w Hz ->%(singleton_member _ _ _ Es). assert (c = 0) as -> by lia. done.
  - destruct (contains j 0) eqn:Cj; [|destruct (contains i 0) eqn:Ci].
    + apply split_divisor; auto with interval.
      * rewrite (below_nonneg j) by done. destruct fuel; cbn; by rewrite orb_true_r.
      * apply IH; auto using above_uint64 with interval; [|rewrite above_not_zero; lia].
        intros c [E1 E2]%singleton_spec. revert E1. unfold above, mk_interval. destruct (bound_gt _ _); intros [= <-]; lia.
    + apply (split_dividend _ _ _ (λ i, interval_urem fuel i j)); auto with interval.
      * rewrite (below_nonneg i) by done. by destruct fuel.
      * apply IH; auto using above_uint64 with interval; [by rewrite Es|]. rewrite above_not_zero, Cj. lia.
      * intros w H0 _. unfold unsigned_mod. destruct (w =? 0) eqn:?; [done|]. by rewrite Z.mod_0_l by lia.
    + apply urem_nonzero_sound; auto using positive_not_zero.
Qed.

(** The remainder by a divisor that is not constant holds all the remainders, with the remainder by zero the dividend. *)
Theorem urem_sound i j :
  interval_wf i → interval_wf j → uint64_interval i → uint64_interval j → singleton j = None →
  ∃ k, URem i j = Ok k ∧ interval_wf k ∧ ∀ z w, member z i → member w j → member (unsigned_mod z w) k.
Proof. intros Hi Hj Ui Uj Hs. apply interval_urem_sound; [done..| |]; [by rewrite Hs|]. destruct (contains i 0), (contains j 0); lia. Qed.

(** ** Bitwise operations *)

Lemma fill_loop_spec fuel n k : 0 ≤ k → 2 ^ k ≤ n + 1 → n < 2 ^ (k + Z.of_nat fuel) → ∃ m, k ≤ m ∧ fill_loop fuel n (2 ^ k - 1) = 2 ^ m - 1 ∧ n ≤ 2 ^ m - 1.
Proof.
  revert k. induction fuel as [|fuel IH]; intros k Hk Hn Hf; cbn [fill_loop].
  - exists k. rewrite Z.add_0_r in Hf. split_and!; [lia|done|lia].
  - destruct (2 ^ k - 1 <? n) eqn:E; [|exists k; split_and!; [lia|done|lia]].
    replace ((2 ^ k - 1) * 2 + 1) with (2 ^ (k + 1) - 1) by (rewrite Z.pow_add_r by lia; lia).
    destruct (decide (n < 2 ^ (k + 1))) as [Hlt|Hge].
    + exists (k + 1). split_and!; [lia| |lia]. destruct fuel; cbn [fill_loop]; [done|]. by rewrite (proj2 (Z.ltb_ge _ _)) by lia.
    + destruct (IH (k + 1)) as (m & H1 & H2 & H3); [lia..| |]; [replace (k + 1 + Z.of_nat fuel) with (k + Z.of_nat (S fuel)) by lia; done|].
      exists m. split_and!; [lia|done..].
Qed.
(** The loop of fill_ones reaches a number of ones that covers its argument. *)
Lemma fill_ones_spec n : 0 ≤ n → ∃ m, 0 ≤ m ∧ fill_ones n = 2 ^ m - 1 ∧ n ≤ 2 ^ m - 1.
Proof.
  intros Hn. unfold fill_ones. destruct (n =? 0) eqn:E; [exists 0; split_and!; lia|].
  destruct (fill_loop_spec (S (Z.to_nat (Z.log2 n))) n 1) as (m & H1 & H2 & H3); [lia|lia| |exists m; split_and!; [lia|done..]].
  destruct (Z.log2_spec n ltac:(lia)) as [_ Hu]. eapply Z.lt_le_trans; [exact Hu|]. apply Z.pow_le_mono_r; [lia|]. pose proof (Z.log2_nonneg n). lia.
Qed.
Lemma below_ones (f : Z → Z → Z) z w m : f 0 0 = 0 → (∀ z w, 0 ≤ z → 0 ≤ w → 0 ≤ f z w) → (∀ z w, 0 ≤ z → 0 ≤ w → Z.log2 (f z w) ≤ Z.max (Z.log2 z) (Z.log2 w)) →
  0 ≤ m → 0 ≤ z ≤ 2 ^ m - 1 → 0 ≤ w ≤ 2 ^ m - 1 → 0 ≤ f z w ≤ 2 ^ m - 1.
Proof.
  intros H0 Hp Hl Hm Hz Hw. assert (0 ≤ f z w) by (apply Hp; lia). split; [done|]. destruct (decide (f z w = 0)) as [-> |]; [lia|].
  destruct (decide (m = 0)) as [-> |].
  { assert (z = 0) as -> by lia. assert (w = 0) as -> by lia. lia. }
  assert (f z w < 2 ^ m); [|lia]. apply Z.log2_lt_pow2; [lia|]. eapply Z.le_lt_trans; [apply Hl; lia|].
  apply Z.max_lub_lt; (destruct (decide (z = 0)), (decide (w = 0)); subst; cbn; try lia; apply Z.log2_lt_pow2; lia).
Qed.

Lemma member_unbounded z : 0 ≤ z → member z (mk_interval (finite 0) plus_infinity).
Proof. intros H. apply member_mk. split; [unfold lo_of; cbn; lia | done]. Qed.
(** The bounds of a disjunction, for the operations that set no bit above those of the operands. *)
Lemma or_bounds_sound (f : Z → Z → Z) i j z w : f 0 0 = 0 → (∀ z w, 0 ≤ z → 0 ≤ w → 0 ≤ f z w) →
  (∀ z w, 0 ≤ z → 0 ≤ w → Z.log2 (f z w) ≤ Z.max (Z.log2 z) (Z.log2 w)) →
  0 ≤ z → 0 ≤ w → interval_wf i → interval_wf j → member z i → member w j → member (f z w) (or_bounds i j).
Proof.
  intros H0 Hp Hl Hz Hw Hi Hj [_ Hzi]%member_spec [_ Hwj]%member_spec. unfold or_bounds. destruct (_ && _); [|apply member_top].
  destruct (i_ub i) as [[] u], (i_ub j) as [[] v]; unfold number; cbn [b_is_infinite b_n]; try (by apply member_unbounded, Hp).
  unfold hi_of in *. cbn in Hzi, Hwj. set (n := if v <? u then u else v). assert (z ≤ n ∧ w ≤ n) as [Hn1 Hn2] by (subst n; destruct (v <? u) eqn:?; lia).
  destruct (fill_ones_spec n) as (m & Hm1 & Hm2 & Hm3); [lia|]. rewrite Hm2. apply member_range. apply below_ones; auto; lia.
Qed.
Lemma or_bounds_wf i j : interval_wf (or_bounds i j).
Proof. unfold or_bounds. repeat case_match; auto with interval. Qed.

Lemma log2_lxor_le z w : 0 ≤ z → 0 ≤ w → Z.log2 (Z.lxor z w) ≤ Z.max (Z.log2 z) (Z.log2 w).
Proof. apply Z.log2_lxor. Qed.
Lemma log2_lor_le z w : 0 ≤ z → 0 ≤ w → Z.log2 (Z.lor z w) ≤ Z.max (Z.log2 z) (Z.log2 w).
Proof. intros. by rewrite Z.log2_lor. Qed.

Lemma Or_sound i j z w : 0 ≤ z → 0 ≤ w → interval_wf i → interval_wf j → member z i → member w j → interval_wf (Or i j) ∧ member (Z.lor z w) (Or i j).
Proof.
  intros Hz Hw Hi Hj Mz Mw. unfold Or. rewrite (member_not_bottom _ _ Mz), (member_not_bottom _ _ Mw). cbn [orb].
  assert (Hb : interval_wf (or_bounds i j) ∧ member (Z.lor z w) (or_bounds i j)).
  { split; [apply or_bounds_wf|]. apply or_bounds_sound; auto using log2_lor_le. intros. by apply Z.lor_nonneg. }
  destruct (singleton i) as [l|] eqn:Ei; [|done]. destruct (singleton j) as [r|] eqn:Ej; [|done].
  split; [auto with interval|]. apply (singleton_member _ _ _ Ei) in Mz as ->. apply (singleton_member _ _ _ Ej) in Mw as ->. by apply member_number.
Qed.
Lemma Xor_sound i j z w : 0 ≤ z → 0 ≤ w → interval_wf i → interval_wf j → member z i → member w j → interval_wf (Xor i j) ∧ member (Z.lxor z w) (Xor i j).
Proof.
  intros Hz Hw Hi Hj Mz Mw. unfold Xor, Or. rewrite (member_not_bottom _ _ Mz), (member_not_bottom _ _ Mw). cbn [orb].
  assert (Hb : interval_wf (or_bounds i j) ∧ member (Z.lxor z w) (or_bounds i j)).
  { split; [apply or_bounds_wf|]. apply or_bounds_sound; auto using log2_lxor_le. intros. by apply Z.lxor_nonneg. }
  destruct (singleton i) as [l|] eqn:Ei; [|done]. destruct (singleton j) as [r|] eqn:Ej; [|done].
  split; [auto with interval|]. apply (singleton_member _ _ _ Ei) in Mz as ->. apply (singleton_member _ _ _ Ej) in Mw as ->. by apply member_number.
Qed.

(** Adding to the low bits when they do not wrap. *)
Lemma mod_add_small m a d : 0 < m → 0 ≤ d → a mod m + d < m → (a + d) mod m = a mod m + d.
Proof. intros Hm Hd H. pose proof (Z.mod_pos_bound a m Hm). rewrite <-Z.add_mod_idemp_l by lia. apply Z.mod_small. lia. Qed.
(** A range whose ends keep their distance modulo keeps its order. *)
Lemma mod_range m lo hi z : 0 < m → lo ≤ z ≤ hi → hi - lo < m → lo mod m ≤ hi mod m → lo mod m ≤ z mod m ≤ hi mod m.
Proof.
  intros Hm Hz Hd Hle. pose proof (Z.mod_pos_bound lo m Hm). pose proof (Z.mod_pos_bound hi m Hm).
  assert (Hhi : hi mod m = lo mod m + (hi - lo)).
  { assert (Hc : lo mod m + (hi - lo) < m ∨ m ≤ lo mod m + (hi - lo)) by lia. destruct Hc as [Hc|Hc].
    - replace hi with (lo + (hi - lo)) at 1 by lia. by apply mod_add_small; lia.
    - exfalso. assert (hi mod m = lo mod m + (hi - lo) - m); [|lia].
      replace hi with (lo + (hi - lo)) at 1 by lia. rewrite <-Z.add_mod_idemp_l by lia. rewrite <-(Z.mod_small (lo mod m + (hi - lo) - m) m) by lia.
      rewrite <-(Z.mod_add (_ - m) 1 m) by lia. f_equal. lia. }
  replace z with (lo + (z - lo)) at 1 2 by lia. rewrite mod_add_small by lia. lia.
Qed.

Lemma finite_size_finite i : b_is_infinite (i_lb i) = false → b_is_infinite (i_ub i) = false → finite_size i = Ok (Some (b_n (i_ub i) - b_n (i_lb i))).
Proof. intros Hl Hu. destruct i as [[[] l] [[] u]]; done. Qed.
(** The size of an interval with a number: known when both ends are. *)
Lemma finite_size_member i z : interval_wf i → member z i →
  (b_is_infinite (i_lb i) = false ∧ b_is_infinite (i_ub i) = false ∧ finite_size i = Ok (Some (b_n (i_ub i) - b_n (i_lb i)))) ∨ finite_size i = Ok None.
Proof.
  intros [Hl Hu _] [H1 H2]%member_spec. destruct i as [[[] l] [[] u]]; unfold bound_wf, lo_of, hi_of in *; cbn in *; [right|right|right|left; done];
    unfold finite_size, bound_sub, bound_opp, mk_bound; cbn; [|done..]. destruct (0 <? - l) eqn:?; [|lia]. by assert (u =? 1 = true) as -> by lia.
Qed.

Lemma land_uint32 z : Z.land z UINT32_MAX = u32 z.
Proof. unfold u32. rewrite <-Z.land_ones by lia. done. Qed.
(** An unsigned operand: its bounds are those of a number of 64 bits, or unknown. *)
Definition uvalue_interval i : Prop := is_top i = true ∨ nonneg i ∧ ∀ n, number (i_ub i) = Some n → n ≤ UINT64_MAX.
Lemma and_uint32_max_sound i z : interval_wf i → uvalue_interval i → member z i → ∃ k, and_uint32_max i = Ok k ∧ interval_wf k ∧ member (Z.land z UINT32_MAX) k.
Proof.
  intros Hi Vi Mz. rewrite land_uint32. pose proof (u32_bound z). unfold and_uint32_max.
  destruct (finite_size_member i z Hi Mz) as [(Fl & Fu & ->)| ->]; [|exists (range 0 UINT32_MAX); split; [done|]; split; [auto with interval|]; apply member_range; lia].
  change (mbind ?f (Ok (Some ?n))) with (f (Some n)). cbv beta. rewrite !number_finite by done.
  destruct Vi as [Ht|[Ni Hub]]; [unfold is_top in Ht; by rewrite Fl in Ht|]. destruct (nonneg_member _ _ Ni Mz) as [Hz0 Hzl].
  pose proof (Hub _ (number_finite _ Fu)). destruct Ni as [_ Nl].
  assert (z ≤ b_n (i_ub i)). { apply member_spec in Mz as [_ Mz]. rewrite (finite_eq _ Fu) in Mz. unfold hi_of in Mz. cbn in Mz. lia. }
  rewrite !cast_uint64 by lia. cbn [mbind res_bind]. destruct (_ && _) eqn:E; eexists; (split; [done|split; [auto with interval|]]); apply member_range; [|lia].
  unfold u32 in *. apply mod_range; lia.
Qed.

Lemma land_le_l z w : 0 ≤ z → 0 ≤ Z.land z w ≤ z.
Proof. intros Hz. apply Z.ldiff_le; [done|]. apply Z.bits_inj'. intros n Hn. rewrite Z.ldiff_spec, Z.land_spec, Z.bits_0. by destruct (Z.testbit z n), (Z.testbit w n). Qed.
Lemma And_sound i j z w : 0 ≤ z → 0 ≤ w → interval_wf i → interval_wf j → uvalue_interval i → uvalue_interval j → member z i → member w j →
  ∃ k, And i j = Ok k ∧ interval_wf k ∧ member (Z.land z w) k.
Proof.
  intros Hz Hw Hi Hj Vi Vj Mz Mw. unfold And. rewrite (member_not_bottom _ _ Mz), (member_not_bottom _ _ Mw). cbn [orb].
  assert (Hassert : ∀ i, uvalue_interval i → is_top i || bound_ge (i_lb i) (finite 0) = true).
  { intros k [-> |[[N1 N2] _]]; [done|]. apply orb_true_iff. right. rewrite (finite_eq _ N1). cbn. lia. }
  rewrite !Hassert by done. cbn [negb orb].
  pose proof (land_le_l z w Hz). pose proof (land_le_l w z Hw) as Hlw. rewrite (Z.land_comm w z) in Hlw.
  pose proof (proj1 (member_spec _ _) Mz) as [_ Uz]. pose proof (proj1 (member_spec _ _) Mw) as [_ Uw].
  assert (Hhi : ∀ b n m, m ≤ n → hi_of b n → hi_of b m) by (intros [[] b] n m ?; unfold hi_of; cbn; lia).
  assert (Hb : ∀ b, bound_wf b = true → hi_of b (Z.land z w) → ∃ k, Ok (mk_interval (finite 0) b) = Ok k ∧ interval_wf k ∧ member (Z.land z w) k).
  { intros b Hwf Hb. eexists; split; [done|]. split; [auto with interval|]. apply member_mk. split; [unfold lo_of; cbn; lia | done]. }
  assert (Htop : ∃ k, Ok top = Ok k ∧ interval_wf k ∧ member (Z.land z w) k) by (eexists; split; [done|]; split; [auto with interval|apply member_top]).
  set (rest := if negb (is_top i) && negb (is_top j) then _ else _).
  assert (Hrest : ∃ k, rest = Ok k ∧ interval_wf k ∧ member (Z.land z w) k).
  { subst rest. destruct (is_top i), (is_top j); cbn [negb andb]; [done|apply Hb..]; [auto with interval|eapply Hhi; [|done]; lia|auto with interval|eapply Hhi; [|done]; lia|auto with interval|].
    apply hi_of_min; [auto with interval..|]. split; (eapply Hhi; [|done]); lia. }
  destruct (singleton j) as [r|] eqn:Ej; [|by destruct (singleton i)]. pose proof (proj1 (singleton_member _ _ _ Ej) Mw) as ->.
  assert (Hr : ∃ k, (if fits_uint32 r && (r =? UINT32_MAX) then and_uint32_max i else rest) = Ok k ∧ interval_wf k ∧ member (Z.land z r) k).
  { destruct (fits_uint32 r && _) eqn:Er; [|done]. assert (r = UINT32_MAX) as -> by lia. by apply and_uint32_max_sound. }
  destruct (singleton i) as [l|] eqn:Ei; [|done].
  { eexists; split; [done|]. split; [auto with interval|]. apply (singleton_member _ _ _ Ei) in Mz as ->. by apply member_number. }
Qed.

Lemma factor_pow k : 0 ≤ k → factor k = 2 ^ k.
Proof.
  intros Hk. unfold factor. rewrite <-(Z2Nat.id k) at 2 by done. induction (Z.to_nat k) as [|n IH]; [done|].
  rewrite Nat2Z.inj_succ, Z.pow_succ_r, <-IH by lia. cbn [Nat.iter nat_rect]. rewrite Z.mul_comm. done.
Qed.
Lemma Shl_sound i j z k : interval_wf i → interval_wf j → 0 ≤ k → member z i → member k j → interval_wf (Shl i j) ∧ member (Z.shiftl z k) (Shl i j).
Proof.
  intros Hi Hj Hk Mz Mk. unfold Shl. rewrite (member_not_bottom _ _ Mz), (member_not_bottom _ _ Mk). cbn [orb].
  destruct (singleton j) as [c|] eqn:Ej; [|auto using member_top with interval]. apply (singleton_member _ _ _ Ej) in Mk as ->.
  rewrite (proj2 (Z.ltb_ge _ _)) by lia. destruct (c <=? 128); [|auto using member_top with interval].
  rewrite factor_pow, Z.shiftl_mul_pow2 by done. apply interval_mul_sound; auto with interval. by apply member_number.
Qed.
Lemma LShr_sound i j z k : interval_wf i → interval_wf j → 0 ≤ k → member z i → member k j → interval_wf (LShr i j) ∧ member (Z.shiftr z k) (LShr i j).
Proof.
  intros Hi Hj Hk Mz Mk. unfold LShr. rewrite (member_not_bottom _ _ Mz), (member_not_bottom _ _ Mk). cbn [orb].
  destruct (singleton j) as [c|] eqn:Ej; [|auto using member_top with interval]. apply (singleton_member _ _ _ Ej) in Mk as ->.
  rewrite (proj2 (Z.ltb_ge _ _)) by lia. destruct (c <=? 128); [|auto using member_top with interval].
  apply member_spec in Mz as [Hl Hu]. destruct (i_lb i) as [[] l], (i_ub i) as [[] u]; cbn [number b_is_infinite b_n]; auto using member_top with interval.
  destruct (bound_ge _ _); [|auto using member_top with interval]. split; [auto with interval|]. apply member_range. unfold lo_of, hi_of in *. cbn in Hl, Hu.
  rewrite !Z.shiftr_div_pow2 by done. split; apply Z.div_le_mono; lia.
Qed.

(** The quotient of one bound of a number that is not negative. *)
Lemma bound_div_pos b c : bound_wf b = true → 0 < c → ∃ b', bound_div b (finite c) = Ok b' ∧ bound_wf b' = true ∧
  ∀ z, 0 ≤ z → (lo_of b z → lo_of b' (z / c)) ∧ (hi_of b z → hi_of b' (z / c)).
Proof.
  intros Hb Hc. unfold bound_div. cbn [finite mk_bound b_n b_is_infinite]. rewrite (proj2 (Z.eqb_neq c 0)) by lia.
  destruct b as [[] n]; cbn [b_is_infinite b_n].
  - exists (Bound true n). rewrite (proj2 (Z.ltb_lt 0 c)) by done. split; [done|]. split; [done|]. intros z Hz. unfold lo_of, hi_of. by cbn.
  - eexists. split; [done|]. split; [apply mk_bound_wf|]. intros z Hz. unfold lo_of, hi_of. cbn.
    rewrite <- Z.quot_div_nonneg by lia. split; intros H; apply Z.leb_le, Z.quot_le_mono; lia.
Qed.
Lemma AShr_sound i j z k : interval_wf i → interval_wf j → 0 ≤ z → 0 ≤ k → member z i → member k j →
  ∃ r, AShr i j = Ok r ∧ interval_wf r ∧ member (Z.shiftr z k) r.
Proof.
  intros Hi Hj Hz Hk Mz Mk. unfold AShr. rewrite (member_not_bottom _ _ Mz), (member_not_bottom _ _ Mk). cbn [orb].
  destruct (singleton j) as [c|] eqn:Ej; [|exists top; auto using member_top with interval]. apply (singleton_member _ _ _ Ej) in Mk as ->.
  rewrite (proj2 (Z.ltb_ge _ _)) by lia. destruct (c <=? 128); [|exists top; auto using member_top with interval].
  rewrite factor_pow, Z.shiftr_div_pow2 by done. pose proof (Z.pow_pos_nonneg 2 c ltac:(lia) Hk) as Hp. unfold Div. cbn [interval_div].
  rewrite (member_not_bottom _ _ Mz), (member_not_bottom (2 ^ c) (of_number (2 ^ c))), singleton_number by (by apply member_number). cbn [orb].
  destruct (Z.eqb_spec (2 ^ c) 1) as [->|]; [exists i; by rewrite Z.div_1_r|]. rewrite (proj2 (Z.ltb_lt 0 _)) by done.
  destruct (bound_div_pos (i_lb i) (2 ^ c)) as (l&->&Wl&Hl); [auto with interval|done|]. destruct (bound_div_pos (i_ub i) (2 ^ c)) as (u&->&Wu&Hu); [auto with interval|done|].
  cbn [mbind res_bind]. eexists. split; [done|]. split; [auto with interval|]. apply member_spec in Mz as [Ml Mu].
  apply member_mk. split; [by apply Hl|by apply Hu].
Qed.

(** C30 (functional). The bitwise operations on unsigned intervals never fail, and hold the results for all their numbers that
    are not negative: of the conjunction, the disjunction and the exclusive disjunction, and of the three shifts as shifts of
    numbers without a width, whose count is not masked either. What the result of a left shift is on a machine of 32 or 64
    bits is left to the correction of the overflow. An arithmetic shift of a negative number is not covered: it is unsound. *)
Theorem bitwise_sound i j z w :
  interval_wf i → interval_wf j → uvalue_interval i → uvalue_interval j → 0 ≤ z → 0 ≤ w → member z i → member w j →
  (∃ k, And i j = Ok k ∧ interval_wf k ∧ member (Z.land z w) k) ∧
  (interval_wf (Or i j) ∧ member (Z.lor z w) (Or i j)) ∧
  (interval_wf (Xor i j) ∧ member (Z.lxor z w) (Xor i j)) ∧
  (interval_wf (Shl i j) ∧ member (Z.shiftl z w) (Shl i j)) ∧
  (interval_wf (LShr i j) ∧ member (Z.shiftr z w) (LShr i j)) ∧
  (∃ k, AShr i j = Ok k ∧ interval_wf k ∧ member (Z.shiftr z w) k).
Proof.
  intros. split; [by apply And_sound|]. split; [by apply Or_sound|]. split; [by apply Xor_sound|]. split; [by apply Shl_sound|].
  split; [by apply LShr_sound|by apply AShr_sound].
Qed.

Lemma bitwise_sound_witness :
  (∃ k, And (range 4 12) (of_number 3) = Ok k ∧ interval_wf k ∧ member (Z.land 6 3) k) ∧
  (interval_wf (Or (range 4 12) (of_number 3)) ∧ member (Z.lor 6 3) (Or (range 4 12) (of_number 3))) ∧
  (interval_wf (Xor (range 4 12) (of_number 3)) ∧ member (Z.lxor 6 3) (Xor (range 4 12) (of_number 3))) ∧
  (interval_wf (Shl (range 4 12) (of_number 3)) ∧ member (Z.shiftl 6 3) (Shl (range 4 12) (of_number 3))) ∧
  (interval_wf (LShr (range 4 12) (of_number 3)) ∧ member (Z.shiftr 6 3) (LShr (range 4 12) (of_number 3))) ∧
  (∃ k, AShr (range 4 12) (of_number 3) = Ok k ∧ interval_wf k ∧ member (Z.shiftr 6 3) k).
Proof.
  apply (bitwise_sound (range 4 12) (of_number 3) 6 3); [apply range_wf|apply of_number_wf| | |lia|lia|by apply member_range|by apply member_number];
    (right; split; [done|]; intros n [= <-]; lia).
Defined.

(** An arithmetic shift of a negative number is a division that rounds to zero: the shift of -1 by one is taken to be 0. *)
Lemma ashr_unsound : AShr (of_number (-1)) (of_number 1) = Ok (of_number 0) ∧ Z.shiftr (-1) 1 = -1.
Proof. split; vm_compute; reflexivity. Qed.
(** The signed division of a negative number leaves out a quotient. *)
Lemma div_unsound : Div (of_number (-3)) (range 3 4) = Ok (range (-2) (-1)) ∧ Z.quot (-3) 4 = 0.
Proof. split; vm_compute; reflexivity. Qed.

(** ** Machine widths *)

Abbreviation unsigned_of is64 := (if is64 : bool then u64 else u32) (only parsing).
Abbreviation signed_of is64 := (if is64 : bool then s64 else s32) (only parsing).
Abbreviation modulus is64 := (if is64 : bool then 2 ^ 64 else 2 ^ 32) (only parsing).
Lemma truncate_unsigned (is64 : bool) n : truncate_to_unsigned_finite_width (if is64 then 64 else 32) n = Ok (unsigned_of is64 n).
Proof.
  assert (H : truncate_to_uint64 n = u64 n) by (unfold truncate_to_uint64; destruct (fits_sint64 n); [apply u64_s64 | done]).
  destruct is64; cbn; rewrite ?H; [done|]. f_equal. unfold truncate_to_uint32. rewrite H. unfold u32, u64. rewrite <-Znumtheory.Zmod_div_mod; [done|lia..|].
  by exists (2 ^ 32).
Qed.
Lemma truncate_signed (is64 : bool) n : truncate_to_signed_finite_width (if is64 then 64 else 32) n = Ok (signed_of is64 n).
Proof.
  assert (H : truncate_to_sint64 n = s64 n).
  { unfold truncate_to_sint64. destruct (fits_sint64 n) eqn:E; [|apply s64_u64]. unfold fits_sint64 in E. symmetry. apply s64_signed. lia. }
  destruct is64; cbn; rewrite ?H; [done|]. f_equal. unfold truncate_to_sint32. rewrite H. rewrite <-s32_u32, <-(s32_u32 n). f_equal.
  unfold u32. rewrite (Znumtheory.Zmod_div_mod (2 ^ 32) (2 ^ 64) n), (Znumtheory.Zmod_div_mod (2 ^ 32) (2 ^ 64) (s64 n)) by (first [lia | by exists (2 ^ 32)]).
  f_equal. apply u64_s64.
Qed.

(** A signed number is an unsigned one, shifted by half of the modulus. *)
Lemma signed_shift h n : 0 < h → (if h <=? n mod (2 * h) then n mod (2 * h) - 2 * h else n mod (2 * h)) = (n + h) mod (2 * h) - h.
Proof.
  intros Hh. pose proof (Z.mod_pos_bound n (2 * h)). rewrite <-(Z.add_mod_idemp_l n h) by lia. destruct (h <=? n mod (2 * h)) eqn:E.
  - replace (n mod (2 * h) + h) with (n mod (2 * h) - h + 1 * (2 * h)) by lia. rewrite Z.mod_add, (Z.mod_small (_ - h)) by lia. lia.
  - rewrite (Z.mod_small (_ + h)) by lia. lia.
Qed.
Lemma signed_range (is64 : bool) lo hi z : lo ≤ z ≤ hi → hi - lo < modulus is64 → signed_of is64 lo ≤ signed_of is64 hi → signed_of is64 lo ≤ signed_of is64 z ≤ signed_of is64 hi.
Proof.
  intros Hz Hd. assert (Hs : ∀ n, signed_of is64 n = (n + modulus is64 / 2) mod (modulus is64) - modulus is64 / 2).
  { intros n. destruct is64; [apply (signed_shift (2 ^ 63)) | apply (signed_shift (2 ^ 31))]; lia. }
  rewrite !Hs. intros Hle. pose proof (mod_range (modulus is64) (lo + modulus is64 / 2) (hi + modulus is64 / 2) (z + modulus is64 / 2)).
  destruct is64; lia.
Qed.
Lemma unsigned_range (is64 : bool) lo hi z : lo ≤ z ≤ hi → hi - lo < modulus is64 → unsigned_of is64 lo ≤ unsigned_of is64 hi → unsigned_of is64 lo ≤ unsigned_of is64 z ≤ unsigned_of is64 hi.
Proof. intros. destruct is64; apply mod_range; done. Qed.
Lemma signed_int_member (is64 : bool) n : member (signed_of is64 n) (signed_int is64).
Proof. destruct is64; apply member_range; [pose proof (s64_bound n) | pose proof (s32_bound n)]; lia. Qed.
Lemma unsigned_int_member (is64 : bool) n : member (unsigned_of is64 n) (unsigned_int is64).
Proof. destruct is64; apply member_range; [pose proof (u64_bound n) | pose proof (u32_bound n)]; lia. Qed.
Lemma member_finite i z : member z i → b_is_infinite (i_lb i) = false → b_is_infinite (i_ub i) = false → b_n (i_lb i) ≤ z ≤ b_n (i_ub i).
Proof. intros [H1 H2]%member_spec Fl Fu. rewrite (finite_eq _ Fl) in H1. rewrite (finite_eq _ Fu) in H2. unfold lo_of, hi_of in *. cbn in *. lia. Qed.

Lemma range_le lo hi lo' hi' : lo' ≤ lo → hi ≤ hi' → interval_le (range lo hi) (range lo' hi') = true.
Proof.
  intros. destruct (decide (lo ≤ hi)) as [Hle|]; [|apply is_bottom_le; rewrite is_bottom_range; lia].
  apply le_mk; [done..|apply range_wf| |]; rewrite (range_bounds lo hi) by lia; cbn; lia.
Qed.
Lemma signed_int_wf is64 : interval_wf (signed_int is64).
Proof. destruct is64; apply range_wf. Qed.
Lemma unsigned_int_wf is64 : interval_wf (unsigned_int is64).
Proof. destruct is64; apply range_wf. Qed.
#[export] Hint Resolve signed_int_wf unsigned_int_wf : interval.

Lemma truncate_to_sint_sound (is64 : bool) i z : interval_wf i → member z i →
  ∃ k, truncate_to_sint is64 i = Ok k ∧ interval_wf k ∧ interval_le k (signed_int is64) = true ∧ member (signed_of is64 z) k.
Proof.
  intros Hi Mz. unfold truncate_to_sint. destruct (interval_le i (signed_int is64)) eqn:Ele.
  { exists i. split_and!; [done..|]. apply (interval_le_member _ _ z Hi (signed_int_wf _) Ele) in Mz as Hm.
    assert (signed_of is64 z = z) as ->; [|done]. destruct is64; apply member_range in Hm; [apply s64_signed | apply s32_signed]; lia. }
  assert (Hfull : ∃ k, Ok (signed_int is64) = Ok k ∧ interval_wf k ∧ interval_le k (signed_int is64) = true ∧ member (signed_of is64 z) k).
  { exists (signed_int is64). auto using interval_le_refl, signed_int_member with interval. }
  destruct (finite_size_member i z Hi Mz) as [(Fl & Fu & ->)| ->]; [|done]. cbn [mbind res_bind]. rewrite !number_finite, !truncate_signed by done. cbn [mbind res_bind].
  destruct (_ && _) eqn:E; [|done]. pose proof (member_finite _ _ Mz Fl Fu). eexists; split; [done|]. split; [auto with interval|].
  assert (b_n (i_ub i) - b_n (i_lb i) < modulus is64) by (destruct is64; unfold fits_sint64, fits_sint32 in E; lia).
  split; [|apply member_range, signed_range; [lia..|destruct is64; lia]].
  destruct is64; apply range_le; first [pose proof (s64_bound (b_n (i_lb i))); pose proof (s64_bound (b_n (i_ub i))); lia | pose proof (s32_bound (b_n (i_lb i))); pose proof (s32_bound (b_n (i_ub i))); lia].
Qed.
Lemma truncate_to_uint_sound (is64 : bool) i z : interval_wf i → member z i →
  ∃ k, truncate_to_uint is64 i = Ok k ∧ interval_wf k ∧ interval_le k (unsigned_int is64) = true ∧ member (unsigned_of is64 z) k.
Proof.
  intros Hi Mz. unfold truncate_to_uint. destruct (interval_le i (unsigned_int is64)) eqn:Ele.
  { exists i. split_and!; [done..|]. apply (interval_le_member _ _ z Hi (unsigned_int_wf _) Ele) in Mz as Hm.
    assert (unsigned_of is64 z = z) as ->; [|done]. destruct is64; apply member_range in Hm; [apply u64_small | apply u32_small]; lia. }
  assert (Hfull : ∃ k, Ok (unsigned_int is64) = Ok k ∧ interval_wf k ∧ interval_le k (unsigned_int is64) = true ∧ member (unsigned_of is64 z) k).
  { exists (unsigned_int is64). auto using interval_le_refl, unsigned_int_member with interval. }
  destruct (finite_size_member i z Hi Mz) as [(Fl & Fu & ->)| ->]; [|done]. cbn [mbind res_bind]. rewrite !number_finite, !truncate_unsigned by done. cbn [mbind res_bind].
  destruct (_ && _) eqn:E; [|done]. pose proof (member_finite _ _ Mz Fl Fu). eexists; split; [done|]. split; [auto with interval|].
  assert (b_n (i_ub i) - b_n (i_lb i) < modulus is64) by (destruct is64; unfold fits_uint64, fits_uint32 in E; lia).
  split; [|apply member_range, unsigned_range; [lia..|destruct is64; lia]].
  destruct is64; apply range_le; first [pose proof (u64_bound (b_n (i_lb i))); pose proof (u64_bound (b_n (i_ub i))); lia | pose proof (u32_bound (b_n (i_lb i))); pose proof (u32_bound (b_n (i_ub i))); lia].
Qed.

(** The truncations to a machine width never fail, stay in the width, and hold the low bits of every number of the interval. *)
Theorem truncation_sound (is64 : bool) i z :
  interval_wf i → member z i →
  (∃ k, truncate_to_sint is64 i = Ok k ∧ interval_wf k ∧ interval_le k (signed_int is64) = true ∧ member (signed_of is64 z) k) ∧
  (∃ k, truncate_to_uint is64 i = Ok k ∧ interval_wf k ∧ interval_le k (unsigned_int is64) = true ∧ member (unsigned_of is64 z) k).
Proof. intros Hi Mz. split; [by apply truncate_to_sint_sound | by apply truncate_to_uint_sound]. Qed.
