(* ===== verification/EbpfNumeric.v ===== *)
(** * The numbers of a register in the abstract interpreter of the verifier

    A register has two variables, its value read as signed and as unsigned. The functions of crab/ebpf_domain.cpp that keep
    them after an operation: the bounds after an overflow, the operations on one of the two followed by the other, and the
    shifts by a constant. They work on any numeric domain with the operations of NumAbsDomain. *)

From Stdlib Require Import ZifyBool.
From stdpp Require Import base numbers list.
From S2P Require Import Prelude.
From S2P Require Import Interval.
From S2P Require Import IntervalProps.
From S2P Require Import IntervalBits.

(** ** The numeric domain *)

Inductive kind := svalue | uvalue | type_of | ctx_offset | map_fd | packet_offset | shared_offset | stack_offset | shared_region_size | stack_numeric_size.
#[export] Instance kind_eq_dec : EqDecision kind.
Proof. solve_decision. Defined.
(** variable_t::reg *)
Definition variable : Type := Z * kind.

(** NumAbsDomain: eval_interval of a variable, set, assign, operator-= and the test of entail that a register is a number. *)
Class NumDomain (D : Type) := {
  eval_interval : D → variable → interval_t;
  set : D → variable → interval_t → D;
  assign : D → variable → variable → D;
  forget : D → variable → D;
  entails_number : D → Z → bool;
}.
Definition valuation : Type := variable → Z.
Definition update (v : variable) (n : Z) (rho : valuation) : valuation := λ v', if decide (v' = v) then n else rho v'.
(** What a numeric domain promises of the valuations it stands for. *)
Class NumDomainLaws (D : Type) `{NumDomain D} := {
  models : D → valuation → Prop;
  models_ext d rho rho' : (∀ v, rho v = rho' v) → models d rho → models d rho';
  eval_wf d v : interval_wf (eval_interval d v);
  eval_sound d rho v : models d rho → member (rho v) (eval_interval d v);
  set_sound d rho v i n : models d rho → interval_wf i → member n i → models (set d v i) (update v n rho);
  assign_sound d rho x y : models d rho → models (assign d x y) (update x (rho y) rho);
  forget_sound d rho v n : models d rho → models (forget d v) (update v n rho);
}.

Section Operations.
Context {D : Type} `{NumDomain D}.
Implicit Types (d inv : D) (v : variable).

Definition overflow_bounds inv v (span finite_width : Z) (issigned : bool) : res D :=
  let interval := eval_interval inv v in
  size ← bound_sub (i_ub interval) (i_lb interval);
  if bound_ge size (finite span) then Ok (forget inv v)
  else if is_bottom interval then Ok (forget inv v)
  else
    match number (i_lb interval), number (i_ub interval) with
    | Some lb_value, Some ub_value =>
        lb ← truncate_to_unsigned_finite_width finite_width lb_value; ub ← truncate_to_unsigned_finite_width finite_width ub_value;
        let lb := if issigned then truncate_to_sint64 lb else lb in
        let ub := if issigned then truncate_to_sint64 ub else ub in
        if ub <? lb then Ok (forget inv v)
        else if interval_eqb (range lb ub) interval then Ok inv
        else Ok (set inv v (range lb ub))
    | _, _ => Throw
    end.
Definition span_of (finite_width : Z) : res Z := if finite_width =? 64 then Ok UINT64_MAX else if finite_width =? 32 then Ok UINT32_MAX else Throw.
Definition overflow_signed inv v (finite_width : Z) : res D := span ← span_of finite_width; overflow_bounds inv v span finite_width true.
Definition overflow_unsigned inv v (finite_width : Z) : res D := span ← span_of finite_width; overflow_bounds inv v span finite_width false.

(** [apply] is inv.apply(op, x, y, z, finite_width) of the operation on one of the variables. *)
Definition apply_signed (apply : D → res D) inv (xs xu : variable) (finite_width : Z) : res D :=
  inv ← apply inv;
  if finite_width =? 0 then Ok inv
  else inv ← overflow_signed (assign inv xu xs) xs finite_width; overflow_unsigned inv xu finite_width.
Definition apply_unsigned (apply : D → res D) inv (xs xu : variable) (finite_width : Z) : res D :=
  inv ← apply inv;
  if finite_width =? 0 then Ok inv
  else inv ← overflow_signed (assign inv xs xu) xs finite_width; overflow_unsigned inv xu finite_width.

Definition havoc_offsets inv (reg : Z) : D :=
  foldl (λ inv k, forget inv (reg, k)) inv [ctx_offset; map_fd; packet_offset; shared_offset; shared_region_size; stack_offset; stack_numeric_size].

(** A shift of an [uint64_t] by its width or more is undefined. *)
Definition shr64 (x n : Z) : res Z := if (0 <=? n) && (n <? 64) then Ok (Z.shiftr x n) else Fault.
(** The unsigned bounds after a left shift by a masked constant. *)
Definition shl_bounds (lb_n ub_n imm finite_width : Z) : res (Z * Z) :=
  let uint_max := if finite_width =? 64 then UINT64_MAX else UINT32_MAX in
  high_lb ← shr64 lb_n (finite_width - imm); high_ub ← shr64 ub_n (finite_width - imm);
  Ok (if negb (high_lb =? high_ub) then (0, Z.land (u64 (Z.shiftl uint_max imm)) uint_max)
      else (Z.land (u64 (Z.shiftl lb_n imm)) uint_max, Z.land (u64 (Z.shiftl ub_n imm)) uint_max)).

(** The unsigned bounds of a register, when both are known. *)
Definition known_bounds inv v : res (option (Z * Z)) :=
  size ← finite_size (eval_interval inv v);
  Ok (match size, number (i_lb (eval_interval inv v)), number (i_ub (eval_interval inv v)) with Some _, Some lb, Some ub => Some (lb, ub) | _, _, _ => None end).

(** [shl_overflow] is the operation of the domain for the values that are not known: SHL of the unsigned variable by the constant. *)
Definition shl (shl_overflow : D → Z → res D) inv (dst imm finite_width : Z) : res D :=
  let imm := Z.land imm (finite_width - 1) in
  let unknown := inv ← shl_overflow inv imm; Ok (havoc_offsets inv dst) in
  if entails_number inv dst then
    bounds ← known_bounds inv (dst, uvalue);
    match bounds with
    | Some (lb, ub) =>
        lb_n ← cast_to_uint64 lb; ub_n ← cast_to_uint64 ub;
        new_bounds ← shl_bounds lb_n ub_n imm finite_width;
        let '(lb_n, ub_n) := new_bounds in
        let inv := set inv (dst, uvalue) (range lb_n ub_n) in
        Ok (if s64 lb_n <=? s64 ub_n then assign inv (dst, svalue) (dst, uvalue) else forget inv (dst, svalue))
    | None => unknown
    end
  else unknown.

(** The conversion of a number to an [int64_t]. *)
Definition to_int64 (n : Z) : res Z := if fits_sint64 n then Ok n else Throw.
Definition lshr_bounds (bounds : option (Z * Z)) (imm finite_width : Z) : res (Z * Z) :=
  match bounds with
  | Some (lb, ub) =>
      if finite_width =? 64 then
        lb ← cast_to_uint64 lb; ub ← cast_to_uint64 ub; lb_n ← shr64 lb imm; ub_n ← shr64 ub imm; Ok (lb_n, ub_n)
      else
        lb_w ← cast_to_signed_finite_width finite_width lb; ub_w ← cast_to_signed_finite_width finite_width ub;
        lb ← cast_to_uint32 lb_w; ub ← cast_to_uint32 ub_w; lb_n ← shr64 lb imm; ub_n ← shr64 ub imm;
        if lb_n <=? ub_n then Ok (lb_n, ub_n) else Fault
  | None => ub_n ← shr64 UINT64_MAX imm; Ok (0, ub_n)
  end.
Definition lshr inv (dst imm finite_width : Z) : res D :=
  let imm := Z.land imm (finite_width - 1) in
  if entails_number inv dst then
    bounds ← known_bounds inv (dst, uvalue);
    new_bounds ← lshr_bounds bounds imm finite_width;
    let '(lb_n, ub_n) := new_bounds in
    let inv := set inv (dst, uvalue) (range lb_n ub_n) in
    ub_s ← to_int64 ub_n; lb_s ← to_int64 lb_n;
    Ok (if lb_s <=? ub_s then assign inv (dst, svalue) (dst, uvalue) else forget inv (dst, svalue))
  else Ok (havoc_offsets (forget (forget inv (dst, svalue)) (dst, uvalue)) dst).
End Operations.

(** ** The bounds of a variable read at a width: get_interval of split_dbm.cpp *)

(** The bounds are the edges of the variable with the vertex zero, where they exist. *)
Definition get_interval (is_unsigned : bool) (finite_width : Z) (edge_lb edge_ub : option Z) : res interval_t :=
  let truncate := if is_unsigned then truncate_to_unsigned_finite_width finite_width else truncate_to_signed_finite_width finite_width in
  lb ← match edge_lb with Some e => res_map finite (truncate (- e)) | None => Ok minus_infinity end;
  ub ← match edge_ub with Some e => res_map finite (truncate e) | None => Ok plus_infinity end;
  Ok (mk_interval lb ub).
