(* ===== verification/EbpfNumericProps.v ===== *)
(** * The numbers of a register: soundness

    After an operation and the correction of its overflow the two variables of a register are the signed and the unsigned
    reading of one value; the shifts by a constant. *)

From Stdlib Require Import ZifyBool.
From stdpp Require Import base numbers list.
From S2P Require Import Prelude.
From S2P Require Import Interval.
From S2P Require Import IntervalProps.
From S2P Require Import IntervalBits.
From S2P Require Import EbpfNumeric.

Lemma update_same v n rho : update v n rho v = n.
Proof. unfold update. by rewrite decide_True. Qed.
Lemma update_other v v' n rho : v' ≠ v → update v n rho v' = rho v'.
Proof. intros. unfold update. by rewrite decide_False. Qed.
Lemma update_id v rho v' : update v (rho v) rho v' = rho v'.
Proof. unfold update. by destruct (decide (v' = v)) as [-> |]. Qed.

(** The value that a variable keeps after an overflow: unsigned, or signed when the width is 64. *)
Definition after_overflow (is64 issigned : bool) (n : Z) : Z := if is64 && issigned then s64 n else unsigned_of is64 n.
Lemma after_overflow_range is64 issigned lo hi z : lo ≤ z ≤ hi → hi - lo < modulus is64 → after_overflow is64 issigned lo ≤ after_overflow is64 issigned hi →
  after_overflow is64 issigned lo ≤ after_overflow is64 issigned z ≤ after_overflow is64 issigned hi.
Proof. unfold after_overflow. destruct is64, issigned; cbn [andb]; [apply (signed_range true) | apply (unsigned_range true) | apply (unsigned_range false)..]. Qed.
Lemma after_overflow_fixed is64 issigned lo hi z : lo ≤ z ≤ hi → after_overflow is64 issigned lo = lo → after_overflow is64 issigned hi = hi → after_overflow is64 issigned z = z.
Proof.
  unfold after_overflow. intros Hz Hl Hh. destruct is64, issigned; cbn [andb] in *.
  - apply s64_signed. pose proof (s64_bound lo). pose proof (s64_bound hi). lia.
  - apply u64_small. pose proof (u64_bound lo). pose proof (u64_bound hi). lia.
  - apply u32_small. pose proof (u32_bound lo). pose proof (u32_bound hi). lia.
  - apply u32_small. pose proof (u32_bound lo). pose proof (u32_bound hi). lia.
Qed.
Lemma truncate_sint64 n : truncate_to_sint64 n = s64 n.
Proof. pose proof (truncate_signed true n) as Ht. cbn in Ht. by injection Ht. Qed.
Lemma truncate_overflow (is64 issigned : bool) n : (if issigned then truncate_to_sint64 (unsigned_of is64 n) else unsigned_of is64 n) = after_overflow is64 issigned n.
Proof.
  unfold after_overflow. destruct is64, issigned; cbn [andb]; rewrite ?truncate_sint64; try done; [apply s64_u64|].
  apply s64_signed. pose proof (u32_bound n). lia.
Qed.

(** The distance of the ends of an interval that has a number. *)
Lemma size_member i z : interval_wf i → member z i →
  (b_is_infinite (i_lb i) = false ∧ b_is_infinite (i_ub i) = false ∧ bound_sub (i_ub i) (i_lb i) = Ok (finite (b_n (i_ub i) - b_n (i_lb i)))) ∨
  bound_sub (i_ub i) (i_lb i) = Ok plus_infinity.
Proof.
  intros [Hl Hu _] [H1 H2]%member_spec. destruct i as [[[] l] [[] u]]; unfold bound_wf, lo_of, hi_of in *; cbn in *; [right|right|right|left; done];
    unfold bound_sub, bound_opp, mk_bound, plus_infinity, mk_bound; cbn.
  - destruct (0 <? - l) eqn:?; [|lia]. assert (u = 1) as -> by lia. done.
  - destruct (0 <? - l) eqn:?; [done|lia].
  - assert (u = 1) as -> by lia. done.
Qed.

(** ** The bounds of a shift *)

Abbreviation width is64 := (if is64 : bool then 64 else 32) (only parsing).
Lemma land_max (is64 : bool) n : Z.land (u64 n) (if is64 then UINT64_MAX else UINT32_MAX) = unsigned_of is64 n.
Proof.
  destruct is64; [change UINT64_MAX with (Z.ones 64) | change UINT32_MAX with (Z.ones 32)]; rewrite Z.land_ones by lia.
  - apply Z.mod_small, u64_bound.
  - unfold u64, u32. rewrite <-Znumtheory.Zmod_div_mod; [done|lia..|]. by exists (2 ^ 32).
Qed.
Lemma unsigned_shiftl (is64 : bool) n imm : 0 ≤ imm ≤ width is64 → unsigned_of is64 (Z.shiftl n imm) = (n mod 2 ^ (width is64 - imm)) * 2 ^ imm.
Proof.
  intros Hi. rewrite Z.shiftl_mul_pow2 by lia. assert (modulus is64 = 2 ^ (width is64 - imm) * 2 ^ imm) as Hm by (rewrite <-Z.pow_add_r by (destruct is64; lia); destruct is64; f_equal; lia).
  destruct is64; unfold u64, u32; rewrite Hm at 1; rewrite Z.mul_mod_distr_r; [done| | |done| |]; try (pose proof (Z.pow_pos_nonneg 2 imm); lia).
Qed.
Lemma shl_bounds_sound (is64 : bool) lb ub r imm : 0 ≤ lb → lb ≤ r ≤ ub → (if is64 then 0 < imm < 64 else 0 ≤ imm < 32) →
  ∃ l u, shl_bounds lb ub imm (width is64) = Ok (l, u) ∧ l ≤ unsigned_of is64 (Z.shiftl r imm) ≤ u.
Proof.
  intros Hlb Hr Himm. unfold shl_bounds, shr64. assert (0 ≤ imm ≤ width is64) as Hw by (destruct is64; lia).
  assert ((0 <=? width is64 - imm) && (width is64 - imm <? 64) = true) as -> by (destruct is64; lia). cbn [mbind res_bind].
  assert ((if width is64 =? 64 then UINT64_MAX else UINT32_MAX) = if is64 then UINT64_MAX else UINT32_MAX) as -> by (by destruct is64).
  rewrite !land_max, !unsigned_shiftl, !Z.shiftr_div_pow2 by (try done; destruct is64; lia).
  set (m := 2 ^ (width is64 - imm)). assert (Hm : 0 < m) by (apply Z.pow_pos_nonneg; [lia|destruct is64; lia]).
  pose proof (Z.pow_pos_nonneg 2 imm ltac:(lia) ltac:(lia)) as Hp. pose proof (Z.mod_pos_bound r m Hm) as Hrm.
  destruct (lb / m =? ub / m) eqn:E; cbn [negb].
  - eexists _, _. split; [done|]. assert (r / m = lb / m). { assert (lb / m ≤ r / m) by (apply Z.div_le_mono; lia). assert (r / m ≤ ub / m) by (apply Z.div_le_mono; lia). lia. }
    pose proof (Z.div_mod r m ltac:(lia)). pose proof (Z.div_mod lb m ltac:(lia)). pose proof (Z.div_mod ub m ltac:(lia)).
    split; apply Z.mul_le_mono_nonneg_r; nia.
  - eexists _, _. split; [done|]. split; [nia|]. apply Z.mul_le_mono_nonneg_r; [lia|].
    assert (((if is64 then UINT64_MAX else UINT32_MAX) mod m) = m - 1) as ->; [|lia].
    assert (modulus is64 = m * 2 ^ imm) as Hmod by (subst m; rewrite <-Z.pow_add_r by (destruct is64; lia); destruct is64; f_equal; lia).
    transitivity ((m - 1 + (2 ^ imm - 1) * m) mod m); [f_equal; destruct is64; lia|]. rewrite Z.mod_add by lia. apply Z.mod_small. lia.
Qed.

Lemma masked_shift (is64 : bool) imm : 0 ≤ Z.land imm (width is64 - 1) < width is64.
Proof. destruct is64; [change (64 - 1) with (Z.ones 6) | change (32 - 1) with (Z.ones 5)]; rewrite Z.land_ones by lia; apply Z.mod_pos_bound; lia. Qed.
Lemma shr64_ok n k : 0 ≤ k < 64 → shr64 n k = Ok (Z.shiftr n k).
Proof. intros Hk. unfold shr64. by assert ((0 <=? k) && (k <? 64) = true) as -> by lia. Qed.
Lemma shiftr_mono a b k : 0 ≤ k → a ≤ b → Z.shiftr a k ≤ Z.shiftr b k.
Proof. intros Hk Hab. rewrite !Z.shiftr_div_pow2 by done. apply Z.div_le_mono; [|done]. by apply Z.pow_pos_nonneg. Qed.
(** A number of 32 bits through its signed reading. *)
Lemma cast_low32 n : 0 ≤ n ≤ UINT32_MAX → (w ← cast_to_signed_finite_width 32 n; cast_to_uint32 w) = Ok n.
Proof.
  intros Hn. unfold cast_to_signed_finite_width, cast_to_sint32, cast_to_sint64. cbn [Z.eqb Pos.eqb]. assert (fits_sint64 n = true) as -> by (unfold fits_sint64; lia).
  cbn [res_map mbind res_bind]. unfold cast_to_uint32. pose proof (s32_bound n) as Hb. destruct (fits_uint32 (s32 n)) eqn:E; unfold fits_uint32 in E.
  - f_equal. rewrite <-(u32_small (s32 n)), u32_s32 by lia. apply u32_small. lia.
  - assert (fits_sint32 (s32 n) = true) as -> by (unfold fits_sint32; lia). rewrite u32_s32. f_equal. apply u32_small. lia.
Qed.

Section Soundness.
Context {D : Type} `{NumDomainLaws D}.
Implicit Types (inv : D) (v : variable) (rho : valuation).

Lemma overflow_bounds_sound (is64 issigned : bool) inv v rho : models inv rho →
  ∃ inv', overflow_bounds inv v (if is64 then UINT64_MAX else UINT32_MAX) (if is64 then 64 else 32) issigned = Ok inv' ∧
    models inv' (update v (after_overflow is64 issigned (rho v)) rho).
Proof.
  intros Hm. unfold overflow_bounds. pose proof (eval_wf inv v) as Hwf. pose proof (eval_sound _ _ v Hm) as Mz. set (i := eval_interval inv v) in *.
  assert (Hforget : ∃ inv', Ok (forget inv v) = Ok inv' ∧ models inv' (update v (after_overflow is64 issigned (rho v)) rho)) by (eexists; split; [done|by apply forget_sound]).
  destruct (size_member i _ Hwf Mz) as [(Fl & Fu & ->)| ->]; [|done]. cbn [mbind res_bind].
  destruct (bound_ge _ _) eqn:Esize; [done|]. rewrite (member_not_bottom _ _ Mz), !number_finite by done.
  rewrite !truncate_unsigned. cbn [mbind res_bind]. rewrite !truncate_overflow. destruct (_ <? _) eqn:Eord; [done|].
  pose proof (member_finite _ _ Mz Fl Fu) as Hz.
  assert (b_n (i_ub i) - b_n (i_lb i) < modulus is64) as Hsz by (cbn in Esize; destruct is64; lia).
  destruct (interval_eqb _ _) eqn:Eeq.
  - exists inv. split; [done|]. apply (models_ext _ rho); [|done]. intros v'. rewrite <-(update_id v rho v') at 1. f_equal.
    unfold interval_eqb in Eeq. rewrite is_bottom_range, Eord, range_bounds in Eeq by lia. unfold bound_eqb in Eeq. cbn in Eeq.
    symmetry. apply (after_overflow_fixed _ _ (b_n (i_lb i)) (b_n (i_ub i))); lia.
  - eexists; split; [done|]. apply set_sound; [done|apply range_wf|]. apply member_range, after_overflow_range; lia.
Qed.
Lemma overflow_signed_sound (is64 : bool) inv v rho : models inv rho →
  ∃ inv', overflow_signed inv v (if is64 then 64 else 32) = Ok inv' ∧ models inv' (update v (after_overflow is64 true (rho v)) rho).
Proof. intros Hm. destruct (overflow_bounds_sound is64 true inv v rho Hm) as (inv' & H1 & H2). exists inv'. split; [|done]. by destruct is64. Qed.
Lemma overflow_unsigned_sound (is64 : bool) inv v rho : models inv rho →
  ∃ inv', overflow_unsigned inv v (if is64 then 64 else 32) = Ok inv' ∧ models inv' (update v (after_overflow is64 false (rho v)) rho).
Proof. intros Hm. destruct (overflow_bounds_sound is64 false inv v rho Hm) as (inv' & H1 & H2). exists inv'. split; [|done]. by destruct is64. Qed.

(** The two readings of a register that holds [r]. *)
Definition reads (xs xu : variable) (r : Z) rho : Prop := rho xs = s64 r ∧ rho xu = u64 r.

(** The correction of both variables, when both are the number [n]. *)
Lemma overflow_both_sound (is64 : bool) inv rho (xs xu : variable) n : xs ≠ xu → models inv rho → rho xs = n → rho xu = n →
  ∃ inv' rho', (inv ← overflow_signed inv xs (if is64 then 64 else 32); overflow_unsigned inv xu (if is64 then 64 else 32)) = Ok inv' ∧
    models inv' rho' ∧ reads xs xu (unsigned_of is64 n) rho' ∧ ∀ v, v ≠ xs → v ≠ xu → rho' v = rho v.
Proof.
  intros Hne Hm Es Eu. destruct (overflow_signed_sound is64 _ xs _ Hm) as (inv3 & E3 & Hm3). rewrite E3. cbn [mbind res_bind]. rewrite Es in Hm3.
  destruct (overflow_unsigned_sound is64 _ xu _ Hm3) as (inv4 & E4 & Hm4). exists inv4. eexists. split; [done|]. split; [exact Hm4|].
  rewrite (update_other _ xu) by done. rewrite Eu. split; [split|].
  - rewrite update_other, update_same by done. unfold after_overflow. destruct is64; cbn [andb]; [by rewrite s64_u64|].
    symmetry. apply s64_signed. pose proof (u32_bound n). lia.
  - rewrite update_same. unfold after_overflow. rewrite andb_false_r. symmetry. apply u64_small.
    destruct is64; [apply u64_bound | pose proof (u32_bound n); lia].
  - intros v H1 H2. by rewrite !update_other by done.
Qed.

(** C17 (invariant). An operation on the signed variable of a register (apply_signed) or on its unsigned one (apply_unsigned)
    that sets the variable to a number, at a width of 32 or 64 bits, leaves, after the correction of the overflow, both
    variables as readings of that number cut to the width, and never fails; the other variables are untouched. *)
Theorem overflow_keeps_readings (is64 : bool) (apply : D → res D) inv rho (xs xu : variable) n :
  xs ≠ xu →
  ((∃ inv', apply inv = Ok inv' ∧ models inv' (update xs n rho)) →
    ∃ inv' rho', apply_signed apply inv xs xu (if is64 then 64 else 32) = Ok inv' ∧ models inv' rho' ∧
      reads xs xu (unsigned_of is64 n) rho' ∧ ∀ v, v ≠ xs → v ≠ xu → rho' v = rho v) ∧
  ((∃ inv', apply inv = Ok inv' ∧ models inv' (update xu n rho)) →
    ∃ inv' rho', apply_unsigned apply inv xs xu (if is64 then 64 else 32) = Ok inv' ∧ models inv' rho' ∧
      reads xs xu (unsigned_of is64 n) rho' ∧ ∀ v, v ≠ xs → v ≠ xu → rho' v = rho v).
Proof.
  intros Hne. assert (Hw : ((if is64 then 64 else 32) =? 0) = false) by (by destruct is64).
  split; intros (inv1 & Happ & Hm1); unfold apply_signed, apply_unsigned; rewrite Happ; cbn [mbind res_bind]; rewrite Hw.
  - pose proof (assign_sound _ _ xu xs Hm1) as Hm2. rewrite update_same in Hm2.
    destruct (overflow_both_sound is64 _ _ xs xu n Hne Hm2) as (inv' & rho' & H1 & H2 & H3 & H4); [by rewrite update_other, update_same|by rewrite update_same|].
    exists inv', rho'. split_and!; try done; try apply H3. intros v K1 K2. rewrite H4 by done. by rewrite !update_other by done.
  - pose proof (assign_sound _ _ xs xu Hm1) as Hm2. rewrite update_same in Hm2.
    destruct (overflow_both_sound is64 _ _ xs xu n Hne Hm2) as (inv' & rho' & H1 & H2 & H3 & H4); [by rewrite update_same|by rewrite update_other, update_same|].
    exists inv', rho'. split_and!; try done; try apply H3. intros v K1 K2. rewrite H4 by done. by rewrite !update_other by done.
Qed.

(** ** Shifts by a constant *)

Lemma known_bounds_uint64 inv v rho : models inv rho → uint64_interval (eval_interval inv v) →
  known_bounds inv v = Ok (Some (b_n (i_lb (eval_interval inv v)), b_n (i_ub (eval_interval inv v)))).
Proof.
  intros Hm ([Fl _] & Fu & _). unfold known_bounds. rewrite finite_size_finite by done. cbn [mbind res_bind]. by rewrite !number_finite by done.
Qed.

(** C31 (functional). The left shift by a constant of a number with unsigned bounds that are known and fit 64 bits. A 64-bit
    shift by a multiple of 64 is undefined, since it shifts the bounds right by 64. Every other shift, and every 32-bit one,
    succeeds, and the unsigned variable is the value of the machine; the signed variable is its signed reading, except that
    it may be the unsigned one when the result has its top bit; the other variables are untouched. *)
Theorem shl_sound (is64 : bool) (shl_overflow : D → Z → res D) inv rho (dst imm : Z) :
  let k := Z.land imm (width is64 - 1) in
  let result := unsigned_of is64 (Z.shiftl (rho (dst, uvalue)) k) in
  models inv rho → entails_number inv dst = true → uint64_interval (eval_interval inv (dst, uvalue)) →
  if is64 && (k =? 0) then shl shl_overflow inv dst imm (width is64) = Fault
  else ∃ inv' rho', shl shl_overflow inv dst imm (width is64) = Ok inv' ∧ models inv' rho' ∧
    rho' (dst, uvalue) = result ∧ (rho' (dst, svalue) = s64 result ∨ 2 ^ 63 ≤ result ∧ rho' (dst, svalue) = result) ∧
    ∀ v, v ≠ (dst, svalue) → v ≠ (dst, uvalue) → rho' v = rho v.
Proof.
  intros k result Hm Hn Hu. unfold shl. fold k. rewrite Hn, (known_bounds_uint64 _ _ _ Hm Hu). cbn [mbind res_bind].
  set (i := eval_interval inv (dst, uvalue)) in *. pose proof (eval_sound _ _ (dst, uvalue) Hm) as Mz. fold i in Mz.
  pose proof (uint64_member _ _ Hu Mz) as Hr. pose proof Hu as ([_ Hl] & _ & Hub). rewrite !cast_uint64 by lia. cbn [mbind res_bind].
  pose proof (masked_shift is64 imm) as Hk. fold k in Hk. destruct (is64 && (k =? 0)) eqn:E0.
  { apply andb_true_iff in E0 as [-> ->%Z.eqb_eq]. done. }
  assert (Hk0 : is64 = true → k ≠ 0) by (intros ->; cbn in E0; lia).
  destruct (shl_bounds_sound is64 (b_n (i_lb i)) (b_n (i_ub i)) (rho (dst, uvalue)) k) as (l & u & Hb & Hres); [done..|destruct is64; [specialize (Hk0 eq_refl)|]; lia|].
  rewrite Hb. cbn [mbind res_bind]. fold result in Hres.
  pose proof (set_sound inv rho (dst, uvalue) (range l u) result Hm (range_wf _ _) (proj2 (member_range _ _ _) Hres)) as Hm1.
  destruct (s64 l <=? s64 u).
  - eexists _, _. split; [done|]. split; [by apply assign_sound|]. rewrite !update_same, (update_other (dst, svalue) (dst, uvalue)), !update_same by done.
    split_and!; [done| |intros v H1 H2; by rewrite !update_other by done].
    assert (0 ≤ result < 2 ^ 64) by (subst result; destruct is64; [apply u64_bound | pose proof (u32_bound (Z.shiftl (rho (dst, uvalue)) k)); lia]).
    destruct (decide (result < 2 ^ 63)); [left; symmetry; apply s64_signed; lia | right; split; [lia|done]].
  - eexists _, (update (dst, svalue) (s64 result) (update (dst, uvalue) result rho)). split; [done|]. split; [by apply forget_sound|].
    rewrite (update_other (dst, svalue) (dst, uvalue)), !update_same by done. split_and!; [done|by left|]. intros v H1 H2. by rewrite !update_other by done.
Qed.

Lemma lshr_bounds_known (is64 : bool) lb ub k : 0 ≤ lb ≤ ub → ub ≤ (if is64 then UINT64_MAX else UINT32_MAX) → 0 ≤ k < width is64 →
  lshr_bounds (Some (lb, ub)) k (width is64) = Ok (Z.shiftr lb k, Z.shiftr ub k).
Proof.
  intros Hl Hu Hk. pose proof (shiftr_mono lb ub k ltac:(lia) ltac:(lia)) as Hmono. unfold lshr_bounds. destruct is64; cbn [Z.eqb Pos.eqb].
  - rewrite !cast_uint64 by lia. cbn [mbind res_bind]. by rewrite !shr64_ok by lia.
  - pose proof (cast_low32 lb ltac:(lia)) as H1. pose proof (cast_low32 ub ltac:(lia)) as H2.
    destruct (cast_to_signed_finite_width 32 lb) as [l| | | |] eqn:El; try done. destruct (cast_to_signed_finite_width 32 ub) as [u| | | |] eqn:Eu; try done.
    cbn [mbind res_bind] in *. rewrite H1, H2. cbn [mbind res_bind]. rewrite !shr64_ok by lia. cbn [mbind res_bind]. by rewrite (proj2 (Z.leb_le _ _)) by done.
Qed.

(** The logical right shift by a constant sets the two variables to the readings of the value of the machine. It fails only
    in the conversion of an upper bound of 2^63 or more, which no shift by a positive amount has. *)
Theorem lshr_sound (is64 : bool) inv rho (dst imm : Z) :
  let k := Z.land imm (width is64 - 1) in
  let i := eval_interval inv (dst, uvalue) in
  models inv rho → entails_number inv dst = true → uint64_interval i → (is64 = false → b_n (i_ub i) ≤ UINT32_MAX) →
  (k ≠ 0 ∨ b_n (i_ub i) < 2 ^ 63 →
   ∃ inv' rho', lshr inv dst imm (width is64) = Ok inv' ∧ models inv' rho' ∧
     reads (dst, svalue) (dst, uvalue) (Z.shiftr (rho (dst, uvalue)) k) rho' ∧ ∀ v, v ≠ (dst, svalue) → v ≠ (dst, uvalue) → rho' v = rho v) ∧
  (k = 0 → 2 ^ 63 ≤ b_n (i_ub i) → lshr inv dst imm (width is64) = Throw).
Proof.
  intros k i Hm Hn Hu Hu32. pose proof (eval_sound _ _ (dst, uvalue) Hm) as Mz. fold i in Mz. pose proof (uint64_member _ _ Hu Mz) as Hr. pose proof Hu as ([_ Hl] & _ & Hub).
  pose proof (masked_shift is64 imm) as Hk. fold k in Hk.
  unfold lshr. fold k. rewrite Hn, (known_bounds_uint64 _ _ _ Hm Hu). fold i. cbn [mbind res_bind].
  assert (Hmax : b_n (i_ub i) ≤ (if is64 then UINT64_MAX else UINT32_MAX)) by (destruct is64; [done | by apply Hu32]).
  rewrite lshr_bounds_known by (done || lia). cbn [mbind res_bind].
  set (l := Z.shiftr (b_n (i_lb i)) k). set (u := Z.shiftr (b_n (i_ub i)) k). set (res := Z.shiftr (rho (dst, uvalue)) k).
  assert (Hlu : 0 ≤ l ∧ l ≤ res ≤ u) by (split_and!; [by apply Z.shiftr_nonneg|apply shiftr_mono; lia..]).
  split.
  - intros Hsmall. assert (u < 2 ^ 63) as Hu63.
    { destruct Hsmall as [Hk0|Hs]; [|eapply Z.le_lt_trans; [|exact Hs]]; subst u; rewrite Z.shiftr_div_pow2 by lia.
      - apply Z.div_lt_upper_bound; [by apply Z.pow_pos_nonneg; lia|]. pose proof (Z.pow_le_mono_r 2 1 k). lia.
      - apply Z.div_le_upper_bound; [by apply Z.pow_pos_nonneg; lia|]. pose proof (Z.pow_pos_nonneg 2 k). nia. }
    unfold to_int64. assert (fits_sint64 u = true) as -> by (unfold fits_sint64; lia). assert (fits_sint64 l = true) as -> by (unfold fits_sint64; lia).
    cbn [mbind res_bind]. rewrite (proj2 (Z.leb_le _ _)) by lia.
    pose proof (set_sound inv rho (dst, uvalue) (range l u) res Hm (range_wf _ _) (proj2 (member_range _ _ _) (proj2 Hlu))) as Hm1.
    eexists _, _. split; [done|]. split; [by apply assign_sound|]. unfold reads. rewrite !update_same, (update_other (dst, svalue) (dst, uvalue)), !update_same by done.
    rewrite s64_signed, u64_small by lia. split; [done|]. intros v H1 H2. by rewrite !update_other by done.
  - intros Hk0 Hbig. assert (u = b_n (i_ub i)) as -> by (subst u; by rewrite Hk0, Z.shiftr_0_r).
    unfold to_int64. by assert (fits_sint64 (b_n (i_ub i)) = false) as -> by (unfold fits_sint64; lia).
Qed.
End Soundness.

(** ** A domain of intervals *)

(** A store of an interval for each variable, without relations: it has the laws. *)
Definition normal (i : interval_t) : interval_t := mk_interval (mk_bound (b_is_infinite (i_lb i)) (b_n (i_lb i))) (mk_bound (b_is_infinite (i_ub i)) (b_n (i_ub i))).
Definition store : Type := variable → interval_t.
Definition store_set (d : store) (v : variable) (i : interval_t) : store := λ v', if decide (v' = v) then i else d v'.
#[local] Instance store_domain : NumDomain store := {
  eval_interval d v := normal (d v);
  set := store_set;
  assign d x y := store_set d x (d y);
  forget d v := store_set d v top;
  entails_number d r := match singleton (d (r, type_of)) with Some t => t =? -4 | None => false end;
}.
Lemma mk_bound_id b : bound_wf b = true → mk_bound (b_is_infinite b) (b_n b) = b.
Proof. destruct b as [[] n]; unfold bound_wf, mk_bound; cbn; [|done]. intros Hn. f_equal. destruct (0 <? n) eqn:?; lia. Qed.
Lemma normal_member i z : interval_wf i → member z i → member z (normal i).
Proof. intros [Hl Hu _] Hz%member_spec. unfold normal. rewrite !mk_bound_id by done. by apply member_mk. Qed.
#[local] Program Instance store_laws : NumDomainLaws store := { models d rho := ∀ v, member (rho v) (normal (d v)) }.
Next Obligation. intros d rho rho' Heq Hm v. cbn in *. rewrite <-Heq. apply Hm. Qed.
Next Obligation. intros d v. cbn. unfold normal. auto with interval. Qed.
Next Obligation. intros d rho v Hm. apply Hm. Qed.
Next Obligation. intros d rho v i n Hm Hi Hn v'. cbn. unfold store_set, update. destruct (decide (v' = v)); [by apply normal_member | apply Hm]. Qed.
Next Obligation. intros d rho x y Hm v'. cbn. unfold store_set, update. destruct (decide (v' = x)); apply Hm. Qed.
Next Obligation. intros d rho v n Hm v'. cbn. unfold store_set, update. destruct (decide (v' = v)); [apply member_top | apply Hm]. Qed.

(** A number in register 1 with these unsigned bounds. *)
Definition demo_store (lo hi : Z) : store := store_set (store_set (λ _, top) (1, type_of) (of_number (-4))) (1, uvalue) (range lo hi).
Definition demo_valuation (r : Z) : valuation := update (1, uvalue) r (update (1, type_of) (-4) (λ _, 0)).
Lemma demo_models lo hi r : lo ≤ r ≤ hi → models (demo_store lo hi) (demo_valuation r).
Proof.
  intros Hr v. cbn. unfold demo_store, demo_valuation, store_set, update. destruct (decide (v = (1, uvalue))); [by apply normal_member, member_range; [apply range_wf|]|].
  destruct (decide (v = (1, type_of))); [by apply normal_member, member_number; [apply of_number_wf|] | apply member_top].
Qed.

Lemma shl_sound_witness : ∃ inv' rho', shl (λ inv _, Ok inv) (demo_store 5 9) 1 (64 + 2) 64 = Ok inv' ∧ models inv' rho' ∧ rho' (1, uvalue) = 28 ∧
  (rho' (1, svalue) = s64 28 ∨ 2 ^ 63 ≤ 28 ∧ rho' (1, svalue) = 28) ∧ ∀ v, v ≠ (1, svalue) → v ≠ (1, uvalue) → rho' v = demo_valuation 7 v.
Proof. apply (shl_sound true (λ inv _, Ok inv) (demo_store 5 9) (demo_valuation 7) 1 (64 + 2)); [by apply demo_models|done|done]. Defined.
Lemma lshr_sound_witness : (∃ inv' rho', lshr (demo_store 5 9) 1 1 32 = Ok inv' ∧ models inv' rho' ∧ reads (1, svalue) (1, uvalue) 3 rho' ∧
  ∀ v, v ≠ (1, svalue) → v ≠ (1, uvalue) → rho' v = demo_valuation 7 v) ∧ lshr (demo_store 5 (2 ^ 63)) 1 0 64 = Throw.
Proof.
  split.
  - apply (lshr_sound false (demo_store 5 9) (demo_valuation 7) 1 1); [by apply demo_models|done|done|done|by left].
  - apply (lshr_sound true (demo_store 5 (2 ^ 63)) (demo_valuation 7) 1 0); [by apply demo_models|done|done|done|done|done].
Defined.
Lemma overflow_keeps_readings_witness :
  (∃ inv' rho', apply_signed (λ inv, Ok (set inv (1, svalue) (range (2 ^ 32 - 9) (2 ^ 32 + 9)))) (demo_store 5 9) (1, svalue) (1, uvalue) 32 = Ok inv' ∧
     models inv' rho' ∧ reads (1, svalue) (1, uvalue) (2 ^ 32 - 1) rho' ∧ ∀ v, v ≠ (1, svalue) → v ≠ (1, uvalue) → rho' v = demo_valuation 5 v) ∧
  (∃ inv' rho', apply_unsigned (λ inv, Ok (set inv (1, uvalue) (range (2 ^ 32 + 1) (2 ^ 32 + 9)))) (demo_store 5 9) (1, svalue) (1, uvalue) 32 = Ok inv' ∧
     models inv' rho' ∧ reads (1, svalue) (1, uvalue) 7 rho' ∧ ∀ v, v ≠ (1, svalue) → v ≠ (1, uvalue) → rho' v = demo_valuation 5 v).
Proof.
  split.
  - apply (proj1 (overflow_keeps_readings false _ (demo_store 5 9) (demo_valuation 5) (1, svalue) (1, uvalue) (2 ^ 32 - 1) ltac:(done))).
    eexists; split; [done|]. apply set_sound; [by apply demo_models|apply range_wf|by apply member_range].
  - apply (proj2 (overflow_keeps_readings false _ (demo_store 5 9) (demo_valuation 5) (1, svalue) (1, uvalue) (2 ^ 32 + 7) ltac:(done))).
    eexists; split; [done|]. apply set_sound; [by apply demo_models|apply range_wf|by apply member_range].
Defined.

(** A left shift into the top bit leaves a signed variable that is not a signed number: 2^63. *)
Lemma shl_signed_out_of_range : res_map (λ d, eval_interval d (1, svalue)) (shl (λ inv _, Ok inv) (demo_store 1 1) 1 63 64) = Ok (of_number (2 ^ 63)).
Proof. vm_compute. reflexivity. Qed.
(** A left shift of 64 bits by zero shifts a bound by 64. *)
Lemma shl_by_zero_undefined : shl (λ inv _, Ok inv) (demo_store 1 1) 1 0 64 = Fault.
Proof. vm_compute. reflexivity. Qed.
(** The bounds of a variable are cut one by one: a range over a multiple of the width is read as one number. *)
Lemma get_interval_unsound : get_interval true 32 (Some (-1)) (Some (2 ^ 32 + 1)) = Ok (of_number 1) ∧ 1 ≤ 5 ≤ 2 ^ 32 + 1 ∧ ¬ member (u32 5) (of_number 1).
Proof. split; [vm_compute; reflexivity|]. split; [lia|]. rewrite member_number. change (u32 5) with 5. lia. Qed.
(** A number that is not zero is taken to be positive, also when it is signed. *)
Lemma trim_unsound : trim_interval top (of_number 0) = range 1 UINT64_MAX ∧ member (-1) top ∧ ¬ member (-1) (trim_interval top (of_number 0)).
Proof.
  assert (Ht : trim_interval top (of_number 0) = range 1 UINT64_MAX) by (vm_compute; reflexivity). split; [done|]. split; [done|]. rewrite Ht, member_range. lia.
Qed.
